(* ===== verification/_CoqProject ===== *)
-Q . S2P
Prelude.v
Errors.v
PyText.v
Json.v
JsonIndent.v
PyTime.v
StorageLock.v
StorageState.v
StorageMonitor.v
Accounts.v
Attachments.v
Identity.v
MUtf7.v
ImapText.v
Retry.v
ImapFetcher.v
ImapFetcherSafe.v
SearchQuery.v
Manifest.v
Sha256.v
Database.v
DatabaseWf.v
SearchPages.v
ErrorPresentation.v
Requests.v
RequestAnswers.v
MessageList.v
World.v
EmlStorage.v
Config.v
ConfigSafe.v
Mbox.v
AttachmentExport.v
AttachmentComplete.v
Uuid.v
StorageRoot.v
UrlText.v
Credentials.v
OAuth.v
OAuthSafe.v
DeleteRemote.v
Snapshots.v
Registration.v
Sync.v
SyncDurable.v
SyncBatch.v
SyncCursor.v
SyncFindings.v
SyncFolders.v
Reindex.v
ReindexSamples.v
ReindexSafe.v
ReindexAtomic.v
ReindexTables.v
ReindexComplete.v
PstManifest.v
PstTables.v
PstStage.v
PstGenerations.v
PstReindex.v
PstSamples.v
PstSafe.v
Trash.v
Verify.v
VerifyManifest.v
PstJob.v
PstReindexSafe.v
PstReindexComplete.v
