(* ===== verification/Prelude.v ===== *)
(** * mail-dock: a verification development

    mail-dock (package [src/src/mail_dock]) backs up IMAP mail to a removable drive and browses it
    offline. EML files and an append-only manifest are the source of truth; a SQLite database is a
    rebuildable index; a state machine decides when the drive may be written.

    ** Parts of the program and the files that model them

    - [Prelude]: notation, tactics, the [maildock] hint database, Python dictionaries as
      association lists, generic lemmas. [Errors]: [domain/errors.py], [isinstance], the
      [result] and state monads ([let?], [let!]). [PyText]: Python strings as code points and as
      UTF-8. [PyTime]: UTC date-times, [domain/time_format.py] and the texts the program prints.
      [Json], [JsonIndent], [Sha256]: Python's [json] module on the values the program writes, and
      [hashlib.sha256] (executable, checked on test vectors). [Uuid], [UrlText]: the texts of
      [uuid.uuid4] and the queries of [urllib.parse].
    - [StorageState]: [domain/storage_state.py]; the class [StorageGate] is the permission
      interface the use cases receive. [StorageMonitor]: [presentation/storage_monitor.py], each
      slot and timer a function of the monitor state and of what the probe, the lock and the
      reconnect callback answer.
    - [StorageRoot], [StorageLock]: [infrastructure/storage/storage_root.py] and [detach.py]: the
      marker of a drive and how its root is found; the lock file as a transition system whose
      steps are the system calls of any number of processes.
    - [Config], [ConfigSafe]: [config.py], the settings file down to its bytes.
    - [Credentials]: the credential port of [domain/ports.py] and the keyring and session stores, one
      interface with laws and two instances. [OAuth], [OAuthSafe]: [infrastructure/security/oauth2.py] and the
      tokens of an account. [Registration]: [usecases/register_account.py].
    - [MUtf7], [ImapText]: modified UTF-7 and the texts of IMAP answers. [ImapFetcher],
      [ImapFetcherSafe]: [infrastructure/fetchers/generic_imap.py], a client whose server answers
      what it likes.
    - [Accounts], [Attachments], [Identity]: [domain/accounts.py], [domain/attachments.py],
      [domain/message_identity.py] and [domain/imap_flags.py]. [Retry]: [usecases/retry.py].
    - [SearchQuery]: [usecases/search_query.py], with SQLite's reading of LIKE patterns and FTS5
      strings as reference. [SearchPages]: [infrastructure/database/search_repository.py] and
      [usecases/search_messages.py]. [Requests], [RequestAnswers], [MessageList]: the query worker
      and the list of messages as a transition system of requests in flight; [ErrorPresentation]:
      the text of each error.
    - [Manifest]: [infrastructure/storage/manifest.py], down to the bytes of each line.
    - [Database]: [infrastructure/database/message_repository.py] on the finalized schema, a table
      a list of rows, an operation a function [Db -> Db] or [Db -> result (A * Db)]. [DatabaseWf]: the
      constraints of the schema as an invariant of every operation.
    - [World]: the database connection with its open batch, the EML files, the manifest's synced
      and buffered events. Each operation consumes one step of a fault oracle, which may raise any
      exception there instead of letting it take effect, so a statement about every oracle covers
      every crash point and every pattern of errors; [wp], [succeeds] and the [triple]s of [Errors]
      are the program logics over it.
    - [EmlStorage]: [infrastructure/storage/eml_storage.py] over the files of [World].
    - [Mbox], [AttachmentExport], [AttachmentComplete]: the mbox writer, the names and the files of
      exported attachments.
    - [Trash]: [usecases/trash.py] over [World], against the interface [StorageGate]; the manifest of
      a purge is an interface too ([PurgeLog]), with that of an IMAP account and that of a PST
      generation as instances.
    - [DeleteRemote]: [usecases/delete_remote.py] and [usecases/account_guards.py]; the mail server
      is a record of answers that may change at every step, its delete commands are logged in
      [World].
    - [Snapshots]: [usecases/snapshots.py], the account and folder snapshot events.
    - [Sync]: [usecases/sync_mail.py]; the closures of [sync_account] are operations on a state
      [sync_state] around [World], the server ([source]), the parser and the token ([environment])
      answer by the number of requests and steps made so far. Its theorems are in [SyncDurable]
      (what is in the database is on the disk), [SyncBatch] (the size of a batch), [SyncCursor] (the
      cursors of a folder and what a complete run records) and [SyncFindings].
    - [SyncFolders]: [usecases/sync_folders.py].
    - [Verify]: [usecases/verify.py] and [usecases/reparse.py] over [World]. [VerifyManifest]:
      [verify_manifest] over the bytes of the manifest files.
    - [Reindex]: [reindex] of [usecases/reindex.py] over [World], cut where its loops are: [gather]
      (the events), [plan_of] (identity links, purges, snapshots), [prepare] (the fetched messages),
      [write_rows] (the batch), [write_audit_entry]. Its theorems are in [ReindexSafe] (what the new
      rows stand for), [ReindexAtomic] (until the commit nothing changes), [ReindexTables] (the
      tables during the batch) and [ReindexComplete] (a run without faults); [ReindexSamples] is a
      synchronized world for their witnesses.
    - [PstManifest]: [infrastructure/storage/pst_manifest.py], the snapshots and the event log of a
      PST import, down to the bytes. [PstTables]: [infrastructure/database/pst_import_repository.py]
      on the tables of [Database]. [PstStage]: [infrastructure/storage/pst_import_storage.py] and
      the two stages of [usecases/import_pst.py] over [World]. [PstGenerations]: the rest of
      [usecases/import_pst.py] and [import_pst] of [presentation/threads/sync_worker.py], which
      composes them. [PstSafe]: what is saved is on the disk. [PstJob]: which import is started, and
      what becomes of a re-import. [PstReindex]: [reindex_pst] and the replacement of the database
      file; its theorems are in [PstReindexSafe] and [PstReindexComplete]. [PstSamples] is a PST of
      two messages for the witnesses.

    ** What the theorems show

    - Storage: a lost drive is written again only after an identity check and a verification;
      losses close the gates; the monitor attaches a lost root only after its reprobe found it and
      its callback verified it, cleans up once per loss, and detects a lasting loss.
    - Synchronization: whatever fails and wherever a run stops, every row with a stored path has its
      file on the disk and its fetch event synced in the manifest; from a server that answers in the
      order of the request, a folder's cursors never pass a message that is neither stored nor recorded
      as failed; a run that returns records every message of the folder, in any order; a batch keeps its limits; a refreshed folder list enables nothing.
    - Verification: a range check, an orphan scan and a manifest check leave intact files, stored
      files and readable events alone; a full check reports exactly the damaged files.
    - Durability: a manifest line reads back as its event, a torn tail loses no whole event, the
      writer refines an append-only log; saving an EML is atomic; a purge, of an IMAP or a PST message, keeps every file a
      message that stays needs, and recovery finishes each interrupted purge whose message is
      still the one of its intent.
    - Rebuilding: identity links resolve to the end of their chain; every row of a rebuilt database
      stands for a fetch event and a verified file, whatever fails; purged messages stay purged; a
      run without faults returns and holds every message whose file is intact; the database file is
      replaced in one step, after every account was rebuilt to its end, or not at all (a PST
      generation that meets an error is skipped, with what it has), and the passes over the generations end.
    - PST imports: the event log refines an append-only log, comes back after a crash, and its events
      are in order; an item the database calls saved has its synced event, its file and its message,
      however often stage B is interrupted; the tables keep their constraints; making a generation
      active is an exchange that a rollback undoes; nothing is resumed, discarded or replaced
      without the user's decision.
    - Remote deletion: every delete command has a verified local copy and a durable intent; the IMAP
      client expunges only what it has copied, its reading commands change nothing on the server,
      credentials travel over TLS only, folder names survive modified UTF-7.
    - Accounts: a registration the credential store does not refuse leaves every row with its
      password, and the rows as they were when it raises; a code is exchanged only for the
      request that asked for it; the stored refresh token follows the provider's, but for an answer
      refused because of its life; setting a
      secret leaves those of other accounts alone.
    - One instance: while nobody removes the lock file, at most one process holds it; an initialized
      root is found again.
    - Exports and settings: an export overwrites no file and ends, with every part it selects or at
      a name that is too long; a settings file that is saved reads back, unless it is of a later
      version. Window: checking that a request is current and emitting its signal are two steps of
      the query thread, so one signal of a superseded request may still come; the list shows the
      answers of its current query only.
    - Search: terms are matched literally, queries parse to the plan of their tokens, the pages of a
      listing cover every match exactly once, counts agree with listings.
    - Data: identifiers and names are safe path components, paths stay below the root, keys
      identify messages, timestamps order as time does, merges keep folders and states.
    - Database: the repository keeps the constraints of its schema.
    - Defects, each proved: excluded search terms that include rows, a day filter that loses the
      last second, a heartbeat that postpones detachment for ever, truncation that undoes
      sanitization, a recovery that purges a message fetched again, aliases lost by a merge,
      quarantined files destroyed by the next start, label removals that are never sent, stale
      UIDVALIDITY not noticed by deletions, a reconciliation that marks every folder, a moved state
      overwritten by the next run, a failed and moved message that stops every later run, a forced
      fetch with two identities, a folder refresh that restarts the history, a lost file that ends the
      rebuild of its account, a re-import that never becomes active, an abandoned import that blocks
      its file, purged messages that a switch of generations revives, folder names with spaces sent
      as two words, a message count taken for the UIDVALIDITY, a settings file of a later version, a
      first line that an mbox loses, a view that stays busy, pages that are not shown, an attachment
      with a name of maximal length, deletions a keyring refused, an OAuth error that escapes, a
      lock with two holders, a lock kept by a failed start, a root marker cut short, a rotated token
      lost with a life beyond the calendar, attachments with a Content-ID that an export leaves out,
      purges of PST messages that can never be finished, a result of a superseded request that is
      still emitted, a message lost when the server answers out of order, and a PST generation
      installed with a part of its messages.

    ** Bounds, fuel, parameters

    Loops over lists are structural. [SearchPages.list_all_messages] takes fuel; its theorem shows
    that more fuel than messages suffices. [PyText] and [Json] decode with fuel the length of the
    input; [Reindex.resolve_loop] has as much fuel as there are links, which is enough. Integers are
    unbounded, as Python's are; CRC-32 and SHA-256 work on 32-bit words as [Z] with explicit masks.
    Unicode normalization ([nfc], [normalize_for_search]), FTS5's [MATCH], the MIME parser, the
    clock, random identifiers and the backoff's jitter are parameters; what is assumed of them is a
    hypothesis of the theorem that needs it.

    ** Not modelled

    The converter of PST files and the check of its staging directory for links and special files;
    MIME parsing and the rendering of messages, which call libraries; schema migrations, connections,
    backups and index maintenance of the database, and the branches for schemas before the current
    one; the capability probes of a drive and the Windows branches; the loops of
    [usecases/snapshots.py] over several accounts ([World] holds one manifest) and the start-up
    recovery that calls them (the range check and the recovery of purges, its parts, are modelled);
    reading and rendering the file of an opened message, which [Requests] takes as an answer; the Qt views, dialogs and their texts; the command
    line. *)

From stdpp Require Export base tactics option strings list gmap sorting.
From Stdlib Require Export ZArith Lia.

(** ** Scopes and booleans *)

Declare Scope md_scope.
Delimit Scope md_scope with md.
Open Scope md_scope.

(** Boolean equality from a decidable equality, written [x =? y] as the code's [==]. *)
Definition eqb {A} `{EqDecision A} (x y : A) : bool := bool_decide (x = y).
Infix "==" := eqb (at level 70, no associativity) : md_scope.
Notation "x != y" := (negb (eqb x y)) (at level 70, no associativity) : md_scope.

Lemma eqb_true {A} `{EqDecision A} (x y : A) : (x == y) = true <-> x = y.
Proof. unfold eqb. apply bool_decide_eq_true. Qed.
Lemma eqb_false {A} `{EqDecision A} (x y : A) : (x == y) = false <-> x <> y.
Proof. unfold eqb. apply bool_decide_eq_false. Qed.
Lemma eqb_refl {A} `{EqDecision A} (x : A) : (x == x) = true.
Proof. by apply eqb_true. Qed.
Lemma eqb_neq {A} `{EqDecision A} (x y : A) : x <> y -> (x == y) = false.
Proof. apply eqb_false. Qed.
Lemma neqb_true {A} `{EqDecision A} (x y : A) : (x != y) = true <-> x <> y.
Proof. rewrite negb_true_iff. apply eqb_false. Qed.

Lemma eqb_true_1 {A} `{EqDecision A} (x y : A) : (x == y) = true -> x = y.
Proof. apply eqb_true. Qed.
Lemma eqb_false_1 {A} `{EqDecision A} (x y : A) : (x == y) = false -> x <> y.
Proof. apply eqb_false. Qed.

(** [x in collection] on a list, as a boolean. *)
Definition mem {A} `{EqDecision A} (x : A) (l : list A) : bool := existsb (eqb x) l.
Arguments mem : simpl never.
Arguments eqb : simpl never.

Lemma mem_true {A} `{EqDecision A} (x : A) l : mem x l = true <-> x ∈ l.
Proof.
  unfold mem. rewrite existsb_exists. split.
  - intros (y & Hy & ->%eqb_true). by apply list_elem_of_In.
  - intros Hx. exists x. split; [by apply list_elem_of_In | apply eqb_refl].
Qed.
Lemma mem_false {A} `{EqDecision A} (x : A) l : mem x l = false <-> x ∉ l.
Proof. rewrite <- mem_true. by destruct (mem x l). Qed.

Lemma mem_cons {A} `{EqDecision A} (x y : A) l : mem x (y :: l) = (x == y) || mem x l.
Proof. done. Qed.

(** ** Tactics *)

(** Turn boolean facts into propositions. *)
Ltac bsimp :=
  repeat match goal with
  | H : (_ && _)%bool = true |- _ => apply andb_true_iff in H as [? ?]
  | H : (_ || _)%bool = false |- _ => apply orb_false_iff in H as [? ?]
  | H : (_ || _)%bool = true |- _ => apply orb_true_iff in H
  | H : (_ && _)%bool = false |- _ => apply andb_false_iff in H
  | H : negb _ = true |- _ => apply negb_true_iff in H
  | H : negb _ = false |- _ => apply negb_false_iff in H
  | H : (_ == _) = true |- _ => apply eqb_true_1 in H
  | H : (_ == _) = false |- _ => apply eqb_false_1 in H
  | H : mem _ _ = true |- _ => apply mem_true in H
  | H : mem _ _ = false |- _ => apply mem_false in H
  | H : bool_decide _ = true |- _ => apply bool_decide_eq_true in H
  | H : bool_decide _ = false |- _ => apply bool_decide_eq_false in H
  | H : (_ <? _)%Z = true |- _ => apply Z.ltb_lt in H
  | H : (_ <? _)%Z = false |- _ => apply Z.ltb_ge in H
  | H : (_ <=? _)%Z = true |- _ => apply Z.leb_le in H
  | H : (_ <=? _)%Z = false |- _ => apply Z.leb_gt in H
  | H : (_ =? _)%Z = true |- _ => apply Z.eqb_eq in H
  | H : (_ =? _)%Z = false |- _ => apply Z.eqb_neq in H
  | H : (_ <? _)%nat = true |- _ => apply Nat.ltb_lt in H
  | H : (_ <? _)%nat = false |- _ => apply Nat.ltb_ge in H
  | H : (_ <=? _)%nat = true |- _ => apply Nat.leb_le in H
  | H : (_ <=? _)%nat = false |- _ => apply Nat.leb_gt in H
  end.

(** Split the first [match] or [if] of the goal or of a hypothesis, keeping the equation. *)
Ltac split_match :=
  match goal with
  | |- context [match ?x with _ => _ end] =>
      lazymatch x with context [match _ with _ => _ end] => fail | _ => destruct x eqn:? end
  | H : context [match ?x with _ => _ end] |- _ =>
      lazymatch x with context [match _ with _ => _ end] => fail | _ => destruct x eqn:? end
  end.

Ltac split_matches := repeat (split_match; simplify_eq/=).

(** Invert [Some x = Some y] and pair equations that case analysis leaves. *)
Ltac inj := repeat match goal with
  | H : Some _ = Some _ |- _ => injection H as H; try subst
  | H : (_, _) = (_, _) |- _ => injection H as ? ?; try subst
  end.

Create HintDb maildock.
#[export] Hint Rewrite @eqb_refl @length_app @length_map : maildock.
#[export] Hint Resolve eqb_refl : maildock.

(** ** Options *)

(** [d.get(k, default)]. *)
Definition get_or {A} (d : A) (o : option A) : A := match o with Some x => x | None => d end.

(** Python's [a or b] on optional values whose falsy case is [None]. *)
Definition or_else {A} (o1 o2 : option A) : option A :=
  match o1 with Some x => Some x | None => o2 end.

(** ** Dictionaries with insertion order

    A Python [dict] that the code iterates is an association list: assignment to an existing
    key keeps its position, a new key goes last. *)

Section Dict.
Context {K V : Type} `{EqDecision K}.
Implicit Types d : list (K * V).

Fixpoint dict_get (k : K) d : option V :=
  match d with
  | [] => None
  | (k', v) :: d' => if k == k' then Some v else dict_get k d'
  end.

Fixpoint dict_set (k : K) (v : V) d : list (K * V) :=
  match d with
  | [] => [(k, v)]
  | (k', v') :: d' => if k == k' then (k', v) :: d' else (k', v') :: dict_set k v d'
  end.

Definition dict_pop (k : K) d : list (K * V) := filter (fun p => p.1 <> k) d.

Lemma dict_get_set_eq k v d : dict_get k (dict_set k v d) = Some v.
Proof.
  induction d as [|[k' v'] d IH]; simpl; [by rewrite eqb_refl|].
  destruct (k == k') eqn:E; simpl; rewrite E; auto.
Qed.

Lemma dict_get_set_ne k k' v d : k <> k' -> dict_get k (dict_set k' v d) = dict_get k d.
Proof.
  intros Hne. induction d as [|[j w] d IH]; simpl; [by rewrite eqb_neq|].
  destruct (k' == j) eqn:E; simpl.
  - bsimp; subst. by rewrite !(eqb_neq k j).
  - destruct (k == j); auto.
Qed.

Lemma dict_get_In k v d : dict_get k d = Some v -> (k, v) ∈ d.
Proof.
  induction d as [|[j w] d IH]; simpl; [done|].
  destruct (k == j) eqn:E; intros; bsimp; simplify_eq; set_solver.
Qed.

Lemma dict_get_None k d : dict_get k d = None <-> k ∉ d.*1.
Proof.
  induction d as [|[j w] d IH]; simpl; [split; [set_solver | done]|].
  destruct (k == j) eqn:E; bsimp; subst; [set_solver|]. rewrite IH. set_solver.
Qed.

Lemma dict_get_NoDup k v d : NoDup d.*1 -> (k, v) ∈ d -> dict_get k d = Some v.
Proof.
  induction d as [|[j w] d IH]; csimpl; [set_solver|]. intros [Hj Hd]%NoDup_cons [E|Hin]%elem_of_cons.
  - injection E as -> ->. by rewrite eqb_refl.
  - rewrite eqb_neq; [auto|]. intros ->. apply Hj. apply list_elem_of_fmap. by exists (j, v).
Qed.

(** A dictionary is a finite map: the order of its items does not matter to lookups. *)
Lemma dict_get_perm k d d' : NoDup d.*1 -> d ≡ₚ d' -> dict_get k d = dict_get k d'.
Proof.
  intros Hd Hp. destruct (dict_get k d) as [v|] eqn:E.
  - symmetry. apply dict_get_NoDup; [by rewrite <- Hp | rewrite <- Hp; by apply dict_get_In].
  - apply dict_get_None in E. symmetry. apply dict_get_None. by rewrite <- Hp.
Qed.

Lemma dict_get_pop k k' d : dict_get k (dict_pop k' d) = if k == k' then None else dict_get k d.
Proof.
  unfold dict_pop. induction d as [|[j w] d IH]; [by destruct (k == k')|].
  rewrite filter_cons. cbn [fst]. case_decide as Hj; cbn [dict_get]; rewrite IH.
  - destruct (k == j) eqn:E; [|done]. bsimp. subst. by rewrite eqb_neq.
  - subst. by destruct (k == k').
Qed.

Lemma dict_set_keys k v d : (dict_set k v d).*1 = if mem k d.*1 then d.*1 else d.*1 ++ [k].
Proof.
  induction d as [|[j w] d IH]; [done|]. csimpl. rewrite mem_cons.
  destruct (k == j) eqn:E; csimpl; [done|]. rewrite IH. by destruct (mem _ _).
Qed.

Lemma dict_set_NoDup k v d : NoDup d.*1 -> NoDup (dict_set k v d).*1.
Proof.
  intros Hd. rewrite dict_set_keys. destruct (mem k d.*1) eqn:E; [done|]. bsimp.
  apply NoDup_app. repeat split; [done | set_solver | apply NoDup_singleton].
Qed.
End Dict.

#[export] Hint Rewrite @dict_get_set_eq : maildock.

(** ** Lists *)

(** The last element satisfying a test: what a loop that overwrites a variable returns. *)
Definition find_last {A} (p : A -> bool) (l : list A) : option A :=
  fold_left (fun acc x => if p x then Some x else acc) l None.

Lemma fold_last_app {A} (p : A -> bool) l acc x :
  fold_left (fun acc x => if p x then Some x else acc) (l ++ [x]) acc
  = if p x then Some x else fold_left (fun acc x => if p x then Some x else acc) l acc.
Proof. by rewrite fold_left_app. Qed.

Lemma find_last_app {A} (p : A -> bool) l x :
  find_last p (l ++ [x]) = if p x then Some x else find_last p l.
Proof. apply fold_last_app. Qed.

Lemma find_last_Some {A} (p : A -> bool) l x :
  find_last p l = Some x -> x ∈ l /\ p x = true.
Proof.
  induction l as [|y l IH] using rev_ind; [done|]. rewrite find_last_app.
  destruct (p y) eqn:E; intros; simplify_eq; set_solver.
Qed.

Lemma find_last_None {A} (p : A -> bool) l :
  find_last p l = None <-> Forall (fun x => p x = false) l.
Proof.
  induction l as [|y l IH] using rev_ind; [done|].
  rewrite find_last_app, Forall_app, Forall_singleton.
  destruct (p y) eqn:E; [|tauto]. split; [done | intros [_ ?]; congruence].
Qed.

Lemma filter_perm {A} (p : A -> bool) l l' : l ≡ₚ l' -> List.filter p l ≡ₚ List.filter p l'.
Proof.
  induction 1 as [|x l l' _ IH|x y l|l l' l'' _ IH1 _ IH2]; cbn [List.filter]; [done| | |by rewrite IH1].
  - case_match; by rewrite IH.
  - repeat case_match; done || constructor.
Qed.
Lemma filter_all {A} (f : A -> bool) l : (forall x, x ∈ l -> f x = true) -> List.filter f l = l.
Proof.
  induction l as [|x l IH]; cbn [List.filter]; intros H; [done|]. rewrite H by left. by rewrite IH by (intros; apply H; by right).
Qed.
Lemma filter_none {A} (f : A -> bool) l : (forall x, x ∈ l -> f x = false) -> List.filter f l = [].
Proof.
  induction l as [|x l IH]; cbn [List.filter]; intros H; [done|]. rewrite H by left. by rewrite IH by (intros; apply H; by right).
Qed.

Lemma existsb_false {A} (p : A -> bool) l :
  existsb p l = false <-> forall x, x ∈ l -> p x = false.
Proof.
  rewrite <- not_true_iff_false, existsb_exists. split.
  - intros H x Hx. destruct (p x) eqn:E; [|done]. destruct H. exists x.
    split; [by apply list_elem_of_In | done].
  - intros H (x & Hx%list_elem_of_In & Hp). by rewrite (H x Hx) in Hp.
Qed.

Lemma existsb_true {A} (p : A -> bool) l : existsb p l = true <-> exists x, x ∈ l /\ p x = true.
Proof. rewrite existsb_exists. by setoid_rewrite list_elem_of_In. Qed.

Lemma forallb_true {A} (p : A -> bool) l : forallb p l = true <-> forall x, x ∈ l -> p x = true.
Proof. rewrite forallb_forall. by setoid_rewrite list_elem_of_In. Qed.

Lemma elem_of_drop_1 {A} (x : A) n l : x ∈ drop n l -> x ∈ l.
Proof. intros H. rewrite <- (take_drop n l). set_solver. Qed.
Lemma elem_of_take_1 {A} (x : A) n l : x ∈ take n l -> x ∈ l.
Proof. intros H. rewrite <- (take_drop n l). set_solver. Qed.

(** Prefixes, for statements about every point of an execution. *)
Lemma prefix_snoc_inv {A} (l1 l2 : list A) x :
  l1 `prefix_of` l2 ++ [x] -> l1 `prefix_of` l2 \/ l1 = l2 ++ [x].
Proof.
  intros [k Hk]. destruct k as [|y k _] using rev_ind.
  - right. by rewrite app_nil_r in Hk.
  - left. rewrite app_assoc in Hk. apply app_inj_tail in Hk as [-> ->]. by exists k.
Qed.

(** Elements with the same key are the same when keys are distinct. *)
Lemma NoDup_fmap_inj_elem {A B} (f : A -> B) l x y :
  NoDup (map f l) -> x ∈ l -> y ∈ l -> f x = f y -> x = y.
Proof.
  induction l as [|z l IH]; [set_solver|]. intros [Hz Hl]%NoDup_cons Hx Hy E.
  apply elem_of_cons in Hx as [->|Hx], Hy as [->|Hy]; [done | | |auto].
  - destruct Hz. rewrite E. by apply list_elem_of_fmap_2.
  - destruct Hz. rewrite <- E. by apply list_elem_of_fmap_2.
Qed.

(** [LIMIT] and [OFFSET]: list prefixes counted by an integer. *)
Fixpoint take_Z {A} (n : Z) (l : list A) : list A :=
  match l with [] => [] | x :: l => if (n <=? 0)%Z then [] else x :: take_Z (n - 1) l end.
Fixpoint drop_Z {A} (n : Z) (l : list A) : list A :=
  match l with [] => [] | x :: l' => if (n <=? 0)%Z then l else drop_Z (n - 1) l' end.

Lemma take_Z_take {A} (l : list A) : forall n, take_Z n l = take (Z.to_nat n) l.
Proof.
  induction l as [|x l IH]; intros n; cbn [take_Z]; [by rewrite take_nil|].
  destruct (Z.leb_spec n 0); [by replace (Z.to_nat n) with O by lia|].
  replace (Z.to_nat n) with (S (Z.to_nat (n - 1))) by lia. cbn [take]. by rewrite IH.
Qed.
