(* ===== verification/Errors.v ===== *)
(** * Errors: the exception hierarchy and the error monad

    [domain/errors.py] declares the domain exceptions; use cases tell them apart with [except]
    clauses, that is by subclass tests. An exception value is its class and its message
    ([str(error)]). The Python built-in exceptions the modelled code raises or catches are
    classes of the same hierarchy. *)

From S2P Require Import Prelude.

(** ** Classes *)

Inductive exc_class :=
  | BaseExc                       (* Python's [Exception] *)
  | MailDockError | SearchQueryError | ConfigError | ConfigVersionTooNewError
  | StorageError | StorageUnsupportedError | StorageDetachedError | StorageForeignRootError
  | StorageRootMissingError | StorageLockedError | InsufficientSpaceError
  | DatabaseError | MigrationError | SchemaVersionTooNewError
  | FetchError | AuthenticationError | TransientError | RateLimitedError | PermanentError
  | ArchiveImportError | ConverterNotFound | ConverterFailed | UnreadableArchive
  | SourceChangedError | UidValidityChanged | OversizeError | ManifestCorruptError
  | CredentialStoreError | OperationCancelledError
  (* built-ins *)
  | ValueError | TypeError | KeyError | AssertionError | RuntimeError | OSError | FileNotFoundError
  | FileExistsError
  | SqliteError.

#[export] Instance exc_class_eq_dec : EqDecision exc_class.
Proof. solve_decision. Defined.

(** The [class C(Parent)] clauses. *)
Definition parent (c : exc_class) : option exc_class :=
  match c with
  | BaseExc => None
  | MailDockError => Some BaseExc
  | SearchQueryError | ConfigError | StorageError | DatabaseError | FetchError
  | ArchiveImportError | CredentialStoreError | OperationCancelledError => Some MailDockError
  | ConfigVersionTooNewError => Some ConfigError
  | StorageUnsupportedError | StorageDetachedError | StorageForeignRootError
  | StorageRootMissingError | StorageLockedError | InsufficientSpaceError
  | ManifestCorruptError => Some StorageError
  | MigrationError | SchemaVersionTooNewError => Some DatabaseError
  | AuthenticationError | TransientError | PermanentError | UidValidityChanged
  | OversizeError => Some FetchError
  | RateLimitedError => Some TransientError
  | ConverterNotFound | ConverterFailed | UnreadableArchive | SourceChangedError =>
      Some ArchiveImportError
  | ValueError | TypeError | KeyError | AssertionError | RuntimeError | OSError | SqliteError => Some BaseExc
  | FileNotFoundError | FileExistsError => Some OSError
  end.

(** [issubclass]: the hierarchy is at most four deep, so five steps reach the root. *)
Fixpoint subclass_fuel (n : nat) (c d : exc_class) : bool :=
  if c == d then true
  else match n, parent c with
       | S n, Some p => subclass_fuel n p d
       | _, _ => false
       end.

Definition subclass (c d : exc_class) : bool := subclass_fuel 5 c d.

Record exn := Exn { exn_class : exc_class; exn_msg : string }.

#[export] Instance exn_eq_dec : EqDecision exn.
Proof. solve_decision. Defined.

Definition isinstance (e : exn) (c : exc_class) : bool := subclass (exn_class e) c.

(** ** Results *)

Inductive result (A : Type) := Ok (a : A) | Err (e : exn).
Arguments Ok {A} a.
Arguments Err {A} e.

Definition raise {A} (c : exc_class) (msg : string) : result A := Err (Exn c msg).

Definition rbind {A B} (m : result A) (k : A -> result B) : result B :=
  match m with Ok a => k a | Err e => Err e end.

Definition is_ok {A} (m : result A) : bool := match m with Ok _ => true | Err _ => false end.

Notation "'let?' x ':=' m 'in' k" := (rbind m (fun x => k))
  (at level 200, x pattern, m at level 100, k at level 200, right associativity) : md_scope.
Notation "m ';?' k" := (rbind m (fun _ => k))
  (at level 100, right associativity) : md_scope.

(** [if cond: raise C(msg)]. *)
Definition check (ok : bool) (c : exc_class) (msg : string) : result unit :=
  if ok then Ok tt else raise c msg.

Lemma check_ok ok c msg : check ok c msg = Ok tt <-> ok = true.
Proof. unfold check, raise. destruct ok; split; congruence. Qed.

Lemma Ok_inj {A} (x y : A) : Ok x = Ok y -> x = y.
Proof. by intros [= ->]. Qed.

Lemma rbind_ok {A B} (m : result A) (k : A -> result B) b :
  rbind m k = Ok b <-> exists a, m = Ok a /\ k a = Ok b.
Proof. destruct m; simpl; split; [eauto | naive_solver | done | naive_solver]. Qed.

(** ** Computations with state and exceptions

    A Python procedure over a state [S] returns a value or raises; whatever it changed before
    raising stays changed. *)

Definition M (S A : Type) := S -> result A * S.

Section Monad.
Context {S : Type}.

Definition mret {A} (a : A) : M S A := fun s => (Ok a, s).
Definition mraise {A} (c : exc_class) (msg : string) : M S A := fun s => (raise c msg, s).
Definition mthrow {A} (e : exn) : M S A := fun s => (Err e, s).
Definition mbnd {A B} (m : M S A) (k : A -> M S B) : M S B :=
  fun s => match m s with
           | (Ok a, s') => k a s'
           | (Err e, s') => (Err e, s')
           end.
Definition mget : M S S := fun s => (Ok s, s).
Definition mgets {A} (f : S -> A) : M S A := fun s => (Ok (f s), s).
Definition mmodify (f : S -> S) : M S unit := fun s => (Ok tt, f s).
Definition mlift {A} (r : result A) : M S A := fun s => (r, s).
Definition mtry {A} (m : M S A) (h : exn -> M S A) : M S A :=
  fun s => match m s with
           | (Ok a, s') => (Ok a, s')
           | (Err e, s') => h e s'
           end.
Definition mwhen (b : bool) (m : M S unit) : M S unit := if b then m else mret tt.
Fixpoint mfor {A} (l : list A) (body : A -> M S unit) : M S unit :=
  match l with
  | [] => mret tt
  | x :: l' => mbnd (body x) (fun _ => mfor l' body)
  end.
End Monad.

Notation "'let!' x ':=' m 'in' k" := (mbnd m (fun x => k))
  (at level 200, x pattern, m at level 100, k at level 200, right associativity) : md_scope.
Notation "m ';!' k" := (mbnd m (fun _ => k))
  (at level 100, right associativity) : md_scope.

Lemma mbnd_ok {S A B} (m : M S A) (k : A -> M S B) s b s' :
  mbnd m k s = (Ok b, s') <-> exists a s1, m s = (Ok a, s1) /\ k a s1 = (Ok b, s').
Proof.
  unfold mbnd. destruct (m s) as [[a|e] s1]; split; [eauto | naive_solver | done | naive_solver].
Qed.

(** ** The hierarchy *)

Lemma subclass_refl c : subclass c c = true.
Proof. by destruct c. Qed.

Lemma subclass_trans a b c : subclass a b = true -> subclass b c = true -> subclass a c = true.
Proof. destruct a, b; try discriminate; destruct c; easy. Qed.

(** The fuel of [subclass] is enough: one more step changes nothing. *)
Lemma subclass_fuel_enough c d : subclass_fuel 6 c d = subclass c d.
Proof. by destruct c, d. Qed.

#[export] Hint Resolve subclass_refl : maildock.

(** ** Triples

    [triple P m Q E]: from a state that satisfies [P], [m] ends with a value and a state that
    satisfy [Q], or with an exception in a state that satisfies [E]. *)

Section Triples.
Context {S : Type}.

Definition post {A} (Q : A -> S -> Prop) (E : S -> Prop) (o : result A * S) : Prop :=
  match o with (Ok a, s) => Q a s | (Err _, s) => E s end.
Definition triple {A} (P : S -> Prop) (m : M S A) (Q : A -> S -> Prop) (E : S -> Prop) : Prop :=
  forall s, P s -> post Q E (m s).

Lemma triple_conseq {A} (P P' : S -> Prop) (m : M S A) Q Q' (E E' : S -> Prop) :
  triple P' m Q' E' -> (forall s, P s -> P' s) -> (forall a s, Q' a s -> Q a s) ->
  (forall s, E' s -> E s) -> triple P m Q E.
Proof. intros Hm HP HQ HE s Hs. specialize (Hm s (HP s Hs)). unfold post in *. repeat case_match; auto. Qed.

Lemma triple_ret {A} (P : S -> Prop) (a : A) Q E : (forall s, P s -> Q a s) -> triple P (mret a) Q E.
Proof. intros H s Hs. by apply H. Qed.
Lemma triple_gets {A} (P : S -> Prop) (f : S -> A) Q E : (forall s, P s -> Q (f s) s) -> triple P (mgets f) Q E.
Proof. intros H s Hs. by apply H. Qed.
Lemma triple_modify (P : S -> Prop) (f : S -> S) (Q : unit -> S -> Prop) E :
  (forall s, P s -> Q tt (f s)) -> triple P (mmodify f) Q E.
Proof. intros H s Hs. by apply H. Qed.
Lemma triple_lift {A} (P : S -> Prop) (r : result A) Q (E : S -> Prop) :
  (forall a s, r = Ok a -> P s -> Q a s) -> (forall s, P s -> E s) -> triple P (mlift r) Q E.
Proof. intros H He s Hs. destruct r; cbn; auto. Qed.
Lemma triple_throw {A} (P : S -> Prop) e (Q : A -> S -> Prop) (E : S -> Prop) :
  (forall s, P s -> E s) -> triple P (mthrow e) Q E.
Proof. intros H s Hs. by apply H. Qed.
Lemma triple_raise {A} (P : S -> Prop) c msg (Q : A -> S -> Prop) (E : S -> Prop) :
  (forall s, P s -> E s) -> triple P (mraise c msg) Q E.
Proof. intros H s Hs. by apply H. Qed.
Lemma triple_bnd {A B} (P : S -> Prop) (m : M S A) (k : A -> M S B) Q R E :
  triple P m Q E -> (forall a, triple (Q a) (k a) R E) -> triple P (mbnd m k) R E.
Proof.
  intros Hm Hk s Hs. specialize (Hm s Hs). unfold mbnd. destruct (m s) as [[a|e] s']; [|done].
  by apply Hk.
Qed.
Lemma triple_try {A} (P : S -> Prop) (m : M S A) h Q E' E :
  triple P m Q E' -> (forall e, triple E' (h e) Q E) -> triple P (mtry m h) Q E.
Proof.
  intros Hm Hh s Hs. specialize (Hm s Hs). unfold mtry. destruct (m s) as [[a|e] s']; [done|].
  by apply Hh.
Qed.
Lemma triple_and {A} (P P' : S -> Prop) (m : M S A) Q Q' (E E' : S -> Prop) :
  triple P m Q E -> triple P' m Q' E' ->
  triple (fun s => P s /\ P' s) m (fun a s => Q a s /\ Q' a s) (fun s => E s /\ E' s).
Proof.
  intros H H' s [Hs Hs']. specialize (H s Hs). specialize (H' s Hs'). unfold post in *.
  by destruct (m s) as [[a|e] s'].
Qed.
(** A fact about no state moves out of the precondition. *)
Lemma triple_pure {A} (P : S -> Prop) (H : Prop) (m : M S A) Q E :
  (H -> triple P m Q E) -> triple (fun s => P s /\ H) m Q E.
Proof. intros Hm s [Hs HH]. by apply Hm. Qed.

(** [m] keeps [P] however it ends. *)
Definition keeps {A} (P : S -> Prop) (m : M S A) : Prop := triple P m (fun _ => P) P.

Lemma keeps_ret {A} P (a : A) : keeps P (mret a).
Proof. by apply triple_ret. Qed.
Lemma keeps_lift {A} P (r : result A) : keeps P (mlift r).
Proof. by apply triple_lift. Qed.
Lemma keeps_gets {A} P (f : S -> A) : keeps P (mgets f).
Proof. by apply triple_gets. Qed.
Lemma keeps_throw {A} P e : keeps P (@mthrow S A e).
Proof. by apply triple_throw. Qed.
Lemma keeps_raise {A} P c msg : keeps P (@mraise S A c msg).
Proof. by apply triple_raise. Qed.
Lemma keeps_modify P (f : S -> S) : (forall s, P s -> P (f s)) -> keeps P (mmodify f).
Proof. intros H. by apply triple_modify. Qed.
Lemma keeps_bnd {A B} P (m : M S A) (k : A -> M S B) :
  keeps P m -> (forall a, keeps P (k a)) -> keeps P (mbnd m k).
Proof. intros Hm Hk. by eapply triple_bnd. Qed.
Lemma keeps_try {A} P (m : M S A) h : keeps P m -> (forall e, keeps P (h e)) -> keeps P (mtry m h).
Proof. intros Hm Hh. by eapply triple_try. Qed.
Lemma keeps_when P b m : keeps P m -> keeps P (mwhen b m).
Proof. destruct b; [done|]. intros _. apply keeps_ret. Qed.
Lemma keeps_if {A} P (b : bool) (m n : M S A) : keeps P m -> keeps P n -> keeps P (if b then m else n).
Proof. by destruct b. Qed.
Lemma keeps_for_in {A} P (l : list A) body :
  (forall a, a ∈ l -> keeps P (body a)) -> keeps P (mfor l body).
Proof.
  induction l as [|a l IH]; intros H; [apply keeps_ret|]. cbn [mfor]. apply keeps_bnd.
  - apply H. by left.
  - intros _. apply IH. intros b Hb. apply H. by right.
Qed.
Lemma keeps_for {A} P (l : list A) body : (forall a, keeps P (body a)) -> keeps P (mfor l body).
Proof. intros H. by apply keeps_for_in. Qed.
End Triples.

Create HintDb keeps.
#[export] Hint Resolve keeps_ret keeps_lift keeps_gets keeps_throw keeps_raise keeps_bnd keeps_try
  keeps_when keeps_if keeps_for : keeps.
