(* ===== verification/PyText.v ===== *)
(** * PyText: Python strings

    Two views of [str] are used. Text-processing components work on code points ([pystr]).
    Everything that only stores, compares or concatenates strings (JSON values, database columns,
    identifiers) uses Rocq's [string], read as the UTF-8 encoding (with [surrogatepass]) of the
    Python string; [code_points] goes from one to the other.

    Character classes are those of CPython's Unicode database, listed exhaustively. *)

From S2P Require Import Prelude Errors.
From Stdlib Require Import Ascii.

(** ** Code points *)

Notation pystr := (list Z).

Definition byte_of (a : ascii) : Z := Z.of_N (N_of_ascii a).
Definition ascii_of (z : Z) : ascii := ascii_of_N (Z.to_N z).

Fixpoint bytes_of (s : string) : list Z :=
  match s with EmptyString => [] | String a s => byte_of a :: bytes_of s end.
Fixpoint string_of (l : list Z) : string :=
  match l with [] => EmptyString | z :: l => String (ascii_of z) (string_of l) end.

(** A literal of the source, all of whose characters are ASCII. *)
Definition lit (s : string) : pystr := bytes_of s.

(** [len(character.encode("utf-8"))] *)
Definition utf8_char_len (c : Z) : Z :=
  if (c <? 128)%Z then 1 else if (c <? 2048)%Z then 2 else if (c <? 65536)%Z then 3 else 4.

Definition is_surrogate (c : Z) : bool := ((0xD800 <=? c) && (c <=? 0xDFFF))%Z.

Definition utf8_size (s : pystr) : Z := fold_right (fun c n => (utf8_char_len c + n)%Z) 0%Z s.

(** [len(s.encode("utf-8"))]: a lone surrogate raises [UnicodeEncodeError], a [ValueError]. *)
Definition utf8_len (s : pystr) : result Z :=
  if existsb is_surrogate s then raise ValueError "surrogates not allowed"
  else Ok (utf8_size s).

(** Decoding of a UTF-8 byte string, by the length its first byte announces. *)
Fixpoint utf8_decode_fuel (n : nat) (l : list Z) : pystr :=
  match n, l with
  | S n, b0 :: l1 =>
      if (b0 <? 0x80)%Z then b0 :: utf8_decode_fuel n l1
      else if (b0 <? 0xE0)%Z then
        match l1 with
        | b1 :: l2 => ((b0 - 0xC0) * 64 + (b1 - 0x80))%Z :: utf8_decode_fuel n l2
        | _ => []
        end
      else if (b0 <? 0xF0)%Z then
        match l1 with
        | b1 :: b2 :: l3 =>
            ((b0 - 0xE0) * 4096 + (b1 - 0x80) * 64 + (b2 - 0x80))%Z :: utf8_decode_fuel n l3
        | _ => []
        end
      else
        match l1 with
        | b1 :: b2 :: b3 :: l4 =>
            ((b0 - 0xF0) * 262144 + (b1 - 0x80) * 4096 + (b2 - 0x80) * 64 + (b3 - 0x80))%Z
            :: utf8_decode_fuel n l4
        | _ => []
        end
  | _, _ => []
  end.

Definition code_points (s : string) : pystr :=
  let bs := bytes_of s in utf8_decode_fuel (length bs) bs.

(** ** Character classes *)

(** The zeros of the decimal digit ranges (category [Nd]). *)
Definition decimal_zeros : list Z :=
  [0x30; 0x660; 0x6f0; 0x7c0; 0x966; 0x9e6; 0xa66; 0xae6; 0xb66; 0xbe6; 0xc66; 0xce6; 0xd66;
   0xde6; 0xe50; 0xed0; 0xf20; 0x1040; 0x1090; 0x17e0; 0x1810; 0x1946; 0x19d0; 0x1a80; 0x1a90;
   0x1b50; 0x1bb0; 0x1c40; 0x1c50; 0xa620; 0xa8d0; 0xa900; 0xa9d0; 0xa9f0; 0xaa50; 0xabf0;
   0xff10; 0x104a0; 0x10d30; 0x11066; 0x110f0; 0x11136; 0x111d0; 0x112f0; 0x11450; 0x114d0;
   0x11650; 0x116c0; 0x11730; 0x118e0; 0x11950; 0x11c50; 0x11d50; 0x11da0; 0x11f50; 0x16a60;
   0x16ac0; 0x16b50; 0x1d7ce; 0x1d7d8; 0x1d7e2; 0x1d7ec; 0x1d7f6; 0x1e140; 0x1e2f0; 0x1e4f0;
   0x1e950; 0x1fbf0]%Z.

Definition is_decimal_char (c : Z) : bool :=
  existsb (fun z => (z <=? c) && (c <? z + 10))%Z decimal_zeros.

(** [str.isdecimal] *)
Definition isdecimal (s : string) : bool :=
  match code_points s with [] => false | cs => forallb is_decimal_char cs end.

(** [str.isspace] on one character. *)
Definition is_space (c : Z) : bool :=
  ((9 <=? c) && (c <=? 13) || (28 <=? c) && (c <=? 32) || (c =? 133) || (c =? 160)
   || (c =? 5760) || (8192 <=? c) && (c <=? 8202) || (c =? 8232) || (c =? 8233)
   || (c =? 8239) || (c =? 8287) || (c =? 12288))%Z.

(** [unicodedata.category(c) == "Cc"] *)
Definition is_control (c : Z) : bool := ((c <? 32) || (127 <=? c) && (c <=? 159))%Z.

(** [str.casefold], exact on every character whose folding is ASCII; every other character folds
    to non-ASCII text and is left alone, which the modelled comparisons cannot see because one of
    their sides is ASCII. *)
Definition casefold_char (c : Z) : pystr :=
  (if (65 <=? c) && (c <=? 90) then [c + 32]
   else if (c =? 0xDF) || (c =? 0x1E9E) then [115; 115]
   else if c =? 0x17F then [115]
   else if c =? 0x212A then [107]
   else if c =? 0xFB00 then [102; 102]
   else if c =? 0xFB01 then [102; 105]
   else if c =? 0xFB02 then [102; 108]
   else if c =? 0xFB03 then [102; 102; 105]
   else if c =? 0xFB04 then [102; 102; 108]
   else if (c =? 0xFB05) || (c =? 0xFB06) then [115; 116]
   else [c])%Z.

Definition casefold (s : pystr) : pystr := concat (map casefold_char s).

(** [str.split()]: maximal runs of non-space characters. *)
Fixpoint split_ws_aux (word : pystr) (s : pystr) : list pystr :=
  match s with
  | [] => if decide (word = []) then [] else [rev word]
  | c :: s =>
      if is_space c then
        if decide (word = []) then split_ws_aux [] s else rev word :: split_ws_aux [] s
      else split_ws_aux (c :: word) s
  end.
Definition split_ws (s : pystr) : list pystr := split_ws_aux [] s.

(** [s.split(sep, 1)[0]] for a one-character separator. *)
Fixpoint before_first (sep : Z) (s : pystr) : pystr :=
  match s with
  | [] => []
  | c :: s => if (c =? sep)%Z then [] else c :: before_first sep s
  end.

(** [s.rsplit(sep, 1)] when [sep] occurs in [s]. *)
Fixpoint rsplit1 (sep : Z) (s : pystr) : option (pystr * pystr) :=
  match s with
  | [] => None
  | c :: s =>
      match rsplit1 sep s with
      | Some (a, b) => Some (c :: a, b)
      | None => if (c =? sep)%Z then Some ([], s) else None
      end
  end.

(** [s.rstrip(chars)] *)
Fixpoint rstrip (drop : Z -> bool) (s : pystr) : pystr :=
  match s with
  | [] => []
  | c :: s =>
      match rstrip drop s with
      | [] => if drop c then [] else [c]
      | s' => c :: s'
      end
  end.

(** ** Lemmas *)

Lemma byte_of_ascii_of z : (0 <= z < 256)%Z -> byte_of (ascii_of z) = z.
Proof. intros. unfold byte_of, ascii_of. rewrite N_ascii_embedding; lia. Qed.
Lemma ascii_of_byte_of a : ascii_of (byte_of a) = a.
Proof. unfold byte_of, ascii_of. rewrite N2Z.id. apply ascii_N_embedding. Qed.
Lemma byte_of_range a : (0 <= byte_of a < 256)%Z.
Proof. unfold byte_of. pose proof (N_ascii_bounded a). lia. Qed.
Lemma string_of_bytes_of s : string_of (bytes_of s) = s.
Proof. induction s as [|a s IH]; simpl; [done|]. by rewrite ascii_of_byte_of, IH. Qed.
Lemma bytes_of_range s : Forall (fun z => 0 <= z < 256)%Z (bytes_of s).
Proof. induction s; simpl; constructor; [apply byte_of_range | done]. Qed.
Lemma bytes_of_string_of l : Forall (fun z => 0 <= z < 256)%Z l -> bytes_of (string_of l) = l.
Proof. induction 1; simpl; [done|]. rewrite byte_of_ascii_of by done. by f_equal. Qed.
Lemma bytes_of_inj s1 s2 : bytes_of s1 = bytes_of s2 -> s1 = s2.
Proof. intros H. by rewrite <- (string_of_bytes_of s1), H, string_of_bytes_of. Qed.
Lemma bytes_of_app s1 s2 : bytes_of (s1 +:+ s2) = bytes_of s1 ++ bytes_of s2.
Proof. induction s1 as [|a s1 IH]; simpl; [done|]. by rewrite <- IH. Qed.

Lemma utf8_char_len_pos c : (1 <= utf8_char_len c <= 4)%Z.
Proof. unfold utf8_char_len. repeat case_match; lia. Qed.
Lemma utf8_size_app s1 s2 : utf8_size (s1 ++ s2) = (utf8_size s1 + utf8_size s2)%Z.
Proof. induction s1 as [|c s1 IH]; simpl; [lia|]. unfold utf8_size in *. simpl. lia. Qed.
Lemma utf8_size_nonneg s : (0 <= utf8_size s)%Z.
Proof.
  induction s as [|c s IH]; simpl; [lia|]. pose proof (utf8_char_len_pos c).
  unfold utf8_size in *. simpl. lia.
Qed.

Lemma rsplit1_Some sep s a b : rsplit1 sep s = Some (a, b) -> s = a ++ sep :: b /\ sep ∉ b.
Proof.
  revert a b. induction s as [|c s IH]; simpl; [done|]. intros a b.
  destruct (rsplit1 sep s) as [[a' b']|] eqn:E.
  - intros [= <- <-]. destruct (IH _ _ eq_refl) as [-> ?]. done.
  - destruct (c =? sep)%Z eqn:E'; [|done]. bsimp. intros [= <- <-]. subst. split; [done|].
    clear IH. revert E. induction s as [|d s IH]; simpl; [set_solver|].
    destruct (rsplit1 sep s) as [[]|]; [done|].
    destruct (d =? sep)%Z eqn:E'; [done|]. bsimp. set_solver.
Qed.

Lemma rsplit1_None sep s : rsplit1 sep s = None <-> sep ∉ s.
Proof.
  induction s as [|c s IH]; simpl; [set_solver|].
  destruct (rsplit1 sep s) as [[a b]|] eqn:E.
  - destruct (rsplit1_Some _ _ _ _ E) as [-> _]. split; [done | set_solver].
  - destruct IH as [IH _]. specialize (IH eq_refl).
    destruct (c =? sep)%Z eqn:E'; bsimp; [subst; split; [done|set_solver]|].
    split; [set_solver | done].
Qed.

Lemma rstrip_prefix drop s : exists t, s = rstrip drop s ++ t /\ Forall (fun c => drop c = true) t.
Proof.
  induction s as [|c s (t & Ht & Hd)]; simpl; [by exists []|].
  destruct (rstrip drop s) as [|d r] eqn:E.
  - destruct (drop c) eqn:Ec; [exists (c :: s) | exists s]; simpl in *; subst; auto.
  - exists t. split; [|done]. by rewrite Ht at 1.
Qed.

Lemma rstrip_last drop s c : last (rstrip drop s) = Some c -> drop c = false.
Proof.
  induction s as [|d s IH]; simpl; [done|].
  destruct (rstrip drop s) as [|e r] eqn:E.
  - destruct (drop d) eqn:Ed; [done|]. by intros [= <-].
  - intros H. apply IH. by destruct r.
Qed.

Lemma before_first_notin sep s : sep ∉ before_first sep s.
Proof.
  induction s as [|c s IH]; simpl; [set_solver|].
  destruct (c =? sep)%Z eqn:E; bsimp; set_solver.
Qed.
