(* ===== verification/Json.v ===== *)
(** * Json: what the manifests use of Python's [json]

    [json.dumps(..., ensure_ascii=False, separators=(",", ":"), sort_keys=True, allow_nan=False)]
    followed by [.encode("utf-8")], and [json.loads] of bytes. A file is a list of bytes; a [str]
    inside a value is Rocq's [string], its UTF-8 encoding. *)

From S2P Require Import Prelude Errors PyText.
From Stdlib Require Import Ascii.

Notation bytes := (list Z).

(** [JSONValue]; a [dict] keeps its insertion order. A float is the text of its [repr]. *)
Inductive json :=
| JNull
| JBool (b : bool)
| JInt (n : Z)
| JFloat (text : string)
| JStr (s : string)
| JList (l : list json)
| JObj (d : list (string * json)).

Notation event := (list (string * json)).

(** Induction under the lists. *)
Definition json_ind' (P : json -> Prop)
    (HN : P JNull) (HB : forall b, P (JBool b)) (HI : forall n, P (JInt n))
    (HF : forall t, P (JFloat t)) (HS : forall s, P (JStr s))
    (HL : forall l, Forall P l -> P (JList l))
    (HO : forall d, Forall (fun kv => P kv.2) d -> P (JObj d)) : forall j, P j :=
  fix go j := match j with
  | JNull => HN | JBool b => HB b | JInt n => HI n | JFloat t => HF t | JStr s => HS s
  | JList l => HL l ((fix all l : Forall P l := match l with
      | [] => Forall_nil_2 _ | j :: l => Forall_cons_2 _ _ _ (go j) (all l) end) l)
  | JObj d => HO d ((fix all d : Forall (fun kv => P kv.2) d := match d with
      | [] => Forall_nil_2 _ | kv :: d => Forall_cons_2 _ _ _ (go kv.2) (all d) end) d)
  end.

Fixpoint json_eqb (a b : json) {struct a} : bool :=
  match a, b with
  | JNull, JNull => true
  | JBool x, JBool y => Bool.eqb x y
  | JInt x, JInt y => (x =? y)%Z
  | JFloat x, JFloat y => String.eqb x y
  | JStr x, JStr y => String.eqb x y
  | JList x, JList y =>
      (fix go x y := match x, y with
       | [], [] => true
       | a :: x, b :: y => json_eqb a b && go x y
       | _, _ => false
       end) x y
  | JObj x, JObj y =>
      (fix go x y := match x, y with
       | [], [] => true
       | (k, a) :: x, (k', b) :: y => String.eqb k k' && json_eqb a b && go x y
       | _, _ => false
       end) x y
  | _, _ => false
  end.

Lemma json_eqb_eq a : forall b, json_eqb a b = true <-> a = b.
Proof.
  induction a as [| | | | |l IH|d IH] using json_ind'; intros [| | | | |l'|d']; simpl; try done;
    rewrite ?eqb_true_iff, ?Z.eqb_eq, ?String.eqb_eq; try (split; congruence).
  - transitivity (l = l'); [|split; congruence]. revert l'.
    induction IH as [|a l Ha _ IHl]; intros [|b l']; try done.
    rewrite andb_true_iff, Ha, IHl. split; [by intros [-> ->] | by intros [= -> ->]].
  - transitivity (d = d'); [|split; congruence]. revert d'.
    induction IH as [|[k a] d Ha _ IHd]; intros [|[k' b] d']; try done. simpl in Ha.
    rewrite !andb_true_iff, Ha, IHd, String.eqb_eq.
    split; [by intros [[-> ->] ->] | by intros [= -> -> ->]].
Qed.

#[export] Instance json_eq_dec : EqDecision json.
Proof.
  intros a b. destruct (json_eqb a b) eqn:E; [left; by apply json_eqb_eq|].
  right. intros ->. by rewrite (proj2 (json_eqb_eq b b)) in E.
Defined.

(** ** Printing *)

Definition dquote : Z := 34.
Definition hex_digit (n : Z) : Z := if (n <? 10)%Z then (48 + n)%Z else (87 + n)%Z.

(** One character of a string; bytes of a multi-byte character are copied. *)
Definition esc_byte (c : Z) : bytes :=
  (if c =? 34 then [92; 34]
   else if c =? 92 then [92; 92]
   else if c =? 10 then [92; 110]
   else if c =? 13 then [92; 114]
   else if c =? 9 then [92; 116]
   else if c =? 12 then [92; 102]
   else if c =? 8 then [92; 98]
   else if c <? 32 then [92; 117; 48; 48; hex_digit (c / 16); hex_digit (c mod 16)]
   else [c])%Z.

Definition print_string (s : string) : bytes := [dquote] ++ flat_map esc_byte (bytes_of s) ++ [dquote].

(** Decimal digits, most significant first. *)
Fixpoint dec_digits (fuel : nat) (n : Z) (acc : bytes) : bytes :=
  match fuel with
  | O => acc
  | S fuel => if (n <? 10)%Z then (48 + n)%Z :: acc
              else dec_digits fuel (n / 10)%Z ((48 + n mod 10)%Z :: acc)
  end.
Definition print_nat (n : Z) : bytes := dec_digits (S (Z.to_nat (Z.log2 n))) n [].
Definition print_int (n : Z) : bytes := if (n <? 0)%Z then 45%Z :: print_nat (- n) else print_nat n.

Definition join {A} (sep : list A) (l : list (list A)) : list A :=
  match l with [] => [] | x :: l => x ++ flat_map (fun y => sep ++ y) l end.

Definition comma : Z := 44.
Definition colon : Z := 58.

Fixpoint print (j : json) : bytes :=
  match j with
  | JNull => lit "null"
  | JBool true => lit "true"
  | JBool false => lit "false"
  | JInt n => print_int n
  | JFloat t => bytes_of t
  | JStr s => print_string s
  | JList l => [91%Z] ++ join [comma] (map print l) ++ [93%Z]
  | JObj d => [123%Z]
      ++ join [comma] (map (fun kv => print_string kv.1 ++ [colon] ++ print kv.2) d) ++ [125%Z]
  end.

(** [sort_keys]: every object's members by key. *)
Definition key_le (a b : string * json) : Prop := String.leb a.1 b.1 = true.
#[export] Instance key_le_dec : RelDecision key_le.
Proof. intros a b. unfold key_le. apply _. Defined.

Fixpoint canon (j : json) : json :=
  match j with
  | JList l => JList (map canon l)
  | JObj d => JObj (merge_sort key_le (map (fun kv => (kv.1, canon kv.2)) d))
  | j => j
  end.
Definition canon_event (e : event) : event :=
  merge_sort key_le (map (fun kv => (kv.1, canon kv.2)) e).

Definition dumps (j : json) : bytes := print (canon j).

(** ** UTF-8 *)

(** A well-formed UTF-8 byte string; [surrogates] also admits the three-byte surrogates, as the
    [surrogatepass] handler does. *)
Fixpoint utf8_valid (surrogates : bool) (l : bytes) : bool :=
  let cont b := ((0x80 <=? b) && (b <=? 0xBF))%Z in
  match l with
  | [] => true
  | b0 :: l1 =>
      if (b0 <? 0x80)%Z then utf8_valid surrogates l1
      else if ((0xC2 <=? b0) && (b0 <=? 0xDF))%Z then
        match l1 with b1 :: l2 => cont b1 && utf8_valid surrogates l2 | _ => false end
      else if ((0xE0 <=? b0) && (b0 <=? 0xEF))%Z then
        match l1 with
        | b1 :: b2 :: l3 =>
            cont b1 && cont b2 && negb ((b0 =? 0xE0) && (b1 <? 0xA0))%Z
            && (surrogates || negb ((b0 =? 0xED) && (0xA0 <=? b1))%Z)
            && utf8_valid surrogates l3
        | _ => false
        end
      else if ((0xF0 <=? b0) && (b0 <=? 0xF4))%Z then
        match l1 with
        | b1 :: b2 :: b3 :: l4 =>
            cont b1 && cont b2 && cont b3 && negb ((b0 =? 0xF0) && (b1 <? 0x90))%Z
            && negb ((b0 =? 0xF4) && (0x8F <? b1))%Z && utf8_valid surrogates l4
        | _ => false
        end
      else false
  end.

(** The encoding of one code point. *)
Definition utf8_encode (c : Z) : bytes :=
  (if c <? 0x80 then [c]
   else if c <? 0x800 then [0xC0 + c / 64; 0x80 + c mod 64]
   else if c <? 0x10000 then [0xE0 + c / 4096; 0x80 + c / 64 mod 64; 0x80 + c mod 64]
   else [0xF0 + c / 262144; 0x80 + c / 4096 mod 64; 0x80 + c / 64 mod 64; 0x80 + c mod 64])%Z.

(** ** Parsing: the scanner of [json.loads] *)

Definition is_digit (c : Z) : bool := ((48 <=? c) && (c <=? 57))%Z.
Definition hex_value (c : Z) : option Z :=
  (if (48 <=? c) && (c <=? 57) then Some (c - 48)
   else if (97 <=? c) && (c <=? 102) then Some (c - 87)
   else if (65 <=? c) && (c <=? 70) then Some (c - 55)
   else None)%Z.
Definition hex4 (a b c d : Z) : option Z :=
  match hex_value a, hex_value b, hex_value c, hex_value d with
  | Some a, Some b, Some c, Some d => Some (((a * 16 + b) * 16 + c) * 16 + d)%Z
  | _, _, _, _ => None
  end.

(** The simple escapes. *)
Definition unescape (e : Z) : option Z :=
  (if e =? 34 then Some 34 else if e =? 92 then Some 92 else if e =? 47 then Some 47
   else if e =? 98 then Some 8 else if e =? 102 then Some 12 else if e =? 110 then Some 10
   else if e =? 114 then Some 13 else if e =? 116 then Some 9 else None)%Z.

Definition prepend (p : bytes) (o : option (bytes * bytes)) : option (bytes * bytes) :=
  match o with Some (s, r) => Some (p ++ s, r) | None => None end.

(** The body of a string after its opening quote; a high surrogate escape followed by a low one
    is one character; raw control characters are refused. *)
Fixpoint scan_string (l : bytes) : option (bytes * bytes) :=
  match l with
  | [] => None
  | c :: l =>
      if (c =? 34)%Z then Some ([], l)
      else if (c =? 92)%Z then
        match l with
        | [] => None
        | e :: l =>
            if (e =? 117)%Z then
              match l with
              | a :: b :: c :: d :: l =>
                  match hex4 a b c d with
                  | None => None
                  | Some u =>
                      if ((0xD800 <=? u) && (u <=? 0xDBFF))%Z then
                        match l with
                        | 92%Z :: 117%Z :: a' :: b' :: c' :: d' :: l' =>
                            match hex4 a' b' c' d' with
                            | Some v =>
                                if ((0xDC00 <=? v) && (v <=? 0xDFFF))%Z
                                then prepend (utf8_encode (0x10000 + (u - 0xD800) * 1024
                                                           + (v - 0xDC00))%Z) (scan_string l')
                                else prepend (utf8_encode u) (scan_string l)
                            | None => None
                            end
                        | _ => prepend (utf8_encode u) (scan_string l)
                        end
                      else prepend (utf8_encode u) (scan_string l)
                  end
              | _ => None
              end
            else match unescape e with
                 | Some c => prepend [c] (scan_string l)
                 | None => None
                 end
        end
      else if (c <? 32)%Z then None
      else prepend [c] (scan_string l)
  end.

Fixpoint skip_ws (l : bytes) : bytes :=
  match l with
  | c :: r => if ((c =? 32) || (c =? 9) || (c =? 10) || (c =? 13))%Z then skip_ws r else l
  | [] => []
  end.

Fixpoint span_digits (l : bytes) : bytes * bytes :=
  match l with
  | c :: r => if is_digit c then let (d, r) := span_digits r in (c :: d, r) else ([], l)
  | [] => ([], [])
  end.
Definition digits_value (l : bytes) : Z := fold_left (fun n c => (10 * n + (c - 48))%Z) l 0%Z.

(** One given byte. *)
Definition eat (c : Z) (l : bytes) : option bytes :=
  match l with d :: r => if (d =? c)%Z then Some r else None | [] => None end.

(** The number regular expression: an integer part without leading zeros, an optional fraction,
    an optional exponent. *)
Definition scan_fraction (l : bytes) : bytes * bytes :=
  match eat 46 l with
  | Some r => match span_digits r with
              | ([], _) => ([], l)
              | (d, r) => (46%Z :: d, r)
              end
  | None => ([], l)
  end.
Definition scan_exponent (l : bytes) : bytes * bytes :=
  match l with
  | e :: r =>
      if ((e =? 101) || (e =? 69))%Z then
        let (sign, r') := match r with
                          | c :: r' => if ((c =? 43) || (c =? 45))%Z then ([c], r') else ([], r)
                          | [] => ([], r)
                          end in
        match span_digits r' with
        | ([], _) => ([], l)
        | (d, r) => (e :: sign ++ d, r)
        end
      else ([], l)
  | [] => ([], l)
  end.
Definition scan_number (l : bytes) : option (json * bytes) :=
  let (sign, l) := match eat 45 l with Some r => ([45%Z], r) | None => ([], l) end in
  let (int, rest) := match eat 48 l with Some r => ([48%Z], r) | None => span_digits l end in
  match int with
  | [] => None
  | _ =>
      let (frac, rest) := scan_fraction rest in
      let (expo, rest) := scan_exponent rest in
      match frac ++ expo with
      | [] => let n := digits_value int in
              Some (JInt (match sign with [] => n | _ => - n end)%Z, rest)
      | t => Some (JFloat (string_of (sign ++ int ++ t)), rest)
      end
  end.

Fixpoint strip_prefix (p l : bytes) : option bytes :=
  match p, l with
  | [], _ => Some l
  | a :: p, b :: l => if (a =? b)%Z then strip_prefix p l else None
  | _, [] => None
  end.

(** The constants, [NaN] and the infinities included, then numbers. *)
Definition scan_atom (l : bytes) : option (json * bytes) :=
  match strip_prefix (lit "null") l with Some r => Some (JNull, r) | None =>
  match strip_prefix (lit "true") l with Some r => Some (JBool true, r) | None =>
  match strip_prefix (lit "false") l with Some r => Some (JBool false, r) | None =>
  match strip_prefix (lit "NaN") l with Some r => Some (JFloat "NaN", r) | None =>
  match strip_prefix (lit "Infinity") l with Some r => Some (JFloat "Infinity", r) | None =>
  match strip_prefix (lit "-Infinity") l with Some r => Some (JFloat "-Infinity", r) | None =>
  scan_number l
  end end end end end end.

(** One value, the members of an object, the items of an array. Every call consumes a byte, so
    the length of the text is enough fuel. *)
Fixpoint value (fuel : nat) (l : bytes) {struct fuel} : option (json * bytes) :=
  match fuel with
  | O => None
  | S fuel =>
      match l with
      | [] => None
      | c :: r =>
          if (c =? 34)%Z then
            match scan_string r with Some (s, r) => Some (JStr (string_of s), r) | None => None end
          else if (c =? 123)%Z then
            match eat 125 (skip_ws r) with
            | Some r => Some (JObj [], r)
            | None => match members fuel [] (skip_ws r) with
                      | Some (d, r) => Some (JObj d, r)
                      | None => None
                      end
            end
          else if (c =? 91)%Z then
            match eat 93 (skip_ws r) with
            | Some r => Some (JList [], r)
            | None => match items fuel [] (skip_ws r) with
                      | Some (l, r) => Some (JList l, r)
                      | None => None
                      end
            end
          else scan_atom l
      end
  end
with members (fuel : nat) (acc : event) (l : bytes) {struct fuel} : option (event * bytes) :=
  match fuel with
  | O => None
  | S fuel =>
      match eat 34 l with None => None | Some r =>
      match scan_string r with None => None | Some (k, r) =>
      match eat 58 (skip_ws r) with None => None | Some r =>
      match value fuel (skip_ws r) with None => None | Some (v, r) =>
        let acc := dict_set (string_of k) v acc in
        match eat 44 (skip_ws r) with
        | Some r => members fuel acc (skip_ws r)
        | None => match eat 125 (skip_ws r) with Some r => Some (acc, r) | None => None end
        end
      end end end end
  end
with items (fuel : nat) (acc : list json) (l : bytes) {struct fuel} : option (list json * bytes) :=
  match fuel with
  | O => None
  | S fuel =>
      match value fuel l with None => None | Some (v, r) =>
        let acc := acc ++ [v] in
        match eat 44 (skip_ws r) with
        | Some r => items fuel acc (skip_ws r)
        | None => match eat 93 (skip_ws r) with Some r => Some (acc, r) | None => None end
        end
      end
  end.

(** [json.loads] of bytes: decoded as UTF-8 with [surrogatepass], one value between whitespace. *)
Definition loads (l : bytes) : option json :=
  if utf8_valid true l then
    match value (S (length l)) (skip_ws l) with
    | Some (j, r) => match skip_ws r with [] => Some j | _ => None end
    | None => None
    end
  else None.

Example loads_ex : loads (dumps (JObj [("b", JList [JInt (-12); JNull]); ("a", JStr "x")]))
  = Some (JObj [("a", JStr "x"); ("b", JList [JInt (-12); JNull])]).
Proof. vm_compute. reflexivity. Qed.

(** ** Round trip *)

Lemma hex_value_digit n : (0 <= n < 16)%Z -> hex_value (hex_digit n) = Some n.
Proof.
  intros Hn. unfold hex_value, hex_digit. repeat case_match; bsimp; try lia; f_equal; lia.
Qed.

Lemma hex4_control c : (0 <= c < 256)%Z ->
  hex4 48 48 (hex_digit (c / 16)) (hex_digit (c mod 16)) = Some c.
Proof.
  intros Hc. unfold hex4. rewrite !hex_value_digit by (Z.to_euclidean_division_equations; lia).
  change (hex_value 48) with (Some 0%Z). f_equal. pose proof (Z.div_mod c 16). lia.
Qed.

Lemma scan_string_esc c l : (0 <= c < 256)%Z ->
  scan_string (esc_byte c ++ l) = prepend [c] (scan_string l).
Proof.
  intros Hc. unfold esc_byte.
  repeat match goal with |- context [if (c =? ?k)%Z then _ else _] =>
    destruct (Z.eqb_spec c k) as [->|]; [reflexivity|] end.
  destruct (Z.ltb_spec c 32) as [Hlt|Hge].
  - cbn [app scan_string]. change (92 =? 34)%Z with false. change (92 =? 92)%Z with true.
    change (117 =? 117)%Z with true. cbv iota. rewrite hex4_control by lia.
    rewrite (proj2 (Z.leb_gt 0xD800 c)) by lia. cbn [andb].
    assert (utf8_encode c = [c]) as -> by (unfold utf8_encode; by rewrite (proj2 (Z.ltb_lt c _)) by lia).
    done.
  - cbn [app scan_string]. rewrite (proj2 (Z.eqb_neq c 34)), (proj2 (Z.eqb_neq c 92)) by lia.
    by rewrite (proj2 (Z.ltb_ge c 32)) by lia.
Qed.

Lemma scan_string_print s rest :
  scan_string (flat_map esc_byte (bytes_of s) ++ dquote :: rest) = Some (bytes_of s, rest).
Proof.
  pose proof (bytes_of_range s) as Hr. revert Hr. generalize (bytes_of s) as l.
  induction l as [|c l IH]; intros Hr; cbn [flat_map app]; [reflexivity|].
  apply Forall_cons in Hr as [Hc Hr]. by rewrite <- app_assoc, scan_string_esc, IH.
Qed.

(** Where a printed number may be followed by something else. *)
Definition stops (rest : bytes) : Prop :=
  match rest with [] => True | c :: _ => c = 44%Z \/ c = 93%Z \/ c = 125%Z \/ c = 10%Z end.

Lemma dec_digits_digits fuel : forall n acc, (0 <= n)%Z ->
  Forall (fun c => is_digit c = true) acc ->
  Forall (fun c => is_digit c = true) (dec_digits fuel n acc).
Proof.
  induction fuel as [|fuel IH]; intros n acc Hn Ha; [done|]. cbn [dec_digits].
  destruct (Z.ltb_spec n 10).
  - constructor; [unfold is_digit; apply andb_true_iff; rewrite !Z.leb_le; lia | done].
  - apply IH; [apply Z.div_pos; lia|]. constructor; [|done].
    pose proof (Z.mod_pos_bound n 10). unfold is_digit. apply andb_true_iff; rewrite !Z.leb_le. lia.
Qed.

Lemma digits_value_app l1 l2 :
  digits_value (l1 ++ l2) = (digits_value l1 * 10 ^ Z.of_nat (length l2) + digits_value l2)%Z.
Proof.
  unfold digits_value. rewrite fold_left_app.
  assert (forall l n, fold_left (fun n c => (10 * n + (c - 48))%Z) l n
    = (n * 10 ^ Z.of_nat (length l) + fold_left (fun n c => (10 * n + (c - 48))%Z) l 0)%Z) as H.
  { induction l as [|c l IH]; intros n; [simpl; lia|].
    cbn [fold_left length]. rewrite (IH (10 * n + (c - 48))%Z), (IH (10 * 0 + (c - 48))%Z).
    rewrite Nat2Z.inj_succ, Z.pow_succ_r by lia. ring. }
  apply H.
Qed.

Lemma dec_digits_value fuel : forall n acc, (0 <= n < 10 ^ Z.of_nat fuel)%Z ->
  digits_value (dec_digits fuel n acc)
  = (n * 10 ^ Z.of_nat (length acc) + digits_value acc)%Z.
Proof.
  induction fuel as [|fuel IH]; intros n acc Hn.
  - simpl in Hn. assert (n = 0)%Z as -> by lia. simpl. lia.
  - cbn [dec_digits]. destruct (Z.ltb_spec n 10).
    + change (48 + n :: acc)%Z with ([48 + n]%Z ++ acc). rewrite digits_value_app.
      unfold digits_value at 1. cbn [fold_left]. lia.
    + rewrite IH.
      * change (48 + n mod 10 :: acc)%Z with ([48 + n mod 10]%Z ++ acc).
        rewrite digits_value_app. unfold digits_value at 1. cbn [fold_left length app].
        rewrite Nat2Z.inj_succ, Z.pow_succ_r by lia. pose proof (Z.div_mod n 10). nia.
      * rewrite Nat2Z.inj_succ, Z.pow_succ_r in Hn by lia.
        split; [apply Z.div_pos; lia | apply Z.div_lt_upper_bound; lia].
Qed.

(** Only zero prints with a leading zero. *)
Lemma dec_digits_head fuel : forall n acc, (0 < n < 10 ^ Z.of_nat fuel)%Z ->
  exists c r, dec_digits fuel n acc = c :: r /\ (48 < c <= 57)%Z.
Proof.
  induction fuel as [|fuel IH]; intros n acc Hn; [simpl in Hn; lia|]. cbn [dec_digits].
  destruct (Z.ltb_spec n 10); [eexists _, _; split; [done | lia]|]. apply IH.
  rewrite Nat2Z.inj_succ, Z.pow_succ_r in Hn by lia.
  split; [apply Z.div_str_pos; lia | apply Z.div_lt_upper_bound; lia].
Qed.

Lemma print_nat_fuel n : (0 <= n)%Z -> (n < 10 ^ Z.of_nat (S (Z.to_nat (Z.log2 n))))%Z.
Proof.
  intros Hn. destruct (Z.eq_dec n 0) as [->|]; [done|].
  pose proof (Z.log2_spec n ltac:(lia)) as [_ H]. pose proof (Z.log2_nonneg n).
  rewrite Nat2Z.inj_succ, Z2Nat.id by done.
  apply Z.lt_le_trans with (2 ^ Z.succ (Z.log2 n))%Z; [lia|]. apply Z.pow_le_mono_l. lia.
Qed.

Lemma print_nat_value n : (0 <= n)%Z -> digits_value (print_nat n) = n.
Proof.
  intros Hn. unfold print_nat. rewrite dec_digits_value; [change (digits_value []) with 0%Z; cbn [length Z.of_nat]; lia|].
  split; [done | by apply print_nat_fuel].
Qed.

Lemma span_digits_app l rest : Forall (fun c => is_digit c = true) l ->
  match rest with [] => True | c :: _ => is_digit c = false end ->
  span_digits (l ++ rest) = (l, rest).
Proof.
  intros Hl Hr. induction Hl as [|c l Hc _ IH]; cbn [app span_digits].
  - destruct rest as [|c rest]; [done|]. cbn [span_digits]. by rewrite Hr.
  - by rewrite Hc, IH.
Qed.

Lemma print_nat_digits n : (0 <= n)%Z -> Forall (fun c => is_digit c = true) (print_nat n).
Proof. intros Hn. by apply dec_digits_digits. Qed.

Lemma stops_not_digit rest : stops rest ->
  match rest with [] => True | c :: _ => is_digit c = false end.
Proof. destruct rest as [|c rest]; [done|]. by intros [->|[->|[->| ->]]]. Qed.

Lemma scan_tail_stops rest : stops rest ->
  scan_fraction rest = ([], rest) /\ scan_exponent rest = ([], rest).
Proof. destruct rest as [|c rest]; [done|]. by intros [->|[->|[->| ->]]]. Qed.

Lemma print_nat_head n : (0 <= n)%Z ->
  (n = 0%Z /\ print_nat n = [48%Z])
  \/ exists c r, print_nat n = c :: r /\ (48 < c <= 57)%Z.
Proof.
  intros Hn. destruct (Z.eq_dec n 0) as [->|]; [by left|]. right. apply dec_digits_head.
  pose proof (print_nat_fuel n). lia.
Qed.

Lemma print_nat_nonempty n : (0 <= n)%Z -> exists c r, print_nat n = c :: r /\ (48 <= c <= 57)%Z.
Proof.
  intros Hn. destruct (print_nat_head n Hn) as [[-> ->]|(c & r & -> & Hc)]; eexists _, _; (split; [done|lia]).
Qed.

Lemma eat_ne c d r : d <> c -> eat c (d :: r) = None.
Proof. intros H. cbn [eat]. by rewrite (proj2 (Z.eqb_neq d c)). Qed.
Lemma eat_eq c r : eat c (c :: r) = Some r.
Proof. cbn [eat]. by rewrite Z.eqb_refl. Qed.

(** The integer part of a printed number is scanned whole. *)
Lemma scan_int_part n rest : (0 <= n)%Z -> stops rest ->
  match eat 48 (print_nat n ++ rest) with
  | Some r => ([48%Z], r) | None => span_digits (print_nat n ++ rest) end
  = (print_nat n, rest).
Proof.
  intros Hn Hs. destruct (print_nat_head n Hn) as [[-> ->]|(c & r & E & Hc)]; [done|].
  rewrite <- (span_digits_app (print_nat n) rest (print_nat_digits n Hn) (stops_not_digit _ Hs)).
  rewrite E. cbn [app]. by rewrite eat_ne by lia.
Qed.

Lemma scan_number_nat sign n rest : (0 <= n)%Z -> stops rest ->
  (let (int, r) := match eat 48 (print_nat n ++ rest) with
                   | Some r => ([48%Z], r) | None => span_digits (print_nat n ++ rest) end in
   match int with
   | [] => None
   | _ => let (frac, r) := scan_fraction r in
          let (expo, r) := scan_exponent r in
          match frac ++ expo with
          | [] => Some (JInt (match sign : bytes with [] => digits_value int
                                                 | _ => - digits_value int end)%Z, r)
          | t => Some (JFloat (string_of (sign ++ int ++ t)), r)
          end
   end)
  = Some (JInt (match sign with [] => n | _ => - n end)%Z, rest).
Proof.
  intros Hn Hs. rewrite scan_int_part by done. pose proof (print_nat_value n Hn) as Hv.
  destruct (print_nat_nonempty n Hn) as (c & r & E & _).
  destruct (scan_tail_stops rest Hs) as [-> ->]. cbn [app]. rewrite Hv, E. done.
Qed.

Lemma scan_number_print n rest : stops rest ->
  scan_number (print_int n ++ rest) = Some (JInt n, rest).
Proof.
  intros Hs. unfold print_int. destruct (Z.ltb_spec n 0) as [Hn|Hn]; unfold scan_number.
  - cbn [app]. rewrite eat_eq. rewrite (scan_number_nat [45%Z] (- n)) by (done || lia).
    do 3 f_equal. lia.
  - assert (eat 45 (print_nat n ++ rest) = None) as ->
      by (destruct (print_nat_nonempty n Hn) as (c & r & -> & Hc); cbn [app]; apply eat_ne; lia).
    by rewrite (scan_number_nat [] n).
Qed.

(** A printed number is not one of the constants. *)
Lemma scan_atom_int n rest : stops rest ->
  scan_atom (print_int n ++ rest) = Some (JInt n, rest).
Proof.
  intros Hs. rewrite <- scan_number_print by done.
  assert (forall c l, (48 <= c <= 57)%Z -> scan_atom (c :: l) = scan_number (c :: l)) as Hpos.
  { intros c l Hc. unfold scan_atom. cbn [lit bytes_of strip_prefix].
    repeat match goal with |- context [(?k =? c)%Z] =>
      rewrite (proj2 (Z.eqb_neq k c)) by (vm_compute byte_of; lia) end. done. }
  unfold print_int. destruct (Z.ltb_spec n 0) as [Hn|Hn].
  - destruct (print_nat_nonempty (- n)) as (c & r & -> & Hc); [lia|]. cbn [app].
    unfold scan_atom. cbn [lit bytes_of strip_prefix].
    repeat match goal with |- context [(?k =? 45)%Z] =>
      let b := eval vm_compute in (k =? 45)%Z in change (k =? 45)%Z with b end. cbv iota.
    by rewrite (proj2 (Z.eqb_neq (byte_of "I") c)) by (vm_compute byte_of; lia).
  - destruct (print_nat_nonempty n) as (c & r & -> & Hc); [done|]. cbn [app]. by apply Hpos.
Qed.

(** Values that print and read back: no floats, no key twice. *)
Fixpoint plain (j : json) : bool :=
  match j with
  | JFloat _ => false
  | JList l => forallb plain l
  | JObj d => bool_decide (NoDup d.*1) && forallb (fun kv => plain kv.2) d
  | _ => true
  end.

Definition not_ws (c : Z) : Prop := ((c =? 32) || (c =? 9) || (c =? 10) || (c =? 13))%Z = false.

Lemma skip_ws_id c r : not_ws c -> skip_ws (c :: r) = c :: r.
Proof. intros H. cbn [skip_ws]. by rewrite H. Qed.

Lemma print_head j : plain j = true ->
  exists c r, print j = c :: r /\ not_ws c /\ c <> 93%Z /\ c <> 125%Z.
Proof.
  destruct j as [|[]|n|t|s|l|d]; cbn [print]; intros H; try discriminate H;
    try (eexists _, _; split; [done|done]).
  - unfold print_int. destruct (Z.ltb_spec n 0).
    + eexists _, _; split; [done|]. done.
    + destruct (print_nat_nonempty n) as (c & r & -> & Hc); [done|]. eexists _, _. split; [done|].
      unfold not_ws. repeat split; lia.
Qed.

Lemma dict_set_fresh {K V} `{EqDecision K} (k : K) (v : V) d : k ∉ d.*1 -> dict_set k v d = d ++ [(k, v)].
Proof.
  induction d as [|[k' v'] d IH]; cbn [dict_set app]; [done|]. intros Hk.
  rewrite Prelude.eqb_neq by set_solver. rewrite IH by set_solver. done.
Qed.


Lemma value_string n s rest : value (S n) (print_string s ++ rest) = Some (JStr s, rest).
Proof.
  unfold print_string. cbn [app value]. change (dquote =? 34)%Z with true. cbv iota.
  rewrite <- app_assoc. cbn [app]. by rewrite scan_string_print, string_of_bytes_of.
Qed.

Definition print_member (kv : string * json) : bytes := print_string kv.1 ++ [colon] ++ print kv.2.

(** [value] reads what [print] wrote, up to [rest]. *)
Definition reads (j : json) : Prop := forall n rest,
  (length (print j) <= n)%nat -> stops rest -> value n (print j ++ rest) = Some (j, rest).

Lemma member_step n k v acc tail :
  plain v = true -> reads v -> (length (print v) <= n)%nat -> stops tail -> skip_ws tail = tail ->
  members (S n) acc (print_member (k, v) ++ tail)
  = match eat 44 tail with
    | Some r => members n (dict_set k v acc) (skip_ws r)
    | None => match eat 125 tail with Some r => Some (dict_set k v acc, r) | None => None end
    end.
Proof.
  intros Hp Hv Hn Hs Hw. destruct (print_head v Hp) as (c & r & Ec & Hc & _).
  unfold print_member, print_string. cbn [fst snd]. rewrite <- !app_assoc. cbn [app members].
  rewrite (eat_eq 34), scan_string_print, (skip_ws_id colon), (eat_eq 58) by done.
  rewrite Ec at 1. cbn [app]. rewrite skip_ws_id by done.
  change (c :: r ++ tail) with ((c :: r) ++ tail). rewrite <- Ec, Hv by done.
  by rewrite Hw, string_of_bytes_of.
Qed.

Lemma skip_ws_member kv l : skip_ws (print_member kv ++ l) = print_member kv ++ l.
Proof. reflexivity. Qed.

Lemma eat_member kv l : eat 125 (print_member kv ++ l) = None.
Proof. reflexivity. Qed.

Lemma members_print d : forall kv acc n rest,
  Forall (fun kv => plain kv.2 = true /\ reads kv.2) (kv :: d) ->
  NoDup (acc.*1 ++ (kv :: d).*1) ->
  (length (join [comma] (map print_member (kv :: d))) < n)%nat ->
  members n acc (join [comma] (map print_member (kv :: d)) ++ 125%Z :: rest)
  = Some (acc ++ kv :: d, rest).
Proof.
  induction d as [|kv' d IH]; intros [k v] acc n rest Hd Hnd Hn;
    (destruct n as [|n]; [lia|]); apply Forall_cons in Hd as [[Hp Hv] Hd]; cbn [snd] in Hp, Hv;
    assert (dict_set k v acc = acc ++ [(k, v)]) as Hset
      by (apply dict_set_fresh; csimpl in Hnd; apply NoDup_app in Hnd as (_ & H & _); set_solver);
    cbn [map join flat_map] in Hn |- *; rewrite ?app_nil_r in Hn |- *.
  - assert (length (print v) <= length (print_member (k, v)))%nat
      by (unfold print_member; cbn [fst snd]; rewrite !length_app; lia).
    rewrite member_step by (done || lia || (simpl; auto)). by rewrite Hset.
  - assert (length (print v) <= length (print_member (k, v)))%nat
      by (unfold print_member; cbn [fst snd]; rewrite !length_app; lia).
    rewrite !length_app in Hn. rewrite <- !app_assoc. cbn [length] in Hn. cbn [app].
    rewrite member_step by (done || lia || (simpl; auto)). rewrite Hset, (eat_eq 44).
    replace (skip_ws (print_member kv' ++ _)) with
      (join [comma] (map print_member (kv' :: d)) ++ 125%Z :: rest).
    + rewrite IH.
      * by rewrite <- app_assoc.
      * done.
      * rewrite fmap_app, <- app_assoc. done.
      * cbn [map join]. rewrite length_app. lia.
    + cbn [map join]. rewrite <- app_assoc. by rewrite skip_ws_member.
Qed.

Lemma item_step n v acc tail :
  reads v -> (length (print v) <= n)%nat -> stops tail -> skip_ws tail = tail ->
  items (S n) acc (print v ++ tail)
  = match eat 44 tail with
    | Some r => items n (acc ++ [v]) (skip_ws r)
    | None => match eat 93 tail with Some r => Some (acc ++ [v], r) | None => None end
    end.
Proof. intros Hv Hn Hs Hw. cbn [items]. rewrite Hv by done. by rewrite Hw. Qed.

Lemma skip_ws_print v l : plain v = true -> skip_ws (print v ++ l) = print v ++ l.
Proof. intros (c & r & -> & Hc & _)%print_head. by apply skip_ws_id. Qed.

Lemma items_print l : forall v acc n rest,
  Forall (fun v => plain v = true /\ reads v) (v :: l) ->
  (length (join [comma] (map print (v :: l))) < n)%nat ->
  items n acc (join [comma] (map print (v :: l)) ++ 93%Z :: rest) = Some (acc ++ v :: l, rest).
Proof.
  induction l as [|v' l IH]; intros v acc n rest Hl Hn; (destruct n as [|n]; [lia|]);
    apply Forall_cons in Hl as [[Hp Hv] Hl];
    cbn [map join flat_map] in Hn |- *; rewrite ?app_nil_r in Hn |- *.
  - by rewrite item_step by (done || lia || (simpl; auto)).
  - rewrite !length_app in Hn. rewrite <- !app_assoc. cbn [length] in Hn. cbn [app].
    rewrite item_step by (done || lia || (simpl; auto)). rewrite (eat_eq 44).
    replace (skip_ws (print v' ++ _)) with (join [comma] (map print (v' :: l)) ++ 93%Z :: rest).
    + rewrite IH; [by rewrite <- app_assoc | done |]. cbn [map join]. rewrite length_app. lia.
    + cbn [map join]. rewrite <- app_assoc. apply Forall_cons in Hl as [[Hp' _] _].
      by rewrite skip_ws_print.
Qed.

Lemma value_atom n c r : c <> 34%Z -> c <> 123%Z -> c <> 91%Z ->
  value (S n) (c :: r) = scan_atom (c :: r).
Proof. intros H1 H2 H3. cbn [value]. by rewrite !(proj2 (Z.eqb_neq c _)) by done. Qed.

(** An object ends with its brace, whatever follows. *)
Lemma value_obj d n rest :
  Forall (fun kv => plain kv.2 = true /\ reads kv.2) d -> NoDup d.*1 ->
  (length (print (JObj d)) <= n)%nat -> value n (print (JObj d) ++ rest) = Some (JObj d, rest).
Proof.
  intros Hl Hnd Hn. destruct n as [|n]; [cbn in Hn; lia|]. destruct d as [|kv d]; [reflexivity|].
  cbn [print] in Hn |- *.
  change (map (fun kv => _) (kv :: d)) with (map print_member (kv :: d)) in Hn |- *.
  rewrite <- !app_assoc. cbn [app value]. change (123 =? 34)%Z with false.
  change (123 =? 123)%Z with true. cbv iota.
  pose proof (members_print d kv [] n rest Hl Hnd) as Hmem.
  cbn [map join] in Hmem, Hn |- *. rewrite <- !app_assoc in Hmem |- *.
  rewrite skip_ws_member, eat_member, Hmem; [done|].
  rewrite !length_app in Hn. rewrite length_app. cbn [length] in Hn. lia.
Qed.

Lemma value_print j : plain j = true -> reads j.
Proof.
  induction j as [|[]|z|t|s|l IH|d IH] using json_ind'; intros Hp n rest Hn Hs;
    (destruct n as [|n]; [destruct (print_head _ Hp) as (? & ? & E & _); rewrite E in Hn; simpl in Hn; lia|]);
    try reflexivity; try done.
  - rewrite <- scan_atom_int by done. cbn [print].
    assert (exists c r, print_int z = c :: r /\ (c = 45 \/ 48 <= c <= 57)%Z) as (c & r & -> & Hc).
    { unfold print_int. destruct (Z.ltb_spec z 0); [eexists _, _; split; [done | by left]|].
      destruct (print_nat_nonempty z) as (c & r & -> & Hc); [done|]. eauto. }
    cbn [app]. apply value_atom; lia.
  - apply value_string.
  - destruct l as [|v l]; [reflexivity|]. cbn [print] in Hn |- *. cbn [plain] in Hp.
    rewrite forallb_true in Hp.
    assert (Forall (fun v => plain v = true /\ reads v) (v :: l)) as Hl.
    { rewrite Forall_forall in IH |- *. intros x Hx. split; [auto|]. apply IH; auto. }
    rewrite <- !app_assoc. cbn [app value]. change (91 =? 34)%Z with false.
    change (91 =? 123)%Z with false. change (91 =? 91)%Z with true. cbv iota.
    pose proof (items_print l v [] n rest Hl) as Hitems.
    destruct (print_head v) as (c & r & Ec & Hc & H93 & _); [apply Hp; left|].
    cbn [map join] in Hitems, Hn |- *. rewrite Ec in Hitems, Hn |- *. cbn [app] in Hitems, Hn |- *.
    rewrite skip_ws_id by done. rewrite eat_ne by done.
    rewrite Hitems; [done|]. simpl in Hn |- *. rewrite !length_app in Hn |- *. simpl in Hn.
    rewrite !length_app in Hn. lia.
  - cbn [plain] in Hp. apply andb_true_iff in Hp as [Hnd Hp]. bsimp. rewrite forallb_true in Hp.
    apply value_obj; [|done|lia].
    rewrite Forall_forall in IH |- *. intros x Hx. split; [auto|]. apply IH; auto.
Qed.

Lemma plain_canon j : plain j = true -> plain (canon j) = true.
Proof.
  induction j as [|[]|z|t|s|l IH|d IH] using json_ind'; try done; cbn [canon plain].
  - rewrite !forallb_true. intros Hl x Hx. apply list_elem_of_fmap in Hx as (y & -> & Hy).
    rewrite Forall_forall in IH. auto.
  - rewrite !andb_true_iff, !bool_decide_eq_true, !forallb_true. intros [Hnd Hd].
    assert (forall e : event, merge_sort key_le e ≡ₚ e) as Hperm by (intros; apply merge_sort_Permutation).
    split.
    + rewrite Hperm, <- list_fmap_compose. exact Hnd.
    + intros kv Hkv. rewrite Hperm in Hkv. apply list_elem_of_fmap in Hkv as (y & -> & Hy).
      rewrite Forall_forall in IH. simpl. auto.
Qed.

Lemma utf8_valid_surrogates l : utf8_valid false l = true -> utf8_valid true l = true.
Proof.
  induction l as [l IH] using (induction_ltof1 _ (@length Z)); unfold ltof in IH.
  destruct l as [|b0 l1]; [done|]. cbn [utf8_valid].
  assert (forall l', (length l' < length (b0 :: l1))%nat ->
    utf8_valid false l' = true -> utf8_valid true l' = true) as IH' by eauto. clear IH.
  destruct (b0 <? 0x80)%Z; [apply IH'; simpl; lia|].
  destruct (_ && _)%bool; [destruct l1 as [|b1 l2]; [done|];
    rewrite !andb_true_iff; intros [? Hr]; split; [done|]; revert Hr; apply IH'; simpl; lia|].
  destruct (_ && _)%bool; [destruct l1 as [|b1 [|b2 l3]]; [done|done|];
    rewrite !andb_true_iff; intros [[? ?] Hr]; repeat split; try tauto; revert Hr; apply IH'; simpl; lia|].
  destruct (_ && _)%bool; [|done]. destruct l1 as [|b1 [|b2 [|b3 l4]]]; try done.
  rewrite !andb_true_iff. intros [? Hr]. split; [tauto|]. revert Hr. apply IH'. simpl. lia.
Qed.

(** What [dumps] prints, [loads] reads back, with the members of every object sorted. *)
Lemma loads_dumps j : plain j = true -> utf8_valid false (dumps j) = true ->
  loads (dumps j) = Some (canon j).
Proof.
  intros Hp Hu. unfold loads. rewrite utf8_valid_surrogates by done.
  unfold dumps. pose proof (plain_canon j Hp) as Hc.
  pose proof (value_print _ Hc (S (length (print (canon j)))) [] ltac:(lia) I) as Hv.
  rewrite app_nil_r in Hv.
  destruct (print_head _ Hc) as (c & r & E & Hw & _). rewrite E in Hv |- *.
  rewrite skip_ws_id by done. by rewrite Hv.
Qed.

(** ** Lookups in a sorted object *)

Lemma dict_get_map {V W} (f : V -> W) k (d : list (string * V)) :
  dict_get k (map (fun kv => (kv.1, f kv.2)) d) = option_map f (dict_get k d).
Proof. induction d as [|[j w] d IH]; simpl; [done|]. by destruct (k == j). Qed.

Lemma map_canon_keys (e : event) : (map (fun kv => (kv.1, canon kv.2)) e).*1 = e.*1.
Proof. by rewrite <- list_fmap_compose. Qed.

Lemma canon_event_perm (e : event) : canon_event e ≡ₚ map (fun kv => (kv.1, canon kv.2)) e.
Proof. apply merge_sort_Permutation. Qed.

Lemma canon_event_keys (e : event) : (canon_event e).*1 ≡ₚ e.*1.
Proof. by rewrite canon_event_perm, map_canon_keys. Qed.

Lemma dict_get_canon k (e : event) : NoDup e.*1 ->
  dict_get k (canon_event e) = option_map canon (dict_get k e).
Proof.
  intros Hd. rewrite <- dict_get_map. symmetry. apply dict_get_perm; [by rewrite map_canon_keys|].
  by rewrite canon_event_perm.
Qed.

Lemma plain_obj (e : event) : plain (JObj e) = true ->
  NoDup e.*1 /\ forall k v, dict_get k e = Some v -> plain v = true.
Proof.
  cbn [plain]. rewrite andb_true_iff, bool_decide_eq_true, forallb_true. intros [Hd Hp].
  split; [done|]. intros k v Hv%dict_get_In. by apply (Hp (k, v)).
Qed.

(** ** Printed text has no newline *)

Lemma print_no_newline j : plain j = true -> Forall (fun c => c <> 10%Z) (print j).
Proof.
  assert (forall l, Forall (fun c => 0 <= c < 256)%Z l ->
            Forall (fun c => c <> 10%Z) (flat_map esc_byte l)) as Hesc.
  { intros l. induction 1 as [|c l Hc _ IH]; [done|]. cbn [flat_map]. apply Forall_app. split; [|done].
    unfold esc_byte, hex_digit. repeat case_match; bsimp; rewrite ?Forall_cons, ?Forall_nil;
      Z.to_euclidean_division_equations; lia. }
  assert (forall s, Forall (fun c => c <> 10%Z) (print_string s)) as Hstr.
  { intros s. unfold print_string, dquote. pose proof (Hesc _ (bytes_of_range s)).
    repeat (apply Forall_app; split); auto; by repeat constructor. }
  assert (forall l : list bytes, Forall (Forall (fun c => c <> 10%Z)) l ->
            Forall (fun c => c <> 10%Z) (join [comma] l)) as Hjoin.
  { intros [|x l] Hl; [done|]. apply Forall_cons in Hl as [Hx Hl]. cbn [join]. apply Forall_app.
    split; [done|]. induction Hl as [|y l Hy _ IH]; [done|]. cbn [flat_map app].
    constructor; [done|]. apply Forall_app. auto. }
  induction j as [|[]|z|t|s|l IH|d IH] using json_ind'; intros Hp;
    try (cbn; repeat constructor; done).
  - cbn [print]. assert (forall n, (0 <= n)%Z -> Forall (fun c => c <> 10%Z) (print_nat n)) as Hn.
    { intros n Hn. eapply Forall_impl; [by apply print_nat_digits|]. intros c Hc.
      unfold is_digit in Hc. lia. }
    unfold print_int. destruct (Z.ltb_spec z 0); [constructor; [done|] |]; apply Hn; lia.
  - apply Hstr.
  - cbn [print plain] in *. rewrite forallb_true in Hp. apply Forall_app. split; [by repeat constructor|].
    apply Forall_app. split; [|by repeat constructor]. apply Hjoin. apply Forall_fmap.
    rewrite Forall_forall in IH |- *. intros x Hx. apply IH; auto.
  - cbn [print plain] in *. apply andb_true_iff in Hp as [_ Hp]. rewrite forallb_true in Hp.
    apply Forall_app. split; [by repeat constructor|].
    apply Forall_app. split; [|by repeat constructor]. apply Hjoin. apply Forall_fmap.
    rewrite Forall_forall in IH |- *. intros x Hx. apply Forall_app. split; [apply Hstr|].
    constructor; [done|]. apply IH; auto.
Qed.

(** ** Printed text is UTF-8 when its strings are *)

Fixpoint valid_text (j : json) : bool :=
  match j with
  | JStr s => utf8_valid false (bytes_of s)
  | JList l => forallb valid_text l
  | JObj d => forallb (fun kv => utf8_valid false (bytes_of kv.1) && valid_text kv.2) d
  | _ => true
  end.

(** The first character of valid text: its bytes, and the rest. *)
Lemma utf8_valid_split s b0 l : utf8_valid s (b0 :: l) = true ->
  exists c r, b0 :: l = c ++ r /\ c <> [] /\ utf8_valid s r = true
    /\ (forall t, utf8_valid s (c ++ t) = utf8_valid s t)
    /\ (flat_map esc_byte c = c \/ exists b, c = [b] /\ (b < 0x80)%Z).
Proof.
  cbn [utf8_valid]. destruct (b0 <? 0x80)%Z eqn:E0.
  - intros H. exists [b0], l. split_and!; [done | done | done | |].
    + intros t. cbn [app utf8_valid]. by rewrite E0.
    + right. exists b0. split; [done | lia].
  - assert (forall c, (0x80 <= c)%Z -> esc_byte c = [c]) as Hesc.
    { intros c Hc. unfold esc_byte. repeat (case_match; bsimp; try lia). done. }
    destruct ((0xC2 <=? b0) && (b0 <=? 0xDF))%Z eqn:E1;
      [|destruct ((0xE0 <=? b0) && (b0 <=? 0xEF))%Z eqn:E2;
      [|destruct ((0xF0 <=? b0) && (b0 <=? 0xF4))%Z eqn:E3; [|done]]].
    + destruct l as [|b1 l]; [done|]. intros [Hc Hr]%andb_true_iff.
      exists [b0; b1], l. split_and!; [done | done | done | |].
      * intros t. cbn [app utf8_valid]. by rewrite E0, E1, Hc.
      * left. cbn [flat_map]. rewrite !Hesc by lia. done.
    + destruct l as [|b1 [|b2 l]]; [done..|]. intros [Hc Hr]%andb_true_iff.
      exists [b0; b1; b2], l. split_and!; [done | done | done | |].
      * intros t. cbn [app utf8_valid]. by rewrite E0, E1, E2, Hc.
      * left. cbn [flat_map]. rewrite !Hesc by lia. done.
    + destruct l as [|b1 [|b2 [|b3 l]]]; [done..|]. intros [Hc Hr]%andb_true_iff.
      exists [b0; b1; b2; b3], l. split_and!; [done | done | done | |].
      * intros t. cbn [app utf8_valid]. by rewrite E0, E1, E2, E3, Hc.
      * left. cbn [flat_map]. rewrite !Hesc by lia. done.
Qed.

Lemma utf8_valid_app s a : forall b, utf8_valid s a = true -> utf8_valid s (a ++ b) = utf8_valid s b.
Proof.
  induction a as [a IH] using (induction_ltof1 _ (@length Z)); unfold ltof in IH. intros b Ha.
  destruct a as [|b0 a]; [done|]. destruct (utf8_valid_split s b0 a Ha) as (c & r & E & Hne & Hr & Hc & _).
  rewrite E, <- app_assoc, Hc. apply IH; [|done].
  destruct c as [|x c]; [done|]. rewrite E, length_app. simpl. lia.
Qed.

Lemma utf8_valid_ascii s l : Forall (fun c => c < 0x80)%Z l -> utf8_valid s l = true.
Proof.
  induction 1 as [|c l Hc _ IH]; [done|]. cbn [utf8_valid]. by rewrite (proj2 (Z.ltb_lt c _)).
Qed.

Lemma utf8_valid_esc l : utf8_valid false l = true -> utf8_valid false (flat_map esc_byte l) = true.
Proof.
  induction l as [l IH] using (induction_ltof1 _ (@length Z)); unfold ltof in IH.
  destruct l as [|b0 l]; [done|]. intros Hl.
  destruct (utf8_valid_split false b0 l Hl) as (c & r & E & Hne & Hr & Hc & Hesc).
  rewrite E, flat_map_app.
  assert (utf8_valid false (flat_map esc_byte r) = true) as Hrec.
  { apply IH; [|done]. destruct c as [|x c]; [done|]. rewrite E, length_app. simpl. lia. }
  destruct Hesc as [->|(b & -> & Hb)]; [by rewrite Hc|]. cbn [flat_map]. rewrite app_nil_r.
  rewrite utf8_valid_app; [done|]. apply utf8_valid_ascii. unfold esc_byte, hex_digit.
  repeat case_match; bsimp; rewrite ?Forall_cons, ?Forall_nil; Z.to_euclidean_division_equations; lia.
Qed.

Lemma utf8_valid_print_string s : utf8_valid false (bytes_of s) = true ->
  utf8_valid false (print_string s) = true.
Proof.
  intros Hs. unfold print_string. rewrite utf8_valid_app by done.
  by rewrite utf8_valid_app by (by apply utf8_valid_esc).
Qed.

Lemma utf8_valid_join sep l : utf8_valid false sep = true -> Forall (fun x => utf8_valid false x = true) l ->
  utf8_valid false (join sep l) = true.
Proof.
  intros Hsep. destruct 1 as [|x l Hx Hl]; [done|]. cbn [join]. rewrite utf8_valid_app by done.
  induction Hl as [|y l Hy _ IH]; [done|]. cbn [flat_map]. rewrite <- app_assoc, utf8_valid_app by done.
  by rewrite utf8_valid_app.
Qed.

Lemma utf8_valid_print j : plain j = true -> valid_text j = true -> utf8_valid false (print j) = true.
Proof.
  induction j as [|[]|z|t|s|l IH|d IH] using json_ind'; intros Hp Hv; try done.
  - cbn [print]. apply utf8_valid_ascii. unfold print_int.
    assert (forall n, (0 <= n)%Z -> Forall (fun c => c < 0x80)%Z (print_nat n)) as Hn.
    { intros n Hn. eapply Forall_impl; [by apply print_nat_digits|]. unfold is_digit. intros c. lia. }
    destruct (Z.ltb_spec z 0); [constructor; [done|]|]; apply Hn; lia.
  - by apply utf8_valid_print_string.
  - cbn [print plain valid_text] in *. rewrite forallb_true in Hp, Hv.
    rewrite utf8_valid_app, utf8_valid_app by (done || (apply utf8_valid_join; [done|]; apply Forall_fmap, Forall_forall;
      intros x Hx; rewrite Forall_forall in IH; apply IH; auto)). done.
  - cbn [print plain valid_text] in *. apply andb_true_iff in Hp as [_ Hp].
    rewrite forallb_true in Hp, Hv. rewrite utf8_valid_app by done.
    rewrite utf8_valid_app; [done|]. apply utf8_valid_join; [done|]. apply Forall_fmap, Forall_forall.
    intros [k v] Hx. specialize (Hp _ Hx). specialize (Hv _ Hx). apply andb_true_iff in Hv as [Hk Hv].
    cbn [fst snd] in *. rewrite Forall_forall in IH. cbn [compose].
    rewrite utf8_valid_app by (by apply utf8_valid_print_string). rewrite utf8_valid_app by done.
    by apply (IH (k, v)).
Qed.

Lemma valid_text_canon j : valid_text j = true -> valid_text (canon j) = true.
Proof.
  induction j as [|[]|z|t|s|l IH|d IH] using json_ind'; try done; cbn [canon valid_text].
  - rewrite !forallb_true. intros Hl x Hx. apply list_elem_of_fmap in Hx as (y & -> & Hy).
    rewrite Forall_forall in IH. auto.
  - rewrite !forallb_true. intros Hd kv Hkv. rewrite merge_sort_Permutation in Hkv.
    apply list_elem_of_fmap in Hkv as (y & -> & Hy). rewrite Forall_forall in IH.
    specialize (Hd y Hy). apply andb_true_iff in Hd as [H1 H2]. cbn [fst snd]. rewrite H1. cbn. auto.
Qed.

Lemma utf8_valid_dumps j : plain j = true -> valid_text j = true -> utf8_valid false (dumps j) = true.
Proof. intros. apply utf8_valid_print; [by apply plain_canon | by apply valid_text_canon]. Qed.
