(* ===== verification/JsonIndent.v ===== *)
(** * JsonIndent: the indented layout of [json.dump]

    [json.dump(..., ensure_ascii=False, indent=2, sort_keys=True)], which the configuration file is written
    with, and that [json.load] reads it back. The parser and the values are those of [Json]. *)

From S2P Require Import Prelude Errors PyText Json.
From Stdlib Require Import Ascii.

(** A line break and the indentation of a depth. *)
Definition line_break (d : nat) : bytes := 10%Z :: repeat 32%Z (2 * d).
Fixpoint pretty (d : nat) (j : json) : bytes :=
  match j with
  | JList [] => lit "[]"
  | JList l => [91%Z] ++ line_break (S d) ++ join (comma :: line_break (S d)) (map (pretty (S d)) l)
               ++ line_break d ++ [93%Z]
  | JObj [] => lit "{}"
  | JObj l => [123%Z] ++ line_break (S d)
              ++ join (comma :: line_break (S d))
                   (map (fun kv => print_string kv.1 ++ [colon; 32%Z] ++ pretty (S d) kv.2) l)
              ++ line_break d ++ [125%Z]
  | j => print j
  end.
(** The text [json.dump] writes. *)
Definition dump_indented (j : json) : bytes := pretty 0 (canon j).

Example dump_indented_ex : dump_indented (JObj [("b", JList [JInt 7]); ("a", JObj [])])
  = lit "{" ++ [10%Z] ++ lit "  " ++ print_string "a" ++ lit ": {}," ++ [10%Z] ++ lit "  " ++ print_string "b" ++ lit ": ["
    ++ [10%Z] ++ lit "    7" ++ [10%Z] ++ lit "  ]" ++ [10%Z] ++ lit "}".
Proof. reflexivity. Qed.

(** ** Round trip *)

Lemma skip_ws_spaces n l : skip_ws (repeat 32%Z n ++ l) = skip_ws l.
Proof. by induction n. Qed.
Lemma skip_ws_break d l : skip_ws (line_break d ++ l) = skip_ws l.
Proof. unfold line_break. cbn [app skip_ws]. apply skip_ws_spaces. Qed.
Lemma stops_break d l : stops (line_break d ++ l).
Proof. right. right. by right. Qed.

Lemma pretty_head d j : plain j = true ->
  exists c r, pretty d j = c :: r /\ not_ws c /\ c <> 93%Z /\ c <> 125%Z.
Proof.
  intros Hp. destruct j as [| | | | |[|v l]|[|kv l]]; try (by apply print_head);
    (eexists _, _; split; [done|done]).
Qed.
Lemma skip_ws_pretty d v l : plain v = true -> skip_ws (pretty d v ++ l) = pretty d v ++ l.
Proof. intros (c & r & -> & Hc & _)%(pretty_head d). by apply skip_ws_id. Qed.

Definition reads_pretty (j : json) : Prop := forall d n rest,
  (length (pretty d j) <= n)%nat -> stops rest -> value n (pretty d j ++ rest) = Some (j, rest).
Definition pretty_member (d : nat) (kv : string * json) : bytes :=
  print_string kv.1 ++ [colon; 32%Z] ++ pretty d kv.2.

Lemma pretty_member_step d n k v acc tail :
  plain v = true -> reads_pretty v -> (length (pretty d v) <= n)%nat -> stops tail ->
  members (S n) acc (pretty_member d (k, v) ++ tail)
  = match eat 44 (skip_ws tail) with
    | Some r => members n (dict_set k v acc) (skip_ws r)
    | None => match eat 125 (skip_ws tail) with Some r => Some (dict_set k v acc, r) | None => None end
    end.
Proof.
  intros Hp Hv Hn Hs. unfold pretty_member, print_string. cbn [fst snd]. rewrite <- !app_assoc. cbn [app members].
  rewrite (eat_eq 34), scan_string_print, (skip_ws_id colon), (eat_eq 58) by done.
  change (skip_ws (32%Z :: pretty d v ++ tail)) with (skip_ws (pretty d v ++ tail)).
  by rewrite skip_ws_pretty, Hv, string_of_bytes_of by done.
Qed.
Lemma members_pretty d e l : forall kv acc n rest,
  Forall (fun kv => plain kv.2 = true /\ reads_pretty kv.2) (kv :: l) ->
  NoDup (acc.*1 ++ (kv :: l).*1) ->
  (length (join (comma :: line_break d) (map (pretty_member d) (kv :: l))) < n)%nat ->
  members n acc (join (comma :: line_break d) (map (pretty_member d) (kv :: l)) ++ line_break e ++ 125%Z :: rest)
  = Some (acc ++ kv :: l, rest).
Proof.
  induction l as [|kv' l IH]; intros [k v] acc n rest Hd Hnd Hn;
    (destruct n as [|n]; [lia|]); apply Forall_cons in Hd as [[Hp Hv] Hd]; cbn [snd] in Hp, Hv;
    assert (dict_set k v acc = acc ++ [(k, v)]) as Hset
      by (apply dict_set_fresh; csimpl in Hnd; apply NoDup_app in Hnd as (_ & H & _); set_solver);
    assert (length (pretty d v) <= length (pretty_member d (k, v)))%nat
      by (unfold pretty_member; cbn [fst snd]; rewrite !length_app; lia);
    cbn [map join flat_map] in Hn |- *; rewrite ?app_nil_r in Hn |- *.
  - rewrite pretty_member_step by (done || lia || apply stops_break). rewrite skip_ws_break, skip_ws_id by done.
    by rewrite Hset.
  - rewrite !length_app in Hn. rewrite <- !app_assoc. cbn [length] in Hn. cbn [app].
    rewrite pretty_member_step by (done || lia || (by left)). rewrite Hset, skip_ws_id, (eat_eq 44), skip_ws_break by done.
    replace (skip_ws (pretty_member d kv' ++ _)) with
      (join (comma :: line_break d) (map (pretty_member d) (kv' :: l)) ++ line_break e ++ 125%Z :: rest).
    + rewrite IH.
      * by rewrite <- app_assoc.
      * done.
      * rewrite fmap_app, <- app_assoc. done.
      * cbn [map join]. rewrite length_app in *. lia.
    + cbn [map join]. rewrite <- app_assoc. done.
Qed.
Lemma pretty_item_step d n v acc tail :
  reads_pretty v -> (length (pretty d v) <= n)%nat -> stops tail ->
  items (S n) acc (pretty d v ++ tail)
  = match eat 44 (skip_ws tail) with
    | Some r => items n (acc ++ [v]) (skip_ws r)
    | None => match eat 93 (skip_ws tail) with Some r => Some (acc ++ [v], r) | None => None end
    end.
Proof. intros Hv Hn Hs. cbn [items]. by rewrite Hv. Qed.
Lemma items_pretty d e l : forall v acc n rest,
  Forall (fun v => plain v = true /\ reads_pretty v) (v :: l) ->
  (length (join (comma :: line_break d) (map (pretty d) (v :: l))) < n)%nat ->
  items n acc (join (comma :: line_break d) (map (pretty d) (v :: l)) ++ line_break e ++ 93%Z :: rest)
  = Some (acc ++ v :: l, rest).
Proof.
  induction l as [|v' l IH]; intros v acc n rest Hl Hn; (destruct n as [|n]; [lia|]);
    apply Forall_cons in Hl as [[Hp Hv] Hl];
    cbn [map join flat_map] in Hn |- *; rewrite ?app_nil_r in Hn |- *.
  - rewrite pretty_item_step by (done || lia || apply stops_break). by rewrite skip_ws_break, skip_ws_id.
  - rewrite !length_app in Hn. rewrite <- !app_assoc. cbn [length] in Hn. cbn [app].
    rewrite pretty_item_step by (done || lia || (by left)). rewrite skip_ws_id, (eat_eq 44), skip_ws_break by done.
    replace (skip_ws (pretty d v' ++ _)) with
      (join (comma :: line_break d) (map (pretty d) (v' :: l)) ++ line_break e ++ 93%Z :: rest).
    + rewrite IH; [by rewrite <- app_assoc | done |]. cbn [map join]. rewrite length_app in *. lia.
    + cbn [map join]. rewrite <- app_assoc. apply Forall_cons in Hl as [[Hp' _] _].
      by rewrite skip_ws_pretty.
Qed.

Lemma value_pretty j : plain j = true -> reads_pretty j.
Proof.
  induction j as [|b|z|t|s|l IH|l IH] using json_ind'; intros Hp;
    try (intros d n rest; by apply value_print); intros d n rest Hn Hs;
    (destruct n as [|n]; [destruct (pretty_head d _ Hp) as (? & ? & E & _); rewrite E in Hn; simpl in Hn; lia|]).
  - destruct l as [|v l]; [reflexivity|]. cbn [pretty] in Hn |- *. cbn [plain] in Hp.
    rewrite forallb_true in Hp.
    assert (Forall (fun v => plain v = true /\ reads_pretty v) (v :: l)) as Hl.
    { rewrite Forall_forall in IH |- *. intros x Hx. split; [auto|]. apply IH; auto. }
    rewrite <- !app_assoc. cbn [app value]. change (91 =? 34)%Z with false.
    change (91 =? 123)%Z with false. change (91 =? 91)%Z with true. cbv iota.
    rewrite skip_ws_break.
    pose proof (items_pretty (S d) d l v [] n rest Hl) as Hitems.
    destruct (pretty_head (S d) v) as (c & r & Ec & Hc & H93 & _); [apply Hp; left|].
    cbn [map join] in Hitems, Hn |- *. rewrite <- app_assoc in Hitems |- *. rewrite Ec in Hitems, Hn |- *.
    cbn [app] in Hitems, Hn |- *. rewrite skip_ws_id by done. rewrite eat_ne by done.
    rewrite Hitems; [done|]. simpl in Hn |- *. rewrite !length_app in Hn |- *. simpl in Hn.
    rewrite !length_app in Hn. lia.
  - cbn [plain] in Hp. apply andb_true_iff in Hp as [Hnd Hp]. bsimp. rewrite forallb_true in Hp.
    destruct l as [|kv l]; [reflexivity|].
    assert (Forall (fun kv => plain kv.2 = true /\ reads_pretty kv.2) (kv :: l)) as Hl.
    { rewrite Forall_forall in IH |- *. intros x Hx. split; [auto|]. apply IH; auto. }
    cbn [pretty] in Hn |- *.
    change (map (fun kv => _) (kv :: l)) with (map (pretty_member (S d)) (kv :: l)) in Hn |- *.
    rewrite <- !app_assoc. cbn [app value]. change (123 =? 34)%Z with false.
    change (123 =? 123)%Z with true. cbv iota. rewrite skip_ws_break.
    pose proof (members_pretty (S d) d l kv [] n rest Hl Hnd) as Hmem.
    cbn [map join] in Hmem, Hn |- *. rewrite <- !app_assoc in Hmem |- *.
    change (skip_ws (pretty_member (S d) kv ++ ?x)) with (pretty_member (S d) kv ++ x).
    change (eat 125 (pretty_member (S d) kv ++ ?x)) with (@None bytes).
    rewrite Hmem; [done|].
    rewrite !length_app in Hn. rewrite length_app. cbn [length] in Hn. lia.
Qed.

Lemma utf8_valid_break d : utf8_valid false (line_break d) = true.
Proof. apply utf8_valid_ascii. constructor; [done|]. by induction (2 * d)%nat; constructor. Qed.
Lemma utf8_valid_pretty j : plain j = true -> valid_text j = true -> forall d, utf8_valid false (pretty d j) = true.
Proof.
  induction j as [|b|z|t|s|l IH|l IH] using json_ind'; intros Hp Hv d; try (by apply utf8_valid_print).
  - destruct l as [|v l]; [done|]. cbn [pretty]. cbn [plain valid_text] in Hp, Hv. rewrite forallb_true in Hp, Hv.
    rewrite utf8_valid_app by done. rewrite utf8_valid_app by apply utf8_valid_break.
    rewrite utf8_valid_app by (apply utf8_valid_join; [apply (utf8_valid_break (S d))|]; apply Forall_fmap, Forall_forall;
      intros x Hx; rewrite Forall_forall in IH; apply IH; auto).
    by rewrite utf8_valid_app by apply utf8_valid_break.
  - destruct l as [|kv l]; [done|]. cbn [pretty]. cbn [plain valid_text] in Hp, Hv. apply andb_true_iff in Hp as [_ Hp].
    rewrite forallb_true in Hp, Hv.
    rewrite utf8_valid_app by done. rewrite utf8_valid_app by apply utf8_valid_break.
    rewrite utf8_valid_app; [by rewrite utf8_valid_app by apply utf8_valid_break|].
    apply utf8_valid_join; [apply (utf8_valid_break (S d))|]. apply Forall_fmap, Forall_forall.
    intros [k v] Hx. specialize (Hp _ Hx). specialize (Hv _ Hx). apply andb_true_iff in Hv as [Hk Hv].
    cbn [fst snd] in *. rewrite Forall_forall in IH. cbn [compose fst snd].
    rewrite utf8_valid_app by (by apply utf8_valid_print_string). rewrite utf8_valid_app by done.
    by apply (IH (k, v)).
Qed.
(** What [json.dump] prints, with a line break after it, [json.load] reads back, its objects sorted. *)
Lemma loads_dump_indented j : plain j = true -> valid_text j = true ->
  utf8_valid false (dump_indented j ++ [10%Z]) = true
  /\ loads (dump_indented j ++ [10%Z]) = Some (canon j).
Proof.
  intros Hp Hx. pose proof (plain_canon j Hp) as Hc. unfold loads, dump_indented.
  assert (utf8_valid false (pretty 0 (canon j) ++ [10%Z]) = true) as Hu.
  { rewrite utf8_valid_app; [done|]. apply utf8_valid_pretty; [done|by apply valid_text_canon]. }
  split; [done|]. rewrite utf8_valid_surrogates by done.
  pose proof (value_pretty _ Hc 0 (S (length (pretty 0 (canon j) ++ [10%Z]))) [10%Z]) as Hv.
  rewrite skip_ws_pretty, Hv by (done || (rewrite length_app; lia) || (right; right; by right)). done.
Qed.
