(* ===== verification/PyTime.v ===== *)
(** * PyTime: UTC timestamps as text

    [domain/time_format.py], [_db_datetime] of [infrastructure/database/search_repository.py] and
    [_timestamp] of [usecases/trash.py]. The database compares timestamps as text, so what matters
    is how the printed forms compare. A datetime is aware and in UTC (what [to_utc] and
    [astimezone(UTC)] give); Python compares two of them field by field. *)

From S2P Require Import Prelude Errors.
From Stdlib Require Import Ascii String.

Record datetime := DateTime {
  year : Z; month : Z; day : Z; hour : Z; minute : Z; second : Z; microsecond : Z;
}.
#[export] Instance datetime_eq_dec : EqDecision datetime.
Proof. solve_decision. Defined.

Definition leap (y : Z) : bool :=
  ((y mod 4 =? 0) && (negb (y mod 100 =? 0) || (y mod 400 =? 0)))%Z.
Definition days_in_month (y m : Z) : Z :=
  if (m =? 2)%Z then (if leap y then 29 else 28)
  else if ((m =? 4) || (m =? 6) || (m =? 9) || (m =? 11))%Z then 30 else 31.

(** The ranges the [datetime] constructor enforces. *)
Definition valid (t : datetime) : bool :=
  ((1 <=? year t) && (year t <=? 9999) && (1 <=? month t) && (month t <=? 12)
   && (1 <=? day t) && (day t <=? days_in_month (year t) (month t))
   && (0 <=? hour t) && (hour t <=? 23) && (0 <=? minute t) && (minute t <=? 59)
   && (0 <=? second t) && (second t <=? 59)
   && (0 <=? microsecond t) && (microsecond t <=? 999999))%Z.

(** ** Printing *)

Open Scope string_scope.

Definition digit (n : Z) : ascii := ascii_of_N (Z.to_N (48 + n)).
Definition pad2 (n : Z) : string := String (digit (n / 10)) (String (digit (n mod 10)) "").
Definition pad4 (n : Z) : string := pad2 (n / 100) ++ pad2 (n mod 100).
Definition pad6 (n : Z) : string := pad2 (n / 10000) ++ pad4 (n mod 10000).

Definition fields (t : datetime) : string :=
  pad4 (year t) ++ "-" ++ pad2 (month t) ++ "-" ++ pad2 (day t)
  ++ "T" ++ pad2 (hour t) ++ ":" ++ pad2 (minute t) ++ ":" ++ pad2 (second t).

(** [to_utc_iso8601]: seconds precision, [Z] suffix. *)
Definition to_utc_iso8601 (t : datetime) : string := fields t ++ "Z".

Definition fraction (t : datetime) : string :=
  if (microsecond t =? 0)%Z then "" else "." ++ pad6 (microsecond t).

(** [datetime.isoformat()] of a UTC value: the fraction is left out when it is zero. *)
Definition isoformat (t : datetime) : string := fields t ++ fraction t ++ "+00:00".

(** [_db_datetime]: the same with the offset written [Z]. *)
Definition db_datetime (t : datetime) : string := fields t ++ fraction t ++ "Z".

(** ** Reading back

    [datetime.fromisoformat] on the forms the program writes: the date and time with two-digit
    fields, an optional six-digit fraction, the UTC offset. *)

Definition digit_value (c : ascii) : option Z :=
  let n := Z.of_N (N_of_ascii c) in
  if ((48 <=? n) && (n <=? 57))%Z then Some (n - 48)%Z else None.
Fixpoint take_digits (n : nat) (acc : Z) (s : string) : option (Z * string) :=
  match n, s with
  | O, _ => Some (acc, s)
  | S n, String c s => match digit_value c with
                       | Some d => take_digits n (10 * acc + d)%Z s
                       | None => None
                       end
  | S _, "" => None
  end.
Definition take_char (c : ascii) (s : string) : option string :=
  match s with String d s => if Ascii.eqb c d then Some s else None | "" => None end.

Notation "'let*' x := m 'in' k" := (match m with Some x => k | None => None end)
  (at level 200, x binder, k at level 200) : md_scope.

Definition fromisoformat (s : string) : option datetime :=
  let* ys := take_digits 4 0 s in let (y, s) := (ys : Z * string) in
  let* s := take_char "-" s in
  let* ms := take_digits 2 0 s in let (mo, s) := (ms : Z * string) in
  let* s := take_char "-" s in
  let* ds := take_digits 2 0 s in let (d, s) := (ds : Z * string) in
  let* s := take_char "T" s in
  let* hs := take_digits 2 0 s in let (h, s) := (hs : Z * string) in
  let* s := take_char ":" s in
  let* mis := take_digits 2 0 s in let (mi, s) := (mis : Z * string) in
  let* s := take_char ":" s in
  let* ss := take_digits 2 0 s in let (sec, s) := (ss : Z * string) in
  let* fs := match take_char "." s with
             | Some s => take_digits 6 0 s
             | None => Some (0%Z, s)
             end in let (us, s) := (fs : Z * string) in
  if String.eqb s "+00:00" && valid (DateTime y mo d h mi sec us)
  then Some (DateTime y mo d h mi sec us) else None.

(** [_datetime] of the search repository: [Z] read as the offset. *)
Fixpoint replace_Z (s : string) : string :=
  match s with
  | "" => ""
  | String c s => if Ascii.eqb c "Z" then "+00:00" ++ replace_Z s else String c (replace_Z s)
  end.
Definition parse_datetime (s : string) : option datetime := fromisoformat (replace_Z s).
Close Scope string_scope.

(** ** Arithmetic *)

(** [now - timedelta(days=n)]: the day before, [n] times. *)
Definition previous_day (t : datetime) : datetime :=
  let at_date y m d := DateTime y m d (hour t) (minute t) (second t) (microsecond t) in
  if (1 <? day t)%Z then at_date (year t) (month t) (day t - 1)%Z
  else if (1 <? month t)%Z then
    at_date (year t) (month t - 1)%Z (days_in_month (year t) (month t - 1))
  else at_date (year t - 1)%Z 12%Z 31%Z.
Definition minus_days (n : Z) (t : datetime) : datetime := Nat.iter (Z.to_nat n) previous_day t.

(** [date.toordinal], and the microseconds a [timedelta] between two datetimes counts. *)
Definition days_before_month (y m : Z) : Z :=
  fold_left (fun n k => (n + days_in_month y k)%Z) (seqZ 1 (m - 1)) 0%Z.
Definition days_before_year (y : Z) : Z :=
  ((y - 1) * 365 + (y - 1) / 4 - (y - 1) / 100 + (y - 1) / 400)%Z.
Definition ordinal (t : datetime) : Z :=
  (days_before_year (year t) + days_before_month (year t) (month t) + day t)%Z.
Definition microseconds (t : datetime) : Z :=
  ((((ordinal t * 24 + hour t) * 60 + minute t) * 60 + second t) * 1000000 + microsecond t)%Z.

(** ** Comparison *)

Definition thenc (c d : comparison) : comparison := match c with Eq => d | _ => c end.

Definition compare_seconds (a b : datetime) : comparison :=
  thenc (year a ?= year b)%Z (thenc (month a ?= month b)%Z (thenc (day a ?= day b)%Z
    (thenc (hour a ?= hour b)%Z (thenc (minute a ?= minute b)%Z (second a ?= second b)%Z)))).

(** Python's order on aware UTC datetimes. *)
Definition datetime_compare (a b : datetime) : comparison :=
  thenc (compare_seconds a b) (microsecond a ?= microsecond b)%Z.

Lemma thenc_assoc a b c : thenc (thenc a b) c = thenc a (thenc b c).
Proof. by destruct a. Qed.
Lemma thenc_Eq_r a : thenc a Eq = a.
Proof. by destruct a. Qed.

Lemma append_cons c a s : (String c a ++ s = String c (a ++ s))%string.
Proof. reflexivity. Qed.
Lemma append_nil s : ("" ++ s = s)%string.
Proof. reflexivity. Qed.
Lemma append_assoc (a b c : string) : ((a ++ b) ++ c = a ++ b ++ c)%string.
Proof. induction a as [|x a IH]; [done|]. by rewrite !append_cons, IH. Qed.

Lemma compare_cons c d s t :
  String.compare (String c s) (String d t)
  = thenc (N_of_ascii c ?= N_of_ascii d)%N (String.compare s t).
Proof. cbn [String.compare]. unfold Ascii.compare. by destruct (_ ?= _)%N. Qed.

Lemma compare_trans c s t u :
  String.compare s t = c -> String.compare t u = c -> String.compare s u = c.
Proof.
  revert t u. induction s as [|a s IH]; intros [|b t] [|e u]; try (simpl; congruence).
  rewrite !compare_cons. unfold thenc.
  destruct (N.compare_spec (Ascii.N_of_ascii a) (Ascii.N_of_ascii b)),
    (N.compare_spec (Ascii.N_of_ascii b) (Ascii.N_of_ascii e)),
    (N.compare_spec (Ascii.N_of_ascii a) (Ascii.N_of_ascii e)); try lia; try congruence; apply IH.
Qed.

Lemma digit_code n : (0 <= n < 10)%Z -> N_of_ascii (digit n) = Z.to_N (48 + n).
Proof. intros Hn. unfold digit. apply N_ascii_embedding. lia. Qed.

Lemma compare_digit a b s t : (0 <= a < 10)%Z -> (0 <= b < 10)%Z ->
  String.compare (String (digit a) s) (String (digit b) t) = thenc (a ?= b)%Z (String.compare s t).
Proof.
  intros Ha Hb. rewrite compare_cons, !digit_code by done. f_equal.
  rewrite <- (N2Z.inj_compare (Z.to_N (48 + a))), !Z2N.id by lia.
  rewrite Z.add_compare_mono_l. done.
Qed.

(** Two numbers below [k * m] compare as their quotients by [m], then their remainders. *)
Lemma compare_div_mod m a b : (0 < m)%Z ->
  thenc (a / m ?= b / m)%Z (a mod m ?= b mod m)%Z = (a ?= b)%Z.
Proof.
  intros Hm. pose proof (Z.div_mod a m) as Ea. pose proof (Z.div_mod b m) as Eb.
  pose proof (Z.mod_pos_bound a m Hm). pose proof (Z.mod_pos_bound b m Hm).
  destruct (Z.compare_spec (a / m) (b / m)), (Z.compare_spec (a mod m) (b mod m)),
    (Z.compare_spec a b); simpl; first [done | nia].
Qed.

Lemma compare_pad2 a b s t : (0 <= a < 100)%Z -> (0 <= b < 100)%Z ->
  String.compare (pad2 a ++ s) (pad2 b ++ t) = thenc (a ?= b)%Z (String.compare s t).
Proof.
  intros Ha Hb. unfold pad2. rewrite !append_cons, !append_nil.
  assert (forall x, 0 <= x < 100 -> 0 <= x / 10 < 10 /\ 0 <= x mod 10 < 10)%Z as Hx
    by (intros x Hx; split; [split; [apply Z.div_pos|apply Z.div_lt_upper_bound]|
          apply Z.mod_pos_bound]; lia).
  rewrite !compare_digit by (apply Hx; done). by rewrite <- thenc_assoc, compare_div_mod.
Qed.

Lemma pad_bounds m k x : (0 < m -> 0 <= x < k * m -> 0 <= x / m < k /\ 0 <= x mod m < m)%Z.
Proof.
  intros Hm Hx. split; [split; [apply Z.div_pos|apply Z.div_lt_upper_bound]|
    apply Z.mod_pos_bound]; lia.
Qed.

Lemma compare_pad4 a b s t : (0 <= a < 10000)%Z -> (0 <= b < 10000)%Z ->
  String.compare (pad4 a ++ s) (pad4 b ++ t) = thenc (a ?= b)%Z (String.compare s t).
Proof.
  intros Ha Hb. unfold pad4. rewrite !append_assoc.
  pose proof (pad_bounds 100 100 a). pose proof (pad_bounds 100 100 b).
  rewrite !compare_pad2 by lia. by rewrite <- thenc_assoc, compare_div_mod.
Qed.

Lemma compare_pad6 a b s t : (0 <= a < 1000000)%Z -> (0 <= b < 1000000)%Z ->
  String.compare (pad6 a ++ s) (pad6 b ++ t) = thenc (a ?= b)%Z (String.compare s t).
Proof.
  intros Ha Hb. unfold pad6. rewrite !append_assoc.
  pose proof (pad_bounds 10000 100 a). pose proof (pad_bounds 10000 100 b).
  rewrite compare_pad2, compare_pad4 by lia. by rewrite <- thenc_assoc, compare_div_mod.
Qed.

Lemma compare_same c s t : String.compare (String c s) (String c t) = String.compare s t.
Proof. rewrite compare_cons, N.compare_refl. done. Qed.

Lemma compare_refl s : String.compare s s = Eq.
Proof. induction s as [|c s IH]; [done|]. by rewrite compare_same. Qed.

Lemma valid_ranges t : valid t = true ->
  (0 <= year t < 10000 /\ 0 <= month t < 100 /\ 0 <= day t < 100 /\ 0 <= hour t < 100
   /\ 0 <= minute t < 100 /\ 0 <= second t < 100 /\ 0 <= microsecond t < 1000000)%Z.
Proof.
  unfold valid. intros H. rewrite !andb_true_iff, !Z.leb_le in H.
  assert (days_in_month (year t) (month t) <= 31)%Z
    by (unfold days_in_month; repeat case_match; lia). lia.
Qed.

Lemma compare_fields a b s t : valid a = true -> valid b = true ->
  String.compare (fields a ++ s) (fields b ++ t) = thenc (compare_seconds a b) (String.compare s t).
Proof.
  intros Ha%valid_ranges Hb%valid_ranges. unfold fields, compare_seconds.
  rewrite !append_assoc, !thenc_assoc, !append_cons, !append_nil.
  rewrite compare_pad4 by lia. f_equal. rewrite compare_same, compare_pad2 by lia. f_equal.
  rewrite compare_same, compare_pad2 by lia. f_equal.
  rewrite compare_same, compare_pad2 by lia. f_equal.
  rewrite compare_same, compare_pad2 by lia. f_equal.
  by rewrite compare_same, compare_pad2 by lia.
Qed.

(** The timestamps the synchronizer stores order as time does: comparing two of them as
    text, the way the database sorts and filters, compares the instants to the second. *)
Lemma stored_timestamps_order a b : valid a = true -> valid b = true ->
  String.compare (to_utc_iso8601 a) (to_utc_iso8601 b) = compare_seconds a b.
Proof.
  intros Ha Hb. unfold to_utc_iso8601. by rewrite compare_fields, compare_refl, thenc_Eq_r.
Qed.

Definition may_1 : datetime := DateTime 2024 5 1 23 59 59 0.
Definition may_2 : datetime := DateTime 2024 5 2 0 0 0 0.

(** The timestamps of the local trash order as time does, fractions included: the grace
    period test, a text comparison of the trashing time with the printed cutoff, compares the two
    instants to the microsecond even though a zero fraction is not printed. *)
Lemma isoformat_order a b : valid a = true -> valid b = true ->
  String.compare (isoformat a) (isoformat b) = datetime_compare a b.
Proof.
  intros Ha Hb. unfold isoformat, datetime_compare. rewrite compare_fields by done. f_equal.
  apply valid_ranges in Ha as (_ & _ & _ & _ & _ & _ & Ha).
  apply valid_ranges in Hb as (_ & _ & _ & _ & _ & _ & Hb). unfold fraction.
  destruct (Z.eqb_spec (microsecond a) 0) as [Ea|Ea], (Z.eqb_spec (microsecond b) 0) as [Eb|Eb].
  - rewrite compare_refl, Ea, Eb. done.
  - symmetry. rewrite Ea. apply Z.compare_lt_iff. lia.
  - symmetry. rewrite Eb. apply Z.compare_gt_iff. lia.
  - rewrite !append_cons, compare_same, !append_nil.
    by rewrite compare_pad6, compare_refl, thenc_Eq_r by lia.
Qed.

(** A date filter that ends a day at its last microsecond excludes messages of that day: the
    filter is printed with a fraction, the stored value without one, and the text comparison puts
    the stored second after the filter although it is the earlier instant. *)
Lemma end_of_day_excluded stored bound :
  valid stored = true -> valid bound = true -> compare_seconds stored bound = Eq ->
  microsecond stored = 0%Z -> (0 < microsecond bound)%Z ->
  datetime_compare stored bound = Lt
  /\ String.compare (to_utc_iso8601 stored) (db_datetime bound) = Gt.
Proof.
  intros Hs Hb E Hs0 Hb0. split.
  - unfold datetime_compare. rewrite E, Hs0. by apply Z.compare_lt_iff.
  - unfold to_utc_iso8601, db_datetime. rewrite compare_fields, E by done. simpl thenc.
    unfold fraction. destruct (Z.eqb_spec (microsecond bound) 0); [lia | reflexivity].
Qed.

(** ** Reading a printed timestamp *)

Lemma digit_value_digit n : (0 <= n < 10)%Z -> digit_value (digit n) = Some n.
Proof.
  intros Hn. unfold digit_value. rewrite digit_code, Z2N.id by lia.
  destruct (Z.leb_spec 48 (48 + n)), (Z.leb_spec (48 + n) 57); try lia. simpl. f_equal. lia.
Qed.

Lemma take_digits_pad2 k acc n s : (0 <= n < 100)%Z ->
  take_digits (S (S k)) acc (pad2 n ++ s) = take_digits k (100 * acc + n) s.
Proof.
  intros Hn. pose proof (pad_bounds 10 10 n) as Hb. unfold pad2. rewrite !append_cons, append_nil.
  cbn [take_digits]. rewrite !digit_value_digit by lia. f_equal.
  pose proof (Z.div_mod n 10). lia.
Qed.

Lemma take_digits_pad4 k acc n s : (0 <= n < 10000)%Z ->
  take_digits (S (S (S (S k)))) acc (pad4 n ++ s) = take_digits k (10000 * acc + n) s.
Proof.
  intros Hn. pose proof (pad_bounds 100 100 n) as Hb. unfold pad4. rewrite !append_assoc.
  rewrite !take_digits_pad2 by lia. f_equal. pose proof (Z.div_mod n 100). lia.
Qed.

Lemma take_digits_pad6 acc n s : (0 <= n < 1000000)%Z ->
  take_digits 6 acc (pad6 n ++ s) = Some (1000000 * acc + n, s)%Z.
Proof.
  intros Hn. pose proof (pad_bounds 10000 100 n) as Hb. unfold pad6. rewrite !append_assoc.
  rewrite take_digits_pad2, take_digits_pad4 by lia. cbn [take_digits]. do 2 f_equal.
  pose proof (Z.div_mod n 10000). lia.
Qed.

Lemma take_pad2 n s : (0 <= n < 100)%Z -> take_digits 2 0 (pad2 n ++ s) = Some (n, s).
Proof. apply (take_digits_pad2 0 0). Qed.
Lemma take_pad4 n s : (0 <= n < 10000)%Z -> take_digits 4 0 (pad4 n ++ s) = Some (n, s).
Proof. apply (take_digits_pad4 0 0). Qed.
Lemma take_pad6 n s : (0 <= n < 1000000)%Z -> take_digits 6 0 (pad6 n ++ s) = Some (n, s).
Proof. apply (take_digits_pad6 0). Qed.

Lemma digit_not_Z n : (0 <= n < 10)%Z -> Ascii.eqb (digit n) "Z" = false.
Proof.
  intros Hn. apply Ascii.eqb_neq. intros E. apply (f_equal N_of_ascii) in E.
  rewrite digit_code in E by done. change (N_of_ascii "Z") with 90%N in E. lia.
Qed.

Lemma replace_Z_pad2 n s : (0 <= n < 100)%Z ->
  replace_Z (pad2 n ++ s) = (pad2 n ++ replace_Z s)%string.
Proof.
  intros Hn. pose proof (pad_bounds 10 10 n) as Hb. unfold pad2. rewrite !append_cons, !append_nil.
  cbn [replace_Z]. by rewrite !digit_not_Z by lia.
Qed.
Lemma replace_Z_pad4 n s : (0 <= n < 10000)%Z ->
  replace_Z (pad4 n ++ s) = (pad4 n ++ replace_Z s)%string.
Proof.
  intros Hn. pose proof (pad_bounds 100 100 n) as Hb. unfold pad4. rewrite !append_assoc.
  by rewrite !replace_Z_pad2 by lia.
Qed.
Lemma replace_Z_pad6 n s : (0 <= n < 1000000)%Z ->
  replace_Z (pad6 n ++ s) = (pad6 n ++ replace_Z s)%string.
Proof.
  intros Hn. pose proof (pad_bounds 10000 100 n) as Hb. unfold pad6. rewrite !append_assoc.
  by rewrite replace_Z_pad2, replace_Z_pad4 by lia.
Qed.
Lemma replace_Z_char c s : Ascii.eqb c "Z" = false ->
  replace_Z (String c s) = String c (replace_Z s).
Proof. intros E. cbn [replace_Z]. by rewrite E. Qed.

Lemma take_char_same c s : take_char c (String c s) = Some s.
Proof. unfold take_char. by rewrite Ascii.eqb_refl. Qed.

(** Reading a timestamp the program printed gives it back. *)
Lemma fromisoformat_isoformat t : valid t = true -> fromisoformat (isoformat t) = Some t.
Proof.
  intros Hv. pose proof (valid_ranges t Hv) as Hr.
  unfold isoformat, fields, fromisoformat. rewrite !append_assoc, !append_cons, !append_nil.
  rewrite take_pad4, take_char_same by lia. do 4 rewrite take_pad2, take_char_same by lia.
  rewrite take_pad2 by lia. unfold fraction.
  destruct t as [y mo d h mi s us]; cbn [year month day hour minute second microsecond] in Hr |- *.
  destruct (Z.eqb_spec us 0) as [->|Hus].
  - change (take_char "." ("" ++ "+00:00")) with (@None string). cbv iota.
    change (String.eqb ("" ++ "+00:00") "+00:00") with true. cbn [andb]. by rewrite Hv.
  - rewrite !append_cons, !append_nil, take_char_same, take_pad6 by lia.
    rewrite String.eqb_refl. cbn [andb]. by rewrite Hv.
Qed.

Lemma parse_db_datetime t : valid t = true -> parse_datetime (db_datetime t) = Some t.
Proof.
  intros Hv. pose proof (valid_ranges t Hv) as Hr. unfold parse_datetime, db_datetime.
  rewrite <- (fromisoformat_isoformat t Hv). f_equal.
  unfold isoformat, fields. rewrite !append_assoc, !append_cons, !append_nil.
  rewrite replace_Z_pad4, replace_Z_char by (done || lia).
  do 4 rewrite replace_Z_pad2, replace_Z_char by (done || lia). rewrite replace_Z_pad2 by lia.
  unfold fraction. case_match; [done|]. rewrite !append_cons, !append_nil, replace_Z_char by done.
  by rewrite replace_Z_pad6 by lia.
Qed.

(** Stored timestamps have no fraction: printing what was read gives the stored text. *)
Lemma parse_to_utc_iso8601 t : valid t = true -> microsecond t = 0%Z ->
  parse_datetime (to_utc_iso8601 t) = Some t /\ db_datetime t = to_utc_iso8601 t.
Proof.
  intros Hv H0. assert (db_datetime t = to_utc_iso8601 t) as E
    by (unfold db_datetime, to_utc_iso8601, fraction; by rewrite H0).
  split; [|done]. rewrite <- E. by apply parse_db_datetime.
Qed.

(** ** Days *)

Lemma division_step k y : (0 < k)%Z -> (y / k - (y - 1) / k = if (y mod k =? 0)%Z then 1 else 0)%Z.
Proof.
  intros Hk. destruct (Z.eqb_spec (y mod k) 0) as [E|E]; Z.to_euclidean_division_equations; nia.
Qed.

Lemma days_of_year y : days_before_year (y + 1) = (days_before_year y + if leap y then 366 else 365)%Z.
Proof.
  unfold days_before_year, leap. replace (y + 1 - 1)%Z with y by lia.
  pose proof (division_step 4 y ltac:(lia)). pose proof (division_step 100 y ltac:(lia)).
  pose proof (division_step 400 y ltac:(lia)).
  destruct (Z.eqb_spec (y mod 4) 0), (Z.eqb_spec (y mod 100) 0), (Z.eqb_spec (y mod 400) 0);
    cbn [andb orb negb]; try lia; exfalso; Z.to_euclidean_division_equations; lia.
Qed.

Lemma days_of_month y m : (1 < m <= 12)%Z ->
  days_before_month y m = (days_before_month y (m - 1) + days_in_month y (m - 1))%Z.
Proof.
  intros H. assert (m ∈ [2; 3; 4; 5; 6; 7; 8; 9; 10; 11; 12]%Z) as Hm by (rewrite !elem_of_cons; lia).
  rewrite !elem_of_cons in Hm. destruct_or! Hm; subst; unfold days_before_month, days_in_month; cbn;
    destruct (leap y); try reflexivity. all: by rewrite elem_of_nil in Hm.
Qed.

Lemma days_before_december y : (days_before_month y 12 = if leap y then 335 else 334)%Z.
Proof. unfold days_before_month, days_in_month. cbn. by destruct (leap y). Qed.

Lemma ordinal_previous_day t : valid t = true -> ordinal (previous_day t) = (ordinal t - 1)%Z.
Proof.
  unfold valid. intros H. bsimp. unfold previous_day, ordinal.
  destruct (Z.ltb_spec 1 (day t)); cbn [year month day]; [lia|].
  destruct (Z.ltb_spec 1 (month t)); cbn [year month day].
  - rewrite (days_of_month (year t) (month t)) by lia. lia.
  - rewrite days_before_december. pose proof (days_of_year (year t - 1)) as Hy.
    replace (year t - 1 + 1)%Z with (year t) in Hy by lia. replace (month t) with 1%Z by lia.
    change (days_before_month (year t) 1) with 0%Z. destruct (leap (year t - 1)); lia.
Qed.
