(* ===== verification/StorageLock.v ===== *)
(** * StorageLock: one instance of the program at a time

    [StorageLock] of [infrastructure/storage/storage_root.py], on POSIX systems, as a transition system: any number of
    instances share the lock file and the metadata file of a root, and every system call is a step of one of
    them. [flock] locks the file that was opened, not its name: the lock file is an inode. A step that can fail says
    so; times, process numbers and names are given. Metadata is ASCII text; errors of opening the lock file, which end
    an attempt before it locked anything, and the pause between attempts are left out. *)

From S2P Require Import Prelude Errors PyText PyTime Json.

Open Scope list_scope.

(** ** The metadata *)

(** What an instance writes about itself. *)
Record instance_meta := Meta { pid : Z; instance_uuid : string; machine_id : string; heartbeat_at : datetime }.
(** The text [_write_meta] writes. *)
Definition meta_text (m : instance_meta) : bytes :=
  print (JObj [("pid", JInt (pid m)); ("instance_uuid", JStr (instance_uuid m)); ("machine_id", JStr (machine_id m));
               ("heartbeat_at", JStr (isoformat (heartbeat_at m)))])%string ++ [10%Z].
(** [_read_meta]: no metadata when the file is missing or no JSON object; text that is not UTF-8 raises. *)
Definition read_meta (file : option bytes) : result (option (list (string * json))) :=
  match file with
  | None => Ok None
  | Some text =>
      if negb (utf8_valid false text) then raise ValueError "invalid start byte" else
      match loads text with Some (JObj m) => Ok (Some m) | _ => Ok None end
  end.
(** [_heartbeat_is_fresh] *)
Definition heartbeat_is_fresh (value : option json) (now : datetime) (stale_after_sec : Z) : bool :=
  match value with
  | Some (JStr s) => match parse_datetime s with
                     | Some h => (microseconds now - microseconds h <=? stale_after_sec * 1000000)%Z
                     | None => false
                     end
  | _ => false
  end.

(** ** The steps *)

(** The files of the root: the inode the name of the lock file stands for, the inodes that are locked with the instance
    that locked them, and the metadata. *)
Record disk := Disk { lock_inode : option nat; next_inode : nat; owners : list (nat * nat); meta_file : option bytes }.
(** Where an instance is. *)
Inductive phase :=
  | Idle                                  (* the lock is not held *)
  | Acquiring (attempt : nat)             (* before [_try_os_lock] *)
  | Opened (attempt inode : nat)          (* the file is open, [flock] comes next *)
  | Locked (attempt inode : nat)          (* [flock] succeeded, [_read_meta] comes next *)
  | Claimed (inode : nat)                 (* [_write_meta] comes next *)
  | Held (inode : nat)                    (* [acquire] returned *)
  | Stuck (inode : nat)                   (* [acquire] raised and the file is still locked *)
  | Unlinking                             (* released, the lock file is removed next *)
  | Clearing.                             (* the metadata is removed next *)
Inductive action :=
  | Acquire | Open | Flock | ReadMeta (now : datetime) | WriteMeta (m : instance_meta) (ok : bool)
  | Heartbeat (m : instance_meta) (ok : bool) | Release | UnlinkLock (ok : bool) | UnlinkMeta (ok : bool) | Crash.

Definition open_lock (d : disk) : nat * disk :=
  match lock_inode d with
  | Some n => (n, d)
  | None => (next_inode d, Disk (Some (next_inode d)) (S (next_inode d)) (owners d) (meta_file d))
  end.
Definition set_meta (m : option bytes) (d : disk) : disk := Disk (lock_inode d) (next_inode d) (owners d) m.
Definition lock_file (n i : nat) (d : disk) : disk := Disk (lock_inode d) (next_inode d) ((n, i) :: owners d) (meta_file d).
(** Closing the files of instance [i]. *)
Definition unlock (i : nat) (d : disk) : disk :=
  Disk (lock_inode d) (next_inode d) (List.filter (fun o => negb (o.2 =? i)%nat) (owners d)) (meta_file d).
Definition is_locked (n : nat) (d : disk) : bool := existsb (fun o => (o.1 =? n)%nat) (owners d).

Section Lock.
Context (retry_attempts : nat) (heartbeat_interval_sec : Z).

Definition STALE_HEARTBEAT_MULTIPLIER : Z := 2.
(** The next attempt, or the error that the lock is taken. *)
Definition retry (attempt : nat) : phase := if (S attempt <? retry_attempts)%nat then Acquiring (S attempt) else Idle.
(** One step of instance [i]; [None]: not the step it is at. *)
Definition act (i : nat) (a : action) (p : phase) (d : disk) : option (phase * disk) :=
  match a, p with
  | Acquire, Idle => Some (Acquiring 0, d)
  | Open, Acquiring k => let (n, d) := open_lock d in Some (Opened k n, d)
  | Flock, Opened k n => if is_locked n d then Some (retry k, d) else Some (Locked k n, lock_file n i d)
  | ReadMeta now, Locked k n =>
      match read_meta (meta_file d) with
      | Err _ => Some (Stuck n, d)
      | Ok m =>
          if match m with
             | Some m => heartbeat_is_fresh (dict_get "heartbeat_at"%string m) now (heartbeat_interval_sec * STALE_HEARTBEAT_MULTIPLIER)
             | None => false
             end
          then Some (retry k, unlock i d)
          else Some (Claimed n, d)
      end
  | WriteMeta m ok, Claimed n => if ok then Some (Held n, set_meta (Some (meta_text m)) d) else Some (Stuck n, d)
  | Heartbeat m ok, Held n => Some (Held n, if ok then set_meta (Some (meta_text m)) d else d)
  | Heartbeat m ok, Stuck n => Some (Stuck n, if ok then set_meta (Some (meta_text m)) d else d)
  | Release, (Held _ | Stuck _) => Some (Unlinking, unlock i d)
  | UnlinkLock ok, Unlinking =>
      if ok then Some (Clearing, Disk None (next_inode d) (owners d) (meta_file d)) else Some (Idle, d)
  | UnlinkMeta ok, Clearing => Some (Idle, if ok then set_meta None d else d)
  | Crash, _ => Some (Idle, unlock i d)
  | _, _ => None
  end.

(** All instances on one root. *)
Record system := System { phases : nat -> phase; the_disk : disk }.
Definition initial : system := System (fun _ => Idle) (Disk None 0 [] None).
Definition step (s : system) (x : nat * action) : option system :=
  match act x.1 x.2 (phases s x.1) (the_disk s) with
  | Some (p, d) => Some (System (fun j => if (j =? x.1)%nat then p else phases s j) d)
  | None => None
  end.
Fixpoint run (s : system) (l : list (nat * action)) : option system :=
  match l with
  | [] => Some s
  | x :: l => match step s x with Some s => run s l | None => None end
  end.
End Lock.

(** ** One owner of an inode *)

(** The inode an instance has open, and the one it has locked. *)
Definition opened (p : phase) : option nat :=
  match p with Opened _ n | Locked _ n | Claimed n | Held n | Stuck n => Some n | _ => None end.
Definition locked (p : phase) : option nat :=
  match p with Locked _ n | Claimed n | Held n | Stuck n => Some n | _ => None end.
Definition holds_lock (p : phase) : bool := match p with Held _ => true | _ => false end.
(** An instance owns what it has locked, and an inode has one owner. *)
Definition owned (s : system) : Prop :=
  (forall i n, locked (phases s i) = Some n -> (n, i) ∈ owners (the_disk s))
  /\ (forall n i j, (n, i) ∈ owners (the_disk s) -> (n, j) ∈ owners (the_disk s) -> i = j).

Section Exclusion.
Context (retry_attempts : nat) (heartbeat_interval_sec : Z).
#[local] Notation act := (act retry_attempts heartbeat_interval_sec).
#[local] Notation step := (step retry_attempts heartbeat_interval_sec).
#[local] Notation run := (run retry_attempts heartbeat_interval_sec).

(** What an instance has after its step, and what the step does to the owners. *)
Inductive owners_change (i : nat) (d : disk) : option nat -> disk -> Prop :=
  | OwnersKept o d' : owners d' = owners d -> owners_change i d o d'
  | OwnersAdded n d' : is_locked n d = false -> owners d' = (n, i) :: owners d -> owners_change i d (Some n) d'
  | OwnersDropped d' : owners d' = owners (unlock i d) -> owners_change i d None d'.
Lemma act_owners i a p d p' d' : act i a p d = Some (p', d') ->
  owners_change i d (locked p') d' /\ (forall n, locked p' = Some n -> locked p = Some n \/ (n, i) ∈ owners d').
Proof.
  assert (forall k, locked (retry retry_attempts k) = None) as Hr by (intros k; unfold retry; by case_match).
  destruct a, p; cbn [StorageLock.act]; try done; try (intros [= <- <-]; split; [by apply OwnersKept|by left]);
    try (intros [= <- <-]; split; [by apply OwnersDropped|done]).
  - unfold open_lock. destruct (lock_inode d); intros [= <- <-]; split; by try apply OwnersKept.
  - destruct (is_locked inode d) eqn:E; intros [= <- <-].
    + rewrite Hr. split; [by apply OwnersKept|done].
    + split; [by apply OwnersAdded|]. intros n [= <-]. right. cbn. by left.
  - destruct (read_meta (meta_file d)) as [m|e]; [|intros [= <- <-]; split; [by apply OwnersKept|by left]].
    case_match; intros [= <- <-]; [rewrite Hr|]; (split; [by try apply OwnersDropped; try apply OwnersKept|by try left]).
  - destruct ok; intros [= <- <-]; (split; [by apply OwnersKept|by left]).
  - intros [= <- <-]. split; [destruct ok; by apply OwnersKept|by left].
  - intros [= <- <-]. split; [destruct ok; by apply OwnersKept|by left].
  - destruct ok; intros [= <- <-]; (split; [by apply OwnersKept|done]).
  - intros [= <- <-]. split; [destruct ok; by apply OwnersKept|done].
Qed.
Lemma step_owned s x s' : step s x = Some s' -> owned s -> owned s'.
Proof.
  unfold StorageLock.step. destruct (act _ _ _ _) as [[p d]|] eqn:E; [|done]. intros [= <-] [H1 H2].
  apply act_owners in E as [Hc Hl]. destruct x as [i a]. cbn [fst snd] in *. split; cbn [phases the_disk].
  - intros j n. destruct (Nat.eqb_spec j i) as [->|Hj].
    + intros Hn. destruct (Hl n Hn) as [Ho|Ho]; [|done]. apply H1 in Ho. destruct Hc as [o d' Hd|m d' _ Hd|d' Hd]; [by rewrite Hd|rewrite Hd; by right|done].
    + intros Hn%H1. destruct Hc as [o d' Hd|m d' _ Hd|d' Hd]; rewrite Hd; [done|by right|]. cbn [owners unlock].
      apply list_elem_of_In, filter_In. split; [by apply list_elem_of_In|]. cbn. by apply negb_true_iff, Nat.eqb_neq.
  - destruct Hc as [o d' Hd|m d' Hm Hd|d' Hd]; rewrite Hd; [done| |].
    + assert (forall k, (m, k) ∉ owners (the_disk s)) as Hn.
      { intros k Hk. unfold is_locked in Hm. apply not_true_iff_false in Hm. apply Hm, existsb_exists. exists (m, k).
        split; [by apply list_elem_of_In|]. cbn. apply Nat.eqb_refl. }
      intros n j k [[= -> ->]|Hj]%elem_of_cons [[= E2]|Hk]%elem_of_cons; subst; try done; [by apply Hn in Hk|by apply Hn in Hj|by eapply H2].
    + intros n j k Hj Hk. cbn [owners unlock] in Hj, Hk. apply list_elem_of_In, filter_In in Hj as [Hj _]. apply list_elem_of_In, filter_In in Hk as [Hk _].
      by apply (H2 n); apply list_elem_of_In.
Qed.
Lemma run_owned l : forall s s', run s l = Some s' -> owned s -> owned s'.
Proof.
  induction l as [|x l IH]; intros s s'; cbn [StorageLock.run]; [by intros [= <-]|]. destruct (step s x) as [s1|] eqn:E; [|done].
  intros Hr Ho. apply (IH s1); [done|]. by eapply step_owned.
Qed.
(** Whatever happens, two instances never have the same file locked. *)
Lemma one_owner l s s' : run s l = Some s' -> owned s -> forall i j n,
  locked (phases s' i) = Some n -> locked (phases s' j) = Some n -> i = j.
Proof. intros Hr Ho i j n Hi Hj. destruct (run_owned l s s' Hr Ho) as [H1 H2]. apply (H2 n); by apply H1. Qed.

(** ** While nobody removes the lock file *)

Definition removes (a : action) : bool := match a with UnlinkLock true => true | _ => false end.
(** What an instance has open is the lock file. *)
Definition named (s : system) : Prop := forall i n, opened (phases s i) = Some n -> lock_inode (the_disk s) = Some n.
Lemma act_named i a p d p' d' : removes a = false -> act i a p d = Some (p', d') ->
  (lock_inode d' = lock_inode d \/ lock_inode d = None)
  /\ forall n, opened p' = Some n -> lock_inode d' = Some n \/ opened p = Some n.
Proof.
  assert (forall k, opened (retry retry_attempts k) = None) as Hr by (intros k; unfold retry; by case_match).
  intros Ha. destruct a, p; cbn [StorageLock.act]; try done; try (intros [= <- <-]; split; [by left|by try right]);
    try (destruct ok; [done|intros [= <- <-]; split; [by left|done]]).
  - unfold open_lock. destruct (lock_inode d) as [n|] eqn:E; intros [= <- <-]; (split; [by auto|]; intros m [= <-]; by left).
  - destruct (is_locked inode d); intros [= <- <-]; (split; [by left|]); [by rewrite Hr|by right].
  - destruct (read_meta (meta_file d)) as [m|e]; [|intros [= <- <-]; split; [by left|by right]].
    case_match; intros [= <- <-]; (split; [by left|]); [by rewrite Hr|by right].
  - destruct ok; intros [= <- <-]; (split; [by left|by right]).
  - intros [= <- <-]. split; [left; by destruct ok|by right].
  - intros [= <- <-]. split; [left; by destruct ok|by right].
  - intros [= <- <-]. split; [left; by destruct ok|done].
Qed.
Lemma step_named s x s' : removes x.2 = false -> step s x = Some s' -> named s -> named s'.
Proof.
  intros Ha. unfold StorageLock.step. destruct (act _ _ _ _) as [[p d]|] eqn:E; [|done]. intros [= <-] Hn.
  apply act_named in E as [Hd Ho]; [|done]. destruct x as [i a]. cbn [fst snd] in *. intros j n. cbn [phases the_disk].
  assert (forall j n, opened (phases s j) = Some n -> lock_inode d = Some n) as Hk.
  { intros k m Hm%Hn. destruct Hd as [->|Hd]; [done|by rewrite Hm in Hd]. }
  destruct (Nat.eqb_spec j i) as [->|Hj]; [|by apply Hk]. intros [?|Hm]%Ho; [done|by eapply Hk].
Qed.
Lemma run_named l : forall s s', Forall (fun x => removes x.2 = false) l -> run s l = Some s' -> named s -> named s'.
Proof.
  induction l as [|x l IH]; intros s s' Hl; cbn [StorageLock.run]; [by intros [= <-]|]. apply Forall_cons in Hl as [Hx Hl].
  destruct (step s x) as [s1|] eqn:E; [|done]. intros Hr Hn. apply (IH s1); [done|done|]. by eapply step_named.
Qed.

(** C17. One instance at a time: from a root on which nobody has the lock, whatever files earlier runs left, however the steps
    of any number of instances interleave and wherever instances crash, writes of the metadata fail or pauses
    occur, two instances never hold the lock at once, as long as no instance removes the lock file on its way out. *)
Theorem lock_excludes d l s : owners d = [] -> Forall (fun x => removes x.2 = false) l ->
  run (System (fun _ => Idle) d) l = Some s ->
  forall i j, holds_lock (phases s i) = true -> holds_lock (phases s j) = true -> i = j.
Proof.
  intros Hd Hl Hr i j Hi Hj. assert (named s) as Hn by (by eapply run_named).
  assert (forall k, holds_lock (phases s k) = true -> exists n, locked (phases s k) = Some n /\ lock_inode (the_disk s) = Some n) as H.
  { intros k Hk. pose proof (Hn k) as Hnk. destruct (phases s k); try done. exists inode. split; [done|]. by apply Hnk. }
  destruct (H i Hi) as (n & Hin & E1), (H j Hj) as (m & Hjm & E2). assert (m = n) as -> by congruence.
  eapply one_owner; [exact Hr| |exact Hin|exact Hjm]. split; [done|]. cbn. rewrite Hd. by intros k a b ?%elem_of_nil.
Qed.
End Exclusion.

(** ** A lock that was left behind *)

Definition text (s : string) : Prop := utf8_valid false (bytes_of s) = true.
Lemma pad2_ascii n : (0 <= n < 100)%Z -> Forall (fun c => c < 0x80)%Z (bytes_of (pad2 n)).
Proof.
  intros Hn. assert (forall k, (0 <= k < 10)%Z -> (byte_of (digit k) < 0x80)%Z) as Hd.
  { intros k Hk. unfold byte_of. rewrite digit_code by done. lia. }
  cbn [pad2 bytes_of]. repeat constructor; apply Hd; Z.to_euclidean_division_equations; lia.
Qed.
Lemma isoformat_text t : valid t = true -> text (isoformat t).
Proof.
  intros Hv. pose proof (valid_ranges t Hv) as Hr. unfold text. apply utf8_valid_ascii. unfold isoformat, fields, fraction, pad6, pad4.
  destruct (microsecond t =? 0)%Z; rewrite !bytes_of_app, !Forall_app; split_and!;
    first [apply pad2_ascii; Z.to_euclidean_division_equations; lia | repeat (constructor; [done|]); constructor].
Qed.
Lemma parse_isoformat t : valid t = true -> parse_datetime (isoformat t) = Some t.
Proof.
  intros Hv. pose proof (valid_ranges t Hv) as Hr. unfold parse_datetime. rewrite <- (fromisoformat_isoformat t Hv). f_equal.
  unfold isoformat, fields. rewrite !append_assoc, !append_cons, !append_nil.
  rewrite replace_Z_pad4, replace_Z_char by (done || lia).
  do 4 rewrite replace_Z_pad2, replace_Z_char by (done || lia). rewrite replace_Z_pad2 by lia.
  unfold fraction. case_match; [done|]. rewrite !append_cons, !append_nil, replace_Z_char by done. by rewrite replace_Z_pad6 by lia.
Qed.
(** What is printed with a line break after it is read back. *)
Lemma loads_printed j : plain j = true -> utf8_valid false (print j ++ [10%Z]) = true -> skip_ws (print j ++ [10%Z]) = print j ++ [10%Z] ->
  loads (print j ++ [10%Z]) = Some j.
Proof.
  intros Hp Hu Hs. unfold loads. rewrite utf8_valid_surrogates by done. rewrite Hs.
  rewrite (value_print _ Hp); [done|rewrite length_app; lia|by right; right; right].
Qed.
(** What an instance wrote is read back by the others. *)
Lemma read_meta_text m : valid (heartbeat_at m) = true -> text (instance_uuid m) -> text (machine_id m) ->
  exists o, read_meta (Some (meta_text m)) = Ok (Some o) /\ dict_get "heartbeat_at"%string o = Some (JStr (isoformat (heartbeat_at m))).
Proof.
  intros Hv Hu Hm. set (j := JObj [("pid", JInt (pid m)); ("instance_uuid", JStr (instance_uuid m)); ("machine_id", JStr (machine_id m));
    ("heartbeat_at", JStr (isoformat (heartbeat_at m)))]%string).
  assert (plain j = true) as Hp by (vm_compute; reflexivity).
  assert (valid_text j = true) as Ht.
  { pose proof (isoformat_text _ Hv) as Hi. unfold text in *. unfold j. cbn [valid_text forallb fst snd]. rewrite Hu, Hm, Hi. vm_compute. reflexivity. }
  assert (utf8_valid false (meta_text m) = true) as Hutf.
  { unfold meta_text. fold j. rewrite utf8_valid_app; [done|]. by apply utf8_valid_print. }
  eexists. unfold read_meta. rewrite Hutf. cbn [negb]. unfold meta_text in *. fold j in Hutf |- *.
  rewrite loads_printed by done. split; reflexivity.
Qed.

Section Takeover.
Context (retry_attempts : nat) (heartbeat_interval_sec : Z).
Definition acquiring (i : nat) (now : datetime) (m : instance_meta) : list (nat * action) :=
  [(i, Acquire); (i, Open); (i, Flock); (i, ReadMeta now); (i, WriteMeta m true)].
(** An instance that crashed does not block the root for good: once its heartbeat is older than the limit, the next instance
    that asks gets the lock. *)
Lemma stale_lock_taken_over d i now m m' : owners d = [] -> meta_file d = Some (meta_text m) -> valid (heartbeat_at m) = true ->
  text (instance_uuid m) -> text (machine_id m) ->
  (microseconds (heartbeat_at m) + heartbeat_interval_sec * STALE_HEARTBEAT_MULTIPLIER * 1000000 < microseconds now)%Z ->
  exists s, run retry_attempts heartbeat_interval_sec (System (fun _ => Idle) d) (acquiring i now m') = Some s
    /\ holds_lock (phases s i) = true /\ meta_file (the_disk s) = Some (meta_text m').
Proof.
  intros Ho Hm Hv Hu Hi Hold. destruct (read_meta_text m Hv Hu Hi) as (o & Hr & Hh).
  unfold acquiring. cbn [run]. unfold step at 1. cbn [act fst snd phases the_disk]. unfold step at 1. cbn [act fst snd phases the_disk].
  rewrite !Nat.eqb_refl. destruct (open_lock d) as [n d1] eqn:E. assert (owners d1 = [] /\ meta_file d1 = meta_file d) as [Ho1 Hm1].
  { unfold open_lock in E. destruct (lock_inode d); injection E as <- <-; by rewrite ?Ho. }
  unfold step at 1. cbn [act fst snd phases the_disk]. rewrite !Nat.eqb_refl. unfold is_locked. rewrite Ho1. cbn [existsb].
  unfold step at 1. cbn [act fst snd phases the_disk]. rewrite !Nat.eqb_refl. cbn [meta_file lock_file]. rewrite Hm1, Hm, Hr, Hh.
  unfold heartbeat_is_fresh. rewrite parse_isoformat by done. rewrite (proj2 (Z.leb_gt _ _)) by lia.
  unfold step. cbn [act fst snd phases the_disk]. rewrite !Nat.eqb_refl. eexists. split; [reflexivity|]. cbn [phases the_disk]. rewrite Nat.eqb_refl. done.
Qed.
End Takeover.

(** ** What an exit breaks *)

Definition noon : datetime := DateTime 2024 5 1 12 0 0 0.
Definition sample_meta (i : Z) (t : datetime) : instance_meta := Meta i "u" "host" t.
(** Instance 0 holds the lock and instance 1 has just opened the lock file when instance 0 exits: 1 locks the file that loses
    its name, instance 2 makes a new one, and both find no metadata. *)
Definition two_holders : list (nat * action) :=
  [(0, Acquire); (0, Open); (0, Flock); (0, ReadMeta noon); (0, WriteMeta (sample_meta 0 noon) true);
   (1, Acquire); (1, Open); (0, Release); (1, Flock); (0, UnlinkLock true); (0, UnlinkMeta true); (1, ReadMeta noon);
   (2, Acquire); (2, Open); (2, Flock); (2, ReadMeta noon);
   (1, WriteMeta (sample_meta 1 noon) true); (2, WriteMeta (sample_meta 2 noon) true)].
Lemma removal_breaks_exclusion : option_map (fun s => (phases s 1, phases s 2)) (run 3 5 initial two_holders) = Some (Held 0, Held 1).
Proof. vm_compute. reflexivity. Qed.
(** When the metadata cannot be written, [acquire] raises but the file stays locked: the next attempts find it taken. *)
Definition failed_write : list (nat * action) :=
  [(0, Acquire); (0, Open); (0, Flock); (0, ReadMeta noon); (0, WriteMeta (sample_meta 0 noon) false);
   (1, Acquire); (1, Open); (1, Flock); (1, Open); (1, Flock); (1, Open); (1, Flock)].
Lemma failed_write_keeps_lock : option_map (fun s => (phases s 0, phases s 1)) (run 3 5 initial failed_write) = Some (Stuck 0, Idle).
Proof. vm_compute. reflexivity. Qed.
Lemma lock_excludes_witness :
  let l := [(0, Acquire); (1, Acquire); (0, Open); (1, Open); (0, Flock); (1, Flock); (0, ReadMeta noon);
            (0, WriteMeta (sample_meta 0 noon) true)] in
  option_map (fun s => (phases s 0, phases s 1)) (run 3 5 initial l) = Some (Held 0, Acquiring 1)
  /\ forall s, run 3 5 initial l = Some s -> forall j, holds_lock (phases s j) = true -> j = 0.
Proof.
  split; [vm_compute; reflexivity|]. intros s Hs j Hj. symmetry.
  refine (lock_excludes 3 5 (Disk None 0 [] None) _ s eq_refl _ Hs 0 j _ Hj); [repeat constructor|].
  vm_compute in Hs. injection Hs as <-. reflexivity.
Defined.
