(* ===== verification/StorageState.v ===== *)
(** * StorageState: the storage-root lifecycle

    [domain/storage_state.py]: states, events, the transition table and the machine that applies
    it. The table decides when local writes and remote deletions are permitted. *)

From S2P Require Import Prelude Errors.

Inductive StorageState :=
  | ATTACHED | DEGRADED | DETACHED | DETACHED_BY_USER | RECONNECTING | VERIFYING.

Inductive StorageEvent :=
  | PROBE_OK | PROBE_MISSING | PROBE_FOREIGN | IO_ERROR | REPROBE_OK | REPROBE_FAILED
  | DEVICE_REMOVED | DEVICE_ARRIVED | USER_DETACH | RECONNECT_REQUESTED | IDENTITY_OK
  | IDENTITY_FOREIGN | VERIFY_OK | VERIFY_FAILED.

#[export] Instance StorageState_eq_dec : EqDecision StorageState.
Proof. solve_decision. Defined.
#[export] Instance StorageEvent_eq_dec : EqDecision StorageEvent.
Proof. solve_decision. Defined.

(** The dictionary [_TRANSITIONS], entry by entry; a missing key is [None]. *)
Definition TRANSITIONS (s : StorageState) (e : StorageEvent) : option StorageState :=
  match s, e with
  | ATTACHED, PROBE_OK => Some ATTACHED
  | ATTACHED, PROBE_MISSING => Some DEGRADED
  | ATTACHED, PROBE_FOREIGN => Some DETACHED
  | ATTACHED, IO_ERROR => Some DEGRADED
  | ATTACHED, DEVICE_REMOVED => Some DETACHED
  | ATTACHED, USER_DETACH => Some DETACHED_BY_USER
  | DEGRADED, PROBE_MISSING => Some DEGRADED
  | DEGRADED, PROBE_FOREIGN => Some DETACHED
  | DEGRADED, IO_ERROR => Some DEGRADED
  | DEGRADED, REPROBE_OK => Some ATTACHED
  | DEGRADED, REPROBE_FAILED => Some DETACHED
  | DEGRADED, DEVICE_REMOVED => Some DETACHED
  | DEGRADED, USER_DETACH => Some DETACHED_BY_USER
  | DETACHED, PROBE_MISSING => Some DETACHED
  | DETACHED, PROBE_FOREIGN => Some DETACHED
  | DETACHED, IO_ERROR => Some DETACHED
  | DETACHED, DEVICE_REMOVED => Some DETACHED
  | DETACHED, DEVICE_ARRIVED => Some RECONNECTING
  | DETACHED, RECONNECT_REQUESTED => Some RECONNECTING
  | DETACHED_BY_USER, PROBE_MISSING => Some DETACHED_BY_USER
  | DETACHED_BY_USER, PROBE_FOREIGN => Some DETACHED_BY_USER
  | DETACHED_BY_USER, DEVICE_REMOVED => Some DETACHED_BY_USER
  | DETACHED_BY_USER, RECONNECT_REQUESTED => Some RECONNECTING
  | RECONNECTING, PROBE_FOREIGN => Some DETACHED
  | RECONNECTING, PROBE_MISSING => Some RECONNECTING
  | RECONNECTING, DEVICE_REMOVED => Some DETACHED
  | RECONNECTING, DEVICE_ARRIVED => Some RECONNECTING
  | RECONNECTING, RECONNECT_REQUESTED => Some RECONNECTING
  | RECONNECTING, REPROBE_FAILED => Some DETACHED
  | RECONNECTING, IDENTITY_OK => Some VERIFYING
  | RECONNECTING, IDENTITY_FOREIGN => Some DETACHED
  | VERIFYING, PROBE_MISSING => Some DETACHED
  | VERIFYING, PROBE_FOREIGN => Some DETACHED
  | VERIFYING, DEVICE_REMOVED => Some DETACHED
  | VERIFYING, VERIFY_OK => Some ATTACHED
  | VERIFYING, VERIFY_FAILED => Some DETACHED
  | _, _ => None
  end.

(** The machine's only field is [_state]; [__init__] defaults to [ATTACHED]. *)
Record StorageStateMachine := Machine { machine_state : StorageState }.

Definition initial_machine : StorageStateMachine := Machine ATTACHED.

(** [transition]: look the pair up, raise [ValueError] when it is absent (the state is then
    unchanged), store and return the next state otherwise. *)
Definition transition (event : StorageEvent) : M StorageStateMachine StorageState :=
  fun m => match TRANSITIONS (machine_state m) event with
           | Some next_state => (Ok next_state, Machine next_state)
           | None => (raise ValueError "invalid storage transition", m)
           end.

Definition is_write_allowed (m : StorageStateMachine) : bool := machine_state m == ATTACHED.
Definition is_remote_delete_allowed (m : StorageStateMachine) : bool :=
  machine_state m == ATTACHED.

(** What clients of the gate rely on ([StorageWriteGate], [RemoteDeleteGate] protocols). *)
Class StorageGate (G : Type) := {
  write_allowed : G -> bool;
  remote_delete_allowed : G -> bool;
}.
#[export] Instance machine_gate : StorageGate StorageStateMachine := {
  write_allowed := is_write_allowed;
  remote_delete_allowed := is_remote_delete_allowed;
}.

(** ** Runs

    [run s es s'] : the machine accepts every event of [es], from [s] to [s']. *)
Inductive run : StorageState -> list StorageEvent -> StorageState -> Prop :=
  | run_nil s : run s [] s
  | run_step s e s1 es s2 :
      TRANSITIONS s e = Some s1 -> run s1 es s2 -> run s (e :: es) s2.

(** States from which a verified reconnection is required before writing again. *)
Definition needs_reconnect (s : StorageState) : bool :=
  match s with DETACHED | DETACHED_BY_USER | RECONNECTING => true | _ => false end.

Lemma run_app s es1 es2 s2 :
  run s (es1 ++ es2) s2 <-> exists s1, run s es1 s1 /\ run s1 es2 s2.
Proof.
  revert s. induction es1 as [|e es1 IH]; intros s; simpl.
  - split; [intros; exists s; split; [constructor | done] |].
    intros (s1 & H1 & H2). by inversion H1; subst.
  - split.
    + inversion 1 as [|? ? s1 ? ? Ht Hr]; subst. apply IH in Hr as (s1' & ? & ?).
      exists s1'. split; [by econstructor | done].
    + intros (s1 & H1 & H2). inversion H1 as [|? ? s1' ? ? Ht Hr]; subst.
      econstructor; [done|]. apply IH. eauto.
Qed.

(** From [VERIFYING] the only way to a state in which writes are permitted without a further
    detachment is [VERIFY_OK]. *)
Lemma verifying_step e s : TRANSITIONS VERIFYING e = Some s -> e = VERIFY_OK /\ s = ATTACHED \/ s = DETACHED.
Proof. destruct e; intros [= <-]; auto. Qed.

Lemma needs_reconnect_step s e s' :
  needs_reconnect s = true -> TRANSITIONS s e = Some s' ->
  needs_reconnect s' = true \/ (s = RECONNECTING /\ e = IDENTITY_OK /\ s' = VERIFYING).
Proof. destruct s, e; simpl; intros ? [= <-]; auto; discriminate. Qed.

(** The event list contains a reconnection whose identity check is followed at once by a
    successful verification. *)
Definition verified_reconnect (es : list StorageEvent) : Prop :=
  exists es1 es2, es = es1 ++ IDENTITY_OK :: VERIFY_OK :: es2.

Lemma verified_reconnect_cons e es : verified_reconnect es -> verified_reconnect (e :: es).
Proof. intros (es1 & es2 & ->). by exists (e :: es1), es2. Qed.

Lemma reattach_cases s es s' :
  run s es s' -> s' = ATTACHED ->
  (needs_reconnect s = true -> verified_reconnect es)
  /\ (s = VERIFYING -> (exists es2, es = VERIFY_OK :: es2) \/ verified_reconnect es).
Proof.
  induction 1 as [s | s e s1 es s2 Ht Hr IH]; intros ->.
  - done.
  - destruct IH as [IH1 IH2]; [done|]. split.
    + intros Hs. destruct (needs_reconnect_step _ _ _ Hs Ht) as [Hn | (-> & -> & ->)].
      * by apply verified_reconnect_cons, IH1.
      * destruct (IH2 eq_refl) as [[es2 ->] | ?]; [by exists [], es2|].
        by apply verified_reconnect_cons.
    + intros ->. destruct (verifying_step _ _ Ht) as [[-> _] | ->]; [eauto|].
      right. by apply verified_reconnect_cons, IH1.
Qed.

(** Once the storage root is detached (by a loss, by the user, or while reconnecting), no
    sequence of accepted events makes local writes permitted again unless it contains an
    identity check that succeeded immediately followed by a verification that succeeded. *)
Lemma reattach_requires_verification s es s' :
  needs_reconnect s = true -> run s es s' -> is_write_allowed (Machine s') = true ->
  verified_reconnect es.
Proof.
  unfold is_write_allowed; simpl. intros Hs Hr ->%eqb_true.
  by apply (reattach_cases s es ATTACHED).
Qed.

(** A root the user ejected stays ejected: whatever probes and device notifications arrive,
    only an explicit reconnect request leaves [DETACHED_BY_USER]. *)
Lemma user_detach_sticky es s' :
  run DETACHED_BY_USER es s' -> RECONNECT_REQUESTED ∉ es -> s' = DETACHED_BY_USER.
Proof.
  remember DETACHED_BY_USER as s eqn:Hs. intros Hr. revert Hs.
  induction Hr as [s | s e s1 es s2 Ht Hr IH]; intros -> Hn; [done|].
  apply not_elem_of_cons in Hn as [He Hn].
  assert (s1 = DETACHED_BY_USER) as -> by (destruct e; simplify_eq/=; done).
  by apply IH.
Qed.


(** The observations that the root is gone or is another root. *)
Definition is_loss (e : StorageEvent) : bool :=
  match e with DEVICE_REMOVED | PROBE_FOREIGN | PROBE_MISSING => true | _ => false end.

(** In every state the machine accepts the observation that the root is missing, foreign or
    removed (it never raises on it), and neither writes nor remote deletions are permitted
    afterwards. *)
Lemma loss_closes_gate e m :
  is_loss e = true ->
  exists s, transition e m = (Ok s, Machine s)
            /\ is_write_allowed (Machine s) = false
            /\ is_remote_delete_allowed (Machine s) = false.
Proof. destruct m as [[]], e; intros [=]; vm_compute; eauto. Qed.

(** An event without an entry raises and leaves the machine as it was. *)
Lemma transition_rejects e m :
  TRANSITIONS (machine_state m) e = None ->
  transition e m = (raise ValueError "invalid storage transition", m).
Proof. unfold transition. by intros ->. Qed.
