(* ===== verification/StorageMonitor.v ===== *)
(** * StorageMonitor: timers, probes and detachment handling

    [presentation/storage_monitor.py] drives the machine of [StorageState] from a heartbeat timer,
    a single-shot reprobe timer and notifications. Qt timers are the two activity flags; the
    callbacks the monitor is constructed with (probe, storage lock, reconnect) are inputs of the
    handler call that uses them. Side effects on workers, connections and logs are recorded in
    [outputs], newest last. *)

From S2P Require Import Prelude Errors StorageState.

Inductive RootProbe := PROBE_RESULT_OK | PROBE_RESULT_MISSING | PROBE_RESULT_FOREIGN.

#[export] Instance RootProbe_eq_dec : EqDecision RootProbe.
Proof. solve_decision. Defined.

Inductive output :=
  | StateChanged (s : StorageState)      (* storage_state_changed.emit *)
  | WorkersStopped                       (* cancel_all and stop on every worker *)
  | ConnectionsClosed                    (* request_close_all, close_current_thread *)
  | LogRedirected                        (* set_storage_log_target / set_application_log_target *)
  | DetachedSignal.                      (* storage_detached.emit *)

Record monitor := Monitor {
  machine : StorageStateMachine;
  reprobe_count : Z;
  detached_handled : bool;
  heartbeat_active : bool;
  reprobe_active : bool;
  reprobe_attempts : Z;                  (* settings.reprobe_attempts *)
  outputs : list output;
}.

Definition state (m : monitor) : StorageState := machine_state (machine m).

(** What the callbacks do during one handler call: [env_probe] is the probe's result or
    exception, [env_lock] the outcome of [touch_heartbeat] ([None] without a lock), [env_reconnect]
    the callback's result ([None] without a callback; the callback returns [bool | None]). *)
Record env := Env {
  env_probe : result RootProbe;
  env_lock : option (result unit);
  env_reconnect : option (result (option bool));
}.

Definition set_machine mc m :=
  Monitor mc (reprobe_count m) (detached_handled m) (heartbeat_active m) (reprobe_active m)
    (reprobe_attempts m) (outputs m).
Definition set_count c m :=
  Monitor (machine m) c (detached_handled m) (heartbeat_active m) (reprobe_active m)
    (reprobe_attempts m) (outputs m).
Definition set_handled b m :=
  Monitor (machine m) (reprobe_count m) b (heartbeat_active m) (reprobe_active m)
    (reprobe_attempts m) (outputs m).
Definition set_timers hb rp m :=
  Monitor (machine m) (reprobe_count m) (detached_handled m) hb rp
    (reprobe_attempts m) (outputs m).
Definition emit os m :=
  Monitor (machine m) (reprobe_count m) (detached_handled m) (heartbeat_active m)
    (reprobe_active m) (reprobe_attempts m) (outputs m ++ os).

(** [__init__]: attached machine, nothing running. *)
Definition init_monitor (attempts : Z) : monitor :=
  Monitor initial_machine 0 false false false attempts [].

Definition start (m : monitor) : monitor :=
  if state m == ATTACHED then set_timers true (reprobe_active m) m else m.

Definition stop (m : monitor) : monitor := set_timers false false m.

(** [_schedule_reprobe]: starting an active timer is skipped. *)
Definition schedule_reprobe (m : monitor) : monitor :=
  if reprobe_active m then m else set_timers (heartbeat_active m) true m.

(** [_handle_detached]. *)
Definition handle_detached (m : monitor) : monitor :=
  if detached_handled m then m
  else emit [WorkersStopped; ConnectionsClosed; LogRedirected; DetachedSignal]
         (stop (set_handled true m)).

(** [_transition]: an event the machine rejects is logged and ignored. *)
Definition mon_transition (e : StorageEvent) (m : monitor) : monitor :=
  let previous := state m in
  match transition e (machine m) with
  | (Err _, _) => m
  | (Ok current, mc) =>
      let m := set_machine mc m in
      if current == previous then m
      else
        let m := emit [StateChanged current] m in
        if current == DETACHED then handle_detached m else m
  end.

(** [_touch_heartbeat]. *)
Definition touch_heartbeat (ev : env) (m : monitor) : monitor :=
  match env_lock ev with
  | None | Some (Ok _) => m
  | Some (Err _) =>
      let m := mon_transition IO_ERROR m in
      if state m == DEGRADED then schedule_reprobe (set_count 0 m) else m
  end.

(** [_notify_reconnected]: [result is not False]. *)
Definition notify_reconnected (ev : env) : bool :=
  match env_reconnect ev with
  | None => false
  | Some (Err _) => false
  | Some (Ok r) => negb (r == Some false)
  end.

(** [heartbeat]. *)
Definition heartbeat (ev : env) (m : monitor) : monitor :=
  if mem (state m) [ATTACHED; DEGRADED] then
    match env_probe ev with
    | Err _ => schedule_reprobe (set_count 0 (mon_transition IO_ERROR m))
    | Ok PROBE_RESULT_OK => touch_heartbeat ev (mon_transition PROBE_OK m)
    | Ok PROBE_RESULT_MISSING =>
        let m := mon_transition PROBE_MISSING m in
        if state m == DEGRADED then schedule_reprobe (set_count 0 m) else m
    | Ok PROBE_RESULT_FOREIGN => mon_transition PROBE_FOREIGN m
    end
  else m.

Definition handle_io_error (m : monitor) : monitor :=
  if mem (state m) [DETACHED; DETACHED_BY_USER] then m
  else
    let m := mon_transition IO_ERROR m in
    if state m == DEGRADED then schedule_reprobe (set_count 0 m) else m.

Definition request_reconnect (m : monitor) : monitor :=
  if mem (state m) [DETACHED; DETACHED_BY_USER] then
    schedule_reprobe (set_count 0 (mon_transition RECONNECT_REQUESTED (set_handled false m)))
  else m.

Definition handle_device_arrived (m : monitor) : monitor :=
  if state m == DETACHED then
    schedule_reprobe (set_count 0 (mon_transition DEVICE_ARRIVED (set_handled false m)))
  else m.

Definition handle_device_removed (m : monitor) : monitor :=
  if state m != DETACHED then mon_transition DEVICE_REMOVED m else m.

Definition mark_detached_by_user (m : monitor) : monitor :=
  if mem (state m) [ATTACHED; DEGRADED] then mon_transition USER_DETACH m else m.

(** [_reprobe], the slot of the single-shot timer. *)
Definition reprobe (ev : env) (m : monitor) : monitor :=
  if mem (state m) [DEGRADED; RECONNECTING] then
    let m := set_count (reprobe_count m + 1) m in
    let result := match env_probe ev with Ok r => r | Err _ => PROBE_RESULT_MISSING end in
    match result with
    | PROBE_RESULT_OK =>
        if state m == DEGRADED then
          let m := mon_transition REPROBE_OK m in
          let m := touch_heartbeat ev m in
          let m := set_count 0 m in
          set_timers true (reprobe_active m) m       (* then [_notify_reconnected()] *)
        else
          let m := mon_transition IDENTITY_OK m in
          if notify_reconnected ev then mon_transition VERIFY_OK m
          else mon_transition VERIFY_FAILED m
    | PROBE_RESULT_FOREIGN =>
        if state m == RECONNECTING then mon_transition IDENTITY_FOREIGN m
        else mon_transition PROBE_FOREIGN m
    | PROBE_RESULT_MISSING =>
        if (reprobe_attempts m <=? reprobe_count m)%Z then mon_transition REPROBE_FAILED m
        else schedule_reprobe m
    end
  else m.

(** ** The monitor as an event-driven system *)

Inductive input :=
  | InHeartbeat (ev : env) | InReprobe (ev : env) | InIoError | InReconnect
  | InDeviceArrived | InDeviceRemoved | InUserDetach.

Definition handle (i : input) (m : monitor) : monitor :=
  match i with
  | InHeartbeat ev => heartbeat ev m
  | InReprobe ev => reprobe ev (set_timers (heartbeat_active m) false m)  (* single shot *)
  | InIoError => handle_io_error m
  | InReconnect => request_reconnect m
  | InDeviceArrived => handle_device_arrived m
  | InDeviceRemoved => handle_device_removed m
  | InUserDetach => mark_detached_by_user m
  end.

(** A timer slot runs only while its timer is active. *)
Definition enabled (i : input) (m : monitor) : bool :=
  match i with
  | InHeartbeat _ => heartbeat_active m
  | InReprobe _ => reprobe_active m
  | _ => true
  end.

Fixpoint handle_all (ins : list input) (m : monitor) : monitor :=
  match ins with [] => m | i :: ins => handle_all ins (handle i m) end.

(** Every input of the list finds its timer active when it arrives. *)
Fixpoint accepts (ins : list input) (m : monitor) : bool :=
  match ins with [] => true | i :: ins => enabled i m && accepts ins (handle i m) end.

(** ** Refinement of the state machine *)

Lemma state_set_machine mc m : state (set_machine mc m) = machine_state mc.
Proof. done. Qed.
Lemma state_set_count c m : state (set_count c m) = state m.
Proof. done. Qed.
Lemma state_set_handled b m : state (set_handled b m) = state m.
Proof. done. Qed.
Lemma state_set_timers a b m : state (set_timers a b m) = state m.
Proof. done. Qed.
Lemma state_emit os m : state (emit os m) = state m.
Proof. done. Qed.
Lemma state_schedule m : state (schedule_reprobe m) = state m.
Proof. unfold schedule_reprobe. by destruct (reprobe_active m). Qed.
Lemma state_handle_detached m : state (handle_detached m) = state m.
Proof. unfold handle_detached. by destruct (detached_handled m). Qed.
#[export] Hint Rewrite state_set_machine state_set_count state_set_handled state_set_timers
  state_emit state_schedule state_handle_detached : maildock.

(** The state after [_transition]: the table's target, or unchanged when there is none. *)
Lemma state_mon_transition e m :
  state (mon_transition e m) = get_or (state m) (TRANSITIONS (state m) e).
Proof.
  unfold mon_transition, transition. fold (state m).
  destruct (TRANSITIONS (state m) e) as [s|] eqn:E; [|done]. simpl.
  destruct (s == state m), (s == DETACHED); by autorewrite with maildock.
Qed.
#[export] Hint Rewrite state_mon_transition : maildock.

(** What a reprobe that ends an outage has seen: the root with the expected identifier, and a reconnect callback that
    reopened and verified it. *)
Definition verified (ev : env) : Prop := env_probe ev = Ok PROBE_RESULT_OK /\ notify_reconnected ev = true.

(** Evaluate a handler's tests of a state that is known. *)
Ltac known_state E := autorewrite with maildock; rewrite ?E;
  repeat match goal with
  | |- context [mem ?a ?l] => let b := eval vm_compute in (mem a l) in change (mem a l) with b
  | |- context [eqb (A := StorageState) ?a ?b] => let c := eval vm_compute in (eqb a b) in change (eqb a b) with c
  | |- context [negb ?b] => let c := eval vm_compute in (negb b) in change (negb b) with c
  end; cbv iota; autorewrite with maildock; rewrite ?E; cbn [TRANSITIONS get_or needs_reconnect].
Ltac handlers := cbn [handle]; unfold heartbeat, handle_io_error, request_reconnect, handle_device_arrived,
  handle_device_removed, mark_detached_by_user; cbv zeta.

(** One reprobe while reconnecting. *)
Lemma reprobe_reconnecting ev m : state m = RECONNECTING ->
  needs_reconnect (state (reprobe ev m)) = true \/ (verified ev /\ state (reprobe ev m) = ATTACHED).
Proof.
  intros E. unfold reprobe, verified. known_state E. destruct (env_probe ev) as [[]|e]; known_state E.
  - destruct (notify_reconnected ev); known_state E; auto.
  - case_match; known_state E; auto.
  - auto.
  - case_match; known_state E; auto.
Qed.
(** One input keeps a lost root lost, unless it is the reprobe that verifies it. *)
Lemma lost_step i m : needs_reconnect (state m) = true ->
  needs_reconnect (state (handle i m)) = true
  \/ exists ev, i = InReprobe ev /\ state m = RECONNECTING /\ verified ev /\ state (handle i m) = ATTACHED.
Proof.
  intros Hm. destruct i as [ev|ev| | | | |].
  2: { cbn [handle]. destruct (state m) eqn:Es; try discriminate Hm; try (left; unfold reprobe; by known_state Es).
       destruct (reprobe_reconnecting ev (set_timers (heartbeat_active m) false m) Es) as [?|[? ?]]; [by left|right; by exists ev]. }
  all: left; handlers; destruct (state m) eqn:Es; try discriminate Hm; known_state Es; done.
Qed.
(** The user's release ends only with the user's request, a loss also when a device arrives. *)
Definition reopens (s : StorageState) (i : input) : Prop :=
  match s with
  | DETACHED_BY_USER => i = InReconnect
  | DETACHED => i = InReconnect \/ i = InDeviceArrived
  | _ => True
  end.
Lemma reopening_step i m : state m = DETACHED \/ state m = DETACHED_BY_USER ->
  state (handle i m) = state m \/ reopens (state m) i.
Proof.
  intros [Es|Es]; destruct i as [ev|ev| | | | |]; handlers; unfold reprobe, reopens; known_state Es; auto.
Qed.

(** C35. A root that was lost is written again only after it was verified: however the inputs interleave, and whatever the
    probe, the lock and the callback answer, when a monitor that is detached, released by the user or reconnecting
    becomes attached, then one of the inputs was a firing of the reprobe timer, in state [RECONNECTING], whose probe
    found the expected root and whose reconnect callback was there, did not raise and did not report [False]; and before
    it the user asked for the reconnection or, unless the user had released the drive, a device arrived. *)
Theorem reattached_after_verification ins m :
  needs_reconnect (state m) = true -> state (handle_all ins m) = ATTACHED ->
  exists ins1 ev ins2, ins = ins1 ++ InReprobe ev :: ins2
    /\ state (handle_all ins1 m) = RECONNECTING /\ verified ev /\ state (handle_all (ins1 ++ [InReprobe ev]) m) = ATTACHED
    /\ (state m = RECONNECTING \/ exists i, i ∈ ins1 /\ reopens (state m) i).
Proof.
  revert m. induction ins as [|i ins IH]; intros m Hm Ha; cbn [handle_all] in Ha; [by rewrite Ha in Hm|].
  destruct (lost_step i m Hm) as [Hn|(ev & -> & Hs & Hv & Hat)].
  - destruct (IH _ Hn Ha) as (ins1 & ev & ins2 & -> & Hs & Hv & Hat & Hr). exists (i :: ins1), ev, ins2.
    split_and!; try done. destruct (decide (state m = RECONNECTING)) as [|Hne]; [by left|right].
    assert (state m = DETACHED \/ state m = DETACHED_BY_USER) as Hd by (destruct (state m); try done; auto).
    destruct (reopening_step i m Hd) as [E|Hi]; [|exists i; split; [by left|done]].
    rewrite E in Hr. destruct Hr as [Hr|(j & Hj & Hr)]; [done|]. exists j. split; [by right|done].
  - exists [], ev, ins. split_and!; try done. by left.
Qed.

(** While reconnecting, one reprobe reattaches the root exactly when the probe found the
    expected root and the reconnect callback was present, did not raise and did not report
    [False]; in every other case the state is not [ATTACHED]. *)
Lemma reprobe_reattaches_iff ev m :
  state m = RECONNECTING ->
  state (reprobe ev m) = ATTACHED
  <-> env_probe ev = Ok PROBE_RESULT_OK /\ notify_reconnected ev = true.
Proof.
  intros Hs. unfold reprobe. rewrite Hs. cbv zeta. change (mem RECONNECTING _) with true.
  autorewrite with maildock. rewrite Hs.
  destruct (env_probe ev) as [[]|]; try (repeat case_match; autorewrite with maildock;
    rewrite ?Hs; simpl; naive_solver).
Qed.

(** ** Detachment is handled once per outage *)

#[export] Instance output_eq_dec : EqDecision output.
Proof. solve_decision. Defined.

Definition count_out (o : output) (m : monitor) : nat :=
  length (filter (fun o' => o' = o) (outputs m)).

(** [_detached_handled] is set exactly in [DETACHED]; both timers are then stopped; every entry
    into [DETACHED] was announced by one [storage_detached]. *)
Record detach_inv (m : monitor) : Prop := {
  inv_handled : detached_handled m = (state m == DETACHED);
  inv_stopped : state m = DETACHED -> heartbeat_active m = false /\ reprobe_active m = false;
  inv_once : count_out DetachedSignal m = count_out (StateChanged DETACHED) m;
}.

Lemma count_out_emit o os m :
  count_out o (emit os m) = (count_out o m + length (filter (fun o' => o' = o) os))%nat.
Proof. unfold count_out. simpl. by rewrite filter_app, length_app. Qed.

Lemma inv_transition e m :
  detach_inv m -> state m <> DETACHED -> detach_inv (mon_transition e m).
Proof.
  intros [Hh Ht Ho] Hs. rewrite (eqb_neq _ _ Hs) in Hh.
  unfold mon_transition, transition. fold (state m).
  destruct (TRANSITIONS (state m) e) as [s|]; [|by split; [rewrite eqb_neq|..]]. simpl.
  destruct (s == state m) eqn:E1; bsimp.
  { subst. split; simpl; [by rewrite eqb_neq | done | done]. }
  destruct (s == DETACHED) eqn:E2; bsimp.
  - subst. unfold handle_detached. simpl. rewrite Hh. split; simpl.
    + done.
    + done.
    + rewrite !count_out_emit. simpl. unfold count_out in *. simpl.
      rewrite !filter_app, !length_app. simpl. lia.
  - split; simpl.
    + rewrite Hh. symmetry. by apply eqb_neq.
    + done.
    + rewrite !count_out_emit, !filter_cons_False; simpl; [| congruence..].
      unfold count_out in *; simpl; lia.
Qed.

Lemma inv_count c m : detach_inv m -> detach_inv (set_count c m).
Proof. by intros [? ? ?]. Qed.
Lemma inv_timers a b m : state m <> DETACHED -> detach_inv m -> detach_inv (set_timers a b m).
Proof. by intros ? [? ? ?]. Qed.
Lemma inv_schedule m : state m <> DETACHED -> detach_inv m -> detach_inv (schedule_reprobe m).
Proof. unfold schedule_reprobe. intros. case_match; [done | by apply inv_timers]. Qed.

(** Close goals about the state reached: the table decides once the current state is known. *)
Ltac table_state :=
  autorewrite with maildock in *;
  repeat match goal with
  | H : mem ?s _ = true |- _ => is_var s; destruct s; try discriminate H
  | H : state ?m = _ |- _ => rewrite H in *
  | |- context [state ?m] => destruct (state m) eqn:?
  end; simpl in *; try discriminate; try congruence; auto.

Lemma touch_not_detached ev m : state m <> DETACHED -> state (touch_heartbeat ev m) <> DETACHED.
Proof. unfold touch_heartbeat. intros. repeat case_match; bsimp; table_state. Qed.
Lemma inv_touch ev m : state m <> DETACHED -> detach_inv m -> detach_inv (touch_heartbeat ev m).
Proof.
  unfold touch_heartbeat. intros Hs Hi. repeat case_match; auto.
  - apply inv_schedule; [|by apply inv_count, inv_transition]. bsimp. table_state.
  - by apply inv_transition.
Qed.

Lemma inv_reconnect e m :
  mem (state m) [DETACHED; DETACHED_BY_USER] = true ->
  TRANSITIONS (state m) e = Some RECONNECTING ->
  detach_inv m ->
  detach_inv (schedule_reprobe (set_count 0 (mon_transition e (set_handled false m)))).
Proof.
  intros Hs Ht [Hh Hst Ho].
  apply inv_schedule; [autorewrite with maildock; by rewrite Ht|]. apply inv_count.
  unfold mon_transition, transition. simpl. fold (state m). rewrite state_set_handled, Ht. simpl.
  rewrite eqb_neq by (destruct (state m); done).
  split; [done | done |]. rewrite !count_out_emit, !filter_cons_False by done.
  unfold count_out in *; simpl; lia.
Qed.

Lemma inv_reprobe ev m :
  state m <> DETACHED -> detach_inv m -> detach_inv (reprobe ev m).
Proof.
  intros Hs Hi. unfold reprobe. destruct (mem (state m) _) eqn:Hm; [|done]. cbv zeta.
  assert (Hi' : detach_inv (set_count (reprobe_count m + 1) m)) by by apply inv_count.
  repeat case_match; try discriminate; try (by apply inv_transition);
    try (by apply inv_schedule).
  - apply inv_timers; [autorewrite with maildock | apply inv_count, inv_touch].
    + apply touch_not_detached. bsimp. table_state.
    + bsimp. table_state.
    + by apply inv_transition.
  - apply inv_transition; [by apply inv_transition|]. bsimp. table_state.
  - apply inv_transition; [by apply inv_transition|]. bsimp. table_state.
Qed.

Lemma detach_inv_handle i m : detach_inv m -> detach_inv (handle i m).
Proof.
  intros Hi. destruct i as [ev|ev| | | | |]; simpl.
  - unfold heartbeat. destruct (mem (state m) _) eqn:Hm; [|done].
    assert (state m <> DETACHED) by (intros E; by rewrite E in Hm).
    repeat case_match; cbv zeta; try (by apply inv_transition).
    + apply inv_touch; [|by apply inv_transition]. bsimp. table_state.
    + apply inv_schedule; [bsimp; table_state | by apply inv_count, inv_transition].
    + apply inv_schedule; [bsimp; table_state | by apply inv_count, inv_transition].
  - destruct (decide (state m = DETACHED)) as [E|E].
    + unfold reprobe. autorewrite with maildock. rewrite E. change (mem DETACHED _) with false.
      destruct Hi as [? Hst ?]. destruct (Hst E). by split.
    + apply inv_reprobe; [done | by apply inv_timers].
  - unfold handle_io_error. destruct (mem (state m) _) eqn:Hm; [done|].
    assert (state m <> DETACHED) by (intros E; by rewrite E in Hm).
    cbv zeta. case_match; [|by apply inv_transition].
    apply inv_schedule; [bsimp; table_state | by apply inv_count, inv_transition].
  - unfold request_reconnect. destruct (mem (state m) _) eqn:Hm; [|done].
    apply inv_reconnect; [done | | done]. by destruct (state m).
  - unfold handle_device_arrived. destruct (state m == DETACHED) eqn:Hm; [|done]. bsimp.
    apply inv_reconnect; [by rewrite Hm | by rewrite Hm | done].
  - unfold handle_device_removed. case_match; [|done]. bsimp. by apply inv_transition.
  - unfold mark_detached_by_user. destruct (mem (state m) _) eqn:Hm; [|done].
    apply inv_transition; [done|]. intros E. by rewrite E in Hm.
Qed.

Lemma handle_all_app ins1 ins2 m : handle_all (ins1 ++ ins2) m = handle_all ins2 (handle_all ins1 m).
Proof. revert m. induction ins1 as [|i ins1 IH]; intros m; simpl; auto. Qed.

(** Starting from a freshly started monitor, after any sequence of inputs: the root is marked
    handled exactly when it is [DETACHED], a detached monitor has both timers stopped, and the
    detachment cleanup ran exactly once for each entry into [DETACHED]. *)
Lemma detached_handled_once ins attempts :
  detach_inv (handle_all ins (start (init_monitor attempts))).
Proof.
  induction ins as [|i ins IH] using rev_ind; [by split|].
  rewrite handle_all_app. by apply detach_inv_handle.
Qed.

Lemma accepts_app ins1 ins2 m :
  accepts (ins1 ++ ins2) m = accepts ins1 m && accepts ins2 (handle_all ins1 m).
Proof.
  revert m. induction ins1 as [|i ins1 IH]; intros m; simpl; [done|]. by rewrite IH, andb_assoc.
Qed.

(** ** Detection of a lost root *)

Definition missing : env := Env (Ok PROBE_RESULT_MISSING) None None.

Lemma reprobe_missing_step m :
  mem (state m) [DEGRADED; RECONNECTING] = true ->
  (reprobe_count m + 1 < reprobe_attempts m)%Z ->
  let m' := handle (InReprobe missing) m in
  state m' = state m /\ reprobe_count m' = (reprobe_count m + 1)%Z
  /\ reprobe_attempts m' = reprobe_attempts m /\ reprobe_active m' = true
  /\ heartbeat_active m' = heartbeat_active m.
Proof.
  intros Hm Hlt. simpl. unfold reprobe. autorewrite with maildock. rewrite Hm. simpl.
  destruct (_ <=? _)%Z eqn:E; bsimp; [simpl in E; lia|]. done.
Qed.

Lemma reprobe_missing_last m :
  mem (state m) [DEGRADED; RECONNECTING] = true ->
  (reprobe_attempts m <= reprobe_count m + 1)%Z ->
  state (handle (InReprobe missing) m) = DETACHED.
Proof.
  intros Hm Hle. simpl. unfold reprobe. autorewrite with maildock. rewrite Hm. simpl.
  destruct (_ <=? _)%Z eqn:E; bsimp; [|simpl in E; lia].
  autorewrite with maildock. destruct (state m); set_solver.
Qed.

(** When the root stays missing, the reprobe timer alone brings the monitor from [DEGRADED]
    (or [RECONNECTING]) to [DETACHED] within the attempts that remain, and each reprobe before
    the last re-arms the timer. *)
Lemma reprobe_detects_loss n m :
  mem (state m) [DEGRADED; RECONNECTING] = true ->
  reprobe_active m = true ->
  Z.of_nat n = Z.max 1 (reprobe_attempts m - reprobe_count m) ->
  accepts (replicate n (InReprobe missing)) m = true
  /\ state (handle_all (replicate n (InReprobe missing)) m) = DETACHED.
Proof.
  revert m. induction n as [|n IH]; intros m Hm Ha Hn; [lia|].
  change (replicate (S n) ?x) with (x :: replicate n x). cbn [accepts handle_all enabled].
  rewrite Ha. destruct (decide (reprobe_count m + 1 < reprobe_attempts m)%Z) as [Hlt|Hge].
  - destruct (reprobe_missing_step m Hm Hlt) as (Hs & Hc & Hat & Hact & _).
    apply IH; [by rewrite Hs | done | rewrite Hc, Hat; lia].
  - assert (n = 0%nat) as -> by lia. split; [done|]. apply reprobe_missing_last; [done | lia].
Qed.

(** One heartbeat period that is only two reprobes long. *)
Definition short_period : list input := [InHeartbeat missing; InReprobe missing; InReprobe missing].

Lemma heartbeat_missing_step m :
  state m = DEGRADED ->
  let m' := handle (InHeartbeat missing) m in
  state m' = DEGRADED /\ reprobe_count m' = 0%Z /\ reprobe_attempts m' = reprobe_attempts m
  /\ reprobe_active m' = true /\ heartbeat_active m' = heartbeat_active m.
Proof.
  intros Hs. simpl. unfold heartbeat. rewrite Hs. change (mem DEGRADED _) with true. simpl.
  assert (mon_transition PROBE_MISSING m = m) as ->.
  { unfold mon_transition, transition. fold (state m). rewrite Hs. simpl.
    destruct m as [[s] ? ? ? ? ? ?]. unfold state in Hs. simpl in Hs. by subst. }
  rewrite Hs, eqb_refl. unfold schedule_reprobe. simpl. by destruct (reprobe_active m) eqn:?.
Qed.

Lemma short_period_degraded m :
  state m = DEGRADED -> heartbeat_active m = true -> (3 <= reprobe_attempts m)%Z ->
  let m' := handle_all short_period m in
  state m' = DEGRADED /\ heartbeat_active m' = true
  /\ reprobe_attempts m' = reprobe_attempts m /\ accepts short_period m = true.
Proof.
  intros Hs Hb Ha. cbv zeta. unfold short_period. cbn [handle_all accepts enabled].
  destruct (heartbeat_missing_step m Hs) as (Hs1 & Hc1 & Ha1 & Hr1 & Hb1).
  set (m1 := handle (InHeartbeat missing) m) in *.
  destruct (reprobe_missing_step m1) as (Hs2 & Hc2 & Ha2 & Hr2 & Hb2);
    [by rewrite Hs1 | lia |].
  set (m2 := handle (InReprobe missing) m1) in *.
  destruct (reprobe_missing_step m2) as (Hs3 & Hc3 & Ha3 & Hr3 & Hb3);
    [by rewrite Hs2, Hs1 | lia |].
  rewrite Hb, Hr1, Hr2. repeat split; try congruence.
Qed.

(** A heartbeat that finds the root missing resets the reprobe counter, so when the heartbeat
    period is no longer than two reprobes (a one-second heartbeat, which the configuration allows)
    and three or more attempts are configured (three is the default), a permanently missing root is
    never declared detached: the monitor stays [DEGRADED] for any number of periods, every timer
    firing legally. *)
Lemma short_heartbeat_never_detaches n m :
  state m = DEGRADED -> heartbeat_active m = true -> (3 <= reprobe_attempts m)%Z ->
  accepts (concat (replicate n short_period)) m = true
  /\ state (handle_all (concat (replicate n short_period)) m) = DEGRADED.
Proof.
  revert m. induction n as [|n IH]; intros m Hs Hb Ha; [done|].
  destruct (short_period_degraded m Hs Hb Ha) as (Hs' & Hb' & Ha' & Hacc).
  change (concat (replicate (S n) ?p)) with (p ++ concat (replicate n p)).
  rewrite handle_all_app. destruct (IH _ Hs' Hb' ltac:(by rewrite Ha')) as [IHa IHs].
  split; [|done]. by rewrite accepts_app, Hacc, IHa.
Qed.

(** A drive that is pulled out, comes back and is verified. *)
Definition back : env := Env (Ok PROBE_RESULT_OK) None (Some (Ok None)).
Definition pulled_out : monitor := handle InDeviceRemoved (start (init_monitor 3)).
Lemma reattached_after_verification_witness :
  needs_reconnect (state pulled_out) = true
  /\ exists ins1 ev ins2, [InDeviceArrived; InReprobe missing; InReprobe back] = ins1 ++ InReprobe ev :: ins2
    /\ state (handle_all ins1 pulled_out) = RECONNECTING /\ verified ev
    /\ state (handle_all (ins1 ++ [InReprobe ev]) pulled_out) = ATTACHED
    /\ (state pulled_out = RECONNECTING \/ exists i, i ∈ ins1 /\ reopens (state pulled_out) i).
Proof.
  split; [reflexivity|].
  apply (reattached_after_verification [InDeviceArrived; InReprobe missing; InReprobe back] pulled_out); reflexivity.
Defined.
