(* ===== verification/Accounts.v ===== *)
(** * Accounts: identifiers used as storage path components

    [domain/accounts.py] decides which account identifiers may be registered;
    [infrastructure/storage/manifest.py] repeats a weaker check before it builds a manifest path. *)

From S2P Require Import Prelude Errors PyText.

(** The character class of [_ACCOUNT_ID_FORBIDDEN] and [_FORBIDDEN_CHARACTER]: less-than,
    greater-than, colon, double quote, slash, backslash, bar, question mark, asterisk. *)
Definition forbidden_chars : list Z := [60; 62; 58; 34; 47; 92; 124; 63; 42]%Z.
Definition is_forbidden (c : Z) : bool := mem c forbidden_chars.

(** Case-insensitive match of ASCII letters; no other character matches one of the letters of the
    device names under [re.IGNORECASE]. *)
Definition lower (c : Z) : Z := if ((65 <=? c) && (c <=? 90))%Z then (c + 32)%Z else c.

(** [con|prn|aux|nul|com[1-9]|lpt[1-9]] *)
Definition device_names : list pystr :=
  map lit ["con"; "prn"; "aux"; "nul";
           "com1"; "com2"; "com3"; "com4"; "com5"; "com6"; "com7"; "com8"; "com9";
           "lpt1"; "lpt2"; "lpt3"; "lpt4"; "lpt5"; "lpt6"; "lpt7"; "lpt8"; "lpt9"]%string.

Definition is_device (s : pystr) : bool := mem (map lower s) device_names.

Definition dot : Z := 46.
Definition space : Z := 32.
Definition newline : Z := 10.

(** [_ACCOUNT_ID_RESERVED.fullmatch]: a device name, alone or followed by a dot and anything
    without a newline. *)
Definition account_id_reserved (s : pystr) : bool :=
  let stem := before_first dot s in
  is_device stem && negb (mem newline (drop (S (length stem)) s)).

(** [str.endswith] with a dot or a space *)
Definition ends_with_dot_or_space (s : pystr) : bool :=
  match last s with Some c => (c =? dot)%Z || (c =? space)%Z | None => false end.

Definition validate_account_id (account_id : pystr) : result unit :=
  check (negb (mem account_id [[]; lit "."; lit ".."]))
    ValueError "account_id must not be empty or a path component" ;?
  check (negb (existsb (fun c => c <? 32)%Z account_id))
    ValueError "account_id must not contain control characters" ;?
  check (negb (existsb is_forbidden account_id))
    ValueError "account_id contains a forbidden path character" ;?
  check (negb (ends_with_dot_or_space account_id))
    ValueError "account_id must not end with a dot or space" ;?
  check (negb (account_id_reserved account_id))
    ValueError "account_id is a reserved Windows device name" ;?
  let? n := utf8_len account_id in
  check (n <=? 255)%Z ValueError "account_id is too long".

(** [_validate_account_id] of the manifest module; [0] is the NUL character. *)
Definition manifest_validate_account_id (account_id : pystr) : result unit :=
  check (negb (mem account_id [[]; lit "."; lit ".."]
               || mem 47%Z account_id || mem 92%Z account_id || mem 0%Z account_id
               || existsb (fun c => mem c account_id) (lit ":*?" ++ [34%Z] ++ lit "<>|")))
    ValueError "account_id must be a filesystem-safe single path component".

(** ** What an identifier must be *)

Record safe_account_id (a : pystr) : Prop := {
  safe_nonempty : a <> [] /\ a <> lit "." /\ a <> lit "..";
  safe_chars : forall c, c ∈ a -> (32 <= c)%Z /\ c ∉ forbidden_chars;
  safe_last : forall c, last a = Some c -> c <> dot /\ c <> space;
  safe_device : is_device (before_first dot a) = false;
  safe_encodable : forall c, c ∈ a -> is_surrogate c = false;
  safe_length : (utf8_size a <= 255)%Z;
}.

Lemma ends_false a :
  ends_with_dot_or_space a = false <-> forall c, last a = Some c -> c <> dot /\ c <> space.
Proof.
  unfold ends_with_dot_or_space. destruct (last a) as [c|]; [|by split; [|done]; intros _ ? ?].
  rewrite orb_false_iff, !Z.eqb_neq. split; [by intros ? ? [= <-] | intros H; by apply H].
Qed.

Lemma reserved_device a :
  (forall c, c ∈ a -> (32 <= c)%Z) -> account_id_reserved a = is_device (before_first dot a).
Proof.
  intros Ha. unfold account_id_reserved.
  destruct (is_device _); [simpl|done].
  apply negb_true_iff, mem_false. intros Hn.
  assert (newline ∈ a) as H%Ha by (by eapply elem_of_drop_1).
  unfold newline in H. lia.
Qed.

Lemma existsb_range a :
  existsb (fun c => c <? 32)%Z a = false <-> forall c, c ∈ a -> (32 <= c)%Z.
Proof. rewrite existsb_false. by setoid_rewrite Z.ltb_ge. Qed.
Lemma existsb_forbidden a :
  existsb is_forbidden a = false <-> forall c, c ∈ a -> c ∉ forbidden_chars.
Proof. rewrite existsb_false. by setoid_rewrite mem_false. Qed.

Lemma account_id_safe a : validate_account_id a = Ok tt -> safe_account_id a.
Proof.
  unfold validate_account_id, utf8_len. intros H.
  repeat (apply rbind_ok in H as ([] & ?%check_ok & H)).
  destruct (existsb is_surrogate a) eqn:Es; [done|]. simpl in H. apply check_ok in H.
  bsimp. repeat match goal with
  | H : existsb (fun c => c <? 32)%Z _ = false |- _ => rewrite existsb_range in H
  | H : existsb is_forbidden _ = false |- _ => rewrite existsb_forbidden in H
  | H : existsb is_surrogate _ = false |- _ => rewrite existsb_false in H
  | H : ends_with_dot_or_space _ = false |- _ => rewrite ends_false in H
  | H : account_id_reserved _ = false |- _ => rewrite reserved_device in H by done
  end.
  split; [set_solver | auto..].
Qed.

(** [validate_account_id] accepts an identifier exactly when it is a safe path component:
    non-empty, not a dot entry, free of control and forbidden characters (so free of separators),
    not ending in a dot or space, not a Windows device name with or without an extension, encodable
    in UTF-8 and at most 255 bytes long. *)
Lemma account_id_accepted_iff a : validate_account_id a = Ok tt <-> safe_account_id a.
Proof.
  split; [apply account_id_safe|]. intros [(H1 & H2 & H3) Hc Hl Hd He Hn].
  assert (forall c, c ∈ a -> (32 <= c)%Z) as Hr by (intros; by apply Hc).
  unfold validate_account_id, utf8_len.
  assert (mem a [[]; lit "."; lit ".."] = false) as -> by (apply mem_false; set_solver).
  rewrite (proj2 (existsb_range a)) by done.
  rewrite (proj2 (existsb_forbidden a)) by (intros; by apply Hc).
  rewrite (proj2 (ends_false a)) by done.
  rewrite (reserved_device a Hr), Hd, (proj2 (existsb_false is_surrogate a) He). simpl.
  by apply check_ok, Z.leb_le.
Qed.

(** Every identifier the account validation accepts is accepted by the manifest module's own
    check, so opening a manifest for a registered account never fails on its identifier. *)
Lemma registered_id_has_manifest a :
  validate_account_id a = Ok tt -> manifest_validate_account_id a = Ok tt.
Proof.
  intros [(H1 & H2 & H3) Hc _ _ _ _]%account_id_safe.
  unfold manifest_validate_account_id. apply check_ok, negb_true_iff.
  assert (forall c, c ∈ forbidden_chars ++ [0%Z] -> c ∉ a) as Hf.
  { intros c Hin Ha. destruct (Hc c Ha) as [Hge Hnot].
    apply elem_of_app in Hin as [?|Hz]; [done|]. apply list_elem_of_singleton in Hz. lia. }
  rewrite !orb_false_iff. split_and!.
  - apply mem_false. set_solver.
  - apply mem_false, Hf. by apply mem_true.
  - apply mem_false, Hf. by apply mem_true.
  - apply mem_false, Hf. by apply mem_true.
  - apply existsb_false. intros c Hin. apply mem_false, Hf.
    change (c ∈ [58; 42; 63; 34; 60; 62; 124]%Z) in Hin. unfold forbidden_chars. set_solver.
Qed.

