(* ===== verification/Attachments.v ===== *)
(** * Attachments: safe attachment file names

    [domain/attachments.py]. [unicodedata.normalize("NFC", _)] is a parameter of the section; what
    the theorems need of it is stated where it is used. *)

From S2P Require Import Prelude Errors PyText Accounts.

Definition MAX_FILENAME_BYTES : Z := 255.
Definition FALLBACK_ATTACHMENT_NAME : pystr := lit "attachment".
Definition underscore : Z := 95.

(** [_EXECUTABLE_EXTENSIONS] *)
Definition EXECUTABLE_EXTENSIONS : list pystr :=
  map lit [".exe"; ".scr"; ".js"; ".vbs"; ".lnk"; ".bat"; ".cmd"; ".ps1"]%string.

Record SanitizedName := Sanitized { sname : pystr; warnings : list string }.

Definition is_executable (n : SanitizedName) : bool := mem "executable_extension"%string (warnings n).

(** The loop of [_truncate_utf8] with [used_bytes] so far. *)
Fixpoint truncate_loop (used max_bytes : Z) (value : pystr) : pystr :=
  match value with
  | [] => []
  | c :: rest =>
      if (max_bytes <? used + utf8_char_len c)%Z then []
      else c :: truncate_loop (used + utf8_char_len c) max_bytes rest
  end.

(** [_truncate_utf8] *)
Definition truncate_utf8 (value : pystr) (max_bytes : Z) : result pystr :=
  let? n := utf8_len value in
  if (n <=? max_bytes)%Z then Ok value else Ok (truncate_loop 0 max_bytes value).

(** [value.startswith(".")] *)
Definition starts_with_dot (value : pystr) : bool :=
  match value with c :: _ => (c =? dot)%Z | [] => false end.

(** [_truncate_preserving_extension] *)
Definition truncate_preserving_extension (value : pystr) (max_bytes : Z) : result pystr :=
  let? n := utf8_len value in
  if (n <=? max_bytes)%Z then Ok value
  else if starts_with_dot value then truncate_utf8 value max_bytes
  else match rsplit1 dot value with
       | None => truncate_utf8 value max_bytes
       | Some (stem, ext) =>
           let extension := dot :: ext in
           let? extension_bytes := utf8_len extension in
           if (max_bytes <=? extension_bytes)%Z then truncate_utf8 extension max_bytes
           else
             let? s := truncate_utf8 stem (max_bytes - extension_bytes) in
             Ok (s ++ extension)
       end.

(** [_extension] *)
Definition extension (value : pystr) : pystr :=
  if starts_with_dot value then []
  else match rsplit1 dot value with
       | None => []
       | Some (_, ext) => dot :: casefold ext
       end.

(** [_PATH_SEPARATOR.split(value)[-1]]: what follows the last slash or backslash. *)
Definition is_separator (c : Z) : bool := ((c =? 47) || (c =? 92))%Z.
Fixpoint last_component_aux (acc value : pystr) : pystr :=
  match value with
  | [] => rev acc
  | c :: rest => last_component_aux (if is_separator c then [] else c :: acc) rest
  end.
Definition last_component (value : pystr) : pystr := last_component_aux [] value.

(** The replacement of one character. *)
Definition replace_char (c : Z) : Z :=
  if is_forbidden c then underscore else if is_control c then underscore else c.

Definition is_dot_or_space (c : Z) : bool := ((c =? dot) || (c =? space))%Z.

(** [["w"] if b else []] *)
Definition warn (b : bool) (w : string) : list string := if b then [w] else [].

Section Sanitize.
Context (nfc : pystr -> pystr).

(** [sanitize_attachment_name] *)
Definition sanitize_attachment_name (name : pystr) : result SanitizedName :=
  let value0 := nfc name in
  let w1 := warn (existsb is_separator value0) "path_component" in
  let value1 := last_component value0 in
  let value2 := map replace_char value1 in
  let w2 := warn (existsb is_forbidden value1) "forbidden_character"
            ++ warn (existsb (fun c => negb (is_forbidden c) && is_control c) value1)
                 "control_character" in
  let value3 := rstrip is_dot_or_space value2 in
  let w3 := warn (value3 != value2) "trailing_character" in
  let value4 := if decide (value3 = []) then FALLBACK_ATTACHMENT_NAME else value3 in
  let w4 := warn (bool_decide (value3 = [])) "empty_name" in
  let basename := before_first dot value4 in
  let value5 := if is_device basename
                then basename ++ [underscore] ++ drop (length basename) value4 else value4 in
  let w5 := warn (is_device basename) "reserved_name" in
  let value6 := nfc value5 in
  let? bounded_value := truncate_preserving_extension value6 MAX_FILENAME_BYTES in
  let w6 := warn (bounded_value != value6) "truncated" in
  let w7 := warn (mem (extension bounded_value) EXECUTABLE_EXTENSIONS) "executable_extension" in
  Ok (Sanitized bounded_value (w1 ++ w2 ++ w3 ++ w4 ++ w5 ++ w6 ++ w7)).

End Sanitize.

(** ** Lemmas on the helpers *)

Definition clean (c : Z) : Prop := is_forbidden c = false /\ is_control c = false.

Lemma truncate_loop_prefix used m v : truncate_loop used m v `prefix_of` v.
Proof.
  revert used. induction v as [|c v IH]; intros used; simpl; [done|].
  case_match; [apply prefix_nil | by apply prefix_cons].
Qed.

Lemma truncate_loop_size used m v :
  (0 <= used <= m)%Z -> (used + utf8_size (truncate_loop used m v) <= m)%Z.
Proof.
  revert used. induction v as [|c v IH]; intros used Hu; simpl; [lia|].
  destruct (_ <? _)%Z eqn:E; bsimp; [simpl; lia|]. pose proof (utf8_char_len_pos c).
  specialize (IH (used + utf8_char_len c)%Z ltac:(lia)). unfold utf8_size in *. simpl. lia.
Qed.

Lemma truncate_loop_nonempty m c v : (4 <= m)%Z -> truncate_loop 0 m (c :: v) <> [].
Proof.
  intros Hm. simpl. pose proof (utf8_char_len_pos c).
  destruct (_ <? _)%Z eqn:E; bsimp; [lia | done].
Qed.

(** Truncation succeeds on text without surrogates, yields a prefix and respects the bound. *)
Lemma truncate_utf8_spec v m :
  existsb is_surrogate v = false -> (0 <= m)%Z ->
  exists p, truncate_utf8 v m = Ok p /\ p `prefix_of` v /\ (utf8_size p <= m)%Z
            /\ ((4 <= m)%Z -> v <> [] -> p <> []).
Proof.
  intros Hs Hm. unfold truncate_utf8, utf8_len. rewrite Hs. simpl.
  destruct (_ <=? _)%Z eqn:E; bsimp; eexists; (split; [done|]).
  - by repeat split.
  - pose proof (truncate_loop_size 0 m v). repeat split; [apply truncate_loop_prefix | lia |].
    intros H4 Hv. destruct v; [done|]. by apply truncate_loop_nonempty.
Qed.

Lemma existsb_sub {A} (p : A -> bool) l1 l2 :
  (forall x, x ∈ l1 -> x ∈ l2) -> existsb p l2 = false -> existsb p l1 = false.
Proof. rewrite !existsb_false. auto. Qed.

Lemma prefix_sub {A} (l1 l2 : list A) x : l1 `prefix_of` l2 -> x ∈ l1 -> x ∈ l2.
Proof. intros [k ->]. set_solver. Qed.

Lemma utf8_len_ok v : existsb is_surrogate v = false -> utf8_len v = Ok (utf8_size v).
Proof. unfold utf8_len. by intros ->. Qed.

Lemma truncate_preserving_spec v m :
  existsb is_surrogate v = false -> (4 <= m)%Z -> v <> [] ->
  exists p, truncate_preserving_extension v m = Ok p /\ p <> [] /\ (utf8_size p <= m)%Z
            /\ (forall c, c ∈ p -> c ∈ v).
Proof.
  intros Hs Hm Hv. unfold truncate_preserving_extension. rewrite utf8_len_ok by done.
  cbn [rbind]. destruct (_ <=? _)%Z eqn:E; bsimp; [by exists v|].
  assert (forall w, w <> [] -> (forall c, c ∈ w -> c ∈ v) ->
    exists p, truncate_utf8 w m = Ok p /\ p <> [] /\ (utf8_size p <= m)%Z
              /\ (forall c, c ∈ p -> c ∈ v)) as Hw.
  { intros w Hw Hsub.
    destruct (truncate_utf8_spec w m) as (p & -> & Hp & Hb & Hne);
      [by eapply existsb_sub | lia |].
    exists p. repeat split; [by apply Hne | done |]. intros c Hc. by eapply Hsub, prefix_sub. }
  destruct (starts_with_dot v); [by apply Hw|].
  destruct (rsplit1 dot v) as [[stem ext]|] eqn:Er; [|by apply Hw].
  destruct (rsplit1_Some _ _ _ _ Er) as [-> _].
  rewrite existsb_app in Hs. apply orb_false_iff in Hs as [Hst He].
  rewrite (utf8_len_ok _ He). cbn [rbind].
  destruct (m <=? _)%Z eqn:E2; bsimp; [apply Hw; [done | set_solver]|].
  destruct (truncate_utf8_spec stem (m - utf8_size (dot :: ext))) as (p & -> & Hpre & Hb & _);
    [done | lia |].
  cbn [rbind]. eexists. split; [done|]. repeat split; [by destruct p | |].
  - rewrite utf8_size_app. lia.
  - intros c [Hc|Hc]%elem_of_app; [|set_solver]. apply elem_of_app. left. by eapply prefix_sub.
Qed.

Lemma replace_char_clean c : clean (replace_char c).
Proof.
  unfold replace_char, clean. destruct (is_forbidden c) eqn:E1; [done|].
  by destruct (is_control c) eqn:E2.
Qed.

Lemma rstrip_sub drop s c : c ∈ rstrip drop s -> c ∈ s.
Proof. destruct (rstrip_prefix drop s) as (t & Ht & _). rewrite Ht at 2. set_solver. Qed.

Lemma before_first_sub sep s c : c ∈ before_first sep s -> c ∈ s.
Proof. induction s as [|d s IH]; simpl; [done|]. case_match; set_solver. Qed.

Lemma last_component_sub acc v c : c ∈ last_component_aux acc v -> c ∈ acc \/ c ∈ v.
Proof.
  revert acc. induction v as [|d v IH]; intros acc; simpl.
  - rewrite list_elem_of_In, <- in_rev, <- list_elem_of_In. auto.
  - intros [H|H]%IH; [|set_solver]. case_match; set_solver.
Qed.

(** The value after the reserved-name step only has characters of the replaced name, of the
    fallback name, or the inserted underscore. *)
Lemma fallback_clean : Forall clean FALLBACK_ATTACHMENT_NAME.
Proof. repeat constructor. Qed.

Section SanitizeFacts.
Context (nfc : pystr -> pystr).

(** The stages of [sanitize_attachment_name] before the second normalization. *)
Definition stage4 (name : pystr) : pystr :=
  let v3 := rstrip is_dot_or_space (map replace_char (last_component (nfc name))) in
  if decide (v3 = []) then FALLBACK_ATTACHMENT_NAME else v3.
Definition stage5 (name : pystr) : pystr :=
  let v := stage4 name in
  let b := before_first dot v in
  if is_device b then b ++ [underscore] ++ drop (length b) v else v.

(** Where the characters of the staged value come from. *)
Lemma stage4_sub name c :
  c ∈ stage4 name ->
  c ∈ FALLBACK_ATTACHMENT_NAME \/ exists d, d ∈ nfc name /\ c = replace_char d.
Proof.
  unfold stage4. cbv zeta. case_decide; [auto|].
  intros (d & -> & Hd)%rstrip_sub%list_elem_of_fmap_1. right. exists d. split; [|done].
  apply last_component_sub in Hd as [?|?]; [set_solver | done].
Qed.
Lemma stage5_sub name c :
  c ∈ stage5 name ->
  c ∈ FALLBACK_ATTACHMENT_NAME ++ [underscore] \/ exists d, d ∈ nfc name /\ c = replace_char d.
Proof.
  intros Hc. assert (c = underscore \/ c ∈ stage4 name) as [->|H%stage4_sub].
  { revert Hc. unfold stage5. cbv zeta. case_match; [|auto].
    rewrite !elem_of_app, list_elem_of_singleton.
    intros [?%before_first_sub|[?|?%elem_of_drop_1]]; auto. }
  - left. set_solver.
  - set_solver.
Qed.
Lemma stage4_nonempty name : stage4 name <> [].
Proof. unfold stage4. cbv zeta. by case_decide. Qed.
Lemma stage5_nonempty name : stage5 name <> [].
Proof.
  unfold stage5. cbv zeta. pose proof (stage4_nonempty name). case_match; [|done].
  by destruct (before_first dot (stage4 name)).
Qed.
Lemma stage5_clean name : Forall clean (stage5 name).
Proof.
  apply Forall_forall. intros c [H|(d & _ & ->)]%stage5_sub; [|apply replace_char_clean].
  revert c H. apply Forall_forall. repeat constructor.
Qed.
Lemma stage5_no_surrogate name :
  existsb is_surrogate (nfc name) = false -> existsb is_surrogate (stage5 name) = false.
Proof.
  rewrite !existsb_false. intros Hn c [H|(d & Hd & ->)]%stage5_sub.
  - revert c H. apply Forall_forall. repeat constructor.
  - unfold replace_char. repeat case_match; auto.
Qed.

Lemma sanitize_result name r :
  sanitize_attachment_name nfc name = Ok r ->
  truncate_preserving_extension (nfc (stage5 name)) MAX_FILENAME_BYTES = Ok (sname r)
  /\ ("truncated"%string ∉ warnings r -> sname r = nfc (stage5 name)).
Proof.
  unfold sanitize_attachment_name. cbv zeta. fold (stage4 name). fold (stage5 name).
  intros (p & Hp & [= <-])%rbind_ok. simpl. split; [done|]. intros Hw.
  destruct (p != nfc (stage5 name)) eqn:E; [|by bsimp].
  destruct Hw. unfold warn at 6. set_solver.
Qed.

(** For a name that normalizes to text without lone surrogates, [sanitize_attachment_name]
    returns a name, and that name is non-empty, at most 255 bytes of UTF-8, and free of path
    separators, of the characters Windows forbids and of control characters. Assumed of NFC: it
    does not map non-empty text to empty text, nor text without forbidden, control and surrogate
    characters to text with them. *)
Lemma sanitized_name_safe name :
  (forall s, s <> [] -> nfc s <> []) ->
  (forall s, Forall clean s -> Forall clean (nfc s)) ->
  (forall s, existsb is_surrogate s = false -> existsb is_surrogate (nfc s) = false) ->
  existsb is_surrogate name = false ->
  exists r, sanitize_attachment_name nfc name = Ok r
            /\ sname r <> [] /\ (utf8_size (sname r) <= MAX_FILENAME_BYTES)%Z
            /\ Forall (fun c => clean c /\ is_separator c = false) (sname r).
Proof.
  intros Hne Hclean Hsur Hname.
  destruct (truncate_preserving_spec (nfc (stage5 name)) MAX_FILENAME_BYTES)
    as (p & Hp & Hpne & Hsize & Hsub).
  { by apply Hsur, stage5_no_surrogate, Hsur. }
  { done. }
  { apply Hne, stage5_nonempty. }
  unfold sanitize_attachment_name. cbv zeta. fold (stage4 name). fold (stage5 name).
  rewrite Hp. cbn [rbind]. eexists. split; [done|]. simpl. repeat split; [done | done |].
  apply Forall_forall. intros c Hc.
  assert (clean c) as Hcl
    by (pose proof (Hclean _ (stage5_clean name)) as H; rewrite Forall_forall in H; auto).
  split; [done|]. destruct Hcl as [Hf _]. unfold is_separator.
  destruct ((c =? 47) || (c =? 92))%Z eqn:E; [|done]. apply orb_true_iff in E as [E|E];
    apply Z.eqb_eq in E; subst; discriminate Hf.
Qed.

(** ** Device names and trailing characters

    For ASCII names NFC does nothing; this is all the next two theorems assume of it. *)
Definition ascii (s : pystr) : Prop := Forall (fun c => 0 <= c < 128)%Z s.

Lemma stage5_ascii name : ascii name -> (forall s, ascii s -> nfc s = s) -> ascii (stage5 name).
Proof.
  intros Hn Ha. apply Forall_forall. intros c [H|(d & Hd & ->)]%stage5_sub.
  - revert c H. apply Forall_forall. vm_compute. repeat (constructor; [split; congruence|]). done.
  - rewrite (Ha _ Hn) in Hd. unfold ascii in Hn. rewrite Forall_forall in Hn.
    unfold replace_char, underscore. specialize (Hn d Hd). repeat case_match; lia.
Qed.

Lemma before_first_app s t :
  dot ∉ s -> before_first dot (s ++ t) = s ++ before_first dot t.
Proof.
  induction s as [|c s IH]; simpl; [done|]. intros Hn.
  destruct (c =? dot)%Z eqn:E; bsimp; [set_solver|]. f_equal. set_solver.
Qed.

Lemma before_first_drop s : drop (length (before_first dot s)) s = [] \/
  exists t, drop (length (before_first dot s)) s = dot :: t.
Proof.
  induction s as [|c s IH]; simpl; [auto|].
  destruct (c =? dot)%Z eqn:E; bsimp; simpl; [subst; eauto | done].
Qed.

Lemma device_underscore b : is_device b = true -> is_device (b ++ [underscore]) = false.
Proof.
  unfold is_device. rewrite map_app. intros H%mem_true.
  revert H. generalize (map lower b). intros l Hl.
  apply mem_false. intros Hu. simpl in Hu.
  repeat (apply elem_of_cons in Hl as [->|Hl]; [revert Hu; apply mem_false; vm_compute; done|]).
  by apply elem_of_nil in Hl.
Qed.

Lemma stage5_not_device name : is_device (before_first dot (stage5 name)) = false.
Proof.
  unfold stage5. cbv zeta. set (b := before_first dot (stage4 name)).
  destruct (is_device b) eqn:E; [|done].
  rewrite before_first_app by apply before_first_notin.
  destruct (before_first_drop (stage4 name)) as [H|[t H]]; fold b in H; rewrite H;
    by apply device_underscore.
Qed.

Lemma stage4_last name c : last (stage4 name) = Some c -> is_dot_or_space c = false.
Proof. unfold stage4. cbv zeta. case_decide; [by intros [= <-] | apply rstrip_last]. Qed.

Lemma stage5_last name c : last (stage5 name) = Some c -> is_dot_or_space c = false.
Proof.
  unfold stage5. cbv zeta. case_match; [|apply stage4_last].
  set (b := before_first dot (stage4 name)).
  destruct (drop (length b) (stage4 name)) as [|d t] eqn:E.
  - rewrite app_nil_r, last_snoc. by intros [= <-].
  - rewrite app_assoc, last_app. intros Hl. apply (stage4_last name).
    rewrite <- (take_drop (length b) (stage4 name)), E, last_app.
    destruct (last (d :: t)) eqn:E'; [done|]. by apply last_None in E'.
Qed.

(** An ASCII name that did not have to be truncated comes out with a stem that is no Windows
    device name and does not end in a dot or a space. *)
Lemma untruncated_name_device_safe name r :
  (forall s, ascii s -> nfc s = s) -> ascii name ->
  sanitize_attachment_name nfc name = Ok r -> "truncated"%string ∉ warnings r ->
  is_device (before_first dot (sname r)) = false
  /\ ends_with_dot_or_space (sname r) = false.
Proof.
  intros Ha Hn [_ Ht]%sanitize_result Hw.
  rewrite (Ht Hw), Ha by by apply stage5_ascii.
  split; [apply stage5_not_device|]. apply ends_false. intros c Hc%stage5_last.
  unfold is_dot_or_space in Hc. by bsimp.
Qed.

(** A name whose extension leaves room for three characters of a longer stem. *)
Definition long_extension_name : pystr := lit "console." ++ replicate 251 120%Z.
(** A name without extension whose 255th character is a space. *)
Definition long_spaced_name : pystr := replicate 254 97%Z ++ [space] ++ replicate 10 98%Z.

(** Truncation happens after the device-name and trailing-character steps and undoes them:
    there are ASCII names whose sanitized form is a Windows device name with an extension
    ([con.xxx...]), and names whose sanitized form ends in a space. *)
Lemma truncation_unsafe :
  (forall s, ascii s -> nfc s = s) ->
  (exists r, sanitize_attachment_name nfc long_extension_name = Ok r
             /\ is_device (before_first dot (sname r)) = true)
  /\ (exists r, sanitize_attachment_name nfc long_spaced_name = Ok r
                /\ ends_with_dot_or_space (sname r) = true).
Proof.
  intros Ha.
  assert (ascii long_extension_name /\ ascii long_spaced_name) as [H1 H2].
  { split; apply Forall_forall; intros c Hc; apply elem_of_app in Hc as [Hc|Hc];
      vm_compute in Hc; repeat (apply elem_of_cons in Hc as [->|Hc]; [lia|]);
      by apply elem_of_nil in Hc. }
  split; unfold sanitize_attachment_name; cbv zeta; fold (stage4 long_extension_name);
    fold (stage4 long_spaced_name).
  - fold (stage5 long_extension_name).
    rewrite (Ha (stage5 _)) by by apply stage5_ascii.
    unfold stage5, stage4. rewrite (Ha long_extension_name) by done.
    eexists. split; [vm_compute; reflexivity | vm_compute; reflexivity].
  - fold (stage5 long_spaced_name).
    rewrite (Ha (stage5 _)) by by apply stage5_ascii.
    unfold stage5, stage4. rewrite (Ha long_spaced_name) by done.
    eexists. split; [vm_compute; reflexivity | vm_compute; reflexivity].
Qed.
End SanitizeFacts.

(** Identity is a normalization with every property assumed above. *)

