(* ===== verification/Identity.v ===== *)
(** * Identity: keys that name a remote message

    [domain/message_identity.py] builds the account-scoped [source_item_key] under which a message
    is stored, deduplicated and rebuilt; [domain/imap_flags.py] reads stored IMAP flags. *)

From S2P Require Import Prelude Errors PyText.
From Stdlib Require Import DecimalString DecimalZ.

(** ** Decimal and base64 text *)

(** [f"{n}"] of a Python integer. *)
Definition int_str (n : Z) : string := NilZero.string_of_int (Z.to_int n).

(** The URL-safe base64 alphabet. *)
Definition b64_char (n : Z) : Z :=
  (if n <? 26 then 65 + n else if n <? 52 then 71 + n else if n <? 62 then n - 4
   else if n =? 62 then 45 else 95)%Z.

Definition pad : Z := 61.

(** [base64.urlsafe_b64encode] *)
Fixpoint urlsafe_b64encode (l : list Z) : list Z :=
  match l with
  | [] => []
  | [a] => [b64_char (a / 4); b64_char (a mod 4 * 16); pad; pad]%Z
  | [a; b] => [b64_char (a / 4); b64_char (a mod 4 * 16 + b / 16); b64_char (b mod 16 * 4); pad]%Z
  | a :: b :: c :: l =>
      [b64_char (a / 4); b64_char (a mod 4 * 16 + b / 16); b64_char (b mod 16 * 4 + c / 64);
       b64_char (c mod 64)]%Z ++ urlsafe_b64encode l
  end.

(** ** The keys *)

Definition imap_folder_key (folder_raw_name : string) : result string :=
  check (folder_raw_name != ""%string) ValueError "folder_raw_name must not be empty" ;?
  let encoded := urlsafe_b64encode (bytes_of folder_raw_name) in
  Ok (string_of (rstrip (fun c => (c =? pad)%Z) encoded)).

Definition imap_source_item_key (folder_raw_name : string) (uidvalidity uid : Z) : result string :=
  check (negb ((uidvalidity <? 0) || (uid <? 1))%Z) ValueError
    "uidvalidity and uid must be non-negative and positive respectively" ;?
  let? key := imap_folder_key folder_raw_name in
  Ok ("imap:" +:+ key +:+ ":" +:+ int_str uidvalidity +:+ ":" +:+ int_str uid)%string.

Definition gmail_source_item_key (gmail_msgid : string) : result string :=
  check (isdecimal gmail_msgid) ValueError "gmail_msgid must be a decimal string" ;?
  Ok ("gmail:" +:+ gmail_msgid)%string.

Definition remote_source_item_key (folder_raw_name : string) (uidvalidity uid : Z)
    (gmail_msgid : option string) : result string :=
  match gmail_msgid with
  | Some g => gmail_source_item_key g
  | None => imap_source_item_key folder_raw_name uidvalidity uid
  end.

(** [has_imap_flag]: a case-insensitive whitespace-delimited token; [flags or ""]. *)
Definition has_imap_flag (flags : option string) (flag : string) : bool :=
  let expected := casefold (code_points flag) in
  existsb (fun token => casefold token == expected)
    (split_ws (code_points (get_or ""%string flags))).

(** ** Injectivity *)

(** The values the alphabet encodes, recovered from the character. *)
Definition b64_value (c : Z) : Z :=
  (if c =? 45 then 62 else if c =? 95 then 63 else if c <? 58 then c + 4
   else if c <? 91 then c - 65 else c - 71)%Z.

Lemma b64_value_char n : (0 <= n < 64)%Z -> b64_value (b64_char n) = n.
Proof. unfold b64_value, b64_char. intros. repeat case_match; bsimp; lia. Qed.

Lemma b64_char_range n : (0 <= n < 64)%Z ->
  (45 <= b64_char n < 123)%Z /\ b64_char n <> pad /\ b64_char n <> 58%Z.
Proof. unfold b64_char, pad. intros. repeat case_match; bsimp; lia. Qed.

Lemma b64_char_inj m n : (0 <= m < 64)%Z -> (0 <= n < 64)%Z -> b64_char m = b64_char n -> m = n.
Proof. intros Hm Hn E. by rewrite <- (b64_value_char m Hm), E, b64_value_char. Qed.

(** Encoding without the padding. *)
Fixpoint b64_body (l : list Z) : list Z :=
  match l with
  | [] => []
  | [a] => [b64_char (a / 4); b64_char (a mod 4 * 16)]%Z
  | [a; b] => [b64_char (a / 4); b64_char (a mod 4 * 16 + b / 16); b64_char (b mod 16 * 4)]%Z
  | a :: b :: c :: l =>
      [b64_char (a / 4); b64_char (a mod 4 * 16 + b / 16); b64_char (b mod 16 * 4 + c / 64);
       b64_char (c mod 64)]%Z ++ b64_body l
  end.

Lemma list_ind3 {A} (P : list A -> Prop) :
  P [] -> (forall a, P [a]) -> (forall a b, P [a; b]) ->
  (forall a b c l, P l -> P (a :: b :: c :: l)) -> forall l, P l.
Proof.
  intros H0 H1 H2 H3. fix IH 1. intros [|a [|b [|c l]]]; [exact H0 | exact (H1 a) | exact (H2 a b) |].
  apply H3, IH.
Qed.

Definition is_byte (z : Z) : Prop := (0 <= z < 256)%Z.

Ltac b64_range := Z.to_euclidean_division_equations; lia.

Lemma b64_body_chars l : Forall is_byte l ->
  Forall (fun c => (45 <= c < 123)%Z /\ c <> pad /\ c <> 58%Z) (b64_body l).
Proof.
  induction l as [|a|a b|a b c l IH] using list_ind3; unfold is_byte in *; intros H;
    repeat match goal with H : Forall _ (_ :: _) |- _ => apply Forall_cons in H as [? H] end;
    simpl; repeat (constructor; [apply b64_char_range; b64_range|]); auto.
Qed.

Lemma rstrip_app_pad l t : Forall (fun c => c <> pad) l -> Forall (fun c => c = pad) t ->
  rstrip (fun c => (c =? pad)%Z) (l ++ t) = l.
Proof.
  intros Hl Ht. induction Hl as [|c l Hc Hl IH]; simpl.
  - induction Ht as [|c t -> Ht IH]; simpl; [done|]. by rewrite IH.
  - rewrite IH. destruct l; [|done]. by rewrite (proj2 (Z.eqb_neq _ _)).
Qed.

Lemma urlsafe_b64encode_body l : exists t,
  urlsafe_b64encode l = b64_body l ++ t /\ Forall (fun c => c = pad) t.
Proof.
  induction l as [|a|a b|a b c l IH] using list_ind3; simpl.
  - by exists [].
  - exists [pad; pad]. by repeat constructor.
  - exists [pad]. by repeat constructor.
  - destruct IH as (t & -> & Ht). by exists t.
Qed.

Lemma b64_stripped l : Forall is_byte l ->
  rstrip (fun c => (c =? pad)%Z) (urlsafe_b64encode l) = b64_body l.
Proof.
  intros Hl. destruct (urlsafe_b64encode_body l) as (t & -> & Ht).
  apply rstrip_app_pad; [|done]. eapply Forall_impl; [by apply b64_body_chars|]. by intros c (_ & ? & _).
Qed.

Lemma b64_body_inj l1 l2 : Forall is_byte l1 -> Forall is_byte l2 ->
  b64_body l1 = b64_body l2 -> l1 = l2.
Proof.
  revert l2. induction l1 as [|a|a b|a b c l1 IH] using list_ind3;
    intros [|a' [|b' [|c' l2]]] H1 H2 E; simpl in E; try discriminate E; [done|..];
    unfold is_byte in *;
    repeat match goal with H : Forall _ (_ :: _) |- _ => apply Forall_cons in H as [? H] end;
    injection E as E; repeat match goal with
    | H : b64_char _ = b64_char _ |- _ => apply b64_char_inj in H; [|b64_range..]
    end; try (destruct l1; discriminate); try (destruct l2; discriminate).
  - f_equal. b64_range.
  - repeat f_equal; b64_range.
  - assert (l1 = l2) as -> by (apply IH; auto). repeat f_equal; b64_range.
Qed.

(** ** The pieces of a key *)

Lemma split_unique (x : Z) l1 l2 t1 t2 :
  x ∉ l1 -> x ∉ l2 -> l1 ++ x :: t1 = l2 ++ x :: t2 -> l1 = l2 /\ t1 = t2.
Proof.
  revert l2. induction l1 as [|a l1 IH]; intros [|b l2] H1 H2 E; simpl in E;
    injection E as; subst; [done | set_solver | set_solver |].
  destruct (IH l2) as [-> ->]; set_solver.
Qed.

Lemma int_str_inj m n : int_str m = int_str n -> m = n.
Proof.
  assert (forall z, NilZero.int_of_string (int_str z) = Some (Z.to_int z)) as H.
  { intros z. unfold int_str. apply NilZero.isi; destruct z; simpl; try done;
      intros [= E]; by apply DecimalPos.Unsigned.to_uint_nonnil in E. }
  intros E. apply to_int_inj. apply (f_equal NilZero.int_of_string) in E. rewrite !H in E. congruence.
Qed.

(** A number is written with digits and a minus sign. *)
Lemma int_str_digits n : Forall (fun c => c = 45 \/ 48 <= c < 58)%Z (bytes_of (int_str n)).
Proof.
  set (Q := fun s => Forall (fun c => c = 45 \/ 48 <= c < 58)%Z (bytes_of s)).
  assert (forall d, Q (NilEmpty.string_of_uint d)) as H.
  { induction d; (constructor; [right; cbv; intuition discriminate|exact IHd]) || constructor. }
  assert (forall d, Q (NilZero.string_of_uint d)) as H0.
  { intros []; try apply (H _). constructor; [right; cbv; intuition discriminate|constructor]. }
  fold (Q (int_str n)). unfold int_str. destruct (Z.to_int n); cbn; [apply H0|]. constructor; [by left|apply H0].
Qed.
Lemma int_str_no_colon n : 58%Z ∉ bytes_of (int_str n).
Proof. intros Hi. pose proof (int_str_digits n) as H. rewrite Forall_forall in H. specialize (H _ Hi). lia. Qed.

Lemma imap_folder_key_ok f k :
  imap_folder_key f = Ok k -> bytes_of k = b64_body (bytes_of f).
Proof.
  unfold imap_folder_key. intros ([] & _ & [= <-])%rbind_ok.
  rewrite b64_stripped by apply bytes_of_range. apply bytes_of_string_of.
  eapply Forall_impl; [apply b64_body_chars, bytes_of_range|]. simpl. lia.
Qed.

Lemma imap_folder_key_inj f1 f2 k :
  imap_folder_key f1 = Ok k -> imap_folder_key f2 = Ok k -> f1 = f2.
Proof.
  intros H1%imap_folder_key_ok H2%imap_folder_key_ok. apply bytes_of_inj.
  apply b64_body_inj; [apply bytes_of_range | apply bytes_of_range | congruence].
Qed.

Lemma imap_folder_key_no_colon f k : imap_folder_key f = Ok k -> 58%Z ∉ bytes_of k.
Proof.
  intros ->%imap_folder_key_ok. intros Hin.
  pose proof (b64_body_chars _ (bytes_of_range f)) as H. rewrite Forall_forall in H.
  by destruct (H _ Hin) as (_ & _ & ?).
Qed.

Lemma imap_source_item_key_inj f1 v1 u1 f2 v2 u2 k :
  imap_source_item_key f1 v1 u1 = Ok k -> imap_source_item_key f2 v2 u2 = Ok k ->
  f1 = f2 /\ v1 = v2 /\ u1 = u2.
Proof.
  unfold imap_source_item_key.
  intros ([] & _ & (k1 & Hk1 & [= <-])%rbind_ok)%rbind_ok
         ([] & _ & (k2 & Hk2 & [= E])%rbind_ok)%rbind_ok.
  apply (f_equal bytes_of) in E. rewrite !bytes_of_app in E. simpl in E.
  apply split_unique in E as [E1 E]; [|by eapply imap_folder_key_no_colon..].
  apply split_unique in E as [E2 E3]; [|apply int_str_no_colon..].
  apply bytes_of_inj in E1, E2, E3. subst.
  repeat split; [by eapply imap_folder_key_inj | by apply int_str_inj | by apply int_str_inj].
Qed.

(** What a key stands for. *)
Inductive remote_identity :=
  | ImapId (folder_raw_name : string) (uidvalidity uid : Z)
  | GmailId (gmail_msgid : string).

Definition identity_of (f : string) (v u : Z) (g : option string) : remote_identity :=
  match g with Some g => GmailId g | None => ImapId f v u end.

Lemma imap_gmail_disjoint f v u g k :
  imap_source_item_key f v u = Ok k -> gmail_source_item_key g = Ok k -> False.
Proof.
  unfold imap_source_item_key, gmail_source_item_key.
  intros ([] & _ & (k1 & _ & [= <-])%rbind_ok)%rbind_ok ([] & _ & [= E])%rbind_ok.
Qed.

(** Keys identify messages: two observations of an account receive the same
    [source_item_key] only when they are the same Gmail message id or the same folder, UIDVALIDITY
    and UID; a Gmail key never equals an IMAP key. *)
Lemma source_item_key_identifies f1 v1 u1 g1 f2 v2 u2 g2 k :
  remote_source_item_key f1 v1 u1 g1 = Ok k -> remote_source_item_key f2 v2 u2 g2 = Ok k ->
  identity_of f1 v1 u1 g1 = identity_of f2 v2 u2 g2.
Proof.
  unfold remote_source_item_key, identity_of. destruct g1, g2; intros H1 H2.
  - revert H1 H2. unfold gmail_source_item_key.
    intros ([] & _ & [= <-])%rbind_ok ([] & _ & [= E])%rbind_ok. change (s0 = s) in E. by rewrite E.
  - by destruct (imap_gmail_disjoint f2 v2 u2 s k).
  - by destruct (imap_gmail_disjoint f1 v1 u1 s k).
  - by destruct (imap_source_item_key_inj _ _ _ _ _ _ _ H1 H2) as (-> & -> & ->).
Qed.

(** The key exists for every folder the server can list and every legal UID. *)
Lemma imap_source_item_key_total f v u :
  f <> ""%string -> (0 <= v)%Z -> (1 <= u)%Z -> exists k, imap_source_item_key f v u = Ok k.
Proof.
  intros Hf Hv Hu. unfold imap_source_item_key, imap_folder_key.
  rewrite (proj2 (Z.ltb_ge v 0)), (proj2 (Z.ltb_ge u 1)) by done. simpl.
  rewrite (eqb_neq _ _ Hf). simpl. eauto.
Qed.

Example flagged_token :
  has_imap_flag (Some "\Seen \FLAGGED"%string) "\Flagged" = true
  /\ has_imap_flag (Some "\Seen X\Flagged"%string) "\Flagged" = false.
Proof. by vm_compute. Qed.
