(* ===== verification/MUtf7.v ===== *)
(** * MUtf7: mailbox names in modified UTF-7

    [encode_modified_utf7] and [decode_modified_utf7] of [infrastructure/fetchers/imap_common.py],
    with the parts of [base64] and of the UTF-16-BE codec they use. Strings are code points. *)

From S2P Require Import Prelude Errors PyText.

Open Scope Z_scope.

(** ** UTF-16-BE *)

(** [str.encode("utf-16-be")] of one character: a surrogate raises [UnicodeEncodeError]. *)
Definition utf16_char (c : Z) : list Z :=
  if c <? 0x10000 then [c / 256; c mod 256]
  else let v := c - 0x10000 in
       let hi := 0xD800 + v / 1024 in
       let lo := 0xDC00 + v mod 1024 in
       [hi / 256; hi mod 256; lo / 256; lo mod 256].
Definition utf16_encode (s : pystr) : result (list Z) :=
  if existsb is_surrogate s then raise ValueError "surrogates not allowed" else Ok (concat (map utf16_char s)).

(** [bytes.decode("utf-16-be")]: [None] is [UnicodeDecodeError]. *)
Fixpoint utf16_decode (l : list Z) : option pystr :=
  match l with
  | [] => Some []
  | [_] => None
  | a :: b :: l =>
      let u := a * 256 + b in
      if (0xD800 <=? u) && (u <=? 0xDBFF) then
        match l with
        | c :: d :: l =>
            let v := c * 256 + d in
            if (0xDC00 <=? v) && (v <=? 0xDFFF)
            then option_map (cons (0x10000 + (u - 0xD800) * 1024 + (v - 0xDC00))) (utf16_decode l)
            else None
        | _ => None
        end
      else if (0xDC00 <=? u) && (u <=? 0xDFFF) then None
      else option_map (cons u) (utf16_decode l)
  end.

(** ** Base64 *)

(** The alphabet, with [','] for ['/'] as modified UTF-7 has it. *)
Definition base64_char (n : Z) : Z :=
  if n <? 26 then 65 + n else if n <? 52 then 71 + n else if n <? 62 then n - 4 else if n =? 62 then 43 else 44.
(** The value of a character; ['/'] has that of [',']. *)
Definition base64_value (c : Z) : option Z :=
  if (65 <=? c) && (c <=? 90) then Some (c - 65)
  else if (97 <=? c) && (c <=? 122) then Some (c - 71)
  else if (48 <=? c) && (c <=? 57) then Some (c + 4)
  else if c =? 43 then Some 62
  else if (c =? 44) || (c =? 47) then Some 63
  else None.

(** [b64encode(raw).rstrip("=").replace("/", ",")] *)
Fixpoint base64_encode (l : list Z) : pystr :=
  match l with
  | [] => []
  | [a] => [base64_char (a / 4); base64_char (a mod 4 * 16)]
  | [a; b] => [base64_char (a / 4); base64_char (a mod 4 * 16 + b / 16); base64_char (b mod 16 * 4)]
  | a :: b :: c :: l =>
      base64_char (a / 4) :: base64_char (a mod 4 * 16 + b / 16) :: base64_char (b mod 16 * 4 + c / 64)
      :: base64_char (c mod 64) :: base64_encode l
  end.

(** The data characters, four at a time; a single one left over is an error. *)
Fixpoint base64_groups (l : list Z) : option (list Z) :=
  match l with
  | [] => Some []
  | [_] => None
  | [a; b] => Some [a * 4 + b / 16]
  | [a; b; c] => Some [a * 4 + b / 16; b mod 16 * 16 + c / 4]
  | a :: b :: c :: d :: l =>
      option_map (fun r => a * 4 + b / 16 :: b mod 16 * 16 + c / 4 :: c mod 4 * 64 + d :: r) (base64_groups l)
  end.
Definition equals_sign : Z := 61.
(** [base64.b64decode(token + padding, validate=True)]: the token may have a part of the padding its data
    asks for. *)
Definition base64_decode (token : pystr) : option (list Z) :=
  let data := rstrip (fun c => c =? equals_sign) token in
  let pads := Z.of_nat (length token) - Z.of_nat (length data) in
  let missing := (- Z.of_nat (length data)) mod 4 in
  if pads <=? missing then
    mapM base64_value data ≫= base64_groups else None.

(** ** Modified UTF-7 *)

Definition ampersand : Z := 38.
Definition hyphen : Z := 45.
(** A character that stands for itself. *)
Definition is_direct (c : Z) : bool := (0x20 <=? c) && (c <=? 0x7E) && negb (c =? ampersand).

(** [flush_non_ascii] *)
Definition flush_non_ascii (non_ascii : pystr) : result pystr :=
  match non_ascii with
  | [] => Ok []
  | _ => let? raw := utf16_encode non_ascii in
         Ok (ampersand :: base64_encode raw ++ [hyphen])%list
  end.
(** The loop over the characters. *)
Fixpoint encode_loop (value non_ascii : pystr) : result pystr :=
  match value with
  | [] => flush_non_ascii non_ascii
  | c :: value =>
      if is_direct c then
        let? run := flush_non_ascii non_ascii in
        let? rest := encode_loop value [] in
        Ok (run ++ c :: rest)%list
      else if c =? ampersand then
        let? run := flush_non_ascii non_ascii in
        let? rest := encode_loop value [] in
        Ok (run ++ ampersand :: hyphen :: rest)%list
      else encode_loop value (non_ascii ++ [c])%list
  end.
Definition encode_modified_utf7 (value : pystr) : result pystr := encode_loop value [].

(** [value.find(c)]: what is before and after it. *)
Fixpoint split_at (c : Z) (s : pystr) : option (pystr * pystr) :=
  match s with
  | [] => None
  | x :: s => if x =? c then Some ([], s) else option_map (fun p => (x :: p.1, p.2)) (split_at c s)
  end.

(** What a shift sequence stands for. *)
Definition decode_token (token : pystr) : result pystr :=
  match token with
  | [] => Ok [ampersand]
  | _ => match base64_decode token ≫= utf16_decode with
         | Some s => Ok s
         | None => raise ValueError "invalid modified UTF-7 shift sequence"
         end
  end.
(** The loop; every round but the last drops an ampersand, so that the length of the name is enough. *)
Fixpoint decode_loop (fuel : nat) (value : pystr) : result pystr :=
  match split_at ampersand value, fuel with
  | None, _ => Ok value
  | Some _, O => raise ValueError "fuel"
  | Some (before, rest), S fuel =>
      match split_at hyphen rest with
      | None => raise ValueError "unterminated modified UTF-7 shift sequence"
      | Some (token, rest) =>
          let? piece := decode_token token in
          let? rest := decode_loop fuel rest in
          Ok (before ++ piece ++ rest)%list
      end
  end.
Definition decode_modified_utf7 (value : pystr) : result pystr := decode_loop (length value) value.

(** ** Lemmas *)

(** A Unicode character that can be encoded. *)
Definition scalar (c : Z) : Prop := 0 <= c < 0x110000 /\ is_surrogate c = false.
Definition is_byte (z : Z) : Prop := 0 <= z < 256.

Lemma utf16_char_bytes c : scalar c -> Forall is_byte (utf16_char c).
Proof.
  intros [Hc _]. unfold utf16_char. destruct (Z.ltb_spec c 0x10000); cbv zeta;
    repeat constructor; unfold is_byte; Z.to_euclidean_division_equations; lia.
Qed.
Lemma utf16_decode_char c l : scalar c -> utf16_decode (utf16_char c ++ l)%list = option_map (cons c) (utf16_decode l).
Proof.
  intros [Hc Hs]. unfold utf16_char. unfold is_surrogate in Hs.
  destruct (Z.ltb_spec c 0x10000) as [Hlt|Hge]; cbv zeta; cbn [app utf16_decode].
  - assert (c / 256 * 256 + c mod 256 = c) as -> by (Z.to_euclidean_division_equations; lia).
    destruct ((0xD800 <=? c) && (c <=? 0xDBFF)) eqn:E1; [lia|]. destruct ((0xDC00 <=? c) && (c <=? 0xDFFF)) eqn:E2; [lia|]. done.
  - set (v := c - 0x10000). assert (0 <= v < 0x100000) as Hv by lia.
    set (hi := 0xD800 + v / 1024). set (lo := 0xDC00 + v mod 1024).
    assert (0xD800 <= hi <= 0xDBFF /\ 0xDC00 <= lo <= 0xDFFF) as [Hhi Hlo] by (subst hi lo; Z.to_euclidean_division_equations; lia).
    assert (forall x, x / 256 * 256 + x mod 256 = x) as Hx by (intros; Z.to_euclidean_division_equations; lia).
    rewrite !Hx. assert ((0xD800 <=? hi) && (hi <=? 0xDBFF) = true) as -> by lia.
    assert ((0xDC00 <=? lo) && (lo <=? 0xDFFF) = true) as -> by lia.
    assert (0x10000 + (hi - 0xD800) * 1024 + (lo - 0xDC00) = c) as -> by (subst hi lo v; Z.to_euclidean_division_equations; lia). done.
Qed.
Lemma utf16_roundtrip s : Forall scalar s -> utf16_decode (concat (map utf16_char s)) = Some s.
Proof.
  induction 1 as [|c s Hc Hs IH]; [done|]. cbn [map concat]. by rewrite utf16_decode_char, IH.
Qed.
Lemma utf16_encode_ok s : Forall scalar s -> utf16_encode s = Ok (concat (map utf16_char s)).
Proof.
  intros H. unfold utf16_encode. assert (existsb is_surrogate s = false) as ->; [|done].
  induction H as [|c s [_ Hc] _ IH]; [done|]. cbn. by rewrite Hc, IH.
Qed.
Lemma utf16_bytes s : Forall scalar s -> Forall is_byte (concat (map utf16_char s)).
Proof. induction 1 as [|c s Hc Hs IH]; [constructor|]. cbn. apply Forall_app. split; [by apply utf16_char_bytes|done]. Qed.

Lemma base64_value_char n : 0 <= n < 64 -> base64_value (base64_char n) = Some n.
Proof.
  intros H. assert (forallb (fun n => match base64_value (base64_char n) with Some m => m =? n | None => false end) (seqZ 0 64) = true) as Ha
    by (vm_compute; reflexivity).
  rewrite forallb_forall in Ha. specialize (Ha n (proj1 (list_elem_of_In _ _) (proj2 (elem_of_seqZ 0 64 n) ltac:(lia)))).
  destruct (base64_value _) as [m|]; [|done]. f_equal. lia.
Qed.
Lemma base64_char_data n : 0 <= n < 64 -> base64_char n <> equals_sign /\ base64_char n <> hyphen.
Proof.
  intros H. assert (forallb (fun n => negb (base64_char n =? equals_sign) && negb (base64_char n =? hyphen)) (seqZ 0 64) = true) as Ha by (vm_compute; reflexivity).
  rewrite forallb_forall in Ha. specialize (Ha n (proj1 (list_elem_of_In _ _) (proj2 (elem_of_seqZ 0 64 n) ltac:(lia)))). lia.
Qed.

(** The six-bit values [base64_encode] writes. *)
Fixpoint sextets (l : list Z) : list Z :=
  match l with
  | [] => []
  | [a] => [a / 4; a mod 4 * 16]
  | [a; b] => [a / 4; a mod 4 * 16 + b / 16; b mod 16 * 4]
  | a :: b :: c :: l => a / 4 :: a mod 4 * 16 + b / 16 :: b mod 16 * 4 + c / 64 :: c mod 64 :: sextets l
  end.
Lemma base64_ind3 {A} (P : list A -> Prop) : P [] -> (forall a, P [a]) -> (forall a b, P [a; b]) ->
  (forall a b c l, P l -> P (a :: b :: c :: l)) -> forall l, P l.
Proof.
  intros H0 H1 H2 H3. fix IH 1. intros [|a [|b [|c l]]]; [exact H0|apply H1|apply H2|]. apply H3, IH.
Qed.
Lemma base64_encode_sextets l : base64_encode l = map base64_char (sextets l).
Proof. induction l as [|a|a b|a b c l IH] using base64_ind3; [done..|]. cbn. by rewrite IH. Qed.
Lemma sextets_range l : Forall is_byte l -> Forall (fun n => 0 <= n < 64) (sextets l).
Proof.
  induction l as [|a|a b|a b c l IH] using base64_ind3; intros H; cbn [sextets];
    repeat match goal with H : Forall _ (_ :: _) |- _ => apply Forall_cons in H as [? H] end; unfold is_byte in *;
    repeat (apply Forall_cons; split; [Z.to_euclidean_division_equations; lia|]); [constructor..|by apply IH].
Qed.
Lemma base64_groups_sextets l : Forall is_byte l -> base64_groups (sextets l) = Some l.
Proof.
  induction l as [|a|a b|a b c l IH] using base64_ind3; intros H; cbn [sextets]; [done|..];
    repeat match goal with H : Forall _ (_ :: _) |- _ => apply Forall_cons in H as [? H] end; unfold is_byte in *; cbn [base64_groups].
  - do 2 f_equal. Z.to_euclidean_division_equations; lia.
  - f_equal. f_equal; [|f_equal]; Z.to_euclidean_division_equations; lia.
  - rewrite IH by done. cbn [option_map]. f_equal. f_equal; [|f_equal; [|f_equal]]; Z.to_euclidean_division_equations; lia.
Qed.
Lemma sextets_mapM l : Forall (fun n => 0 <= n < 64) l -> mapM base64_value (map base64_char l) = Some l.
Proof.
  induction 1 as [|n l Hn Hl IH]; [done|]. cbn [map mapM]. rewrite base64_value_char by done. cbn. rewrite IH. done.
Qed.
Lemma base64_encode_data l : Forall is_byte l -> Forall (fun c => c <> equals_sign /\ c <> hyphen) (base64_encode l).
Proof.
  intros H. rewrite base64_encode_sextets. apply Forall_map. eapply Forall_impl; [by apply sextets_range|].
  intros n. apply base64_char_data.
Qed.
Lemma rstrip_none drop s : Forall (fun c => drop c = false) s -> rstrip drop s = s.
Proof. induction 1 as [|c s Hc _ IH]; [done|]. cbn [rstrip]. rewrite IH. destruct s; [by rewrite Hc|done]. Qed.
Lemma base64_roundtrip l : Forall is_byte l -> base64_decode (base64_encode l) = Some l.
Proof.
  intros H. unfold base64_decode. rewrite rstrip_none.
  2:{ eapply Forall_impl; [by apply base64_encode_data|]. intros c [Hc _]. lia. }
  cbv zeta. rewrite Z.sub_diag. assert (forall n, (0 <=? (- n) mod 4) = true) as -> by (intros; Z.to_euclidean_division_equations; lia).
  rewrite base64_encode_sextets, sextets_mapM by (by apply sextets_range). by apply base64_groups_sextets.
Qed.

(** ** Decoding what was encoded *)

Lemma split_at_app c s t : Forall (fun x => x <> c) s -> split_at c (s ++ c :: t) = Some (s, t).
Proof.
  induction 1 as [|x s Hx _ IH]; cbn [app split_at]; [by rewrite Z.eqb_refl|].
  destruct (Z.eqb_spec x c); [done|]. by rewrite IH.
Qed.
Lemma split_at_none c s : Forall (fun x => x <> c) s -> split_at c s = None.
Proof. induction 1 as [|x s Hx _ IH]; [done|]. cbn. destruct (Z.eqb_spec x c); [done|]. by rewrite IH. Qed.
Lemma split_at_some c s a b : split_at c s = Some (a, b) -> s = (a ++ c :: b)%list.
Proof.
  revert a b. induction s as [|x s IH]; intros a b H; [done|]. cbn in H. destruct (Z.eqb_spec x c) as [->|].
  - by injection H as <- <-.
  - destruct (split_at c s) as [[a' b']|]; [|done]. injection H as <- <-. cbn. f_equal. by apply IH.
Qed.

(** More fuel than the length changes nothing. *)
Lemma decode_loop_fuel n : forall m s, (length s <= n)%nat -> (length s <= m)%nat -> decode_loop n s = decode_loop m s.
Proof.
  induction n as [|n IH]; intros m s Hn Hm.
  - destruct s; [|cbn in Hn; lia]. by destruct m.
  - destruct m as [|m]; [destruct s; [done|cbn in Hm; lia]|]. cbn [decode_loop].
    destruct (split_at ampersand s) as [[a b]|] eqn:E; [|done]. apply split_at_some in E as ->.
    destruct (split_at hyphen b) as [[t r]|] eqn:E; [|done]. apply split_at_some in E as ->.
    rewrite !length_app in *. cbn [length] in *. rewrite !length_app in *. cbn [length] in *.
    rewrite (IH m r) by lia. done.
Qed.
Lemma decode_direct s t : Forall (fun c => c <> ampersand) s ->
  decode_modified_utf7 (s ++ t) = (let? r := decode_modified_utf7 t in Ok (s ++ r)%list).
Proof.
  intros Hs. unfold decode_modified_utf7. set (n := length (s ++ t)).
  rewrite <- (decode_loop_fuel n (length t) t) by (subst n; rewrite ?length_app; lia). clearbody n.
  assert (forall p, split_at ampersand t = p -> split_at ampersand (s ++ t) = option_map (fun q => (s ++ q.1, q.2)%list) p) as Hsp.
  { intros p <-. induction Hs as [|c s Hc _ IH]; cbn [app split_at]; [by destruct (split_at _ t) as [[]|]|].
    destruct (Z.eqb_spec c ampersand); [done|]. rewrite IH. by destruct (split_at _ t). }
  destruct n as [|n]; cbn [decode_loop]; rewrite (Hsp _ eq_refl); destruct (split_at ampersand t) as [[a b]|]; cbn; try done.
  destruct (split_at hyphen b) as [[tok r]|]; cbn; [|done]. destruct (decode_token tok); cbn; [|done].
  destruct (decode_loop n r); cbn; [|done]. by rewrite <- app_assoc.
Qed.
Lemma decode_shift token t piece : Forall (fun c => c <> hyphen) token -> decode_token token = Ok piece ->
  decode_modified_utf7 (ampersand :: token ++ hyphen :: t) = (let? r := decode_modified_utf7 t in Ok (piece ++ r)%list).
Proof.
  intros Ht Hp. unfold decode_modified_utf7. cbn [length decode_loop split_at]. rewrite Z.eqb_refl, split_at_app by done.
  rewrite Hp. cbn [rbind]. rewrite (decode_loop_fuel (length (token ++ hyphen :: t)) (length t)); [done|rewrite length_app; cbn; lia|lia].
Qed.

(** ** The round trip *)

Definition printable (c : Z) : Prop := 0x20 <= c <= 0x7E.
Lemma base64_char_printable n : 0 <= n < 64 -> printable (base64_char n).
Proof.
  intros H. unfold printable, base64_char. destruct (Z.ltb_spec n 26); [lia|]. destruct (Z.ltb_spec n 52); [lia|].
  destruct (Z.ltb_spec n 62); [lia|]. destruct (Z.eqb_spec n 62); lia.
Qed.
Lemma utf16_char_nonempty c : utf16_char c <> [].
Proof. unfold utf16_char. by destruct (_ <? _). Qed.

(** What a run of characters that are encoded is turned into. *)
Lemma flush_spec s : Forall scalar s -> exists run, flush_non_ascii s = Ok run /\ Forall printable run
  /\ forall t, decode_modified_utf7 (run ++ t) = (let? r := decode_modified_utf7 t in Ok (s ++ r)%list).
Proof.
  intros Hs. destruct s as [|c s].
  { exists []. split; [done|]. split; [constructor|]. intros t. cbn [app]. by destruct (decode_modified_utf7 t). }
  pose proof (utf16_bytes _ Hs) as Hb. unfold flush_non_ascii. rewrite utf16_encode_ok by done. cbn [rbind].
  set (raw := concat (map utf16_char (c :: s))) in *. eexists. split; [reflexivity|]. split.
  - constructor; [unfold printable, ampersand; lia|]. apply Forall_app. split; [|repeat constructor; unfold hyphen; lia].
    rewrite base64_encode_sextets. apply Forall_map. eapply Forall_impl; [by apply sextets_range|]. intros n. apply base64_char_printable.
  - intros t. cbn [app]. rewrite <- app_assoc. apply (decode_shift (base64_encode raw) t (c :: s)).
    + eapply Forall_impl; [by apply base64_encode_data|]. by intros x [_ Hx].
    + assert (base64_encode raw <> []) as Hne.
      { intros E. pose proof (base64_roundtrip raw Hb) as Hr. rewrite E in Hr. injection Hr as Hr. subst raw. cbn [map concat] in Hr.
        symmetry in Hr. apply app_eq_nil in Hr as [Hr _]. by apply utf16_char_nonempty in Hr. }
      unfold decode_token. rewrite base64_roundtrip by done. cbn [mbind option_bind]. subst raw. rewrite utf16_roundtrip by done.
      by destruct (base64_encode _).
Qed.
Lemma encode_loop_spec value : forall run, Forall scalar run -> Forall scalar value ->
  exists e, encode_loop value run = Ok e /\ Forall printable e /\ decode_modified_utf7 e = Ok (run ++ value)%list.
Proof.
  induction value as [|c value IH]; intros run Hr Hv; cbn [encode_loop].
  - destruct (flush_spec run Hr) as (e & E & Hp & Hd). exists e. split; [done|]. split; [done|].
    specialize (Hd []). by rewrite app_nil_r in Hd.
  - apply Forall_cons in Hv as [Hc Hv]. destruct (is_direct c) eqn:Edir; [|destruct (Z.eqb_spec c ampersand) as [->|Hne]].
    + destruct (flush_spec run Hr) as (e & -> & Hp & Hd). destruct (IH [] ltac:(constructor) Hv) as (r & -> & Hpr & Hdr).
      cbn [rbind]. eexists. split; [reflexivity|]. unfold is_direct in Edir. split.
      { apply Forall_app. split; [done|]. constructor; [unfold printable; lia|done]. }
      rewrite Hd. change (c :: r) with ([c] ++ r)%list. rewrite decode_direct by (constructor; [lia|constructor]).
      by rewrite Hdr.
    + destruct (flush_spec run Hr) as (e & -> & Hp & Hd). destruct (IH [] ltac:(constructor) Hv) as (r & -> & Hpr & Hdr).
      cbn [rbind]. eexists. split; [reflexivity|]. split.
      { apply Forall_app. split; [done|]. repeat (constructor; [unfold printable, ampersand, hyphen; lia|]). done. }
      rewrite Hd. change (ampersand :: hyphen :: r) with (ampersand :: [] ++ hyphen :: r)%list.
      rewrite (decode_shift [] r [ampersand]) by done. by rewrite Hdr.
    + destruct (IH (run ++ [c])%list) as (e & E & Hp & Hd); [apply Forall_app; split; [done|by apply Forall_singleton]|done|].
      exists e. split; [done|]. split; [done|]. rewrite Hd. by rewrite <- app_assoc.
Qed.

(** C40. A mailbox name survives modified UTF-7: every name of Unicode characters is encoded, as printable
    ASCII characters only, and decoding gives the name back. *)
Theorem mutf7_roundtrip s : Forall scalar s ->
  exists e, encode_modified_utf7 s = Ok e /\ Forall printable e /\ decode_modified_utf7 e = Ok s.
Proof. intros Hs. by apply (encode_loop_spec s []). Qed.

(** ** Examples *)

(** The example of RFC 3501, and characters outside the basic plane. *)
Lemma mutf7_rfc3501 : encode_modified_utf7 (lit "~peter/mail/" ++ [0x53F0; 0x5317] ++ lit "/" ++ [0x65E5; 0x672C; 0x8A9E])
  = Ok (lit "~peter/mail/&U,BTFw-/&ZeVnLIqe-").
Proof. vm_compute. reflexivity. Qed.
Definition sample_name : pystr := lit "A&" ++ [0x30B4; 0x1F4E7] ++ lit " x".
Lemma mutf7_roundtrip_witness : exists e, encode_modified_utf7 sample_name = Ok e /\ Forall printable e
  /\ decode_modified_utf7 e = Ok sample_name.
Proof.
  apply mutf7_roundtrip. let l := eval vm_compute in sample_name in change (Forall scalar l).
  repeat (apply Forall_cons; split; [split; [lia|reflexivity]|]). apply Forall_nil. exact I.
Defined.
Lemma mutf7_invalid : decode_modified_utf7 (lit "&2AA-") = raise ValueError "invalid modified UTF-7 shift sequence"
  /\ decode_modified_utf7 (lit "a&b") = raise ValueError "unterminated modified UTF-7 shift sequence".
Proof. vm_compute. split; reflexivity. Qed.
Close Scope Z_scope.
