(* ===== verification/ImapText.v ===== *)
(** * ImapText: the responses of an IMAP server

    The parsers of [infrastructure/fetchers/imap_common.py] and the text helpers of
    [infrastructure/fetchers/generic_imap.py]: [LIST] and [FETCH] responses, numbers in response codes,
    and the translation of errors. Text is code points. A regular expression of the source that looks for
    a keyword is [search] with a matcher for one position. The date parser and the header parser of the
    [email] package are parameters. *)

From S2P Require Import Prelude Errors PyText PyTime Identity MUtf7.

Open Scope Z_scope.

(** ** Characters and keywords *)

Definition space : Z := 32.
Definition quote : Z := 34.
Definition backslash : Z := 92.
Definition paren_open : Z := 40.
Definition paren_close : Z := 41.

Definition upper_char (c : Z) : Z := if (97 <=? c) && (c <=? 122) then c - 32 else c.
(** [str.upper] of ASCII text. *)
Definition upper (s : pystr) : pystr := map upper_char s.
Definition is_digit (c : Z) : bool := (48 <=? c) && (c <=? 57).
(** A character [\w] of ASCII text. *)
Definition is_word (c : Z) : bool :=
  is_digit c || (65 <=? c) && (c <=? 90) || (97 <=? c) && (c <=? 122) || (c =? 95).
Definition opt_word (o : option Z) : bool := match o with Some c => is_word c | None => false end.

(** The longest prefix whose characters satisfy [p], and the rest. *)
Fixpoint span (p : Z -> bool) (s : pystr) : pystr * pystr :=
  match s with
  | [] => ([], [])
  | c :: s' => if p c then (c :: (span p s').1, (span p s').2) else ([], s)
  end.
Definition skip_spaces (s : pystr) : pystr := (span is_space s).2.
(** The rest after a keyword, in any case. *)
Fixpoint strip_keyword (kw s : pystr) : option pystr :=
  match kw, s with
  | [], _ => Some s
  | k :: kw, c :: s => if upper_char c =? upper_char k then strip_keyword kw s else None
  | _ :: _, [] => None
  end.
(** [pattern.search]: the leftmost position at which [m] matches; [m] sees the character before it. *)
Fixpoint search {A} (m : option Z -> pystr -> option A) (before : option Z) (s : pystr) : option A :=
  match m before s with
  | Some a => Some a
  | None => match s with [] => None | c :: s => search m (Some c) s end
  end.
(** [\bKEYWORD] *)
Definition keyword_at (kw : pystr) (before : option Z) (s : pystr) : option pystr :=
  if opt_word before then None else strip_keyword kw s.
(** [\bKEYWORD\b] *)
Definition word_at (kw : pystr) (before : option Z) (s : pystr) : option unit :=
  match keyword_at kw before s with
  | Some rest => if opt_word (head rest) then None else Some tt
  | None => None
  end.

(** [int(text)] of digits. *)
Definition int_of_digits (s : pystr) : Z := fold_left (fun n c => n * 10 + (c - 48)) s 0.
(** [\bKEYWORD\s+(\d+)] *)
Definition number_at (kw : pystr) (before : option Z) (s : pystr) : option pystr :=
  match keyword_at kw before s with
  | Some rest =>
      let digits := (span is_digit (skip_spaces rest)).1 in
      if bool_decide ((span is_space rest).1 = []) || bool_decide (digits = []) then None else Some digits
  | None => None
  end.
Definition find_number (kw : string) (s : pystr) : option pystr := search (number_at (lit kw)) None s.
(** The keyword, spaces, and a list in parentheses: the characters up to the closing one; with [strict] the
    list holds no opening one either. *)
Definition list_at (strict : bool) (kw : pystr) (before : option Z) (s : pystr) : option pystr :=
  match keyword_at kw before s with
  | Some rest =>
      match skip_spaces rest with
      | c :: rest =>
          if c =? paren_open then
            let '(inside, rest) := span (fun c => negb (c =? paren_close) && negb (strict && (c =? paren_open))) rest in
            if match rest with d :: _ => d =? paren_close | [] => false end then Some inside else None
          else None
      | [] => None
      end
  | None => None
  end.
Definition find_list (strict : bool) (kw : string) (s : pystr) : option pystr := search (list_at strict (lit kw)) None s.
(** [\bINTERNALDATE\s+QUOTE([^QUOTES]+)QUOTE] *)
Definition is_quote (c : Z) : bool := (c =? quote) || (c =? 39).
Definition date_at (before : option Z) (s : pystr) : option pystr :=
  match keyword_at (lit "INTERNALDATE") before s with
  | Some rest =>
      match skip_spaces rest with
      | c :: rest' =>
          let '(inside, after) := span (fun c => negb (is_quote c)) rest' in
          if is_quote c && negb (bool_decide ((span is_space rest).1 = [])) && negb (bool_decide (inside = []))
             && negb (bool_decide (after = [])) then Some inside else None
      | [] => None
      end
  | None => None
  end.

(** ** [LIST] *)

(** The folder of a [LIST] response. *)
Record ListedFolder := Listed {
  lf_raw_name : pystr;
  lf_display_name : pystr;
  lf_special_use : list pystr;
  lf_delimiter : option pystr;
}.

(** The rest of a quoted token. *)
Fixpoint read_quoted (s : pystr) : option (pystr * pystr) :=
  match s with
  | [] => None
  | c :: s =>
      if c =? quote then Some ([], s)
      else if c =? backslash then
        match s with
        | [] => None
        | d :: s => option_map (fun p => (d :: p.1, p.2)) (read_quoted s)
        end
      else option_map (fun p => (c :: p.1, p.2)) (read_quoted s)
  end.
(** [_read_imap_token]: the token and what follows. *)
Definition read_imap_token (s : pystr) : result (pystr * pystr) :=
  match skip_spaces s with
  | [] => raise PermanentError "IMAP response ended before a token"
  | c :: rest =>
      if c =? quote then
        match read_quoted rest with
        | Some p => Ok p
        | None => raise PermanentError "unterminated quoted IMAP token"
        end
      else Ok (span (fun c => negb (is_space c)) (c :: rest))
  end.
(** [_LIST_PREFIX.match] *)
Definition list_prefix (s : pystr) : option pystr :=
  match skip_spaces s with
  | c :: s =>
      if c =? 42 then
        match (span is_space s).1, strip_keyword (lit "LIST") (skip_spaces s), strip_keyword (lit "LSUB") (skip_spaces s) with
        | _ :: _, Some rest, _ | _ :: _, None, Some rest =>
            if bool_decide ((span is_space rest).1 = []) then None else Some (skip_spaces rest)
        | _, _, _ => None
        end
      else None
  | [] => None
  end.
(** [parse_list_response] of a decoded response. *)
Definition parse_list_text (text : pystr) : result ListedFolder :=
  let start := match list_prefix text with
               | Some rest => Some rest
               | None => match skip_spaces text with
                         | c :: rest => if c =? paren_open then Some (c :: rest) else None
                         | [] => None
                         end
               end in
  match start with
  | None => raise PermanentError "invalid IMAP LIST response"
  | Some [] => raise PermanentError "IMAP LIST response has no attribute list"
  | Some (c :: rest) =>
      check (c =? paren_open) PermanentError "IMAP LIST response has no attribute list" ;?
      match split_at paren_close rest with
      | None => raise PermanentError "IMAP LIST response has an unterminated attribute list"
      | Some (attributes, rest) =>
          let? p := read_imap_token rest in
          let? q := read_imap_token p.2 in
          check (negb (bool_decide (q.1 = []))) PermanentError "IMAP LIST response has an empty mailbox name" ;?
          match decode_modified_utf7 q.1 with
          | Err _ => raise PermanentError "IMAP LIST response has an invalid mailbox name"
          | Ok display =>
              Ok (Listed q.1 display (split_ws attributes) (if bool_decide (upper p.1 = lit "NIL") then None else Some p.1))
          end
      end
  end.

(** An item of the data [imaplib] returns: bytes, a pair for a response with a literal, or [None]. *)
Inductive item :=
  | Raw (bytes : list Z)
  | Pair (metadata literal : list Z)
  | Nothing.
Definition ascii_text (bytes : list Z) : option pystr :=
  if forallb (fun b => b <? 128) bytes then Some bytes else None.
(** [bytes.decode("ascii", errors="replace")] *)
Definition replaced (bytes : list Z) : pystr := map (fun b => if b <? 128 then b else 0xFFFD) bytes.
(** [bytes.decode("utf-8", errors="replace")]: each longest prefix of a character that is not one becomes
    one replacement character. *)
Fixpoint utf8_replaced (fuel : nat) (l : list Z) : pystr :=
  match fuel, l with
  | S fuel, b0 :: l =>
      let within lo hi b := (lo <=? b) && (b <=? hi) in
      let second lo hi l := match l with b :: _ => within lo hi b | [] => false end in
      let next (n : nat) (first lo hi : Z) :=
        if second lo hi l then
          let tail := (span (within 0x80 0xBF) (take n l)).1 in
          if bool_decide (length tail = n)
          then fold_left (fun c b => c * 64 + (b - 0x80)) tail first :: utf8_replaced fuel (drop n l)
          else 0xFFFD :: utf8_replaced fuel (drop (length tail) l)
        else 0xFFFD :: utf8_replaced fuel l in
      if b0 <? 0x80 then b0 :: utf8_replaced fuel l
      else if within 0xC2 0xDF b0 then next 1%nat (b0 - 0xC0) 0x80 0xBF
      else if b0 =? 0xE0 then next 2%nat (b0 - 0xE0) 0xA0 0xBF
      else if b0 =? 0xED then next 2%nat (b0 - 0xE0) 0x80 0x9F
      else if within 0xE1 0xEF b0 then next 2%nat (b0 - 0xE0) 0x80 0xBF
      else if b0 =? 0xF0 then next 3%nat (b0 - 0xF0) 0x90 0xBF
      else if b0 =? 0xF4 then next 3%nat (b0 - 0xF0) 0x80 0x8F
      else if within 0xF1 0xF3 b0 then next 3%nat (b0 - 0xF0) 0x80 0xBF
      else 0xFFFD :: utf8_replaced fuel l
  | _, _ => []
  end.
(** The text of an item. Only the items of a [FETCH] or [LIST] response can be pairs, and these are not
    read as text. *)
Definition item_text (i : item) : pystr := match i with Raw b => replaced b | _ => lit "None" end.

Definition parse_list_response (bytes : list Z) : result ListedFolder :=
  match ascii_text bytes with
  | None => raise PermanentError "IMAP response is not ASCII-compatible"
  | Some text => parse_list_text text
  end.
Fixpoint parse_list_responses (items : list item) : result (list ListedFolder) :=
  match items with
  | [] => Ok []
  | Raw b :: items =>
      let? f := parse_list_response b in
      let? l := parse_list_responses items in
      Ok (f :: l)
  | _ :: items => parse_list_responses items
  end.

(** ** [FETCH] *)

Record FetchedRef := Fetched {
  fr_uid : Z;
  fr_message_id : option pystr;
  fr_internal_date : option datetime;
  fr_size_bytes : option Z;
  fr_flags : list pystr;
  fr_gmail_msgid : option pystr;
  fr_gmail_thrid : option pystr;
  fr_gmail_labels : option (list pystr);
}.

(** [_IMAP_STRING_PATTERN]: a quoted string as it is written, when it is closed. *)
Fixpoint quoted_string (s : pystr) : option (pystr * pystr) :=
  match s with
  | [] => None
  | c :: s =>
      if c =? quote then Some ([], s)
      else if c =? backslash then
        match s with
        | [] => None
        | d :: s => if d =? 10 then None else option_map (fun p => (c :: d :: p.1, p.2)) (quoted_string s)
        end
      else option_map (fun p => (c :: p.1, p.2)) (quoted_string s)
  end.
(** [re.sub] that drops the backslash of an escape. *)
Fixpoint unescape (s : pystr) : pystr :=
  match s with
  | [] => []
  | c :: s => if c =? backslash then match s with
                                     | d :: s' => if d =? 10 then c :: unescape s else d :: unescape s'
                                     | [] => [c]
                                     end
              else c :: unescape s
  end.
Definition atom_char (c : Z) : bool := negb (is_space c || (c =? paren_open) || (c =? paren_close)).
(** [finditer]; the length of the text is enough fuel. *)
Fixpoint imap_strings (fuel : nat) (s : pystr) : list pystr :=
  match fuel, s with
  | S fuel, c :: s' =>
      match (if c =? quote then quoted_string s' else None) with
      | Some (inside, rest) => unescape inside :: imap_strings fuel rest
      | None => if atom_char c then let '(a, rest) := span atom_char s in a :: imap_strings fuel rest
                else imap_strings fuel s'
      end
  | _, _ => []
  end.
Fixpoint decode_labels (l : list pystr) : result (list pystr) :=
  match l with
  | [] => Ok []
  | x :: l => let? y := decode_modified_utf7 x in
              let? l := decode_labels l in
              Ok (y :: l)
  end.

(** [str(int(digits))] *)
Definition decimal (digits : pystr) : pystr := bytes_of (int_str (int_of_digits digits)).

Section Fetch.
(** [parsedate_to_datetime] with the normalization to UTC ([None]: it raises), and the [Message-ID] of a
    header block. *)
Context (parse_date : pystr -> option datetime) (message_id_of : list Z -> option pystr).

Definition parse_internaldate (value : pystr) : result datetime :=
  match parse_date value with
  | Some t => Ok t
  | None => raise PermanentError "invalid IMAP INTERNALDATE"
  end.
(** [_message_id_from_headers] *)
Definition message_id_from_headers (headers : option (list Z)) : option pystr :=
  match headers with
  | None | Some [] => None
  | Some h => message_id_of h
  end.
(** [_fetch_parts] *)
Definition fetch_parts (i : item) : result (list Z * option (list Z)) :=
  match i with
  | Raw b => Ok (b, None)
  | Pair m l => Ok (m, Some l)
  | Nothing => raise PermanentError "unsupported IMAP FETCH response shape"
  end.
Definition parse_fetch_response (i : item) : result FetchedRef :=
  let? parts := fetch_parts i in
  let text := replaced parts.1 in
  match find_number "UID" text with
  | None => raise PermanentError "IMAP FETCH response has no UID"
  | Some uid =>
      let? date := match search date_at None text with
                   | Some d => let? t := parse_internaldate d in Ok (Some t)
                   | None => Ok None
                   end in
      let? labels := match find_list false "X-GM-LABELS" text with
                     | None => Ok None
                     | Some l => match decode_labels (imap_strings (length l) l) with
                                 | Ok l => Ok (Some l)
                                 | Err _ => raise PermanentError "IMAP FETCH response has invalid Gmail label encoding"
                                 end
                     end in
      Ok (Fetched (int_of_digits uid) (message_id_from_headers parts.2) date
            (option_map int_of_digits (find_number "RFC822.SIZE" text))
            (match find_list false "FLAGS" text with Some l => split_ws l | None => [] end)
            (option_map decimal (find_number "X-GM-MSGID" text)) (option_map decimal (find_number "X-GM-THRID" text))
            labels)
  end.

(** [_IMAP_FLAG_ATOM_PATTERN] *)
Definition flag_char (c : Z) : bool :=
  negb ((c <=? 32) || existsb (Z.eqb c) [40; 123; 37; 42; 34; 92; 93]).
Definition valid_flag (token : pystr) : bool :=
  let atom := match token with c :: rest => if c =? backslash then rest else token | [] => [] end in
  negb (bool_decide (atom = [])) && forallb flag_char atom.
(** [parse_flags_fetch_response]: [None] for a UID that was not asked for. *)
Definition parse_flags_fetch_response (i : item) (requested : list Z) : result (option FetchedRef) :=
  let? parts := fetch_parts i in
  let text := replaced parts.1 in
  match find_number "UID" text with
  | None => raise PermanentError "IMAP FLAGS FETCH response has no UID"
  | Some uid =>
      if negb (mem (int_of_digits uid) requested) then Ok None else
      match find_list true "FLAGS" text with
      | None => raise PermanentError "IMAP FLAGS FETCH response has no valid FLAGS item"
      | Some flags =>
          check (forallb valid_flag (split_ws flags)) PermanentError "IMAP FLAGS FETCH response has an invalid flag token" ;?
          let? r := parse_fetch_response i in
          Ok (Some r)
      end
  end.
End Fetch.
