(* ===== verification/Retry.v ===== *)
(** * Retry: bounded retries of transient failures

    [usecases/retry.py]. The retried call runs in an arbitrary state [S]; the random jitter, the
    interruptible wait and the cancellation token are operations of that state, passed as a record
    (they stand for [random.uniform], [Event.wait] and [CancelToken]). Delays are rationals. *)

From S2P Require Import Prelude Errors.
From Stdlib Require Import QArith.

(** [CancelToken.raise_if_cancelled] over a state that carries the token. *)
Definition raise_if_cancelled {S} (is_cancelled : S -> bool) : M S unit :=
  fun s => if is_cancelled s then (raise OperationCancelledError "operation cancelled", s)
           else (Ok tt, s).

Record retry_env (S : Type) := RetryEnv {
  is_cancelled : S -> bool;             (* the token's event *)
  uniform : Q -> Q -> M S Q;            (* random.uniform(a, b) *)
  wait : Q -> M S bool;                 (* wait_event.wait(delay): was the event set? *)
}.
Arguments is_cancelled {S}.
Arguments uniform {S}.
Arguments wait {S}.

Section Retry.
Context {S A : Type} (env : retry_env S).
Context (fn : M S A).
Context (attempts : nat) (base_delay rate_limit_base_delay : Q).
Context (has_cancel : bool).          (* cancel is not None *)

(** [cancel.raise_if_cancelled()] when a token was given. *)
Definition check_cancel : M S unit :=
  if has_cancel then raise_if_cancelled (is_cancelled env) else mret tt.

Definition backoff (retry_number : nat) (error : exn) : Q :=
  let retry_base :=
    if isinstance error RateLimitedError then rate_limit_base_delay else base_delay in
  retry_base * inject_Z (2 ^ Z.of_nat retry_number).

(** The [except TransientError] block up to the end of the wait. *)
Definition pause (retry_number : nat) (error : exn) : M S unit :=
  let b := backoff retry_number error in
  let! jitter := uniform env 0 (b * (1 # 10)) in
  let! set := wait env (b + jitter) in
  if set && has_cancel then check_cancel else mret tt.

(** The [for retry_number in range(attempts + 1)] loop, [left] iterations before the last. *)
Fixpoint retry_loop (left retry_number : nat) : M S A :=
  let! _ := check_cancel in
  fun s =>
    match fn s with
    | (Ok a, s') => (Ok a, s')
    | (Err e, s') =>
        if isinstance e TransientError then
          match left with
          | O => (Err e, s')
          | Datatypes.S left' =>
              (let! _ := pause retry_number e in retry_loop left' (Datatypes.S retry_number)) s'
          end
        else (Err e, s')
    end.

(** [with_retry]; [attempts] is a natural number, so only the delays can be rejected. *)
Definition with_retry : M S A :=
  if Qlt_le_dec base_delay 0 then mraise ValueError "base_delay must be non-negative"
  else if Qlt_le_dec rate_limit_base_delay 0 then
    mraise ValueError "rate_limit_base_delay must be non-negative"
  else retry_loop attempts 0.

(** ** Specification

    [failing r k s s']: from [s], [k] calls failed transiently, each followed by its pause, and the
    next call would be number [r + k] in state [s']. *)
Inductive failing : nat -> nat -> S -> S -> Prop :=
  | failing_zero r s : failing r 0 s s
  | failing_succ r k s e s1 s2 s3 :
      check_cancel s = (Ok tt, s) ->
      fn s = (Err e, s1) -> isinstance e TransientError = true ->
      pause r e s1 = (Ok tt, s2) ->
      failing (Datatypes.S r) k s2 s3 ->
      failing r (Datatypes.S k) s s3.

Definition transient (r : result A) : bool :=
  match r with Err e => isinstance e TransientError | Ok _ => false end.

Lemma check_cancel_state s : exists r, check_cancel s = (r, s).
Proof. unfold check_cancel, raise_if_cancelled. repeat case_match; eauto. Qed.

(** How the loop can end, after [k] failed and paused calls. *)
Definition ends (left r k : nat) (s : S) (out : result A * S) : Prop :=
  exists s', failing r k s s' /\
    ( (check_cancel s' = (Ok tt, s') /\ out = fn s' /\ (k = left \/ transient out.1 = false))
      \/ (exists e, check_cancel s' = (Err e, s') /\ out = (Err e, s'))
      \/ (exists e e' s1 s2, check_cancel s' = (Ok tt, s') /\ fn s' = (Err e, s1)
            /\ isinstance e TransientError = true /\ (k < left)%nat
            /\ pause (r + k) e s1 = (Err e', s2) /\ out = (Err e', s2)) ).

Lemma retry_loop_ends left r s :
  exists k, (k <= left)%nat /\ ends left r k s (retry_loop left r s).
Proof.
  revert r s. induction left as [|left IH]; intros r s; cbn [retry_loop]; unfold mbnd;
    destruct (check_cancel_state s) as [[[]|e] Hc]; rewrite Hc.
  2, 4: exists 0%nat; (split; [lia|]); exists s; split; [constructor|]; right; left; eauto.
  all: destruct (fn s) as [[a|e] s1] eqn:Hf.
  1, 3: exists 0%nat; (split; [lia|]); exists s; split; [constructor|]; left; rewrite Hf; auto.
  all: destruct (isinstance e TransientError) eqn:Ht.
  2, 4: exists 0%nat; (split; [lia|]); exists s; split; [constructor|]; left; rewrite Hf; auto.
  - exists 0%nat. split; [lia|]. exists s. split; [constructor|]. left. rewrite Hf. auto.
  - destruct (pause r e s1) as [[[]|e'] s2] eqn:Hp.
    + destruct (IH (Datatypes.S r) s2) as (k & Hk & s' & Hfail & Hend).
      exists (Datatypes.S k). split; [lia|]. exists s'. split; [by econstructor|].
      destruct Hend as [(? & ? & [->|?])|[?|(e1 & e2 & t1 & t2 & H1 & H2 & H3 & H4 & H5 & H6)]];
        [auto | auto | auto | right; right].
      exists e1, e2, t1, t2. repeat split; try done; [lia|].
      by replace (r + Datatypes.S k)%nat with (Datatypes.S r + k)%nat by lia.
    + exists 0%nat. split; [lia|]. exists s. split; [constructor|]. right. right.
      exists e, e', s1, s2. repeat split; try done; [lia|]. by rewrite Nat.add_0_r.
Qed.

(** What one call, the jitter and the wait establish, the retried call establishes. *)
Lemma with_retry_triple (P : S -> Prop) (Q : A -> S -> Prop) :
  triple P fn Q P -> (forall a b, keeps P (uniform env a b)) -> (forall d, keeps P (wait env d)) ->
  triple P with_retry Q P.
Proof.
  intros Hfn Hu Hw. assert (keeps P check_cancel) as Hc.
  { intros s Hs. unfold check_cancel, raise_if_cancelled. destruct has_cancel; [|done].
    by destruct (is_cancelled env s). }
  assert (forall r e, keeps P (pause r e)) as Hp.
  { intros r e. unfold pause. apply keeps_bnd; [apply Hu|]. intros j. apply keeps_bnd; [apply Hw|].
    intros b. by apply keeps_if; [|apply keeps_ret]. }
  assert (forall left r, triple P (retry_loop left r) Q P) as Hl.
  { induction left as [|left IH]; intros r; cbn [retry_loop]; (eapply triple_bnd; [apply Hc|]); intros _ s Hs;
      specialize (Hfn s Hs); (destruct (fn s) as [[a|e] s1]; [exact Hfn|]);
      (destruct (isinstance e TransientError); [|exact Hfn]); [exact Hfn|].
    eapply (triple_bnd P _ _ (fun _ => P)); [apply Hp | intros _; apply IH | exact Hfn]. }
  unfold with_retry. repeat case_match; [apply triple_raise; auto .. | apply Hl].
Qed.

(** With non-negative delays, [with_retry] always returns, after at most [attempts] failed
    calls. Every failed call was a transient error and was followed by its backoff; the result is
    then that of one more call, which is either the last one allowed or did not fail transiently;
    or the run was cancelled before that call or during the wait. *)
Lemma with_retry_spec s :
  0 <= base_delay -> 0 <= rate_limit_base_delay ->
  exists k, (k <= attempts)%nat /\ ends attempts 0 k s (with_retry s).
Proof.
  intros Hb Hr. unfold with_retry.
  destruct (Qlt_le_dec base_delay 0) as [H|_]; [by apply Qlt_not_le in H|].
  destruct (Qlt_le_dec rate_limit_base_delay 0) as [H|_]; [by apply Qlt_not_le in H|].
  apply retry_loop_ends.
Qed.

(** Without a token nothing but the calls and the waits can end the loop. *)
Lemma no_token_no_cancel s : has_cancel = false -> check_cancel s = (Ok tt, s).
Proof. unfold check_cancel. by intros ->. Qed.

End Retry.

(** A call that fails transiently twice: the state counts calls, the wait is recorded. *)
Definition counting_env : retry_env (nat * list Q) := RetryEnv _
  (fun _ => false) (fun a _ => mret a) (fun d s => (Ok false, (s.1, s.2 ++ [d]))).

Definition flaky (bad : nat) : M (nat * list Q) nat :=
  fun s => if (s.1 <? bad)%nat then (raise TransientError "try again", (S s.1, s.2))
           else (Ok s.1, (S s.1, s.2)).

Example flaky_third : with_retry counting_env (flaky 2) 3 1 60 true (0%nat, [])
  = (Ok 2%nat, (3%nat, [(1 * 1) + 0; (1 * 2) + 0])).
Proof. reflexivity. Qed.

Example flaky_exhausted : (with_retry counting_env (flaky 9) 3 1 60 true (0%nat, [])).1
  = raise TransientError "try again".
Proof. reflexivity. Qed.

