(* ===== verification/ImapFetcher.v ===== *)
(** * ImapFetcher: the commands of the IMAP client

    [GenericImapFetcher] of [infrastructure/fetchers/generic_imap.py]: what it sends to the server and what
    it makes of the answers. The state holds the commands sent so far, and the server is an environment
    that answers a command from all that was sent. A command is a list of words, sent as they are and
    separated by spaces, because [imaplib] does not quote arguments. The generators are read to
    their end. *)

From S2P Require Import Prelude Errors PyText PyTime Json Identity Retry MUtf7 ImapText.

Open Scope Z_scope.

(** ** The connection *)

(** A command with its arguments, or an [AUTHENTICATE] with the bytes of its response. *)
Inductive command :=
  | Cmd (words : list pystr)
  | Auth (mechanism : pystr) (response : list Z).
#[export] Instance command_eq_dec : EqDecision command.
Proof. solve_decision. Defined.

(** What a connection can raise. *)
Inductive wire_error :=
  | Aborted | NetworkFailure | ImapError (message : pystr) | BadCertificate | TlsFailure
  | StorageDetached | LocalFailure | OsFailure.

(** The answers: to the greeting, to a command (its status and data) and the response codes it left. *)
Record server := Server {
  greeting : option wire_error;
  answer : list command -> wire_error + pystr * list item;
  code : list command -> string -> list item;
}.

(** The fetcher: whether it has a connection, whether that one is encrypted, what the server can do. *)
Record Conn := MkConn {
  connected : bool;
  encrypted : bool;
  capabilities : list pystr;
  highest_modseq : option Z;
  sent : list command;
}.
Definition set_sent f (c : Conn) := MkConn (connected c) (encrypted c) (capabilities c) (highest_modseq c) (f (sent c)).
Definition set_encrypted b (c : Conn) := MkConn (connected c) b (capabilities c) (highest_modseq c) (sent c).
Definition set_capabilities l (c : Conn) := MkConn (connected c) (encrypted c) l (highest_modseq c) (sent c).
Definition set_modseq m (c : Conn) := MkConn (connected c) (encrypted c) (capabilities c) m (sent c).
Definition set_connected b (c : Conn) := MkConn b (encrypted c) (capabilities c) (highest_modseq c) (sent c).

(** The constructor's arguments. *)
Inductive tls_mode := Implicit | Starttls.
Record settings := Settings {
  username : pystr;
  password : option pystr;
  tls : tls_mode;
  xoauth2 : bool;
  oauth_provider : option pystr;
  remote_trash_folder : option pystr;
}.

(** ** Errors *)

Definition contains (kw : string) (s : pystr) : bool :=
  if search (fun _ s => strip_keyword (lit kw) s) None s is Some _ then true else false.
(** [is_gmail_rate_limit_response] *)
Definition is_gmail_rate_limit_response (s : pystr) : bool :=
  existsb (fun k => contains k s) ["[THROTTLED]"; "[OVERQUOTA]"; "[LIMIT]"; "TOO MANY SIMULTANEOUS CONNECTIONS"]%string.
Definition is_authentication_failure (s : pystr) : bool :=
  existsb (fun k => contains k s) ["AUTHENTICATIONFAILED"; "AUTHENTICATION"; "SASL"]%string.
Definition is_unsupported (s : pystr) : bool :=
  existsb (fun k => contains k s) ["NOT SUPPORTED"; "UNSUPPORTED"; "UNKNOWN"; "BAD"]%string.
(** The class for a refusal, by its text. *)
Definition refusal (starttls : bool) (s : pystr) : exc_class :=
  if is_gmail_rate_limit_response s then RateLimitedError
  else if is_authentication_failure s then AuthenticationError
  else if starttls then if is_unsupported s then PermanentError else TransientError
  else PermanentError.
(** [wrap_imap_errors] *)
Definition wrap_imap_errors (e : wire_error) : exc_class :=
  match e with
  | Aborted | NetworkFailure => TransientError
  | ImapError s => refusal (contains "STARTTLS" s) s
  | BadCertificate => PermanentError
  | TlsFailure => TransientError
  | StorageDetached => StorageDetachedError
  | LocalFailure => PermanentError
  | OsFailure => TransientError
  end.

Section Fetcher.
Context (env : server) (cfg : settings) (cancelled : Conn -> bool)
  (parse_date : pystr -> option datetime) (message_id_of : list Z -> option pystr).

Definition check_cancelled : M Conn unit := raise_if_cancelled cancelled.

(** ** Commands *)

Definition ascii_word (w : pystr) : bool := forallb (fun c => (0 <=? c) && (c <? 128)) w.
(** [imaplib] sends a command: a word that is not ASCII raises [UnicodeEncodeError] before. *)
Definition send (c : command) : M Conn (pystr * list item) :=
  match c with
  | Cmd words => if forallb ascii_word words then mret tt else mraise ValueError "'ascii' codec can't encode characters"
  | Auth _ _ => mret tt
  end ;!
  mmodify (set_sent (fun l => l ++ [c])%list) ;!
  let! log := mgets sent in
  match answer env log with
  | inl e => mraise (wrap_imap_errors e) "IMAP operation"
  | inr r => mret r
  end.
(** [connection.response(code)] *)
Definition response (name : string) : M Conn (list item) := mgets (fun s => code env (sent s) name).

(** [_ensure_ok] *)
Definition is_ok_status (status : pystr) : bool := bool_decide (upper status = lit "OK").
Definition item_utf8 (i : item) : pystr := match i with Raw b => utf8_replaced (length b) b | _ => lit "None" end.
(** The texts joined by spaces, with a space before the first. *)
Definition response_text (data : list item) : pystr := concat (map (fun i => space :: item_utf8 i) data).
Definition ensure_ok (status : pystr) (data : list item) (operation : string) : M Conn unit :=
  if is_ok_status status then mret tt
  else mraise (refusal (operation == "STARTTLS")%string (lit operation ++ lit " failed:" ++ take 201 (response_text data))%list) operation.
(** [_require_connection] *)
Definition require_connection : M Conn unit :=
  let! b := mgets connected in
  if b : bool then mret tt else mraise PermanentError "IMAP connection is not open".
(** [_uid_command] *)
Definition uid_command (words : list pystr) : M Conn (list item) :=
  require_connection ;!
  let! r := send (Cmd (lit "UID" :: words)) in
  ensure_ok r.1 r.2 "UID" ;!
  mret r.2.

(** ** Connecting *)

(** [_parse_capabilities] *)
Definition parse_capabilities (data : list item) : list pystr :=
  flat_map (fun i => let text := item_text i in
                     map upper (match strip_keyword (lit "CAPABILITY ") text with
                                | Some rest => split_ws rest
                                | None => split_ws text
                                end)) data.
Definition can (capability : string) : M Conn bool := mgets (fun s => bool_decide (lit capability ∈ capabilities s)).
Definition read_capabilities : M Conn unit :=
  let! r := send (Cmd [lit "CAPABILITY"]) in
  ensure_ok r.1 r.2 "CAPABILITY" ;!
  mmodify (set_capabilities (parse_capabilities r.2)).
(** [imaplib]'s [_quote] of the password *)
Definition quoted (s : pystr) : pystr :=
  (quote :: flat_map (fun c => if (c =? backslash) || (c =? quote) then [backslash; c] else [c]) s ++ [quote])%list.
(** [str.encode()] *)
Definition str_encode (s : pystr) : result (list Z) :=
  if existsb is_surrogate s then raise ValueError "surrogates not allowed" else Ok (flat_map utf8_encode s).
Definition authenticate (mechanism : string) (response : pystr) : M Conn unit :=
  let! encoded := mlift (str_encode response) in
  let! r := send (Auth (lit mechanism) encoded) in
  ensure_ok r.1 r.2 "AUTHENTICATE".
(** [imaplib.IMAP4_SSL], or [imaplib.IMAP4] without TLS. *)
Definition open_connection : M Conn unit :=
  match greeting env with
  | Some e => mraise (wrap_imap_errors e) "IMAP connect"
  | None => mmodify (set_encrypted (match tls cfg with Implicit => true | Starttls => false end))
  end.
(** What [connect] does on the new connection; the access token is the provider's. *)
Definition open_session (token : result pystr) : M Conn unit :=
  match tls cfg with
  | Starttls =>
      let! r := send (Cmd [lit "STARTTLS"]) in
      ensure_ok r.1 r.2 "STARTTLS" ;!
      mmodify (set_encrypted true)
  | Implicit => mret tt
  end ;!
  read_capabilities ;!
  let! disabled := can "LOGINDISABLED" in
  (if xoauth2 cfg then
     let! t := mlift token in
     authenticate "XOAUTH2" (lit "user=" ++ username cfg ++ [1] ++ lit "auth=Bearer " ++ t ++ [1; 1])%list
   else if disabled : bool then
     authenticate "PLAIN" ([0] ++ username cfg ++ [0] ++ get_or (lit "None") (password cfg))%list
   else
     match password cfg with
     | None => mraise ConfigError "password is required for password authentication"
     | Some p =>
         let! r := send (Cmd [lit "LOGIN"; username cfg; quoted p]) in
         ensure_ok r.1 r.2 "LOGIN"
     end) ;!
  read_capabilities ;!
  let! condstore := can "CONDSTORE" in
  if condstore : bool then
    let! r := send (Cmd [lit "ENABLE"; lit "CONDSTORE"]) in
    ensure_ok r.1 r.2 "ENABLE CONDSTORE"
  else mret tt.
(** [connect]: a failed attempt logs out, whatever the answer to that is. The TLS context and the timeouts
    are left out. *)
Definition connect (token : result pystr) : M Conn unit :=
  let! b := mgets connected in
  if b : bool then mret tt else
  open_connection ;!
  mtry (open_session token ;! mmodify (set_connected true))
    (fun e => mtry (send (Cmd [lit "LOGOUT"]) ;! mret tt) (fun _ => mret tt) ;! mthrow e).
Definition disconnect : M Conn unit :=
  let! b := mgets connected in
  mmodify (fun s => MkConn false false [] None (sent s)) ;!
  if b : bool then send (Cmd [lit "LOGOUT"]) ;! mret tt else mret tt.

(** ** Folders *)

Definition list_folders : M Conn (list ListedFolder) :=
  require_connection ;!
  let! r := send (Cmd [lit "LIST"; [quote; quote]; lit "*"]) in
  ensure_ok r.1 r.2 "LIST" ;!
  mlift (parse_list_responses r.2).

Definition TRASH_CANDIDATES : list pystr :=
  [lit "Trash"; [0x30B4; 0x30DF; 0x7BB1]; lit "Deleted"; lit "Deleted Items"; lit "Deleted Messages"; lit "Deleted Mail";
   lit "INBOX.Trash"].
(** The dictionary of folded names: a later folder replaces an earlier one. *)
Definition folders_by_name (l : list ListedFolder) : list (pystr * ListedFolder) :=
  fold_left (fun d f => dict_set (casefold (lf_display_name f)) f (dict_set (casefold (lf_raw_name f)) f d)) l [].
Fixpoint first_candidate (names : list pystr) (d : list (pystr * ListedFolder)) : option ListedFolder :=
  match names with
  | [] => None
  | n :: names => match dict_get (casefold n) d with Some f => Some f | None => first_candidate names d end
  end.
Definition is_trash (f : ListedFolder) : bool :=
  existsb (fun a => bool_decide (casefold a = lit "\trash")) (lf_special_use f).
Definition choose_trash (folders : list ListedFolder) : option ListedFolder :=
  match List.find is_trash folders with
  | Some f => Some f
  | None =>
      let d := folders_by_name folders in
      match first_candidate TRASH_CANDIDATES d with
      | Some f => Some f
      | None =>
          match remote_trash_folder cfg with
          | None | Some [] => None
          | Some name => Some (get_or (Listed name name [] None) (dict_get (casefold name) d))
          end
      end
  end.
(** [find_trash_folder] *)
Definition find_trash_folder : M Conn (option ListedFolder) :=
  let! l := list_folders in mret (choose_trash l).
(** [supports_uid_expunge] *)
Definition supports_uid_expunge : M Conn bool := can "UIDPLUS".

(** [_first_number], [_first_modseq] *)
Definition trim (s : pystr) : pystr := rstrip is_space (skip_spaces s).
Definition plain_number (s : pystr) : option Z :=
  let t := trim s in
  if negb (bool_decide (t = [])) && forallb is_digit t then Some (int_of_digits t) else None.
Fixpoint first_number (data : list item) : option Z :=
  match data with
  | [] => None
  | i :: data =>
      match find_number "UIDVALIDITY" (item_text i) with
      | Some d => Some (int_of_digits d)
      | None => match plain_number (item_text i) with Some n => Some n | None => first_number data end
      end
  end.
Fixpoint first_some {A B} (f : A -> option B) (l : list A) : option B :=
  match l with [] => None | a :: l => match f a with Some b => Some b | None => first_some f l end end.
Definition first_modseq (data : list item) (allow_plain : bool) : option Z :=
  match first_some (fun i => find_number "HIGHESTMODSEQ" (item_text i)) data with
  | Some d => Some (int_of_digits d)
  | None => if allow_plain then first_some (fun i => plain_number (item_text i)) data else None
  end.
Definition contains_nomodseq (data : list item) : bool :=
  existsb (fun i => if search (word_at (lit "NOMODSEQ")) None (item_text i) is Some _ then true else false) data.

(** [imaplib]'s [select]: the data of a successful one is the [EXISTS] response. *)
Definition imap_select (readonly : bool) (raw : pystr) : M Conn (list item) :=
  let! r := send (Cmd [lit (if readonly then "EXAMINE" else "SELECT"); raw]) in
  let! data := if is_ok_status r.1 then response "EXISTS" else mret r.2 in
  ensure_ok r.1 data "SELECT" ;!
  mret data.
(** The UIDVALIDITY of the selected folder. *)
Definition selected_uidvalidity (data : list item) : M Conn Z :=
  let! codes := response "UIDVALIDITY" in
  match first_number codes, first_number data with
  | Some v, _ | None, Some v => mret v
  | None, None => mraise PermanentError "SELECT response has no UIDVALIDITY"
  end.
(** [select_folder] *)
Definition select_folder (raw : pystr) : M Conn Z :=
  if bool_decide (raw = []) then mraise ValueError "raw_name must not be empty" else
  require_connection ;!
  mmodify (set_modseq None) ;!
  let! data := imap_select true raw in
  let! v := selected_uidvalidity data in
  let! condstore := can "CONDSTORE" in
  let! codes := response "HIGHESTMODSEQ" in
  (if condstore : bool then
     mmodify (set_modseq (if contains_nomodseq data || contains_nomodseq codes then None else first_modseq codes true))
   else mret tt) ;!
  mret v.
Definition get_highest_modseq : M Conn (option Z) := mgets highest_modseq.

(** ** Messages *)

Definition FETCH_CHUNK_SIZE : nat := 500.
Definition number (n : Z) : pystr := bytes_of (int_str n).
(** [",".join(str(uid) for uid in chunk)] *)
Fixpoint joined (l : list Z) : pystr :=
  match l with [] => [] | [n] => number n | n :: l => (number n ++ lit "," ++ joined l)%list end.
Definition is_gmail : bool := xoauth2 cfg && bool_decide (oauth_provider cfg = Some (lit "google")).
(** [_search_uids] *)
Definition search_uids (data : list item) : list Z :=
  flat_map (fun i => map int_of_digits (List.filter (forallb is_digit) (split_ws (item_text i)))) data.

(** The pairs of a [FETCH] response that carries headers. *)
Fixpoint parse_pairs (data : list item) : result (list FetchedRef) :=
  match data with
  | [] => Ok []
  | Pair m l :: data =>
      let? r := parse_fetch_response parse_date message_id_of (Pair m l) in
      let? rs := parse_pairs data in
      Ok (r :: rs)
  | _ :: data => parse_pairs data
  end.
(** The chunks of [uids], at most 500 each: the loop over the offsets. *)
Fixpoint chunks_of {A} (fuel : nat) (l : list A) : list (list A) :=
  match fuel, l with
  | S fuel, _ :: _ => take FETCH_CHUNK_SIZE l :: chunks_of fuel (drop FETCH_CHUNK_SIZE l)
  | _, _ => []
  end.
Definition chunks {A} (l : list A) : list (list A) := chunks_of (length l) l.

Definition ref_fields : pystr :=
  (lit "(UID INTERNALDATE RFC822.SIZE FLAGS" ++ (if is_gmail then lit " X-GM-MSGID X-GM-THRID X-GM-LABELS" else [])
   ++ lit " BODY.PEEK[HEADER.FIELDS (MESSAGE-ID)])")%list.
Fixpoint fetch_refs (l : list (list Z)) : M Conn (list FetchedRef) :=
  match l with
  | [] => mret []
  | chunk :: l =>
      check_cancelled ;!
      let! data := uid_command [lit "FETCH"; joined chunk; ref_fields] in
      let! rs := mlift (parse_pairs data) in
      check_cancelled ;!
      let! rest := fetch_refs l in
      mret (rs ++ rest)%list
  end.
(** [iter_message_refs] *)
Definition iter_message_refs (raw : pystr) (min_uid : Z) (max_uid : option Z) (descending : bool)
    : M Conn (list FetchedRef) :=
  if min_uid <? 1 then mraise ValueError "min_uid must be at least 1" else
  if match max_uid with Some m => m <? 0 | None => false end then mraise ValueError "max_uid must not be negative" else
  select_folder raw ;!
  if match max_uid with Some m => (m =? 0) || (m <? min_uid) | None => false end then mret [] else
  check_cancelled ;!
  let range := (number min_uid ++ lit ":" ++ match max_uid with Some m => number m | None => lit "*" end)%list in
  let! data := uid_command [lit "SEARCH"; lit "UID " ++ range]%list in
  let sorted := merge_sort Z.le (search_uids data) in
  let uids := if descending then rev sorted else sorted in
  fetch_refs (chunks uids).

Definition flag_fields : pystr := (lit "(UID FLAGS" ++ (if is_gmail then lit " X-GM-LABELS" else []) ++ lit ")")%list.
Fixpoint parse_flag_items (requested : list Z) (data : list item) : result (list FetchedRef) :=
  match data with
  | [] => Ok []
  | Nothing :: data => parse_flag_items requested data
  | i :: data =>
      let? r := parse_flags_fetch_response parse_date message_id_of i requested in
      let? rs := parse_flag_items requested data in
      Ok (match r with Some r => r :: rs | None => rs end)
  end.
Fixpoint fetch_flags (requested : list Z) (l : list (list Z)) : M Conn (list FetchedRef) :=
  match l with
  | [] => mret []
  | chunk :: l =>
      check_cancelled ;!
      let! data := uid_command [lit "FETCH"; joined chunk; flag_fields] in
      let! rs := mlift (parse_flag_items requested data) in
      check_cancelled ;!
      let! rest := fetch_flags requested l in
      mret (rs ++ rest)%list
  end.
(** [iter_flags] *)
Definition iter_flags (raw : pystr) (uids : list Z) (expected_uidvalidity : option Z) : M Conn (list FetchedRef) :=
  if existsb (fun u => u <? 1) uids then mraise ValueError "uids must contain only positive integers" else
  let! v := select_folder raw in
  if match expected_uidvalidity with Some e => negb (v =? e) | None => false end
  then mraise UidValidityChanged "UIDVALIDITY changed for folder" else
  fetch_flags uids (chunks uids).
Fixpoint parse_items (data : list item) : result (list FetchedRef) :=
  match data with
  | [] => Ok []
  | Nothing :: data => parse_items data
  | i :: data =>
      let? r := parse_fetch_response parse_date message_id_of i in
      let? rs := parse_items data in
      Ok (r :: rs)
  end.
(** [iter_flags_since] *)
Definition iter_flags_since (raw : pystr) (modseq : Z) : M Conn (list FetchedRef) :=
  if modseq <=? 0 then mraise ValueError "modseq must be positive" else
  select_folder raw ;!
  check_cancelled ;!
  let! data := uid_command [lit "FETCH"; lit "1:*"; flag_fields; lit "(CHANGEDSINCE " ++ number modseq ++ lit ")"]%list in
  let! rs := mlift (parse_items data) in
  check_cancelled ;!
  mret rs.
Definition search_all (raw : pystr) : M Conn (list Z) :=
  select_folder raw ;!
  let! data := uid_command [lit "SEARCH"; lit "ALL"] in
  mret (search_uids data).
Definition get_max_uid (raw : pystr) : M Conn Z :=
  let! l := search_all raw in mret (fold_right Z.max 0 l).
(** The set of the UIDs, as a list. *)
Definition list_existing_uids (raw : pystr) : M Conn (list Z) := search_all raw.
(** [_literal_from_fetch] *)
Definition literal_from_fetch (data : list item) : result (list Z) :=
  match first_some (fun i => match i with Pair _ l => Some l | _ => None end) data with
  | Some l => Ok l
  | None => raise PermanentError "IMAP FETCH returned no message"
  end.
Definition download_part (raw : pystr) (uid : Z) (part : pystr) : M Conn (list Z) :=
  select_folder raw ;!
  let! data := uid_command [lit "FETCH"; number uid; part] in
  mlift (literal_from_fetch data).
Definition download_eml_bytes (raw : pystr) (uid : Z) : M Conn (list Z) := download_part raw uid (lit "(BODY.PEEK[])").
Definition download_eml_headers (raw : pystr) (uid : Z) : M Conn (list Z) := download_part raw uid (lit "(BODY.PEEK[HEADER])").

(** ** Deletion *)

Definition select_folder_for_delete (raw : pystr) (expected_uidvalidity : option Z) : M Conn unit :=
  require_connection ;!
  let! data := imap_select false raw in
  match expected_uidvalidity with
  | None => mret tt
  | Some e =>
      let! v := selected_uidvalidity data in
      if v =? e then mret tt else mraise UidValidityChanged "UIDVALIDITY changed for folder"
  end.
Definition remove_remote_membership (raw : pystr) (uid : Z) (expected_uidvalidity : option Z) : M Conn unit :=
  if negb (bool_decide (oauth_provider cfg = Some (lit "google"))) then
    mraise PermanentError "remote membership removal is only supported for Gmail labels"
  else
    select_folder_for_delete raw expected_uidvalidity ;!
    uid_command [lit "STORE"; number uid; lit "-X-GM-LABELS.SILENT"; paren_open :: quote :: raw ++ [quote; paren_close]]%list ;!
    mret tt.
(** [_expunge_selected_uid] *)
Definition expunge_selected_uid (uid : Z) : M Conn unit :=
  let! supported := supports_uid_expunge in
  if supported : bool then
    uid_command [lit "STORE"; number uid; lit "+FLAGS.SILENT"; lit "(\Deleted)"] ;!
    uid_command [lit "EXPUNGE"; number uid] ;!
    mret tt
  else mraise PermanentError "UID EXPUNGE is not supported by this IMAP server".
(** [_COPYUID_PATTERN]: the UIDVALIDITY and the first number of the third field. *)
Definition copyuid (s : pystr) : option (Z * Z) :=
  let '(v, rest) := span is_digit (skip_spaces s) in
  let '(gap, rest) := span is_space rest in
  let '(src, rest) := span (fun c => negb (is_space c)) rest in
  let '(gap', rest) := span is_space rest in
  let dest := (span (fun c => negb (is_space c)) rest).1 in
  let uid := search (fun _ s => match (span is_digit s).1 with [] => None | d => Some d end) None dest in
  if bool_decide (v = []) || bool_decide (gap = []) || bool_decide (src = []) || bool_decide (gap' = []) || bool_decide (dest = [])
  then None else option_map (fun d => (int_of_digits v, int_of_digits d)) uid.
(** [_copyuid_from_response] *)
Definition copyuid_from_response : M Conn (option (Z * Z)) :=
  let! items := response "COPYUID" in
  mret (first_some (fun i => match i with Nothing => None | _ => copyuid (item_text i) end) items).
(** [move_remote_message_to_trash] *)
Definition move_remote_message_to_trash (raw : pystr) (uid : Z) (expected_uidvalidity : option Z)
    : M Conn (option (Z * Z)) :=
  select_folder_for_delete raw expected_uidvalidity ;!
  let! trash := find_trash_folder in
  match trash with
  | None => mraise PermanentError "could not identify the remote trash folder"
  | Some trash =>
      require_connection ;!
      let! move := can "MOVE" in
      if move : bool then
        uid_command [lit "MOVE"; number uid; lf_raw_name trash] ;!
        copyuid_from_response
      else
        let! supported := supports_uid_expunge in
        if negb supported then mraise PermanentError "UID EXPUNGE is required when MOVE is not supported by this IMAP server" else
        uid_command [lit "COPY"; number uid; lf_raw_name trash] ;!
        let! result := copyuid_from_response in
        expunge_selected_uid uid ;!
        mret result
  end.
(** [expunge_remote_message] *)
Definition expunge_remote_message (raw : pystr) (uid : Z) (expected_uidvalidity : option Z) : M Conn unit :=
  if bool_decide (oauth_provider cfg = Some (lit "google")) then
    mraise PermanentError "Gmail accounts do not support remote expunge"
  else
    select_folder_for_delete raw expected_uidvalidity ;!
    expunge_selected_uid uid.
End Fetcher.
Close Scope Z_scope.
