(* ===== verification/ImapFetcherSafe.v ===== *)
(** * ImapFetcherSafe: what the IMAP client sends

    The theorems on [ImapFetcher], for every server: reading never changes the mailbox, a deletion follows
    its protocol, passwords are sent encrypted, and chunks ask for every message once. *)

From S2P Require Import Prelude Errors PyText PyTime Identity Retry MUtf7 ImapText ImapFetcher.

(** ** Reading *)

(** The data items of a [FETCH] (RFC 3501, 6.4.5): a parenthesized list whose items are separated by the spaces outside of
    brackets. *)
Fixpoint split_items (in_section : bool) (item s : pystr) : list pystr :=
  match s with
  | [] => [item]
  | c :: s =>
      if (c =? 32)%Z && negb in_section then item :: split_items false [] s
      else split_items (if (c =? 91)%Z then true else if (c =? 93)%Z then false else in_section) (item ++ [c])%list s
  end.
Definition fetch_items (part : pystr) : option (list pystr) :=
  match part with
  | c :: s => if bool_decide (c = paren_open) && bool_decide (last s = Some paren_close)
              then Some (split_items false [] (removelast s)) else None
  | [] => None
  end.
(** The items that leave the flags alone: attributes, and sections of the body that are peeked at. [BODY[...]], [RFC822] and
    [RFC822.TEXT] set [\Seen]. *)
Definition quiet_item (item : pystr) : bool :=
  existsb (fun x => bool_decide (item = lit x))
    ["UID"; "FLAGS"; "INTERNALDATE"; "RFC822.SIZE"; "RFC822.HEADER"; "ENVELOPE"; "BODYSTRUCTURE"; "X-GM-MSGID"; "X-GM-THRID"; "X-GM-LABELS"]
  || bool_decide (take 10 item = lit "BODY.PEEK[").
Definition quiet_fetch (part : pystr) : bool :=
  match fetch_items part with Some items => forallb quiet_item items | None => false end.
(** A command that neither changes the mailbox nor marks a message as seen: a mailbox is only examined, and
    a [FETCH] asks for nothing but quiet items. *)
Definition harmless (c : command) : bool :=
  match c with
  | Cmd (w :: args) =>
      if bool_decide (w = lit "EXAMINE") || bool_decide (w = lit "LIST") then true
      else if bool_decide (w = lit "UID") then
        match args with
        | verb :: rest =>
            bool_decide (verb = lit "SEARCH")
            || bool_decide (verb = lit "FETCH") && match rest with _ :: part :: _ => quiet_fetch part | _ => false end
        | [] => false
        end
      else false
  | _ => false
  end.

Section Reading.
Context (env : server) (cfg : settings) (cancelled : Conn -> bool)
  (parse_date : pystr -> option datetime) (message_id_of : list Z -> option pystr) (log0 : list command).

Definition only_read (s : Conn) : Prop := exists l, sent s = log0 ++ l /\ forallb harmless l = true.

Lemma reads_state f : (forall s, sent (f s) = sent s) -> keeps only_read (mmodify f).
Proof. intros H. apply keeps_modify. intros s (l & E & Hl). exists l. by rewrite H. Qed.
Lemma reads_send c : harmless c = true -> keeps only_read (send env c).
Proof.
  intros Hc. unfold send. apply keeps_bnd.
  { destruct c; [apply keeps_if; [apply keeps_ret|apply keeps_raise]|apply keeps_ret]. }
  intros ?. apply keeps_bnd.
  { apply keeps_modify. intros s (l & E & Hl). exists (l ++ [c]). cbn. rewrite E, app_assoc. split; [done|].
    rewrite forallb_app, Hl. cbn. by rewrite Hc. }
  intros ?. apply keeps_bnd; [apply keeps_gets|]. intros log. destruct (answer env log); [apply keeps_raise|apply keeps_ret].
Qed.
Lemma reads_ensure status data op : keeps only_read (ensure_ok status data op).
Proof. apply keeps_if; [apply keeps_ret|apply keeps_raise]. Qed.
Lemma reads_connection : keeps only_read require_connection.
Proof. apply keeps_bnd; [apply keeps_gets|]. intros b. apply keeps_if; [apply keeps_ret|apply keeps_raise]. Qed.
Lemma reads_cancel : keeps only_read (check_cancelled cancelled).
Proof. intros s Hs. unfold check_cancelled, raise_if_cancelled, post. by destruct (cancelled s). Qed.
Lemma reads_uid_command words : harmless (Cmd (lit "UID" :: words)) = true -> keeps only_read (uid_command env words).
Proof.
  intros H. unfold uid_command. apply keeps_bnd; [apply reads_connection|]. intros ?.
  apply keeps_bnd; [by apply reads_send|]. intros r. apply keeps_bnd; [apply reads_ensure|]. intros ?. apply keeps_ret.
Qed.
Lemma reads_select raw : keeps only_read (select_folder env raw).
Proof.
  unfold select_folder. apply keeps_if; [apply keeps_raise|]. apply keeps_bnd; [apply reads_connection|]. intros ?.
  apply keeps_bnd; [by apply reads_state|]. intros ?. apply keeps_bnd.
  { unfold imap_select. apply keeps_bnd; [by apply reads_send|]. intros r. apply keeps_bnd; [apply keeps_if; [apply keeps_gets|apply keeps_ret]|].
    intros data. apply keeps_bnd; [apply reads_ensure|]. intros ?. apply keeps_ret. }
  intros data. apply keeps_bnd.
  { apply keeps_bnd; [apply keeps_gets|]. intros codes. destruct (first_number codes), (first_number data); first [apply keeps_ret|apply keeps_raise]. }
  intros v. apply keeps_bnd; [apply keeps_gets|]. intros b. apply keeps_bnd; [apply keeps_gets|]. intros codes.
  apply keeps_bnd; [apply keeps_if; [by apply reads_state|apply keeps_ret]|]. intros ?. apply keeps_ret.
Qed.
Lemma reads_search words : keeps only_read (uid_command env (lit "SEARCH" :: words)).
Proof. apply reads_uid_command. reflexivity. Qed.
Lemma reads_fetch set part rest : quiet_fetch part = true -> keeps only_read (uid_command env (lit "FETCH" :: set :: part :: rest)).
Proof. intros H. apply reads_uid_command. cbn -[quiet_fetch]. by rewrite H. Qed.
Lemma ref_fields_peek : quiet_fetch (ref_fields cfg) = true.
Proof. unfold ref_fields. by destruct (is_gmail cfg). Qed.
Lemma flag_fields_peek : quiet_fetch (flag_fields cfg) = true.
Proof. unfold flag_fields. by destruct (is_gmail cfg). Qed.
(** What the two downloads ask for, and what would mark a message as seen. *)
Example quiet_examples : map (fun x => quiet_fetch (lit x))
    ["(BODY.PEEK[])"; "(BODY.PEEK[HEADER])"; "(BODY[])"; "(UID RFC822)"; "(RFC822.TEXT)"; "BODY[]"]%string
  = [true; true; false; false; false; false].
Proof. reflexivity. Qed.
Lemma reads_fetch_refs l : keeps only_read (fetch_refs env cfg cancelled parse_date message_id_of l).
Proof.
  induction l as [|c l IH]; cbn [fetch_refs]; [apply keeps_ret|]. apply keeps_bnd; [apply reads_cancel|]. intros ?.
  apply keeps_bnd; [apply reads_fetch, ref_fields_peek|]. intros data. apply keeps_bnd; [apply keeps_lift|]. intros rs.
  apply keeps_bnd; [apply reads_cancel|]. intros ?. apply keeps_bnd; [exact IH|]. intros rest. apply keeps_ret.
Qed.
Lemma reads_fetch_flags requested l : keeps only_read (fetch_flags env cfg cancelled parse_date message_id_of requested l).
Proof.
  induction l as [|c l IH]; cbn [fetch_flags]; [apply keeps_ret|]. apply keeps_bnd; [apply reads_cancel|]. intros ?.
  apply keeps_bnd; [apply reads_fetch, flag_fields_peek|]. intros data. apply keeps_bnd; [apply keeps_lift|]. intros rs.
  apply keeps_bnd; [apply reads_cancel|]. intros ?. apply keeps_bnd; [exact IH|]. intros rest. apply keeps_ret.
Qed.
Lemma reads_message_refs raw lo hi descending :
  keeps only_read (iter_message_refs env cfg cancelled parse_date message_id_of raw lo hi descending).
Proof.
  unfold iter_message_refs. do 2 (apply keeps_if; [apply keeps_raise|]). apply keeps_bnd; [apply reads_select|]. intros ?.
  apply keeps_if; [apply keeps_ret|]. apply keeps_bnd; [apply reads_cancel|]. intros ?. cbv zeta.
  apply keeps_bnd; [apply reads_search|]. intros data. apply reads_fetch_refs.
Qed.
Lemma reads_flags raw uids v : keeps only_read (iter_flags env cfg cancelled parse_date message_id_of raw uids v).
Proof.
  unfold iter_flags. apply keeps_if; [apply keeps_raise|]. apply keeps_bnd; [apply reads_select|]. intros u.
  apply keeps_if; [apply keeps_raise|apply reads_fetch_flags].
Qed.
Lemma reads_flags_since raw modseq : keeps only_read (iter_flags_since env cfg cancelled parse_date message_id_of raw modseq).
Proof.
  unfold iter_flags_since. apply keeps_if; [apply keeps_raise|]. apply keeps_bnd; [apply reads_select|]. intros ?.
  apply keeps_bnd; [apply reads_cancel|]. intros ?. apply keeps_bnd; [apply reads_fetch, flag_fields_peek|]. intros data.
  apply keeps_bnd; [apply keeps_lift|]. intros rs. apply keeps_bnd; [apply reads_cancel|]. intros ?. apply keeps_ret.
Qed.
Lemma reads_search_all raw : keeps only_read (search_all env raw).
Proof. apply keeps_bnd; [apply reads_select|]. intros ?. apply keeps_bnd; [apply reads_search|]. intros ?. apply keeps_ret. Qed.
Lemma reads_download raw uid part : quiet_fetch part = true -> keeps only_read (download_part env raw uid part).
Proof.
  intros H. apply keeps_bnd; [apply reads_select|]. intros ?. apply keeps_bnd; [by apply reads_fetch|]. intros ?. apply keeps_lift.
Qed.
Lemma reads_list : keeps only_read (list_folders env).
Proof.
  unfold list_folders. apply keeps_bnd; [apply reads_connection|]. intros ?. apply keeps_bnd; [by apply reads_send|]. intros r.
  apply keeps_bnd; [apply reads_ensure|]. intros ?. apply keeps_lift.
Qed.
End Reading.

(** The operations that read. *)
Inductive reading :=
  | ListFolders | FindTrash | SelectFolder (raw : pystr) | IterRefs (raw : pystr) (lo : Z) (hi : option Z) (descending : bool)
  | IterFlags (raw : pystr) (uids : list Z) (v : option Z) | IterFlagsSince (raw : pystr) (modseq : Z)
  | GetMaxUid (raw : pystr) | ListUids (raw : pystr) | Download (raw : pystr) (uid : Z) | DownloadHeaders (raw : pystr) (uid : Z).
(** The state after one of them. *)
Definition after (env : server) (cfg : settings) (cancelled : Conn -> bool) (parse_date : pystr -> option datetime)
    (message_id_of : list Z -> option pystr) (op : reading) (s : Conn) : Conn :=
  match op with
  | ListFolders => (list_folders env s).2
  | FindTrash => (find_trash_folder env cfg s).2
  | SelectFolder raw => (select_folder env raw s).2
  | IterRefs raw lo hi d => (iter_message_refs env cfg cancelled parse_date message_id_of raw lo hi d s).2
  | IterFlags raw uids v => (iter_flags env cfg cancelled parse_date message_id_of raw uids v s).2
  | IterFlagsSince raw m => (iter_flags_since env cfg cancelled parse_date message_id_of raw m s).2
  | GetMaxUid raw => (get_max_uid env raw s).2
  | ListUids raw => (list_existing_uids env raw s).2
  | Download raw uid => (download_eml_bytes env raw uid s).2
  | DownloadHeaders raw uid => (download_eml_headers env raw uid s).2
  end.

(** C19. Reading is harmless: whatever the server answers, the operations that list, search, fetch or download
    send only commands that examine a folder read-only, list, search, or fetch nothing but attributes and sections
    of the body that are peeked at, so that they change no message and mark none as seen. *)
Theorem reading_is_harmless env cfg cancelled parse_date message_id_of op s :
  exists l, sent (after env cfg cancelled parse_date message_id_of op s) = sent s ++ l /\ forallb harmless l = true.
Proof.
  assert (only_read (sent s) s) as Hs by (exists []; by rewrite app_nil_r).
  assert (forall A (m : M Conn A), keeps (only_read (sent s)) m -> only_read (sent s) (m s).2) as Hk.
  { intros A m H. specialize (H s Hs). unfold post in H. by destruct (m s) as [[a|e] s']. }
  destruct op; apply Hk; clear Hk.
  - apply reads_list.
  - apply keeps_bnd; [apply reads_list|]. intros ?. apply keeps_ret.
  - apply reads_select.
  - apply reads_message_refs.
  - apply reads_flags.
  - apply reads_flags_since.
  - apply keeps_bnd; [apply reads_search_all|]. intros ?. apply keeps_ret.
  - apply reads_search_all.
  - by apply reads_download.
  - by apply reads_download.
Qed.

(** ** Deleting *)

(** The server answered the last command of [log] with OK. *)
Definition accepted (env : server) (log : list command) : Prop :=
  exists status data, answer env log = inr (status, data) /\ is_ok_status status = true.

Section Protocol.
Context (env : server) (log0 plan : list command) (caps : list pystr) (sel : Prop).

(** The first [n] commands of the plan were sent, and all of them but the last one accepted; nothing after
    the first without the right selection. *)
Definition followed (n : nat) (s : Conn) : Prop :=
  sent s = log0 ++ take n plan /\ n <= length plan /\ (1 < n -> sel)
  /\ forall i, S i < n -> accepted env (log0 ++ take (S i) plan).
(** The last one too. *)
Definition done_until (n : nat) (s : Conn) : Prop :=
  followed n s /\ capabilities s = caps /\ forall i, i < n -> accepted env (log0 ++ take (S i) plan).
Definition stopped (s : Conn) : Prop := exists n, followed n s.

Lemma done_start s : log0 = sent s -> caps = capabilities s -> done_until 0 s.
Proof. intros E1 E2. split; [|split; [done|lia]]. split; [cbn; by rewrite app_nil_r|]. repeat split; lia. Qed.
Lemma done_stopped n s : done_until n s -> stopped s.
Proof. intros [H _]. by exists n. Qed.
Lemma done_ext n s s' : sent s' = sent s -> capabilities s' = capabilities s -> done_until n s -> done_until n s'.
Proof. intros E1 E2 [(Hs & H) (Hc & Ha)]. split; [unfold followed; by rewrite E1|]. by rewrite E2. Qed.
Lemma send_answer c x s s' : send env c s = (Ok x, s') -> answer env (sent s ++ [c]) = inr x.
Proof.
  unfold send, mbnd, mgets, mmodify. intros H. destruct c as [words|mech resp]; [destruct (forallb ascii_word words)|]; cbn in H;
    [|discriminate|]; (destruct (answer env _) as [e|r]; [discriminate|by injection H as ->]).
Qed.
Lemma step_send c n : plan !! n = Some c -> (0 < n -> sel) ->
  triple (done_until n) (send env c)
    (fun r s => followed (S n) s /\ (is_ok_status r.1 = true -> done_until (S n) s)) stopped.
Proof.
  intros Hc Hsel s Hd. pose proof Hd as [(Hs & Hn & Hsel0 & _) (Hcaps & Ha)]. pose proof (take_S_r _ _ _ Hc) as Ht.
  apply lookup_lt_Some in Hc as Hlt.
  set (s' := set_sent (fun l => l ++ [c]) s). assert (sent s' = log0 ++ take (S n) plan) as Es.
  { subst s'. cbn. by rewrite Hs, Ht, app_assoc. }
  assert (followed (S n) s') as Hf.
  { split; [done|]. split; [lia|]. split; [intros ?; apply Hsel; lia|]. intros i Hi. apply Ha. lia. }
  assert (post (fun r s => followed (S n) s /\ (is_ok_status r.1 = true -> done_until (S n) s)) stopped
    ((let! log := mgets sent in match answer env log with inl e => mraise (wrap_imap_errors e) "IMAP operation" | inr r => mret r end) s')) as Hrest.
  { unfold mbnd, mgets, post. cbv beta iota. rewrite Es. destruct (answer env _) as [e|[status data]] eqn:E; [by exists (S n)|].
    cbn [fst mret]. split; [done|]. intros Eok. split; [done|]. split; [done|].
    intros i Hi. destruct (decide (i = n)) as [->|]; [by exists status, data|]. apply Ha. lia. }
  unfold send. destruct c as [words|mech resp]; [|exact Hrest].
  unfold mbnd at 1. destruct (forallb ascii_word words); [exact Hrest|exact (done_stopped n s Hd)].
Qed.
Lemma keep_done {A} (m : M Conn A) n : (forall s, sent (m s).2 = sent s /\ capabilities (m s).2 = capabilities s) ->
  triple (done_until n) m (fun _ => done_until n) stopped.
Proof.
  intros H s Hs. destruct (H s) as [E1 E2]. pose proof (done_ext n s (m s).2 E1 E2 Hs) as Hd. unfold post.
  destruct (m s) as [[a|e] s']; [done|]. by apply (done_stopped n).
Qed.
Lemma step_connection n : triple (done_until n) require_connection (fun _ => done_until n) stopped.
Proof. apply keep_done. intros s. unfold require_connection, mbnd, mgets. by destruct (connected s). Qed.
Lemma step_ensure n status data op :
  triple (fun s => followed n s /\ (is_ok_status status = true -> done_until n s)) (ensure_ok status data op) (fun _ => done_until n) stopped.
Proof.
  intros s [Hf Hd]. unfold ensure_ok. destruct (is_ok_status status); [by apply Hd|]. by exists n.
Qed.
Lemma step_uid words n : plan !! n = Some (Cmd (lit "UID" :: words)) -> (0 < n -> sel) ->
  triple (done_until n) (uid_command env words) (fun _ => done_until (S n)) stopped.
Proof.
  intros Hc Hsel. unfold uid_command. eapply triple_bnd; [apply step_connection|]. intros ?.
  eapply triple_bnd; [by apply step_send|]. intros r. eapply triple_bnd; [apply step_ensure|]. intros ?. by apply triple_ret.
Qed.
Lemma step_gets {A} n (f : Conn -> A) : triple (done_until n) (mgets f) (fun a s => done_until n s /\ a = f s) stopped.
Proof. by apply triple_gets. Qed.
Lemma step_can n c : triple (done_until n) (can c) (fun b s => done_until n s /\ b = bool_decide (lit c ∈ caps)) stopped.
Proof. apply triple_gets. intros s Hs. split; [done|]. destruct Hs as (_ & <- & _). done. Qed.
Lemma step_raise {A} n c msg (Q : A -> Conn -> Prop) : triple (done_until n) (mraise c msg) Q stopped.
Proof. apply triple_raise. intros s. apply done_stopped. Qed.

(** *** The selection *)

(** The UIDVALIDITY the client reads after selecting [raw]. *)
Definition uidvalidity_of (raw : pystr) : option Z :=
  let log := log0 ++ [Cmd [lit "SELECT"; raw]] in
  match first_number (code env log "UIDVALIDITY") with
  | Some v => Some v
  | None => first_number (code env log "EXISTS")
  end.
Lemma first_sent raw s : plan !! 0 = Some (Cmd [lit "SELECT"; raw]) -> followed 1 s ->
  sent s = log0 ++ [Cmd [lit "SELECT"; raw]].
Proof. intros Hp [Hs _]. by rewrite Hs, (take_S_r _ _ _ Hp). Qed.
Lemma step_select raw expected : plan !! 0 = Some (Cmd [lit "SELECT"; raw]) ->
  triple (done_until 0) (select_folder_for_delete env raw expected)
    (fun _ s => done_until 1 s /\ forall e, expected = Some e -> uidvalidity_of raw = Some e) stopped.
Proof.
  intros Hp. unfold select_folder_for_delete. eapply triple_bnd; [apply step_connection|]. intros ?.
  eapply triple_bnd with (Q := fun data s => done_until 1 s /\ data = code env (log0 ++ [Cmd [lit "SELECT"; raw]]) "EXISTS").
  - unfold imap_select. eapply triple_bnd; [by apply step_send; [|lia]|]. intros [status data] s [Hf Hd].
    unfold mbnd, post. cbn [fst snd] in *. destruct (is_ok_status status) eqn:Eok.
    + unfold response, mgets, ensure_ok. rewrite Eok. cbn. split; [by apply Hd|]. by rewrite (first_sent raw s Hp Hf).
    + unfold mret, ensure_ok. rewrite Eok. cbn. by exists 1.
  - intros data. apply triple_pure. intros ->. destruct expected as [e|]; [|by apply triple_ret; intros s Hs; split].
    eapply triple_bnd with (Q := fun v s => done_until 1 s /\ uidvalidity_of raw = Some v).
    + unfold selected_uidvalidity, response. eapply triple_bnd; [apply step_gets|]. intros codes s [Hs ->].
      rewrite (first_sent raw s Hp (proj1 Hs)).
      unfold uidvalidity_of. cbv zeta. destruct (first_number (code env _ "UIDVALIDITY")) as [v|]; [by split|].
      destruct (first_number (code env _ "EXISTS")) as [v|]; [by split|]. by apply (done_stopped 1).
    + intros v. destruct (Z.eqb_spec v e) as [->|].
      * apply triple_ret. intros s [Hs Hv]. split; [done|]. by intros ? [= <-].
      * apply triple_raise. intros s [Hs _]. by apply (done_stopped 1).
Qed.

(** *** The end *)

Lemma step_expunge uid n :
  plan !! n = Some (Cmd [lit "UID"; lit "STORE"; number uid; lit "+FLAGS.SILENT"; lit "(\Deleted)"]) ->
  plan !! S n = Some (Cmd [lit "UID"; lit "EXPUNGE"; number uid]) -> sel -> lit "UIDPLUS" ∈ caps ->
  triple (done_until n) (expunge_selected_uid env uid) (fun _ => done_until (S (S n))) stopped.
Proof.
  intros H1 H2 Hsel Hc. unfold expunge_selected_uid. eapply triple_bnd; [apply step_can|]. intros b.
  apply triple_pure. intros ->. rewrite (bool_decide_eq_true_2 _ Hc).
  eapply triple_bnd; [by apply step_uid|]. intros ?. eapply triple_bnd; [by apply step_uid|]. intros ?. by apply triple_ret.
Qed.
End Protocol.

(** The name of the trash folder in the answer to the listing. *)
Definition listed_trash (env : server) (cfg : settings) (log : list command) : option pystr :=
  match answer env log with
  | inr (_, data) => match parse_list_responses data with Ok l => option_map lf_raw_name (choose_trash cfg l) | Err _ => None end
  | inl _ => None
  end.
Definition opening (raw : pystr) : list command := [Cmd [lit "SELECT"; raw]; Cmd [lit "LIST"; [quote; quote]; lit "*"]].
Definition expunge_plan (uid : Z) : list command :=
  [Cmd [lit "UID"; lit "STORE"; number uid; lit "+FLAGS.SILENT"; lit "(\Deleted)"]; Cmd [lit "UID"; lit "EXPUNGE"; number uid]].
(** What a deletion sends when every command is accepted. *)
Definition move_plan (env : server) (cfg : settings) (log : list command) (caps : list pystr) (raw : pystr) (uid : Z) : list command :=
  opening raw ++
  match listed_trash env cfg (log ++ opening raw) with
  | None => []
  | Some t =>
      if bool_decide (lit "MOVE" ∈ caps) then [Cmd [lit "UID"; lit "MOVE"; number uid; t]]
      else if bool_decide (lit "UIDPLUS" ∈ caps) then Cmd [lit "UID"; lit "COPY"; number uid; t] :: expunge_plan uid
      else []
  end.
Definition uid_matches (env : server) (log : list command) (raw : pystr) (expected : option Z) : Prop :=
  forall e, expected = Some e -> uidvalidity_of env log raw = Some e.

Section Operations.
Context (env : server) (cfg : settings) (log0 : list command) (caps : list pystr) (raw : pystr) (uid : Z) (expected : option Z).
#[local] Notation plan := (move_plan env cfg log0 caps raw uid).
#[local] Notation sel := (uid_matches env log0 raw expected).

Lemma step_trash : sel ->
  triple (done_until env log0 plan caps sel 1) (find_trash_folder env cfg)
    (fun r s => done_until env log0 plan caps sel 2 s /\ listed_trash env cfg (log0 ++ opening raw) = option_map lf_raw_name r)
    (stopped env log0 plan sel).
Proof.
  intros Hsel. unfold find_trash_folder, list_folders.
  eapply triple_bnd with (Q := fun l s => done_until env log0 plan caps sel 2 s
    /\ listed_trash env cfg (log0 ++ opening raw) = option_map lf_raw_name (choose_trash cfg l)).
  2: { intros l. by apply triple_ret. }
  eapply triple_bnd; [apply step_connection|]. intros ?.
  set (c := Cmd [lit "LIST"; [quote; quote]; lit "*"]).
  intros s Hd. pose proof (step_send env log0 plan caps sel c 1 eq_refl (fun _ => Hsel) s Hd) as H.
  assert (sent s = log0 ++ [Cmd [lit "SELECT"; raw]]) as Es by exact (proj1 (proj1 Hd)).
  assert (forall x s', send env c s = (Ok x, s') -> answer env (log0 ++ opening raw) = inr x) as Ha.
  { intros x s' E. apply send_answer in E. rewrite Es, <- app_assoc in E. exact E. }
  unfold mbnd at 1. unfold post in *. destruct (send env c s) as [[[status data]|e] s1] eqn:E; [|exact H].
  specialize (Ha _ _ eq_refl). destruct H as [Hf Hok]. cbn [fst snd] in *. unfold mbnd, ensure_ok.
  destruct (is_ok_status status) eqn:Eok; unfold mret, mraise, mlift; cbv beta iota; [|by exists 2].
  specialize (Hok eq_refl).
  assert (forall l, parse_list_responses data = Ok l ->
    listed_trash env cfg (log0 ++ opening raw) = option_map lf_raw_name (choose_trash cfg l)) as El.
  { intros l H. unfold listed_trash. by rewrite Ha, H. }
  destruct (parse_list_responses data) as [l|e]; [by split; [|apply El]|]. exact (done_stopped env log0 plan caps sel 2 _ Hok).
Qed.

(** How far the deletion went: the first [n] commands of the plan were sent, every one but the last was
    accepted, and nothing follows the [SELECT] of another UIDVALIDITY. *)
Definition progress (plan : list command) (n : nat) (s : Conn) : Prop := followed env log0 plan sel n s.
Definition completed (plan : list command) (s : Conn) : Prop := done_until env log0 plan caps sel (length plan) s.

Lemma move_follows :
  triple (done_until env log0 plan caps sel 0) (move_remote_message_to_trash env cfg raw uid expected)
    (fun _ s => completed plan s /\ 2 < length plan) (stopped env log0 plan sel).
Proof.
  unfold move_remote_message_to_trash. eapply triple_bnd; [by apply step_select|]. intros ?.
  apply triple_pure. intros Hsel. eapply triple_bnd; [by apply step_trash|]. intros trash.
  apply triple_pure. intros Ht. destruct trash as [f|]; [|apply step_raise].
  eapply triple_bnd; [apply step_connection|]. intros ?. eapply triple_bnd; [apply step_can|]. intros b.
  apply triple_pure. intros ->.
  remember plan as p eqn:Ep. unfold move_plan in Ep. rewrite Ht in Ep. cbn [option_map] in Ep.
  case_bool_decide; [|unfold supports_uid_expunge; eapply triple_bnd; [apply step_can|]; intros b; apply triple_pure; intros ->;
                      case_bool_decide as Hu; [|apply step_raise]]; rewrite Ep in *.
  - eapply triple_bnd; [by apply step_uid|]. intros ?. eapply triple_bnd; [by apply step_gets|].
    intros items. apply triple_ret. intros s' [Hs _]. split; [done|]. cbn. lia.
  - eapply triple_bnd; [by apply step_uid|]. intros ?. eapply triple_bnd with (Q := fun _ => done_until env log0 _ caps sel 3).
    { eapply triple_bnd; [by apply step_gets|]. intros items. apply triple_ret. by intros s' []. }
    intros r. eapply triple_bnd; [by apply step_expunge|]. intros ?. apply triple_ret.
    intros s' Hs. split; [done|]. cbn. lia.
Qed.
End Operations.

(** What a plan guarantees: the commands sent, each after the previous one was accepted, nothing on a folder
    with another UIDVALIDITY, and all of them accepted at the end. *)
Definition keeps_to {A} (env : server) (plan : list command) (sel : Prop) (s : Conn) (o : result A * Conn) : Prop :=
  exists n, sent o.2 = sent s ++ take n plan /\ n <= length plan
  /\ (forall i, S i < n -> accepted env (sent s ++ take (S i) plan))
  /\ (1 < n -> sel)
  /\ (is_ok o.1 = true -> n = length plan /\ accepted env (sent s ++ plan)).
Lemma keeps_to_intro {A} env plan sel (m : M Conn A) s (B : Prop) : 0 < length plan ->
  triple (done_until env (sent s) plan (capabilities s) sel 0) m
    (fun _ s' => done_until env (sent s) plan (capabilities s) sel (length plan) s' /\ B) (stopped env (sent s) plan sel) ->
  keeps_to env plan sel s (m s) /\ (is_ok (m s).1 = true -> B).
Proof.
  intros Hl H. specialize (H s (done_start _ _ _ _ _ _ eq_refl eq_refl)). unfold post in H.
  destruct (m s) as [[a|e] s']; [destruct H as [[(Hs & Hn & Hsel & Ha) (_ & Hall)] Hb]|destruct H as (n & Hs & Hn & Hsel & Ha)].
  - split; [|done]. exists (length plan). do 4 (split; [done|]). intros _. split; [done|].
    specialize (Hall (length plan - 1)). rewrite (take_ge _ (S _)) in Hall by lia. apply Hall. lia.
  - split; [|done]. exists n. by do 4 (split; [done|]).
Qed.

(** C18. A message leaves the server in order: moving one to the trash sends a prefix of its plan (select the
    folder, list the folders, then [UID MOVE], or [UID COPY] to the trash followed by the [\Deleted] flag and
    [UID EXPUNGE] of that UID alone), goes on only after the server accepted each command, touches nothing
    when the folder's UIDVALIDITY is not the expected one, and ends without an error only when the move, or
    the copy and the removal, were accepted. *)
Theorem move_keeps_order env cfg raw uid expected s :
  let plan := move_plan env cfg (sent s) (capabilities s) raw uid in
  let o := move_remote_message_to_trash env cfg raw uid expected s in
  keeps_to env plan (uid_matches env (sent s) raw expected) s o /\ (is_ok o.1 = true -> 2 < length plan).
Proof. apply keeps_to_intro; [cbn; lia|]. apply move_follows. Qed.

Lemma expunge_follows env log0 caps raw uid expected :
  let plan := Cmd [lit "SELECT"; raw] :: if bool_decide (lit "UIDPLUS" ∈ caps) then expunge_plan uid else [] in
  let sel := uid_matches env log0 raw expected in
  triple (done_until env log0 plan caps sel 0)
    (select_folder_for_delete env raw expected ;! expunge_selected_uid env uid)
    (fun _ s => done_until env log0 plan caps sel (length plan) s /\ length plan = 3) (stopped env log0 plan sel).
Proof.
  intros plan sel. eapply triple_bnd; [by apply step_select|]. intros ?. apply triple_pure. intros Hsel. subst plan.
  case_bool_decide as Hu.
  - intros s Hs. pose proof (step_expunge env log0 (Cmd [lit "SELECT"; raw] :: expunge_plan uid) caps sel uid 1
      eq_refl eq_refl Hsel Hu s Hs) as H. unfold post in *. by destruct (expunge_selected_uid env uid s) as [[[]|e] s'].
  - unfold expunge_selected_uid, supports_uid_expunge. eapply triple_bnd; [apply step_can|]. intros b. apply triple_pure.
    intros ->. rewrite bool_decide_eq_false_2 by done. apply step_raise.
Qed.
(** Emptying the remote trash removes one message only: it sends a prefix of [SELECT], [\Deleted] on the
    UID and [UID EXPUNGE] of the UID, never the [EXPUNGE] of a whole folder, in that order and only as far as
    the server accepts, ends without an error only when all three were accepted, and does nothing for
    Gmail. *)
Lemma expunge_keeps_order env cfg raw uid expected s :
  let plan := Cmd [lit "SELECT"; raw] :: if bool_decide (lit "UIDPLUS" ∈ capabilities s) then expunge_plan uid else [] in
  let o := expunge_remote_message env cfg raw uid expected s in
  keeps_to env plan (uid_matches env (sent s) raw expected) s o
  /\ (is_ok o.1 = true -> length plan = 3)
  /\ (oauth_provider cfg = Some (lit "google") -> o = mraise PermanentError "Gmail accounts do not support remote expunge" s).
Proof.
  intros plan o. unfold o, expunge_remote_message. case_bool_decide as Hg.
  - split; [|by split; [|intros _]]. exists 0. cbn. rewrite app_nil_r. repeat split; lia || done.
  - destruct (keeps_to_intro env plan (uid_matches env (sent s) raw expected)
      (select_folder_for_delete env raw expected ;! expunge_selected_uid env uid) s (length plan = 3)); [cbn; lia|apply expunge_follows|done].
Qed.

(** ** Connecting *)

(** A command that carries the password or a token. *)
Definition credential (c : command) : bool :=
  match c with Cmd (w :: _) => bool_decide (w = lit "LOGIN") | Cmd [] => false | Auth _ _ => true end.

Section Connecting.
Context (env : server) (cfg : settings) (token : result pystr) (log0 : list command).

(** Credentials were only sent on an encrypted connection. *)
Definition protected (s : Conn) : Prop :=
  exists l, sent s = log0 ++ l
  /\ (tls cfg = Starttls -> existsb credential l = true ->
      exists l', l = Cmd [lit "STARTTLS"] :: l' /\ accepted env (log0 ++ [Cmd [lit "STARTTLS"]])).
(** The connection is encrypted: what follows may be sent. *)
Definition secured (s : Conn) : Prop :=
  exists l, sent s = log0 ++ l
  /\ (tls cfg = Starttls -> exists l', l = Cmd [lit "STARTTLS"] :: l' /\ accepted env (log0 ++ [Cmd [lit "STARTTLS"]])).
Lemma secured_protected s : secured s -> protected s.
Proof. intros (l & E & H). exists l. by split; [|auto]. Qed.
Lemma secured_send c : keeps secured (send env c).
Proof.
  unfold send. apply keeps_bnd.
  { destruct c; [apply keeps_if; [apply keeps_ret|apply keeps_raise]|apply keeps_ret]. }
  intros ?. apply keeps_bnd.
  { apply keeps_modify. intros s (l & E & Hl). exists (l ++ [c]). cbn. rewrite E, app_assoc. split; [done|].
    intros Ht. destruct (Hl Ht) as (l' & -> & Ha). by exists (l' ++ [c]). }
  intros ?. apply keeps_bnd; [apply keeps_gets|]. intros log. destruct (answer env log); [apply keeps_raise|apply keeps_ret].
Qed.
Lemma send_outcome c s :
  match send env c s with
  | (Ok r, s') => sent s' = sent s ++ [c] /\ answer env (sent s ++ [c]) = inr r
  | (Err _, s') => sent s' = sent s \/ sent s' = sent s ++ [c]
  end.
Proof.
  unfold send, mbnd, mgets, mmodify. destruct c as [words|mech resp]; [destruct (forallb ascii_word words)|]; cbn;
    [|by left|]; (destruct (answer env _) as [e|r] eqn:E; [by right|by split]).
Qed.
Lemma secured_ensure status data op : keeps secured (ensure_ok status data op).
Proof. apply keeps_if; [apply keeps_ret|apply keeps_raise]. Qed.
Lemma secured_command c op : keeps secured (let! r := send env c in ensure_ok r.1 r.2 op).
Proof. apply keeps_bnd; [apply secured_send|]. intros r. apply secured_ensure. Qed.
Lemma secured_authenticate mechanism r : keeps secured (authenticate env mechanism r).
Proof. apply keeps_bnd; [apply keeps_lift|]. intros ?. apply secured_command. Qed.
Lemma secured_state f : (forall s, sent (f s) = sent s) -> keeps secured (mmodify f).
Proof. intros H. apply keeps_modify. intros s (l & E & Hl). exists l. by rewrite H. Qed.
Lemma secured_capabilities : keeps secured (read_capabilities env).
Proof.
  apply keeps_bnd; [apply secured_send|]. intros r. apply keeps_bnd; [apply secured_ensure|]. intros ?. by apply secured_state.
Qed.
Lemma secured_session :
  triple (fun s => sent s = log0) (open_session env cfg token) (fun _ => secured) protected.
Proof.
  unfold open_session. eapply triple_bnd with (Q := fun _ => secured).
  - destruct (tls cfg) eqn:Et.
    + apply triple_ret. intros s Hs. exists []. rewrite app_nil_r. split; [done|]. by rewrite Et.
    + intros s Hs. unfold post. destruct (mbnd _ _ s) as [r s'] eqn:E. revert E.
      assert (forall s1, sent s1 = log0 ++ [Cmd [lit "STARTTLS"]] -> protected s1) as Hp.
      { intros s1 E1. exists [Cmd [lit "STARTTLS"]]. split; [done|]. intros _ H. by vm_compute in H. }
      assert (forall s1, sent s1 = sent s -> protected s1) as H0.
      { intros s1 E1. exists []. rewrite app_nil_r, E1. split; [done|]. by intros _ [=]. }
      pose proof (send_outcome (Cmd [lit "STARTTLS"]) s) as Ho. unfold mbnd.
      destruct (send env (Cmd [lit "STARTTLS"]) s) as [[[status data]|e] s1].
      * destruct Ho as [E1 Ea]. rewrite Hs in *. unfold ensure_ok. cbn [fst snd]. destruct (is_ok_status status) eqn:Eok.
        -- unfold mret, mmodify. intros [= <- <-]. exists [Cmd [lit "STARTTLS"]]. split; [done|]. intros _. exists [].
           split; [done|]. by exists status, data.
        -- intros [= <- <-]. by apply Hp.
      * intros [= <- <-]. destruct Ho as [E1|E1]; [by apply H0|]. apply Hp. by rewrite E1, Hs.
  - intros ?. eapply triple_conseq with (P' := secured) (Q' := fun _ => secured) (E' := secured);
      [|done|done|apply secured_protected].
    apply keeps_bnd; [apply secured_capabilities|]. intros ?. apply keeps_bnd; [apply keeps_gets|]. intros disabled.
    apply keeps_bnd.
    { apply keeps_if; [apply keeps_bnd; [apply keeps_lift|intros t; apply secured_authenticate]|].
      apply keeps_if; [apply secured_authenticate|]. destruct (password cfg); [apply secured_command|apply keeps_raise]. }
    intros ?. apply keeps_bnd; [apply secured_capabilities|]. intros ?. apply keeps_bnd; [apply keeps_gets|]. intros c.
    apply keeps_if; [apply secured_command|apply keeps_ret].
Qed.
End Connecting.

(** [open_session] leaves the connection as it is but for encryption, which is on when it succeeds. *)
Definition steady (b enc : bool) (s : Conn) : Prop := connected s = b /\ (enc = true -> encrypted s = true).
Section Steady.
Context (env : server) (cfg : settings) (b : bool).
Lemma steady_send enc c : keeps (steady b enc) (send env c).
Proof.
  unfold send. apply keeps_bnd.
  { destruct c; [apply keeps_if; [apply keeps_ret|apply keeps_raise]|apply keeps_ret]. }
  intros ?. apply keeps_bnd; [by apply keeps_modify|].
  intros ?. apply keeps_bnd; [apply keeps_gets|]. intros log. destruct (answer env log); [apply keeps_raise|apply keeps_ret].
Qed.
Lemma steady_command enc c op : keeps (steady b enc) (let! r := send env c in ensure_ok r.1 r.2 op).
Proof. apply keeps_bnd; [apply steady_send|]. intros r. apply keeps_if; [apply keeps_ret|apply keeps_raise]. Qed.
Lemma steady_authenticate enc mechanism r : keeps (steady b enc) (authenticate env mechanism r).
Proof. apply keeps_bnd; [apply keeps_lift|]. intros ?. apply steady_command. Qed.
Lemma steady_capabilities enc : keeps (steady b enc) (read_capabilities env).
Proof.
  apply keeps_bnd; [apply steady_send|]. intros r. apply keeps_bnd; [apply keeps_if; [apply keeps_ret|apply keeps_raise]|].
  intros ?. by apply keeps_modify.
Qed.
Lemma steady_session token :
  triple (steady b match tls cfg with Implicit => true | Starttls => false end) (open_session env cfg token)
    (fun _ => steady b true) (steady b false).
Proof.
  unfold open_session. eapply triple_bnd with (Q := fun _ => steady b true).
  - destruct (tls cfg).
    + apply triple_ret. by intros s.
    + eapply triple_bnd; [apply steady_send|]. intros r. eapply triple_bnd with (Q := fun _ => steady b false).
      { apply keeps_if; [apply keeps_ret|apply keeps_raise]. }
      intros ?. apply triple_modify. by intros s [Hs _].
  - intros ?. eapply triple_conseq with (P' := steady b true) (Q' := fun _ => steady b true) (E' := steady b true);
      [|done|done|by intros s [Hs _]].
    apply keeps_bnd; [apply steady_capabilities|]. intros ?. apply keeps_bnd; [apply keeps_gets|]. intros disabled.
    apply keeps_bnd.
    { apply keeps_if; [apply keeps_bnd; [apply keeps_lift|intros t; apply steady_authenticate]|].
      apply keeps_if; [apply steady_authenticate|]. destruct (password cfg); [apply steady_command|apply keeps_raise]. }
    intros ?. apply keeps_bnd; [apply steady_capabilities|]. intros ?. apply keeps_bnd; [apply keeps_gets|]. intros c.
    apply keeps_if; [apply steady_command|apply keeps_ret].
Qed.
End Steady.

(** C20. Credentials are sent encrypted: with STARTTLS configured, [connect] sends a password or a token only
    when its first command was STARTTLS and the server accepted it, whatever the server answers later and
    however the attempt ends; a connection it leaves open is encrypted with either setting. *)
Theorem credentials_are_encrypted env cfg token s :
  let '(r, s') := connect env cfg token s in
  exists l, sent s' = sent s ++ l
  /\ (tls cfg = Starttls -> existsb credential l = true ->
      exists l', l = Cmd [lit "STARTTLS"] :: l' /\ accepted env (sent s ++ [Cmd [lit "STARTTLS"]]))
  /\ (connected s = false -> connected s' = true -> is_ok r = true /\ encrypted s' = true).
Proof.
  unfold connect, mbnd at 1, mgets. destruct (connected s) eqn:Ec.
  { exists []. rewrite app_nil_r. cbn. split; [done|]. split; [done|congruence]. }
  unfold open_connection, mbnd at 1. destruct (greeting env) as [e|].
  { exists []. rewrite app_nil_r. cbn. split; [done|]. split; [done|congruence]. }
  unfold mmodify at 1. set (s0 := set_encrypted _ s).
  pose proof (secured_session env cfg token (sent s) s0 eq_refl) as H.
  assert (steady false match tls cfg with Implicit => true | Starttls => false end s0) as H0.
  { by split; [|destruct (tls cfg)]. }
  apply (steady_session env cfg false token) in H0. unfold mtry at 1, mbnd at 1. unfold post in H, H0.
  destruct (open_session env cfg token s0) as [[[]|e] s1].
  - destruct H as (l & E & Hl). exists l. split; [done|]. split; [auto|]. intros _ _. split; [done|]. by apply H0.
  - destruct H as (l & E & Hl). destruct H0 as [H0 _].
    pose proof (send_outcome env (Cmd [lit "LOGOUT"]) s1) as Ho.
    assert (steady false false s1) as Hc by by split.
    apply (steady_send env false false (Cmd [lit "LOGOUT"])) in Hc. unfold post in Hc.
    unfold mtry, mbnd. destruct (send env (Cmd [lit "LOGOUT"]) s1) as [[r|e2] s2]; unfold mret, mthrow;
      (assert (sent s2 = sent s1 \/ sent s2 = sent s1 ++ [Cmd [lit "LOGOUT"]]) as [E2|E2] by (destruct Ho; auto));
      rewrite E2, E, <- ?app_assoc; eexists; (split; [reflexivity|]); (split; [|destruct Hc as [-> _]; done]);
      intros Ht; rewrite ?existsb_app, ?orb_false_r; intros Hx; destruct (Hl Ht Hx) as (l' & -> & Ha); by eexists.
Qed.

(** ** Chunks *)

Lemma chunks_of_concat {A} fuel (l : list A) : length l <= fuel -> concat (chunks_of fuel l) = l.
Proof.
  revert l. induction fuel as [|fuel IH]; intros [|a l] H; cbn in H; try done; try lia.
  cbn [chunks_of concat]. rewrite IH, take_drop; [done|]. rewrite length_drop. unfold FETCH_CHUNK_SIZE. cbn [length]. lia.
Qed.
(** The chunks ask for every message once, in order, and are never empty or longer than 500. *)
Lemma chunks_partition {A} (l : list A) :
  concat (chunks l) = l /\ Forall (fun c => c <> [] /\ length c <= FETCH_CHUNK_SIZE) (chunks l).
Proof.
  split; [by apply chunks_of_concat|]. unfold chunks. generalize (length l) as fuel. intros fuel. revert l.
  induction fuel as [|fuel IH]; intros [|a l]; cbn [chunks_of]; try constructor; [split; [done|]|apply IH].
  rewrite length_take. lia.
Qed.

(** ** What a server can observe *)

(** The line of a command, as [imaplib] puts it together. *)
Definition line (words : list pystr) : pystr := concat (map (fun w => space :: w) words).
(** A folder whose name has a space is not selected: the words run together, as for a command with two
    arguments. *)
Lemma name_with_space_is_split :
  line [lit "EXAMINE"; lit "Sent Mail"] = line [lit "EXAMINE"; lit "Sent"; lit "Mail"].
Proof. reflexivity. Qed.
(** Gmail labels are written between quotes but not escaped: one with a quotation mark reads as two. *)
Lemma label_is_not_escaped :
  let label raw := paren_open :: quote :: raw ++ [quote; paren_close] in
  label [97; quote; space; quote; 98]%Z
  = paren_open :: [quote; 97; quote]%Z ++ space :: [quote; 98; quote]%Z ++ [paren_close].
Proof. reflexivity. Qed.
(** A server that sends no UIDVALIDITY has its number of messages taken for one. *)
Lemma exists_taken_for_uidvalidity env log raw :
  (forall log', code env log' "UIDVALIDITY" = [Nothing]) -> (forall log', code env log' "EXISTS" = [Raw (lit "17")]) ->
  uidvalidity_of env log raw = Some 17%Z.
Proof. intros H1 H2. unfold uidvalidity_of. cbv zeta. rewrite H1, H2. reflexivity. Qed.
(** A folder name sent as a literal makes the listing fail: what follows the literal is no [LIST] response. *)
Lemma literal_name_ends_listing metadata name :
  parse_list_responses [Pair metadata name; Raw []] = raise PermanentError "invalid IMAP LIST response".
Proof. reflexivity. Qed.
(** A trash folder configured under a name that is not ASCII is not encoded: no deletion can name it. *)
Lemma configured_trash_not_encoded env cfg :
  remote_trash_folder cfg = Some [0x30B4; 0x30DF]%Z ->
  option_map lf_raw_name (choose_trash cfg []) = Some [0x30B4; 0x30DF]%Z
  /\ forall uid s, (send env (Cmd [lit "UID"; lit "MOVE"; number uid; [0x30B4; 0x30DF]%Z]) s).2 = s.
Proof.
  intros H. split; [unfold choose_trash; cbn -[casefold]; by rewrite H|]. intros uid s. unfold send, mbnd.
  replace (forallb ascii_word _) with false; [done|]. cbn -[ascii_word number]. rewrite andb_false_r. done.
Qed.
