(* ===== verification/SearchQuery.v ===== *)
(** * SearchQuery: from user text to a search plan

    [usecases/search_query.py]. Text is a list of code points; the loops that advance [position]
    consume the remaining suffix instead. [normalize_for_search] (NFKC, case folding, whitespace)
    is a parameter. *)

From S2P Require Import Prelude Errors PyText.

Definition quote : Z := 34.
Definition minus : Z := 45.
Definition backslash : Z := 92.
Definition percent : Z := 37.
Definition under : Z := 95.

Inductive search_mode := ModeAnd | ModeOr.

Record SearchPlan := Plan {
  match_terms : list pystr;
  like_terms : list pystr;
  exclude_match_terms : list pystr;
  exclude_like_terms : list pystr;
  plan_mode : search_mode;
  has_slow_path : bool;
}.

(** [_read_phrase], after the opening quote; returns the phrase and the remaining text. *)
Fixpoint read_phrase (characters text : pystr) : result (pystr * pystr) :=
  match text with
  | [] => raise SearchQueryError "search query contains an unterminated quote"
  | c :: rest =>
      if (c =? quote)%Z then
        match rest with
        | d :: rest' =>
            if (d =? quote)%Z then read_phrase (quote :: characters) rest'
            else if is_space d then Ok (rev characters, rest)
            else raise SearchQueryError "quoted phrases must be separated by whitespace"
        | [] => Ok (rev characters, rest)
        end
      else read_phrase (c :: characters) rest
  end.

(** The [else] branch of the term: everything up to the next whitespace, quotes refused. *)
Fixpoint read_word (characters text : pystr) : result (pystr * pystr) :=
  match text with
  | [] => Ok (rev characters, [])
  | c :: rest =>
      if is_space c then Ok (rev characters, text)
      else if (c =? quote)%Z then raise SearchQueryError "search query contains an invalid quote"
      else read_word (c :: characters) rest
  end.

Fixpoint skip_spaces (text : pystr) : pystr :=
  match text with
  | c :: rest => if is_space c then skip_spaces rest else text
  | [] => []
  end.

(** One term at a non-space character: its exclusion flag, the raw term, the rest. *)
Definition read_term (text : pystr) : result (bool * pystr * pystr) :=
  let excluded := match text with c :: _ => (c =? minus)%Z | [] => false end in
  let text := if excluded then tl text else text in
  check (negb (excluded && match text with [] => true | c :: _ => is_space c end))
    SearchQueryError "search query contains an invalid exclusion" ;?
  let? term := match text with
               | c :: rest => if (c =? quote)%Z then read_phrase [] rest else read_word [] text
               | [] => read_word [] text
               end in
  let (raw_term, rest) := (term : pystr * pystr) in
  check (negb (bool_decide (raw_term = []))) SearchQueryError
    "search query contains an empty phrase" ;?
  Ok (excluded, raw_term, rest).

(** The outer loop; each iteration consumes at least one character, so [length text] is enough. *)
Fixpoint tokenize_loop (fuel : nat) (tokens : list (bool * pystr)) (text : pystr)
    : result (list (bool * pystr)) :=
  match skip_spaces text with
  | [] => Ok (rev tokens)
  | text' =>
      match fuel with
      | O => Ok (rev tokens)
      | S fuel =>
          let? term := read_term text' in
          let '(excluded, raw_term, rest) := term in
          tokenize_loop fuel ((excluded, raw_term) :: tokens) rest
      end
  end.

(** [_tokenize] *)
Definition tokenize (text : pystr) : result (list (bool * pystr)) :=
  let? tokens := tokenize_loop (length text) [] text in
  check (negb (negb (bool_decide (tokens = [])) && forallb fst tokens))
    SearchQueryError "search query must contain an included term" ;?
  Ok tokens.

(** [str.replace] of one character by a text. *)
Definition replace1 (c : Z) (by_ : pystr) (s : pystr) : pystr :=
  flat_map (fun d => if (d =? c)%Z then by_ else [d]) s.

Definition escape_fts_term (term : pystr) : pystr :=
  [quote] ++ replace1 quote [quote; quote] term ++ [quote].

Definition escape_like_term (term : pystr) : pystr :=
  let escaped := replace1 backslash [backslash; backslash] term in
  let escaped := replace1 percent [backslash; percent] escaped in
  replace1 under [backslash; under] escaped.

Section Parse.
Context (normalize_for_search : pystr -> pystr).

(** The body of the [for] loop of [parse_query]. *)
Definition add_term (plan : SearchPlan) (token : bool * pystr) : result SearchPlan :=
  let (excluded, raw_term) := token in
  let term := normalize_for_search raw_term in
  check (negb (bool_decide (term = []))) SearchQueryError
    "search query contains an empty term" ;?
  let '(Plan m l xm xl mode slow) := plan in
  Ok (if (3 <=? length term)%nat then
        let t := escape_fts_term term in
        if excluded then Plan m l (xm ++ [t]) xl mode slow else Plan (m ++ [t]) l xm xl mode slow
      else
        let t := escape_like_term term in
        if excluded then Plan m l xm (xl ++ [t]) mode slow else Plan m (l ++ [t]) xm xl mode slow).

Fixpoint add_terms (plan : SearchPlan) (tokens : list (bool * pystr)) : result SearchPlan :=
  match tokens with
  | [] => Ok plan
  | token :: tokens => let? plan := add_term plan token in add_terms plan tokens
  end.

(** [parse_query]; the [mode] test is the type of [search_mode]. *)
Definition parse_query (text : pystr) (mode : search_mode) : result SearchPlan :=
  let? tokens := tokenize text in
  check (negb (bool_decide (tokens = []))) SearchQueryError
    "search query must contain a term" ;?
  let? plan := add_terms (Plan [] [] [] [] mode false) tokens in
  Ok (Plan (match_terms plan) (like_terms plan) (exclude_match_terms plan)
        (exclude_like_terms plan) mode
        (negb (bool_decide (like_terms plan = []) && bool_decide (exclude_like_terms plan = [])))).
End Parse.

(** ** SQLite's readers of the escaped terms *)

(** [x LIKE pattern ESCAPE '\']: percent matches any text, underscore one character, the escape
    character makes the next one literal; letters compare without ASCII case. *)
Definition same_char (c d : Z) : bool :=
  let low x := if ((65 <=? x) && (x <=? 90))%Z then (x + 32)%Z else x in (low c =? low d)%Z.

Fixpoint like_match (pattern text : pystr) {struct pattern} : bool :=
  match pattern with
  | [] => match text with [] => true | _ => false end
  | c :: p =>
      if (c =? percent)%Z then
        (fix any (t : pystr) : bool :=
           like_match p t || match t with [] => false | _ :: t' => any t' end) text
      else if (c =? under)%Z then match text with [] => false | _ :: t => like_match p t end
      else if (c =? backslash)%Z then
        match p, text with
        | d :: p', e :: t => same_char d e && like_match p' t
        | _, _ => false
        end
      else match text with [] => false | e :: t => same_char c e && like_match p t end
  end.

(** An FTS5 string: the text between the outer quotes, doubled quotes undone. *)
Fixpoint fts_string_body (text : pystr) : option pystr :=
  match text with
  | [] => None
  | c :: rest =>
      if (c =? quote)%Z then
        match rest with
        | [] => Some []
        | d :: rest' => if (d =? quote)%Z then option_map (cons quote) (fts_string_body rest')
                        else None
        end
      else option_map (cons c) (fts_string_body rest)
  end.
Definition fts_string (text : pystr) : option pystr :=
  match text with c :: rest => if (c =? quote)%Z then fts_string_body rest else None | [] => None end.

(** ** LIKE terms are literal *)

Definition esc (c : Z) : pystr :=
  if ((c =? backslash) || (c =? percent) || (c =? under))%Z then [backslash; c] else [c].

Lemma flat_map_flat_map {A B C} (f : A -> list B) (g : B -> list C) l :
  flat_map g (flat_map f l) = flat_map (fun x => flat_map g (f x)) l.
Proof. induction l as [|x l IH]; simpl; [done|]. by rewrite flat_map_app, IH. Qed.

(** The three successive replacements are one pass over the characters. *)
Lemma escape_like_term_esc t : escape_like_term t = flat_map esc t.
Proof.
  unfold escape_like_term, replace1. rewrite !flat_map_flat_map. apply flat_map_ext. intros c.
  unfold esc. destruct (c =? backslash)%Z eqn:E1; bsimp; [by subst|].
  destruct (c =? percent)%Z eqn:E2; bsimp; [by subst|].
  destruct (c =? under)%Z eqn:E3; bsimp; [by subst|]. simpl.
  apply Z.eqb_neq in E2, E3. rewrite E2. simpl. by rewrite E3.
Qed.

Lemma like_percent p text :
  like_match (percent :: p) text = true <-> exists a b, text = a ++ b /\ like_match p b = true.
Proof.
  cbn [like_match]. rewrite Z.eqb_refl. induction text as [|c text IH]; simpl.
  - rewrite orb_false_r. split; [intros H; by exists [], []|].
    intros (a & b & E & H). symmetry in E. by apply app_eq_nil in E as [-> ->].
  - rewrite orb_true_iff, IH. split.
    + intros [H|(a & b & -> & H)]; [by exists [], (c :: text) | by exists (c :: a), b].
    + intros ([|d a] & b & E & H); simpl in E; [left; by subst|].
      injection E as -> ->. right. by exists a, b.
Qed.

Lemma like_esc c p text :
  like_match (esc c ++ p) text = true
  <-> exists e t, text = e :: t /\ same_char c e = true /\ like_match p t = true.
Proof.
  unfold esc. destruct (c =? backslash)%Z eqn:E1; [|destruct (c =? percent)%Z eqn:E2;
    [|destruct (c =? under)%Z eqn:E3]]; bsimp; subst; simpl;
    try (rewrite (proj2 (Z.eqb_neq c percent)), (proj2 (Z.eqb_neq c under)),
           (proj2 (Z.eqb_neq c backslash)) by done);
    (destruct text as [|e t]; [split; [done | by intros (? & ? & ? & _)]|]);
    rewrite andb_true_iff; (split; [by intros []; eauto | by intros (? & ? & [= <- <-] & ? & ?)]).
Qed.

Lemma like_escaped t p text :
  like_match (flat_map esc t ++ p) text = true
  <-> exists m b, text = m ++ b /\ Forall2 (fun c e => same_char c e = true) t m
                  /\ like_match p b = true.
Proof.
  revert text. induction t as [|c t IH]; intros text; simpl.
  - split; [intros H; by exists [], text|]. intros (m & b & -> & Hm & H).
    by inversion Hm; subst.
  - rewrite <- app_assoc, like_esc. split.
    + intros (e & r & -> & Hs & (m & b & -> & Hm & H)%IH). exists (e :: m), b.
      repeat split; [by constructor | done].
    + intros (m & b & -> & Hm & H). inversion Hm as [|? e ? m' Hs Hm']; subst.
      exists e, (m' ++ b). repeat split; [done|]. apply IH. eauto.
Qed.

(** A short search term is matched literally: the pattern the repository builds from the
    escaped term matches exactly the columns that contain the term as a substring (letters
    compared without ASCII case), whatever percent signs, underscores or backslashes it holds. *)
Lemma like_term_literal term text :
  like_match ([percent] ++ escape_like_term term ++ [percent]) text = true
  <-> exists a m b, text = a ++ m ++ b /\ Forall2 (fun c e => same_char c e = true) term m.
Proof.
  rewrite escape_like_term_esc. simpl app. rewrite like_percent. split.
  - intros (a & b & -> & (m & b' & -> & Hm & _)%like_escaped). by exists a, m, b'.
  - intros (a & m & b & -> & Hm). exists a, (m ++ b). split; [done|]. apply like_escaped.
    exists m, b. repeat split; [done|]. apply like_percent. exists b, []. by rewrite app_nil_r.
Qed.

(** A long search term is one FTS5 string: reading the quoted term back, with doubled quotes
    undone, gives the term, so no character of it acts as FTS5 syntax. *)
Lemma fts_term_roundtrip term : fts_string (escape_fts_term term) = Some term.
Proof.
  unfold escape_fts_term, fts_string. simpl. unfold replace1.
  induction term as [|c t IH]; [done|]. cbn [flat_map].
  destruct (c =? quote)%Z eqn:E; cbn [app fts_string_body]; rewrite ?E, ?Z.eqb_refl, IH; simpl; [|done].
  apply Z.eqb_eq in E. by subst.
Qed.

(** ** Tokenization *)

Lemma skip_spaces_length text : (length (skip_spaces text) <= length text)%nat.
Proof. induction text as [|c t IH]; simpl; [lia|]. case_match; simpl; lia. Qed.

Lemma read_phrase_length text : forall cs out rest,
  read_phrase cs text = Ok (out, rest) -> (length rest < length text)%nat.
Proof.
  induction text as [text IH] using (induction_ltof1 _ (@length Z)); unfold ltof in IH.
  intros cs out rest. destruct text as [|c t]; simpl; [done|].
  destruct (c =? quote)%Z; [|intros Hr%IH; simpl; lia].
  destruct t as [|d t]; [intros [= <- <-]; simpl; lia|].
  destruct (d =? quote)%Z; [intros Hr%IH; simpl; lia|].
  destruct (is_space d); [intros [= <- <-]; simpl; lia | done].
Qed.

Lemma read_word_length text : forall cs out rest,
  read_word cs text = Ok (out, rest) ->
  (length rest + length out = length text + length cs)%nat.
Proof.
  induction text as [|c t IH]; intros cs out rest; simpl.
  - intros [= <- <-]. rewrite length_rev. simpl. lia.
  - repeat case_match; try done.
    + intros [= <- <-]. rewrite length_rev. simpl. lia.
    + intros Hr%IH. simpl in Hr. lia.
Qed.

Lemma read_term_length text ex out rest :
  read_term text = Ok (ex, out, rest) -> (length rest < length text)%nat.
Proof.
  unfold read_term.
  intros ([] & _ & ((raw & r) & Hread & ([] & Hne%check_ok & [= <- <- <-])%rbind_ok)%rbind_ok)%rbind_ok.
  bsimp.
  assert (length (if match text with [] => false | c :: _ => (c =? minus)%Z end then tl text else text)
          <= length text)%nat as Ht by (destruct text as [|c t]; [simpl; lia|]; destruct (c =? minus)%Z; cbn [tl length]; lia).
  revert Hread Ht. generalize (if match text with [] => false | c :: _ => (c =? minus)%Z end
                               then tl text else text). intros t Hread Ht.
  destruct t as [|c t'] eqn:Et; [by injection Hread as <- <-|].
  destruct (c =? quote)%Z.
  - apply read_phrase_length in Hread. simpl in Ht. lia.
  - apply read_word_length in Hread. destruct raw; [done|]. simpl in *. lia.
Qed.

(** Enough fuel: more of it changes nothing. *)
Lemma tokenize_fuel fuel : forall tokens text,
  (length text <= fuel)%nat ->
  tokenize_loop fuel tokens text = tokenize_loop (S fuel) tokens text.
Proof.
  induction fuel as [|fuel IH]; intros tokens text Hl;
    cbn [tokenize_loop]; pose proof (skip_spaces_length text) as Hs;
    destruct (skip_spaces text) as [|c t] eqn:E; try done.
  - simpl in *; lia.
  - destruct (read_term (c :: t)) as [[[ex raw] rest]|e] eqn:Er; [|done]. cbn [rbind].
    apply read_term_length in Er. simpl in *. apply IH. lia.
Qed.

Lemma tokenize_fuel_more n m tokens text :
  (length text <= n)%nat -> (n <= m)%nat -> tokenize_loop m tokens text = tokenize_loop n tokens text.
Proof.
  intros Hl Hm. induction Hm as [|m Hm IH]; [done|]. rewrite <- tokenize_fuel; [done | lia].
Qed.

(** A token written so that no character of it acts as query syntax: quoted, quotes doubled. *)
Definition render_token (token : bool * pystr) : pystr :=
  (if token.1 then [minus] else []) ++ escape_fts_term token.2.

Fixpoint render (tokens : list (bool * pystr)) : pystr :=
  match tokens with
  | [] => []
  | token :: tokens => render_token token ++ [32%Z] ++ render tokens
  end.

Lemma read_phrase_quoted t : forall cs rest,
  match rest with [] => True | c :: _ => is_space c = true end ->
  read_phrase cs (replace1 quote [quote; quote] t ++ quote :: rest) = Ok (rev cs ++ t, rest).
Proof.
  induction t as [|c t IH]; intros cs rest Hr; cbn [replace1 flat_map app].
  - simpl. rewrite app_nil_r. destruct rest as [|d rest]; [done|].
    destruct (d =? quote)%Z eqn:E; [|by rewrite Hr].
    apply Z.eqb_eq in E. subst. by vm_compute in Hr.
  - fold (replace1 quote [quote; quote] t).
    destruct (c =? quote)%Z eqn:E; cbn [app read_phrase]; rewrite ?E, ?Z.eqb_refl, IH by done; simpl.
    + apply Z.eqb_eq in E. subst. by rewrite <- app_assoc.
    + by rewrite <- app_assoc.
Qed.

Lemma read_term_rendered token rest :
  token.2 <> [] -> match rest with [] => True | c :: _ => is_space c = true end ->
  read_term (render_token token ++ rest) = Ok (token, rest).
Proof.
  intros Hne Hr. destruct token as [ex t]. simpl in Hne. unfold render_token, escape_fts_term. simpl.
  destruct ex; unfold read_term; simpl; rewrite <- app_assoc; simpl;
    rewrite read_phrase_quoted by done; simpl; by rewrite bool_decide_eq_false_2.
Qed.

Lemma tokenize_loop_space fuel acc text :
  tokenize_loop fuel acc (32%Z :: text) = tokenize_loop fuel acc text.
Proof. by destruct fuel. Qed.

Lemma tokenize_rendered tokens : forall fuel acc,
  Forall (fun token => token.2 <> []) tokens -> (length tokens <= fuel)%nat ->
  tokenize_loop fuel acc (render tokens) = Ok (rev acc ++ tokens).
Proof.
  induction tokens as [|token tokens IH]; intros fuel acc Hne Hf.
  - destruct fuel; simpl; by rewrite app_nil_r.
  - inversion Hne as [|? ? Ht Hts]; subst. destruct fuel as [|fuel]; [simpl in Hf; lia|].
    assert (skip_spaces (render (token :: tokens)) = render (token :: tokens)) as Hs
      by (destruct token as [[] t]; reflexivity).
    cbn [tokenize_loop]. rewrite Hs.
    destruct (render (token :: tokens)) as [|c text] eqn:E; [by destruct token as [[] t]|].
    rewrite <- E. cbn [render]. rewrite read_term_rendered by done. cbn [rbind].
    destruct token as [ex t]. change ([32%Z] ++ render tokens) with (32%Z :: render tokens).
    rewrite tokenize_loop_space, IH by (done || (simpl in Hf; lia)). simpl. by rewrite <- app_assoc.
Qed.

Lemma render_length tokens : (length tokens <= length (render tokens))%nat.
Proof. induction tokens as [|token tokens IH]; simpl; [lia|]. rewrite length_app. simpl. lia. Qed.

(** Every list of terms can be searched for: written as quoted phrases (quotes doubled,
    exclusions prefixed by a minus sign) and separated by spaces, the terms are read back exactly,
    whatever characters they contain, as long as none is empty and one of them is included. *)
Lemma tokenize_render tokens :
  Forall (fun token => token.2 <> []) tokens -> existsb (fun token => negb token.1) tokens = true ->
  tokenize (render tokens) = Ok tokens.
Proof.
  intros Hne Hin. unfold tokenize.
  rewrite (tokenize_rendered tokens _ []) by (done || apply render_length). simpl.
  enough (forallb fst tokens = false) as -> by (by rewrite andb_false_r).
  apply not_true_iff_false. intros Hall. rewrite forallb_forall in Hall.
  apply existsb_exists in Hin as (token & Hin & Hf). rewrite (Hall _ Hin) in Hf. done.
Qed.

(** ** The plan of a query *)

Section Plans.
Context (normalize_for_search : pystr -> pystr).

Definition term_of (token : bool * pystr) : pystr := normalize_for_search token.2.

(** The normalized terms of one kind, in the order of the query. *)
Definition terms_of (excluded long : bool) (tokens : list (bool * pystr)) : list pystr :=
  map term_of (List.filter (fun token =>
    Bool.eqb token.1 excluded && Bool.eqb (3 <=? length (term_of token))%nat long) tokens).

Lemma terms_of_cons excluded long token tokens :
  terms_of excluded long (token :: tokens)
  = (if Bool.eqb token.1 excluded && Bool.eqb (3 <=? length (term_of token))%nat long then [term_of token] else [])
    ++ terms_of excluded long tokens.
Proof. unfold terms_of. simpl. by case_match. Qed.

Definition plan_of (mode : search_mode) (tokens : list (bool * pystr)) : SearchPlan :=
  let likes excluded := map escape_like_term (terms_of excluded false tokens) in
  Plan (map escape_fts_term (terms_of false true tokens)) (likes false)
    (map escape_fts_term (terms_of true true tokens)) (likes true) mode
    (existsb (fun token => (length (term_of token) <? 3)%nat) tokens).

Definition plan_app (p : SearchPlan) (tokens : list (bool * pystr)) : SearchPlan :=
  Plan (match_terms p ++ map escape_fts_term (terms_of false true tokens))
    (like_terms p ++ map escape_like_term (terms_of false false tokens))
    (exclude_match_terms p ++ map escape_fts_term (terms_of true true tokens))
    (exclude_like_terms p ++ map escape_like_term (terms_of true false tokens))
    (plan_mode p) (has_slow_path p).

Lemma add_terms_plan tokens : forall p q,
  add_terms normalize_for_search p tokens = Ok q ->
  q = plan_app p tokens /\ Forall (fun token => term_of token <> []) tokens.
Proof.
  induction tokens as [|[ex raw] tokens IH]; intros p q; cbn [add_terms].
  - intros [= <-]. split; [|done]. destruct p. unfold plan_app. simpl. by rewrite !app_nil_r.
  - intros (p' & ([] & Hne%check_ok & Hp)%rbind_ok & Hq)%rbind_ok.
    apply IH in Hq as [-> Hts]. bsimp.
    split; [|constructor; done]. destruct p as [m l xm xl mode slow]. apply Ok_inj in Hp as <-.
    unfold plan_app. rewrite !terms_of_cons. unfold term_of; cbn [fst snd].
    destruct ex, (3 <=? length (normalize_for_search raw))%nat; simpl; by rewrite <- ?app_assoc.
Qed.

Lemma has_slow_path_terms tokens :
  negb (bool_decide (map escape_like_term (terms_of false false tokens) = [])
        && bool_decide (map escape_like_term (terms_of true false tokens) = []))
  = existsb (fun token => (length (term_of token) <? 3)%nat) tokens.
Proof.
  induction tokens as [|token tokens IH]; [done|]. cbn [existsb]. rewrite <- IH.
  rewrite !terms_of_cons, (Nat.ltb_antisym 3 (length (term_of token))).
  destruct token as [[] raw], (3 <=? length (term_of (_, raw)))%nat; simpl;
    rewrite ?andb_false_r; done.
Qed.

(** A query the parser accepts becomes the plan of its tokens: each term, normalized as the
    index is, sits in the list of its kind (included or excluded, FTS for three characters or
    more, LIKE below) in the order of the query; the slow path is flagged exactly when some term
    is short; no term is empty and at least one included term remains to search for. *)
Lemma parse_query_plan text mode plan :
  parse_query normalize_for_search text mode = Ok plan ->
  exists tokens,
    tokenize text = Ok tokens /\ plan = plan_of mode tokens
    /\ Forall (fun token => term_of token <> []) tokens
    /\ match_terms plan ++ like_terms plan <> [].
Proof.
  unfold parse_query.
  intros (tokens & Htok & ([] & Hne%check_ok & (q & Hq & [= <-])%rbind_ok)%rbind_ok)%rbind_ok.
  apply add_terms_plan in Hq as [-> Hall]. exists tokens. cbn [match_terms like_terms plan_app
    exclude_match_terms exclude_like_terms app].
  rewrite has_slow_path_terms. split_and!; [done|done|done|].
  apply rbind_ok in Htok as (tokens' & _ & ([] & Hinc%check_ok & [= ->])%rbind_ok). bsimp.
  destruct (forallb fst tokens) eqn:E; [by destruct tokens; naive_solver|].
  clear -E. intros [Hm Hl]%app_eq_nil. apply map_eq_nil in Hm, Hl. revert E Hm Hl.
  induction tokens as [|[[] raw] tokens IH]; [done|..]; rewrite !terms_of_cons; cbn [fst].
  - done.
  - by destruct (3 <=? length (term_of (false, raw)))%nat.
Qed.
End Plans.

