(* ===== verification/Manifest.v ===== *)
(** * Manifest: the append-only event log of an account

    [infrastructure/storage/manifest.py]: the schema of the events, the line format (JSON, CRC32
    suffix, newline), the writer with its checkpoint sequence, the reader that cuts a torn tail,
    and the queries recovery starts from. A file is its list of bytes. Exception messages are
    abbreviated where the code formats a value into them. *)

From S2P Require Import Prelude Errors PyText PyTime Accounts Json.
From Stdlib Require Import Ascii.

Open Scope string_scope.

(** ** The event schema *)

Definition get (f : string) (e : event) : option json := dict_get f e.

Definition MANIFEST_EVENTS : list string :=
  ["fetch"; "fetch_skipped"; "parse_failed"; "delete_detected"; "moved"; "remote_state_unknown";
   "checkpoint"; "account_snapshot"; "folder_snapshot"; "purge_intent"; "purged";
   "remote_delete_intent"; "remote_delete_completed"; "remote_delete_uncertain";
   "message_membership_snapshot"; "message_identity_linked"].
Definition FETCH_FIELDS : list string :=
  ["event"; "account_id"; "folder_raw_name"; "uid"; "uidvalidity"; "source_item_key"; "message_id";
   "relative_path"; "file_hash"; "size_bytes"; "timestamp"; "deduplicated"].
Definition CHECKPOINT_FIELDS : list string :=
  ["event"; "account_id"; "timestamp"; "sequence"; "batch_id"].
Definition ACCOUNT_SNAPSHOT_FIELDS : list string :=
  ["event"; "account_id"; "provider_type"; "display_name"; "host"; "port"; "username"; "timestamp"].
Definition FOLDER_SNAPSHOT_FIELDS : list string :=
  ["event"; "account_id"; "folder_raw_name"; "display_name"; "uidvalidity"; "delimiter"; "timestamp"].
Definition PURGE_FIELDS : list string :=
  ["event"; "account_id"; "source_item_key"; "relative_path"; "file_hash"; "timestamp";
   "shared_reference_count"; "physical_delete"].
Definition REMOTE_DELETE_FIELDS : list string :=
  ["event"; "account_id"; "folder_raw_name"; "uid"; "uidvalidity"; "mode"; "timestamp"].
Definition MOVED_FIELDS : list string :=
  ["event"; "account_id"; "folder_raw_name"; "moved_to_folder_raw_name"; "uid"; "uidvalidity";
   "source_item_key"; "timestamp"].
Definition MEMBERSHIP_SNAPSHOT_FIELDS : list string :=
  ["event"; "account_id"; "source_item_key"; "memberships"; "timestamp"].
Definition IDENTITY_LINK_FIELDS : list string :=
  ["event"; "account_id"; "canonical_source_item_key"; "alias_source_item_key"; "evidence_kind";
   "file_hash"; "timestamp"].
Definition SECRET_FIELD_PARTS : list string :=
  ["password"; "passwd"; "secret"; "token"; "credential"].

(** [isinstance(v, int) and not isinstance(v, bool)], and the other type tests. *)
Definition is_int (v : option json) : bool := match v with Some (JInt _) => true | _ => false end.
Definition is_int_or_bool (v : option json) : bool :=
  match v with Some (JInt _) | Some (JBool _) => true | _ => false end.
Definition is_bool (v : option json) : bool := match v with Some (JBool _) => true | _ => false end.
Definition is_str (v : option json) : bool := match v with Some (JStr _) => true | _ => false end.
(** [v is None]: absent, or JSON null. *)
Definition is_none (v : option json) : bool := match v with None | Some JNull => true | _ => false end.
Definition is_text (v : option json) : bool :=
  match v with Some (JStr s) => s != "" | _ => false end.

(** [f in payload] *)
Definition present (v : option json) : bool := match v with Some _ => true | None => false end.
(** [f not in payload or isinstance(payload[f], (bool, int))] *)
Definition absent_or_int (v : option json) : bool :=
  match v with None => true | _ => is_int_or_bool v end.
Definition is_count (v : option json) : bool :=
  match v with Some (JInt n) => (0 <=? n)%Z | _ => false end.
Definition is_delete_mode (v : option json) : bool :=
  match v with Some (JStr m) => mem m ["trash"; "expunge"] | _ => false end.
Definition is_label_list (v : option json) : bool :=
  match v with
  | None | Some JNull => true
  | Some (JList labels) => forallb (fun l => is_str (Some l)) labels
  | _ => false
  end.

(** [_parse_timestamp] *)
Definition ends_with_Z (s : string) : bool :=
  match last (bytes_of s) with Some c => (c =? 90)%Z | None => false end.
Definition parse_timestamp (v : option json) : result datetime :=
  match v with
  | Some (JStr value) =>
      let normalized := if ends_with_Z value
                        then string_of (removelast (bytes_of value)) +:+ "+00:00" else value in
      match fromisoformat normalized with
      | Some t => Ok t
      | None => raise ValueError "manifest event timestamp is invalid"
      end
  | _ => raise ValueError "manifest event timestamp must be an ISO-8601 string"
  end.

Definition require_fields (payload : event) (fields : list string) : result unit :=
  check (forallb (fun f => present (get f payload)) fields) ValueError
    "event is missing required fields".
Definition require_text (payload : event) (f : string) : result unit :=
  check (is_text (get f payload)) TypeError "event field must be a non-empty string".
Fixpoint require_texts (payload : event) (fs : list string) : result unit :=
  match fs with [] => Ok tt | f :: fs => require_text payload f ;? require_texts payload fs end.

(** [_validate_checkpoint_sequence] *)
Definition validate_checkpoint_sequence (sequence : option json) (previous : option Z) : result Z :=
  match sequence with
  | Some (JInt n) =>
      check (0 <=? n)%Z ValueError "checkpoint event sequence must be a non-negative integer" ;?
      check (match previous with Some p => (p <? n)%Z | None => true end) ValueError
        "checkpoint event sequence must increase monotonically" ;?
      Ok n
  | _ => raise ValueError "checkpoint event sequence must be a non-negative integer"
  end.

(** One entry of a membership snapshot. *)
Definition validate_membership (membership : json) : result unit :=
  match membership with
  | JObj m =>
      check (is_text (get "folder_raw_name" m)) TypeError "membership snapshot folder_raw_name" ;?
      check (is_text (get "remote_state" m)) TypeError "membership snapshot remote_state" ;?
      check (forallb (fun f => is_none (get f m) || is_int (get f m)) ["uid"; "uidvalidity"])
        TypeError "membership snapshot field must be an integer or null" ;?
      check (forallb (fun f => is_none (get f m) || is_str (get f m))
               ["moved_to_folder_raw_name"; "imap_flags"; "flags_seen_at"; "last_seen_at"])
        TypeError "membership snapshot field must be a string or null"
  | _ => raise TypeError "membership snapshot entries must be objects"
  end.
Fixpoint validate_memberships (l : list json) : result unit :=
  match l with [] => Ok tt | m :: l => validate_membership m ;? validate_memberships l end.

Definition validate_membership_list (v : option json) : result unit :=
  match v with
  | Some (JList memberships) => validate_memberships memberships
  | _ => raise TypeError "message_membership_snapshot memberships must be a list"
  end.

(** [part in field] *)
Fixpoint is_prefix (p s : pystr) : bool :=
  match p, s with
  | [], _ => true
  | a :: p, b :: s => (a =? b)%Z && is_prefix p s
  | _, [] => false
  end.
Fixpoint contains (p s : pystr) : bool :=
  is_prefix p s || match s with [] => false | _ :: s => contains p s end.
Definition is_secret_field (f : string) : bool :=
  existsb (fun part => contains (lit part) (casefold (code_points f))) SECRET_FIELD_PARTS.

(** The branch of [_validate_event] for each event name. *)
Definition validate_fields (name : string) (payload : event) : result unit :=
  let v f := get f payload in
  if name == "fetch" then
    require_fields payload FETCH_FIELDS ;?
    check (is_int (v "uid")) TypeError "fetch event uid must be an integer" ;?
    check (is_int (v "uidvalidity")) TypeError "fetch event uidvalidity must be an integer" ;?
    check (is_int (v "size_bytes")) TypeError "fetch event size_bytes must be an integer" ;?
    check (is_bool (v "deduplicated")) TypeError "fetch event deduplicated must be a boolean" ;?
    check (is_none (v "internal_date") || is_str (v "internal_date")) TypeError
      "fetch event internal_date must be an ISO-8601 string or null" ;?
    if is_none (v "internal_date") then Ok tt
    else let? _ := parse_timestamp (v "internal_date") in Ok tt
  else if name == "fetch_skipped" then
    require_fields payload ["uid"; "uidvalidity"; "size_bytes"; "reason"] ;?
    check (negb (present (v "relative_path") || present (v "file_hash"))) ValueError
      "fetch_skipped events must not contain EML path or hash"
  else if name == "checkpoint" then
    require_fields payload CHECKPOINT_FIELDS ;?
    require_texts payload ["account_id"; "batch_id"] ;?
    let? _ := validate_checkpoint_sequence (v "sequence") None in Ok tt
  else if name == "account_snapshot" then
    require_fields payload ACCOUNT_SNAPSHOT_FIELDS ;?
    require_texts payload ["account_id"; "provider_type"; "host"; "username"] ;?
    check (is_none (v "display_name") || is_str (v "display_name")) TypeError
      "account_snapshot event display_name must be a string or null" ;?
    check (absent_or_int (v "is_enabled")) TypeError
      "account_snapshot event is_enabled must be a boolean or integer" ;?
    check (is_int (v "port")) TypeError "account_snapshot event port must be an integer" ;?
    check (negb (existsb is_secret_field payload.*1)) ValueError
      "account_snapshot events must not contain credentials or tokens"
  else if name == "folder_snapshot" then
    require_fields payload FOLDER_SNAPSHOT_FIELDS ;?
    require_texts payload ["account_id"; "folder_raw_name"; "display_name"] ;?
    check (is_none (v "uidvalidity") || is_int (v "uidvalidity")) TypeError
      "folder_snapshot event uidvalidity must be an integer or null" ;?
    check (is_none (v "delimiter") || is_str (v "delimiter")) TypeError
      "folder_snapshot event delimiter must be a string or null" ;?
    check (absent_or_int (v "is_sync_target")) TypeError
      "folder_snapshot event is_sync_target must be a boolean or integer"
  else if mem name ["purge_intent"; "purged"] then
    require_fields payload PURGE_FIELDS ;?
    require_texts payload ["account_id"; "source_item_key"; "relative_path"; "file_hash"] ;?
    check (is_count (v "shared_reference_count")) TypeError
      "purge event shared_reference_count must be a non-negative integer" ;?
    check (is_bool (v "physical_delete")) TypeError "purge event physical_delete must be a boolean"
  else if mem name ["remote_delete_intent"; "remote_delete_completed"; "remote_delete_uncertain"] then
    require_fields payload REMOTE_DELETE_FIELDS ;?
    require_texts payload ["account_id"; "folder_raw_name"] ;?
    check (is_int (v "uid")) TypeError "event uid must be an integer" ;?
    check (is_int (v "uidvalidity")) TypeError "event uidvalidity must be an integer" ;?
    check (is_delete_mode (v "mode")) ValueError
      "event mode must be 'trash' or 'expunge'"
  else if name == "moved" then
    require_fields payload MOVED_FIELDS ;?
    require_texts payload ["account_id"; "folder_raw_name"; "moved_to_folder_raw_name";
                           "source_item_key"] ;?
    check (is_int (v "uid")) TypeError "moved event uid must be an integer" ;?
    check (is_int (v "uidvalidity")) TypeError "moved event uidvalidity must be an integer"
  else if name == "message_membership_snapshot" then
    require_fields payload MEMBERSHIP_SNAPSHOT_FIELDS ;?
    require_texts payload ["account_id"; "source_item_key"] ;?
    validate_membership_list (v "memberships") ;?
    check (is_label_list (v "gmail_labels")) TypeError
      "message_membership_snapshot gmail_labels must be a string list"
  else if name == "message_identity_linked" then
    require_fields payload IDENTITY_LINK_FIELDS ;?
    require_texts payload ["account_id"; "canonical_source_item_key"; "alias_source_item_key";
                           "evidence_kind"; "file_hash"] ;?
    check (negb (bool_decide (v "canonical_source_item_key" = v "alias_source_item_key")))
      ValueError "identity link canonical and alias keys must differ"
  else Ok tt.

(** [_validate_event]; the type [event] makes every payload JSON-compatible. *)
Definition validate_event (payload : event) : result event :=
  match get "event" payload with
  | Some (JStr name) =>
      check (mem name MANIFEST_EVENTS) ValueError "unsupported manifest event" ;?
      let? _ := parse_timestamp (get "timestamp" payload) in
      validate_fields name payload ;?
      Ok payload
  | _ => raise ValueError "unsupported manifest event"
  end.
Close Scope string_scope.

Lemma validate_event_same e p : validate_event e = Ok p -> p = e.
Proof.
  unfold validate_event. destruct (get "event" e) as [[]|]; try done.
  by intros (? & _ & (? & _ & (? & _ & [= ->])%rbind_ok)%rbind_ok)%rbind_ok.
Qed.

(** Decide the tests of an event name in a concrete event. *)
Ltac decide_names :=
  repeat match goal with
  | |- context [eqb (String ?c ?a) ?b] =>
      let v := eval vm_compute in (eqb (String c a) b) in change (eqb (String c a) b) with v
  | |- context [mem (String ?c ?a) ?b] =>
      let v := eval vm_compute in (mem (String c a) b) in change (mem (String c a) b) with v
  end; cbv iota.

Lemma validate_fields_purge name payload : name = "purge_intent"%string \/ name = "purged"%string ->
  validate_fields name payload =
    (require_fields payload PURGE_FIELDS ;?
     require_texts payload ["account_id"; "source_item_key"; "relative_path"; "file_hash"]%string ;?
     check (is_count (get "shared_reference_count" payload)) TypeError
       "purge event shared_reference_count must be a non-negative integer" ;?
     check (is_bool (get "physical_delete" payload)) TypeError
       "purge event physical_delete must be a boolean").
Proof. by intros [->| ->]; unfold validate_fields; decide_names. Qed.

Lemma validate_fields_remote_delete name payload :
  name ∈ ["remote_delete_intent"; "remote_delete_completed"; "remote_delete_uncertain"]%string ->
  validate_fields name payload =
    (require_fields payload REMOTE_DELETE_FIELDS ;?
     require_texts payload ["account_id"; "folder_raw_name"]%string ;?
     check (is_int (get "uid" payload)) TypeError "event uid must be an integer" ;?
     check (is_int (get "uidvalidity" payload)) TypeError "event uidvalidity must be an integer" ;?
     check (is_delete_mode (get "mode" payload)) ValueError
       "event mode must be 'trash' or 'expunge'").
Proof.
  rewrite !elem_of_cons, elem_of_nil. by intros [->|[->|[->|[]]]]; unfold validate_fields; decide_names.
Qed.

Lemma validate_event_named e name : get "event" e = Some (JStr name) ->
  name ∈ MANIFEST_EVENTS -> is_ok (parse_timestamp (get "timestamp" e)) = true ->
  validate_fields name e = Ok tt -> validate_event e = Ok e.
Proof.
  intros Hn Hm Ht Hf. unfold validate_event. rewrite Hn, (proj2 (mem_true _ _) Hm). cbn [check rbind].
  destruct (parse_timestamp _); [|done]. cbn [rbind]. by rewrite Hf.
Qed.

(** ** The line format *)

(** [zlib.crc32]: the reflected polynomial, bit by bit. *)
Definition crc_bit (c : Z) : Z :=
  if Z.odd c then Z.lxor (Z.shiftr c 1) 0xEDB88320 else Z.shiftr c 1.
Definition crc_byte (c b : Z) : Z := Nat.iter 8 crc_bit (Z.lxor c b).
Definition crc32 (l : bytes) : Z := Z.lxor (fold_left crc_byte l 0xFFFFFFFF%Z) 0xFFFFFFFF.

Example crc32_check : crc32 (lit "123456789") = 0xCBF43926%Z.
Proof. vm_compute. reflexivity. Qed.

(** [f"{checksum:08x}"]: eight hexadecimal digits, the low ones of a 32-bit number. *)
Fixpoint hex_digits (k : nat) (n : Z) : bytes :=
  match k with O => [] | S k => hex_digits k (n / 16)%Z ++ [hex_digit (n mod 16)] end.
Definition parse_hex (l : bytes) : option Z :=
  fold_left (fun acc c => match acc, hex_value c with
                          | Some n, Some d => Some (16 * n + d)%Z
                          | _, _ => None
                          end) l (Some 0%Z).

(** [allow_nan=False] *)
Fixpoint finite (j : json) : bool :=
  match j with
  | JFloat t => negb (mem t ["NaN"; "Infinity"; "-Infinity"]%string)
  | JList l => forallb finite l
  | JObj d => forallb (fun kv => finite kv.2) d
  | _ => true
  end.

Definition newline : Z := 10.
Definition crc_suffix (encoded : bytes) : bytes :=
  lit "|CRC32:" ++ hex_digits 8 (crc32 encoded mod 4294967296).

(** [_encode_event]; a lone surrogate or a non-finite float raises [ValueError]. *)
Definition encode_event (e : event) : result bytes :=
  let? payload := validate_event e in
  check (finite (JObj payload)) ValueError "Out of range float values are not JSON compliant" ;?
  let encoded := dumps (JObj payload) in
  check (utf8_valid false encoded) ValueError "surrogates not allowed" ;?
  Ok (encoded ++ crc_suffix encoded ++ [newline]).

(** [_parse_line]; the suffix pattern is the last fifteen bytes of the record. *)
Definition corrupt {A} (msg : string) : result A := raise ManifestCorruptError msg.
Definition split_suffix (content : bytes) : option (bytes * Z) :=
  let n := (length content - 15)%nat in
  if (15 <=? length content)%nat then
    match strip_prefix (lit "|CRC32:") (drop n content) with
    | Some hex => match parse_hex hex with
                  | Some crc => Some (take n content, crc)
                  | None => None
                  end
    | None => None
    end
  else None.
Definition parse_line (line : bytes) : result event :=
  match last line with
  | Some c =>
      check (c =? newline)%Z ManifestCorruptError "manifest record is missing its trailing newline" ;?
      match split_suffix (removelast line) with
      | None => corrupt "manifest record has no valid CRC32 suffix"
      | Some (payload, crc) =>
          check (crc32 payload mod 4294967296 =? crc)%Z ManifestCorruptError
            "manifest record CRC32 does not match its payload" ;?
          match loads payload with
          | Some (JObj decoded) =>
              match validate_event decoded with
              | Ok e => Ok e
              | Err _ => corrupt "manifest record does not satisfy the event schema"
              end
          | Some _ => corrupt "manifest record must be a JSON object"
          | None => corrupt "manifest record contains invalid JSON"
          end
      end
  | None => corrupt "manifest record is missing its trailing newline"
  end.

(** ** Reading *)

(** The [readline] results of a file, each with its newline; a last line may lack it. *)
Fixpoint lines_of (acc : bytes) (l : bytes) : list bytes :=
  match l with
  | [] => match acc with [] => [] | _ => [acc] end
  | c :: l => if (c =? newline)%Z then (acc ++ [c]) :: lines_of [] l else lines_of (acc ++ [c]) l
  end.
Definition readlines (content : bytes) : list bytes := lines_of [] content.

(** The check on a checkpoint event, shared by the two readers. *)
Definition is_checkpoint (e : event) : bool := bool_decide (get "event" e = Some (JStr "checkpoint")).
Definition next_checkpoint (e : event) (last_sequence : option Z) : result (option Z) :=
  if is_checkpoint e then
    match validate_checkpoint_sequence (get "sequence" e) last_sequence with
    | Ok n => Ok (Some n)
    | Err _ => corrupt "manifest checkpoint sequences are not strictly increasing"
    end
  else Ok last_sequence.

(** The loop of [read_events]: the events yielded, and how it ended: an exception, or the offset
    to truncate at when the final record is malformed. *)
Fixpoint read_loop (offset : nat) (last_sequence : option Z) (lines : list bytes)
    : list event * result (option nat) :=
  match lines with
  | [] => ([], Ok None)
  | line :: next =>
      match parse_line line with
      | Err e => ([], match next with [] => Ok (Some offset) | _ => Err e end)
      | Ok e =>
          match next_checkpoint e last_sequence with
          | Err x => ([], Err x)
          | Ok last_sequence =>
              let (es, ending) := read_loop (offset + length line) last_sequence next in
              (e :: es, ending)
          end
      end
  end.

(** [read_events], consumed to the end: the events, the exception if any, the file left. *)
Definition read_events (content : bytes) : list event * option exn * bytes :=
  let (es, ending) := read_loop 0 None (readlines content) in
  match ending with
  | Ok None => (es, None, content)
  | Ok (Some n) => (es, None, take n content)
  | Err x => (es, Some x, content)
  end.

(** [repair_tail] *)
Definition repair_tail (content : bytes) : result (Z * bytes) :=
  let '(_, raised, after) := read_events content in
  match raised with
  | Some x => Err x
  | None => Ok (Z.of_nat (length content) - Z.of_nat (length after), after)%Z
  end.

(** The monthly files of one account, sorted by name. *)
Notation files := (list (string * bytes)).

(** The outer check of [read_all_events] on the events of one file. *)
Fixpoint check_all (last_sequence : option Z) (es : list event)
    : list event * result (option Z) :=
  match es with
  | [] => ([], Ok last_sequence)
  | e :: es =>
      match next_checkpoint e last_sequence with
      | Err x => ([], Err x)
      | Ok s => let (r, ending) := check_all s es in (e :: r, ending)
      end
  end.

(** [read_all_events], consumed to the end. *)
Fixpoint read_all (last_sequence : option Z) (fs : files) : list event * option exn * files :=
  match fs with
  | [] => ([], None, [])
  | (name, content) :: fs =>
      let '(es, raised, content') := read_events content in
      let (accepted, ending) := check_all last_sequence es in
      match ending with
      | Err x => (accepted, Some x, (name, content) :: fs)
      | Ok s =>
          match raised with
          | Some x => (accepted, Some x, (name, content) :: fs)
          | None => let '(rest, raised, fs') := read_all s fs in
                    (accepted ++ rest, raised, (name, content') :: fs')
          end
      end
  end.
Definition read_all_events (fs : files) : list event * option exn * files := read_all None fs.

Definition last_checkpoint (es : list event) : option event := find_last is_checkpoint es.

(** [read_last_checkpoint], [_last_checkpoint_sequence], [read_events_since_checkpoint] and
    [read_incomplete_intents] on the events of a readable manifest. *)
Definition read_last_checkpoint (fs : files) : result (option event) :=
  let '(es, raised, _) := read_all_events fs in
  match raised with Some x => Err x | None => Ok (last_checkpoint es) end.

Definition sequence_of (e : event) : option Z :=
  match get "sequence" e with Some (JInt n) => Some n | _ => None end.
Definition last_sequence_of (es : list event) : option Z := last_checkpoint es ≫= sequence_of.

(** [events[checkpoint_index + 1:]], the index being that of the last checkpoint, or -1. *)
Fixpoint after_last_checkpoint (es : list event) : list event :=
  match es with
  | [] => []
  | e :: r => if existsb is_checkpoint r then after_last_checkpoint r
              else if is_checkpoint e then r else e :: r
  end.
Definition read_events_since_checkpoint (fs : files) : result (list event) :=
  let '(es, raised, _) := read_all_events fs in
  match raised with Some x => Err x | None => Ok (after_last_checkpoint es) end.

(** Members of an event, when they have the type the reader asks for. *)
Definition event_name (e : event) : option string :=
  match get "event"%string e with Some (JStr n) => Some n | _ => None end.
Definition text_of (f : string) (e : event) : option string :=
  match get f e with Some (JStr s) => Some s | _ => None end.
Definition bool_of (f : string) (e : event) : option bool :=
  match get f e with Some (JBool b) => Some b | _ => None end.
Definition int_of (f : string) (e : event) : option Z :=
  match get f e with Some (JInt n) => Some n | _ => None end.

Definition name_in (names : list string) (e : event) : bool :=
  match get "event" e with Some (JStr n) => mem n names | _ => false end.

(** [_operation_key]: [event[...]] of a validated event. *)
Definition operation_key (e : event) : list (option json) :=
  if name_in ["purge_intent"; "purged"]%string e then
    map (fun f => get f e) ["account_id"; "source_item_key"; "relative_path"; "file_hash"]%string
  else map (fun f => get f e) ["account_id"; "folder_raw_name"; "uid"; "uidvalidity"; "mode"]%string.

Definition incomplete_intents (es : list event) : list event :=
  let completed := map operation_key
    (List.filter (name_in ["purged"; "remote_delete_completed"]%string) es) in
  List.filter (fun e => name_in ["purge_intent"; "remote_delete_intent"]%string e
                        && negb (mem (operation_key e) completed)) es.
Definition read_incomplete_intents (fs : files) : result (list event) :=
  let '(es, raised, _) := read_all_events fs in
  match raised with Some x => Err x | None => Ok (incomplete_intents es) end.

(** ** Writing *)

Record writer := Writer {
  w_account_id : string;
  w_files : files;
  last_checkpoint_sequence : option Z;
}.

(** Appending to a file of the directory, created on first use; the names stay sorted, as
    [_manifest_paths] lists them. *)
Fixpoint file_append (name : string) (l : bytes) (fs : files) : files :=
  match fs with
  | [] => [(name, l)]
  | (n, c) :: fs =>
      match String.compare name n with
      | Eq => (n, c ++ l) :: fs
      | Lt => (name, l) :: (n, c) :: fs
      | Gt => (n, c) :: file_append name l fs
      end
  end.

(** [ManifestWriter.__init__]: the account id is checked, the manifest is read (and its torn
    tail removed). *)
Definition open_writer (account_id : string) (fs : files) : result writer :=
  manifest_validate_account_id (code_points account_id) ;?
  let '(es, raised, fs) := read_all_events fs in
  match raised with
  | Some x => Err x
  | None => Ok (Writer account_id fs (last_sequence_of es))
  end.

(** [_path_for] *)
Definition file_name (t : datetime) : string :=
  ("events-" +:+ pad4 (year t) +:+ pad2 (month t) +:+ ".jsonl")%string.

(** [ManifestWriter.append] *)
Definition append (e : event) (w : writer) : result writer :=
  let? payload := validate_event e in
  let? next_sequence := if is_checkpoint payload
                        then let? n := validate_checkpoint_sequence (get "sequence" payload)
                                         (last_checkpoint_sequence w) in Ok (Some n)
                        else Ok (last_checkpoint_sequence w) in
  let? encoded := encode_event payload in
  let? t := parse_timestamp (get "timestamp" payload) in
  Ok (Writer (w_account_id w) (file_append (file_name t) encoded (w_files w)) next_sequence).

(** [ManifestWriter.checkpoint]: [now] is the clock, [batch_id] the caller's. *)
Definition checkpoint (now : datetime) (sequence : Z) (batch_id : string) (w : writer)
    : result writer :=
  append [("event", JStr "checkpoint"); ("account_id", JStr (w_account_id w));
          ("timestamp", JStr (isoformat now)); ("sequence", JInt sequence);
          ("batch_id", JStr batch_id)]%string w.

(** ** Validation does not depend on the order of the members *)

Section Canonical.
Context (e : event) (Hplain : plain (JObj e) = true).

Lemma get_canon f : get f (canon_event e) = option_map canon (get f e).
Proof. apply dict_get_canon, plain_obj, Hplain. Qed.

Lemma require_fields_canon fs : require_fields (canon_event e) fs = require_fields e fs.
Proof.
  unfold require_fields. f_equal. induction fs as [|f fs IH]; [done|]. cbn [forallb].
  rewrite IH, get_canon. by destruct (get f e).
Qed.
End Canonical.

Lemma type_tests_canon o :
  is_int (option_map canon o) = is_int o /\ is_int_or_bool (option_map canon o) = is_int_or_bool o
  /\ is_bool (option_map canon o) = is_bool o /\ is_str (option_map canon o) = is_str o
  /\ is_none (option_map canon o) = is_none o /\ is_text (option_map canon o) = is_text o.
Proof. by destruct o as [[]|]. Qed.

Lemma is_int_canon o : is_int (option_map canon o) = is_int o.
Proof. apply type_tests_canon. Qed.
Lemma is_int_or_bool_canon o : is_int_or_bool (option_map canon o) = is_int_or_bool o.
Proof. apply type_tests_canon. Qed.
Lemma is_bool_canon o : is_bool (option_map canon o) = is_bool o.
Proof. apply type_tests_canon. Qed.
Lemma is_str_canon o : is_str (option_map canon o) = is_str o.
Proof. apply type_tests_canon. Qed.
Lemma is_none_canon o : is_none (option_map canon o) = is_none o.
Proof. apply type_tests_canon. Qed.
Lemma is_text_canon o : is_text (option_map canon o) = is_text o.
Proof. apply type_tests_canon. Qed.
Lemma parse_timestamp_canon o : parse_timestamp (option_map canon o) = parse_timestamp o.
Proof. by destruct o as [[]|]. Qed.
Lemma validate_sequence_canon o p :
  validate_checkpoint_sequence (option_map canon o) p = validate_checkpoint_sequence o p.
Proof. by destruct o as [[]|]. Qed.

Lemma present_canon o : present (option_map canon o) = present o.
Proof. by destruct o. Qed.
Lemma absent_or_int_canon o : absent_or_int (option_map canon o) = absent_or_int o.
Proof. by destruct o as [[]|]. Qed.
Lemma is_count_canon o : is_count (option_map canon o) = is_count o.
Proof. by destruct o as [[]|]. Qed.
Lemma is_delete_mode_canon o : is_delete_mode (option_map canon o) = is_delete_mode o.
Proof. by destruct o as [[]|]. Qed.

#[export] Hint Rewrite present_canon absent_or_int_canon is_count_canon is_delete_mode_canon
  is_int_canon is_int_or_bool_canon is_bool_canon is_str_canon is_none_canon
  is_text_canon parse_timestamp_canon validate_sequence_canon : canon.

Lemma require_texts_canon e fs : plain (JObj e) = true ->
  require_texts (canon_event e) fs = require_texts e fs.
Proof.
  intros Hp. induction fs as [|f fs IH]; [done|]. cbn [require_texts]. unfold require_text.
  rewrite get_canon by done. autorewrite with canon. by rewrite IH.
Qed.

Lemma require_texts_text e fs f : require_texts e fs = Ok tt -> f ∈ fs ->
  is_text (get f e) = true.
Proof.
  induction fs as [|g fs IH]; [set_solver|]. cbn [require_texts].
  intros ([] & H%check_ok & Hr)%rbind_ok [->|Hf]%elem_of_cons; [done | auto].
Qed.

Lemma validate_membership_canon m : plain m = true ->
  validate_membership (canon m) = validate_membership m.
Proof.
  intros Hp. destruct m as [| | | | |l|d]; try done. cbn [canon validate_membership].
  fold (canon_event d). cbn [forallb]. rewrite !get_canon by done. by autorewrite with canon.
Qed.

Lemma validate_memberships_canon l : forallb plain l = true ->
  validate_memberships (map canon l) = validate_memberships l.
Proof.
  induction l as [|m l IH]; [done|]. cbn [forallb map validate_memberships]. intros [Hm Hl]%andb_true_iff.
  by rewrite validate_membership_canon, IH.
Qed.

Lemma forallb_is_str_canon l :
  forallb (fun l => is_str (Some l)) (map canon l) = forallb (fun l => is_str (Some l)) l.
Proof. induction l as [|j l IH]; [done|]. cbn [map forallb]. rewrite IH. by destruct j. Qed.

Lemma existsb_perm {A} (p : A -> bool) l l' : l ≡ₚ l' -> existsb p l = existsb p l'.
Proof.
  intros Hp. apply eq_true_iff_eq. rewrite !existsb_true. by setoid_rewrite Hp.
Qed.

Lemma is_label_list_canon o : is_label_list (option_map canon o) = is_label_list o.
Proof. destruct o as [[]|]; try done. apply forallb_is_str_canon. Qed.

#[export] Hint Rewrite is_label_list_canon : canon.

Lemma validate_fields_canon name e : plain (JObj e) = true ->
  validate_fields name e = Ok tt -> validate_fields name (canon_event e) = Ok tt.
Proof.
  intros Hp. pose proof (plain_obj e Hp) as [_ Hv]. unfold validate_fields.
  rewrite !require_fields_canon, !require_texts_canon, !get_canon by done. autorewrite with canon.
  rewrite (existsb_perm _ _ _ (canon_event_keys e)).
  do 8 (case (_ : bool); [exact id|]). case (_ : bool).
  - intros ([] & -> & ([] & -> & ([] & Hm & Hl)%rbind_ok)%rbind_ok)%rbind_ok. cbn [rbind].
    assert (validate_membership_list (option_map canon (get "memberships" e)) = Ok tt) as ->; [|exact Hl].
    rewrite <- Hm. destruct (get "memberships" e) as [j|] eqn:Ej; [|done]. destruct j; try done.
    apply validate_memberships_canon. apply Hv in Ej. exact Ej.
  - case (_ : bool); [|exact id]. intros ([] & -> & ([] & Ht & Hne)%rbind_ok)%rbind_ok.
    cbn [rbind]. rewrite Ht. cbn [rbind]. rewrite <- Hne. do 3 f_equal.
    assert (forall f, f ∈ ["canonical_source_item_key"; "alias_source_item_key"]%string ->
              option_map canon (get f e) = get f e) as Hc.
    { intros f Hf. assert (is_text (get f e) = true) as Hx
        by (eapply require_texts_text; [exact Ht | set_solver]).
      by destruct (get f e) as [[]|]. }
    by rewrite !Hc by set_solver.
Qed.

Lemma validate_event_canon e p : plain (JObj e) = true ->
  validate_event e = Ok p -> p = e /\ validate_event (canon_event e) = Ok (canon_event e).
Proof.
  intros Hp. unfold validate_event. rewrite !get_canon by done.
  destruct (get "event" e) as [[]|]; try done. cbn [option_map canon]. autorewrite with canon.
  intros ([] & -> & (d & -> & ([] & Hf & [= <-])%rbind_ok)%rbind_ok)%rbind_ok. cbn [rbind].
  split; [done|]. by rewrite validate_fields_canon.
Qed.

(** ** Lines *)

Lemma hex_digits_length k : forall n, length (hex_digits k n) = k.
Proof. induction k as [|k IH]; intros n; [done|]. cbn [hex_digits]. rewrite length_app, IH. simpl. lia. Qed.

Lemma parse_hex_digits k : forall n, (0 <= n < 16 ^ Z.of_nat k)%Z ->
  parse_hex (hex_digits k n) = Some n.
Proof.
  induction k as [|k IH]; intros n Hn; [simpl in Hn; assert (n = 0%Z) as -> by lia; done|].
  rewrite Nat2Z.inj_succ, Z.pow_succ_r in Hn by lia. unfold parse_hex in *. cbn [hex_digits].
  rewrite fold_left_app. rewrite IH.
  - cbn [fold_left]. rewrite hex_value_digit by (apply Z.mod_pos_bound; lia).
    f_equal. pose proof (Z.div_mod n 16). lia.
  - split; [apply Z.div_pos; lia | apply Z.div_lt_upper_bound; lia].
Qed.

Lemma strip_prefix_app p l : strip_prefix p (p ++ l) = Some l.
Proof. induction p as [|c p IH]; [done|]. cbn [app strip_prefix]. by rewrite Z.eqb_refl. Qed.

Lemma crc_suffix_length l : length (crc_suffix l) = 15%nat.
Proof. unfold crc_suffix. rewrite length_app, hex_digits_length. reflexivity. Qed.

Lemma split_suffix_encoded l :
  split_suffix (l ++ crc_suffix l) = Some (l, (crc32 l mod 4294967296)%Z).
Proof.
  unfold split_suffix. rewrite length_app, crc_suffix_length.
  destruct (Nat.leb_spec 15 (length l + 15)) as [_|]; [|lia].
  replace (length l + 15 - 15)%nat with (length l + 0)%nat by lia.
  rewrite drop_app_add, take_app_add, drop_0, take_0, app_nil_r. unfold crc_suffix.
  rewrite strip_prefix_app, parse_hex_digits; [done|]. apply Z.mod_pos_bound. lia.
Qed.

Lemma parse_encoded e line :
  plain (JObj e) = true -> encode_event e = Ok line -> parse_line line = Ok (canon_event e).
Proof.
  intros Hp (p & Hval & ([] & _ & ([] & Hu%check_ok & <-%Ok_inj)%rbind_ok)%rbind_ok)%rbind_ok.
  destruct (validate_event_canon e p Hp Hval) as [-> Hc]. unfold parse_line.
  rewrite app_assoc, last_snoc, removelast_last, split_suffix_encoded. cbn [check rbind newline Z.eqb].
  rewrite Z.eqb_refl. cbn [check rbind]. rewrite loads_dumps by done. cbn [canon].
  fold (canon_event e). by rewrite Hc.
Qed.

(** Every event the writer accepts is read back: the line it encodes passes the CRC, JSON
    and schema checks of the reader and decodes to the same event with its members sorted by key
    (dictionary keys are distinct; the events hold no floats). *)
Lemma encode_parse_roundtrip e line :
  plain (JObj e) = true -> encode_event e = Ok line ->
  parse_line line = Ok (canon_event e)
  /\ forall f, get f (canon_event e) = option_map canon (get f e).
Proof. intros Hp He. split; [by apply parse_encoded | intros f; by apply get_canon]. Qed.

Definition sample_event : event :=
  [("event", JStr "purged"); ("account_id", JStr "acct"); ("source_item_key", JStr "gmail:1");
   ("relative_path", JStr "imap/x.eml"); ("file_hash", JStr "ab"); ("physical_delete", JBool true);
   ("shared_reference_count", JInt 0); ("timestamp", JStr "2024-05-01T23:59:59.000250+00:00")]%string.

(** Nothing but the schema can refuse an event whose strings are proper text. *)
Lemma plain_finite j : plain j = true -> finite j = true.
Proof.
  induction j as [|[]|z|t|s|l IH|d IH] using json_ind'; try done; cbn [plain finite].
  - rewrite !forallb_true, Forall_forall in *. auto.
  - rewrite andb_true_iff, !forallb_true. intros [_ Hd] kv Hkv. rewrite Forall_forall in IH. auto.
Qed.

Lemma encode_event_ok e : plain (JObj e) = true -> valid_text (JObj e) = true ->
  validate_event e = Ok e -> is_ok (encode_event e) = true.
Proof.
  intros Hp Ht Hv. unfold encode_event. rewrite Hv. cbn [rbind]. rewrite plain_finite by done.
  cbn [check rbind]. by rewrite utf8_valid_dumps.
Qed.

(** ** Torn tails *)

Definition encodes (e : event) (line : bytes) : Prop :=
  plain (JObj e) = true /\ encode_event e = Ok line.

Definition no_newline (l : bytes) : Prop := Forall (fun c => c <> newline) l.

Lemma hex_digits_no_newline k : forall n, (0 <= n)%Z -> no_newline (hex_digits k n).
Proof.
  unfold no_newline. induction k as [|k IH]; intros n Hn; [constructor|]. cbn [hex_digits].
  apply Forall_app. split; [apply IH, Z.div_pos; lia|]. constructor; [|constructor].
  pose proof (Z.mod_pos_bound n 16). unfold hex_digit, newline. case_match; lia.
Qed.

Lemma crc_suffix_no_newline l : no_newline (crc_suffix l).
Proof.
  apply Forall_app. split; [by vm_compute; repeat constructor|].
  apply hex_digits_no_newline, Z.mod_pos_bound. lia.
Qed.

Lemma encodes_line e line : encodes e line ->
  exists body, line = body ++ [newline] /\ no_newline body /\ parse_line line = Ok (canon_event e).
Proof.
  intros [Hp He]. pose proof (parse_encoded e line Hp He) as Hparse.
  apply rbind_ok in He as (p & Hval & ([] & _ & ([] & _ & Hl%Ok_inj)%rbind_ok)%rbind_ok).
  destruct (validate_event_canon e p Hp Hval) as [-> _].
  exists (dumps (JObj e) ++ crc_suffix (dumps (JObj e))). split; [by rewrite <- app_assoc|].
  split; [|done]. apply Forall_app. split; [by apply print_no_newline, plain_canon|].
  apply crc_suffix_no_newline.
Qed.

Lemma lines_of_body body : forall acc rest, no_newline body ->
  lines_of acc (body ++ newline :: rest) = (acc ++ body ++ [newline]) :: lines_of [] rest.
Proof.
  induction body as [|c body IH]; intros acc rest Hb; cbn [app lines_of].
  - by rewrite Z.eqb_refl.
  - apply Forall_cons in Hb as [Hc Hb]. rewrite (proj2 (Z.eqb_neq c newline)), IH by done.
    by rewrite <- app_assoc.
Qed.

Lemma lines_of_rest r : forall acc, no_newline r -> acc ++ r <> [] -> lines_of acc r = [acc ++ r].
Proof.
  induction r as [|c r IH]; intros acc Hr Hne; cbn [lines_of].
  - rewrite app_nil_r in Hne |- *. by destruct acc.
  - apply Forall_cons in Hr as [Hc Hr]. rewrite (proj2 (Z.eqb_neq c newline)) by done.
    rewrite IH; [by rewrite <- app_assoc | done | by destruct acc].
Qed.

(** A line as a writer writes it: its newline at the end, and nowhere else. *)
Definition whole_line (line : bytes) : Prop := exists body, line = body ++ [newline] /\ no_newline body.
Lemma encodes_whole es ls : Forall2 encodes es ls -> Forall whole_line ls.
Proof.
  induction 1 as [|e line es ls He _ IH]; constructor; [|done].
  apply encodes_line in He as (body & ? & ? & _). by exists body.
Qed.

Lemma readlines_lines ls r : Forall whole_line ls -> no_newline r ->
  readlines (concat ls ++ r) = ls ++ (match r with [] => [] | _ => [r] end).
Proof.
  intros Hls Hr. unfold readlines. induction Hls as [|line ls (body & -> & Hb) _ IH]; cbn [concat app].
  - destruct r; [done|]. by apply lines_of_rest.
  - rewrite <- !app_assoc. cbn [app]. rewrite lines_of_body by done. by rewrite IH.
Qed.
Lemma readlines_concat es ls r : Forall2 encodes es ls -> no_newline r ->
  readlines (concat ls ++ r) = ls ++ (match r with [] => [] | _ => [r] end).
Proof. intros Hes. by apply readlines_lines, (encodes_whole es). Qed.

(** Reading the lines of events whose checkpoints increase. *)
Lemma read_loop_app es ls tail : forall off last s,
  Forall2 encodes es ls ->
  check_all last (map canon_event es) = (map canon_event es, Ok s) ->
  read_loop off last (ls ++ tail)
  = let (es', ending) := read_loop (off + length (concat ls)) s tail in
    (map canon_event es ++ es', ending).
Proof.
  intros off last s Hes. revert off last s.
  induction Hes as [|e line es ls He _ IH]; intros off last s Hc; cbn [map concat app check_all] in *.
  - injection Hc as ->. rewrite Nat.add_0_r. by destruct (read_loop off s tail).
  - apply encodes_line in He as (body & _ & _ & Hp). cbn [read_loop]. rewrite Hp.
    destruct (next_checkpoint (canon_event e) last) as [s1|x]; [|done].
    destruct (check_all s1 (map canon_event es)) as [acc ending] eqn:E. injection Hc as -> ->.
    rewrite (IH _ _ _ E), length_app, Nat.add_assoc.
    by destruct (read_loop _ s tail).
Qed.

(** How many whole lines the first [k] bytes hold. *)
Fixpoint whole (k : nat) (ls : list bytes) : nat :=
  match ls with
  | [] => O
  | l :: ls => if (length l <=? k)%nat then S (whole (k - length l) ls) else O
  end.

Lemma take_whole ls : Forall whole_line ls -> forall k,
  exists r, take k (concat ls) = concat (take (whole k ls) ls) ++ r /\ no_newline r.
Proof.
  induction 1 as [|line ls Hl _ IH]; intros k; cbn [concat whole].
  - exists []. rewrite take_nil. split; [done | constructor].
  - destruct (Nat.leb_spec (length line) k) as [Hk|Hk].
    + destruct (IH (k - length line)%nat) as (r & Hr & Hn). exists r. split; [|done].
      cbn [take concat]. rewrite <- app_assoc, <- Hr, take_app, take_ge by done. done.
    + exists (take k line). split; [rewrite take_app_le by lia; done|].
      destruct Hl as (body & -> & Hb). rewrite length_app in Hk. simpl in Hk.
      rewrite take_app_le by lia. by apply Forall_take.
Qed.

Lemma check_all_app last es1 es2 s :
  check_all last (es1 ++ es2) = (es1 ++ es2, Ok s)
  <-> exists s1, check_all last es1 = (es1, Ok s1) /\ check_all s1 es2 = (es2, Ok s).
Proof.
  revert last. induction es1 as [|e es1 IH]; intros last; cbn [app check_all].
  - split; [eauto | by intros (s1 & [= <-] & H)].
  - destruct (next_checkpoint e last) as [s0|x]; [|split; [done | by intros (? & ? & _)]].
    specialize (IH s0). destruct (check_all s0 (es1 ++ es2)) as [a ea], (check_all s0 es1) as [b eb].
    split.
    + intros [= -> ->]. destruct (proj1 IH eq_refl) as (s1 & [= -> ->] & H). eauto.
    + intros (s1 & [= -> ->] & H). assert ((a, ea) = (es1 ++ es2, Ok s)) as [= -> ->]; [|done].
      apply IH. eauto.
Qed.

Lemma torn_parse_error r : no_newline r -> exists x, parse_line r = Err x.
Proof.
  intros Hr. unfold parse_line. destruct (last r) as [c|] eqn:E; [|eexists; done].
  assert (c <> newline) as Hc.
  { rewrite last_lookup in E. exact (Forall_lookup_1 (fun c => c <> newline) r _ c Hr E). }
  rewrite (proj2 (Z.eqb_neq c newline)) by done. eexists. done.
Qed.

(** The reader on whole lines followed by a torn one. *)
Lemma read_events_torn es ls r s : Forall2 encodes es ls -> no_newline r ->
  check_all None (map canon_event es) = (map canon_event es, Ok s) ->
  read_events (concat ls ++ r) = (map canon_event es, None, concat ls).
Proof.
  intros Hes Hr Hc. unfold read_events. rewrite (readlines_concat es) by done.
  rewrite (read_loop_app es _ _ _ _ s) by done. destruct r as [|c r].
  - cbn [read_loop]. by rewrite !app_nil_r.
  - cbn [read_loop]. destruct (torn_parse_error (c :: r) Hr) as [x ->].
    rewrite app_nil_r, Nat.add_0_l, take_app_length. done.
Qed.

(** C25. A torn write loses nothing that was complete: whatever prefix of the appended bytes
    survives a crash, reading the file yields, in order, exactly the events whose lines are
    whole, raises nothing, and cuts the file back to those lines. *)
Theorem torn_tail_recovered es ls k s :
  Forall2 encodes es ls -> check_all None (map canon_event es) = (map canon_event es, Ok s) ->
  let n := whole k ls in
  read_events (take k (concat ls)) = (map canon_event (take n es), None, concat (take n ls)).
Proof.
  intros Hes Hc n. destruct (take_whole ls (encodes_whole es ls Hes) k) as (r & -> & Hr). fold n.
  rewrite <- (take_drop n es), map_app in Hc. apply check_all_app in Hc as (s1 & Hc & _).
  apply (read_events_torn (take n es) _ _ s1); [by apply Forall2_take | done | done].
Qed.

Definition line_of (e : event) : bytes := match encode_event e with Ok l => l | Err _ => [] end.

Lemma torn_tail_recovered_witness :
  read_events (take 300 (concat [line_of sample_event; line_of sample_event]))
  = (map canon_event (take 1 [sample_event; sample_event]), None,
     concat (take 1 [line_of sample_event; line_of sample_event])).
Proof.
  apply (torn_tail_recovered [sample_event; sample_event]
    [line_of sample_event; line_of sample_event] 300 None).
  - repeat constructor; vm_compute; reflexivity.
  - vm_compute. reflexivity.
Defined.

(** ** The writer as an append-only log

    The abstract specification: the manifest of an account is the list of its events, [append]
    adds one at the end, the readers see the whole list. *)

Definition segment (f : string * bytes) (es : list event) : Prop :=
  exists ls, Forall2 encodes es ls /\ f.2 = concat ls.

(** The files hold the events [es], and the writer knows the last checkpoint. *)
Definition log (w : writer) (es : list event) : Prop :=
  exists segs, Forall2 segment (w_files w) segs /\ es = concat segs
    /\ check_all None (map canon_event es)
       = (map canon_event es, Ok (last_checkpoint_sequence w)).

(** The file an event goes to is the last one, or a new last one: its month is not earlier than
    the months already written. *)
Fixpoint at_end (name : string) (fs : files) : Prop :=
  match fs with
  | [] => True
  | (n, _) :: fs =>
      match fs with
      | [] => String.compare name n <> Lt
      | _ => String.compare name n = Gt /\ at_end name fs
      end
  end.

Lemma next_checkpoint_weaken e last s :
  next_checkpoint e last = Ok s ->
  exists s', next_checkpoint e None = Ok s' /\ (s' = s \/ s' = None).
Proof.
  unfold next_checkpoint. destruct (is_checkpoint e); [|eauto].
  unfold validate_checkpoint_sequence. destruct (get "sequence" e) as [[]|]; try done.
  destruct (check (0 <=? n)%Z _ _); [|done]. cbn [rbind].
  destruct (match last with Some p => (p <? n)%Z | None => true end); [|done]. cbn [check rbind].
  intros [= <-]. eauto.
Qed.

(** The reader of one file checks the sequence from that file only. *)
Lemma check_all_weaken es : forall last s,
  check_all last es = (es, Ok s) -> exists s', check_all None es = (es, Ok s').
Proof.
  induction es as [|e es IH]; intros last s; cbn [check_all]; [eauto|].
  destruct (next_checkpoint e last) as [s1|x] eqn:E1; [|done].
  destruct (check_all s1 es) as [a ea] eqn:E2. intros [= -> ->].
  apply next_checkpoint_weaken in E1 as (s' & -> & [->| ->]).
  - rewrite E2. eauto.
  - apply IH in E2 as [s' ->]. eauto.
Qed.

Lemma read_all_log fs segs : Forall2 segment fs segs -> forall last s,
  check_all last (map canon_event (concat segs)) = (map canon_event (concat segs), Ok s) ->
  read_all last fs = (map canon_event (concat segs), None, fs).
Proof.
  induction 1 as [|[name content] es fs segs (ls & Hls & Hcontent) _ IH]; intros last s Hc; [done|].
  cbn [concat read_all] in *. simpl in Hcontent. subst content. rewrite map_app in Hc |- *.
  apply check_all_app in Hc as (s1 & Hc1 & Hc2). destruct (check_all_weaken _ _ _ Hc1) as [s0 Hc0].
  pose proof (read_events_torn es ls [] s0 Hls ltac:(constructor) Hc0) as Hr.
  rewrite app_nil_r in Hr. rewrite Hr, Hc1, (IH _ _ Hc2). done.
Qed.

Lemma segment_snoc f es e line : segment f es -> encodes e line ->
  segment (f.1, f.2 ++ line) (es ++ [e]).
Proof.
  intros (ls & Hls & Hf) He. exists (ls ++ [line]). split; [apply Forall2_app; [done | constructor; [done | constructor]]|].
  cbn [snd]. rewrite Hf, concat_app. cbn [concat]. by rewrite app_nil_r.
Qed.

Lemma segment_new name e line : encodes e line -> segment (name, line) [e].
Proof. intros He. exists [line]. split; [constructor; [done | constructor]|]. cbn. by rewrite app_nil_r. Qed.

Lemma file_append_end name line e fs segs :
  Forall2 segment fs segs -> at_end name fs -> encodes e line ->
  exists segs', Forall2 segment (file_append name line fs) segs' /\ concat segs' = concat segs ++ [e].
Proof.
  intros Hs. induction Hs as [|[n c] es fs segs Hf Hfs IH]; intros Hend He; cbn [file_append].
  - exists [[e]]. split; [|done]. constructor; [by apply segment_new | constructor].
  - destruct Hfs as [|[n' c'] es' fs segs Hf' Hfs]; cbn [at_end] in Hend.
    + destruct (String.compare name n); [|done|].
      * exists [es ++ [e]]. split; [|cbn; by rewrite !app_nil_r].
        constructor; [by apply (segment_snoc (n, c)) | constructor].
      * exists [es; [e]]. split; [|cbn; by rewrite app_nil_r].
        constructor; [done|]. constructor; [by apply segment_new | constructor].
    + destruct Hend as [-> Hend]. destruct (IH Hend He) as (segs' & Hsegs' & Hc).
      exists (es :: segs'). split; [by constructor|]. cbn [concat] in *. by rewrite Hc, app_assoc.
Qed.

Lemma append_ok e w w' : append e w = Ok w' ->
  exists line t s, validate_event e = Ok e /\ encode_event e = Ok line
    /\ parse_timestamp (get "timestamp" e) = Ok t
    /\ (if is_checkpoint e then exists n, validate_checkpoint_sequence (get "sequence" e)
            (last_checkpoint_sequence w) = Ok n /\ s = Some n
        else s = last_checkpoint_sequence w)
    /\ w' = Writer (w_account_id w) (file_append (file_name t) line (w_files w)) s.
Proof.
  intros (p & Hv & (s & Hs & (line & Hl & (t & Ht & <-%Ok_inj)%rbind_ok)%rbind_ok)%rbind_ok)%rbind_ok.
  apply validate_event_same in Hv as Hpe. subst p.
  exists line, t, s. repeat split; try done. destruct (is_checkpoint e); [|by apply Ok_inj in Hs].
  apply rbind_ok in Hs as (n & Hn & [= <-]). eauto.
Qed.

Lemma next_checkpoint_canon e last : plain (JObj e) = true ->
  next_checkpoint (canon_event e) last = next_checkpoint e last.
Proof.
  intros Hp. unfold next_checkpoint, is_checkpoint. rewrite !get_canon by done.
  rewrite validate_sequence_canon.
  replace (bool_decide (option_map canon (get "event" e) = Some (JStr "checkpoint")))
    with (bool_decide (get "event" e = Some (JStr "checkpoint"))); [done|].
  apply bool_decide_ext. destruct (get "event" e) as [[]|]; naive_solver.
Qed.

Lemma append_log e w w' es : log w es -> plain (JObj e) = true -> append e w = Ok w' ->
  (forall t, parse_timestamp (get "timestamp" e) = Ok t -> at_end (file_name t) (w_files w)) ->
  log w' (es ++ [e]).
Proof.
  intros (segs & Hsegs & -> & Hc) Hp (line & t & s & _ & Henc & Ht & Hs & ->)%append_ok Hend.
  destruct (file_append_end (file_name t) line e _ _ Hsegs (Hend t Ht)) as (segs' & Hsegs' & Hcat);
    [done|].
  exists segs'. split; [exact Hsegs'|]. split; [by rewrite Hcat|]. cbn [last_checkpoint_sequence].
  rewrite map_app. apply check_all_app. eexists. split; [exact Hc|]. cbn [map check_all].
  rewrite next_checkpoint_canon by done. unfold next_checkpoint.
  destruct (is_checkpoint e); [destruct Hs as (n & -> & ->); done | by subst].
Qed.

(** A checkpoint that is accepted has a sequence, and the last one accepted is the last one there. *)
Lemma next_checkpoint_sequence e last s : next_checkpoint e last = Ok s ->
  s = if is_checkpoint e then sequence_of e else last.
Proof.
  unfold next_checkpoint, sequence_of. destruct (is_checkpoint e); [|by intros [= ->]].
  destruct (validate_checkpoint_sequence _ _) as [n|x] eqn:E; [|done]. intros [= <-]. revert E.
  unfold validate_checkpoint_sequence. destruct (get "sequence" e) as [[]|]; try done.
  intros (? & _ & (? & _ & [= <-])%rbind_ok)%rbind_ok. done.
Qed.
Lemma check_all_sequence es : forall s, check_all None es = (es, Ok s) -> s = last_sequence_of es.
Proof.
  induction es as [|e es IH] using rev_ind; intros s; [by intros [= <-]|].
  intros (s1 & H1%IH & H2)%check_all_app. cbn [check_all] in H2. destruct (next_checkpoint e s1) as [s2|x] eqn:E; [|done].
  injection H2 as <-. apply next_checkpoint_sequence in E as ->. unfold last_sequence_of, last_checkpoint in *.
  rewrite find_last_app. destruct (is_checkpoint e); [done|exact H1].
Qed.
(** Opening the manifest that a writer leaves gives the writer back. *)
Lemma log_reopens w es : log w es -> manifest_validate_account_id (code_points (w_account_id w)) = Ok tt ->
  open_writer (w_account_id w) (w_files w) = Ok w.
Proof.
  intros (segs & Hsegs & -> & Hc) Hid. unfold open_writer. rewrite Hid. cbn [rbind]. unfold read_all_events.
  rewrite (read_all_log _ _ Hsegs _ _ Hc). rewrite <- (check_all_sequence _ _ Hc). by destruct w.
Qed.

(** C26. The writer refines an append-only log: for a writer of a valid account id, and as long as the clock does not fall back
    to an earlier month, appending an event (whose members occur once and hold no floating-point numbers) makes every
    reader see exactly the previous events followed by the new one, whatever months (files) they are spread over; the
    checkpoint sequence stays strictly increasing; and opening the files again gives the same writer, with its sequence
    number. *)
Theorem append_refines_log e w w' es :
  log w es -> plain (JObj e) = true -> append e w = Ok w' ->
  (forall t, parse_timestamp (get "timestamp" e) = Ok t -> at_end (file_name t) (w_files w)) ->
  manifest_validate_account_id (code_points (w_account_id w)) = Ok tt ->
  log w' (es ++ [e])
  /\ read_all_events (w_files w') = (map canon_event (es ++ [e]), None, w_files w')
  /\ open_writer (w_account_id w) (w_files w') = Ok w'
  /\ last_checkpoint_sequence w' = last_sequence_of (map canon_event (es ++ [e])).
Proof.
  intros Hlog Hp Ha Hend Hid. pose proof (append_log e w w' es Hlog Hp Ha Hend) as Hlog'.
  assert (w_account_id w' = w_account_id w) as Eid by (by apply append_ok in Ha as (? & ? & ? & _ & _ & _ & _ & ->)).
  split; [done|]. rewrite <- Eid in *. pose proof (log_reopens w' _ Hlog' Hid) as Hopen.
  destruct Hlog' as (segs & Hsegs & -> & Hc). split; [by apply (read_all_log _ _ Hsegs _ _ Hc)|]. split; [done|].
  by apply check_all_sequence.
Qed.

Definition empty_writer : writer := Writer "acct" [] None.
Lemma empty_log account_id : log (Writer account_id [] None) [].
Proof. exists []. repeat split. constructor. Qed.

Lemma append_refines_log_witness :
  exists w', append sample_event empty_writer = Ok w' /\ log w' ([] ++ [sample_event])
    /\ read_all_events (w_files w') = (map canon_event ([] ++ [sample_event]), None, w_files w')
    /\ open_writer "acct" (w_files w') = Ok w'
    /\ last_checkpoint_sequence w' = last_sequence_of (map canon_event ([] ++ [sample_event])).
Proof.
  eexists. split; [vm_compute; reflexivity|].
  apply (append_refines_log sample_event empty_writer); [apply empty_log | vm_compute; reflexivity
    | vm_compute; reflexivity | intros; exact I | vm_compute; reflexivity].
Defined.
