(* ===== verification/Sha256.v ===== *)
(** * Sha256: the digest that names EML files

    [hashlib.sha256(raw).hexdigest()] (FIPS 180-4), on 32-bit words kept as [Z] modulo 2^32. *)

From S2P Require Import Prelude PyText Json.

Definition word (x : Z) : Z := x mod 4294967296.
Definition rotr (n x : Z) : Z := Z.lor (Z.shiftr x n) (word (Z.shiftl x (32 - n))).
Definition not32 (x : Z) : Z := (4294967295 - x)%Z.

(** The constants of the standard, from their definition: the first 32 bits of the fractional
    parts of the cube roots of the first 64 primes, and of the square roots of the first eight. *)
Fixpoint cube_root (k : nat) (lo hi n : Z) : Z :=
  match k with
  | O => lo
  | S k => let mid := ((lo + hi) / 2)%Z in
           if (mid * mid * mid <=? n)%Z then cube_root k mid hi n else cube_root k lo mid n
  end.
Definition is_prime (n : Z) : bool := forallb (fun d => negb (n mod d =? 0)%Z) (seqZ 2 (Z.sqrt n - 1)).
Definition primes : list Z := Eval vm_compute in take 64 (List.filter is_prime (seqZ 2 400)).
Definition round_constants : list Z :=
  Eval vm_compute in map (fun p => word (cube_root 40 0 (2 ^ 40) (p * 2 ^ 96))) primes.
Definition initial_hash : list Z :=
  Eval vm_compute in map (fun p => word (Z.sqrt (p * 2 ^ 64))) (take 8 primes).

(** Big-endian bytes of a number, most significant first. *)
Fixpoint be_bytes (k : nat) (n : Z) : bytes :=
  match k with O => [] | S k => be_bytes k (n / 256)%Z ++ [(n mod 256)%Z] end.

(** One bit, zeros up to 56 modulo 64, the length in bits on 64 bits. *)
Definition pad_message (m : bytes) : bytes :=
  let n := Z.of_nat (length m) in
  m ++ [128%Z] ++ replicate (Z.to_nat ((55 - n) mod 64)) 0%Z ++ be_bytes 8 (8 * n)%Z.

Definition word_of (l : bytes) : Z := fold_left (fun acc b => (256 * acc + b)%Z) l 0%Z.

(** The message schedule, newest word first. *)
Fixpoint schedule (k : nat) (w : list Z) : list Z :=
  match k with
  | O => w
  | S k =>
      let at_ i := nth i w 0%Z in
      let s0 x := Z.lxor (Z.lxor (rotr 7 x) (rotr 18 x)) (Z.shiftr x 3) in
      let s1 x := Z.lxor (Z.lxor (rotr 17 x) (rotr 19 x)) (Z.shiftr x 10) in
      schedule k (word (s1 (at_ 1) + at_ 6 + s0 (at_ 14) + at_ 15) :: w)%nat
  end.

Definition round (h : list Z) (kw : Z * Z) : list Z :=
  match h with
  | [a; b; c; d; e; f; g; i] =>
      let S1 := Z.lxor (Z.lxor (rotr 6 e) (rotr 11 e)) (rotr 25 e) in
      let ch := Z.lxor (Z.land e f) (Z.land (not32 e) g) in
      let t1 := word (i + S1 + ch + fst kw + snd kw) in
      let S0 := Z.lxor (Z.lxor (rotr 2 a) (rotr 13 a)) (rotr 22 a) in
      let maj := Z.lxor (Z.lxor (Z.land a b) (Z.land a c)) (Z.land b c) in
      [word (t1 + S0 + maj); a; b; c; word (d + t1); e; f; g]
  | _ => h
  end%Z.

Fixpoint words (k : nat) (l : bytes) : list Z :=
  match k with O => [] | S k => word_of (take 4 l) :: words k (drop 4 l) end.

Definition compress (h : list Z) (block : bytes) : list Z :=
  let w := rev (schedule 48 (rev (words 16 block))) in
  zip_with (fun x y => word (x + y)%Z) h (fold_left round (zip round_constants w) h).

Fixpoint blocks (k : nat) (l : bytes) : list bytes :=
  match k with O => [] | S k => take 64 l :: blocks k (drop 64 l) end.

Definition sha256 (m : bytes) : bytes :=
  let p := pad_message m in
  flat_map (be_bytes 4) (fold_left compress (blocks (length p / 64) p) initial_hash).

(** [hexdigest()] *)
Definition hexdigest (m : bytes) : string :=
  string_of (flat_map (fun b => [hex_digit (b / 16); hex_digit (b mod 16)]%Z) (sha256 m)).

Example sha256_empty : hexdigest []
  = "e3b0c44298fc1c149afbf4c8996fb92427ae41e4649b934ca495991b7852b855"%string.
Proof. vm_compute. reflexivity. Qed.
Example sha256_abc : hexdigest (lit "abc")
  = "ba7816bf8f01cfea414140de5dae2223b00361a396177a9cb410ff61f20015ad"%string.
Proof. vm_compute. reflexivity. Qed.

(** ** Shape of a digest *)

Lemma length_be_bytes k n : length (be_bytes k n) = k.
Proof. revert n. induction k as [|k IH]; intros n; [done|]. cbn [be_bytes]. rewrite length_app, IH. simpl. lia. Qed.
Lemma be_bytes_range k n : Forall (fun b => 0 <= b < 256)%Z (be_bytes k n).
Proof.
  revert n. induction k as [|k IH]; intros n; cbn [be_bytes]; [constructor|].
  apply Forall_app. split; [apply IH|]. constructor; [|constructor]. apply Z.mod_pos_bound. lia.
Qed.

Lemma length_round h kw : length h = 8%nat -> length (round h kw) = 8%nat.
Proof. intros H. do 8 (destruct h as [|? h]; [done|]). by destruct h. Qed.
Lemma length_rounds l h : length h = 8%nat -> length (fold_left round l h) = 8%nat.
Proof. revert h. induction l as [|kw l IH]; intros h H; [done|]. by apply IH, length_round. Qed.
Lemma length_compress h b : length h = 8%nat -> length (compress h b) = 8%nat.
Proof.
  intros H. unfold compress. cbv zeta. rewrite length_zip_with. rewrite (length_rounds _ h H). lia.
Qed.
Lemma length_state l h : length h = 8%nat -> length (fold_left compress l h) = 8%nat.
Proof. revert h. induction l as [|b l IH]; intros h H; [done|]. by apply IH, length_compress. Qed.

Lemma length_sha256 m : length (sha256 m) = 32%nat.
Proof.
  unfold sha256. cbv zeta. set (h := fold_left _ _ _).
  assert (length h = 8%nat) as H by by apply length_state. clearbody h.
  do 8 (destruct h as [|? h]; [done|]). destruct h; [|done].
  cbn [flat_map]. rewrite !length_app, !length_be_bytes. reflexivity.
Qed.
Lemma sha256_range m : Forall (fun b => 0 <= b < 256)%Z (sha256 m).
Proof.
  unfold sha256. cbv zeta. set (h := fold_left _ _ _). clearbody h.
  induction h as [|x h IH]; cbn [flat_map]; [constructor|]. apply Forall_app. split; [apply be_bytes_range | done].
Qed.

Lemma length_string_of l : String.length (string_of l) = length l.
Proof. induction l as [|x l IH]; [done|]. cbn. by rewrite IH. Qed.
Lemma length_hexdigest m : String.length (hexdigest m) = 64%nat.
Proof.
  unfold hexdigest. rewrite length_string_of. pose proof (length_sha256 m) as H.
  set (l := sha256 m) in *. clearbody l.
  assert (forall l, length (flat_map (fun b => [hex_digit (b / 16); hex_digit (b mod 16)]%Z) l)
                    = 2 * length l)%nat as Hl.
  { clear. induction l as [|x l IH]; [done|]. cbn. rewrite IH. lia. }
  rewrite Hl, H. done.
Qed.

(** Its characters: decimal digits and lower-case letters. *)
Definition lower_hex (c : Ascii.ascii) : bool :=
  mem c (String.list_ascii_of_string "0123456789abcdef"%string).
Lemma hex_digit_lower n : (0 <= n < 16)%Z -> lower_hex (ascii_of (hex_digit n)) = true.
Proof.
  intros H. assert (n ∈ seqZ 0 16) as Hn by (apply elem_of_seqZ; lia). revert Hn.
  change (seqZ 0 16) with [0;1;2;3;4;5;6;7;8;9;10;11;12;13;14;15]%Z. rewrite !elem_of_cons, elem_of_nil.
  intros. destruct_or!; subst; vm_compute; done.
Qed.
Lemma hexdigest_lower m : Forall (fun c => lower_hex c = true) (String.list_ascii_of_string (hexdigest m)).
Proof.
  unfold hexdigest. pose proof (sha256_range m) as H. set (l := sha256 m) in *. clearbody l.
  induction H as [|b l Hb Hl IH]; [constructor|]. cbn [flat_map].
  constructor; [|constructor; [|exact IH]]; apply hex_digit_lower.
  - split; [apply Z.div_pos; lia | apply Z.div_lt_upper_bound; lia].
  - apply Z.mod_pos_bound. lia.
Qed.
