(* ===== verification/Database.v ===== *)
(** * Database: the message repository

    [infrastructure/database/message_repository.py] over the finalized schema (one [messages] row
    per canonical message, its folder memberships in [message_folders]), that is the
    [_uses_memberships()] branch of every method. A table is the list of its rows in id order
    (ids are [AUTOINCREMENT], new rows go last); [SELECT], [UPDATE] and [DELETE] are filters and
    maps over it. Column defaults that only record the current time are left out. The tables of PST
    imports, whose operations are in [PstTables], are rows of the same database. *)

From S2P Require Import Prelude Errors.

(** ** Rows *)

Inductive local_state := Active | Trashed | Purged.
#[export] Instance local_state_eq_dec : EqDecision local_state.
Proof. solve_decision. Defined.

Record message := Message {
  m_id : Z;
  account_id : string;
  message_id : option string;
  content_key : string;
  source_item_key : string;
  m_local_state : local_state;
  trashed_at : option string;
  relative_path : option string;
  file_hash : option string;
  subject : option string;
  sender : option string;
  recipient : option string;
  cc : option string;
  date_sent : option string;
  internal_date : option string;
  size_bytes : option Z;
  has_attachment : bool;
  in_reply_to : option string;
  references_ids : option string;
  thread_key : option string;
  gmail_msgid : option string;
  gmail_thrid : option string;
  gmail_labels : option string;
}.

Record membership := Membership {
  mf_message_id : Z;
  mf_folder_id : Z;
  uid : option Z;
  uidvalidity : option Z;
  remote_state : string;
  moved_to_folder_id : option Z;
  imap_flags : option string;
  flags_seen_at : option string;
  last_seen_at : option string;
}.

Record folder := Folder {
  f_id : Z;
  f_account_id : string;
  raw_name : string;
  display_name : string;
  f_uidvalidity : option Z;
  last_seen_uid : Z;
  is_sync_target : bool;
  last_synced_at : option string;
  backfill_next_uid : option Z;
  initial_sync_completed : bool;
  highest_modseq : option Z;
}.

Record account := Account {
  a_id : string;
  provider_type : string;
  a_display_name : option string;
  host : option string;
  port : option Z;
  username : option string;
  is_enabled : bool;
  tls_mode : string;
  ca_cert_path : option string;
  auth_type : string;
  oauth_provider : option string;
  oauth_client_id : option string;
  oauth_tenant : option string;
}.

Record contents := Contents {
  c_message_id : Z;
  subject_norm : option string;
  sender_norm : option string;
  body_text : option string;
  attachment_names : option string;
}.

Record failure := Failure {
  sf_id : Z;
  sf_account_id : string;
  sf_folder_id : Z;
  sf_uidvalidity : Z;
  sf_uid : Z;
  error_class : string;
  error_message : string;
  attempt_count : Z;
}.

Record alias := Alias {
  al_account_id : string;
  observed_source_item_key : string;
  al_message_id : Z;
  evidence_kind : string;
}.

(** [audit_log.message_id] is a TEXT column: an integer id is stored as its decimal text. *)
Record audit := Audit {
  au_id : Z;
  occurred_at : option string;
  operation : string;
  au_account_id : option string;
  au_message_id : option string;
  au_subject : option string;
  au_size_bytes : option Z;
  detail : option string;
}.

(** [pst_imports], one row per generation of a PST import ([options_json] and [started_at], never
    read, are left out), and [pst_import_items]. *)
Record pst_import := PstImport {
  pi_id : Z;
  pi_import_uuid : string;
  pi_account_id : string;
  pi_source_filename : string;
  pi_source_sha256 : string;
  pi_source_size_bytes : option Z;
  pi_source_mtime : option Z;
  pi_readpst_version : option string;
  pi_status : string;
  pi_is_active : bool;
  pi_replaces_id : option Z;
  pi_superseded_at : option string;
  pi_total_files : option Z;
  pi_ingested_count : Z;
  pi_failed_count : Z;
  pi_staging_path : option string;
  pi_finished_at : option string;
  pi_error_message : option string;
}.
Record pst_item := PstItem {
  it_import_id : Z;
  it_source_item_key : string;
  it_source_relative_path : string;
  it_folder_relative_path : string;
  it_source_size_bytes : option Z;
  it_source_sha256 : option string;
  it_final_relative_path : option string;
  it_message_row_id : option Z;
  it_status : string;
  it_error_class : option string;
  it_error_message : option string;
  it_attempt_count : Z;
}.

Record Db := MkDb {
  accounts : list account;
  folders : list folder;
  messages : list message;
  memberships : list membership;
  message_contents : list contents;
  sync_failures : list failure;
  aliases : list alias;
  audit_log : list audit;
  app_state : list (string * string);
  next_folder_id : Z;
  next_message_id : Z;
  next_failure_id : Z;
  next_audit_id : Z;
  pst_imports : list pst_import;
  pst_items : list pst_item;
  next_import_id : Z;
}.

Definition empty_db : Db := MkDb [] [] [] [] [] [] [] [] [] 1 1 1 1 [] [] 1.

(** ** Updating one table *)

Definition set_accounts f d := MkDb (f (accounts d)) (folders d) (messages d) (memberships d)
  (message_contents d) (sync_failures d) (aliases d) (audit_log d) (app_state d)
  (next_folder_id d) (next_message_id d) (next_failure_id d) (next_audit_id d)
  (pst_imports d) (pst_items d) (next_import_id d).
Definition set_folders f d := MkDb (accounts d) (f (folders d)) (messages d) (memberships d)
  (message_contents d) (sync_failures d) (aliases d) (audit_log d) (app_state d)
  (next_folder_id d) (next_message_id d) (next_failure_id d) (next_audit_id d)
  (pst_imports d) (pst_items d) (next_import_id d).
Definition set_messages f d := MkDb (accounts d) (folders d) (f (messages d)) (memberships d)
  (message_contents d) (sync_failures d) (aliases d) (audit_log d) (app_state d)
  (next_folder_id d) (next_message_id d) (next_failure_id d) (next_audit_id d)
  (pst_imports d) (pst_items d) (next_import_id d).
Definition set_memberships f d := MkDb (accounts d) (folders d) (messages d) (f (memberships d))
  (message_contents d) (sync_failures d) (aliases d) (audit_log d) (app_state d)
  (next_folder_id d) (next_message_id d) (next_failure_id d) (next_audit_id d)
  (pst_imports d) (pst_items d) (next_import_id d).
Definition set_contents f d := MkDb (accounts d) (folders d) (messages d) (memberships d)
  (f (message_contents d)) (sync_failures d) (aliases d) (audit_log d) (app_state d)
  (next_folder_id d) (next_message_id d) (next_failure_id d) (next_audit_id d)
  (pst_imports d) (pst_items d) (next_import_id d).
Definition set_failures f d := MkDb (accounts d) (folders d) (messages d) (memberships d)
  (message_contents d) (f (sync_failures d)) (aliases d) (audit_log d) (app_state d)
  (next_folder_id d) (next_message_id d) (next_failure_id d) (next_audit_id d)
  (pst_imports d) (pst_items d) (next_import_id d).
Definition set_aliases f d := MkDb (accounts d) (folders d) (messages d) (memberships d)
  (message_contents d) (sync_failures d) (f (aliases d)) (audit_log d) (app_state d)
  (next_folder_id d) (next_message_id d) (next_failure_id d) (next_audit_id d)
  (pst_imports d) (pst_items d) (next_import_id d).
Definition set_audit f d := MkDb (accounts d) (folders d) (messages d) (memberships d)
  (message_contents d) (sync_failures d) (aliases d) (f (audit_log d)) (app_state d)
  (next_folder_id d) (next_message_id d) (next_failure_id d) (next_audit_id d)
  (pst_imports d) (pst_items d) (next_import_id d).
Definition set_app f d := MkDb (accounts d) (folders d) (messages d) (memberships d)
  (message_contents d) (sync_failures d) (aliases d) (audit_log d) (f (app_state d))
  (next_folder_id d) (next_message_id d) (next_failure_id d) (next_audit_id d)
  (pst_imports d) (pst_items d) (next_import_id d).
Definition bump_folder d := MkDb (accounts d) (folders d) (messages d) (memberships d)
  (message_contents d) (sync_failures d) (aliases d) (audit_log d) (app_state d)
  (next_folder_id d + 1)%Z (next_message_id d) (next_failure_id d) (next_audit_id d)
  (pst_imports d) (pst_items d) (next_import_id d).
Definition bump_message d := MkDb (accounts d) (folders d) (messages d) (memberships d)
  (message_contents d) (sync_failures d) (aliases d) (audit_log d) (app_state d)
  (next_folder_id d) (next_message_id d + 1)%Z (next_failure_id d) (next_audit_id d)
  (pst_imports d) (pst_items d) (next_import_id d).
Definition bump_failure d := MkDb (accounts d) (folders d) (messages d) (memberships d)
  (message_contents d) (sync_failures d) (aliases d) (audit_log d) (app_state d)
  (next_folder_id d) (next_message_id d) (next_failure_id d + 1)%Z (next_audit_id d)
  (pst_imports d) (pst_items d) (next_import_id d).
Definition bump_audit d := MkDb (accounts d) (folders d) (messages d) (memberships d)
  (message_contents d) (sync_failures d) (aliases d) (audit_log d) (app_state d)
  (next_folder_id d) (next_message_id d) (next_failure_id d) (next_audit_id d + 1)%Z
  (pst_imports d) (pst_items d) (next_import_id d).
Definition set_imports f d := MkDb (accounts d) (folders d) (messages d) (memberships d)
  (message_contents d) (sync_failures d) (aliases d) (audit_log d) (app_state d)
  (next_folder_id d) (next_message_id d) (next_failure_id d) (next_audit_id d)
  (f (pst_imports d)) (pst_items d) (next_import_id d).
Definition set_items f d := MkDb (accounts d) (folders d) (messages d) (memberships d)
  (message_contents d) (sync_failures d) (aliases d) (audit_log d) (app_state d)
  (next_folder_id d) (next_message_id d) (next_failure_id d) (next_audit_id d)
  (pst_imports d) (f (pst_items d)) (next_import_id d).
Definition bump_import d := MkDb (accounts d) (folders d) (messages d) (memberships d)
  (message_contents d) (sync_failures d) (aliases d) (audit_log d) (app_state d)
  (next_folder_id d) (next_message_id d) (next_failure_id d) (next_audit_id d)
  (pst_imports d) (pst_items d) (next_import_id d + 1)%Z.

(** [UPDATE t SET ... WHERE p] and [DELETE FROM t WHERE p]. *)
Definition update_where {A} (p : A -> bool) (f : A -> A) (l : list A) : list A :=
  map (fun x => if p x then f x else x) l.
Definition delete_where {A} (p : A -> bool) (l : list A) : list A := List.filter (fun x => negb (p x)) l.

(** A database operation returns a result, [DatabaseError] standing for a constraint failure. *)
Definition db_error {A} (msg : string) : result A := raise DatabaseError msg.

(** ** Accounts and folders *)

(** [upsert_account]: an [ON CONFLICT(id)] update of every column. *)
Definition upsert_account (a : account) (d : Db) : result (string * Db) :=
  check (a_id a != ""%string) DatabaseError "Account id is required" ;?
  check (mem (auth_type a) ["password"; "xoauth2"]%string) DatabaseError
    "SQLite operation failed: upsert account" ;?
  Ok (a_id a,
      if existsb (fun b => a_id b == a_id a) (accounts d)
      then set_accounts (update_where (fun b => a_id b == a_id a) (fun _ => a)) d
      else set_accounts (fun l => l ++ [a]) d).

(** [normalize_account_provider_type]: its own transaction, rolled back unless one row changed. *)
Definition normalize_account_provider_type (id provider : string) (d : Db) : result Db :=
  check (id != ""%string) DatabaseError "Account id is required" ;?
  check (provider != ""%string) DatabaseError "Provider type is required" ;?
  check (existsb (fun a => a_id a == id) (accounts d)) DatabaseError "Account does not exist" ;?
  Ok (set_accounts (update_where (fun a => a_id a == id) (fun a =>
        Account (a_id a) provider (a_display_name a) (host a) (port a) (username a) (is_enabled a)
          (tls_mode a) (ca_cert_path a) (auth_type a) (oauth_provider a) (oauth_client_id a)
          (oauth_tenant a))) d).

Definition account_le (a b : account) : Prop := String.leb (a_id a) (a_id b) = true.
#[export] Instance account_le_dec : RelDecision account_le.
Proof. intros a b. unfold account_le. apply _. Defined.
Definition list_accounts (d : Db) : list account := merge_sort account_le (accounts d).

Definition list_folders (account : string) (d : Db) : list folder :=
  List.filter (fun f => f_account_id f == account) (folders d).
Definition list_sync_targets (account : string) (d : Db) : list folder :=
  List.filter (fun f => (f_account_id f == account) && is_sync_target f) (folders d).

(** The dictionary [upsert_folder] takes: a column is [Some] when its key is present. *)
Record folder_in := FolderIn {
  fi_account_id : string;
  fi_raw_name : string;
  fi_display_name : option string;
  fi_uidvalidity : option (option Z);
  fi_last_seen_uid : option Z;
  fi_is_sync_target : option bool;
  fi_last_synced_at : option (option string);
  fi_backfill_next_uid : option (option Z);
  fi_initial_sync_completed : option bool;
  fi_highest_modseq : option (option Z);
}.

Definition same_folder (account name : string) (f : folder) : bool :=
  (f_account_id f == account) && (raw_name f == name).

Definition upsert_folder (f : folder_in) (d : Db) : result (Z * Db) :=
  let acc := fi_account_id f in
  let name := fi_raw_name f in
  match List.find (same_folder acc name) (folders d) with
  | Some old =>
      Ok (f_id old, set_folders (update_where (same_folder acc name) (fun g =>
        Folder (f_id g) (f_account_id g) (raw_name g)
          (get_or (display_name g) (fi_display_name f))
          (get_or (f_uidvalidity g) (fi_uidvalidity f)) (last_seen_uid g) (is_sync_target g)
          (get_or (last_synced_at g) (fi_last_synced_at f)) (backfill_next_uid g)
          (initial_sync_completed g) (highest_modseq g))) d)
  | None =>
      check (existsb (fun a => a_id a == acc) (accounts d)) DatabaseError
        "SQLite operation failed: upsert folder" ;?
      let id := next_folder_id d in
      Ok (id, bump_folder (set_folders (fun l => l ++
        [Folder id acc name (get_or name (fi_display_name f)) (get_or None (fi_uidvalidity f))
           (get_or 0%Z (fi_last_seen_uid f)) (get_or false (fi_is_sync_target f))
           (get_or None (fi_last_synced_at f)) (get_or None (fi_backfill_next_uid f))
           (get_or false (fi_initial_sync_completed f)) (get_or None (fi_highest_modseq f))]) d))
  end.

Definition set_sync_target (account name : string) (enabled : bool) (d : Db) : result Db :=
  check (existsb (same_folder account name) (folders d)) DatabaseError "Folder does not exist" ;?
  Ok (set_folders (update_where (same_folder account name) (fun g =>
        Folder (f_id g) (f_account_id g) (raw_name g) (display_name g) (f_uidvalidity g)
          (last_seen_uid g) enabled (last_synced_at g) (backfill_next_uid g)
          (initial_sync_completed g) (highest_modseq g))) d).

Definition initialize_sync_cursors (folder_id uidv max_uid : Z) (d : Db) : Db :=
  set_folders (update_where (fun g => (f_id g =? folder_id)%Z) (fun g =>
    Folder (f_id g) (f_account_id g) (raw_name g) (display_name g) (Some uidv) max_uid
      (is_sync_target g) (last_synced_at g) (Some max_uid) (max_uid =? 0)%Z None)) d.

Definition update_sync_cursors (folder_id : Z) (last_seen backfill : option Z)
    (completed : option bool) (d : Db) : Db :=
  set_folders (update_where (fun g => (f_id g =? folder_id)%Z) (fun g =>
    Folder (f_id g) (f_account_id g) (raw_name g) (display_name g) (f_uidvalidity g)
      (get_or (last_seen_uid g) last_seen) (is_sync_target g) (last_synced_at g)
      (match backfill with Some n => Some n | None => backfill_next_uid g end)
      (get_or (initial_sync_completed g) completed) (highest_modseq g))) d.

Definition set_highest_modseq (folder_id : Z) (value : option Z) (d : Db) : Db :=
  set_folders (update_where (fun g => (f_id g =? folder_id)%Z) (fun g =>
    Folder (f_id g) (f_account_id g) (raw_name g) (display_name g) (f_uidvalidity g)
      (last_seen_uid g) (is_sync_target g) (last_synced_at g) (backfill_next_uid g)
      (initial_sync_completed g) value)) d.

(** ** Messages and memberships: reading *)

(** [SELECT m.*, mf.*]: a message with at most one of its memberships. *)
Record stored := Stored { s_message : message; s_membership : option membership }.

Definition message_with (id : Z) (d : Db) : option message :=
  List.find (fun m => (m_id m =? id)%Z) (messages d).
Definition memberships_of (id : Z) (d : Db) : list membership :=
  List.filter (fun mf => (mf_message_id mf =? id)%Z) (memberships d).

Definition folder_le (a b : membership) : Prop := (mf_folder_id a <= mf_folder_id b)%Z.
#[export] Instance folder_le_dec : RelDecision folder_le.
Proof. intros a b. unfold folder_le. apply _. Defined.
Definition by_folder (l : list membership) : list membership := merge_sort folder_le l.

(** The membership with the smallest folder id, [ORDER BY mf.folder_id LIMIT 1]. *)
Definition first_membership (id : Z) (d : Db) : option membership :=
  head (by_folder (memberships_of id d)).
Definition with_first (d : Db) (m : message) : stored := Stored m (first_membership (m_id m) d).

Definition get_message (id : Z) (d : Db) : option stored :=
  option_map (with_first d) (message_with id d).

Definition in_account (account : option string) (m : message) : bool :=
  match account with Some a => account_id m == a | None => true end.

Definition list_stored_messages (account : option string) (d : Db) : list stored :=
  map (with_first d) (List.filter (fun m =>
    (if relative_path m is Some _ then true else false) && in_account account m) (messages d)).

Definition has_message_contents (id : Z) (d : Db) : bool :=
  existsb (fun c => (c_message_id c =? id)%Z) (message_contents d).

(** [trashed_at < ?] is false on NULL; [ORDER BY trashed_at, id] puts NULL first. *)
Definition trashed_leb (a b : message) : bool :=
  match trashed_at a, trashed_at b with
  | None, None => (m_id a <=? m_id b)%Z
  | None, Some _ => true
  | Some _, None => false
  | Some x, Some y => String.ltb x y || (x == y) && (m_id a <=? m_id b)%Z
  end.
Definition trashed_le (a b : message) : Prop := trashed_leb a b = true.
#[export] Instance trashed_le_dec : RelDecision trashed_le.
Proof. intros a b. unfold trashed_le. apply _. Defined.

Definition list_trashed (account older_than : option string) (d : Db) : list stored :=
  map (with_first d) (merge_sort trashed_le (List.filter (fun m =>
    (m_local_state m == Trashed) && in_account account m
    && match older_than with
       | Some t => match trashed_at m with Some x => String.ltb x t | None => false end
       | None => true
       end) (messages d))).

Definition count_path_references (account path : string) (exclude : Z) (d : Db) : Z :=
  Z.of_nat (length (List.filter (fun m =>
    (account_id m == account) && (relative_path m == Some path) && negb (m_id m =? exclude)%Z
    && (m_local_state m != Purged)) (messages d))).

(** [count_generation_path_references]: the rows of the join of messages, items and imports. *)
Definition count_generation_path_references (account uuid path : string) (exclude : Z) (d : Db) : Z :=
  Z.of_nat (length (List.filter (fun '(m, i, p) =>
    (it_message_row_id i == Some (m_id m)) && (pi_id p =? it_import_id i)%Z
    && (account_id m == account) && (pi_import_uuid p == uuid) && (relative_path m == Some path)
    && negb (m_id m =? exclude)%Z && (m_local_state m != Purged))
    (list_prod (list_prod (messages d) (pst_items d)) (pst_imports d)))).

Definition exists_source_item_key (account : string) (folder_id : Z) (key : string) (d : Db) : bool :=
  existsb (fun m => (account_id m == account) && (source_item_key m == key)
    && existsb (fun mf => (mf_folder_id mf =? folder_id)%Z) (memberships_of (m_id m) d)) (messages d).

Definition find_message_id_by_source_item_key (account key : string) (d : Db) : option Z :=
  option_map m_id (List.find (fun m => (account_id m == account) && (source_item_key m == key))
                     (messages d)).

Definition folder_with (id : Z) (d : Db) : option folder :=
  List.find (fun f => (f_id f =? id)%Z) (folders d).

(** [list_message_memberships]: the membership with its folder's name and the name of the folder
    it moved to. *)
Definition list_message_memberships (account key : string) (d : Db)
    : list (membership * string * option string) :=
  flat_map (fun m =>
    if (account_id m == account) && (source_item_key m == key) then
      flat_map (fun mf => match folder_with (mf_folder_id mf) d with
        | Some f => [(mf, raw_name f,
                      option_map raw_name (moved_to_folder_id mf ≫= fun i => folder_with i d))]
        | None => []
        end) (by_folder (memberships_of (m_id m) d))
    else []) (messages d).

Record StoredEml := MkStoredEml {
  eml_relative_path : string; eml_file_hash : string; eml_size_bytes : Z; deduplicated : bool }.

Definition find_stored_eml (account hash : string) (d : Db) : option StoredEml :=
  match List.find (fun m => (account_id m == account) && (file_hash m == Some hash)
                   && (if relative_path m is Some _ then true else false)) (messages d) with
  | Some m => match relative_path m with
              | Some p => Some (MkStoredEml p hash (get_or 0%Z (size_bytes m)) false)
              | None => None
              end
  | None => None
  end.

Definition at_uid (folder_id uidv u : Z) (mf : membership) : bool :=
  (mf_folder_id mf =? folder_id)%Z && (uidvalidity mf == Some uidv) && (uid mf == Some u).

Definition local_uids (account : string) (folder_id uidv : Z) (d : Db) : list Z :=
  flat_map (fun mf => match message_with (mf_message_id mf) d, uid mf with
    | Some m, Some u => if (account_id m == account) && (mf_folder_id mf =? folder_id)%Z
                           && (uidvalidity mf == Some uidv) then [u] else []
    | _, _ => []
    end) (memberships d).

Definition get_message_by_uid (account : string) (folder_id uidv u : Z) (d : Db) : option stored :=
  head (flat_map (fun m => if account_id m == account then
    map (fun mf => Stored m (Some mf))
      (List.filter (at_uid folder_id uidv u) (memberships_of (m_id m) d)) else []) (messages d)).

Definition find_move_candidates (account key : string) (hash : option string) (exclude_folder : Z)
    (d : Db) : list stored :=
  flat_map (fun m =>
    if (account_id m == account) && (content_key m == key)
       && match hash with Some h => file_hash m == Some h | None => true end
    then map (fun mf => Stored m (Some mf))
           (List.filter (fun mf => negb (mf_folder_id mf =? exclude_folder)%Z
                                   && (remote_state mf == "present"%string))
              (by_folder (memberships_of (m_id m) d)))
    else []) (messages d).

(** ** Messages and memberships: writing *)

(** The dictionary [add_message] takes: the message columns it holds ([mr_columns]) with their
    values ([mr_row]), and the membership values ([record.get(...)]). *)
Record message_in := MessageIn {
  mr_columns : list string;
  mr_row : message;
  mr_membership : membership;
}.

(** [column = excluded.column] for every column of the record, the message columns only. *)
Definition set_columns (cols : list string) (src dst : message) : message :=
  let pick {A} (c : string) (f : message -> A) : A := if mem c cols then f src else f dst in
  Message (m_id dst) (account_id dst) (pick "message_id" message_id) (pick "content_key" content_key)
    (pick "source_item_key" source_item_key) (pick "local_state" m_local_state)
    (pick "trashed_at" trashed_at) (pick "relative_path" relative_path)
    (pick "file_hash" file_hash) (pick "subject" subject) (pick "sender" sender)
    (pick "recipient" recipient) (pick "cc" cc) (pick "date_sent" date_sent)
    (pick "internal_date" internal_date) (pick "size_bytes" size_bytes)
    (pick "has_attachment" has_attachment) (pick "in_reply_to" in_reply_to)
    (pick "references_ids" references_ids) (pick "thread_key" thread_key)
    (pick "gmail_msgid" gmail_msgid) (pick "gmail_thrid" gmail_thrid)
    (pick "gmail_labels" gmail_labels)%string.

(** A new row: the column defaults. *)
Definition blank_message (id : Z) (account key : string) : message :=
  Message id account None "" key Active None None None None None None None None None None false
    None None None None None None.

(** [contents.get(...)] *)
Record contents_in := ContentsIn {
  ci_subject_norm : option string; ci_subject : option string;
  ci_sender_norm : option string; ci_sender : option string;
  ci_body_text : option string; ci_attachment_names : option string }.

Section Contents.
(** [normalize_for_search(replace_surrogates(value))] *)
Context (normalize : string -> string).

Definition normalized_contents (id : Z) (c : contents_in) : contents :=
  Contents id
    (option_map normalize (or_else (ci_subject_norm c) (ci_subject c)))
    (option_map normalize (or_else (ci_sender_norm c) (ci_sender c)))
    (option_map normalize (ci_body_text c)) (option_map normalize (ci_attachment_names c)).

(** [DELETE] then [INSERT] of the content row. *)
Definition replace_contents (id : Z) (c : contents_in) (d : Db) : Db :=
  set_contents (fun l => delete_where (fun r => (c_message_id r =? id)%Z) l
                         ++ [normalized_contents id c]) d.

Definition update_message_contents (id : Z) (c : contents_in) (d : Db) : result Db :=
  check (if message_with id d is Some _ then true else false) DatabaseError
    "SQLite operation failed: update message contents" ;?
  Ok (replace_contents id c d).

(** [uq_message_folders_uid]: (folder, uidvalidity, uid) unique when none is NULL. *)
Definition uid_clash (mf other : membership) : bool :=
  (mf_folder_id other =? mf_folder_id mf)%Z
  && match uidvalidity mf, uid mf with
     | Some v, Some u => (uidvalidity other == Some v) && (uid other == Some u)
     | _, _ => false
     end.
Definition same_pair (mf other : membership) : bool :=
  (mf_message_id other =? mf_message_id mf)%Z && (mf_folder_id other =? mf_folder_id mf)%Z.

(** Foreign keys of a membership row. *)
Definition membership_refs (mf : membership) (d : Db) : bool :=
  (if folder_with (mf_folder_id mf) d is Some _ then true else false)
  && match moved_to_folder_id mf with
     | Some i => if folder_with i d is Some _ then true else false
     | None => true
     end.

(** [INSERT INTO message_folders ... ON CONFLICT(message_id, folder_id) DO UPDATE]. *)
Definition upsert_membership (mf : membership) (d : Db) : result Db :=
  check (membership_refs mf d
         && negb (existsb (fun o => negb (same_pair mf o) && uid_clash mf o) (memberships d)))
    DatabaseError "SQLite operation failed: add message" ;?
  Ok (if existsb (same_pair mf) (memberships d)
      then set_memberships (update_where (same_pair mf) (fun _ => mf)) d
      else set_memberships (fun l => l ++ [mf]) d).

Definition same_key (account key : string) (m : message) : bool :=
  (account_id m == account) && (source_item_key m == key).

(** The [INSERT INTO messages ... ON CONFLICT(account_id, source_item_key) DO UPDATE] part. *)
Definition upsert_message (r : message_in) (d : Db) : result (Z * Db) :=
  let acc := account_id (mr_row r) in
  let key := source_item_key (mr_row r) in
  check (mem "content_key"%string (mr_columns r) && existsb (fun a => a_id a == acc) (accounts d))
    DatabaseError "SQLite operation failed: add message" ;?
  match List.find (same_key acc key) (messages d) with
  | Some old => Ok (m_id old, set_messages (update_where (same_key acc key)
                                (set_columns (mr_columns r) (mr_row r))) d)
  | None =>
      let id := next_message_id d in
      Ok (id, bump_message (set_messages (fun l => l ++
                [set_columns (mr_columns r) (mr_row r) (blank_message id acc key)]) d))
  end.

Definition with_message_id (id : Z) (mf : membership) : membership :=
  Membership id (mf_folder_id mf) (uid mf) (uidvalidity mf) (remote_state mf)
    (moved_to_folder_id mf) (imap_flags mf) (flags_seen_at mf) (last_seen_at mf).

(** [add_message] *)
Definition add_message (r : message_in) (c : option contents_in) (d : Db) : result (Z * Db) :=
  let? row := upsert_message r d in
  let (id, d) := (row : Z * Db) in
  let? d := upsert_membership (with_message_id id (mr_membership r)) d in
  Ok (id, match c with Some c => replace_contents id c d | None => d end).
End Contents.

Definition set_membership_flags (flags : option (option string)) (seen : string) (mf : membership) :=
  Membership (mf_message_id mf) (mf_folder_id mf) (uid mf) (uidvalidity mf) (remote_state mf)
    (moved_to_folder_id mf) (get_or (imap_flags mf) flags) (Some seen) (last_seen_at mf).
Definition set_remote_state (state : string) (moved_to : option Z) (mf : membership) : membership :=
  Membership (mf_message_id mf) (mf_folder_id mf) (uid mf) (uidvalidity mf) state
    moved_to (imap_flags mf) (flags_seen_at mf) (last_seen_at mf).
Definition of_account (account : string) (d : Db) (mf : membership) : bool :=
  match message_with (mf_message_id mf) d with Some m => account_id m == account | None => false end.

Definition update_flags (account : string) (folder_id uidv u : Z) (flags : option string)
    (seen : string) (d : Db) : Db :=
  set_memberships (update_where (fun mf => at_uid folder_id uidv u mf && of_account account d mf)
                     (set_membership_flags (Some flags) seen)) d.

(** [touch_flags_seen_at]: the chunks of 500 uids update disjoint rows one after the other. *)
Definition touch_flags_seen_at (account : string) (folder_id uidv : Z) (uids : list Z)
    (seen : string) (d : Db) : Db :=
  set_memberships (update_where (fun mf =>
    (mf_folder_id mf =? folder_id)%Z && (uidvalidity mf == Some uidv)
    && match uid mf with Some u => mem u uids | None => false end && of_account account d mf)
    (set_membership_flags None seen)) d.

Definition uid_le (a b : message * membership) : Prop := (get_or 0 (uid a.2) <= get_or 0 (uid b.2))%Z.
#[export] Instance uid_le_dec : RelDecision uid_le.
Proof. intros a b. unfold uid_le. apply _. Defined.

(** [ORDER BY mf.uid] *)
Definition list_flag_refresh_items (account : string) (folder_id uidv : Z) (since : string) (d : Db)
    : list (message * membership) :=
  merge_sort uid_le (flat_map (fun mf => match message_with (mf_message_id mf) d with
    | Some m => if (account_id m == account) && (mf_folder_id mf =? folder_id)%Z
                   && (uidvalidity mf == Some uidv)
                   && (if uid mf is Some _ then true else false)
                   && match internal_date m with Some x => String.leb since x | None => false end
                then [(m, mf)] else []
    | None => []
    end) (memberships d)).

Definition update_message (id : Z) (f : message -> message) (d : Db) : Db :=
  set_messages (update_where (fun m => (m_id m =? id)%Z) f) d.

Definition with_state (state : local_state) (at_ : option string) (m : message) : message :=
  Message (m_id m) (account_id m) (message_id m) (content_key m) (source_item_key m) state at_
    (relative_path m) (file_hash m) (subject m) (sender m) (recipient m) (cc m) (date_sent m)
    (internal_date m) (size_bytes m) (has_attachment m) (in_reply_to m) (references_ids m)
    (thread_key m) (gmail_msgid m) (gmail_thrid m) (gmail_labels m).
Definition with_storage (path hash : option string) (m : message) : message :=
  Message (m_id m) (account_id m) (message_id m) (content_key m) (source_item_key m)
    (m_local_state m) (trashed_at m) path hash (subject m) (sender m) (recipient m) (cc m)
    (date_sent m) (internal_date m) (size_bytes m) (has_attachment m) (in_reply_to m)
    (references_ids m) (thread_key m) (gmail_msgid m) (gmail_thrid m) (gmail_labels m).
Definition with_labels (labels : string) (m : message) : message :=
  Message (m_id m) (account_id m) (message_id m) (content_key m) (source_item_key m)
    (m_local_state m) (trashed_at m) (relative_path m) (file_hash m) (subject m) (sender m)
    (recipient m) (cc m) (date_sent m) (internal_date m) (size_bytes m) (has_attachment m)
    (in_reply_to m) (references_ids m) (thread_key m) (gmail_msgid m) (gmail_thrid m) (Some labels).

Definition set_local_state (id : Z) (state : local_state) (at_ : option string) (d : Db) : Db :=
  update_message id (with_state state at_) d.
Definition update_message_storage (id : Z) (path hash : option string) (d : Db) : Db :=
  update_message id (with_storage path hash) d.
Definition update_gmail_labels (id : Z) (labels : string) (d : Db) : Db :=
  update_message id (with_labels labels) d.

Definition update_remote_state (id : Z) (state : string) (moved_to folder_id : option Z) (d : Db) : Db :=
  set_memberships (update_where (fun mf =>
    (mf_message_id mf =? id)%Z
    && match folder_id with Some f => (mf_folder_id mf =? f)%Z | None => true end)
    (set_remote_state state moved_to)) d.

Definition delete_message_contents (id : Z) (d : Db) : Db :=
  set_contents (delete_where (fun c => (c_message_id c =? id)%Z)) d.

(** [replace_message_memberships]: plain inserts after the delete. *)
Fixpoint insert_memberships (l : list membership) (d : Db) : result Db :=
  match l with
  | [] => Ok d
  | mf :: l =>
      check (membership_refs mf d
             && negb (existsb (fun o => same_pair mf o || uid_clash mf o) (memberships d)))
        DatabaseError "SQLite operation failed: replace message memberships" ;?
      insert_memberships l (set_memberships (fun t => t ++ [mf]) d)
  end.
Definition replace_message_memberships (id : Z) (l : list membership) (d : Db) : result Db :=
  check ((if message_with id d is Some _ then true else false) || bool_decide (l = [])) DatabaseError
    "SQLite operation failed: replace message memberships" ;?
  insert_memberships (map (with_message_id id) l)
    (set_memberships (delete_where (fun mf => (mf_message_id mf =? id)%Z)) d).

(** ** Identity aliases *)

Definition same_alias (account key : string) (a : alias) : bool :=
  (al_account_id a == account) && (observed_source_item_key a == key).

(** [INSERT OR IGNORE]: the unique key is (account, observed key). *)
Definition insert_alias (a : alias) (d : Db) : Db :=
  if existsb (same_alias (al_account_id a) (observed_source_item_key a)) (aliases d) then d
  else set_aliases (fun l => l ++ [a]) d.

Definition add_message_identity_alias (account key : string) (id : Z) (evidence : string) (d : Db)
    : result Db :=
  let d := insert_alias (Alias account key id evidence) d in
  match List.find (same_alias account key) (aliases d) with
  | Some a => check (al_message_id a =? id)%Z DatabaseError
                "Message identity alias maps to multiple canonical messages" ;? Ok d
  | None => db_error "Message identity alias maps to multiple canonical messages"
  end.

(** [DELETE FROM messages WHERE id = ?], with the cascades. *)
Definition delete_message (id : Z) (d : Db) : Db :=
  set_aliases (delete_where (fun a => (al_message_id a =? id)%Z))
    (set_contents (delete_where (fun c => (c_message_id c =? id)%Z))
      (set_memberships (delete_where (fun mf => (mf_message_id mf =? id)%Z))
        (set_messages (delete_where (fun m => (m_id m =? id)%Z)) d))).

Definition merged_state (a b : local_state) : local_state :=
  if (a == Active) || (b == Active) then Active
  else if (a == Trashed) || (b == Trashed) then Trashed
  else Purged.

Definition of_pair (id fid : Z) (mf : membership) : bool :=
  (mf_message_id mf =? id)%Z && (mf_folder_id mf =? fid)%Z.

(** One membership of the duplicate: dropped when the canonical message is in that folder at the
    same UID, moved to the canonical message when it is not in that folder. *)
Definition merge_membership (canonical duplicate : Z) (mf : membership) (d : Db) : result Db :=
  let fid := mf_folder_id mf in
  match List.find (of_pair canonical fid) (memberships d) with
  | Some o =>
      check ((uid o == uid mf) && (uidvalidity o == uidvalidity mf)) DatabaseError
        "Cannot merge duplicate memberships with conflicting folder UIDs" ;?
      Ok (set_memberships (delete_where (of_pair duplicate fid)) d)
  | None => Ok (set_memberships (update_where (of_pair duplicate fid) (with_message_id canonical)) d)
  end.

(** The loop over the duplicate's memberships. *)
Fixpoint merge_memberships (canonical duplicate : Z) (l : list membership) (d : Db) : result Db :=
  match l with
  | [] => Ok d
  | mf :: l =>
      let? d := merge_membership canonical duplicate mf d in
      merge_memberships canonical duplicate l d
  end.

(** The canonical row [c] takes the EML of the duplicate [x] when it has none, the less final of
    the two states, and the contents when it has none. *)
Definition merge_row (c x : message) (d : Db) : Db :=
  let d := match relative_path c, file_hash c with
           | None, None => update_message_storage (m_id c) (relative_path x) (file_hash x) d
           | _, _ => d
           end in
  let state := merged_state (m_local_state c) (m_local_state x) in
  let d := if state == m_local_state c then d
           else update_message (m_id c) (fun m => with_state state (trashed_at m) m) d in
  if negb (has_message_contents (m_id c) d) && has_message_contents (m_id x) d
  then set_contents (update_where (fun r => (c_message_id r =? m_id x)%Z)
         (fun r => Contents (m_id c) (subject_norm r) (sender_norm r) (body_text r)
                     (attachment_names r))) d
  else d.

(** The alias rows: every key of the duplicate is inserted for the canonical message, and the
    duplicate's rows are deleted. *)
Definition merge_aliases (account : string) (canonical : Z) (x : message) (d : Db) : Db :=
  let dup_aliases := List.filter (fun a => (al_message_id a =? m_id x)%Z
                                           && (al_account_id a == account)) (aliases d) in
  let d := fold_left (fun d a => insert_alias (Alias account (observed_source_item_key a)
                                                 canonical (evidence_kind a)) d) dup_aliases d in
  let d := insert_alias (Alias account (source_item_key x) canonical "merged_duplicate") d in
  set_aliases (delete_where (fun a => (al_message_id a =? m_id x)%Z)) d.

(** [UPDATE pst_import_items SET message_row_id = ? WHERE message_row_id = ?] *)
Definition with_message_row (id : option Z) (i : pst_item) : pst_item :=
  PstItem (it_import_id i) (it_source_item_key i) (it_source_relative_path i) (it_folder_relative_path i)
    (it_source_size_bytes i) (it_source_sha256 i) (it_final_relative_path i) id (it_status i)
    (it_error_class i) (it_error_message i) (it_attempt_count i).
Definition move_items (canonical duplicate : Z) (d : Db) : Db :=
  set_items (update_where (fun i => it_message_row_id i == Some duplicate)
               (with_message_row (Some canonical))) d.

(** [merge_duplicate_message] *)
Definition merge_duplicate_message (account : string) (canonical duplicate : Z) (d : Db) : result Db :=
  if (canonical =? duplicate)%Z then Ok d else
  let find id := List.find (fun m => (m_id m =? id)%Z && (account_id m == account)) (messages d) in
  match find canonical, find duplicate with
  | Some c, Some x =>
      check (match file_hash c, file_hash x with Some h, Some h' => h == h' | _, _ => true end)
        DatabaseError "Cannot merge messages with different EML hashes" ;?
      let d := merge_aliases account canonical x (merge_row c x d) in
      let? d := merge_memberships canonical duplicate (memberships_of duplicate d) d in
      Ok (delete_message duplicate (move_items canonical duplicate d))
  | _, _ => db_error "Cannot merge a message that no longer exists"
  end.

(** ** Audit log, application state, failures *)

(** An audit entry before insertion; [message_id] is whatever the caller passes, stored as text. *)
Record audit_in := AuditIn {
  ai_occurred_at : option string;
  ai_operation : option string;
  ai_account_id : option string;
  ai_message_id : option string;
  ai_subject : option string;
  ai_size_bytes : option Z;
  ai_detail : option string;
}.

Definition record_audit (e : audit_in) (d : Db) : result Db :=
  match ai_operation e with
  | None => db_error "Audit operation is required"
  | Some op =>
      Ok (bump_audit (set_audit (fun l => l ++
            [Audit (next_audit_id d) (ai_occurred_at e) op (ai_account_id e) (ai_message_id e)
               (ai_subject e) (ai_size_bytes e) (ai_detail e)]) d))
  end.

(** [ORDER BY occurred_at DESC, id DESC]: NULL is the smallest. *)
Definition audit_leb (a b : audit) : bool :=
  match occurred_at a, occurred_at b with
  | None, None => (au_id b <=? au_id a)%Z
  | None, Some _ => false
  | Some _, None => true
  | Some x, Some y => String.ltb y x || (x == y) && (au_id b <=? au_id a)%Z
  end.
Definition audit_le (a b : audit) : Prop := audit_leb a b = true.
#[export] Instance audit_le_dec : RelDecision audit_le.
Proof. intros a b. unfold audit_le. apply _. Defined.

Definition list_audit_log (limit offset : Z) (d : Db) : result (list audit) :=
  check (negb ((limit <? 0) || (offset <? 0))%Z) ValueError "limit and offset must be non-negative" ;?
  Ok (take_Z limit (drop_Z offset (merge_sort audit_le (audit_log d)))).

Definition get_app_state (key : string) (d : Db) : option string := dict_get key (app_state d).
Definition set_app_state (key value : string) (d : Db) : Db := set_app (dict_set key value) d.

Definition same_failure (account : string) (folder_id uidv u : Z) (f : failure) : bool :=
  (sf_account_id f == account) && (sf_folder_id f =? folder_id)%Z && (sf_uidvalidity f =? uidv)%Z
  && (sf_uid f =? u)%Z.

Definition record_failure (account : string) (folder_id uidv u : Z) (cls msg : string) (d : Db) : Db :=
  if existsb (same_failure account folder_id uidv u) (sync_failures d)
  then set_failures (update_where (same_failure account folder_id uidv u) (fun f =>
         Failure (sf_id f) (sf_account_id f) (sf_folder_id f) (sf_uidvalidity f) (sf_uid f) cls msg
           (attempt_count f + 1)%Z)) d
  else bump_failure (set_failures (fun l => l ++
         [Failure (next_failure_id d) account folder_id uidv u cls msg 1]) d).

Definition failure_le (a b : failure) : Prop := (sf_uid a <= sf_uid b)%Z.
#[export] Instance failure_le_dec : RelDecision failure_le.
Proof. intros a b. unfold failure_le. apply _. Defined.

(** [attempt_count < 10 ORDER BY uid] *)
Definition pending_failures (account : string) (folder_id uidv : Z) (d : Db) : list failure :=
  merge_sort failure_le (List.filter (fun f =>
    (sf_account_id f == account) && (sf_folder_id f =? folder_id)%Z && (sf_uidvalidity f =? uidv)%Z
    && (attempt_count f <? 10)%Z) (sync_failures d)).

Definition clear_failure (account : string) (folder_id uidv u : Z) (d : Db) : Db :=
  set_failures (delete_where (same_failure account folder_id uidv u)) d.

(** [list_reparse_targets] *)
Definition list_reparse_targets (account : option string) (only_failed : bool) (d : Db) : list stored :=
  map (with_first d) (List.filter (fun m =>
    (if relative_path m is Some _ then true else false) && in_account account m
    && (negb only_failed
        || existsb (fun f =>
             (sf_account_id f == account_id m) && (error_class f == "parse"%string)
             && existsb (at_uid (sf_folder_id f) (sf_uidvalidity f) (sf_uid f))
                  (memberships_of (m_id m) d)) (sync_failures d))) (messages d)).

(** ** Facts *)

Lemma find_update_where {A} (p q : A -> bool) (f : A -> A) l :
  (forall x, p (f x) = p x) ->
  List.find p (update_where q f l) = option_map (fun x => if q x then f x else x) (List.find p l).
Proof.
  intros Hp. induction l as [|x l IH]; [done|]. cbn [update_where map List.find].
  fold (update_where q f l).
  assert (p (if q x then f x else x) = p x) as -> by (destruct (q x); auto).
  destruct (p x); [done | exact IH].
Qed.

Lemma message_with_id id d m : message_with id d = Some m -> m_id m = id /\ m ∈ messages d.
Proof.
  intros [Hin Hid]%List.find_some. split; [by apply Z.eqb_eq | by apply list_elem_of_In].
Qed.

Lemma message_with_update id id' f d : (forall m, m_id (f m) = m_id m) ->
  message_with id (update_message id' f d)
  = if (id =? id')%Z then option_map f (message_with id d) else message_with id d.
Proof.
  intros Hf. unfold message_with, update_message. cbn [messages set_messages].
  rewrite find_update_where by (intros m; by rewrite Hf).
  destruct (List.find _ (messages d)) as [m|] eqn:E; [|by destruct (id =? id')%Z].
  apply List.find_some in E as [_ E]. apply Z.eqb_eq in E. subst id. cbn [option_map].
  by destruct (m_id m =? id')%Z.
Qed.

(** ** Merging a duplicate message *)

Lemma find_no_match {A} (p : A -> bool) l : existsb p l = false -> List.find p l = None.
Proof.
  induction l as [|x l IH]; [done|]. simpl. intros [Hx Hl]%orb_false_iff. rewrite Hx. by apply IH.
Qed.

(** The alias table maps an observed key to one message only. *)
Definition alias_key (a : alias) : string * string := (al_account_id a, observed_source_item_key a).

Lemma same_alias_key account key a : same_alias account key a = true <-> alias_key a = (account, key).
Proof.
  unfold same_alias, alias_key. rewrite andb_true_iff, !eqb_true. split; [by intros [-> ->]|].
  by injection 1 as -> ->.
Qed.

(** The only rows with the key are rows of the message [id], and there is one. *)
Definition key_held_by (id : Z) (account key : string) (d : Db) : Prop :=
  existsb (same_alias account key) (aliases d) = true
  /\ forall a, a ∈ aliases d -> same_alias account key a = true -> al_message_id a = id.

Lemma key_held_by_insert id account key a d :
  key_held_by id account key d -> key_held_by id account key (insert_alias a d).
Proof.
  intros [He Ha]. unfold insert_alias. case_match eqn:E; [done|]. split; cbn [aliases set_aliases].
  - rewrite existsb_app, He. done.
  - intros b [Hb|Hb%list_elem_of_singleton]%elem_of_app Hk; [by apply Ha|]. subst b.
    apply same_alias_key in Hk. unfold alias_key in Hk. injection Hk as Hk1 Hk2.
    rewrite Hk1, Hk2, He in E. done.
Qed.

Lemma key_held_by_fold id account key (f : alias -> alias) l d :
  key_held_by id account key d -> key_held_by id account key (fold_left (fun d a => insert_alias (f a) d) l d).
Proof. revert d. induction l as [|a l IH]; intros d H; [done|]. by apply IH, key_held_by_insert. Qed.

Lemma key_held_by_delete id account key d : key_held_by id account key d ->
  existsb (same_alias account key) (delete_where (fun a => (al_message_id a =? id)%Z) (aliases d)) = false.
Proof.
  intros [_ Ha]. apply not_true_iff_false. intros (a & [Hin Hn]%filter_In & Hk)%existsb_exists.
  apply negb_true_iff, Z.eqb_neq in Hn. apply Hn, Ha; [by apply list_elem_of_In|done].
Qed.

(** The folders a message is in. *)
Definition in_folder (id fid : Z) (d : Db) : Prop :=
  exists mf, mf ∈ memberships d /\ mf_message_id mf = id /\ mf_folder_id mf = fid.

Lemma elem_of_update_where {A} (p : A -> bool) f (l : list A) x :
  x ∈ update_where p f l <-> exists y, y ∈ l /\ x = if p y then f y else y.
Proof.
  unfold update_where. rewrite list_elem_of_In, in_map_iff. setoid_rewrite list_elem_of_In.
  split; intros (y & H1 & H2); exists y; auto.
Qed.

Lemma elem_of_delete_where {A} (p : A -> bool) (l : list A) x :
  x ∈ delete_where p l <-> x ∈ l /\ p x = false.
Proof. unfold delete_where. by rewrite !list_elem_of_In, filter_In, negb_true_iff. Qed.

Lemma of_pair_true id fid mf : of_pair id fid mf = true <-> mf_message_id mf = id /\ mf_folder_id mf = fid.
Proof. unfold of_pair. by rewrite andb_true_iff, !Z.eqb_eq. Qed.
Lemma of_pair_false id fid mf : mf_message_id mf <> id \/ mf_folder_id mf <> fid -> of_pair id fid mf = false.
Proof. intros H. apply not_true_iff_false. intros [? ?]%of_pair_true. by destruct H. Qed.

(** One step puts the canonical message in the folder and leaves the others to be merged. *)
Record merged_one (canonical duplicate fid : Z) (d d' : Db) : Prop := {
  merged_messages : messages d' = messages d;
  merged_aliases : aliases d' = aliases d;
  merged_canonical : forall x, in_folder canonical x d' <-> in_folder canonical x d \/ x = fid;
  merged_duplicate : forall x, x <> fid -> in_folder duplicate x d -> in_folder duplicate x d';
}.

Lemma merge_membership_dropped canonical duplicate fid o d :
  canonical <> duplicate -> o ∈ memberships d -> of_pair canonical fid o = true ->
  merged_one canonical duplicate fid d (set_memberships (delete_where (of_pair duplicate fid)) d).
Proof.
  intros Hne Ho [Ho1 Ho2]%of_pair_true.
  assert (forall x, x ∈ memberships d -> mf_message_id x <> duplicate \/ mf_folder_id x <> fid ->
    x ∈ delete_where (of_pair duplicate fid) (memberships d)) as Hkeep
    by (intros x Hx Hk; apply elem_of_delete_where; split; [done|by apply of_pair_false]).
  split; [done|done| |].
  - intros x. split.
    + intros (y & [Hy _]%elem_of_delete_where & E). left. by exists y.
    + intros [(y & Hy & Ey & Ex)| ->]; [exists y|exists o]; (split; [apply Hkeep|]); auto; left; congruence.
  - intros x Hx (y & Hy & Ey & Ex). exists y. split; [apply Hkeep|]; auto. right. congruence.
Qed.

Lemma merge_membership_moved canonical duplicate fid d :
  canonical <> duplicate -> in_folder duplicate fid d ->
  merged_one canonical duplicate fid d
    (set_memberships (update_where (of_pair duplicate fid) (with_message_id canonical)) d).
Proof.
  intros Hne (o & Ho & Ho1 & Ho2).
  assert (forall x, x ∈ memberships d -> mf_message_id x <> duplicate \/ mf_folder_id x <> fid ->
    x ∈ update_where (of_pair duplicate fid) (with_message_id canonical) (memberships d)) as Hkeep.
  { intros x Hx Hk. apply elem_of_update_where. exists x. split; [done|]. by rewrite of_pair_false. }
  split; [done|done| |].
  - intros x. split.
    + intros (y & (z & Hz & ->)%elem_of_update_where & Ey & Ex).
      destruct (of_pair duplicate fid z) eqn:E; [|left; by exists z].
      apply of_pair_true in E as [_ E]. right. simpl in Ex. congruence.
    + intros [(y & Hy & Ey & Ex)| ->].
      * exists y. split; [apply Hkeep|]; auto. left. congruence.
      * exists (with_message_id canonical o). split; [|done]. apply elem_of_update_where. exists o.
        split; [done|]. by rewrite (proj2 (of_pair_true _ _ _) (conj Ho1 Ho2)).
  - intros x Hx (y & Hy & Ey & Ex). exists y. split; [apply Hkeep|]; auto. right. congruence.
Qed.

Lemma merge_membership_spec canonical duplicate mf d d' :
  canonical <> duplicate ->
  in_folder canonical (mf_folder_id mf) d \/ in_folder duplicate (mf_folder_id mf) d ->
  merge_membership canonical duplicate mf d = Ok d' ->
  merged_one canonical duplicate (mf_folder_id mf) d d'.
Proof.
  intros Hne Hin H. unfold merge_membership in H.
  destruct (List.find _ (memberships d)) as [o|] eqn:Ef.
  - apply List.find_some in Ef as [Ho%list_elem_of_In Hk].
    apply rbind_ok in H as (? & _ & <-%Ok_inj). by apply (merge_membership_dropped _ _ _ o).
  - apply Ok_inj in H as <-. apply merge_membership_moved; [done|].
    destruct Hin as [(x & Hx%list_elem_of_In & Ex%of_pair_true)|?]; [|done].
    by rewrite (List.find_none _ _ Ef x Hx) in Ex.
Qed.

Lemma merge_memberships_spec canonical duplicate l : canonical <> duplicate -> forall d d',
  (forall mf, mf ∈ l -> in_folder canonical (mf_folder_id mf) d \/ in_folder duplicate (mf_folder_id mf) d) ->
  merge_memberships canonical duplicate l d = Ok d' ->
  messages d' = messages d /\ aliases d' = aliases d
  /\ forall fid, in_folder canonical fid d' <-> in_folder canonical fid d \/ fid ∈ map mf_folder_id l.
Proof.
  intros Hne. induction l as [|mf l IH]; intros d d' Hl H; cbn [merge_memberships] in H.
  { apply Ok_inj in H as <-. split; [done|]. split; [done|]. intros fid. set_solver. }
  apply rbind_ok in H as (d1 & H1 & H).
  apply merge_membership_spec in H1 as [Em Ea Hc Hd]; [|done|by apply Hl; left].
  apply IH in H as (Em' & Ea' & Hc').
  - rewrite Em', Ea'. split; [done|]. split; [done|]. intros fid. rewrite Hc', Hc. set_solver.
  - intros x Hx. rewrite Hc. destruct (Z.eq_dec (mf_folder_id x) (mf_folder_id mf)) as [E|E]; [auto|].
    destruct (Hl x) as [Hx1|Hx1]; [by right|auto|]. right. by apply Hd.
Qed.

Lemma merge_row_frame c x d :
  memberships (merge_row c x d) = memberships d /\ aliases (merge_row c x d) = aliases d.
Proof. unfold merge_row. split; repeat case_match; done. Qed.

Lemma merge_aliases_frame account canonical x d :
  memberships (merge_aliases account canonical x d) = memberships d
  /\ messages (merge_aliases account canonical x d) = messages d.
Proof.
  assert (forall a d, memberships (insert_alias a d) = memberships d
    /\ messages (insert_alias a d) = messages d) as Hi
    by (intros a d0; unfold insert_alias; by case_match).
  unfold merge_aliases. cbn [memberships messages set_aliases].
  rewrite (proj1 (Hi _ _)), (proj2 (Hi _ _)).
  generalize (List.filter (fun a => (al_message_id a =? m_id x)%Z && (al_account_id a == account)) (aliases d)).
  intros l. revert d. induction l as [|a l IH]; intros d; [done|]. simpl.
  destruct (IH (insert_alias (Alias account (observed_source_item_key a) canonical (evidence_kind a)) d))
    as [-> ->]. apply Hi.
Qed.

(** The merge, taken apart. *)
Lemma merge_duplicate_inv account canonical duplicate d d' :
  canonical <> duplicate -> merge_duplicate_message account canonical duplicate d = Ok d' ->
  exists c x d1,
    List.find (fun m => (m_id m =? canonical)%Z && (account_id m == account)) (messages d) = Some c
    /\ List.find (fun m => (m_id m =? duplicate)%Z && (account_id m == account)) (messages d) = Some x
    /\ m_id c = canonical /\ m_id x = duplicate
    /\ merge_memberships canonical duplicate (memberships_of duplicate d)
         (merge_aliases account canonical x (merge_row c x d)) = Ok d1
    /\ d' = delete_message duplicate (move_items canonical duplicate d1).
Proof.
  intros Hne H. unfold merge_duplicate_message in H.
  destruct (Z.eqb_spec canonical duplicate); [done|].
  destruct (List.find _ (messages d)) as [c|] eqn:Ec; [|done].
  destruct (List.find (fun m => (m_id m =? duplicate)%Z && _) (messages d)) as [x|] eqn:Ex; [|done].
  apply rbind_ok in H as (? & _ & H). apply rbind_ok in H as (d1 & H & <-%Ok_inj).
  exists c, x, d1. split; [done|]. split; [done|].
  apply List.find_some in Ec as [_ Ec], Ex as [_ Ex]. bsimp.
  unfold memberships_of in H. rewrite (proj1 (merge_aliases_frame _ _ _ _)),
    (proj1 (merge_row_frame _ _ _)) in H. split_and!; try done; by apply Z.eqb_eq.
Qed.

Lemma in_memberships_of id d mf : mf ∈ memberships_of id d <-> mf ∈ memberships d /\ mf_message_id mf = id.
Proof. unfold memberships_of. by rewrite !list_elem_of_In, filter_In, Z.eqb_eq. Qed.

Lemma merged_row_state c x d : message_with (m_id c) d = Some c ->
  option_map m_local_state (message_with (m_id c) (merge_row c x d))
  = Some (merged_state (m_local_state c) (m_local_state x)).
Proof.
  intros Hc. unfold merge_row.
  set (d0 := match relative_path c, file_hash c with None, None => _ | _, _ => d end).
  assert (option_map m_local_state (message_with (m_id c) d0) = Some (m_local_state c)) as H0.
  { subst d0. repeat case_match; [by rewrite Hc..|]. unfold update_message_storage.
    rewrite message_with_update by done. by rewrite Z.eqb_refl, Hc. }
  set (d1 := if merged_state _ _ == m_local_state c then d0 else _).
  assert (option_map m_local_state (message_with (m_id c) d1)
    = Some (merged_state (m_local_state c) (m_local_state x))) as H1.
  { subst d1. destruct (merged_state _ _ == m_local_state c) eqn:E.
    - apply eqb_true_1 in E. by rewrite E.
    - rewrite message_with_update by done. rewrite Z.eqb_refl.
      by destruct (message_with (m_id c) d0). }
  by case_match.
Qed.

Lemma message_with_found account id d m : NoDup (map m_id (messages d)) ->
  List.find (fun m => (m_id m =? id)%Z && (account_id m == account)) (messages d) = Some m ->
  message_with id d = Some m.
Proof.
  unfold message_with. intros Hd Hf. induction (messages d) as [|y l IH]; [done|]. simpl in *.
  apply NoDup_cons in Hd as [Hn Hd]. destruct (Z.eqb_spec (m_id y) id) as [E|E]; [|by apply IH].
  simpl in Hf. destruct (account_id y == account); [done|]. exfalso.
  apply List.find_some in Hf as [Hin Hm]. apply Hn. rewrite E. bsimp. apply list_elem_of_fmap.
  exists m. split; [congruence|by apply list_elem_of_In].
Qed.

Lemma message_with_deleted id id' d :
  message_with id (delete_message id' d) = if (id =? id')%Z then None else message_with id d.
Proof.
  unfold message_with, delete_message, delete_where.
  cbn [messages set_messages set_aliases set_contents set_memberships].
  induction (messages d) as [|m l IH]; cbn [List.find List.filter]; [by destruct (id =? id')%Z|].
  destruct (Z.eqb_spec (m_id m) id') as [E|E]; cbn [negb List.find].
  - rewrite IH. destruct (Z.eqb_spec id id') as [F|F]; [done|].
    destruct (Z.eqb_spec (m_id m) id); [congruence|done].
  - rewrite IH. destruct (Z.eqb_spec (m_id m) id); [|done].
    destruct (Z.eqb_spec id id'); [congruence|done].
Qed.

(** Folding a duplicate into its canonical message loses no folder: afterwards the
    canonical message is in exactly the folders either was in, its local state is the least
    final of the two (active before trashed before purged), and the duplicate's row is gone. *)
Lemma merge_keeps_folders account canonical duplicate d d' c x :
  canonical <> duplicate -> NoDup (map m_id (messages d)) ->
  message_with canonical d = Some c -> message_with duplicate d = Some x ->
  merge_duplicate_message account canonical duplicate d = Ok d' ->
  (forall fid, in_folder canonical fid d' <-> in_folder canonical fid d \/ in_folder duplicate fid d)
  /\ option_map m_local_state (message_with canonical d')
     = Some (merged_state (m_local_state c) (m_local_state x))
  /\ message_with duplicate d' = None.
Proof.
  intros Hne Hnd Hc Hx H.
  apply merge_duplicate_inv in H as (c' & x' & d1 & Fc & Fx & Ec & Ex & H & ->); [|done].
  rewrite (message_with_found _ _ _ _ Hnd Fc) in Hc. rewrite (message_with_found _ _ _ _ Hnd Fx) in Hx.
  injection Hc as ->. injection Hx as ->.
  pose proof (merge_aliases_frame account canonical x (merge_row c x d)) as [Fm Fr].
  assert (forall id fid, in_folder id fid (merge_aliases account canonical x (merge_row c x d))
    <-> in_folder id fid d) as Hin
    by (intros id fid; unfold in_folder; by rewrite Fm, (proj1 (merge_row_frame c x d))).
  apply merge_memberships_spec in H as (Em & _ & Hf); [|done|].
  2:{ intros mf [Hm1 Hm2]%in_memberships_of. right. apply Hin. by exists mf. }
  split; [|split].
  - intros fid. transitivity (in_folder canonical fid d1).
    { unfold in_folder, delete_message. cbn. setoid_rewrite elem_of_delete_where.
      split; [naive_solver|]. intros (mf & Hm & E1 & E2). exists mf.
      split; [|done]. split; [done|]. apply Z.eqb_neq. congruence. }
    rewrite Hf, Hin. f_equiv. split.
    + intros (mf & -> & [? ?]%in_memberships_of)%list_elem_of_fmap. by exists mf.
    + intros (mf & Hm & E & <-). apply list_elem_of_fmap. exists mf. by rewrite in_memberships_of.
  - rewrite message_with_deleted. destruct (Z.eqb_spec canonical duplicate); [done|].
    change (message_with canonical (move_items canonical duplicate d1)) with (message_with canonical d1).
    unfold message_with. rewrite Em, Fr. subst canonical. apply merged_row_state.
    by apply (message_with_found account).
  - rewrite message_with_deleted. by rewrite Z.eqb_refl.
Qed.

(** The identity aliases of a merged duplicate are lost: a key that the alias table maps to
    the duplicate cannot be inserted again for the canonical message, the table being unique in
    it, and is then deleted with the duplicate's rows; a later sight of the key finds no
    message. *)
Lemma merge_loses_aliases account canonical duplicate d d' key :
  canonical <> duplicate -> key_held_by duplicate account key d ->
  merge_duplicate_message account canonical duplicate d = Ok d' ->
  List.find (same_alias account key) (aliases d') = None.
Proof.
  intros Hne Hk H. apply merge_duplicate_inv in H as (c & x & d1 & _ & _ & Ec & Ex & H & ->); [|done].
  apply merge_memberships_spec in H as (_ & Ea & _); [|done|].
  2:{ intros mf [Hm1 Hm2]%in_memberships_of. right. exists mf.
      by rewrite (proj1 (merge_aliases_frame _ _ _ _)), (proj1 (merge_row_frame _ _ _)). }
  apply find_no_match. unfold delete_message. cbn. rewrite Ea.
  assert (key_held_by duplicate account key (merge_row c x d)) as Hk1
    by (unfold key_held_by; by rewrite (proj2 (merge_row_frame c x d))).
  unfold merge_aliases. cbn [aliases set_aliases]. rewrite Ex.
  assert (forall l, existsb (same_alias account key) l = false ->
    existsb (same_alias account key) (delete_where (fun a => (al_message_id a =? duplicate)%Z) l) = false)
    as Hdel.
  { intros l Hl. apply not_true_iff_false. intros (a & [Ha _]%filter_In & Hs)%existsb_exists.
    apply not_true_iff_false in Hl. apply Hl, existsb_exists. by exists a. }
  apply Hdel, key_held_by_delete, key_held_by_insert, key_held_by_fold, Hk1.
Qed.

(** Two messages with the same EML, the duplicate active and known under another key. *)
Definition twin (id : Z) (key : string) (state : local_state) : message :=
  Message id "a" None key key state None (Some "a/m.eml") (Some "h") None None None None None None None
    false None None None None None None.
Definition twins : Db :=
  MkDb [] [] [twin 1 "k1" Trashed; twin 2 "k2" Active]
    [Membership 1 1 None None "present" None None None None;
     Membership 2 2 (Some 7%Z) (Some 1%Z) "present" None None None None]
    [] [] [Alias "a" "k3" 2 "copyuid"] [] [] 3 3 1 1 [] [] 1.
Definition merged_twins : Db :=
  match merge_duplicate_message "a" 1 2 twins with Ok d => d | Err _ => twins end.

