(* ===== verification/DatabaseWf.v ===== *)
(** * DatabaseWf: the constraints the tables keep

    The keys, unique indexes and foreign keys of the finalized schema ([migrations/*.sql],
    [message_folder_migration.py]) as an invariant of [Db], and that every writing operation of the
    repository keeps it. *)

From S2P Require Import Prelude Errors Database.

(** The unique key of a membership, when it has a UID. *)
Definition uid_key (mf : membership) : option (Z * Z * Z) :=
  match uidvalidity mf, uid mf with
  | Some v, Some u => Some (mf_folder_id mf, v, u)
  | _, _ => None
  end.
Definition pair_key (mf : membership) : Z * Z := (mf_message_id mf, mf_folder_id mf).
Definition row_key (m : message) : string * string := (account_id m, source_item_key m).

Record wf (d : Db) : Prop := {
  wf_ids : NoDup (map m_id (messages d));
  wf_next : Forall (fun m => m_id m < next_message_id d)%Z (messages d);
  wf_keys : NoDup (map row_key (messages d));
  wf_members : Forall (fun mf => mf_message_id mf ∈ map m_id (messages d)) (memberships d);
  wf_in_folder : Forall (fun mf => mf_folder_id mf ∈ map f_id (folders d)) (memberships d);
  wf_pairs : NoDup (map pair_key (memberships d));
  wf_uids : NoDup (omap uid_key (memberships d));
  wf_folders : NoDup (map f_id (folders d));
  wf_next_folder : Forall (fun f => f_id f < next_folder_id d)%Z (folders d);
}.

(** ** Lists *)

Lemma map_update_where {A B} (g : A -> B) (p : A -> bool) (f : A -> A) l :
  (forall x, g (f x) = g x) -> map g (update_where p f l) = map g l.
Proof. intros H. unfold update_where. rewrite map_map. apply map_ext. intros x. by case_match. Qed.
Lemma map_update_where' {A B} (g : A -> B) (p : A -> bool) (f : A -> A) l :
  (forall x, x ∈ l -> p x = true -> g (f x) = g x) -> map g (update_where p f l) = map g l.
Proof.
  intros H. unfold update_where. rewrite map_map. apply map_ext_in. intros x Hx%list_elem_of_In.
  case_match; [by apply H|done].
Qed.
Lemma omap_update_where {A B} (g : A -> option B) (p : A -> bool) (f : A -> A) l :
  (forall x, g (f x) = g x) -> omap g (update_where p f l) = omap g l.
Proof.
  intros H. induction l as [|x l IH]; [done|]. cbn. unfold update_where in IH. rewrite IH.
  destruct (p x); [by rewrite H|done].
Qed.
Lemma Forall_update_where {A} (P : A -> Prop) (p : A -> bool) (f : A -> A) l :
  (forall x, P x -> P (f x)) -> Forall P l -> Forall P (update_where p f l).
Proof.
  intros H. unfold update_where. rewrite !Forall_forall. intros Hl x (y & E & Hy)%list_elem_of_fmap.
  subst. case_match; auto.
Qed.
Lemma sublist_filter {A} (p : A -> bool) (l : list A) : List.filter p l `sublist_of` l.
Proof. induction l as [|x l IH]; [done|]. cbn. case_match; by constructor. Qed.
Lemma Forall_delete_where {A} (P : A -> Prop) p (l : list A) : Forall P l -> Forall P (delete_where p l).
Proof. rewrite !Forall_forall. intros H x [Hx _]%elem_of_delete_where. by apply H. Qed.
Lemma NoDup_map_delete {A B} (g : A -> B) p (l : list A) : NoDup (map g l) -> NoDup (map g (delete_where p l)).
Proof. intros H. eapply sublist_NoDup; [exact H|apply fmap_sublist, sublist_filter]. Qed.
Lemma sublist_omap {A B} (g : A -> option B) (l1 l2 : list A) :
  l1 `sublist_of` l2 -> omap g l1 `sublist_of` omap g l2.
Proof. induction 1 as [|x l1 l2 H IH|x l1 l2 H IH]; cbn; [done| |]; destruct (g x); by try constructor. Qed.
Lemma NoDup_omap_delete {A B} (g : A -> option B) p (l : list A) :
  NoDup (omap g l) -> NoDup (omap g (delete_where p l)).
Proof. intros H. eapply sublist_NoDup; [exact H|apply sublist_omap, sublist_filter]. Qed.
Lemma NoDup_snoc {A} (l : list A) x : NoDup l -> x ∉ l -> NoDup (l ++ [x]).
Proof.
  intros Hl Hx. apply NoDup_app. split; [done|]. split; [|apply NoDup_singleton].
  intros y Hy ->%list_elem_of_singleton. done.
Qed.

(** ** Operations that only touch other columns *)

(** What the constraints look at. *)
Definition same_keys (d d' : Db) : Prop :=
  map m_id (messages d') = map m_id (messages d)
  /\ map row_key (messages d') = map row_key (messages d)
  /\ map pair_key (memberships d') = map pair_key (memberships d)
  /\ omap uid_key (memberships d') = omap uid_key (memberships d)
  /\ map f_id (folders d') = map f_id (folders d)
  /\ next_message_id d' = next_message_id d /\ next_folder_id d' = next_folder_id d.

Lemma Forall_map_iff {A B} (g : A -> B) (P : B -> Prop) l : Forall (fun x => P (g x)) l <-> Forall P (map g l).
Proof. symmetry. apply Forall_fmap. Qed.

Lemma wf_same_keys d d' : same_keys d d' -> wf d -> wf d'.
Proof.
  intros (E1 & E2 & E3 & E4 & E5 & E6 & E7) [H1 H2 H3 H4 H5 H6 H7 H8 H9]. split.
  - by rewrite E1.
  - apply (Forall_map_iff m_id (fun n => n < next_message_id d')%Z). rewrite E1, E6. by apply Forall_map_iff.
  - by rewrite E2.
  - apply (Forall_map_iff pair_key (fun k => k.1 ∈ map m_id (messages d'))). rewrite E1, E3.
    by apply (Forall_map_iff pair_key (fun k => k.1 ∈ map m_id (messages d))).
  - apply (Forall_map_iff pair_key (fun k => k.2 ∈ map f_id (folders d'))). rewrite E5, E3.
    by apply (Forall_map_iff pair_key (fun k => k.2 ∈ map f_id (folders d))).
  - by rewrite E3.
  - by rewrite E4.
  - by rewrite E5.
  - apply (Forall_map_iff f_id (fun n => n < next_folder_id d')%Z). rewrite E5, E7. by apply Forall_map_iff.
Qed.

(** Updates of messages, memberships and folders that keep the keys. *)
Ltac same_rows := unfold initialize_sync_cursors, update_sync_cursors, set_highest_modseq, update_flags,
    touch_flags_seen_at, update_remote_state, set_app_state, clear_failure;
  repeat split; cbn [messages memberships folders next_message_id next_folder_id
    set_messages set_memberships set_folders set_accounts set_contents set_failures set_aliases
    set_audit set_app bump_folder bump_message bump_failure bump_audit];
  repeat first [reflexivity | rewrite map_update_where by (intros; reflexivity)
               | rewrite omap_update_where by (intros; reflexivity)].

Lemma same_keys_update id f d : (forall m, m_id (f m) = m_id m /\ row_key (f m) = row_key m) ->
  same_keys d (update_message id f d).
Proof.
  intros H. unfold update_message. repeat split; cbn [messages set_messages];
    rewrite ?map_update_where by (intros; apply H); reflexivity.
Qed.
Lemma same_keys_insert_alias a d : same_keys d (insert_alias a d).
Proof. unfold insert_alias. case_match; same_rows. Qed.
#[export] Instance same_keys_preorder : PreOrder same_keys.
Proof.
  split; [by repeat split|]. intros d1 d2 d3 H1 H2. unfold same_keys in *. intuition congruence.
Qed.

(** ** Replacing one row *)

Lemma update_where_none {A} (p : A -> bool) f (l : list A) :
  Forall (fun x => p x = false) l -> update_where p f l = l.
Proof. induction 1 as [|x l H Hl IH]; [done|]. cbn. unfold update_where in IH. by rewrite H, IH. Qed.

(** The row with key [k] is replaced; no other row has the unique key of the new one. *)
Lemma NoDup_omap_replace {A K B} (key : A -> K) (g : A -> option B) (p : A -> bool) (y : A) k l :
  (forall x, p x = true <-> key x = k) -> NoDup (map key l) -> NoDup (omap g l) ->
  (forall x b, x ∈ l -> p x = false -> g x = Some b -> g y <> Some b) ->
  NoDup (omap g (update_where p (fun _ => y) l)).
Proof.
  intros Hp. induction l as [|x l IH]; intros Hk Hg Hy; [done|].
  apply NoDup_cons in Hk as [Hx Hk]. cbn. destruct (p x) eqn:Ep.
  - fold (update_where p (fun _ => y) l).
    assert (Forall (fun x => p x = false) l) as Hl.
    { apply Forall_forall. intros z Hz. apply not_true_iff_false. intros Ez. apply Hx.
      rewrite (proj1 (Hp x) Ep), <- (proj1 (Hp z) Ez). apply list_elem_of_fmap. by exists z. }
    rewrite update_where_none by done.
    assert (NoDup (omap g l)) as Hl' by (cbn in Hg; destruct (g x); [by apply NoDup_cons in Hg as []|done]).
    destruct (g y) as [b|] eqn:Eg; [|done]. apply NoDup_cons. split; [|done].
    intros (z & Hz & Ez)%list_elem_of_omap. rewrite Forall_forall in Hl.
    apply (Hy z b); [by right|by apply Hl|done|done].
  - fold (update_where p (fun _ => y) l). cbn in Hg.
    assert (forall z b, z ∈ l -> p z = false -> g z = Some b -> g y <> Some b) as Hy'
      by (intros z b Hz; apply Hy; by right).
    destruct (g x) as [b|] eqn:Eg; [|by apply IH]. apply NoDup_cons in Hg as [Hb Hg].
    apply NoDup_cons. split; [|by apply IH].
    intros (z & Hz & Ez)%list_elem_of_omap. apply elem_of_update_where in Hz as (z0 & Hz0 & ->).
    destruct (p z0); [by apply (Hy x b); [left|done|done|rewrite Ez]|].
    apply Hb, list_elem_of_omap. by exists z0.
Qed.
Lemma NoDup_map_rekey {A K} (key : A -> K) (p : A -> bool) (f : A -> A) k k' l :
  (forall x, p x = true <-> key x = k) -> (forall x, p x = true -> key (f x) = k') ->
  NoDup (map key l) -> k' ∉ map key l -> NoDup (map key (update_where p f l)).
Proof.
  intros Hp Hf. induction l as [|x l IH]; intros Hk Hk'; [done|].
  apply NoDup_cons in Hk as [Hx Hk]. rewrite map_cons, elem_of_cons in Hk'. cbn.
  fold (update_where p f l). apply NoDup_cons. split; [|apply IH; tauto].
  intros (z & Ez & Hz)%list_elem_of_fmap. apply elem_of_update_where in Hz as (z0 & Hz0 & ->).
  assert (key z0 ∈ map key l) as Hin by (apply list_elem_of_fmap; by exists z0).
  destruct (p x) eqn:Ex, (p z0) eqn:E0.
  - apply Hx. by rewrite (proj1 (Hp x) Ex), <- (proj1 (Hp z0) E0).
  - rewrite Hf in Ez by done. apply Hk'. right. by rewrite Ez.
  - rewrite Hf in Ez by done. apply Hk'. left. by rewrite <- Ez.
  - apply Hx. by rewrite Ez.
Qed.

Lemma same_pair_key mf o : same_pair mf o = true <-> pair_key o = pair_key mf.
Proof. unfold same_pair, pair_key. rewrite andb_true_iff, !Z.eqb_eq. split; [by intros [-> ->]|by intros [= -> ->]]. Qed.
Lemma uid_clash_key mf o b : uid_key mf = Some b -> uid_clash mf o = false -> uid_key o <> Some b.
Proof.
  unfold uid_key, uid_clash. destruct (uidvalidity mf) as [v|]; [|done]. destruct (uid mf) as [u|]; [|done].
  intros [= <-] H. destruct (uidvalidity o) as [v'|] eqn:Ev; [|done]. destruct (uid o) as [u'|] eqn:Eu; [|done].
  intros [= E1 E2 E3]. subst. rewrite E1, Z.eqb_refl, !Prelude.eqb_refl in H. done.
Qed.

(** ** Memberships *)

Lemma membership_refs_folder mf d : membership_refs mf d = true -> mf_folder_id mf ∈ map f_id (folders d).
Proof.
  unfold membership_refs, folder_with. destruct (List.find _ (folders d)) as [f|] eqn:E; [|done]. intros _.
  apply List.find_some in E as [Hin E]. apply list_elem_of_fmap. exists f. split; [by apply Z.eqb_eq in E|].
  by apply list_elem_of_In.
Qed.

Lemma wf_set_memberships g d : wf d ->
  Forall (fun mf => mf_message_id mf ∈ map m_id (messages d)) (g (memberships d)) ->
  Forall (fun mf => mf_folder_id mf ∈ map f_id (folders d)) (g (memberships d)) ->
  NoDup (map pair_key (g (memberships d))) -> NoDup (omap uid_key (g (memberships d))) ->
  wf (set_memberships g d).
Proof. intros [] ? ? ? ?. by split. Qed.

Lemma wf_delete_memberships p d : wf d -> wf (set_memberships (delete_where p) d).
Proof.
  intros H. apply wf_set_memberships; [done|by apply Forall_delete_where, wf_members
    |by apply Forall_delete_where, wf_in_folder|by apply NoDup_map_delete, wf_pairs
    |by apply NoDup_omap_delete, wf_uids].
Qed.

Lemma wf_append_membership mf d : wf d -> mf_message_id mf ∈ map m_id (messages d) ->
  mf_folder_id mf ∈ map f_id (folders d) ->
  existsb (fun o => same_pair mf o || uid_clash mf o) (memberships d) = false ->
  wf (set_memberships (fun t => t ++ [mf]) d).
Proof.
  intros H Hm Hf Hn.
  assert (forall o, o ∈ memberships d -> same_pair mf o = false /\ uid_clash mf o = false) as Ho.
  { intros o Hin%list_elem_of_In. apply orb_false_iff. apply not_true_iff_false. intros E.
    apply not_true_iff_false in Hn. apply Hn, existsb_exists. by exists o. }
  apply wf_set_memberships; [done| | | |].
  - apply Forall_app. split; [by apply wf_members|by constructor].
  - apply Forall_app. split; [by apply wf_in_folder|by constructor].
  - rewrite map_app. apply NoDup_snoc; [by apply wf_pairs|]. intros (o & E & Hin)%list_elem_of_fmap.
    destruct (Ho o Hin) as [E1 _]. apply not_true_iff_false in E1. by apply E1, same_pair_key.
  - rewrite omap_app. cbn. destruct (uid_key mf) as [b|] eqn:Eb; [|rewrite app_nil_r; by apply wf_uids].
    apply NoDup_snoc; [by apply wf_uids|]. intros (o & Hin & E)%list_elem_of_omap.
    destruct (Ho o Hin) as [_ E2]. exact (uid_clash_key mf o b Eb E2 E).
Qed.

Lemma wf_upsert_membership mf d d' : wf d -> mf_message_id mf ∈ map m_id (messages d) ->
  upsert_membership mf d = Ok d' -> wf d'.
Proof.
  intros H Hm. unfold upsert_membership. intros ([] & [Hr Hn]%check_ok%andb_true_iff & <-%Ok_inj)%rbind_ok.
  apply negb_true_iff in Hn. pose proof (membership_refs_folder _ _ Hr) as Hf.
  assert (forall o, o ∈ memberships d -> same_pair mf o = false -> uid_clash mf o = false) as Ho.
  { intros o Hin%list_elem_of_In Es. apply not_true_iff_false. intros E.
    apply not_true_iff_false in Hn. apply Hn, existsb_exists. exists o. by rewrite Es, E. }
  destruct (existsb (same_pair mf) (memberships d)) eqn:Ex.
  - apply wf_set_memberships; [done| | | |].
    + apply Forall_update_where; [done|by apply wf_members].
    + apply Forall_update_where; [done|by apply wf_in_folder].
    + rewrite map_update_where'; [by apply wf_pairs|]. intros o _ E. symmetry. by apply same_pair_key.
    + eapply NoDup_omap_replace; [apply same_pair_key|by apply wf_pairs|by apply wf_uids|].
      intros o b Hin Ep Eo Em. by eapply uid_clash_key; [exact Em|apply (Ho o)|].
  - apply wf_append_membership; [done..|]. apply not_true_iff_false.
    intros (o & Hin & E)%existsb_exists. apply orb_true_iff in E as [E|E].
    + apply not_true_iff_false in Ex. apply Ex, existsb_exists. by exists o.
    + destruct (same_pair mf o) eqn:Es; [apply not_true_iff_false in Ex; apply Ex, existsb_exists; by exists o|].
      rewrite Ho in E; [done|by apply list_elem_of_In|done].
Qed.

Lemma wf_insert_memberships l : forall d d', wf d ->
  Forall (fun mf => mf_message_id mf ∈ map m_id (messages d)) l -> insert_memberships l d = Ok d' -> wf d'.
Proof.
  induction l as [|mf l IH]; intros d d' H Hl E; cbn [insert_memberships] in E; [by apply Ok_inj in E as <-|].
  apply Forall_cons in Hl as [Hmf Hl]. apply rbind_ok in E as ([] & [Hr Hn]%check_ok%andb_true_iff & E).
  apply negb_true_iff in Hn. refine (IH _ _ _ _ E); [|exact Hl].
  apply wf_append_membership; [done|done|by apply membership_refs_folder|done].
Qed.
Lemma wf_replace_memberships id l d d' : wf d -> replace_message_memberships id l d = Ok d' -> wf d'.
Proof.
  intros H. unfold replace_message_memberships. intros ([] & Hc%check_ok & E)%rbind_ok.
  refine (wf_insert_memberships _ _ _ _ _ E); [by apply wf_delete_memberships|].
  cbn [messages set_memberships]. apply Forall_forall. intros mf (o & -> & Ho)%list_elem_of_fmap.
  cbn [mf_message_id with_message_id]. apply orb_true_iff in Hc as [Hc|Hc].
  - destruct (message_with id d) as [m|] eqn:Em; [|done]. apply message_with_id in Em as [<- Hin].
    apply list_elem_of_fmap. by exists m.
  - apply bool_decide_eq_true in Hc as ->. by apply elem_of_nil in Ho.
Qed.

(** ** Messages *)

Lemma wf_upsert_message r d id d' : wf d -> upsert_message r d = Ok (id, d') ->
  wf d' /\ id ∈ map m_id (messages d').
Proof.
  intros H. unfold upsert_message. cbv zeta. set (acc := account_id (mr_row r)).
  set (key := source_item_key (mr_row r)). intros ([] & _ & E)%rbind_ok.
  destruct (List.find (same_key acc key) (messages d)) as [old|] eqn:Ef; injection E as <- <-.
  - apply List.find_some in Ef as [Hin _]. apply list_elem_of_In in Hin.
    assert (same_keys d (set_messages (update_where (same_key acc key)
      (set_columns (mr_columns r) (mr_row r))) d)) as Hs.
    { repeat split; cbn [messages set_messages].
      - by rewrite map_update_where.
      - rewrite map_update_where'; [done|]. intros m _ Hm. unfold same_key in Hm. bsimp.
        unfold row_key, set_columns. cbn. f_equal. by case_match. }
    split; [by eapply wf_same_keys|]. destruct Hs as [-> _]. apply list_elem_of_fmap. by exists old.
  - assert (forall m, m ∈ messages d -> row_key m <> (acc, key)) as Hk.
    { intros m Hm%list_elem_of_In E. apply (List.find_none _ _ Ef) in Hm. unfold row_key in E.
      injection E as E1 E2. unfold same_key in Hm. rewrite E1, E2, !Prelude.eqb_refl in Hm. done. }
    assert (next_message_id d ∉ map m_id (messages d)) as Hn.
    { intros (m & E & Hm)%list_elem_of_fmap. pose proof (wf_next _ H) as Hx. rewrite Forall_forall in Hx.
      specialize (Hx m Hm). lia. }
    destruct H as [H1 H2 H3 H4 H5 H6 H7 H8 H9]. split; [split|]; cbn [messages memberships folders
      next_message_id next_folder_id bump_message set_messages]; try done.
    + rewrite map_app. by apply NoDup_snoc.
    + apply Forall_app. split; [eapply Forall_impl; [exact H2|]; cbn; lia|]. constructor; [cbn; lia|done].
    + rewrite map_app. apply NoDup_snoc; [done|]. intros (m & E & Hm)%list_elem_of_fmap.
      apply (Hk m Hm). rewrite <- E. unfold row_key, set_columns, blank_message. cbn. f_equal. by case_match.
    + eapply Forall_impl; [exact H4|]. intros mf Hmf. rewrite map_app. set_solver.
    + rewrite map_app. set_solver.
Qed.

Lemma wf_contents g d : wf d -> wf (set_contents g d).
Proof. apply wf_same_keys. same_rows. Qed.

Lemma wf_add_message nz r c d id d' : wf d -> add_message nz r c d = Ok (id, d') ->
  wf d' /\ id ∈ map m_id (messages d').
Proof.
  intros H. unfold add_message. intros ([id1 d1] & H1 & (d2 & H2 & [= <- <-])%rbind_ok)%rbind_ok.
  apply wf_upsert_message in H1 as [H1 Hid]; [|done].
  assert (messages d2 = messages d1) as Em.
  { unfold upsert_membership in H2. apply rbind_ok in H2 as (? & _ & <-%Ok_inj). by case_match. }
  apply wf_upsert_membership in H2; [|done|done].
  destruct c; [split; [by apply wf_contents|]|split; [done|]]; cbn; by rewrite Em.
Qed.

Lemma wf_delete_message id d : wf d -> wf (delete_message id d).
Proof.
  intros [H1 H2 H3 H4 H5 H6 H7 H8 H9]. split;
    cbn [messages memberships folders next_message_id next_folder_id delete_message set_aliases
         set_contents set_memberships set_messages]; try done.
  - by apply NoDup_map_delete.
  - by apply Forall_delete_where.
  - by apply NoDup_map_delete.
  - rewrite Forall_forall in H4. apply Forall_forall. intros mf [Hmf Ne]%elem_of_delete_where.
    destruct (proj1 (list_elem_of_fmap _ _ _) (H4 mf Hmf)) as (m & E & Hm). rewrite E.
    apply list_elem_of_fmap. exists m. split; [done|]. apply elem_of_delete_where. split; [done|].
    by rewrite <- E.
  - by apply Forall_delete_where.
  - by apply NoDup_map_delete.
  - by apply NoDup_omap_delete.
Qed.

(** ** Merging *)

Lemma merge_row_keys c x d : same_keys d (merge_row c x d).
Proof.
  unfold merge_row. set (d0 := match relative_path c, file_hash c with None, None => _ | _, _ => d end).
  transitivity d0; [subst d0; repeat case_match; try reflexivity; by apply same_keys_update|].
  set (d1 := if _ == m_local_state c then d0 else _).
  transitivity d1; [subst d1; case_match; [reflexivity|by apply same_keys_update]|].
  case_match; same_rows.
Qed.
Lemma merge_aliases_keys account canonical x d : same_keys d (merge_aliases account canonical x d).
Proof.
  unfold merge_aliases. set (l := List.filter _ (aliases d)). clearbody l.
  assert (forall d, same_keys d (fold_left (fun d a => insert_alias
    (Alias account (observed_source_item_key a) canonical (evidence_kind a)) d) l d)) as Hf.
  { induction l as [|a l IH]; intros d0; [reflexivity|]. cbn [fold_left].
    etransitivity; [apply same_keys_insert_alias|apply IH]. }
  etransitivity; [apply Hf|]. etransitivity; [apply same_keys_insert_alias|]. same_rows.
Qed.

Lemma of_pair_key id fid mf : of_pair id fid mf = true <-> pair_key mf = (id, fid).
Proof. rewrite of_pair_true. unfold pair_key. split; [by intros [-> ->]|by intros [= -> ->]]. Qed.

Lemma wf_merge_membership canonical duplicate mf d d' : wf d -> canonical ∈ map m_id (messages d) ->
  merge_membership canonical duplicate mf d = Ok d' -> wf d'.
Proof.
  intros H Hc. unfold merge_membership.
  destruct (List.find (of_pair canonical (mf_folder_id mf)) (memberships d)) as [o|] eqn:Ef.
  { intros (? & _ & <-%Ok_inj)%rbind_ok. by apply wf_delete_memberships. }
  intros <-%Ok_inj. apply wf_set_memberships; [done| | | |].
  - apply Forall_update_where; [done|by apply wf_members].
  - apply Forall_update_where; [done|by apply wf_in_folder].
  - eapply (NoDup_map_rekey _ _ _ _ (canonical, mf_folder_id mf));
      [apply of_pair_key| |by apply wf_pairs|].
    + intros x Hx%of_pair_true. unfold pair_key, with_message_id. cbn. by destruct Hx as [_ ->].
    + intros (x & E & Hx%list_elem_of_In)%list_elem_of_fmap.
      apply (List.find_none _ _ Ef) in Hx. apply not_true_iff_false in Hx. by apply Hx, of_pair_key.
  - rewrite omap_update_where by done. by apply wf_uids.
Qed.
Lemma merge_membership_keeps canonical duplicate mf d d' :
  merge_membership canonical duplicate mf d = Ok d' -> messages d' = messages d.
Proof. unfold merge_membership. case_match; [by intros (? & _ & <-%Ok_inj)%rbind_ok|by intros <-%Ok_inj]. Qed.
Lemma wf_merge_memberships canonical duplicate l : forall d d', wf d ->
  canonical ∈ map m_id (messages d) -> merge_memberships canonical duplicate l d = Ok d' -> wf d'.
Proof.
  induction l as [|mf l IH]; intros d d' H Hc E; cbn [merge_memberships] in E; [by apply Ok_inj in E as <-|].
  apply rbind_ok in E as (d1 & E1 & E). pose proof (merge_membership_keeps _ _ _ _ _ E1) as Em.
  apply wf_merge_membership in E1; [|done|done]. eapply IH; [exact E1|by rewrite Em|exact E].
Qed.

Lemma wf_merge_duplicate account canonical duplicate d d' : wf d ->
  merge_duplicate_message account canonical duplicate d = Ok d' -> wf d'.
Proof.
  intros H. destruct (Z.eq_dec canonical duplicate) as [->|Hne].
  { unfold merge_duplicate_message. rewrite Z.eqb_refl. by intros <-%Ok_inj. }
  intros E. apply merge_duplicate_inv in E as (c & x & d1 & Ec & _ & <- & _ & Em & ->); [|done].
  apply wf_delete_message. apply (wf_same_keys d1); [unfold move_items; same_rows|].
  assert (same_keys d (merge_aliases account (m_id c) x (merge_row c x d))) as Hk
    by (etransitivity; [apply merge_row_keys|apply merge_aliases_keys]).
  refine (wf_merge_memberships _ _ _ _ _ _ _ Em); [by eapply wf_same_keys|].
  destruct Hk as [-> _]. apply List.find_some in Ec as [Hin _]. apply list_elem_of_In in Hin.
  apply list_elem_of_fmap. by exists c.
Qed.

Lemma wf_upsert_folder f d id d' : wf d -> upsert_folder f d = Ok (id, d') -> wf d'.
Proof.
  intros H. unfold upsert_folder. case_match; [intros [= <- <-]; eapply wf_same_keys; [|exact H]; same_rows|].
  intros (? & _ & [= <- <-])%rbind_ok. destruct H as [H1 H2 H3 H4 H5 H6 H7 H8 H9]. split;
    cbn [messages memberships folders next_message_id next_folder_id bump_folder set_folders]; try done.
  - eapply Forall_impl; [exact H5|]. intros mf Hmf. rewrite map_app. set_solver.
  - rewrite map_app. apply NoDup_snoc; [done|]. intros (g & E & Hg)%list_elem_of_fmap. cbn in E.
    rewrite Forall_forall in H9. specialize (H9 g Hg). lia.
  - apply Forall_app. split; [eapply Forall_impl; [exact H9|]; cbn; lia|]. constructor; [cbn; lia|done].
Qed.

(** ** Every write of the repository *)

Section Steps.
Context (normalize : string -> string).

Inductive repo_step : Db -> Db -> Prop :=
  | step_upsert_account a d r d' : upsert_account a d = Ok (r, d') -> repo_step d d'
  | step_normalize_account id p d d' : normalize_account_provider_type id p d = Ok d' -> repo_step d d'
  | step_upsert_folder f d r d' : upsert_folder f d = Ok (r, d') -> repo_step d d'
  | step_set_sync_target a n b d d' : set_sync_target a n b d = Ok d' -> repo_step d d'
  | step_initialize_cursors f v m d : repo_step d (initialize_sync_cursors f v m d)
  | step_update_cursors f l b c d : repo_step d (update_sync_cursors f l b c d)
  | step_highest_modseq f v d : repo_step d (set_highest_modseq f v d)
  | step_add_message r c d id d' : add_message normalize r c d = Ok (id, d') -> repo_step d d'
  | step_update_contents id c d d' : update_message_contents normalize id c d = Ok d' -> repo_step d d'
  | step_delete_contents id d : repo_step d (delete_message_contents id d)
  | step_update_flags a f v u fl t d : repo_step d (update_flags a f v u fl t d)
  | step_touch_flags a f v us t d : repo_step d (touch_flags_seen_at a f v us t d)
  | step_local_state id st t d : repo_step d (set_local_state id st t d)
  | step_message_storage id p h d : repo_step d (update_message_storage id p h d)
  | step_gmail_labels id l d : repo_step d (update_gmail_labels id l d)
  | step_remote_state id st m f d : repo_step d (update_remote_state id st m f d)
  | step_replace_memberships id l d d' : replace_message_memberships id l d = Ok d' -> repo_step d d'
  | step_add_alias a k id e d d' : add_message_identity_alias a k id e d = Ok d' -> repo_step d d'
  | step_merge a c x d d' : merge_duplicate_message a c x d = Ok d' -> repo_step d d'
  | step_audit e d d' : record_audit e d = Ok d' -> repo_step d d'
  | step_app_state k v d : repo_step d (set_app_state k v d)
  | step_record_failure a f v u c m d : repo_step d (record_failure a f v u c m d)
  | step_clear_failure a f v u d : repo_step d (clear_failure a f v u d).

(** C28. Every write of the repository keeps the constraints of the schema: unique message ids and
    source keys, memberships that refer to existing messages and folders, at most one membership
    per message and folder, and at most one message per folder, UIDVALIDITY and UID. *)
Theorem repository_keeps_constraints d d' : wf d -> repo_step d d' -> wf d'.
Proof.
  intros H E. destruct E.
  - eapply wf_same_keys; [|exact H]. unfold upsert_account in H0.
    apply rbind_ok in H0 as (? & _ & (? & _ & [= <- <-])%rbind_ok). case_match; same_rows.
  - eapply wf_same_keys; [|exact H]. unfold normalize_account_provider_type in H0.
    apply rbind_ok in H0 as (? & _ & (? & _ & (? & _ & <-%Ok_inj)%rbind_ok)%rbind_ok). same_rows.
  - by eapply wf_upsert_folder.
  - eapply wf_same_keys; [|exact H]. unfold set_sync_target in H0.
    apply rbind_ok in H0 as (? & _ & <-%Ok_inj). same_rows.
  - eapply wf_same_keys; [|exact H]. same_rows.
  - eapply wf_same_keys; [|exact H]. same_rows.
  - eapply wf_same_keys; [|exact H]. same_rows.
  - by eapply wf_add_message in H0 as [].
  - unfold update_message_contents in H0. apply rbind_ok in H0 as (? & _ & <-%Ok_inj). by apply wf_contents.
  - by apply wf_contents.
  - eapply wf_same_keys; [|exact H]. same_rows.
  - eapply wf_same_keys; [|exact H]. same_rows.
  - eapply wf_same_keys; [|exact H]. by apply same_keys_update.
  - eapply wf_same_keys; [|exact H]. by apply same_keys_update.
  - eapply wf_same_keys; [|exact H]. by apply same_keys_update.
  - eapply wf_same_keys; [|exact H]. same_rows.
  - by eapply wf_replace_memberships.
  - eapply wf_same_keys; [|exact H]. unfold add_message_identity_alias in H0. case_match; [|done].
    apply rbind_ok in H0 as (? & _ & <-%Ok_inj). apply same_keys_insert_alias.
  - by eapply wf_merge_duplicate.
  - eapply wf_same_keys; [|exact H]. unfold record_audit in H0. case_match; [|done].
    apply Ok_inj in H0 as <-. same_rows.
  - eapply wf_same_keys; [|exact H]. same_rows.
  - eapply wf_same_keys; [|exact H]. unfold record_failure. case_match; same_rows.
  - eapply wf_same_keys; [|exact H]. same_rows.
Qed.
End Steps.

Definition one_folder : Db :=
  MkDb [Account "acct" "imap" None None None None true "implicit" None "password" None None None]
    [Folder 1 "acct" "INBOX" "INBOX" None 0 true None None false None] [] [] [] [] [] [] [] 2 1 1 1 [] [] 1.
Definition one_message : message_in :=
  MessageIn ["content_key"; "source_item_key"]%string (blank_message 0 "acct" "imap:INBOX:7:3")
    (Membership 0 1 (Some 3) (Some 7) "present" None None None None)%Z.
Definition one_stored : Db := match add_message (fun s => s) one_message None one_folder with
  | Ok (_, d) => d | Err _ => one_folder end.

Lemma repository_keeps_constraints_witness : wf one_folder /\ wf one_stored
  /\ map pair_key (memberships one_stored) = [(1, 1)]%Z.
Proof.
  assert (wf one_folder) as H.
  { split; cbn; repeat first [apply NoDup_nil_2 | apply NoDup_singleton | constructor]; cbn; lia. }
  split; [exact H|]. split; [|reflexivity].
  apply (repository_keeps_constraints (fun s => s) one_folder); [exact H|].
  apply (step_add_message _ one_message None one_folder 1%Z). reflexivity.
Defined.
