(* ===== verification/SearchPages.v ===== *)
(** * SearchPages: the read-only search repository

    [infrastructure/database/search_repository.py] over the finalized schema, and the use cases of
    [usecases/search_messages.py]. The SQL text is modelled by what it selects; FTS5's [MATCH] is
    a parameter ([fts_match]: does a content row match a quoted term). *)

From S2P Require Import Prelude Errors PyText PyTime SearchQuery Database.

Record MessageFilter := MkFilter {
  account_ids : option (list string);
  folder_ids : option (list Z);
  date_from : option datetime;
  date_to : option datetime;
  f_has_attachment : option bool;
  local_states : list local_state;
  remote_states : option (list string);
  f_thread_key : option string;
}.
Definition default_filter : MessageFilter := MkFilter None None None None None [Active] None None.

Record PageCursor := Cursor { sort_key : string; cursor_message_id : Z }.

Record MessageSummary := Summary {
  ms_id : Z;
  ms_account_id : string;
  ms_folder_id : Z;
  folder_raw_name : string;
  folder_display_name : string;
  ms_subject : string;
  ms_sender : string;
  ms_date_sent : option datetime;
  ms_internal_date : option datetime;
  ms_size_bytes : option Z;
  ms_has_attachment : bool;
  ms_remote_state : string;
  ms_local_state : local_state;
  ms_thread_key : option string;
  ms_imap_flags : option string;
  moved_to_folder_display_name : option string;
  failure_class : option string;
  ms_flags_seen_at : option datetime;
  ms_trashed_at : option datetime;
}.

Record SearchPage := Page {
  page_items : list MessageSummary; next_cursor : option PageCursor; exhausted : bool;
  p_has_slow_path : bool }.

(** ** Matching *)

(** A search term and whether it takes the LIKE path. *)
Notation term := (pystr * bool)%type.

(** A result row: the key SQLite orders by, and the summary built from it. *)
Notation row := (string * MessageSummary)%type.

Inductive set_op := Union | Intersect | Except.

Section Search.
Context (fts_match : pystr -> contents -> bool).

(** [_term_query]: the content rows one term selects. *)
Definition term_selects (c : contents) (t : term) : bool :=
  if t.2 then
    existsb (fun col => match col with
                        | Some s => like_match ([percent] ++ t.1 ++ [percent]) (code_points s)
                        | None => false
                        end) [subject_norm c; sender_norm c; body_text c; attachment_names c]
  else fts_match t.1 c.

(** [combine]: the terms joined by one operator; the operator before the first is not used. *)
Definition combine (op : set_op) (terms : list term) : list (set_op * term) := map (fun t => (op, t)) terms.

Definition positive_terms (p : SearchPlan) : list term :=
  map (fun t => (t, false)) (match_terms p) ++ map (fun t => (t, true)) (like_terms p).
Definition negative_terms (p : SearchPlan) : list term :=
  map (fun t => (t, false)) (exclude_match_terms p) ++ map (fun t => (t, true)) (exclude_like_terms p).
Definition mode_op (m : search_mode) : set_op := match m with ModeOr => Union | ModeAnd => Intersect end.

(** [_matching_expression]: the compound SELECT, a sequence of selects each with the operator
    written before it. *)
Definition matching_expression (p : SearchPlan) : list (set_op * term) :=
  let positive := combine (mode_op (plan_mode p)) (positive_terms p) in
  let negative := combine Union (negative_terms p) in
  match negative with
  | [] => positive
  | (_, t) :: rest => match positive with [] => negative | _ => positive ++ (Except, t) :: rest end
  end.

(** SQLite gives the compound operators one precedence and groups them from left to right:
    whether the row with contents [c] is in the result. *)
Definition apply_op (c : contents) (acc : bool) (s : set_op * term) : bool :=
  match s.1 with
  | Union => acc || term_selects c s.2
  | Intersect => acc && term_selects c s.2
  | Except => acc && negb (term_selects c s.2)
  end.
Definition in_compound (l : list (set_op * term)) (c : contents) : bool :=
  match l with [] => true | (_, t) :: l => fold_left (apply_op c) l (term_selects c t) end.

(** ** Filters *)

(** [COALESCE(m.date_sent, m.internal_date, '')] *)
Definition row_key (m : message) : string :=
  match date_sent m with Some s => s | None => get_or ""%string (internal_date m) end.

(** [_filter_clause] *)
Definition passes (f : MessageFilter) (d : Db) (m : message) : bool :=
  match account_ids f with Some l => mem (account_id m) l | None => true end
  && match folder_ids f with
     | Some l => existsb (fun mf => mem (mf_folder_id mf) l) (memberships_of (m_id m) d)
     | None => true
     end
  && match date_from f with Some t => String.leb (db_datetime t) (row_key m) | None => true end
  && match date_to f with Some t => String.leb (row_key m) (db_datetime t) | None => true end
  && match f_has_attachment f with Some b => Bool.eqb (has_attachment m) b | None => true end
  && mem (m_local_state m) (local_states f)
  && match remote_states f with
     | Some l => existsb (fun mf => mem (remote_state mf) l) (memberships_of (m_id m) d)
     | None => true
     end
  && match f_thread_key f with Some k => thread_key m == Some k | None => true end.

(** [m.id IN (match_expression)]: the content rows are those of the table. *)
Definition matched (p : option SearchPlan) (d : Db) (m : message) : bool :=
  match p with
  | None => true
  | Some p => match matching_expression p with
              | [] => true
              | l => existsb (fun c => (c_message_id c =? m_id m)%Z && in_compound l c)
                       (message_contents d)
              end
  end.

(** ** Pages *)

(** The membership shown: the one with the smallest folder id, among the filtered folders. *)
Definition shown_membership (f : MessageFilter) (d : Db) (m : message) : option membership :=
  head (by_folder (List.filter (fun mf =>
    match folder_ids f with Some l => mem (mf_folder_id mf) l | None => true end)
    (memberships_of (m_id m) d))).

(** [_summary] of the joined row; the inner joins drop a message without a membership. *)
Definition summary (f : MessageFilter) (d : Db) (m : message) : option MessageSummary :=
  match shown_membership f d m with
  | None => None
  | Some mf =>
      match folder_with (mf_folder_id mf) d with
      | None => None
      | Some fo =>
          Some (Summary (m_id m) (account_id m) (mf_folder_id mf) (raw_name fo) (display_name fo)
            (get_or "" (subject m)) (get_or "" (sender m)) (date_sent m ≫= parse_datetime)
            (internal_date m ≫= parse_datetime) (size_bytes m) (has_attachment m) (remote_state mf)
            (m_local_state m) (thread_key m) (imap_flags mf)
            (option_map display_name (moved_to_folder_id mf ≫= fun i => folder_with i d))
            (option_map error_class (List.find (fun sf =>
               (sf_account_id sf == account_id m) && (sf_folder_id sf =? mf_folder_id mf)%Z
               && (Some (sf_uidvalidity sf) == uidvalidity mf) && (Some (sf_uid sf) == uid mf))
               (sync_failures d)))
            (flags_seen_at mf ≫= parse_datetime) (trashed_at m ≫= parse_datetime))%string
      end
  end.

(** [ORDER BY COALESCE(...) DESC, m.id DESC] *)
Definition key_compare (a b : string * Z) : comparison :=
  thenc (String.compare a.1 b.1) (a.2 ?= b.2)%Z.
Definition row_order (r : row) : string * Z := (r.1, ms_id r.2).
Definition before (a b : row) : Prop := key_compare (row_order a) (row_order b) <> Lt.
#[export] Instance before_dec : RelDecision before.
Proof. intros a b. unfold before. apply _. Defined.

Definition all_rows (p : option SearchPlan) (f : MessageFilter) (d : Db) : list row :=
  merge_sort before (omap (fun m =>
    if matched p d m && passes f d m then option_map (pair (row_key m)) (summary f d m) else None)
    (messages d)).

(** [_sort_key]: from the parsed dates. *)
Definition summary_sort_key (s : MessageSummary) : string :=
  match or_else (ms_date_sent s) (ms_internal_date s) with Some t => db_datetime t | None => "" end.

(** [(COALESCE(...), m.id) < (?, ?)] *)
Definition after_cursor (c : option PageCursor) (r : row) : bool :=
  match c with
  | None => true
  | Some c => bool_decide (key_compare (row_order r) (sort_key c, cursor_message_id c) = Lt)
  end.

(** [_page] *)
Definition page (p : option SearchPlan) (f : MessageFilter) (c : option PageCursor) (limit : Z) (d : Db)
    : result SearchPage :=
  check (0 <? limit)%Z ValueError "limit must be positive" ;?
  let rows := take_Z (limit + 1) (List.filter (after_cursor c) (all_rows p f d)) in
  let summaries := map snd (take_Z limit rows) in
  let has_more := (limit <? Z.of_nat (length rows))%Z in
  let next := if has_more then
                match last summaries with
                | Some s => Some (Cursor (summary_sort_key s) (ms_id s))
                | None => None
                end
              else None in
  Ok (Page summaries next (negb has_more) false).

Definition count_messages (f : MessageFilter) (p : option SearchPlan) (d : Db) : Z :=
  Z.of_nat (length (List.filter (fun m => matched p d m && passes f d m) (messages d))).

Definition list_thread (key : string) (f : MessageFilter) (d : Db) : result (list MessageSummary) :=
  let? pg := page None (MkFilter (account_ids f) (folder_ids f) (date_from f) (date_to f)
                          (f_has_attachment f) (local_states f) (remote_states f) (Some key))
               None 2147483647 d in
  Ok (page_items pg).

(** ** Use cases *)

Context (normalize_for_search : pystr -> pystr).

Definition search_messages (query : pystr) (mode : search_mode) (f : MessageFilter)
    (c : option PageCursor) (limit : Z) (d : Db) : result SearchPage :=
  let? plan := parse_query normalize_for_search query mode in
  let? pg := page (Some plan) f c limit d in
  Ok (Page (page_items pg) (next_cursor pg) (exhausted pg) (has_slow_path plan)).

Definition list_messages (f : MessageFilter) (c : option PageCursor) (limit : Z) (d : Db)
    : result SearchPage := page None f c limit d.

(** [list_all_messages]: one iteration of the [while True] loop per page; [fuel] bounds them. *)
Fixpoint list_all_loop (fuel : nat) (query : pystr) (mode : search_mode) (f : MessageFilter)
    (c : option PageCursor) (results : list MessageSummary) (d : Db)
    : option (result (list MessageSummary)) :=
  match fuel with
  | O => None
  | S fuel =>
      match (match query with
             | [] => list_messages f c 200 d
             | _ => search_messages query mode f c 200 d
             end) with
      | Err e => Some (Err e)
      | Ok pg =>
          let results := results ++ page_items pg in
          if exhausted pg then Some (Ok results)
          else match next_cursor pg with
               | None => Some (Ok results)
               | c => list_all_loop fuel query mode f c results d
               end
      end
  end.
Definition list_all_messages (fuel : nat) (query : pystr) (mode : search_mode) (f : MessageFilter) (d : Db)
    : option (result (list MessageSummary)) := list_all_loop fuel query mode f None [] d.
End Search.

(** ** The meaning of the compound select *)

Section Compound.
Context (fts_match : pystr -> contents -> bool).
Notation selects := (term_selects fts_match).

(** The rows the positive terms ask for. *)
Definition wanted (p : SearchPlan) (c : contents) : bool :=
  match plan_mode p with
  | ModeAnd => forallb (selects c) (positive_terms p)
  | ModeOr => existsb (selects c) (positive_terms p)
  end.

Lemma fold_union c l acc :
  fold_left (apply_op fts_match c) (combine Union l) acc = acc || existsb (selects c) l.
Proof.
  revert acc. induction l as [|t l IH]; intros acc; simpl; [by rewrite orb_false_r|].
  rewrite IH. unfold apply_op; simpl. by rewrite orb_assoc.
Qed.

Lemma fold_intersect c l acc :
  fold_left (apply_op fts_match c) (combine Intersect l) acc = acc && forallb (selects c) l.
Proof.
  revert acc. induction l as [|t l IH]; intros acc; simpl; [by rewrite andb_true_r|].
  rewrite IH. unfold apply_op; simpl. by rewrite andb_assoc.
Qed.

Lemma in_compound_positive p c rest : positive_terms p <> [] ->
  in_compound fts_match (combine (mode_op (plan_mode p)) (positive_terms p) ++ rest) c
  = fold_left (apply_op fts_match c) rest (wanted p c).
Proof.
  intros Hne. unfold wanted. destruct (positive_terms p) as [|t l] eqn:E; [done|]. simpl.
  rewrite fold_left_app. f_equal. destruct (plan_mode p); simpl; [apply fold_intersect|apply fold_union].
Qed.

Lemma matching_expression_positive p : positive_terms p <> [] ->
  matching_expression p
  = combine (mode_op (plan_mode p)) (positive_terms p)
    ++ match negative_terms p with [] => [] | t :: rest => (Except, t) :: combine Union rest end.
Proof.
  intros Hne. unfold matching_expression.
  destruct (negative_terms p) as [|n rest]; cbn [combine map]; [by rewrite app_nil_r|].
  destruct (positive_terms p); [done|]. reflexivity.
Qed.

(** What a search with at least one wanted term selects: with no excluded term the wanted
    rows; with one, the wanted rows that do not match it; with more, only the first is taken
    away, and every row that matches one of the others is added, wanted or not. *)
Lemma compound_meaning p c : positive_terms p <> [] ->
  in_compound fts_match (matching_expression p) c
  = match negative_terms p with
    | [] => wanted p c
    | n :: rest => (wanted p c && negb (selects c n)) || existsb (selects c) rest
    end.
Proof.
  intros Hne. rewrite matching_expression_positive, in_compound_positive by done.
  destruct (negative_terms p) as [|n rest]; [done|]. simpl. by rewrite fold_union.
Qed.

(** A search with two or more excluded terms returns the messages it was asked to leave
    out: a row that matches any excluded term but the first is in the result, whatever the wanted
    terms are. *)
Lemma later_exclusion_included p c n rest t :
  positive_terms p <> [] -> negative_terms p = n :: rest -> t ∈ rest -> selects c t = true ->
  in_compound fts_match (matching_expression p) c = true.
Proof.
  intros Hne En Ht Hs. rewrite matching_expression_positive, in_compound_positive, En by done.
  simpl. rewrite fold_union. apply orb_true_iff. right. apply existsb_exists. exists t.
  split; [by apply list_elem_of_In|done].
Qed.
End Compound.

(** The query [ab -xy -cd], every term on the LIKE path. *)
Definition two_exclusions : pystr := [97; 98; 32; 45; 120; 121; 32; 45; 99; 100]%Z.
Definition excluded_row : contents := Contents 1 (Some "all cd here") None None None.
Definition exclusion_plan : SearchPlan :=
  Plan [] [[97; 98]%Z] [] [[120; 121]%Z; [99; 100]%Z] ModeAnd true.

(** ** The order of the pages *)

Lemma key_compare_antisym a b : key_compare b a = CompOpp (key_compare a b).
Proof.
  unfold key_compare. rewrite String.compare_antisym, Z.compare_antisym.
  by destruct (String.compare a.1 b.1).
Qed.

Lemma key_compare_Eq a b : key_compare a b = Eq -> a = b.
Proof.
  unfold key_compare. destruct (String.compare a.1 b.1) eqn:E; try done. simpl.
  intros ?%Z.compare_eq. apply String.compare_eq_iff in E. destruct a, b; simpl in *; congruence.
Qed.

Lemma key_compare_trans a b c :
  key_compare a b = Gt -> key_compare b c = Gt -> key_compare a c = Gt.
Proof.
  unfold key_compare.
  destruct (String.compare a.1 b.1) eqn:E1, (String.compare b.1 c.1) eqn:E2; try done; simpl.
  - rewrite (compare_trans Eq _ _ _ E1 E2). simpl. rewrite !Z.compare_gt_iff. lia.
  - apply String.compare_eq_iff in E1. by rewrite E1, E2.
  - apply String.compare_eq_iff in E2. by rewrite <- E2, E1.
  - by rewrite (compare_trans Gt _ _ _ E1 E2).
Qed.

Lemma before_cases a b : before a b ->
  key_compare (row_order a) (row_order b) = Gt \/ row_order a = row_order b.
Proof.
  unfold before. intros H. destruct (key_compare _ _) eqn:E; [right|done|by left].
  by apply key_compare_Eq.
Qed.

#[export] Instance before_trans : Transitive before.
Proof.
  intros a b c [Hab|Hab]%before_cases [Hbc|Hbc]%before_cases; unfold before.
  - by rewrite (key_compare_trans _ _ _ Hab Hbc).
  - by rewrite <- Hbc, Hab.
  - by rewrite Hab, Hbc.
  - rewrite Hab, Hbc. unfold key_compare. by rewrite compare_refl, Z.compare_refl.
Qed.
#[export] Instance before_total : Total before.
Proof.
  intros a b. unfold before. rewrite (key_compare_antisym (row_order a)).
  destruct (key_compare (row_order a) (row_order b)); simpl; auto.
Qed.

(** Rows strictly before one another, latest first. *)
Definition strictly_before (a b : row) : Prop := key_compare (row_order a) (row_order b) = Gt.

Lemma strongly_sorted_strict l :
  StronglySorted before l -> NoDup (map (fun r => ms_id r.2) l) -> StronglySorted strictly_before l.
Proof.
  induction 1 as [|r l Hs IH Hr]; simpl; intros Hd; constructor; apply NoDup_cons in Hd as [Hn Hd];
    [by apply IH|].
  rewrite Forall_forall in Hr |- *. intros x Hx. specialize (Hr x Hx).
  apply before_cases in Hr as [Hr|Hr]; [done|]. exfalso. apply Hn. apply list_elem_of_fmap.
  exists x. split; [|done]. by injection Hr.
Qed.

(** Past the cursor of a row come exactly the rows after it. *)
Lemma after_row l1 r l2 : StronglySorted strictly_before (l1 ++ r :: l2) ->
  List.filter (after_cursor (Some (Cursor r.1 (ms_id r.2)))) (l1 ++ r :: l2) = l2.
Proof.
  intros Hs. rewrite List.filter_app.
  assert (forall x, key_compare (row_order x) (row_order r) <> Lt ->
    after_cursor (Some (Cursor r.1 (ms_id r.2))) x = false) as Hno
    by (intros x Hx; by apply bool_decide_eq_false).
  apply StronglySorted_app in Hs as (Hl1 & _ & Hs). cbn [List.filter].
  rewrite (Hno r) by (unfold key_compare; by rewrite compare_refl, Z.compare_refl).
  assert (List.filter (after_cursor (Some (Cursor r.1 (ms_id r.2)))) l1 = []) as ->.
  { induction l1 as [|x l1 IH]; [done|]. cbn [List.filter]. rewrite Hno.
    - apply IH. intros y z Hy Hz. apply Hl1; [by right|done].
    - rewrite (Hl1 x r); [done|by left|by left]. }
  apply StronglySorted_inv in Hs as [_ Hr]. cbn [app]. clear Hl1. induction Hr as [|x l2 Hx _ IH]; [done|].
  assert (after_cursor (Some (Cursor r.1 (ms_id r.2))) x = true) as Hyes.
  { apply bool_decide_eq_true. rewrite key_compare_antisym. unfold strictly_before in Hx.
    unfold row_order in *. simpl. by rewrite Hx. }
  cbn [List.filter]. by rewrite Hyes, IH.
Qed.

(** What the database holds: dates as [to_utc_iso8601] prints them, one row per id. *)
Definition stored_date (o : option string) : Prop :=
  match o with
  | None => True
  | Some s => exists t, valid t = true /\ microsecond t = 0%Z /\ s = to_utc_iso8601 t
  end.
Definition listable (d : Db) : Prop :=
  NoDup (map m_id (messages d))
  /\ Forall (fun m => stored_date (date_sent m) /\ stored_date (internal_date m)) (messages d).

Section Listing.
Context (fts_match : pystr -> contents -> bool).

(** The rows of a listing before they are sorted. *)
Definition matching_rows (p : option SearchPlan) (f : MessageFilter) (d : Db) : list row :=
  omap (fun m => if matched fts_match p d m && passes f d m
                 then option_map (pair (row_key m)) (summary f d m) else None) (messages d).

Lemma all_rows_matching p f d : all_rows fts_match p f d ≡ₚ matching_rows p f d.
Proof. apply merge_sort_Permutation. Qed.

Lemma summary_fields f d m s : summary f d m = Some s ->
  ms_id s = m_id m /\ ms_date_sent s = date_sent m ≫= parse_datetime
  /\ ms_internal_date s = internal_date m ≫= parse_datetime.
Proof. unfold summary. intros H. repeat case_match; simplify_eq; done. Qed.

Lemma matching_row p f d r : r ∈ matching_rows p f d ->
  exists m, m ∈ messages d /\ r.1 = row_key m /\ summary f d m = Some r.2.
Proof.
  intros (m & Hm & E)%list_elem_of_omap. exists m. split; [done|]. case_match; [|done].
  destruct (summary f d m) eqn:Es; [|done]. by simplify_eq/=.
Qed.

(** The ids of the rows are among those of the messages, in the same order. *)
Lemma matching_ids p f d : map (fun r => ms_id r.2) (matching_rows p f d) `sublist_of` map m_id (messages d).
Proof.
  unfold matching_rows. induction (messages d) as [|m l IH]; [done|]. simpl.
  destruct (matched fts_match p d m && passes f d m); [|by apply sublist_cons].
  destruct (summary f d m) as [s|] eqn:Es; simpl; [|by apply sublist_cons].
  apply summary_fields in Es as (-> & _). by apply sublist_skip.
Qed.

Lemma stored_date_key o : stored_date o ->
  match o ≫= parse_datetime with Some t => o = Some (db_datetime t) | None => o = None end.
Proof.
  destruct o as [s|]; [|done]. intros (t & Hv & H0 & ->).
  destruct (parse_to_utc_iso8601 t Hv H0) as [Ep Ed]. simpl. by rewrite Ep, Ed.
Qed.

Lemma row_sort_key p f d r : listable d -> r ∈ matching_rows p f d -> summary_sort_key r.2 = r.1.
Proof.
  intros [_ Hd] (m & Hm & -> & Es)%matching_row. rewrite Forall_forall in Hd.
  destruct (Hd m Hm) as [Hs%stored_date_key Hi%stored_date_key].
  apply summary_fields in Es as (_ & E1 & E2). unfold summary_sort_key, row_key. rewrite E1, E2.
  destruct (date_sent m ≫= parse_datetime); simpl; rewrite Hs; [done|].
  by destruct (internal_date m ≫= parse_datetime); rewrite Hi.
Qed.

Lemma all_rows_strict p f d : listable d -> StronglySorted strictly_before (all_rows fts_match p f d).
Proof.
  intros [Hd _]. apply strongly_sorted_strict; [apply StronglySorted_merge_sort; apply _|].
  rewrite (all_rows_matching p f d). eapply sublist_NoDup; [done|apply matching_ids].
Qed.

(** A cursor that stands before the rows [rest]. *)
Definition stands_at (c : option PageCursor) (rest rows : list row) : Prop :=
  List.filter (after_cursor c) rows = rest /\ rest `suffix_of` rows.

Lemma page_last p f d c rest : stands_at c rest (all_rows fts_match p f d) -> length rest <= 200 ->
  page fts_match p f c 200 d = Ok (Page (map snd rest) None true false).
Proof.
  intros [E _] Hl. unfold page. change (0 <? 200)%Z with true. cbn [check rbind].
  rewrite E, !take_Z_take, (take_ge rest) by lia. rewrite take_ge by lia.
  destruct (Z.ltb_spec 200 (Z.of_nat (length rest))) as [H|H]; [lia|]. done.
Qed.

Lemma page_more p f d c rest : listable d -> stands_at c rest (all_rows fts_match p f d) ->
  200 < length rest ->
  exists c', page fts_match p f c 200 d = Ok (Page (map snd (take 200 rest)) (Some c') false false)
    /\ stands_at (Some c') (drop 200 rest) (all_rows fts_match p f d).
Proof.
  intros Hd [E [l0 Er]] Hl.
  destruct (lookup_lt_is_Some_2 rest 199) as [r Hr]; [lia|].
  assert (rest = take 199 rest ++ r :: drop 200 rest) as Esplit
    by (symmetry; by apply take_drop_middle).
  assert (summary_sort_key r.2 = r.1) as Hkey.
  { apply (row_sort_key p f d r Hd). rewrite <- all_rows_matching, Er.
    apply elem_of_app. right. by eapply list_elem_of_lookup_2. }
  exists (Cursor (summary_sort_key r.2) (ms_id r.2)). split.
  - unfold page. change (0 <? 200)%Z with true. cbn [check rbind]. rewrite E, !take_Z_take.
    change (Z.to_nat (200 + 1)) with 201. change (Z.to_nat 200) with 200.
    rewrite take_take, length_take. change (200 `min` 201) with 200.
    destruct (Z.ltb_spec 200 (Z.of_nat (201 `min` length rest))) as [H|H]; [|lia].
    rewrite (take_S_r rest 199 r Hr), map_app. cbn [map]. rewrite last_snoc. reflexivity.
  - rewrite Hkey. split.
    + pose proof (all_rows_strict p f d Hd) as Hs.
      assert (all_rows fts_match p f d = (l0 ++ take 199 rest) ++ r :: drop 200 rest) as ER
        by (rewrite <- app_assoc, <- Esplit; exact Er).
      rewrite ER in Hs |- *. exact (after_row _ _ _ Hs).
    + rewrite Er. exists (l0 ++ take 200 rest). by rewrite <- app_assoc, take_drop.
Qed.

(** The plan a listing runs: none without a query. *)
Definition requested_plan (normalize_for_search : pystr -> pystr) (query : pystr) (mode : search_mode)
    : result (option SearchPlan) :=
  match query with [] => Ok None | _ => let? p := parse_query normalize_for_search query mode in Ok (Some p) end.

Lemma list_all_rest normalize query mode f d p :
  listable d -> requested_plan normalize query mode = Ok p ->
  forall fuel c rest acc, stands_at c rest (all_rows fts_match p f d) -> length rest < fuel ->
  list_all_loop fts_match normalize fuel query mode f c acc d = Some (Ok (acc ++ map snd rest)).
Proof.
  intros Hd Hp. induction fuel as [|fuel IH]; intros c rest acc Hc Hf; [lia|]. cbn [list_all_loop].
  assert (forall pg, page fts_match p f c 200 d = Ok pg -> exists slow,
    (match query with [] => list_messages fts_match f c 200 d
     | _ => search_messages fts_match normalize query mode f c 200 d end)
    = Ok (Page (page_items pg) (next_cursor pg) (exhausted pg) slow)) as Hpage.
  { intros pg Hpg. destruct query as [|q qs]; simpl in Hp.
    - injection Hp as <-. exists (p_has_slow_path pg). unfold list_messages. rewrite Hpg. by destruct pg.
    - unfold search_messages. destruct (parse_query _ _ _) as [plan|]; [|done]. injection Hp as <-.
      exists (has_slow_path plan). cbn [rbind]. by rewrite Hpg. }
  destruct (decide (200 < length rest)) as [Hl|Hl].
  - destruct (page_more p f d c rest Hd Hc Hl) as (c' & Hpg & Hc').
    destruct (Hpage _ Hpg) as [slow ->]. simpl.
    rewrite (IH _ _ _ Hc') by (rewrite length_drop; lia).
    by rewrite <- app_assoc, <- map_app, take_drop.
  - destruct (Hpage _ (page_last p f d c rest Hc ltac:(lia))) as [slow ->]. done.
Qed.

Lemma length_all_rows p f d : length (all_rows fts_match p f d) <= length (messages d).
Proof.
  rewrite (Permutation_length (all_rows_matching p f d)).
  pose proof (sublist_length _ _ (matching_ids p f d)) as H. by rewrite !length_map in H.
Qed.

(** C36. Exporting a listing or a search reads every page: the cursor built from the last row of
    a page stands exactly before the rows that follow it, so the loop of [list_all_messages]
    ends, and returns every matching message once, latest first, however many pages it takes and
    however many messages share a date. *)
Theorem list_all_complete normalize query mode f d p fuel :
  listable d -> requested_plan normalize query mode = Ok p -> length (messages d) < fuel ->
  list_all_messages fts_match normalize fuel query mode f d
  = Some (Ok (map snd (all_rows fts_match p f d))).
Proof.
  intros Hd Hp Hf. apply (list_all_rest normalize query mode f d p Hd Hp fuel None (all_rows fts_match p f d) []).
  - split; [|by exists []]. induction (all_rows fts_match p f d) as [|r l IH]; [done|].
    simpl. by rewrite IH.
  - pose proof (length_all_rows p f d). lia.
Qed.

(** Every message is in a folder, and the folders of the memberships exist. *)
Definition shelved (d : Db) : Prop :=
  Forall (fun m => memberships_of (m_id m) d <> []) (messages d)
  /\ Forall (fun mf => folder_with (mf_folder_id mf) d <> None) (memberships d).

Lemma shown_passes f d m : memberships_of (m_id m) d <> [] -> passes f d m = true ->
  exists mf, shown_membership f d m = Some mf /\ mf ∈ memberships d.
Proof.
  intros Hne Hp. unfold shown_membership.
  set (l := List.filter _ (memberships_of (m_id m) d)).
  assert (forall x, x ∈ l -> x ∈ memberships d) as Hin.
  { intros x Hx. subst l. apply list_elem_of_In, filter_In in Hx as [Hx _].
    apply filter_In in Hx as [Hx _]. by apply list_elem_of_In. }
  assert (l <> []) as Hl.
  { subst l. unfold passes in Hp. bsimp. destruct (folder_ids f) as [ids|].
    - match goal with H : existsb _ _ = true |- _ => apply existsb_exists in H as (x & Hx & Hm) end.
      intros E. apply (in_nil (a := x)). rewrite <- E. by apply filter_In.
    - destruct (memberships_of (m_id m) d); done. }
  assert (by_folder l ≡ₚ l) as Hperm by apply merge_sort_Permutation.
  destruct (by_folder l) as [|x r]; [by apply Permutation_nil_l in Hperm|].
  exists x. split; [done|]. apply Hin. rewrite <- Hperm. by left.
Qed.

(** The count shown beside a listing is the number of messages the listing returns, for
    every filter and query, as long as every message is in an existing folder. *)
Lemma count_matches_listing p f d : shelved d ->
  count_messages fts_match f p d = Z.of_nat (length (all_rows fts_match p f d)).
Proof.
  intros [Hm Hf]. unfold count_messages. rewrite (Permutation_length (all_rows_matching p f d)).
  f_equal. unfold matching_rows. rewrite Forall_forall in Hf.
  induction Hm as [|m l Hne _ IH]; [done|]. simpl.
  destruct (matched fts_match p d m && passes f d m) eqn:Ep; [|done]. bsimp.
  destruct (shown_passes f d m) as (mf & Es & Hin); [done..|]. unfold summary. rewrite Es.
  specialize (Hf mf Hin). destruct (folder_with (mf_folder_id mf) d); [|done].
  simpl. by rewrite IH.
Qed.
End Listing.

(** A mailbox of [n] messages of one account, all of the same second, in one folder. *)
Definition inbox : folder := Folder 1 "a" "INBOX" "INBOX" None 0 true None None true None.
Definition dated_message (id : Z) : message :=
  Message id "a" None "k" "s" Active None None None None None None None
    (Some (to_utc_iso8601 may_1)) None None false None None None None None None.
Definition in_inbox (id : Z) : membership := Membership id 1 (Some id) None "present" None None None None.
Definition mailbox (n : Z) : Db :=
  MkDb [] [inbox] (map dated_message (seqZ 1 n)) (map in_inbox (seqZ 1 n)) [] [] [] [] [] 2 (n + 1) 1 1 [] [] 1.

Lemma mailbox_listable n : listable (mailbox n).
Proof.
  split; simpl.
  - rewrite map_map. simpl. rewrite map_id. apply NoDup_seqZ.
  - apply Forall_forall. intros m (i & -> & _)%list_elem_of_fmap. split; [|done].
    exists may_1. done.
Qed.

Lemma mailbox_shelved n : shelved (mailbox n).
Proof.
  split; apply Forall_forall.
  - intros m (i & -> & Hi)%list_elem_of_fmap E.
    apply (in_nil (a := in_inbox i)). rewrite <- E. apply filter_In.
    split; [|apply Z.eqb_refl]. apply list_elem_of_In, list_elem_of_fmap. by exists i.
  - by intros m (i & -> & Hi)%list_elem_of_fmap.
Qed.

Lemma list_all_complete_witness :
  list_all_messages (fun _ _ => false) (fun s => s) 300 [] ModeAnd default_filter (mailbox 250)
  = Some (Ok (map snd (all_rows (fun _ _ => false) None default_filter (mailbox 250))))
  /\ map ms_id (map snd (all_rows (fun _ _ => false) None default_filter (mailbox 250)))
     = rev (seqZ 1 250).
Proof.
  split; [|by vm_compute].
  apply (list_all_complete (fun _ _ => false) (fun s => s) [] ModeAnd default_filter (mailbox 250) None).
  - apply mailbox_listable.
  - reflexivity.
  - apply Nat.ltb_lt. by vm_compute.
Defined.

