(* ===== verification/ErrorPresentation.v ===== *)
(** * ErrorPresentation: what the GUI shows for an error

    [presentation/errors.py], with the texts of [presentation/strings.py] it uses. *)

From S2P Require Import Prelude Errors.

Open Scope string_scope.

Definition ERROR_STORAGE_LOCKED := "他のインスタンスがストレージを使用中です。".
Definition ERROR_FOREIGN_ROOT := "選択されたストレージルートは別のアーカイブです。".
Definition ERROR_STORAGE_DETACHED := "ストレージが切断されました。接続を確認してください。".
Definition ERROR_AUTHENTICATION := "認証に失敗しました。ユーザー名またはパスワードを確認してください。".
Definition ERROR_CONNECTION := "サーバーに接続できません。".
Definition ERROR_INSUFFICIENT_SPACE := "ストレージの空き容量が不足しています。".
Definition ERROR_DATABASE := "メタデータベースを確認できません。ログを確認してください。".
Definition ERROR_CONFIG := "設定を読み込めません。ログを確認してください。".
Definition ERROR_CONFIG_VERSION := "設定ファイルが新しいバージョンで作成されています。".
Definition ERROR_STORAGE := "ローカルストレージを使用できません。ログを確認してください。".
Definition ERROR_STORAGE_ROOT_MISSING := "ストレージルートが見つかりません。".
Definition ERROR_OVERSIZE := "メッセージがサイズ上限を超えています。".
Definition ERROR_MANIFEST := "永続マニフェストを確認できません。ログを確認してください。".
Definition ERROR_CREDENTIAL_STORE := "資格情報ストアを使用できません。ログを確認してください。".
Definition ERROR_SYNC_RESTART_REQUIRED := "フォルダの状態が変わりました。同期を再実行してください。".
Definition ERROR_CANCELLED := "操作をキャンセルしました。".
Definition ERROR_UNKNOWN := "予期しないエラーが発生しました。ログを確認してください。".
Definition SEARCH_INVALID_QUERY := "検索条件が無効です。".
Definition RECOVERY_RECONNECT_STORAGE := "ストレージを接続してから再試行してください。".
Definition RECOVERY_SELECT_STORAGE := "設定からストレージルートを選択してください。".
Definition RECOVERY_FREE_STORAGE := "空き容量を確保してから再試行してください。".
Definition RECOVERY_CHECK_CREDENTIALS := "アカウント設定の資格情報を確認してください。".
Definition RECOVERY_CHECK_CREDENTIAL_STORE := "OSの資格情報ストアを確認してから再試行してください。".
Definition RECOVERY_RETRY := "しばらく待ってから再試行してください。".

Record ErrorPresentation := Presentation {
  message_text : string; recovery_action : option string; show_log_folder : bool }.
Definition ERROR_PRESENTATIONS (c : exc_class) : option ErrorPresentation :=
  match c with
  | MailDockError => Some (Presentation ERROR_UNKNOWN None true)
  | SearchQueryError => Some (Presentation SEARCH_INVALID_QUERY None false)
  | ConfigError => Some (Presentation ERROR_CONFIG None true)
  | ConfigVersionTooNewError => Some (Presentation ERROR_CONFIG_VERSION None true)
  | StorageError => Some (Presentation ERROR_STORAGE None true)
  | StorageDetachedError => Some (Presentation ERROR_STORAGE_DETACHED (Some RECOVERY_RECONNECT_STORAGE) false)
  | StorageForeignRootError => Some (Presentation ERROR_FOREIGN_ROOT None false)
  | StorageRootMissingError => Some (Presentation ERROR_STORAGE_ROOT_MISSING (Some RECOVERY_SELECT_STORAGE) false)
  | StorageLockedError => Some (Presentation ERROR_STORAGE_LOCKED None false)
  | InsufficientSpaceError => Some (Presentation ERROR_INSUFFICIENT_SPACE (Some RECOVERY_FREE_STORAGE) false)
  | DatabaseError | MigrationError | SchemaVersionTooNewError => Some (Presentation ERROR_DATABASE None true)
  | FetchError => Some (Presentation ERROR_CONNECTION None false)
  | AuthenticationError => Some (Presentation ERROR_AUTHENTICATION (Some RECOVERY_CHECK_CREDENTIALS) false)
  | TransientError => Some (Presentation ERROR_CONNECTION (Some RECOVERY_RETRY) false)
  | PermanentError => Some (Presentation ERROR_CONNECTION None true)
  | UidValidityChanged => Some (Presentation ERROR_SYNC_RESTART_REQUIRED None false)
  | OversizeError => Some (Presentation ERROR_OVERSIZE None false)
  | ManifestCorruptError => Some (Presentation ERROR_MANIFEST None true)
  | CredentialStoreError => Some (Presentation ERROR_CREDENTIAL_STORE (Some RECOVERY_CHECK_CREDENTIAL_STORE) true)
  | OperationCancelledError => Some (Presentation ERROR_CANCELLED None false)
  | _ => None
  end.
(** The entry of the class or of the nearest of its parents; the hierarchy is at most four deep. *)
Fixpoint lookup_mro (n : nat) (c : exc_class) : option ErrorPresentation :=
  match ERROR_PRESENTATIONS c, n with
  | Some p, _ => Some p
  | None, S n => match parent c with Some c => lookup_mro n c | None => None end
  | None, O => None
  end.
Definition present_error (e : exn) : ErrorPresentation :=
  let unknown := Presentation ERROR_UNKNOWN None true in
  if isinstance e MailDockError then match lookup_mro 5 (exn_class e) with Some p => p | None => unknown end else unknown.
Definition user_message (e : exn) : string := message_text (present_error e).

(** Every domain error finds an entry, so that the last line is reached by foreign errors only. *)
Lemma domain_error_presented e : isinstance e MailDockError = true -> is_Some (lookup_mro 5 (exn_class e)).
Proof. destruct e as [[] msg]; cbn; intros; try done; by eexists. Qed.
(** The detail of an exception is not shown. *)
Lemma detail_not_shown c m1 m2 : user_message (Exn c m1) = user_message (Exn c m2).
Proof. done. Qed.
(** An import that fails is an unexpected error, although its class says what happened. *)
Lemma import_error_unknown : forall c, subclass c ArchiveImportError = true -> forall m, user_message (Exn c m) = ERROR_UNKNOWN.
Proof. by intros []. Qed.
Close Scope string_scope.
