(* ===== verification/Requests.v ===== *)
(** * Requests: the query thread and its request generations

    [presentation/threads/request_state.py], [presentation/threads/query_worker.py] and the thread loop of
    [presentation/threads/worker.py] as a transition system: the GUI thread issues and cancels requests,
    the query thread handles one task at a time, and every step below is one of the sections that a lock
    or Python itself makes atomic: in particular, asking whether a request is the current one and emitting
    its signal are two steps, with the lock released in between. A cancellation token is a number, its event a
    member of [cancelled]. The signals to the GUI are the list [signals], oldest first. What
    [open_message] renders, which only the detail view reads, is left out of its answer. *)

From stdpp Require Import functions.
From S2P Require Import Prelude Errors PyText SearchQuery Database SearchPages.

Open Scope list_scope.

Inductive channel := ListSearch | DetailOpen | CountThread | ExportList | DeleteList.
#[export] Instance channel_eq_dec : EqDecision channel.
Proof. solve_decision. Defined.
Definition CHANNELS : list channel := [ListSearch; DetailOpen; CountThread; ExportList; DeleteList].

Record RequestHandle := Handle { h_channel : channel; request_id : Z; token : nat }.
#[export] Instance handle_eq_dec : EqDecision RequestHandle.
Proof. solve_decision. Defined.

(** [MessageDetail] *)
Record MessageDetail := Detail {
  md_summary : MessageSummary;
  md_recipient : string;
  md_cc : string;
  md_message_id : option string;
  md_in_reply_to : option string;
  md_references_ids : option string;
  md_relative_path : option string;
  md_file_hash : option string;
}.

(** The arguments of the worker's requests; [list_all_messages] is asked for one of two channels. *)
Inductive operation :=
  | OpList (filters : MessageFilter) (cursor : option PageCursor) (limit : Z)
  | OpSearch (query : pystr) (mode : search_mode) (filters : MessageFilter) (cursor : option PageCursor) (limit : Z)
  | OpCount (query : option pystr) (mode : search_mode) (filters : MessageFilter)
  | OpThread (thread_key : string) (filters : MessageFilter)
  | OpAll (for_delete : bool) (query : pystr) (mode : search_mode) (filters : MessageFilter)
  | OpMessage (message_id : Z)
  | OpOpen (message_id : Z).
Definition channel_of (op : operation) : channel :=
  match op with
  | OpList _ _ _ | OpSearch _ _ _ _ _ => ListSearch
  | OpCount _ _ _ | OpThread _ _ => CountThread
  | OpAll for_delete _ _ _ => if for_delete then DeleteList else ExportList
  | OpMessage _ | OpOpen _ => DetailOpen
  end.
Inductive value :=
  | VPage (page : SearchPage) | VSummaries (l : list MessageSummary) | VCount (n : Z)
  | VDetail (detail : option MessageDetail) | VOpened (detail : MessageDetail).

Inductive signal :=
  | SResult (c : channel) (id : Z) (v : value)       (* result: a QueryResult *)
  | SFailed (c : channel) (id : Z) (e : exn)         (* request_failed: a QueryFailure *)
  | SCancelled (c : channel) (id : Z)                (* request_cancelled: a QueryCancelled *)
  | SPath (c : channel) (id : Z) (slow : bool)       (* search_path_detected: a SearchPathNotice *)
  | SDetached (e : exn).                             (* storage_detached *)

(** [_Task]: the operation, and the handle that its closure and its token give. *)
Record task := Task { t_operation : operation; t_handle : RequestHandle }.
Inductive outcome := OResult (v : value) | OFailed (e : exn) | OCancelled.
(** Where the query thread is in [_execute_task]; [last] marks the failure that is reported after the
    connection could not be closed. *)
Inductive phase :=
  | Idle
  | Starting (t : task)                      (* the first raise_if_cancelled *)
  | Checking (t : task)                      (* run: is_current *)
  | Guarded (t : task)                       (* run: raise_if_cancelled *)
  | Planning (t : task)                      (* the search plan, notify_search_path: current *)
  | Noticing (t : task) (h : RequestHandle) (slow : bool)  (* notify_search_path: the signal *)
  | Running (t : task)                       (* the repository *)
  | Answered (t : task) (v : value)          (* run: is_current again *)
  | Emitting (t : task) (o : outcome) (last : bool)    (* _emit_task_result, _failed, _cancelled: is_current *)
  | Reporting (t : task) (o : outcome) (last : bool)   (* _on_task_failed, _on_task_cancelled: is_current *)
  | Warning (t : task) (e : exn) (last : bool)         (* storage_detached *)
  | Sending (t : task) (o : outcome) (last : bool)     (* result, request_failed, request_cancelled *)
  | Closing (t : task) (failed : bool)       (* _close_connection *)
  | Finishing (t : task).                    (* _on_task_completed *)

Record worker := Worker {
  next_ids : channel -> Z;
  current_of : channel -> option RequestHandle;
  cancelled : gset nat;
  fresh : nat;                               (* the next token *)
  requests_by_token : gmap nat RequestHandle;
  tokens : gset nat;                         (* _tokens *)
  started : bool;
  stopping : bool;
  stopped : bool;
  queue : list task;                         (* queued task_requested signals *)
  running : phase;
  signals : list signal;
}.
Definition set_requests n c x f (w : worker) :=
  Worker n c x f (requests_by_token w) (tokens w) (started w) (stopping w) (stopped w) (queue w) (running w) (signals w).
Definition set_cancelled x (w : worker) := set_requests (next_ids w) (current_of w) x (fresh w) w.
Definition set_registered r (w : worker) :=
  Worker (next_ids w) (current_of w) (cancelled w) (fresh w) r (tokens w) (started w) (stopping w) (stopped w) (queue w)
    (running w) (signals w).
Definition set_tokens t (w : worker) :=
  Worker (next_ids w) (current_of w) (cancelled w) (fresh w) (requests_by_token w) t (started w) (stopping w) (stopped w)
    (queue w) (running w) (signals w).
Definition set_life a b c (w : worker) :=
  Worker (next_ids w) (current_of w) (cancelled w) (fresh w) (requests_by_token w) (tokens w) a b c (queue w)
    (running w) (signals w).
Definition set_queue q (w : worker) :=
  Worker (next_ids w) (current_of w) (cancelled w) (fresh w) (requests_by_token w) (tokens w) (started w) (stopping w)
    (stopped w) q (running w) (signals w).
Definition set_running p (w : worker) :=
  Worker (next_ids w) (current_of w) (cancelled w) (fresh w) (requests_by_token w) (tokens w) (started w) (stopping w)
    (stopped w) (queue w) p (signals w).
Definition emit s (w : worker) :=
  Worker (next_ids w) (current_of w) (cancelled w) (fresh w) (requests_by_token w) (tokens w) (started w) (stopping w)
    (stopped w) (queue w) (running w) (signals w ++ [s]).
Definition initial : worker :=
  Worker (fun _ => 0%Z) (fun _ => None) ∅ 0 ∅ ∅ false false false [] Idle [].

(** ** RequestState *)

(** What cancels the token of a current handle. *)
Definition cancel_handle (o : option RequestHandle) (x : gset nat) : gset nat :=
  match o with Some h => {[token h]} ∪ x | None => x end.
Definition issue (c : channel) : M worker RequestHandle := fun w =>
  let h := Handle c (next_ids w c + 1) (fresh w) in
  (Ok h, set_requests (<[c := request_id h]> (next_ids w)) (<[c := Some h]> (current_of w))
           (cancel_handle (current_of w c) (cancelled w)) (S (fresh w)) w).
Definition cancel (c : channel) : M worker (option RequestHandle) := fun w =>
  (Ok (current_of w c), set_cancelled (cancel_handle (current_of w c) (cancelled w)) w).
Definition cancel_all_requests : M worker unit :=
  mmodify (fun w => set_cancelled (fold_right (fun c => cancel_handle (current_of w c)) (cancelled w) CHANNELS) w).
Definition is_current (c : channel) (id : Z) (w : worker) : bool :=
  match current_of w c with Some h => (request_id h =? id)%Z | None => false end.
Definition current (c : channel) (w : worker) : option RequestHandle := current_of w c.
Definition finish_request (h : RequestHandle) (w : worker) : worker :=
  if current_of w (h_channel h) == Some h
  then set_requests (next_ids w) (<[h_channel h := None]> (current_of w)) (cancelled w) (fresh w) w else w.

(** ** The GUI's side of the worker *)

Definition start : M worker unit := fun w =>
  if stopping w then (raise RuntimeError "worker has already been stopped", w)
  else (Ok tt, set_life true (stopping w) (stopped w) w).
Definition submit (t : task) : M worker unit := fun w =>
  if stopping w then (raise RuntimeError "worker is stopping", w)
  else if negb (started w) then (raise RuntimeError "worker thread has not been started", w)
  else (Ok tt, set_queue (queue w ++ [t]) (set_tokens ({[token (t_handle t)]} ∪ tokens w) w)).
(** [_queue] *)
Definition queue_request (op : operation) : M worker RequestHandle :=
  let! h := issue (channel_of op) in
  mmodify (fun w => set_registered (<[token h := h]> (requests_by_token w)) w) ;!
  mtry (submit (Task op h))
    (fun e => mmodify (fun w => finish_request h (set_registered (delete (token h) (requests_by_token w)) w)) ;! mthrow e) ;!
  mret h.
(** [Worker.cancel_all] *)
Definition cancel_tokens (w : worker) : worker := set_cancelled (tokens w ∪ cancelled w) w.
(** [stop] up to waiting for the thread, and what follows when the thread has ended. A thread that was
    never started is not waited for. *)
Definition clear_requests (w : worker) : worker := set_registered ∅ w.
Definition begin_stop : M worker unit :=
  cancel_all_requests ;!
  mmodify (fun w =>
    if stopped w then clear_requests w else
    let w := cancel_tokens (set_life (started w) true (stopped w) w) in
    if started w then w else clear_requests (set_life (started w) true true w)).
Definition waiting (w : worker) : bool := stopping w && negb (stopped w).
Definition end_stop (w : worker) : worker := clear_requests (set_life (started w) true true (set_tokens ∅ w)).

(** ** The query thread *)

Section Thread.
Context (fts_match : pystr -> contents -> bool) (normalize_for_search : pystr -> pystr).

(** [get_message]: the summary shown without filters, and the other columns. *)
Definition get_detail (id : Z) (d : Db) : option MessageDetail :=
  match message_with id d with
  | Some m =>
      option_map (fun s => Detail s (get_or "" (recipient m)) (get_or "" (cc m)) (message_id m) (in_reply_to m)
                             (references_ids m) (relative_path m) (file_hash m))%string
        (summary default_filter d m)
  | None => None
  end.
(** [open_message], up to reading and rendering the file. *)
Definition open_detail (id : Z) (d : Db) : result MessageDetail :=
  match get_detail id d with
  | None => raise StorageError "Message does not exist"
  | Some x =>
      check (ms_local_state (md_summary x) != Purged) StorageError "Message EML is unavailable because it was purged" ;?
      check (md_relative_path x != None) StorageError "Message has no stored EML path" ;?
      check (md_file_hash x != None) StorageError "Message has no stored EML hash" ;?
      Ok x
  end.
(** What the use case returns for the database at that time. [list_all_messages] reads at most one page for
    every message; here all its pages are of one state of the database. *)
Definition run_operation (op : operation) (d : Db) : result value :=
  match op with
  | OpList f c limit => let? p := list_messages fts_match f c limit d in Ok (VPage p)
  | OpSearch q mode f c limit => let? p := search_messages fts_match normalize_for_search q mode f c limit d in Ok (VPage p)
  | OpCount q mode f =>
      let? plan := match q with
                   | Some q => let? p := parse_query normalize_for_search q mode in Ok (Some p)
                   | None => Ok None
                   end in
      Ok (VCount (count_messages fts_match f plan d))
  | OpThread key f => let? l := list_thread fts_match key f d in Ok (VSummaries l)
  | OpAll _ q mode f =>
      match list_all_messages fts_match normalize_for_search (S (length (messages d))) q mode f d with
      | Some r => let? l := r in Ok (VSummaries l)
      | None => raise RuntimeError "more pages than messages"
      end
  | OpMessage id => Ok (VDetail (get_detail id d))
  | OpOpen id => let? x := open_detail id d in Ok (VOpened x)
  end.
(** What happens to a step of the thread: the repository answers from a database or raises, reading and
    rendering the file of an opened message fail or not, and closing the connection fails or not. *)
Record oracle := Oracle { o_query : Db + exn; o_open : option exn; o_close : option exn }.
Definition as_mail_dock_error (e : exn) : exn := if isinstance e MailDockError then e else Exn MailDockError (exn_msg e).
Definition caught (e : exn) : outcome :=
  if isinstance e OperationCancelledError then OCancelled else OFailed (as_mail_dock_error e).
Definition notify_search_path (t : task) (slow : bool) (w : worker) : phase :=
  match current ListSearch w with Some h => Noticing t h slow | None => Running t end.
(** The handle of the token, when it is the current one of its channel. *)
Definition deliverable (t : task) (w : worker) : bool :=
  match requests_by_token w !! token (t_handle t) with
  | Some h => is_current (h_channel h) (request_id h) w
  | None => false
  end.
Definition after_emission (t : task) (o : outcome) (last : bool) : phase :=
  if last then Finishing t else Closing t (match o with OFailed _ => true | _ => false end).
Definition report (t : task) (o : outcome) : signal :=
  let h := t_handle t in
  match o with
  | OFailed e => SFailed (h_channel h) (request_id h) e
  | OCancelled => SCancelled (h_channel h) (request_id h)
  | OResult v => SResult (h_channel h) (request_id h) v
  end.
(** [_on_task_failed] reports a lost storage first. *)
Definition reporting (t : task) (o : outcome) (last : bool) : phase :=
  match o with
  | OFailed e => if isinstance e StorageDetachedError then Warning t e last else Sending t o last
  | _ => Sending t o last
  end.
(** [_on_task_completed]; the comparison and [finish] are one step, the second does the first again. *)
Definition task_completed (t : task) (w : worker) : worker :=
  let k := token (t_handle t) in
  match requests_by_token w !! k with
  | Some h => finish_request h (set_registered (delete k (requests_by_token w)) w)
  | None => set_registered (delete k (requests_by_token w)) w
  end.
Definition opened (o : oracle) (v : value) : result value :=
  match v, o_open o with VOpened _, Some e => Err e | _, _ => Ok v end.
Definition query (t : task) (o : oracle) : phase :=
  match (match o_query o with
         | inl d => let? v := run_operation (t_operation t) d in opened o v
         | inr e => Err e
         end) with
  | Ok v => Answered t v
  | Err e => Emitting t (caught e) false
  end.

(** One step of the query thread. *)
Definition thread_step (o : oracle) (w : worker) : worker :=
  match running w with
  | Idle =>
      match queue w with
      | [] => w
      | t :: q =>
          if stopping w || negb (bool_decide (token (t_handle t) ∈ tokens w))
          then set_queue q (set_tokens (tokens w ∖ {[token (t_handle t)]}) w)
          else set_running (Starting t) (set_queue q w)
      end
  | Starting t =>
      set_running (if bool_decide (token (t_handle t) ∈ cancelled w) then Emitting t OCancelled false else Checking t) w
  | Checking t =>
      set_running (if is_current (h_channel (t_handle t)) (request_id (t_handle t)) w
                   then Guarded t else Emitting t OCancelled false) w
  | Guarded t =>
      set_running (if bool_decide (token (t_handle t) ∈ cancelled w) then Emitting t OCancelled false else Planning t) w
  | Planning t =>
      match t_operation t with
      | OpSearch q mode _ _ _ =>
          match parse_query normalize_for_search q mode with
          | Ok plan => set_running (notify_search_path t (has_slow_path plan) w) w
          | Err e => set_running (Emitting t (caught e) false) w
          end
      | _ => set_running (Running t) w
      end
  | Noticing t h slow => set_running (Running t) (emit (SPath (h_channel h) (request_id h) slow) w)
  | Running t => set_running (query t o) w
  | Answered t v =>
      set_running (Emitting t (if is_current (h_channel (t_handle t)) (request_id (t_handle t)) w
                               then OResult v else OCancelled) false) w
  | Emitting t x last =>
      set_running (if deliverable t w
                   then match x with OResult _ => Sending t x last | _ => Reporting t x last end
                   else after_emission t x last) w
  | Reporting t x last =>
      set_running (if deliverable t w then reporting t x last else after_emission t x last) w
  | Warning t e last => set_running (Sending t (OFailed e) last) (emit (SDetached e) w)
  | Sending t x last => set_running (after_emission t x last) (emit (report t x) w)
  | Closing t failed =>
      let w := set_tokens (tokens w ∖ {[token (t_handle t)]}) w in
      match o_close o with
      | Some e => set_running (if failed then Finishing t else Emitting t (OFailed (as_mail_dock_error e)) true) w
      | None => set_running (Finishing t) w
      end
  | Finishing t => set_running Idle (task_completed t w)
  end.

(** The steps of the two threads. While [stop] waits for the thread, the GUI does nothing else; the thread
    has ended when it is idle then. *)
Variant step : worker -> worker -> Prop :=
  | step_request w op : waiting w = false -> step w (queue_request op w).2
  | step_cancel w c : waiting w = false -> step w (cancel c w).2
  | step_start w : waiting w = false -> step w (start w).2
  | step_stop w : waiting w = false -> step w (begin_stop w).2
  | step_ended w : waiting w = true -> running w = Idle -> step w (end_stop w)
  | step_thread w o : started w = true -> stopped w = false -> step w (thread_step o w).
Definition reachable (w : worker) : Prop := rtc step initial w.
End Thread.

(** ** Invariants *)

Definition task_of (p : phase) : option task :=
  match p with
  | Idle => None
  | Starting t | Checking t | Guarded t | Planning t | Noticing t _ _ | Running t | Answered t _ | Emitting t _ _
  | Reporting t _ _ | Warning t _ _ | Sending t _ _ | Closing t _ | Finishing t => Some t
  end.
(** The tasks that are not completed, in their order. *)
Definition underway (w : worker) : list task := option_list (task_of (running w)) ++ queue w.
Definition task_token (t : task) : nat := token (t_handle t).
Record ok (w : worker) : Prop := Wf {
  ok_current : forall c h, current_of w c = Some h ->
    h_channel h = c /\ request_id h = next_ids w c /\ token h < fresh w;
  ok_task : forall t, t ∈ underway w ->
    task_token t < fresh w /\ (stopped w = false -> requests_by_token w !! task_token t = Some (t_handle t));
  ok_registered : forall k h, requests_by_token w !! k = Some h -> token h = k;
  ok_distinct : NoDup (map task_token (underway w));
  ok_superseded : forall t, t ∈ underway w ->
    current_of w (h_channel (t_handle t)) = Some (t_handle t) \/ task_token t ∈ cancelled w;
}.

Lemma ok_initial : ok initial.
Proof. split; cbn; try done; [intros ? H%elem_of_nil; done|constructor|intros ? H%elem_of_nil; done]. Qed.

(** Steps that change only tokens, flags and signals. *)
Lemma ok_same w w' : ok w -> next_ids w' = next_ids w -> current_of w' = current_of w -> cancelled w ⊆ cancelled w' ->
  fresh w' = fresh w -> requests_by_token w' = requests_by_token w -> (stopped w' = false -> stopped w = false) ->
  underway w' = underway w -> ok w'.
Proof.
  intros [H1 H2 H3 H4 H5] En Ec Ex Ef Er Es Eu. split; rewrite ?En, ?Ec, ?Ef, ?Er, ?Eu; try done.
  - intros t Ht. destruct (H2 t Ht). auto.
  - intros t Ht. destruct (H5 t Ht); [by left|right; set_solver].
Qed.
Lemma cancel_handle_mono o x : x ⊆ cancel_handle o x.
Proof. destruct o; set_solver. Qed.
Lemma ok_cancel c w : ok w -> ok (cancel c w).2.
Proof. intros H. apply (ok_same w); try done. apply cancel_handle_mono. Qed.
Lemma ok_cancel_all w : ok w -> ok (cancel_all_requests w).2.
Proof.
  intros H. apply (ok_same w); try done. cbn. intros x Hx.
  repeat (apply cancel_handle_mono). exact Hx.
Qed.
(** Finishing a request that no task needs. *)
Lemma ok_finish h w : ok w -> (forall t, t ∈ underway w -> task_token t <> token h) -> ok (finish_request h w).
Proof.
  intros [H1 H2 H3 H4 H5] Hh. unfold finish_request. destruct (current_of w (h_channel h) == Some h) eqn:E; [|by split].
  apply eqb_true_1 in E. split; cbn; try done.
  - intros c h'. destruct (decide (h_channel h = c)) as [<-|Hc]; [by rewrite fn_lookup_insert|].
    rewrite fn_lookup_insert_ne by done. apply H1.
  - intros t Ht. destruct (H5 t Ht) as [Hc|]; [left|by right].
    rewrite fn_lookup_insert_ne; [done|]. intros Ee. apply (Hh t Ht). unfold task_token. congruence.
Qed.
Lemma ok_unregister k w : ok w -> (stopped w = true \/ forall t, t ∈ underway w -> task_token t <> k) ->
  ok (set_registered (delete k (requests_by_token w)) w).
Proof.
  intros [H1 H2 H3 H4 H5] Hk. split; cbn; try done.
  - intros t Ht. destruct (H2 t Ht) as [H6 H7]. split; [done|]. intros Hs.
    rewrite lookup_delete_ne; [auto|]. destruct Hk as [Hk|Hk]; [congruence|]. intros ->. by apply (Hk t Ht).
  - intros k' h. rewrite lookup_delete_Some. intros [_ ?]. auto.
Qed.
(** Issuing and registering a request. *)
Definition issued (c : channel) (w : worker) : worker :=
  let h := Handle c (next_ids w c + 1) (fresh w) in
  set_registered (<[token h := h]> (requests_by_token w)) (issue c w).2.
Lemma ok_issued c w : ok w -> ok (issued c w) /\ forall t, t ∈ underway (issued c w) -> task_token t <> fresh w.
Proof.
  intros [H1 H2 H3 H4 H5]. assert (forall t, t ∈ underway w -> task_token t <> fresh w) as Hf.
  { intros t Ht. destruct (H2 t Ht). lia. }
  split; [|done]. split; cbn.
  - intros c' h. destruct (decide (c = c')) as [<-|Hc].
    + rewrite !fn_lookup_insert. intros [= <-]. cbn. split_and!; [done|done|lia].
    + rewrite !fn_lookup_insert_ne by done. intros Hh%H1. split_and!; try apply Hh. lia.
  - intros t Ht. destruct (H2 t Ht). split; [lia|]. intros Hs. rewrite lookup_insert_ne by (by apply not_eq_sym, Hf). auto.
  - intros k h. rewrite lookup_insert_Some. intros [[<- <-]|[_ ?]]; auto.
  - done.
  - intros t Ht. destruct (H5 t Ht) as [Hc|]; [|right; by apply cancel_handle_mono].
    destruct (decide (c = h_channel (t_handle t))) as [->|Hne].
    + right. rewrite Hc. cbn. unfold task_token. set_solver.
    + left. by rewrite fn_lookup_insert_ne.
Qed.
Lemma queue_request_cases op w :
  let w1 := issued (channel_of op) w in
  let h := Handle (channel_of op) (next_ids w (channel_of op) + 1) (fresh w) in
  (stopping w = false /\ started w = true
   /\ queue_request op w = (Ok h, set_queue (queue w1 ++ [Task op h]) (set_tokens ({[token h]} ∪ tokens w1) w1)))
  \/ exists e, queue_request op w
       = (Err e, finish_request h (set_registered (delete (token h) (requests_by_token w1)) w1)).
Proof.
  unfold queue_request, mbnd, mtry, submit, mmodify, mthrow. cbn -[finish_request].
  destruct (stopping w) eqn:Es; [right; by eexists|]. destruct (started w) eqn:Ed; [left|right; by eexists]. by split_and!.
Qed.
Lemma ok_request op w : ok w -> ok (queue_request op w).2.
Proof.
  intros Hok. destruct (ok_issued (channel_of op) w Hok) as [H Hf].
  destruct (queue_request_cases op w) as [(_ & _ & ->)|[e ->]]; cbn [snd].
  - destruct H as [H1 H2 H3 H4 H5]. assert (forall t, t ∈ underway (issued (channel_of op) w) ++ [Task op
      (Handle (channel_of op) (next_ids w (channel_of op) + 1) (fresh w))] <-> t ∈ underway (issued (channel_of op) w)
      \/ t = Task op (Handle (channel_of op) (next_ids w (channel_of op) + 1) (fresh w))) as Hin
      by (intros t; by rewrite elem_of_app, list_elem_of_singleton).
    split; try done; unfold underway in *; cbn [running queue set_queue set_tokens] in *; rewrite app_assoc.
    + intros t [Ht| ->]%Hin; [by apply H2|]. cbn. split; [unfold task_token; cbn; lia|].
      intros _. unfold task_token. cbn. by rewrite lookup_insert_eq.
    + rewrite map_app. apply NoDup_app. split; [exact H4|]. split; [|apply NoDup_singleton].
      intros k Hk%list_elem_of_fmap ->%list_elem_of_singleton. destruct Hk as (t & E & Ht). by apply (Hf t Ht).
    + intros t [Ht| ->]%Hin; [by apply H5|]. left. cbn. by rewrite fn_lookup_insert.
  - apply ok_finish; [apply ok_unregister; [done|right]|]; exact Hf.
Qed.
Lemma ok_begin_stop w : ok w -> ok (begin_stop w).2.
Proof.
  intros H%ok_cancel_all. unfold begin_stop, mbnd. destruct (cancel_all_requests w) as [[[]|e] w1] eqn:E; [|exact H].
  cbn [snd] in H. cbn.
  assert (forall w, ok w -> stopped w = true -> ok (clear_requests w)) as Hclear.
  { clear. intros w [H1 H2 H3 H4 H5] Hs. split; cbn; try done. intros t Ht. destruct (H2 t Ht). by rewrite Hs. }
  destruct (stopped w1) eqn:Es; [by apply Hclear|].
  assert (ok (cancel_tokens (set_life (started w1) true (stopped w1) w1))) as Hc by (apply (ok_same w1); try done; set_solver).
  rewrite Es in Hc. cbn [started cancel_tokens set_cancelled set_requests set_life]. destruct (started w1); [exact Hc|].
  apply Hclear; [|done]. apply (ok_same _ _ Hc); done.
Qed.
Lemma ok_end_stop w : ok w -> ok (end_stop w).
Proof. intros [H1 H2 H3 H4 H5]. split; cbn; try done. intros t Ht. destruct (H2 t Ht). done. Qed.

Section ThreadFacts.
Context (fts_match : pystr -> contents -> bool) (normalize_for_search : pystr -> pystr).
Notation thread_step := (thread_step fts_match normalize_for_search).
Notation step := (step fts_match normalize_for_search).

(** Changing the place of the running task, and emitting. *)
Lemma ok_move p w : ok w -> task_of p = task_of (running w) -> ok (set_running p w).
Proof. intros H Hp. apply (ok_same w); try done. unfold underway. cbn. by rewrite Hp. Qed.
Lemma ok_emit s w : ok w -> ok (emit s w).
Proof. intros H. by apply (ok_same w). Qed.
(** The running task leaves. *)
Lemma ok_leave t w : ok w -> task_of (running w) = Some t -> ok (set_running Idle w).
Proof.
  intros [H1 H2 H3 H4 H5] Ht.
  assert (forall t', t' ∈ queue w -> t' ∈ underway w) as Hin by (intros t' Hq; unfold underway; apply elem_of_app; by right).
  split; try done; unfold underway; cbn; intros; auto.
  unfold underway in H4. rewrite Ht in H4. cbn in H4. by apply NoDup_cons in H4 as [_ H4].
Qed.
Lemma ok_completed t w : ok w -> stopped w = false -> running w = Finishing t -> ok (set_running Idle (task_completed t w)).
Proof.
  intros H Hs Hr. assert (task_of (running w) = Some t) as Ht by (by rewrite Hr).
  assert (forall t', t' ∈ queue w -> task_token t' <> task_token t) as Hd.
  { destruct H as [_ _ _ H4 _]. unfold underway in H4. rewrite Ht in H4. cbn in H4. apply NoDup_cons in H4 as [H4 _].
    intros t' Hq E. apply H4. rewrite <- E. by apply list_elem_of_fmap_2. }
  assert (requests_by_token w !! task_token t = Some (t_handle t)) as Hreg.
  { destruct (ok_task w H t); [|auto]. unfold underway. rewrite Ht. by left. }
  unfold task_completed. unfold task_token in Hreg. rewrite Hreg.
  set (w1 := set_running Idle w). assert (ok w1) as H1 by (by apply (ok_leave t)).
  replace (set_running Idle _) with (finish_request (t_handle t) (set_registered (delete (task_token t) (requests_by_token w1)) w1))
    by (unfold finish_request; cbn; by destruct (_ == _)).
  apply ok_finish; [apply ok_unregister; [done|right]|]; exact Hd.
Qed.

Lemma ok_thread o w : ok w -> stopped w = false -> ok (thread_step o w).
Proof.
  intros H Hs. unfold Requests.thread_step. destruct (running w) as [|t|t|t|t|t h' slow|t|t v|t x l|t x l|t e l|t x l|t f|t] eqn:Er.
  - destruct (queue w) as [|t q] eqn:Eq; [done|]. destruct (stopping w || _)%bool.
    + destruct H as [H1 H2 H3 H4 H5]. unfold underway in *. rewrite Er, Eq in *. cbn in H2, H4, H5.
      apply NoDup_cons in H4 as [_ H4].
      assert (forall t', t' ∈ q -> t' ∈ t :: q) as Hin by (intros; by right).
      split; try done; unfold underway; cbn; rewrite ?Er; cbn; intros; auto.
    + apply (ok_same w); try done. unfold underway. cbn. by rewrite Er, Eq.
  - apply ok_move; [done|]. rewrite Er. by destruct (bool_decide _).
  - apply ok_move; [done|]. rewrite Er. by destruct (is_current _ _ _).
  - apply ok_move; [done|]. rewrite Er. by destruct (bool_decide _).
  - destruct (t_operation t); try (apply ok_move; [done|by rewrite Er]).
    destruct (parse_query _ _ _) as [plan|e]; (apply ok_move; [done|]); rewrite Er; [|done].
    unfold notify_search_path. by destruct (current _ _).
  - apply ok_move; [by apply ok_emit|]. cbn. by rewrite Er.
  - apply ok_move; [done|]. rewrite Er. unfold query. by destruct (match o_query o with inl _ => _ | inr _ => _ end).
  - apply ok_move; [done|]. by rewrite Er.
  - apply ok_move; [done|]. rewrite Er. unfold after_emission. destruct (deliverable t w); [by destruct x|by destruct l].
  - apply ok_move; [done|]. rewrite Er. unfold after_emission, reporting.
    destruct (deliverable t w); [|by destruct l]. destruct x as [v|e|]; try done. by destruct (isinstance _ _).
  - apply ok_move; [by apply ok_emit|]. cbn. by rewrite Er.
  - apply ok_move; [by apply ok_emit|]. cbn. rewrite Er. unfold after_emission. by destruct l.
  - assert (ok (set_tokens (tokens w ∖ {[token (t_handle t)]}) w)) as H' by (by apply (ok_same w)).
    destruct (o_close o); [destruct f|]; (apply ok_move; [done|]; cbn; by rewrite Er).
  - by apply ok_completed.
Qed.
Lemma ok_step w w' : ok w -> step w w' -> ok w'.
Proof.
  intros H Hst. revert H. destruct Hst as [w1 op Hw|w1 c Hw|w1 Hw|w1 Hw|w1 Hw Hr|w1 o Hs Hd]; intros H.
  - by apply ok_request.
  - by apply ok_cancel.
  - unfold start. destruct (stopping w1); [done|]. by apply (ok_same w1).
  - by apply ok_begin_stop.
  - by apply ok_end_stop.
  - by apply ok_thread.
Qed.
Lemma ok_steps w w' : ok w -> rtc step w w' -> ok w'.
Proof. intros H Hs. induction Hs as [|x y z Hxy _ IH]; [done|]. by apply IH, (ok_step x). Qed.
Lemma ok_reachable w : reachable fts_match normalize_for_search w -> ok w.
Proof. apply ok_steps, ok_initial. Qed.

(** ** The newest request is answered *)

Definition answers (h : RequestHandle) (s : signal) : Prop :=
  match s with
  | SResult c id _ | SFailed c id _ | SCancelled c id => c = h_channel h /\ id = request_id h
  | SPath _ _ _ | SDetached _ => False
  end.
Definition answered (h : RequestHandle) (w : worker) : Prop := exists s, s ∈ signals w /\ answers h s.
(** The task whose answer the thread still owes. *)
Definition unanswered (p : phase) : option task :=
  match p with
  | Starting t | Checking t | Guarded t | Planning t | Noticing t _ _ | Running t | Answered t _ | Emitting t _ false
  | Reporting t _ false | Warning t _ false | Sending t _ false => Some t
  | _ => None
  end.
Definition owed (h : RequestHandle) (w : worker) : Prop :=
  current_of w (h_channel h) = Some h /\ requests_by_token w !! token h = Some h
  /\ ((exists op, Task op h ∈ queue w /\ token h ∈ tokens w) \/ exists op, unanswered (running w) = Some (Task op h)).
(** While it is the newest of its channel, the request is answered or its answer is still owed. *)
Definition served (h : RequestHandle) (w : worker) : Prop :=
  (request_id h <= next_ids w (h_channel h))%Z /\ token h < fresh w
  /\ (next_ids w (h_channel h) = request_id h -> stopping w = true \/ answered h w \/ owed h w).

Lemma answered_emit h s w : answered h w -> answered h (emit s w).
Proof. intros (x & Hx & Ha). exists x. split; [|done]. cbn. apply elem_of_app. by left. Qed.
Lemma report_answers op h o w : answered h (emit (report (Task op h) o) w).
Proof.
  exists (report (Task op h) o). split; [cbn; apply elem_of_app; right; by apply list_elem_of_singleton|by destruct o].
Qed.
Lemma served_request h op w : ok w -> served h w -> served h (queue_request op w).2.
Proof.
  intros Hok (H1 & H2 & H3). set (c := channel_of op).
  assert (h_channel h = c -> next_ids w c + 1 <> request_id h)%Z as Hne by (intros <-; lia).
  destruct (queue_request_cases op w) as [(Hs & Hd & ->)|[e ->]]; cbn [snd]; fold c.
  - unfold served, owed. cbn. destruct (decide (c = h_channel h)) as [Hc|Hc].
    + rewrite <- Hc, !fn_lookup_insert. rewrite <- Hc in H1. split_and!; [lia|lia|]. intros E. by destruct (Hne (eq_sym Hc)).
    + rewrite !fn_lookup_insert_ne by done. split_and!; [lia|lia|]. intros E. destruct (H3 E) as [?|[Ha|(Hcur & Hreg & Hq)]]; [by left|by right; left|].
      right. right. split; [done|]. rewrite lookup_insert_ne by lia. split; [done|].
      destruct Hq as [(op' & Hq & Ht)|?]; [left|by right]. exists op'. split; [by apply elem_of_app; left|set_solver].
  - assert (forall w1, served h w1 -> h_channel h <> c -> served h (finish_request (Handle c (next_ids w c + 1) (fresh w)) w1)) as Hfin.
    { intros w1 Hw Hc. unfold finish_request. cbn. destruct (_ == _); [|done]. unfold served, owed, answered in *. cbn.
      by rewrite fn_lookup_insert_ne by done. }
    destruct (decide (c = h_channel h)) as [Hc|Hc].
    + unfold finish_request. cbn. rewrite !fn_lookup_insert, Prelude.eqb_refl. unfold served. cbn. rewrite <- Hc, fn_lookup_insert.
      rewrite <- Hc in H1. split_and!; [lia|lia|]. intros E. by destruct (Hne (eq_sym Hc)).
    + apply Hfin; [|done]. unfold served, owed, answered in *. cbn. rewrite !fn_lookup_insert_ne by done. split_and!; [lia|lia|].
      intros E. destruct (H3 E) as [?|[Ha|(Hcur & Hreg & Hq)]]; [by left|by right; left|]. right. right. split; [done|].
      rewrite lookup_delete_ne, lookup_insert_ne by lia. done.
Qed.
Lemma served_queued op w h w1 : ok w -> queue_request op w = (Ok h, w1) -> served h w1 /\ h_channel h = channel_of op.
Proof.
  intros Hok E. destruct (queue_request_cases op w) as [(Hs & Hd & E')|[e E']]; rewrite E' in E; [|done].
  injection E as <- <-. split; [|done]. unfold served, owed. cbn. rewrite !fn_lookup_insert, lookup_insert_eq. split_and!; [lia|lia|].
  intros _. right. right. split; [done|]. split; [done|]. left. exists op. split; [apply elem_of_app; right; by apply list_elem_of_singleton|set_solver].
Qed.
(** What a step of the thread leaves. *)
Record thread_frame (w w' : worker) : Prop := Frame {
  fr_next : next_ids w' = next_ids w;
  fr_fresh : fresh w' = fresh w;
  fr_life : started w' = started w /\ stopping w' = stopping w /\ stopped w' = stopped w;
  fr_signals : exists l, signals w' = signals w ++ l;
}.
Lemma frame_running p w : thread_frame w (set_running p w).
Proof. split; try done. exists []. cbn. by rewrite app_nil_r. Qed.
Lemma frame_trans w1 w2 w3 : thread_frame w1 w2 -> thread_frame w2 w3 -> thread_frame w1 w3.
Proof.
  intros [H1 H2 (H3 & H4 & H5) [l Hl]] [K1 K2 (K3 & K4 & K5) [k Hk]]. split; try congruence.
  - split_and!; congruence.
  - exists (l ++ k). by rewrite Hk, Hl, app_assoc.
Qed.
Lemma frame_emit s w : thread_frame w (emit s w).
Proof. split; try done. by exists [s]. Qed.
Lemma frame_tokens k w : thread_frame w (set_tokens k w).
Proof. split; try done. exists []. cbn. by rewrite app_nil_r. Qed.
Lemma frame_completed t w : thread_frame w (task_completed t w).
Proof.
  unfold task_completed, finish_request. split; repeat (case_match; try done); (exists []; cbn; by rewrite app_nil_r).
Qed.
Lemma thread_step_frame o w : thread_frame w (thread_step o w).
Proof.
  unfold Requests.thread_step. destruct (running w) as [|t|t|t|t|t h' slow|t|t v|t x l|t x l|t e l|t x l|t f|t]; try apply frame_running.
  - destruct (queue w) as [|t q]; [split; try done; exists []; by rewrite app_nil_r|].
    destruct (_ || _)%bool; (split; try done; exists []; cbn; by rewrite app_nil_r).
  - destruct (t_operation t); try apply frame_running. destruct (parse_query _ _ _); apply frame_running.
  - eapply frame_trans; [apply frame_emit|apply frame_running].
  - eapply frame_trans; [apply frame_emit|apply frame_running].
  - eapply frame_trans; [apply frame_emit|apply frame_running].
  - eapply frame_trans; [apply frame_tokens|]. destruct (o_close o); [destruct f|]; apply frame_running.
  - eapply frame_trans; [apply frame_completed|apply frame_running].
Qed.

(** An answer that is owed for a queued task stays owed. *)
Lemma owed_queued h w w' : owed h w -> unanswered (running w) = None -> current_of w' (h_channel h) = current_of w (h_channel h) ->
  requests_by_token w' !! token h = requests_by_token w !! token h ->
  (forall op, Task op h ∈ queue w -> token h ∈ tokens w -> (Task op h ∈ queue w' /\ token h ∈ tokens w') \/ unanswered (running w') = Some (Task op h)) ->
  owed h w'.
Proof.
  intros (Hc & Hr & [(op & Hq & Ht)|[op Hu]]) Hn Ec Er Hk; [|congruence]. split; [by rewrite Ec|]. split; [by rewrite Er|].
  destruct (Hk op Hq Ht) as [?|?]; [left|right]; by exists op.
Qed.
Lemma queued_token t op h w : ok w -> task_of (running w) = Some t -> Task op h ∈ queue w -> task_token t <> token h.
Proof.
  intros [_ _ _ H _] Ht Hq E. unfold underway in H. rewrite Ht in H. cbn in H. apply NoDup_cons in H as [H _]. apply H.
  rewrite E. apply list_elem_of_fmap. by exists (Task op h).
Qed.
Lemma owed_current h w : ok w -> owed h w -> is_current (h_channel h) (request_id h) w = true.
Proof. intros _ (Hc & _). unfold is_current. rewrite Hc. apply Z.eqb_refl. Qed.
Lemma owed_deliverable h op w : ok w -> owed h w -> deliverable (Task op h) w = true.
Proof.
  intros Hok Ho. unfold deliverable. cbn. destruct (Ho) as (_ & Hr & _). rewrite Hr. by apply owed_current.
Qed.
(** The thread goes on with the task whose answer is owed. *)
Lemma owed_moved h p w : owed h w ->
  (forall t, unanswered (running w) = Some t -> unanswered p = Some t) -> owed h (set_running p w).
Proof.
  intros (Hc & Hr & Ho) Hp. split; [done|]. split; [done|]. destruct Ho as [?|[op Hu]]; [by left|right].
  exists op. cbn. by apply Hp.
Qed.
Lemma owed_emit h s w : owed h w -> owed h (emit s w).
Proof. done. Qed.

(** A signal is sent for the running task: it is the owed answer, or the answer stays owed. *)
Lemma owed_sent h t x last w : owed h w -> unanswered (running w) = (if last : bool then None else Some t) ->
  answered h (set_running (after_emission t x last) (emit (report t x) w))
  \/ owed h (set_running (after_emission t x last) (emit (report t x) w)).
Proof.
  intros Ho Hu. destruct (Ho) as (Hc & Hr & [(op & Hq & Hk)|[op Ho']]).
  - right. split; [|split; [|left; exists op]]; done.
  - destruct last; [congruence|]. rewrite Hu in Ho'. injection Ho' as ->. left.
    destruct (report_answers op h x w) as (s & Hs & Ha). by exists s.
Qed.
Lemma owed_skipped h t x last w : ok w -> owed h w -> deliverable t w = false ->
  unanswered (running w) = (if last : bool then None else Some t) ->
  owed h (set_running (after_emission t x last) w).
Proof.
  intros Hok Ho Hd Hu. destruct (Ho) as (Hc & Hr & [(op & Hq & Hk)|[op Ho']]).
  - split; [done|]. split; [done|]. left. by exists op.
  - exfalso. destruct last; [congruence|]. rewrite Hu in Ho'. injection Ho' as ->. by rewrite (owed_deliverable h op w) in Hd.
Qed.
Lemma owed_thread o h w : ok w -> stopping w = false -> owed h w ->
  answered h (thread_step o w) \/ owed h (thread_step o w).
Proof.
  intros Hok Hs Ho. unfold Requests.thread_step. destruct (running w) as [|t|t|t|t|t h' slow|t|t v|t x l|t x l|t e l|t x l|t f|t] eqn:Er;
    try (right; apply owed_moved; [done|]; rewrite Er; cbn; intros ? [= <-]; unfold query; repeat case_match; done).
  - right. destruct (queue w) as [|t q] eqn:Eq; [done|]. rewrite Hs. cbn [orb].
    assert (forall op, Task op h ∈ queue w -> token h ∈ tokens w -> Task op h = t \/ Task op h ∈ q) as Hin
      by (intros op; rewrite Eq; by intros [?|?]%elem_of_cons; [left|right]).
    case_bool_decide as Ht; cbn [negb].
    + apply (owed_queued h w); [done|by rewrite Er|done|done|]. cbn. intros op Hq Hk.
      destruct (Hin op Hq Hk) as [->|?]; [by right|by left].
    + apply (owed_queued h w); [done|by rewrite Er|done|done|]. cbn. intros op Hq Hk. left.
      destruct (Hin op Hq Hk) as [<-|Hq']; [done|]. split; [done|]. apply elem_of_difference. split; [done|].
      intros E%elem_of_singleton. by rewrite E in Hk.
  - right. destruct (t_operation t); try (apply owed_moved; [done|]; rewrite Er; cbn; by intros ? [= <-]).
    destruct (parse_query _ _ _) as [plan|e]; (apply owed_moved; [done|]; rewrite Er; cbn; intros ? [= <-]); [|done].
    unfold notify_search_path. by destruct (current _ _).
  - right. apply owed_moved; [done|]. cbn. rewrite Er. done.
  - right. destruct (deliverable t w) eqn:Ed; [|by apply owed_skipped; [done..|rewrite Er; destruct l]].
    apply owed_moved; [done|]. rewrite Er. destruct x; by destruct l.
  - right. destruct (deliverable t w) eqn:Ed; [|by apply owed_skipped; [done..|rewrite Er; destruct l]].
    apply owed_moved; [done|]. rewrite Er. unfold reporting. destruct x as [v|e|]; [|destruct (isinstance _ _)|]; by destruct l.
  - right. apply owed_moved; [done|]. cbn. rewrite Er. by destruct l.
  - apply owed_sent; [done|]. rewrite Er. by destruct l.
  - right. assert (forall p, owed h (set_running p (set_tokens (tokens w ∖ {[token (t_handle t)]}) w))) as Hp.
    { intros p. apply (owed_queued h w); [done|by rewrite Er|done|done|]. cbn. intros op Hq Hk. left. split; [done|].
      apply elem_of_difference. split; [done|]. intros E%elem_of_singleton.
      apply (queued_token t op h w); [done|by rewrite Er|done|]. by rewrite E. }
    destruct (o_close o); [destruct f|]; apply Hp.
  - right. destruct (Ho) as (Hc & Hr & [(op & Hq & Hk)|[op Hu]]); [|by rewrite Er in Hu].
    assert (task_token t <> token h) as Hne by (apply (queued_token t op h w); [done|by rewrite Er|done]).
    unfold task_completed, task_token in *. unfold owed.
    destruct (requests_by_token w !! token (t_handle t)) as [h'|] eqn:E.
    + apply (ok_registered w Hok) in E. assert (h' <> h) as Hh by (intros ->; by rewrite E in Hne).
      unfold finish_request. cbn. destruct (current_of w (h_channel h') == Some h') eqn:Ec; cbn.
      * apply eqb_true_1 in Ec. rewrite lookup_delete_ne by done. split_and!; [|done|left; by exists op].
        rewrite fn_lookup_insert_ne; [done|]. intros Ee. rewrite Ee in Ec. congruence.
      * rewrite lookup_delete_ne by done. split_and!; [done|done|left; by exists op].
    + cbn. rewrite lookup_delete_ne by done. split_and!; [done|done|left; by exists op].
Qed.
Lemma served_thread o h w : ok w -> served h w -> served h (thread_step o w).
Proof.
  intros Hok (H1 & H2 & H3). destruct (thread_step_frame o w) as [En Ef (_ & Es & _) [l El]].
  unfold served. rewrite En, Ef, Es. split_and!; [done|done|]. intros E. destruct (stopping w) eqn:Hs; [by left|right].
  destruct (H3 E) as [?|[(s & Hin & Ha)|Ho]]; [done| |by apply owed_thread].
  left. exists s. split; [|done]. rewrite El. apply elem_of_app. by left.
Qed.
(** A worker that has stopped is stopping. *)
Definition ordered (w : worker) : Prop := stopped w = true -> stopping w = true.
Lemma life_request op w : stopped (queue_request op w).2 = stopped w /\ stopping (queue_request op w).2 = stopping w
  /\ started (queue_request op w).2 = started w.
Proof.
  destruct (queue_request_cases op w) as [(_ & _ & ->)|[e ->]]; [done|]. cbn [snd]. unfold finish_request. by destruct (_ == _).
Qed.
Lemma ordered_step w w' : ordered w -> step w w' -> ordered w'.
Proof.
  unfold ordered. intros H Hst. revert H. destruct Hst as [w1 op Hw|w1 c Hw|w1 Hw|w1 Hw|w1 Hw Hr|w1 o Hs Hd]; intros H.
  - by destruct (life_request op w1) as (-> & -> & _).
  - exact H.
  - unfold start. destruct (stopping w1) eqn:E; cbn; rewrite ?E; [done|exact H].
  - unfold begin_stop, mbnd. cbn. destruct (stopped w1) eqn:Es; cbn; [rewrite Es; auto|]. by destruct (started w1).
  - done.
  - by destruct (thread_step_frame o w1) as [_ _ (_ & -> & ->) _].
Qed.
Lemma stopping_begin_stop w : ordered w -> stopping (begin_stop w).2 = true.
Proof. intros H. unfold begin_stop, mbnd. cbn. destruct (stopped w) eqn:Es; cbn; [by apply H|]. by destruct (started w). Qed.
Lemma served_step h w w' : ok w -> ordered w -> served h w -> step w w' -> served h w'.
Proof.
  intros Hok Hl Hh Hst. revert Hok Hl Hh. destruct Hst as [w1 op Hw|w1 c Hw|w1 Hw|w1 Hw|w1 Hw Hr|w1 o Hs Hd]; intros Hok Hl Hh.
  - by apply served_request.
  - exact Hh.
  - unfold start. destruct (stopping w1) eqn:E; [exact Hh|]. unfold served in *. cbn. rewrite E in Hh. exact Hh.
  - destruct Hh as (H1 & H2 & _). assert (forall w2, next_ids w2 = next_ids w1 -> fresh w2 = fresh w1 -> stopping w2 = true -> served h w2) as Hx.
    { intros w2 E1 E2 E3. unfold served. rewrite E1, E2. split_and!; [done|done|by left]. }
    apply Hx; [| |by apply stopping_begin_stop]; unfold begin_stop, mbnd; cbn; destruct (stopped w1); try done; cbn; by destruct (started w1).
  - destruct Hh as (H1 & H2 & _). split_and!; [done|done|by left].
  - by apply served_thread.
Qed.
Lemma served_steps h w w' : ok w -> ordered w -> served h w -> rtc step w w' -> served h w'.
Proof.
  intros Hok Hl Hh Hs. revert Hok Hl Hh. induction Hs as [|x y z Hxy _ IH]; [done|]. intros Hok Hl Hh.
  apply IH; [by apply (ok_step x)|by apply (ordered_step x)|by apply (served_step h x)].
Qed.
Lemma ordered_steps w w' : ordered w -> rtc step w w' -> ordered w'.
Proof. intros H Hs. induction Hs as [|x y z Hxy _ IH]; [done|]. by apply IH, (ordered_step x). Qed.

(** ** The thread settles *)

Definition rank (p : phase) : nat :=
  match p with
  | Idle => 0 | Finishing _ => 1 | Sending _ _ true => 2 | Warning _ _ true => 3 | Reporting _ _ true => 4
  | Emitting _ _ true => 5 | Closing _ _ => 6 | Sending _ _ false => 7 | Warning _ _ false => 8
  | Reporting _ _ false => 9 | Emitting _ _ false => 10 | Answered _ _ => 11 | Running _ => 12 | Noticing _ _ _ => 13
  | Planning _ => 14 | Guarded _ => 15 | Checking _ => 16 | Starting _ => 17
  end.
(** The steps that the thread has to make at most. *)
Definition work (w : worker) : nat := 18 * length (queue w) + rank (running w).
Definition settle (o : oracle) (w : worker) : worker := Nat.iter (work w) (thread_step o) w.
Lemma work_step o w : work (thread_step o w) = 0 \/ work (thread_step o w) < work w.
Proof.
  unfold Requests.thread_step, work. destruct (running w) as [|t|t|t|t|t h' slow|t|t v|t x l|t x l|t e l|t x l|t f|t] eqn:Er; cbn [rank].
  - destruct (queue w) as [|t q] eqn:Eq; [left; by rewrite Eq, Er|]. right. destruct (_ || _)%bool; cbn; [rewrite Er; cbn|]; lia.
  - right. cbn. destruct (bool_decide _); cbn; lia.
  - right. cbn. destruct (is_current _ _ _); cbn; lia.
  - right. cbn. destruct (bool_decide _); cbn; lia.
  - right. destruct (t_operation t); cbn [set_running queue running rank]; try lia.
    destruct (parse_query _ _ _); cbn [set_running queue running rank]; [|lia].
    unfold notify_search_path. destruct (current _ _); cbn; lia.
  - right. cbn. lia.
  - right. cbn. unfold query. destruct (match o_query o with inl _ => _ | inr _ => _ end); cbn; lia.
  - right. cbn. lia.
  - right. cbn. unfold after_emission. destruct (deliverable t w); [destruct x|]; destruct l; cbn [rank]; lia.
  - right. cbn. unfold after_emission, reporting.
    destruct (deliverable t w); [destruct x as [v|e|]; [|destruct (isinstance _ _)|]|]; destruct l; cbn [rank]; lia.
  - right. cbn. destruct l; cbn [rank]; lia.
  - right. cbn. unfold after_emission. destruct l; cbn [rank]; lia.
  - right. destruct (o_close o); [destruct f|]; cbn; lia.
  - right. cbn. unfold task_completed, finish_request. repeat case_match; cbn; lia.
Qed.
Lemma settle_zero o n w : work w <= n -> work (Nat.iter n (thread_step o) w) = 0.
Proof.
  assert (forall n w, work w = 0 -> work (Nat.iter n (thread_step o) w) = 0) as H0.
  { clear n w. induction n as [|n IH]; intros w Hw; [done|]. rewrite Nat.iter_succ. pose proof (IH w Hw) as H.
    destruct (work_step o (Nat.iter n (thread_step o) w)); lia. }
  revert w. induction n as [|n IH]; intros w Hw; [change (work w = 0); lia|]. rewrite Nat.iter_succ_r.
  destruct (work_step o w) as [E|E]; [by apply H0|apply IH; lia].
Qed.
Lemma settle_idle o w : running (settle o w) = Idle /\ queue (settle o w) = [].
Proof.
  pose proof (settle_zero o (work w) w (le_n _)) as H. unfold work in H at 1. fold (settle o w) in H.
  destruct (queue (settle o w)); [|cbn in H; lia]. split; [|done].
  destruct (running (settle o w)) as [| | | | | | | |? ? []|? ? []|? ? []|? ? []| |]; cbn in H; (done || lia).
Qed.
Lemma settle_served o h w : ok w -> stopped w = false -> served h w -> served h (settle o w) /\ stopping (settle o w) = stopping w
  /\ next_ids (settle o w) = next_ids w.
Proof.
  unfold settle. intros Hok Hs Hh. generalize (work w). intros n.
  assert (forall n, let w' := Nat.iter n (thread_step o) w in ok w' /\ stopped w' = false /\ served h w' /\ stopping w' = stopping w
    /\ next_ids w' = next_ids w) as H.
  { clear n. induction n as [|n (H1 & H2 & H3 & H4 & H5)]; [done|]. rewrite Nat.iter_succ. set (w1 := Nat.iter n (thread_step o) w) in *. cbn in H1.
    destruct (thread_step_frame o w1) as [E1 _ (_ & E2 & E3) _].
    split_and!; [by apply ok_thread|congruence|by apply served_thread|congruence|congruence]. }
  destruct (H n) as (_ & _ & ? & ? & ?). done.
Qed.

(** ** What the GUI is told *)

Lemma deliverable_newest t w : ok w -> stopped w = false -> t ∈ underway w -> deliverable t w = true ->
  request_id (t_handle t) = next_ids w (h_channel (t_handle t)).
Proof.
  intros Hok Hs Ht Hd. destruct (ok_task w Hok t Ht) as [_ Hr]. specialize (Hr Hs). unfold deliverable, task_token, is_current in *.
  rewrite Hr in Hd. destruct (current_of w _) as [h|] eqn:Ec; [|done]. apply (ok_current w Hok) in Ec as (_ & <- & _).
  by apply Z.eqb_eq in Hd.
Qed.

Section Superseded.
Context (c : channel) (id : Z).

Definition is_handle (h : RequestHandle) : bool := (h_channel h == c) && (request_id h =? id)%Z.
(** The signal is tagged with the request. *)
Definition about (s : signal) : bool :=
  match s with
  | SResult c' i _ | SFailed c' i _ | SCancelled c' i | SPath c' i _ => (c' == c) && (i =? id)%Z
  | SDetached _ => false
  end.
(** The thread has found the request current and is about to emit a signal of it. *)
Definition sending (p : phase) : bool :=
  match p with
  | Sending t _ _ | Warning t _ _ => is_handle (t_handle t)
  | Noticing _ h _ => is_handle h
  | _ => false
  end.
Definition budget (w : worker) : nat := if sending (running w) then 1 else 0.
(** A step emits signals of the request within the budget it uses up. *)
Definition frugal (w w' : worker) : Prop :=
  exists l, signals w' = signals w ++ l /\ length (List.filter about l) + budget w' <= budget w.

Lemma frugal_quiet w w' : signals w' = signals w -> budget w' <= budget w -> frugal w w'.
Proof. intros E H. exists []. rewrite app_nil_r. split; [done|cbn; lia]. Qed.
Lemma frugal_move w p : sending p = false -> frugal w (set_running p w).
Proof. intros Hp. apply frugal_quiet; [done|]. unfold budget. cbn. rewrite Hp. lia. Qed.
Lemma frugal_trans w1 w2 w3 : frugal w1 w2 -> frugal w2 w3 -> frugal w1 w3.
Proof.
  intros (l & El & Hl) (k & Ek & Hk). exists (l ++ k). rewrite Ek, El, app_assoc. split; [done|].
  rewrite List.filter_app, length_app. lia.
Qed.
Lemma about_report t x : about (report t x) = is_handle (t_handle t).
Proof. by destruct x. Qed.
(** A request that is deliverable is not a superseded one. *)
Lemma superseded_undeliverable t w : ok w -> stopped w = false -> task_of (running w) = Some t ->
  (id < next_ids w c)%Z -> deliverable t w = true -> is_handle (t_handle t) = false.
Proof.
  intros Hok Hs Ht Hid Hd. unfold is_handle. destruct (h_channel (t_handle t) == c) eqn:Ec; [|done]. apply eqb_true_1 in Ec.
  pose proof (deliverable_newest t w Hok Hs) as Hn. rewrite Ec in Hn. rewrite Hn; [apply Z.eqb_neq; lia| |done].
  unfold underway. rewrite Ht. by left.
Qed.
Lemma frugal_thread o w : ok w -> stopped w = false -> (id < next_ids w c)%Z -> frugal w (thread_step o w).
Proof.
  intros Hok Hs Hid. pose proof (fun t H => superseded_undeliverable t w Hok Hs H Hid) as Hun.
  assert (forall t x l, sending (after_emission t x l) = false) as Haft by (intros; unfold after_emission; by destruct l).
  unfold Requests.thread_step. destruct (running w) as [|t|t|t|t|t h' slow|t|t v|t x l|t x l|t e l|t x l|t f|t] eqn:Er.
  - destruct (queue w) as [|t q]; [by apply frugal_quiet|].
    destruct (_ || _)%bool; (apply frugal_quiet; [done|]); unfold budget; cbn; rewrite ?Er; cbn; lia.
  - apply frugal_move. by destruct (bool_decide _).
  - apply frugal_move. by destruct (is_current _ _ _).
  - apply frugal_move. by destruct (bool_decide _).
  - destruct (t_operation t); try by apply frugal_move. destruct (parse_query _ _ _); apply frugal_move; [|done].
    unfold notify_search_path. destruct (current ListSearch w) as [h|] eqn:Ec; [|done].
    apply (ok_current w Hok) in Ec as (E1 & E2 & _). cbn. unfold is_handle. rewrite E1, E2.
    destruct (ListSearch == c) eqn:E; [|done]. apply eqb_true_1 in E as ->. apply Z.eqb_neq. lia.
  - exists [SPath (h_channel h') (request_id h') slow]. split; [done|]. unfold budget. cbn. rewrite Er. cbn.
    change ((h_channel h' == c) && (request_id h' =? id)%Z) with (is_handle h'). by destruct (is_handle h').
  - apply frugal_move. unfold query. by destruct (match o_query o with inl _ => _ | inr _ => _ end).
  - by apply frugal_move.
  - apply frugal_move. destruct (deliverable t w) eqn:Ed; [|apply Haft]. destruct x; try done. cbn. by apply Hun.
  - apply frugal_move. destruct (deliverable t w) eqn:Ed; [|apply Haft]. unfold reporting.
    destruct x as [v|e|]; [|destruct (isinstance _ _)|]; cbn; by apply Hun.
  - exists [SDetached e]. split; [done|]. unfold budget. cbn. rewrite Er. cbn. lia.
  - exists [report t x]. split; [done|]. unfold budget. cbn. rewrite Er, Haft, about_report. cbn. by destruct (is_handle _).
  - destruct (o_close o); [destruct f|]; (apply frugal_quiet; [done|]); unfold budget; cbn; lia.
  - apply frugal_quiet; [|unfold budget; cbn; lia]. cbn. unfold task_completed, finish_request. by repeat case_match.
Qed.
Lemma frugal_step w w' : ok w -> (id < next_ids w c)%Z -> step w w' -> frugal w w' /\ (id < next_ids w' c)%Z.
Proof.
  intros Hok Hid Hst. revert Hok Hid. destruct Hst as [w1 op Hw|w1 k Hw|w1 Hw|w1 Hw|w1 Hw Hr|w1 o Hs Hd]; intros Hok Hid.
  - assert (next_ids w1 c <= (<[channel_of op := next_ids w1 (channel_of op) + 1]> (next_ids w1)) c)%Z as Hn.
    { destruct (decide (channel_of op = c)) as [<-|Hc]; [rewrite fn_lookup_insert; lia|by rewrite fn_lookup_insert_ne]. }
    destruct (queue_request_cases op w1) as [(_ & _ & ->)|[e ->]]; cbn [snd].
    + split; [by apply frugal_quiet|cbn; lia].
    + unfold finish_request. destruct (_ == _); (split; [by apply frugal_quiet|cbn; lia]).
  - split; [by apply frugal_quiet|done].
  - unfold start. destruct (stopping w1); (split; [by apply frugal_quiet|done]).
  - unfold begin_stop, mbnd. cbn. destruct (stopped w1); [split; [by apply frugal_quiet|done]|]. cbn.
    destruct (started w1); (split; [by apply frugal_quiet|done]).
  - split; [by apply frugal_quiet|done].
  - split; [by apply frugal_thread|]. destruct (thread_step_frame o w1) as [En _ _ _]. by rewrite En.
Qed.
Lemma frugal_steps w w' : ok w -> (id < next_ids w c)%Z -> rtc step w w' -> frugal w w'.
Proof.
  intros Hok Hid Hs. revert Hok Hid. induction Hs as [w|w1 w2 w3 Hst _ IH]; intros Hok Hid; [by apply frugal_quiet|].
  destruct (frugal_step w1 w2 Hok Hid Hst) as [Hf Hid2]. eapply frugal_trans; [exact Hf|]. by apply IH; [apply (ok_step w1)|].
Qed.
End Superseded.

(** C10. A superseded request is not answered any more, but for one signal that was on its way: in every reachable
    interleaving of the GUI's calls and the thread's steps, a task that is queued or running is the current
    request of its channel or its token is cancelled; and from the moment a newer request of its channel was
    issued, however both threads go on, no result, failure, cancellation or search-path notice tagged with the older
    request is emitted, except at most one, and this only when the thread had already found that request current
    and was about to emit its signal. *)
Theorem only_newest_delivered c id w w' : reachable fts_match normalize_for_search w -> rtc step w w' ->
  (id < next_ids w c)%Z ->
  (forall t, t ∈ underway w' -> current_of w' (h_channel (t_handle t)) = Some (t_handle t) \/ task_token t ∈ cancelled w')
  /\ exists l, signals w' = signals w ++ l
       /\ length (List.filter (about c id) l) <= (if sending c id (running w) then 1 else 0).
Proof.
  intros Hw Hst Hid. pose proof (ok_reachable w Hw) as Hok.
  split; [by apply ok_superseded, (ok_steps w)|].
  destruct (frugal_steps c id w w' Hok Hid Hst) as (l & El & Hl). exists l. split; [done|].
  change (length (List.filter (about c id) l) <= budget c id w). lia.
Qed.

(** C11. The newest request is answered: once a request was queued, however the GUI and the thread go on, as long as
    no other request of its channel was issued and the worker was not stopped, a result, a failure or a cancellation of
    it has been or will be delivered: the thread comes to rest after at most eighteen steps per task, and
    then the signal is there, whatever the repository answers or raises. *)
Theorem newest_request_answered (o : oracle) op h w w1 w2 :
  reachable fts_match normalize_for_search w -> queue_request op w = (Ok h, w1) -> rtc step w1 w2 ->
  stopping w2 = false -> next_ids w2 (channel_of op) = request_id h ->
  let w3 := settle o w2 in running w3 = Idle /\ queue w3 = [] /\ answered h w3.
Proof.
  intros Hw E Hst Hs Hn w3. pose proof (ok_reachable w Hw) as Hok.
  destruct (served_queued op w h w1 Hok E) as [Hh Hc].
  assert (ok w1 /\ ordered w1) as [Hok1 Ho1].
  { split; [replace w1 with (queue_request op w).2 by (by rewrite E); by apply ok_request|].
    destruct (life_request op w) as (E1 & E2 & _). rewrite E in E1, E2. cbn in E1, E2. unfold ordered. rewrite E1, E2.
    by apply (ordered_steps initial). }
  pose proof (served_steps h w1 w2 Hok1 Ho1 Hh Hst) as Hh2. pose proof (ok_steps w1 w2 Hok1 Hst) as Hok2.
  pose proof (ordered_steps w1 w2 Ho1 Hst) as Ho2.
  assert (stopped w2 = false) as Hd by (destruct (stopped w2) eqn:Es; [rewrite Ho2 in Hs; done|done]).
  destruct (settle_idle o w2) as [Hi Hq]. destruct (settle_served o h w2 Hok2 Hd Hh2) as ((_ & _ & H) & Es & En).
  fold w3 in Hi, Hq, H, Es, En. split; [done|]. split; [done|]. destruct H as [H|[H|(_ & _ & [(op' & H & _)|[op' H]])]].
  - by rewrite En, Hc.
  - congruence.
  - done.
  - rewrite Hq in H. by apply elem_of_nil in H.
  - by rewrite Hi in H.
Qed.
End ThreadFacts.

(** ** Concrete runs *)

Definition any_text (t : pystr) (c : contents) : bool := false.
Definition plain_text (t : pystr) : pystr := t.
Definition empty_answer : oracle := Oracle (inl empty_db) None None.
Definition first_list : operation := OpList default_filter None 200.
Definition slow_search : operation := OpSearch [97%Z] ModeAnd default_filter None 200.
Definition begun : worker := (start initial).2.
Notation go := (thread_step any_text plain_text empty_answer).

(** A listing, the thread about to send its result, and another listing asked for. *)
Definition late : worker := (queue_request first_list (Nat.iter 8 go (queue_request first_list begun).2)).2.
Lemma steps_go n w : started w = true -> stopped w = false -> rtc (step any_text plain_text) w (Nat.iter n go w).
Proof.
  intros Hs Hd. assert (forall n, let w' := Nat.iter n go w in started w' = true /\ stopped w' = false
    /\ rtc (step any_text plain_text) w w') as Hn; [|by apply Hn].
  clear n. induction n as [|n (H1 & H2 & H3)]; [by split_and!|]. rewrite Nat.iter_succ. set (w1 := Nat.iter n go w) in *.
  destruct (thread_step_frame any_text plain_text empty_answer w1) as [_ _ (E1 & _ & E2) _]. cbv zeta. rewrite E1, E2.
  split_and!; [done|done|]. eapply rtc_r; [exact H3|by apply step_thread].
Qed.
Lemma reachable_request op w : reachable any_text plain_text w -> waiting w = false ->
  reachable any_text plain_text (queue_request op w).2.
Proof. intros H Hw. eapply rtc_r; [exact H|by apply step_request]. Qed.
Lemma reachable_late : reachable any_text plain_text late.
Proof.
  apply reachable_request; [|by vm_compute]. unfold reachable. etrans; [|apply steps_go; by vm_compute].
  apply reachable_request; [|by vm_compute]. apply rtc_once, step_start. reflexivity.
Qed.
Lemma only_newest_delivered_witness :
  exists l, signals (Nat.iter 20 go late) = signals late ++ l
    /\ length (List.filter (about ListSearch 1) l) <= (if sending ListSearch 1 (running late) then 1 else 0).
Proof.
  assert (rtc (step any_text plain_text) late (Nat.iter 20 go late)) as Hs by (apply steps_go; by vm_compute).
  assert (1 < next_ids late ListSearch)%Z as Hid by (vm_compute; reflexivity).
  revert Hs. generalize (Nat.iter 20 go late). intros w' Hs.
  exact (proj2 (only_newest_delivered any_text plain_text ListSearch 1 late w' reachable_late Hs Hid)).
Defined.
(** The signal that was on its way: the result of the first listing is emitted although the second was issued
    before; whoever receives it has to compare the number. *)
Lemma stale_result_emitted :
  signals late = [] /\ current_of late ListSearch = Some (Handle ListSearch 2 1)
  /\ signals (go late) = [SResult ListSearch 1 (VPage (Page [] None true false))].
Proof. vm_compute. done. Qed.
Lemma newest_request_answered_witness :
  answered (Handle ListSearch 1 0) (settle any_text plain_text empty_answer (queue_request first_list begun).2).
Proof.
  apply (newest_request_answered any_text plain_text empty_answer first_list (Handle ListSearch 1 0) begun
    (queue_request first_list begun).2 (queue_request first_list begun).2).
  - apply rtc_once, step_start. reflexivity.
  - reflexivity.
  - apply rtc_refl.
  - reflexivity.
  - reflexivity.
Defined.
Example settled_ex : signals (settle any_text plain_text empty_answer (queue_request first_list begun).2)
  = [SResult ListSearch 1 (VPage (Page [] None true false))].
Proof. vm_compute. reflexivity. Qed.

(** The notice of a superseded search is tagged with the request that superseded it: a listing is reported
    to use the slow path. *)
Definition overtaken : worker :=
  Nat.iter 2 go (queue_request first_list (Nat.iter 4 go (queue_request slow_search begun).2)).2.
Lemma stale_notice_taken_for_newest :
  signals overtaken = [SPath ListSearch 2 true] /\ option_map t_operation (List.hd_error (queue overtaken)) = Some first_list
  /\ current_of overtaken ListSearch = Some (Handle ListSearch 2 1).
Proof. vm_compute. done. Qed.
