(* ===== verification/RequestAnswers.v ===== *)
(** * RequestAnswers: the results of the query thread are those of their requests

    Whatever the interleaving, a result that is tagged with the number of a request is what the operation of that request
    returns for some state of the database. *)

From stdpp Require Import functions.
From S2P Require Import Prelude Errors PyText SearchQuery Database SearchPages Requests.

Open Scope list_scope.

(** ** Results belong to their requests *)

Section Answers.
Context (fts_match : pystr -> contents -> bool) (normalize_for_search : pystr -> pystr).
Notation thread_step := (thread_step fts_match normalize_for_search).
Notation step := (step fts_match normalize_for_search).
Notation run := (run_operation fts_match normalize_for_search).

(** The answer that the running task carries. *)
Definition carried (p : phase) : option (task * value) :=
  match p with
  | Answered t v | Emitting t (OResult v) _ | Reporting t (OResult v) _ | Sending t (OResult v) _ => Some (t, v)
  | _ => None
  end.
(** Every carried answer is one of its operation, every task has the channel of its operation and a number
    that was issued, and so has every result. *)
Record truthful (w : worker) : Prop := Truthful {
  tr_carried : forall t v, carried (running w) = Some (t, v) -> exists d, run (t_operation t) d = Ok v;
  tr_task : forall t, t ∈ underway w -> h_channel (t_handle t) = channel_of (t_operation t)
    /\ (request_id (t_handle t) <= next_ids w (h_channel (t_handle t)))%Z;
  tr_result : forall c id v, SResult c id v ∈ signals w -> (id <= next_ids w c)%Z;
}.
(** The tasks and the results with this number are those of the operation. *)
Record speaks (op : operation) (id : Z) (w : worker) : Prop := Speaks {
  sp_issued : (id <= next_ids w (channel_of op))%Z;
  sp_task : forall t, t ∈ underway w -> h_channel (t_handle t) = channel_of op -> request_id (t_handle t) = id -> t_operation t = op;
  sp_result : forall v, SResult (channel_of op) id v ∈ signals w -> exists d, run op d = Ok v;
}.

(** A step that adds no task, and no result but the carried one. *)
Record adds_nothing (w w' : worker) : Prop := AddsNothing {
  an_next : next_ids w' = next_ids w;
  an_task : forall t, t ∈ underway w' -> t ∈ underway w;
  an_carried : forall t v, carried (running w') = Some (t, v) ->
    carried (running w) = Some (t, v) \/ exists d, run (t_operation t) d = Ok v;
  an_result : forall c id v, SResult c id v ∈ signals w' -> SResult c id v ∈ signals w
    \/ exists t, t ∈ underway w /\ carried (running w) = Some (t, v) /\ c = h_channel (t_handle t) /\ id = request_id (t_handle t);
}.
Lemma adds_truthful w w' : truthful w -> adds_nothing w w' -> truthful w'.
Proof.
  intros [H1 H2 H3] [A1 A2 A3 A4]. split; rewrite ?A1.
  - intros t v Hc. destruct (A3 t v Hc) as [?|?]; [by apply H1|done].
  - intros t Ht. by apply H2, A2.
  - intros c id v Hs. destruct (A4 c id v Hs) as [?|(t & Ht & _ & -> & ->)]; [by apply (H3 c id v)|]. by apply H2.
Qed.
Lemma adds_speaks op id w w' : truthful w -> speaks op id w -> adds_nothing w w' -> speaks op id w'.
Proof.
  intros [H1 _ _] [S1 S2 S3] [A1 A2 A3 A4]. split; rewrite ?A1; [done|auto|].
  intros v Hs. destruct (A4 _ _ _ Hs) as [?|(t & Ht & Hc & Ec & Ei)]; [by apply S3|].
  rewrite <- (S2 t Ht) by done. by apply H1.
Qed.
Lemma adds_same w w' : next_ids w' = next_ids w -> running w' = running w -> queue w' = queue w -> signals w' = signals w ->
  adds_nothing w w'.
Proof. intros E1 E2 E3 E4. split; unfold underway; rewrite ?E1, ?E2, ?E3, ?E4; auto. Qed.
Lemma adds_moved w p : (forall t, task_of p = Some t -> task_of (running w) = Some t) ->
  (forall t v, carried p = Some (t, v) -> carried (running w) = Some (t, v) \/ exists d, run (t_operation t) d = Ok v) ->
  adds_nothing w (set_running p w).
Proof.
  intros Ht Hc. split; cbn; auto. unfold underway. cbn. intros t [Hp|?]%elem_of_app; apply elem_of_app; [left|by right].
  destruct (task_of p) as [t'|]; [|by apply elem_of_nil in Hp]. by rewrite (Ht t').
Qed.
Lemma adds_trans w1 w2 w3 : running w2 = running w1 -> adds_nothing w1 w2 -> adds_nothing w2 w3 -> signals w3 = signals w2 ->
  adds_nothing w1 w3.
Proof.
  intros Er [A1 A2 A3 A4] [B1 B2 B3 B4] Es. split; [congruence|auto| |rewrite Es; exact A4].
  intros t v Hc. destruct (B3 t v Hc) as [?|?]; [left; by rewrite <- Er|by right].
Qed.
Lemma adds_emit w s : (forall c id v, s <> SResult c id v) -> adds_nothing w (emit s w).
Proof.
  intros Hs. split; cbn; auto. intros c id v [?|H%list_elem_of_singleton]%elem_of_app; [by left|]. by destruct (Hs c id v).
Qed.
Lemma adds_report w t x : carried (running w) = match x with OResult v => Some (t, v) | _ => None end ->
  task_of (running w) = Some t -> adds_nothing w (emit (report t x) w).
Proof.
  intros Hc Ht. destruct x as [v|e|]; try by apply adds_emit.
  split; cbn; auto. intros c id v' [?|E%list_elem_of_singleton]%elem_of_app; [by left|]. injection E as -> -> ->.
  right. exists t. split; [|done]. unfold underway. rewrite Ht. by left.
Qed.
Lemma carried_after t x last : carried (after_emission t x last) = None.
Proof. unfold after_emission. by destruct last. Qed.
Lemma task_after t x last : task_of (after_emission t x last) = Some t.
Proof. unfold after_emission. by destruct last. Qed.
Ltac moved Er := apply adds_moved; rewrite Er; unfold caught; cbn; intros; simplify_eq; eauto; repeat case_match; simplify_eq.
(** An answer is sent where it is found current, the reports of [Reporting] are failures and cancellations. *)
Definition placed (w : worker) : Prop := match running w with Reporting _ (OResult _) _ => False | _ => True end.
Lemma placed_thread o w : placed w -> placed (thread_step o w).
Proof.
  intros H. unfold Requests.thread_step. destruct (running w) as [|t|t|t|t|t h slow|t|t v|t x l|t x l|t e l|t x l|t f|t] eqn:Er; unfold placed; cbn.
  - destruct (queue w); [by rewrite Er|]. destruct (_ || _)%bool; cbn; [by rewrite Er|done].
  - by destruct (bool_decide _).
  - by destruct (is_current _ _ _).
  - by destruct (bool_decide _).
  - destruct (t_operation t); try done. destruct (parse_query _ _ _); [|done].
    unfold notify_search_path. cbn. by destruct (current _ _).
  - done.
  - unfold query. by destruct (match o_query o with inl _ => _ | inr _ => _ end).
  - done.
  - destruct (deliverable t w); [destruct x|]; cbn; unfold after_emission; by destruct l.
  - unfold after_emission, reporting. destruct (deliverable t w); [|by destruct l].
    destruct x as [v|e|]; try done. by destruct (isinstance _ _).
  - done.
  - unfold after_emission. by destruct l.
  - by destruct (o_close o); [destruct f|].
  - done.
Qed.
Lemma adds_thread o w : placed w -> adds_nothing w (thread_step o w).
Proof.
  intros Hpl. unfold Requests.thread_step. destruct (running w) as [|t|t|t|t|t h slow|t|t v|t x l|t x l|t e l|t x l|t f|t] eqn:Er.
  - destruct (queue w) as [|t q] eqn:Eq; [by apply adds_same|].
    assert (forall t', t' ∈ q -> t' ∈ underway w) as Hq by (intros t' Hq; unfold underway; rewrite Er, Eq; by right).
    destruct (_ || _)%bool; split; cbn; try (by left); unfold underway; cbn; rewrite ?Er, ?Eq; cbn; auto.
    intros t' Ht'. by right.
  - destruct (bool_decide _); moved Er.
  - destruct (is_current _ _ _); moved Er.
  - destruct (bool_decide _); moved Er.
  - destruct (t_operation t); try moved Er. destruct (parse_query _ _ _) as [plan|e]; [|moved Er].
    unfold notify_search_path. destruct (current _ _) as [h|]; moved Er.
  - apply (adds_trans w (emit (SPath (h_channel h) (request_id h) slow) w)); [done|by apply adds_emit| |done].
    apply adds_moved; cbn; rewrite Er; cbn; intros; by simplify_eq.
  - unfold query. destruct (o_query o) as [d|e]; [|moved Er].
    destruct (run (t_operation t) d) as [v|e] eqn:E; cbn [rbind]; [|moved Er].
    unfold opened. destruct v, (o_open o); moved Er.
  - destruct (is_current _ _ _); moved Er.
  - unfold after_emission. destruct (deliverable t w); [destruct x|destruct l]; moved Er.
  - unfold placed in Hpl. rewrite Er in Hpl. unfold after_emission, reporting.
    destruct (deliverable t w); [|destruct l; moved Er]. destruct x as [v|e|]; [done|destruct (isinstance _ _)|]; moved Er.
  - apply (adds_trans w (emit (SDetached e) w)); [done|by apply adds_emit| |done].
    apply adds_moved; cbn; rewrite Er; cbn; intros; by simplify_eq.
  - apply (adds_trans w (emit (report t x) w)); [done|by apply adds_report; rewrite Er| |done].
    apply adds_moved; rewrite ?carried_after, ?task_after; cbn; rewrite ?Er; cbn; by intros.
  - assert (forall p, task_of p = Some t -> carried p = None -> adds_nothing w (set_running p (set_tokens (tokens w ∖ {[token (t_handle t)]}) w))) as Hp.
    { intros p Hp Hc. apply (adds_trans w (set_tokens (tokens w ∖ {[token (t_handle t)]}) w)); [done|by apply adds_same| |done]. apply adds_moved; cbn; rewrite Er, ?Hp, ?Hc; by intros. }
    destruct (o_close o); [destruct f|]; by apply Hp.
  - assert (running (task_completed t w) = running w /\ queue (task_completed t w) = queue w /\ signals (task_completed t w) = signals w
      /\ next_ids (task_completed t w) = next_ids w) as (E1 & E2 & E3 & E4)
      by (unfold task_completed, finish_request; by repeat case_match).
    eapply adds_trans; [exact E1|by apply adds_same| |done]. by apply adds_moved.
Qed.

(** The requests: a new task with a new number. *)
Lemma request_frame op w : let w' := (queue_request op w).2 in
  running w' = running w /\ signals w' = signals w /\ (forall c, next_ids w c <= next_ids w' c)%Z
  /\ next_ids w' (channel_of op) = (next_ids w (channel_of op) + 1)%Z
  /\ (underway w' = underway w
      \/ underway w' = underway w ++ [Task op (Handle (channel_of op) (next_ids w (channel_of op) + 1) (fresh w))]).
Proof.
  assert (forall c, next_ids w c <= (<[channel_of op := next_ids w (channel_of op) + 1]> (next_ids w)) c)%Z as Hn.
  { intros c. destruct (decide (channel_of op = c)) as [<-|Hc]; [rewrite fn_lookup_insert; lia|by rewrite fn_lookup_insert_ne]. }
  destruct (queue_request_cases op w) as [(_ & _ & ->)|[e ->]]; cbn [snd].
  - split_and!; [done|done|exact Hn|cbn; by rewrite fn_lookup_insert|right]. unfold underway. cbn. by rewrite app_assoc.
  - unfold finish_request. destruct (_ == _); (split_and!; [done|done|exact Hn|cbn; by rewrite fn_lookup_insert|by left]).
Qed.
Lemma request_task op w t : t ∈ underway (queue_request op w).2 ->
  t ∈ underway w \/ t = Task op (Handle (channel_of op) (next_ids w (channel_of op) + 1) (fresh w)).
Proof.
  destruct (request_frame op w) as (_ & _ & _ & _ & [->| ->]); [by left|].
  intros [?|?%list_elem_of_singleton]%elem_of_app; [by left|by right].
Qed.
Lemma truthful_request op w : truthful w -> truthful (queue_request op w).2.
Proof.
  intros [H1 H2 H3]. destruct (request_frame op w) as (Er & Es & Hn & En & _). split; rewrite ?Er, ?Es.
  - exact H1.
  - intros t [Ht| ->]%request_task.
    + destruct (H2 t Ht) as [E Hle]. split; [done|]. etrans; [exact Hle|apply Hn].
    + cbn -[queue_request]. rewrite En. split; [done|lia].
  - intros c id v Hs. etrans; [by apply (H3 c id v)|apply Hn].
Qed.
Lemma speaks_request op id op' w : speaks op id w -> speaks op id (queue_request op' w).2.
Proof.
  intros [S1 S2 S3]. destruct (request_frame op' w) as (Er & Es & Hn & En & _). split; rewrite ?Es; [|  |exact S3].
  - etrans; [exact S1|apply Hn].
  - intros t [Ht| ->]%request_task; [by apply S2|]. cbn. intros Ec Ei. rewrite Ec in Ei. lia.
Qed.
Lemma speaks_queued op w h w1 : truthful w -> queue_request op w = (Ok h, w1) -> speaks op (request_id h) w1.
Proof.
  intros [H1 H2 H3] E. destruct (request_frame op w) as (Er & Es & Hn & En & _). rewrite E in Er, Es, En, Hn. cbn [snd] in *.
  assert (request_id h = next_ids w (channel_of op) + 1)%Z as Eh.
  { destruct (queue_request_cases op w) as [(_ & _ & E')|[e E']]; rewrite E' in E; [by injection E as <-|done]. }
  split; rewrite ?Es.
  - rewrite En. lia.
  - intros t Ht Hc Hi. replace w1 with (queue_request op w).2 in Ht by (by rewrite E). apply request_task in Ht as [Ht| ->]; [|done].
    destruct (H2 t Ht) as [_ Hle]. rewrite Hc in Hle. lia.
  - intros v Hv. specialize (H3 _ _ _ Hv). lia.
Qed.
(** The other steps of the GUI. *)
Lemma adds_cancel c w : adds_nothing w (cancel c w).2.
Proof. by apply adds_same. Qed.
Lemma adds_start w : adds_nothing w (start w).2.
Proof. unfold start. destruct (stopping w); by apply adds_same. Qed.
Lemma adds_begin_stop w : adds_nothing w (begin_stop w).2.
Proof.
  unfold begin_stop, mbnd. cbn. destruct (stopped w); [by apply adds_same|]. cbn. destruct (started w); by apply adds_same.
Qed.
Lemma adds_end_stop w : adds_nothing w (end_stop w).
Proof. by apply adds_same. Qed.

(** The worker's invariant for its clients. *)
Definition sound (w : worker) : Prop := truthful w /\ placed w.
Lemma sound_initial : sound initial.
Proof.
  split; [|done]. split; cbn; [done|intros t Ht; by apply elem_of_nil in Ht|intros c id v Hs; by apply elem_of_nil in Hs].
Qed.
Lemma placed_same w w' : running w' = running w -> placed w -> placed w'.
Proof. unfold placed. by intros ->. Qed.
Lemma sound_request op w : sound w -> sound (queue_request op w).2.
Proof. intros [H1 H2]. split; [by apply truthful_request|]. by destruct (request_frame op w) as (Er & _); eapply placed_same. Qed.
Lemma sound_adds w w' : running w' = running w -> adds_nothing w w' -> sound w -> sound w'.
Proof. intros Er Ha [H1 H2]. split; [by apply (adds_truthful w)|by apply (placed_same w)]. Qed.
Lemma sound_thread o w : sound w -> sound (thread_step o w).
Proof. intros [H1 H2]. split; [by apply (adds_truthful w), adds_thread|by apply placed_thread]. Qed.
Lemma speaks_adds op id w w' : sound w -> adds_nothing w w' -> speaks op id w -> speaks op id w'.
Proof. intros [H1 _] Ha Hs. by apply (adds_speaks op id w). Qed.
End Answers.
Close Scope list_scope.
