(* ===== verification/MessageList.v ===== *)
(** * MessageList: the view model and the table of the message list

    [presentation/viewmodels/message_list_viewmodel.py] and the paging part of
    [presentation/models/message_table_model.py], both clients of the query worker's channel list/search, connected
    as [presentation/views/main_window.py] connects them: [filters_changed] to the table's [set_filters],
    [search_changed] to its [set_search], [request_busy_changed] to the window. Signals of the worker reach the
    view model first, then the table, one by one in their order; [delivered] counts them. The slots that only draw
    (the labels, the other signals of the view model, inserting rows) are left out. *)

From stdpp Require Import functions.
From S2P Require Import Prelude Errors PyText PyTime SearchQuery Database SearchPages ErrorPresentation Requests RequestAnswers.

Open Scope list_scope.

#[export] Instance filter_eq_dec : EqDecision MessageFilter.
Proof. solve_decision. Defined.
#[export] Instance search_mode_eq_dec : EqDecision search_mode.
Proof. solve_decision. Defined.

Record viewmodel := ViewModel {
  v_filters : MessageFilter;
  v_query : pystr;
  v_mode : search_mode;
  selected_message_id : option Z;
  v_pending : option Z;                 (* _pending_request_id *)
  search_error : string;
  slow_path : bool;
}.
Record table := Table {
  t_filters : MessageFilter;
  t_query : pystr;
  t_mode : search_mode;
  page_size : Z;
  items : list MessageSummary;
  t_next_cursor : option PageCursor;
  t_exhausted : bool;
  t_pending : option Z;                 (* _pending_request_id *)
  thread_mode : bool;
  t_stopped : bool;
}.
Record gui := Gui {
  g_worker : worker;
  view : viewmodel;
  rows : table;
  delivered : nat;
  query_busy : bool;                    (* the window's _query_busy *)
}.
Definition DEFAULT_PAGE_SIZE : Z := 200.
Definition initial_view : viewmodel := ViewModel default_filter [] ModeAnd None None ""%string false.
Definition initial_table : table := Table default_filter [] ModeAnd DEFAULT_PAGE_SIZE [] None false None false false.
Definition initial_gui : gui := Gui initial initial_view initial_table 0 false.

Definition set_worker w (g : gui) := Gui w (view g) (rows g) (delivered g) (query_busy g).
Definition set_view v (g : gui) := Gui (g_worker g) v (rows g) (delivered g) (query_busy g).
Definition set_rows t (g : gui) := Gui (g_worker g) (view g) t (delivered g) (query_busy g).
Definition set_busy b (g : gui) := Gui (g_worker g) (view g) (rows g) (delivered g) b.
Definition on_worker {A} (m : M worker A) : M gui A := fun g =>
  let (r, w) := m (g_worker g) in (r, set_worker w g).
Definition on_view (f : viewmodel -> viewmodel) : M gui unit := mmodify (fun g => set_view (f (view g)) g).
Definition on_rows (f : table -> table) : M gui unit := mmodify (fun g => set_rows (f (rows g)) g).
Definition set_v_filters f v := ViewModel f (v_query v) (v_mode v) (selected_message_id v) (v_pending v) (search_error v) (slow_path v).
Definition set_v_search q m v := ViewModel (v_filters v) q m (selected_message_id v) (v_pending v) (search_error v) (slow_path v).
Definition set_v_selected i v := ViewModel (v_filters v) (v_query v) (v_mode v) i (v_pending v) (search_error v) (slow_path v).
Definition set_v_pending p v := ViewModel (v_filters v) (v_query v) (v_mode v) (selected_message_id v) p (search_error v) (slow_path v).
Definition set_search_error e v := ViewModel (v_filters v) (v_query v) (v_mode v) (selected_message_id v) (v_pending v) e (slow_path v).
Definition set_slow_path b v := ViewModel (v_filters v) (v_query v) (v_mode v) (selected_message_id v) (v_pending v) (search_error v) b.
Definition set_pages l c x p th (t : table) :=
  Table (t_filters t) (t_query t) (t_mode t) (page_size t) l c x p th (t_stopped t).
Definition set_t_pending p (t : table) := set_pages (items t) (t_next_cursor t) (t_exhausted t) p (thread_mode t) t.

(** The request of a page: a search when there is a query. *)
Definition page_request (q : pystr) (m : search_mode) (f : MessageFilter) (c : option PageCursor) (limit : Z) : operation :=
  match q with [] => OpList f c limit | _ => OpSearch q m f c limit end.
Definition table_request (t : table) : operation :=
  page_request (t_query t) (t_mode t) (t_filters t) (t_next_cursor t) (page_size t).

(** ** MessageTableModel *)

Definition can_fetch_more (t : table) : bool :=
  negb (t_stopped t) && negb (thread_mode t) && negb (t_exhausted t) && (t_pending t == None).
(** [fetchMore] *)
Definition fetch_more : M gui unit :=
  let! t := mgets rows in
  if can_fetch_more t then
    let! h := on_worker (queue_request (table_request t)) in
    on_rows (set_t_pending (Some (request_id h)))
  else mret tt.
Definition cancel_pending : M gui unit :=
  let! t := mgets rows in
  match t_pending t with Some _ => let! h := on_worker (cancel ListSearch) in mret tt | None => mret tt end.
Definition reset_pages : M gui unit := cancel_pending ;! on_rows (set_pages [] None false None false).
Definition reload : M gui unit :=
  let! t := mgets rows in
  if t_stopped t then mret tt else reset_pages ;! fetch_more.
Definition table_set_filters (f : MessageFilter) : M gui unit :=
  let! t := mgets rows in
  if f == t_filters t then mret tt else
  on_rows (fun t => Table f (t_query t) (t_mode t) (page_size t) (items t) (t_next_cursor t) (t_exhausted t) (t_pending t)
                      (thread_mode t) (t_stopped t)) ;!
  reset_pages.
Definition table_set_search (q : pystr) (m : search_mode) : M gui unit :=
  let! t := mgets rows in
  if (q == t_query t) && (m == t_mode t) then mret tt else
  on_rows (fun t => Table (t_filters t) q m (page_size t) (items t) (t_next_cursor t) (t_exhausted t) (t_pending t)
                      (thread_mode t) (t_stopped t)) ;!
  reset_pages.
Definition show_thread (l : list MessageSummary) : M gui unit := on_rows (set_pages l None true None true).
Definition clear_thread : M gui unit :=
  let! t := mgets rows in
  if thread_mode t then on_rows (set_pages [] None false None false) else mret tt.
Definition stop_loading : M gui unit :=
  let! t := mgets rows in
  if t_stopped t then mret tt else
  cancel_pending ;!
  on_rows (fun t => Table (t_filters t) (t_query t) (t_mode t) (page_size t) (items t) (t_next_cursor t) true None
                      (thread_mode t) true).
(** [_on_result] *)
Definition table_on_result (c : channel) (id : Z) (v : value) : M gui unit :=
  let! t := mgets rows in
  if negb (c == ListSearch) || thread_mode t || negb (Some id == t_pending t) then mret tt else
  match v with
  | VPage page => on_rows (set_pages (items t ++ page_items page) (next_cursor page) (exhausted page) None (thread_mode t))
  | _ => on_rows (set_t_pending None)
  end.
(** [_on_request_finished] *)
Definition table_on_finished (c : channel) (id : Z) : M gui unit :=
  let! t := mgets rows in
  if (c == ListSearch) && (Some id == t_pending t) then on_rows (set_t_pending None) else mret tt.

(** ** MessageListViewModel *)

Definition cancel_list_search : M gui (option RequestHandle) :=
  let! v := mgets view in
  match v_pending v with
  | None => mret None
  | Some _ =>
      let! h := on_worker (cancel ListSearch) in
      on_view (set_v_pending None) ;! mmodify (set_busy false) ;! mret h
  end.
Definition request_page (c : option PageCursor) (limit : Z) : M gui RequestHandle :=
  if (limit <=? 0)%Z then mraise ValueError "limit must be positive" else
  cancel_list_search ;!
  let! v := mgets view in
  let! h := on_worker (queue_request (page_request (v_query v) (v_mode v) (v_filters v) c limit)) in
  on_view (set_v_pending (Some (request_id h))) ;! mmodify (set_busy true) ;! mret h.
Definition clear_search_error : M gui unit := on_view (set_search_error ""%string).
Definition set_filters (f : MessageFilter) : M gui unit :=
  let! v := mgets view in
  if f == v_filters v then mret tt else
  cancel_list_search ;!
  on_view (set_v_filters f) ;!
  clear_search_error ;! on_view (set_slow_path false) ;!
  table_set_filters f ;!
  request_page None DEFAULT_PAGE_SIZE ;! mret tt.
(** [search_changed.emit] *)
Definition emit_search_changed : M gui unit := let! v := mgets view in table_set_search (v_query v) (v_mode v).
Definition set_search_query (q : pystr) : M gui unit :=
  let! v := mgets view in
  if q == v_query v then mret tt else
  on_view (set_v_search q (v_mode v)) ;! clear_search_error ;! emit_search_changed.
Definition set_search_mode (m : search_mode) : M gui unit :=
  let! v := mgets view in
  if m == v_mode v then mret tt else
  on_view (set_v_search (v_query v) m) ;! clear_search_error ;! emit_search_changed.
Definition execute_search (q : option pystr) (m : option search_mode) : M gui RequestHandle :=
  on_view (fun v => set_v_search (get_or (v_query v) q) (get_or (v_mode v) m) v) ;!
  clear_search_error ;! on_view (set_slow_path false) ;!
  emit_search_changed ;!
  request_page None DEFAULT_PAGE_SIZE.
Definition clear_search : M gui RequestHandle := execute_search (Some []) None.
Definition select_message (i : option Z) : M gui unit := on_view (set_v_selected i).
Definition is_pending (c : channel) (id : Z) (v : viewmodel) : bool := (c == ListSearch) && (Some id == v_pending v).
Definition end_request : M gui unit := on_view (set_v_pending None) ;! mmodify (set_busy false).
Definition page_slow_path (v : value) : bool := match v with VPage page => p_has_slow_path page | _ => false end.
Definition on_result (c : channel) (id : Z) (x : value) : M gui unit :=
  let! v := mgets view in
  if is_pending c id v then end_request ;! on_view (set_slow_path (page_slow_path x)) else mret tt.
Definition on_request_failed (c : channel) (id : Z) (e : exn) : M gui unit :=
  let! v := mgets view in
  if is_pending c id v then end_request ;! on_view (set_search_error (user_message e)) else mret tt.
Definition on_request_cancelled (c : channel) (id : Z) : M gui unit :=
  let! v := mgets view in
  if is_pending c id v then end_request else mret tt.
Definition on_search_path_detected (c : channel) (id : Z) (slow : bool) : M gui unit :=
  let! v := mgets view in
  if is_pending c id v then on_view (set_slow_path slow) else mret tt.

(** ** The window *)

(** The slots of one signal, in the order of their connections. *)
Definition handle_signal (s : signal) : M gui unit :=
  match s with
  | SResult c id v => on_result c id v ;! table_on_result c id v
  | SFailed c id e => on_request_failed c id e ;! table_on_finished c id
  | SCancelled c id => on_request_cancelled c id ;! table_on_finished c id
  | SPath c id slow => on_search_path_detected c id slow
  | SDetached _ => mret tt
  end.
Definition deliver : M gui unit := fun g =>
  match signals (g_worker g) !! delivered g with
  | Some s => handle_signal s (Gui (g_worker g) (view g) (rows g) (S (delivered g)) (query_busy g))
  | None => (Ok tt, g)
  end.
(** What happens in the GUI thread; the table has the only rows, so that loading a thread ends in [show_thread]. *)
Inductive action :=
  | SetFilters (f : MessageFilter) | SetSearchQuery (q : pystr) | SetSearchMode (m : search_mode)
  | ExecuteSearch (q : option pystr) (m : option search_mode) | RequestPage (c : option PageCursor) (limit : Z)
  | CancelSearch | SelectMessage (i : option Z)
  | FetchMore | Reload | ShowThread (l : list MessageSummary) | ClearThread | StopLoading
  | OtherRequest (op : operation) | CancelOther (c : channel) | Start | Stop | Deliver.
Definition ignore {A} (m : M gui A) : M gui unit := let! x := m in mret tt.
Definition perform (a : action) : M gui unit :=
  match a with
  | SetFilters f => set_filters f
  | SetSearchQuery q => set_search_query q
  | SetSearchMode m => set_search_mode m
  | ExecuteSearch q m => ignore (execute_search q m)
  | RequestPage c limit => ignore (request_page c limit)
  | CancelSearch => ignore cancel_list_search
  | SelectMessage i => select_message i
  | FetchMore => fetch_more
  | Reload => reload
  | ShowThread l => show_thread l
  | ClearThread => clear_thread
  | StopLoading => stop_loading
  | OtherRequest op => if channel_of op == ListSearch then mret tt else ignore (on_worker (queue_request op))
  | CancelOther c => if c == ListSearch then mret tt else ignore (on_worker (cancel c))
  | Start => on_worker start
  | Stop => on_worker begin_stop
  | Deliver => deliver
  end.

Section Window.
Context (fts_match : pystr -> contents -> bool) (normalize_for_search : pystr -> pystr).

(** The steps of both threads; an exception of a slot is printed and changes nothing more. *)
Variant gui_step : gui -> gui -> Prop :=
  | gui_action g a : waiting (g_worker g) = false -> gui_step g (perform a g).2
  | gui_ended g : waiting (g_worker g) = true -> running (g_worker g) = Idle ->
      gui_step g (set_worker (end_stop (g_worker g)) g)
  | gui_thread g o : started (g_worker g) = true -> stopped (g_worker g) = false ->
      gui_step g (set_worker (thread_step fts_match normalize_for_search o (g_worker g)) g).
Definition gui_reachable (g : gui) : Prop := rtc gui_step initial_gui g.
End Window.

Section WindowFacts.
Context (fts_match : pystr -> contents -> bool) (normalize_for_search : pystr -> pystr).
Notation run := (run_operation fts_match normalize_for_search).
Notation speaks := (speaks fts_match normalize_for_search).
Notation sound := (sound fts_match normalize_for_search).
Notation gui_step := (gui_step fts_match normalize_for_search).

(** Rows that were loaded page by page for a query, each page from the cursor the last one left. *)
Inductive loaded (q : pystr) (m : search_mode) (f : MessageFilter) (size : Z)
    : list MessageSummary -> option PageCursor -> bool -> Prop :=
  | loaded_none : loaded q m f size [] None false
  | loaded_page l c p d : loaded q m f size l c false -> run (page_request q m f c size) d = Ok (VPage p) ->
      loaded q m f size (l ++ page_items p) (next_cursor p) (exhausted p).

(** The table: its rows are pages of its query, and the request it waits for is the one for the next page. *)
Definition table_ok (w : worker) (t : table) : Prop :=
  (thread_mode t = false -> exists x, loaded (t_query t) (t_mode t) (t_filters t) (page_size t) (items t) (t_next_cursor t) x
     /\ (t_stopped t = false -> x = t_exhausted t))
  /\ (forall p, t_pending t = Some p -> t_stopped t = false /\ thread_mode t = false /\ t_exhausted t = false
        /\ speaks (table_request t) p w).
Definition inv (g : gui) : Prop := sound (g_worker g) /\ table_ok (g_worker g) (rows g).
Definition sound_gui (g : gui) : Prop := sound (g_worker g).

Lemma table_ok_adds w w' t : sound w -> adds_nothing fts_match normalize_for_search w w' -> table_ok w t -> table_ok w' t.
Proof.
  intros Hs Ha [H1 H2]. split; [done|]. intros p Hp. destruct (H2 p Hp) as (? & ? & ? & ?). split_and!; try done.
  by apply (speaks_adds _ _ _ _ w).
Qed.
Lemma inv_adds w' g : running w' = running (g_worker g) -> adds_nothing fts_match normalize_for_search (g_worker g) w' ->
  inv g -> inv (set_worker w' g).
Proof. intros Er Ha [H1 H2]. split; [by apply (sound_adds _ _ (g_worker g))|by apply (table_ok_adds (g_worker g))]. Qed.
Lemma keeps_view (P : gui -> Prop) f : (forall v g, P g -> P (set_view v g)) -> keeps P (on_view f).
Proof. intros H. apply keeps_modify. intros g. apply H. Qed.
Lemma inv_view v g : inv g -> inv (set_view v g).
Proof. done. Qed.
Lemma inv_busy b g : inv g -> inv (set_busy b g).
Proof. done. Qed.
Lemma keeps_on_view f : keeps inv (on_view f).
Proof. by apply keeps_modify. Qed.
Lemma keeps_set_busy b : keeps inv (mmodify (set_busy b)).
Proof. by apply keeps_modify. Qed.
Lemma keeps_cancel c : keeps inv (on_worker (cancel c)).
Proof. intros g H. cbn. by apply inv_adds; [|apply adds_cancel|]. Qed.
Lemma keeps_request op : keeps inv (on_worker (queue_request op)).
Proof.
  intros g [H1 H2]. unfold on_worker, post. pose proof (sound_request _ _ op (g_worker g) H1) as Hs.
  assert (table_ok (queue_request op (g_worker g)).2 (rows g)) as Ht.
  { destruct H2 as [H2 H3]. split; [done|]. intros p Hp. destruct (H3 p Hp) as (? & ? & ? & ?). split_and!; try done. by apply speaks_request. }
  destruct (queue_request op (g_worker g)) as [[h|e] w]; by split.
Qed.
Lemma keeps_cancel_pending : keeps inv cancel_pending.
Proof.
  apply keeps_bnd; [apply keeps_gets|]. intros t. destruct (t_pending t); [|apply keeps_ret].
  apply keeps_bnd; [apply keeps_cancel|]. intros h. apply keeps_ret.
Qed.
Lemma reset_restores : triple sound_gui reset_pages (fun _ => inv) inv.
Proof.
  intros g H. unfold reset_pages, cancel_pending, mbnd, mgets, on_worker, on_rows, mmodify, post.
  assert (forall w, sound w -> inv (set_rows (set_pages [] None false None false (rows g)) (set_worker w g))) as Hinv.
  { intros w Hw. split; [done|]. split; [|done]. intros _. exists false. split; [constructor|done]. }
  destruct (t_pending (rows g)); cbn.
  - apply Hinv. apply (sound_adds _ _ (g_worker g)); [done|apply adds_cancel|exact H].
  - apply (Hinv (g_worker g)), H.
Qed.
Lemma keeps_reset : keeps inv reset_pages.
Proof. eapply triple_conseq; [apply reset_restores|by intros g []|done|done]. Qed.
Lemma keeps_fetch_more : keeps inv fetch_more.
Proof.
  intros g [H1 [H2 H3]]. unfold fetch_more, mbnd, mgets. destruct (can_fetch_more (rows g)) eqn:Ec; [|done].
  unfold can_fetch_more in Ec. rewrite !andb_true_iff, !negb_true_iff in Ec. destruct Ec as [[[E1 E2] E3] E4].
  pose proof (keeps_request (table_request (rows g)) g (conj H1 (conj H2 H3))) as Hk.
  unfold on_worker, post in *. destruct (queue_request (table_request (rows g)) (g_worker g)) as [[h|e] w] eqn:E; [|done].
  destruct Hk as [Hs [Hk1 Hk2]]. split; [done|]. split; [done|]. cbn. intros p [= <-]. split_and!; try done.
  destruct H1 as [H1 _]. apply (speaks_queued _ _ _ _ _ _ H1 E).
Qed.
#[local] Hint Resolve keeps_on_view keeps_set_busy keeps_cancel keeps_request keeps_cancel_pending keeps_reset keeps_fetch_more : keeps.

Lemma rows_reset f : keeps inv (on_rows f ;! reset_pages).
Proof.
  eapply triple_bnd with (Q := fun _ => sound_gui); [|intros _; apply reset_restores].
  intros g [H _]. exact H.
Qed.
Lemma keeps_table_set_filters f : keeps inv (table_set_filters f).
Proof. apply keeps_bnd; [apply keeps_gets|]. intros t. apply keeps_if; [apply keeps_ret|apply rows_reset]. Qed.
Lemma keeps_table_set_search q m : keeps inv (table_set_search q m).
Proof. apply keeps_bnd; [apply keeps_gets|]. intros t. apply keeps_if; [apply keeps_ret|apply rows_reset]. Qed.
Lemma keeps_show_thread l : keeps inv (show_thread l).
Proof. intros g [H _]. split; [exact H|]. by split. Qed.
Lemma keeps_clear_thread : keeps inv clear_thread.
Proof.
  apply keeps_bnd; [apply keeps_gets|]. intros t. apply keeps_if; [|apply keeps_ret]. intros g [H _]. split; [exact H|].
  split; [|done]. intros _. exists false. by split; [constructor|].
Qed.
Lemma keeps_stop_loading : keeps inv stop_loading.
Proof.
  apply keeps_bnd; [apply keeps_gets|]. intros t. apply keeps_if; [apply keeps_ret|]. apply keeps_bnd; [apply keeps_cancel_pending|].
  intros _ g [H [H1 H2]]. split; [exact H|]. split; [|done]. cbn. intros Ht. destruct (H1 Ht) as (x & Hx & _). by exists x.
Qed.
Lemma keeps_cancel_list_search : keeps inv cancel_list_search.
Proof.
  apply keeps_bnd; [apply keeps_gets|]. intros v. destruct (v_pending v); [|apply keeps_ret].
  apply keeps_bnd; [apply keeps_cancel|]. intros h. repeat (apply keeps_bnd; [auto with keeps|]; intros []). apply keeps_ret.
Qed.
#[local] Hint Resolve keeps_table_set_filters keeps_table_set_search keeps_show_thread keeps_clear_thread keeps_stop_loading
  keeps_cancel_list_search : keeps.
Lemma keeps_request_page c limit : keeps inv (request_page c limit).
Proof.
  apply keeps_if; [apply keeps_raise|]. apply keeps_bnd; [auto with keeps|]. intros _. apply keeps_bnd; [auto with keeps|]. intros v.
  apply keeps_bnd; [auto with keeps|]. intros h. repeat (apply keeps_bnd; [auto with keeps|]; intros []). apply keeps_ret.
Qed.
Lemma keeps_emit_search : keeps inv emit_search_changed.
Proof. apply keeps_bnd; auto with keeps. Qed.
#[local] Hint Resolve keeps_request_page keeps_emit_search : keeps.
Lemma keeps_set_filters f : keeps inv (set_filters f).
Proof.
  apply keeps_bnd; [auto with keeps|]. intros v. apply keeps_if; [auto with keeps|].
  repeat (apply keeps_bnd; [unfold clear_search_error; auto with keeps|]; intros ?). apply keeps_ret.
Qed.
Lemma keeps_search_changed g' : keeps inv (on_view g' ;! clear_search_error ;! emit_search_changed).
Proof. do 2 (apply keeps_bnd; [unfold clear_search_error; auto with keeps|]; intros ?). auto with keeps. Qed.
Lemma keeps_execute_search q m : keeps inv (execute_search q m).
Proof. repeat (apply keeps_bnd; [unfold clear_search_error; auto with keeps|]; intros ?). auto with keeps. Qed.

(** *** Delivering *)

Definition with_signal (s : signal) (g : gui) : Prop := inv g /\ s ∈ signals (g_worker g).
Lemma signal_view s f : keeps (with_signal s) (on_view f).
Proof. by apply keeps_modify. Qed.
Lemma signal_end s : keeps (with_signal s) end_request.
Proof. apply keeps_bnd; [apply signal_view|]. intros _. by apply keeps_modify. Qed.
Lemma signal_on_result s c id v : keeps (with_signal s) (on_result c id v).
Proof.
  apply keeps_bnd; [apply keeps_gets|]. intros w. apply keeps_if; [|apply keeps_ret]. apply keeps_bnd; [apply signal_end|].
  intros _. apply signal_view.
Qed.
Lemma inv_unpend g : inv g -> inv (set_rows (set_t_pending None (rows g)) g).
Proof. intros [H [H1 H2]]. split; [exact H|]. by split. Qed.
Lemma result_loads c id v : triple (with_signal (SResult c id v)) (table_on_result c id v) (fun _ => inv) inv.
Proof.
  intros g [[H [H1 H2]] Hs]. unfold table_on_result, mbnd, mgets, on_rows, mmodify.
  destruct (negb (c == ListSearch) || thread_mode (rows g) || negb (Some id == t_pending (rows g))) eqn:E; [by split|].
  rewrite !orb_false_iff, !negb_false_iff in E. destruct E as [[Ec Eth] Ep]. apply eqb_true_1 in Ec as ->. apply eqb_true_1 in Ep.
  destruct (H2 id (eq_sym Ep)) as (Est & _ & Eex & Hsp). destruct v as [p|l|n|x|x]; try by apply inv_unpend.
  split; [exact H|]. split; [|done]. cbn. intros _. exists (exhausted p). split; [|done].
  destruct (H1 Eth) as (x & Hx & Hxe). rewrite (Hxe Est), Eex in Hx. destruct (sp_result _ _ _ _ _ Hsp (VPage p)) as [d Hd].
  - assert (channel_of (table_request (rows g)) = ListSearch) as -> by (unfold table_request, page_request; by destruct (t_query (rows g))).
    exact Hs.
  - by apply (loaded_page _ _ _ _ (items (rows g)) (t_next_cursor (rows g)) p d).
Qed.
Lemma keeps_table_finished c id : keeps inv (table_on_finished c id).
Proof.
  apply keeps_bnd; [apply keeps_gets|]. intros t. apply keeps_if; [|apply keeps_ret]. apply keeps_modify. intros g. apply inv_unpend.
Qed.
Lemma keeps_end_request : keeps inv end_request.
Proof. apply keeps_bnd; auto with keeps. Qed.
Lemma deliver_keeps : keeps inv deliver.
Proof.
  intros g H. unfold deliver. destruct (signals (g_worker g) !! delivered g) as [s|] eqn:E; [|done].
  assert (with_signal s (Gui (g_worker g) (view g) (rows g) (S (delivered g)) (query_busy g))) as Hs
    by (split; [done|by eapply list_elem_of_lookup_2]).
  revert Hs. generalize (Gui (g_worker g) (view g) (rows g) (S (delivered g)) (query_busy g)). clear g H E.
  change (triple (with_signal s) (handle_signal s) (fun _ => inv) inv).
  assert (forall A (m : M gui A), keeps inv m -> triple (with_signal s) m (fun _ => inv) inv) as Hk
    by (intros A m Hm g [Hg _]; by apply Hm).
  destruct s as [c id v|c id e|c id|c id slow|e].
  - eapply triple_bnd with (Q := fun _ => with_signal (SResult c id v)); [|intros _; apply result_loads].
    eapply triple_conseq; [apply signal_on_result|done|done|by intros g []].
  - apply Hk. apply keeps_bnd; [|intros _; apply keeps_table_finished]. apply keeps_bnd; [auto with keeps|]. intros v.
    apply keeps_if; [|apply keeps_ret]. apply keeps_bnd; [apply keeps_end_request|]. auto with keeps.
  - apply Hk. apply keeps_bnd; [|intros _; apply keeps_table_finished]. apply keeps_bnd; [auto with keeps|]. intros v.
    apply keeps_if; [apply keeps_end_request|apply keeps_ret].
  - apply Hk. apply keeps_bnd; [auto with keeps|]. intros v. apply keeps_if; auto with keeps.
  - apply Hk. apply keeps_ret.
Qed.
Lemma keeps_ignore {A} (P : gui -> Prop) (m : M gui A) : keeps P m -> keeps P (ignore m).
Proof. intros H. apply keeps_bnd; [done|]. intros _. apply keeps_ret. Qed.
Lemma worker_keeps {A} (m : M worker A) : (forall w, running (m w).2 = running w) ->
  (forall w, adds_nothing fts_match normalize_for_search w (m w).2) -> keeps inv (on_worker m).
Proof.
  intros Hr Ha g H. unfold on_worker, post. specialize (Hr (g_worker g)). specialize (Ha (g_worker g)).
  destruct (m (g_worker g)) as [[a|e] w]; by apply inv_adds.
Qed.
Lemma perform_keeps a : keeps inv (perform a).
Proof.
  destruct a; cbn [perform]; try (apply keeps_ignore); auto with keeps.
  - apply keeps_set_filters.
  - apply keeps_bnd; [apply keeps_gets|]. intros v. apply keeps_if; [apply keeps_ret|apply keeps_search_changed].
  - apply keeps_bnd; [apply keeps_gets|]. intros v. apply keeps_if; [apply keeps_ret|apply keeps_search_changed].
  - apply keeps_execute_search.
  - apply keeps_on_view.
  - apply keeps_bnd; [apply keeps_gets|]. intros t. apply keeps_if; [apply keeps_ret|]. apply keeps_bnd; auto with keeps.
  - apply keeps_if; [apply keeps_ret|]. apply keeps_ignore, keeps_request.
  - apply keeps_if; [apply keeps_ret|]. apply keeps_ignore, keeps_cancel.
  - apply worker_keeps; intros w; [unfold start; by destruct (stopping w)|apply adds_start].
  - apply worker_keeps; intros w; [|apply adds_begin_stop]. unfold begin_stop, mbnd. cbn. destruct (stopped w); [done|]. cbn. by destruct (started w).
  - apply deliver_keeps.
Qed.
Lemma keeps_snd {A} (P : gui -> Prop) (m : M gui A) g : keeps P m -> P g -> P (m g).2.
Proof. intros H Hg. specialize (H g Hg). unfold post in H. by destruct (m g) as [[a|e] g']. Qed.
Lemma inv_step g g' : inv g -> gui_step g g' -> inv g'.
Proof.
  intros H Hst. revert H. destruct Hst as [g1 a Hw|g1 Hw Hr|g1 o Hs Hd]; intros H.
  - by apply keeps_snd; [apply perform_keeps|].
  - apply inv_adds; [done|apply adds_end_stop|done].
  - destruct H as [H1 H2]. split; [by apply sound_thread|]. apply (table_ok_adds (g_worker g1)); [done| |done].
    apply adds_thread. by destruct H1.
Qed.

(** *** The view model and the table agree *)

Definition view_key (v : viewmodel) : MessageFilter * pystr * search_mode := (v_filters v, v_query v, v_mode v).
Definition table_key (t : table) : MessageFilter * pystr * search_mode := (t_filters t, t_query t, t_mode t).
Definition keyed (k k' : MessageFilter * pystr * search_mode) (g : gui) : Prop := view_key (view g) = k /\ table_key (rows g) = k'.
Definition agree (g : gui) : Prop := view_key (view g) = table_key (rows g).

Section Keys.
Context (k k' : MessageFilter * pystr * search_mode).
Lemma keyed_view f : (forall v, view_key (f v) = view_key v) -> keeps (keyed k k') (on_view f).
Proof. intros Hf. apply keeps_modify. intros g [H1 H2]. split; [|done]. cbn. by rewrite Hf. Qed.
Lemma keyed_rows f : (forall t, table_key (f t) = table_key t) -> keeps (keyed k k') (on_rows f).
Proof. intros Hf. apply keeps_modify. intros g [H1 H2]. split; [done|]. cbn. by rewrite Hf. Qed.
Lemma keyed_worker {A} (m : M worker A) : keeps (keyed k k') (on_worker m).
Proof. intros g H. unfold on_worker, post. by destruct (m (g_worker g)) as [[a|e] w]. Qed.
Lemma keyed_busy b : keeps (keyed k k') (mmodify (set_busy b)).
Proof. by apply keeps_modify. Qed.
#[local] Hint Resolve keyed_worker keyed_busy : keeps.
#[local] Hint Extern 1 (keeps (keyed _ _) (on_view _)) => by apply keyed_view : keeps.
#[local] Hint Extern 1 (keeps (keyed _ _) (on_rows _)) => by apply keyed_rows : keeps.
Ltac walk := repeat first [apply keeps_if | apply keeps_bnd; [|intros ?] | progress auto with keeps | case_match].
Lemma keyed_cancel_pending : keeps (keyed k k') cancel_pending.
Proof. unfold cancel_pending. walk. Qed.
Lemma keyed_reset : keeps (keyed k k') reset_pages.
Proof. apply keeps_bnd; [apply keyed_cancel_pending|]. auto with keeps. Qed.
Lemma keyed_cancel_list : keeps (keyed k k') cancel_list_search.
Proof. unfold cancel_list_search. walk. Qed.
Lemma keyed_fetch_more : keeps (keyed k k') fetch_more.
Proof. unfold fetch_more. walk. Qed.
Lemma keyed_end : keeps (keyed k k') end_request.
Proof. unfold end_request. walk. Qed.
#[local] Hint Resolve keyed_cancel_pending keyed_reset keyed_cancel_list keyed_fetch_more keyed_end : keeps.
Lemma keyed_request_page c limit : keeps (keyed k k') (request_page c limit).
Proof. unfold request_page. walk. Qed.
Lemma keyed_signal s : keeps (keyed k k') (handle_signal s).
Proof.
  unfold handle_signal, on_result, on_request_failed, on_request_cancelled, on_search_path_detected, table_on_result, table_on_finished.
  walk.
Qed.
#[local] Hint Resolve keyed_request_page : keeps.
Lemma keyed_others a : match a with SetFilters _ | SetSearchQuery _ | SetSearchMode _ | ExecuteSearch _ _ => True
  | _ => keeps (keyed k k') (perform a) end.
Proof.
  destruct a; try done; cbn [perform]; try apply keeps_ignore; auto with keeps.
  - unfold reload. walk.
  - unfold clear_thread. walk.
  - unfold stop_loading. walk.
  - walk.
  - intros g H. unfold deliver. destruct (signals (g_worker g) !! delivered g) as [s|]; [|done]. by apply keyed_signal.
Qed.
End Keys.
Lemma agree_keyed {A} (m : M gui A) : (forall k, keeps (keyed k k) m) -> keeps agree m.
Proof.
  intros H g Hg. specialize (H (view_key (view g)) g (conj eq_refl (eq_sym Hg))). unfold post, agree in *.
  destruct (m g) as [[a|e] g']; destruct H as [H1 H2]; congruence.
Qed.
(** Resetting the pages never raises. *)
Lemma reset_keyed k k' E : triple (keyed k k') reset_pages (fun _ => keyed k k') E.
Proof.
  intros g H. unfold reset_pages, cancel_pending, mbnd, mgets, on_worker, on_rows, mmodify. by destruct (t_pending (rows g)).
Qed.
Lemma table_filters_keyed k f q m f' E :
  triple (keyed k (f', q, m)) (table_set_filters f) (fun _ => keyed k (f, q, m)) E.
Proof.
  intros g [H1 H2]. unfold table_set_filters, mbnd at 1, mgets. destruct (f == t_filters (rows g)) eqn:Ef.
  - apply eqb_true_1 in Ef. split; [done|]. cbn. injection H2 as <- <- <-. by rewrite Ef.
  - eapply (reset_keyed k (f, q, m) E). split; [done|]. cbn. by injection H2 as _ <- <-.
Qed.
Lemma table_search_keyed k f q m q' m' E :
  triple (keyed k (f, q', m')) (table_set_search q m) (fun _ => keyed k (f, q, m)) E.
Proof.
  intros g [H1 H2]. unfold table_set_search, mbnd at 1, mgets.
  destruct ((q == t_query (rows g)) && (m == t_mode (rows g))) eqn:Ef.
  - apply andb_true_iff in Ef as [Eq Em]. apply eqb_true_1 in Eq, Em. split; [done|]. cbn. injection H2 as <- <- <-. by rewrite Eq, Em.
  - eapply (reset_keyed k (f, q, m) E). split; [done|]. cbn. by injection H2 as <- _ _.
Qed.
Lemma view_keyed f k k1 k' E : (forall v, view_key v = k -> view_key (f v) = k1) ->
  triple (keyed k k') (on_view f) (fun _ => keyed k1 k') E.
Proof. intros H. apply triple_modify. intros g [H1 H2]. split; [by apply H|done]. Qed.
Lemma agree_set_filters f : keeps agree (set_filters f).
Proof.
  intros g Hg. assert (exists f0 q m, keyed (f0, q, m) (f0, q, m) g) as (f0 & q & m & Hk) by (eexists _, _, _; split; [done|by rewrite <- Hg]).
  revert g Hk Hg. intros g Hk _. revert g Hk. change (triple (keyed (f0, q, m) (f0, q, m)) (set_filters f) (fun _ => agree) agree).
  assert (forall k g, keyed k k g -> agree g) as Ha by (intros k g [H1 H2]; unfold agree; congruence).
  unfold set_filters. eapply triple_bnd with (Q := fun _ => keyed (f0, q, m) (f0, q, m)); [by apply triple_gets|]. intros v.
  destruct (f == v_filters v); [by apply triple_ret, Ha|].
  eapply triple_bnd with (Q := fun _ => keyed (f0, q, m) (f0, q, m)).
  { eapply triple_conseq; [apply keyed_cancel_list|done|done|apply Ha]. }
  intros ?. eapply triple_bnd; [apply (view_keyed _ _ (f, q, m)); intros w E; injection E as _ <- <-; reflexivity|].
  intros ?. eapply triple_bnd; [apply (view_keyed _ _ (f, q, m)); by intros w E|].
  intros ?. eapply triple_bnd; [apply (view_keyed _ _ (f, q, m)); by intros w E|].
  intros ?. eapply triple_bnd; [apply (table_filters_keyed (f, q, m) f q m f0)|].
  intros ?. eapply triple_conseq; [|done|intros ? g'; apply (Ha (f, q, m))|intros g'; apply (Ha (f, q, m))].
  apply keeps_bnd; [apply keyed_request_page|]. intros _. apply keeps_ret.
Qed.
(** Emitting [search_changed] brings the table to the view model's query. *)
Lemma emit_agrees f q m k E : triple (keyed (f, q, m) (f, k.1, k.2)) emit_search_changed (fun _ => keyed (f, q, m) (f, q, m)) E.
Proof.
  intros g H. unfold emit_search_changed, mbnd at 1, mgets. assert (v_query (view g) = q /\ v_mode (view g) = m) as [-> ->]
    by (destruct H as [H1 _]; by injection H1 as _ -> ->). by apply (table_search_keyed (f, q, m) f q m k.1 k.2).
Qed.
Lemma search_changed_agrees (u : viewmodel -> viewmodel) : (forall v, v_filters (u v) = v_filters v) ->
  keeps agree (on_view u ;! clear_search_error ;! emit_search_changed).
Proof.
  intros Hu g Hg. unfold on_view at 1, mbnd at 1, mmodify. set (g1 := set_view (u (view g)) g).
  assert (keyed (v_filters (view g), v_query (u (view g)), v_mode (u (view g))) (v_filters (view g), (t_query (rows g), t_mode (rows g)).1,
    (t_query (rows g), t_mode (rows g)).2) g1) as Hk.
  { split; cbn; unfold view_key, table_key; [by rewrite Hu|]. unfold agree, view_key, table_key in Hg. congruence. }
  unfold clear_search_error, on_view, mbnd at 1, mmodify.
  pose proof (emit_agrees _ _ _ _ agree (set_view (set_search_error ""%string (view g1)) g1) Hk) as H.
  unfold post in *. destruct (emit_search_changed _) as [[[]|e] g']; [|done]. destruct H as [H1 H2]. unfold agree. congruence.
Qed.
Lemma agree_execute q m : keeps agree (execute_search q m).
Proof.
  set (u := fun v => set_v_search (get_or (v_query v) q) (get_or (v_mode v) m) v).
  assert (keeps agree (on_view u ;! clear_search_error ;! on_view (set_slow_path false) ;! emit_search_changed)) as H.
  { intros g Hg. pose proof (search_changed_agrees (fun v => set_slow_path false (u v)) (fun v => eq_refl) g Hg) as H. exact H. }
  intros g Hg. specialize (H g Hg). change (execute_search q m g) with (mbnd (on_view u ;! clear_search_error ;! on_view (set_slow_path false) ;!
    emit_search_changed) (fun _ => request_page None DEFAULT_PAGE_SIZE) g).
  unfold mbnd at 1. unfold post in H. destruct ((on_view u ;! clear_search_error ;! on_view (set_slow_path false) ;! emit_search_changed) g)
    as [[[]|e] g']; [|exact H]. by apply (agree_keyed _ (fun k => keyed_request_page k k None DEFAULT_PAGE_SIZE)).
Qed.
Lemma agree_perform a : keeps agree (perform a).
Proof.
  pose proof (fun k => keyed_others k k a) as H. destruct a; try (apply agree_keyed, H); clear H; cbn [perform].
  - apply agree_set_filters.
  - apply keeps_bnd; [by apply keeps_gets|]. intros v. apply keeps_if; [apply keeps_ret|by apply search_changed_agrees].
  - apply keeps_bnd; [by apply keeps_gets|]. intros v. apply keeps_if; [apply keeps_ret|by apply search_changed_agrees].
  - apply keeps_ignore, agree_execute.
Qed.
Lemma agree_step g g' : agree g -> gui_step g g' -> agree g'.
Proof.
  intros H Hst. revert H. destruct Hst as [g1 a Hw|g1 Hw Hr|g1 o Hs Hd]; intros H; [|exact H|exact H].
  by apply keeps_snd; [apply agree_perform|].
Qed.
Lemma reachable_inv g : gui_reachable fts_match normalize_for_search g -> inv g /\ agree g.
Proof.
  assert (inv initial_gui /\ agree initial_gui) as H0.
  { split; [|done]. split; [apply sound_initial|]. split; [|done]. intros _. exists false. by split; [constructor|]. }
  intros H. revert H0. induction H as [|g1 g2 g3 Hst _ IH]; [done|]. intros [H1 H2].
  apply IH. split; [by apply (inv_step g1)|by apply (agree_step g1)].
Qed.

(** C12. The message list shows the current query: in every interleaving of the user's actions, of the view model's and
    the table's requests on their shared channel and of the query thread, the rows of the list (when it does not show a
    thread) are pages of the filters, query and mode the view model holds now, in order, each read from the cursor the
    page before left: no row of another query, and no page asked for twice or left out. *)
Theorem rows_answer_current_query g : gui_reachable fts_match normalize_for_search g -> thread_mode (rows g) = false ->
  exists x, loaded (v_query (view g)) (v_mode (view g)) (v_filters (view g)) (page_size (rows g)) (items (rows g)) (t_next_cursor (rows g)) x.
Proof.
  intros H Ht. destruct (reachable_inv g H) as [[_ [H1 _]] Ha]. destruct (H1 Ht) as (x & Hx & _). exists x.
  unfold agree, view_key, table_key in Ha. injection Ha as -> -> ->. exact Hx.
Qed.
End WindowFacts.

(** ** Concrete runs *)

(** The window after a sequence of actions, each followed by steps of the query thread. *)
Definition act (a : action) (g : gui) : gui := (perform a g).2.
Definition run_thread (n : nat) (o : oracle) (g : gui) : gui :=
  set_worker (Nat.iter n (thread_step any_text plain_text o) (g_worker g)) g.
Definition mail : oracle := Oracle (inl (mailbox 1)) None None.
Definition opened : gui := act Start initial_gui.
Lemma reachable_act a g : gui_reachable any_text plain_text g -> waiting (g_worker g) = false ->
  gui_reachable any_text plain_text (act a g).
Proof. intros H Hw. eapply rtc_r; [exact H|by apply gui_action]. Qed.
Lemma reachable_thread n o g : gui_reachable any_text plain_text g -> started (g_worker g) = true -> stopped (g_worker g) = false ->
  gui_reachable any_text plain_text (run_thread n o g).
Proof.
  intros H Hs Hd. assert (forall n, let w := Nat.iter n (thread_step any_text plain_text o) (g_worker g) in
    started w = true /\ stopped w = false /\ gui_reachable any_text plain_text (set_worker w g)) as Hn; [|by apply Hn].
  clear n. induction n as [|n (H1 & H2 & H3)]; [destruct g; done|]. rewrite Nat.iter_succ. set (w := Nat.iter n _ _) in *. cbn in H1.
  destruct (thread_step_frame any_text plain_text o w) as [_ _ (E1 & _ & E2) _]. cbv zeta. rewrite E1, E2. split_and!; [done|done|].
  eapply rtc_r; [exact H3|]. exact (gui_thread any_text plain_text (set_worker w g) o H1 H2).
Qed.
(** The list after its first page was loaded. *)
Definition loaded_list : gui := act Deliver (run_thread 18 mail (act FetchMore opened)).
Lemma rows_answer_current_query_witness :
  map ms_id (items (rows loaded_list)) = [1%Z]
  /\ exists x, loaded any_text plain_text [] ModeAnd default_filter 200 (items (rows loaded_list)) (t_next_cursor (rows loaded_list)) x.
Proof.
  split; [vm_compute; reflexivity|].
  apply (rows_answer_current_query any_text plain_text loaded_list); [|vm_compute; reflexivity].
  apply reachable_act; [|vm_compute; reflexivity]. apply reachable_thread; [|vm_compute; reflexivity|vm_compute; reflexivity].
  apply reachable_act; [|vm_compute; reflexivity]. apply reachable_act; [apply rtc_refl|reflexivity].
Defined.

(** Both clients share one channel and a superseded request is never answered, so that one of them can wait for ever.
    The view model asks for a page, then the table does: when everything was answered and delivered, the window still says
    that it is querying. *)
Definition deliver_all (g : gui) : gui := Nat.iter (length (signals (g_worker g)) - delivered g) (act Deliver) g.
Definition both_asked : gui := deliver_all (run_thread 36 mail (act FetchMore (act (RequestPage None 200) opened))).
Lemma view_model_stays_busy :
  running (g_worker both_asked) = Idle /\ queue (g_worker both_asked) = [] /\ delivered both_asked = length (signals (g_worker both_asked))
  /\ map ms_id (items (rows both_asked)) = [1%Z] /\ v_pending (view both_asked) = Some 1%Z /\ query_busy both_asked = true.
Proof. vm_compute. done. Qed.
(** The table asks for a page, then the same search is confirmed again: the page that arrives is the view model's, which shows
    no rows, and the table, which waits for its own, never asks again. *)
Definition asked_again : gui := deliver_all (run_thread 36 mail (act (ExecuteSearch None None) (act FetchMore opened))).
Lemma table_stays_blocked :
  running (g_worker asked_again) = Idle /\ queue (g_worker asked_again) = [] /\ delivered asked_again = length (signals (g_worker asked_again))
  /\ items (rows asked_again) = [] /\ can_fetch_more (rows asked_again) = false /\ act FetchMore asked_again = asked_again.
Proof. vm_compute. done. Qed.
(** Typing a character empties the list before the search is confirmed. *)
Lemma typing_empties_list : items (rows loaded_list) <> [] /\ items (rows (act (SetSearchQuery [97%Z]) loaded_list)) = [].
Proof. by vm_compute. Qed.
(** A view model without a page of its own: what it asks for is never shown. *)
Lemma view_model_page_not_shown :
  items (rows (deliver_all (run_thread 18 mail (act (RequestPage None 200) opened)))) = [].
Proof. vm_compute. reflexivity. Qed.
