(* ===== verification/World.v ===== *)
(** * World: the durable state and the operations that can fail

    What the use cases change: the SQLite connection (committed database, open batch), the EML
    files under the storage root, the manifest of the account (events already synced, events
    still buffered), and the log of the commands sent to the mail server. Every operation that
    touches the storage may fail instead of taking effect: [faults] says which ones do, by their
    number, and which exception they raise (a detached drive is a [StorageDetachedError], a full
    disk an [OSError], a failed statement a [DatabaseError]). A run in which every operation from
    the n-th on fails leaves on disk what a crash at that point leaves, so a theorem about every
    [faults] covers every crash point and every pattern of I/O errors.

    [pst_logs] holds the manifests of PST imports, one per generation.

    The manifest is the list of its events, which is what the readers of [Manifest] return
    (the byte level, torn lines included, is proved there). *)

From S2P Require Import Prelude Errors Json Manifest Database.

(** A command sent to the mail server: what it asks, and the durable state when it was sent. *)
Record remote_call := RemoteCall {
  rc_mode : string;
  rc_folder : string;
  rc_uid : Z;
  rc_expected : option Z;
  rc_db : Db;
  rc_fs : list (string * bytes);
  rc_synced : list event;
}.

(** The manifest of a PST generation: its event log, as that of the account, and the contents of its
    two snapshot files. *)
Record pst_log := PstLog {
  pl_synced : list event;
  pl_buffered : list event;
  pl_import : option bytes;
  pl_folders : option bytes;
}.

Record World := MkWorld {
  committed : Db;
  working : option Db;
  fs : list (string * bytes);
  synced : list event;
  buffered : list event;
  last_sequence : option Z;
  ticks : nat;
  faults : nat -> option exn;
  remote : list remote_call;
  pst_logs : list (string * pst_log);
}.

Definition set_committed d w := MkWorld d (working w) (fs w) (synced w) (buffered w)
  (last_sequence w) (ticks w) (faults w) (remote w) (pst_logs w).
Definition set_working o w := MkWorld (committed w) o (fs w) (synced w) (buffered w)
  (last_sequence w) (ticks w) (faults w) (remote w) (pst_logs w).
Definition set_fs f w := MkWorld (committed w) (working w) f (synced w) (buffered w)
  (last_sequence w) (ticks w) (faults w) (remote w) (pst_logs w).
Definition set_manifest s b n w := MkWorld (committed w) (working w) (fs w) s b n (ticks w) (faults w)
  (remote w) (pst_logs w).
Definition tick w := MkWorld (committed w) (working w) (fs w) (synced w) (buffered w)
  (last_sequence w) (S (ticks w)) (faults w) (remote w) (pst_logs w).
Definition log_remote c w := MkWorld (committed w) (working w) (fs w) (synced w) (buffered w)
  (last_sequence w) (ticks w) (faults w) (remote w ++ [c]) (pst_logs w).
Definition set_pst_logs l w := MkWorld (committed w) (working w) (fs w) (synced w) (buffered w)
  (last_sequence w) (ticks w) (faults w) (remote w) l.

(** What the connection reads: the open batch, else the committed database. *)
Definition view (w : World) : Db := get_or (committed w) (working w).

(** An I/O operation, or its failure. *)
Definition io {A} (m : M World A) : M World A :=
  fun w => match faults w (ticks w) with Some e => (Err e, tick w) | None => m (tick w) end.

(** ** The repository *)

Definition db_read {A} (f : Db -> A) : M World A := io (mgets (fun w => f (view w))).

(** A statement runs in the open batch, or commits on its own. *)
Definition put_db (d : Db) (w : World) : World :=
  match working w with Some _ => set_working (Some d) w | None => set_committed d w end.
Lemma view_put d w : view (put_db d w) = d.
Proof. unfold view, put_db. destruct (working w) eqn:E; cbn; by rewrite ?E. Qed.
Definition db_write {A} (f : Db -> result (A * Db)) : M World A :=
  io (fun w => match f (view w) with
               | Ok (a, d) => (Ok a, put_db d w)
               | Err e => (Err e, w)
               end).
Definition db_update (f : Db -> Db) : M World unit := db_write (fun d => Ok (tt, f d)).
Definition db_update' (f : Db -> result Db) : M World unit :=
  db_write (fun d => let? d := f d in Ok (tt, d)).

Definition begin_batch : M World unit :=
  io (fun w => match working w with
               | Some _ => (raise DatabaseError "A database batch is already open", w)
               | None => (Ok tt, set_working (Some (committed w)) w)
               end).
Definition commit_batch : M World unit :=
  io (mmodify (fun w => match working w with
                        | Some d => set_working None (set_committed d w)
                        | None => w
                        end)).

(** ** The manifest *)

Definition all_events (w : World) : list event := synced w ++ buffered w.

(** [append]: the checks of [Manifest.append], then a buffered write. *)
Definition man_append (e : event) : M World unit :=
  io (fun w =>
    match (let? payload := validate_event e in
           let? next := if is_checkpoint payload
                        then let? n := validate_checkpoint_sequence (get "sequence" payload)
                                         (last_sequence w) in Ok (Some n)
                        else Ok (last_sequence w) in
           let? _ := encode_event payload in
           Ok next) with
    | Ok next => (Ok tt, set_manifest (synced w) (buffered w ++ [e]) next w)
    | Err x => (Err x, w)
    end).
Definition flush_and_sync : M World unit :=
  io (mmodify (fun w => set_manifest (all_events w) [] (last_sequence w) w)).

(** ** EML files below the storage root, by relative path *)

Definition read_file (p : string) (w : World) : option bytes := dict_get p (fs w).
Definition put_file (p : string) (c : bytes) : M World unit :=
  io (mmodify (fun w => set_fs (dict_set p c (fs w)) w)).
Definition remove_file (p : string) : M World unit :=
  io (mmodify (fun w => set_fs (dict_pop p (fs w)) w)).

(** ** Reasoning: relations every step respects *)

(** [m] relates the world it starts in to the world it ends in, however it ends. *)
Definition preserves (R : World -> World -> Prop) {A} (m : M World A) : Prop :=
  forall w, R w (m w).2.

Section Preserves.
Context (R : World -> World -> Prop) `{!PreOrder R}.

Lemma preserves_ret {A} (a : A) : preserves R (mret a).
Proof. intros w. reflexivity. Qed.
Lemma preserves_lift {A} (r : result A) : preserves R (mlift r).
Proof. intros w. reflexivity. Qed.
Lemma preserves_raise {A} c msg : preserves R (@mraise World A c msg).
Proof. intros w. reflexivity. Qed.
Lemma preserves_gets {A} (f : World -> A) : preserves R (mgets f).
Proof. intros w. reflexivity. Qed.
Lemma preserves_bnd {A B} (m : M World A) (k : A -> M World B) :
  preserves R m -> (forall a, preserves R (k a)) -> preserves R (mbnd m k).
Proof.
  intros Hm Hk w. specialize (Hm w). unfold mbnd. destruct (m w) as [[a|e] w1]; simpl in *; [|done].
  etransitivity; [exact Hm | apply Hk].
Qed.
Lemma preserves_when b m : preserves R m -> preserves R (mwhen b m).
Proof. destruct b; [done|]. intros _. apply preserves_ret. Qed.
Lemma preserves_if {A} (b : bool) (m n : M World A) :
  preserves R m -> preserves R n -> preserves R (if b then m else n).
Proof. by destruct b. Qed.
Lemma preserves_for {A} (l : list A) body :
  (forall a, preserves R (body a)) -> preserves R (mfor l body).
Proof.
  intros Hb. induction l as [|a l IH]; [apply preserves_ret|]. by apply preserves_bnd.
Qed.
End Preserves.

#[export] Hint Resolve preserves_ret preserves_lift preserves_raise preserves_gets preserves_bnd
  preserves_when preserves_if preserves_for : maildock.

(** ** Weakest preconditions

    [wp m Q w]: started in [w], [m] ends, with a value or an exception, in a state that satisfies
    [Q]. Every [m] of the model is a total function, so this is total correctness. *)

Definition wp {A} (m : M World A) (Q : result A -> World -> Prop) (w : World) : Prop :=
  Q (m w).1 (m w).2.

Lemma wp_mono {A} (m : M World A) (P Q : result A -> World -> Prop) w :
  wp m P w -> (forall r w', P r w' -> Q r w') -> wp m Q w.
Proof. unfold wp. auto. Qed.

Lemma wp_bnd {A B} (m : M World A) (k : A -> M World B) Q w :
  wp m (fun r w' => match r with Ok a => wp (k a) Q w' | Err e => Q (Err e) w' end) w ->
  wp (mbnd m k) Q w.
Proof. unfold wp, mbnd. destruct (m w) as [[a|e] w']; auto. Qed.

Lemma wp_io {A} (m : M World A) (Q : result A -> World -> Prop) w :
  (forall e, Q (Err e) (tick w)) -> wp m Q (tick w) -> wp (io m) Q w.
Proof. intros He Hm. unfold wp, io. destruct (faults w (ticks w)); [apply He | exact Hm]. Qed.

Lemma wp_ret {A} (a : A) (Q : result A -> World -> Prop) w : Q (Ok a) w -> wp (mret a) Q w.
Proof. done. Qed.
Lemma wp_lift {A} (r : result A) (Q : result A -> World -> Prop) w : Q r w -> wp (mlift r) Q w.
Proof. done. Qed.
Lemma wp_gets {A} (f : World -> A) (Q : result A -> World -> Prop) w :
  Q (Ok (f w)) w -> wp (mgets f) Q w.
Proof. done. Qed.
Lemma wp_modify (f : World -> World) (Q : result unit -> World -> Prop) w :
  Q (Ok tt) (f w) -> wp (mmodify f) Q w.
Proof. done. Qed.
Lemma wp_when b m (Q : result unit -> World -> Prop) w :
  (b = true -> wp m Q w) -> (b = false -> Q (Ok tt) w) -> wp (mwhen b m) Q w.
Proof. intros Ht Hf. destruct b; [by apply Ht | by apply Hf]. Qed.

Lemma wp_for {A} (l : list A) body (P : World -> Prop) (Q : exn -> World -> Prop) w :
  P w ->
  (forall a w, a ∈ l -> P w ->
     wp (body a) (fun r w' => match r with Ok _ => P w' | Err e => Q e w' end) w) ->
  wp (mfor l body) (fun r w' => match r with Ok _ => P w' | Err e => Q e w' end) w.
Proof.
  revert w. induction l as [|a l IH]; intros w HP Hb; [done|]. cbn [mfor]. apply wp_bnd.
  eapply wp_mono; [apply Hb; [left | done]|]. intros [[]|e] w' H; [|done].
  apply IH; [done|]. intros. apply Hb; [by right | done].
Qed.

(** The state changes of the manifest primitive. *)
Lemma wp_man_append e (Q : result unit -> World -> Prop) w :
  (forall x, Q (Err x) (tick w)) ->
  (forall n, validate_event e = Ok e ->
     Q (Ok tt) (set_manifest (synced w) (buffered w ++ [e]) n (tick w))) ->
  wp (man_append e) Q w.
Proof.
  intros He Ho. unfold man_append. apply wp_io; [done|]. unfold wp.
  destruct (validate_event e) as [p|x] eqn:Ev; cbn [rbind]; [|apply He].
  apply validate_event_same in Ev as ->.
  destruct (if is_checkpoint e then _ else _) as [n|x]; cbn [rbind]; [|apply He].
  destruct (encode_event e) as [l|x]; cbn [rbind]; [by apply Ho | apply He].
Qed.

Lemma wp_db_read {A} (f : Db -> A) (Q : result A -> World -> Prop) w :
  (forall e, Q (Err e) (tick w)) -> Q (Ok (f (view w))) (tick w) -> wp (db_read f) Q w.
Proof. intros He Ho. by apply wp_io. Qed.
Lemma wp_db_update f (Q : result unit -> World -> Prop) w :
  (forall e, Q (Err e) (tick w)) -> Q (Ok tt) (put_db (f (view w)) (tick w)) ->
  wp (db_update f) Q w.
Proof. intros He Ho. by apply wp_io. Qed.
Lemma wp_db_update' f (Q : result unit -> World -> Prop) w :
  (forall e, Q (Err e) (tick w)) ->
  (forall d, f (view w) = Ok d -> Q (Ok tt) (put_db d (tick w))) ->
  wp (db_update' f) Q w.
Proof.
  intros He Ho. apply wp_io; [done|]. unfold wp. change (view (tick w)) with (view w).
  destruct (f (view w)) as [d|e] eqn:E; cbn [rbind]; [by apply Ho | apply He].
Qed.
Lemma wp_begin_batch (Q : result unit -> World -> Prop) w :
  (forall e, Q (Err e) (tick w)) ->
  (working w = None -> Q (Ok tt) (set_working (Some (committed w)) (tick w))) ->
  wp begin_batch Q w.
Proof.
  intros He Ho. apply wp_io; [done|]. unfold wp. change (working (tick w)) with (working w).
  destruct (working w) eqn:E; [apply He | by apply Ho].
Qed.

(** Walk through a straight-line computation. *)
Ltac wp_step :=
  lazymatch goal with
  | |- wp (mbnd _ _) _ _ => apply wp_bnd
  | |- wp (db_read _) _ _ => apply wp_db_read
  | |- wp (db_update _) _ _ => apply wp_db_update
  | |- wp (db_update' _) _ _ => apply wp_db_update'
  | |- wp begin_batch _ _ => apply wp_begin_batch
  | |- wp commit_batch _ _ => apply wp_io
  | |- wp flush_and_sync _ _ => apply wp_io
  | |- wp (put_file _ _) _ _ => apply wp_io
  | |- wp (remove_file _) _ _ => apply wp_io
  | |- wp (io _) _ _ => apply wp_io
  | |- wp (mret _) _ _ => apply wp_ret
  | |- wp (mlift _) _ _ => apply wp_lift
  | |- wp (mgets _) _ _ => apply wp_gets
  | |- wp (mmodify _) _ _ => apply wp_modify
  | |- wp (man_append _) _ _ => apply wp_man_append
  | |- wp (mwhen _ _) _ _ => apply wp_when; intros ?
  end.

(** ** Batches

    Between [begin_batch] and [commit_batch] only the working copy changes. *)

Definition same_files (w w' : World) : Prop :=
  fs w' = fs w /\ synced w' = synced w /\ buffered w' = buffered w.
Definition in_batch (w : World) (d : Db) (w1 : World) : Prop :=
  working w1 = Some d /\ committed w1 = committed w /\ same_files w w1.
Definition after_batch (w : World) (d : Db) (w1 : World) : Prop :=
  working w1 = None /\ committed w1 = d /\ same_files w w1.

#[export] Instance same_files_preorder : PreOrder same_files.
Proof. split; unfold same_files; [done|]. intros w1 w2 w3. intuition congruence. Qed.

Section Batch.
Context (w : World).

Lemma batch_begin (Q : result unit -> World -> Prop) :
  working w = None ->
  (forall e w1, working w1 = None -> committed w1 = committed w -> same_files w w1 -> Q (Err e) w1) ->
  (forall w1, in_batch w (committed w) w1 -> Q (Ok tt) w1) -> wp begin_batch Q w.
Proof. intros Hw He Ho. apply wp_begin_batch; [intros e; by apply He | intros _; by apply Ho]. Qed.

Lemma batch_read {A} (f : Db -> A) (Q : result A -> World -> Prop) d w1 :
  in_batch w d w1 -> (forall e w2, in_batch w d w2 -> Q (Err e) w2) ->
  (forall w2, in_batch w d w2 -> Q (Ok (f d)) w2) -> wp (db_read f) Q w1.
Proof.
  intros Hb He Ho. apply wp_db_read; [intros e; by apply He|].
  destruct Hb as (Hw & ?). unfold view. rewrite Hw. by apply Ho.
Qed.

Lemma batch_update f (Q : result unit -> World -> Prop) d w1 :
  in_batch w d w1 -> (forall e w2, in_batch w d w2 -> Q (Err e) w2) ->
  (forall w2, in_batch w (f d) w2 -> Q (Ok tt) w2) -> wp (db_update f) Q w1.
Proof.
  intros Hb He Ho. apply wp_db_update; [intros e; by apply He|].
  destruct Hb as (Hw & Hc & Hf). unfold view, put_db. cbn [working tick]. rewrite Hw.
  by apply Ho.
Qed.

Lemma batch_update' f (Q : result unit -> World -> Prop) d w1 :
  in_batch w d w1 -> (forall e w2, in_batch w d w2 -> Q (Err e) w2) ->
  (forall d' w2, f d = Ok d' -> in_batch w d' w2 -> Q (Ok tt) w2) -> wp (db_update' f) Q w1.
Proof.
  intros Hb He Ho. apply wp_db_update'; [intros e; by apply He|].
  destruct Hb as (Hw & Hc & Hf). unfold view, put_db. cbn [working tick]. rewrite Hw.
  intros d' Hd. by eapply Ho.
Qed.

Lemma batch_commit (Q : result unit -> World -> Prop) d w1 :
  in_batch w d w1 -> (forall e w2, in_batch w d w2 -> Q (Err e) w2) ->
  (forall w2, after_batch w d w2 -> Q (Ok tt) w2) -> wp commit_batch Q w1.
Proof.
  intros Hb He Ho. apply wp_io; [intros e; by apply He|]. apply wp_modify.
  destruct Hb as (Hw & Hc & Hf). cbn [working tick]. rewrite Hw. by apply Ho.
Qed.
End Batch.

(** ** Runs without faults *)

Definition faultless (w : World) : Prop := forall n, faults w n = None.

(** [m] ends with a value, and [Q] holds of it and of the final state; no fault occurs later. *)
Definition succeeds {A} (m : M World A) (Q : A -> World -> Prop) (w : World) : Prop :=
  exists a w', m w = (Ok a, w') /\ faultless w' /\ Q a w'.

Lemma succeeds_mono {A} (m : M World A) (P Q : A -> World -> Prop) w :
  succeeds m P w -> (forall a w', P a w' -> faultless w' -> Q a w') -> succeeds m Q w.
Proof. intros (a & w' & E & Hf & HP) H. exists a, w'. auto. Qed.

Lemma succeeds_bnd {A B} (m : M World A) (k : A -> M World B) Q w :
  succeeds m (fun a w' => succeeds (k a) Q w') w -> succeeds (mbnd m k) Q w.
Proof.
  intros (a & w1 & E1 & Hf1 & (b & w2 & E2 & Hf2 & HQ)). exists b, w2. split; [|done].
  unfold mbnd. by rewrite E1.
Qed.

Lemma succeeds_io {A} (m : M World A) Q w :
  faultless w -> succeeds m Q (tick w) -> succeeds (io m) Q w.
Proof. intros Hf (a & w' & E & H). exists a, w'. split; [|done]. unfold io. by rewrite Hf. Qed.

Lemma succeeds_ret {A} (a : A) (Q : A -> World -> Prop) w :
  faultless w -> Q a w -> succeeds (mret a) Q w.
Proof. intros. by exists a, w. Qed.
Lemma succeeds_lift {A} (a : A) (Q : A -> World -> Prop) w :
  faultless w -> Q a w -> succeeds (mlift (Ok a)) Q w.
Proof. intros. by exists a, w. Qed.
Lemma succeeds_gets {A} (f : World -> A) (Q : A -> World -> Prop) w :
  faultless w -> Q (f w) w -> succeeds (mgets f) Q w.
Proof. intros. by exists (f w), w. Qed.
Lemma succeeds_modify f (Q : unit -> World -> Prop) w :
  faultless (f w) -> Q tt (f w) -> succeeds (mmodify f) Q w.
Proof. intros. by exists tt, (f w). Qed.
Lemma succeeds_when b m (Q : unit -> World -> Prop) w :
  (b = true -> succeeds m Q w) -> (b = false -> faultless w /\ Q tt w) -> succeeds (mwhen b m) Q w.
Proof. intros Ht Hf. destruct b; [by apply Ht|]. destruct Hf; [done|]. by apply succeeds_ret. Qed.

Lemma succeeds_db_read {A} (f : Db -> A) (Q : A -> World -> Prop) w :
  faultless w -> Q (f (view w)) (tick w) -> succeeds (db_read f) Q w.
Proof. intros Hf HQ. apply succeeds_io; [done|]. by apply succeeds_gets. Qed.

Lemma faultless_put_db d w : faultless w -> faultless (put_db d w).
Proof. unfold put_db. by destruct (working w). Qed.

Lemma succeeds_db_update f (Q : unit -> World -> Prop) w :
  faultless w -> Q tt (put_db (f (view w)) (tick w)) -> succeeds (db_update f) Q w.
Proof.
  intros Hf HQ. apply succeeds_io; [done|]. exists tt, (put_db (f (view w)) (tick w)).
  split; [done|]. split; [by apply faultless_put_db | done].
Qed.
Lemma succeeds_db_update' f d (Q : unit -> World -> Prop) w :
  faultless w -> f (view w) = Ok d -> Q tt (put_db d (tick w)) -> succeeds (db_update' f) Q w.
Proof.
  intros Hf Hd HQ. apply succeeds_io; [done|]. exists tt, (put_db d (tick w)).
  split; [|split; [by apply faultless_put_db | done]].
  change (view (tick w)) with (view w). by rewrite Hd.
Qed.
Lemma succeeds_begin (Q : unit -> World -> Prop) w :
  faultless w -> working w = None -> Q tt (set_working (Some (committed w)) (tick w)) ->
  succeeds begin_batch Q w.
Proof.
  intros Hf Hw HQ. apply succeeds_io; [done|]. eexists tt, _.
  change (working (tick w)) with (working w). by rewrite Hw.
Qed.
Lemma succeeds_commit (Q : unit -> World -> Prop) d w :
  faultless w -> working w = Some d -> Q tt (set_working None (set_committed d (tick w))) ->
  succeeds commit_batch Q w.
Proof.
  intros Hf Hw HQ. apply succeeds_io; [done|]. eexists tt, _. unfold mmodify.
  change (working (tick w)) with (working w). by rewrite Hw.
Qed.
Lemma succeeds_append e (Q : unit -> World -> Prop) w :
  faultless w -> is_checkpoint e = false -> is_ok (encode_event e) = true ->
  Q tt (set_manifest (synced w) (buffered w ++ [e]) (last_sequence w) (tick w)) ->
  succeeds (man_append e) Q w.
Proof.
  intros Hf Hc He HQ. apply succeeds_io; [done|]. eexists tt, _. split; [|split; [|exact HQ]]; [|done].
  destruct (encode_event e) as [line|] eqn:E; [|done].
  assert (validate_event e = Ok e) as Hv.
  { unfold encode_event in E. apply rbind_ok in E as (p & Hv & _).
    by rewrite Hv; apply validate_event_same in Hv as ->. }
  rewrite Hv. cbn [rbind]. rewrite Hc. cbn [rbind]. by rewrite E.
Qed.
Lemma succeeds_sync (Q : unit -> World -> Prop) w :
  faultless w -> Q tt (set_manifest (all_events w) [] (last_sequence w) (tick w)) ->
  succeeds flush_and_sync Q w.
Proof. intros Hf HQ. apply succeeds_io; [done|]. by apply succeeds_modify. Qed.

Lemma succeeds_for {A} (l : list A) body (P : World -> Prop) w :
  faultless w -> P w ->
  (forall a w, a ∈ l -> faultless w -> P w -> succeeds (body a) (fun _ => P) w) ->
  succeeds (mfor l body) (fun _ => P) w.
Proof.
  revert w. induction l as [|a l IH]; intros w Hf HP Hb; [by apply succeeds_ret|].
  cbn [mfor]. apply succeeds_bnd. eapply succeeds_mono; [apply Hb; [left | done | done]|].
  intros u w' HP' Hf'. apply IH; [done | done |]. intros. apply Hb; [by right | done | done].
Qed.

(** A successful run satisfies what every run satisfies. *)
Lemma succeeds_wp {A} (m : M World A) (P : A -> World -> Prop) (Q : result A -> World -> Prop) w :
  succeeds m P w -> wp m Q w -> succeeds m (fun a w' => P a w' /\ Q (Ok a) w') w.
Proof. intros (a & w' & E & Hf & HP) HQ. exists a, w'. unfold wp in HQ. rewrite E in HQ. done. Qed.

Ltac run_step :=
  lazymatch goal with
  | |- succeeds (mbnd _ _) _ _ => apply succeeds_bnd
  | |- succeeds (db_read _) _ _ => apply succeeds_db_read; [assumption|]
  | |- succeeds (db_update _) _ _ => apply succeeds_db_update; [assumption|]
  | |- succeeds (mret _) _ _ => apply succeeds_ret; [assumption|]
  | |- succeeds (mgets _) _ _ => apply succeeds_gets; [assumption|]
  | |- succeeds (io _) _ _ => apply succeeds_io; [assumption|]
  | |- succeeds flush_and_sync _ _ => apply succeeds_sync; [assumption|]
  end.
