(* ===== verification/EmlStorage.v ===== *)
(** * EmlStorage: atomic, integrity-checked EML files

    [infrastructure/storage/eml_storage.py] over the files of [World]: paths resolved below the
    storage root (POSIX paths, no symbolic links), saving through a temporary file and a rename,
    reading with the expected hash, quarantine and the cleaning of [tmp]. Directories are implied
    by the files in them; creating one is an operation that can fail. *)

From S2P Require Import Prelude Errors PyText PyTime Accounts Json Manifest Sha256 Database World.
Open Scope string_scope.

Definition slash : Ascii.ascii := Ascii.ascii_of_nat 47.

(** ** Paths *)

(** [path.split('/')] *)
Fixpoint split_slash (s : string) : list string :=
  match s with
  | EmptyString => [""]
  | String c s =>
      if Ascii.eqb c slash then "" :: split_slash s
      else match split_slash s with
           | [] => [String c ""]
           | x :: l => String c x :: l
           end
  end.
Fixpoint join (l : list string) : string :=
  match l with [] => "" | [x] => x | x :: l => x ++ String slash (join l) end.

Definition is_absolute (s : string) : bool :=
  match s with String c _ => Ascii.eqb c slash | EmptyString => false end.

(** One component of a path being resolved. *)
Definition resolve_step (acc : list string) (c : string) : list string :=
  if mem c [""; "."] then acc else if c == ".." then removelast acc else (acc ++ [c])%list.
(** [(root / path).resolve()]: an absolute path replaces the root. *)
Definition resolve (root : list string) (path : string) : list string :=
  fold_left resolve_step (split_slash path) (if is_absolute path then [] else root).

Fixpoint relative_to (root path : list string) : option (list string) :=
  match root, path with
  | [], _ => Some path
  | x :: root, y :: path => if x == y then relative_to root path else None
  | _ :: _, [] => None
  end.

(** [_resolve_inside]: the components below the root. *)
Definition resolve_inside (root : list string) (path : string) : result (list string) :=
  match relative_to root (resolve root path) with
  | None => raise ValueError "EML path escapes the storage root"
  | Some [] => raise ValueError "EML path must name a file below the storage root"
  | Some p => Ok p
  end.

(** [_date_directory]; dates are in UTC. *)
Definition date_directory (internal_date : option datetime) : string :=
  match internal_date with
  | None => "unknown"
  | Some t => pad4 (year t) ++ "/" ++ pad2 (month t)
  end.

Definition file_name_of (hash : string) : string := String.substring 0 32 hash ++ ".eml".
Definition account_root (account : string) : string := "eml/" ++ account ++ "/".
Definition eml_path (account : string) (internal_date : option datetime) (hash : string) : string :=
  account_root account ++ date_directory internal_date ++ "/" ++ file_name_of hash.

(** ** Hashes *)

(** [_HASH_LENGTH] and the characters of a hash *)
Definition is_hex (c : Ascii.ascii) : bool :=
  mem c (String.list_ascii_of_string "0123456789abcdefABCDEF").
Definition is_hash (s : string) : bool :=
  (String.length s =? 64)%nat && forallb is_hex (String.list_ascii_of_string s).
(** [casefold] of a hash *)
Definition fold_hash (s : string) : string :=
  String.string_of_list_ascii (map (fun c => let n := Ascii.N_of_ascii c in
    if ((65 <=? n) && (n <=? 90))%N then Ascii.ascii_of_N (n + 32) else c) (String.list_ascii_of_string s)).

Definition ends_with (suffix s : string) : bool :=
  String.substring (String.length s - String.length suffix) (String.length suffix) s == suffix.

(** ** Saving *)

(** [_find_existing_eml]: a file of the account named after the hash whose bytes have it. *)
Definition existing_path (account hash : string) (w : World) : option string :=
  List.find (fun p => String.prefix (account_root account) p && ends_with ("/" ++ file_name_of hash) p
                      && match read_file p w with Some c => hexdigest c == hash | None => false end)
    (fs w).*1.
Definition find_existing_eml (account hash : string) : M World (option StoredEml) :=
  io (mgets (fun w => match existing_path account hash w with
                      | Some p => Some (MkStoredEml p hash
                                    (Z.of_nat (length (get_or [] (read_file p w)))) true)
                      | None => None
                      end)).

(** Operations that change no file content, and [os.replace]. *)
Definition make_directory : M World unit := io (mret tt).
Definition sync_file : M World unit := io (mret tt).
Definition sync_directory : M World unit := io (mret tt).
Definition rename_file (src dst : string) : M World unit :=
  io (fun w => match read_file src w with
               | Some c => (Ok tt, set_fs (dict_set dst c (dict_pop src (fs w))) w)
               | None => (raise OSError "No such file or directory", w)
               end).

(** The [finally] of the saves: the temporary file is removed when an error left it behind; an
    error of the removal is suppressed. *)
Definition with_temporary {A} (temporary : string) (m : M World A) : M World A :=
  mtry m (fun e => mtry (remove_file temporary) (fun _ => mret tt) ;! mthrow e).

Definition temporary_path (uuid : string) : string := "tmp/" ++ uuid ++ ".eml".

(** Writing the bytes: the file is created, filled ([written] bytes may reach it before the rest)
    and synced. *)
Definition write_file (path : string) (raw : bytes) (written : nat) : M World unit :=
  put_file path [] ;! put_file path (take written raw) ;! put_file path raw ;! sync_file.

(** The file already at the destination, when it has the hash. *)
Definition reuse_destination (destination hash : string) : M World (option StoredEml) :=
  io (mgets (fun w => match read_file destination w with
                      | Some c => if hexdigest c == hash
                                  then Some (MkStoredEml destination hash (Z.of_nat (length c)) true)
                                  else None
                      | None => None
                      end)).

(** [save_eml] *)
Definition save_eml (account : string) (internal_date : option datetime) (raw : bytes)
    (uuid : string) (written : nat) : M World StoredEml :=
  mlift (validate_account_id (code_points account)) ;!
  let file_hash := hexdigest raw in
  let destination := eml_path account internal_date file_hash in
  let! existing := find_existing_eml account file_hash in
  match existing with
  | Some s => mret s
  | None =>
      make_directory ;!
      let! here := reuse_destination destination file_hash in
      match here with
      | Some s => mret s
      | None =>
          with_temporary (temporary_path uuid)
            (make_directory ;!
             write_file (temporary_path uuid) raw written ;!
             rename_file (temporary_path uuid) destination) ;!
          sync_directory ;!
          mret (MkStoredEml destination file_hash (Z.of_nat (length raw)) false)
      end
  end.

(** [save_eml_from_file]: the source file is copied to the temporary file first; the temporary
    file is removed on every path that does not rename it. *)
Definition discard (path : string) : M World unit := mtry (remove_file path) (fun _ => mret tt).
Definition save_eml_from_file (account : string) (internal_date : option datetime)
    (source : option bytes) (uuid : string) (written : nat) : M World StoredEml :=
  mlift (validate_account_id (code_points account)) ;!
  match source with
  | None => mraise StorageError "Source EML is not a regular file"
  | Some raw =>
      let temporary := temporary_path uuid in
      let! renamed := with_temporary temporary
        (make_directory ;!
         write_file temporary raw written ;!
         let file_hash := hexdigest raw in
         let! existing := find_existing_eml account file_hash in
         match existing with
         | Some s => mret (Some s)
         | None =>
             let destination := eml_path account internal_date file_hash in
             make_directory ;!
             let! here := reuse_destination destination file_hash in
             match here with
             | Some s => mret (Some s)
             | None => rename_file temporary destination ;! mret None
             end
         end) in
      match renamed with
      | Some s => discard temporary ;! mret s
      | None =>
          sync_directory ;!
          mret (MkStoredEml (eml_path account internal_date (hexdigest raw)) (hexdigest raw)
                  (Z.of_nat (length raw)) false)
      end
  end.

(** ** Reading and deleting *)

Section Storage.
Context (root : list string).

(** A path of the database, resolved: the file it names. *)
Definition file_at (path : string) : M World string :=
  mlift (let? p := resolve_inside root path in Ok (join p)).

Definition exists_file (path : string) : M World bool :=
  let! p := file_at path in
  io (mgets (fun w => if read_file p w is Some _ then true else false)).
Definition delete_file (path : string) : M World unit := let! p := file_at path in remove_file p.

Definition read_bytes (p : string) : M World bytes :=
  io (fun w => match read_file p w with
               | Some c => (Ok c, w)
               | None => (raise FileNotFoundError "No such file or directory", w)
               end).
Definition read (path : string) : M World bytes := let! p := file_at path in read_bytes p.

(** [read_verified]; nothing replaces the file between its opening and the second [stat]. *)
Definition read_verified (path expected_hash : string) : M World bytes :=
  if negb (is_hash expected_hash) then mraise StorageError "Invalid expected EML hash" else
  let! p := file_at path in
  let! payload := read_bytes p in
  if hexdigest payload == fold_hash expected_hash then mret payload
  else mraise StorageError "EML file hash does not match expected hash".

(** [reuse] *)
Definition reuse (path expected_hash : string) : M World (option StoredEml) :=
  if negb (is_hash expected_hash) then mret None else
  let! p := file_at path in
  let! content := io (mgets (read_file p)) in
  mret (match content with
        | Some c => if hexdigest c == fold_hash expected_hash
                    then Some (MkStoredEml path (hexdigest c) (Z.of_nat (length c)) true) else None
        | None => None
        end).

(** [sorted(paths)]: paths compare by their components. *)
Fixpoint parts_leb (a b : list string) : bool :=
  match a, b with
  | [], _ => true
  | _ :: _, [] => false
  | x :: a, y :: b => match String.compare x y with Lt => true | Gt => false | Eq => parts_leb a b end
  end.
Definition path_le (a b : string) : Prop := parts_leb (split_slash a) (split_slash b) = true.
#[export] Instance path_le_dec : RelDecision path_le.
Proof. intros a b. unfold path_le. apply _. Defined.

(** [iter_eml_paths] *)
Definition iter_eml_paths (account : option string) : M World (list string) :=
  mlift (match account with Some a => validate_account_id (code_points a) | None => Ok tt end) ;!
  let search_root := match account with Some a => account_root a | None => "eml/" end in
  io (mgets (fun w => merge_sort path_le
    (List.filter (fun p => String.prefix search_root p && ends_with ".eml" p) (fs w).*1))).

(** [quarantine] *)
Definition quarantine_path (p : list string) (uuid : string) : string :=
  "tmp/quarantine/" ++ List.last p "" ++ "." ++ uuid ++ ".eml".
Definition quarantine (path uuid : string) : M World unit :=
  let! p := mlift (resolve_inside root path) in
  let! present := io (mgets (fun w => if read_file (join p) w is Some _ then true else false)) in
  mwhen present (make_directory ;! rename_file (join p) (quarantine_path p uuid)).
End Storage.

(** [cleanup_tmp]: every file below [tmp] but those of [tmp/pstimp]; the number removed. *)
Definition is_temporary (p : string) : bool :=
  String.prefix "tmp/" p && negb (String.prefix "tmp/pstimp/" p) && (p != "tmp/pstimp").
Fixpoint remove_all (l : list string) (n : Z) : M World Z :=
  match l with [] => mret n | p :: l => remove_file p ;! remove_all l (n + 1)%Z end.
Definition cleanup_tmp : M World Z :=
  let! l := io (mgets (fun w => List.filter is_temporary (fs w).*1)) in remove_all l 0.

(** ** Paths stay below the root *)

Fixpoint has_slash (s : string) : bool :=
  match s with EmptyString => false | String c s => Ascii.eqb c slash || has_slash s end.

(** A name of a directory entry. *)
Definition proper (c : string) : Prop := c ∉ [""; "."; ".."] /\ has_slash c = false.

Lemma split_slash_parts s : Forall (fun c => has_slash c = false) (split_slash s) /\ split_slash s <> [].
Proof.
  induction s as [|c s [IH Hne]]; simpl; [by repeat constructor|].
  destruct (Ascii.eqb c slash) eqn:E; [split; [by constructor|done]|].
  destruct (split_slash s) as [|x l]; [done|]. split; [|done].
  apply Forall_cons in IH as [Hx Hl]. constructor; [|done]. simpl. by rewrite E.
Qed.

Lemma split_slash_single x : has_slash x = false -> split_slash x = [x].
Proof.
  induction x as [|c x IH]; [done|]. simpl. intros [-> Hx]%orb_false_iff. by rewrite IH.
Qed.

Lemma split_slash_cons x s : has_slash x = false ->
  split_slash (x ++ String slash s) = x :: split_slash s.
Proof.
  induction x as [|c x IH]; simpl; rewrite ?append_nil, ?append_cons; simpl.
  - done.
  - intros [-> Hx]%orb_false_iff. by rewrite IH.
Qed.

Lemma split_join l : l <> [] -> Forall (fun c => has_slash c = false) l -> split_slash (join l) = l.
Proof.
  intros Hne Hl. induction Hl as [|x l Hx Hl IH]; [done|]. cbn [join].
  destruct l as [|y l]; [by apply split_slash_single|].
  rewrite split_slash_cons, IH by done. done.
Qed.

Lemma resolve_step_proper acc c :
  Forall proper acc -> has_slash c = false -> Forall proper (resolve_step acc c).
Proof.
  intros Ha Hc. unfold resolve_step. destruct (mem c _) eqn:E1; [done|].
  destruct (c == "..") eqn:E2; bsimp.
  - apply Forall_forall. intros x Hx. rewrite Forall_forall in Ha. apply Ha.
    destruct acc as [|y acc _] using rev_ind; [done|]. rewrite removelast_last in Hx.
    apply elem_of_app. by left.
  - apply Forall_app. split; [done|]. constructor; [|constructor]. split; [set_solver|done].
Qed.

Lemma resolve_proper root path : Forall proper root -> Forall proper (resolve root path).
Proof.
  intros Hr. unfold resolve. destruct (split_slash_parts path) as [Hp _]. revert Hp.
  generalize (split_slash path). intros l Hl.
  assert (Forall proper (if is_absolute path then [] else root)) as Ha by (by case_match).
  revert Ha. generalize (if is_absolute path then [] else root). induction Hl as [|c l Hc _ IH];
    intros acc Ha; [done|]. simpl. by apply IH, resolve_step_proper.
Qed.

Lemma resolve_steps acc l : Forall proper l -> fold_left resolve_step l acc = (acc ++ l)%list.
Proof.
  intros Hl. revert acc. induction Hl as [|c l [Hc _] _ IH]; intros acc; simpl; [by rewrite app_nil_r|].
  rewrite IH. unfold resolve_step.
  assert (mem c [""; "."] = false) as -> by (apply mem_false; set_solver).
  assert ((c == "..") = false) as -> by (apply Prelude.eqb_neq; set_solver).
  by rewrite <- app_assoc.
Qed.

Lemma relative_to_spec root path rest : relative_to root path = Some rest <-> path = (root ++ rest)%list.
Proof.
  revert path. induction root as [|x root IH]; intros path; simpl; [split; congruence|].
  destruct path as [|y path]; [done|]. destruct (x == y) eqn:E; bsimp.
  - subst y. rewrite IH. split; [by intros ->|by injection 1].
  - split; [done|]. injection 1. intros. congruence.
Qed.

Lemma join_not_absolute l : l <> [] -> Forall proper l -> is_absolute (join l) = false.
Proof.
  intros Hne Hl. destruct l as [|x l]; [done|]. apply Forall_cons in Hl as [[Hx Hs] _].
  destruct x as [|c x]; [set_solver|]. simpl in Hs. apply orb_false_iff in Hs as [Hs _].
  destruct l; done.
Qed.

(** A path of proper components names the file itself. *)
Lemma resolve_inside_join root p : p <> [] -> Forall proper p -> resolve_inside root (join p) = Ok p.
Proof.
  intros Hne Hp. unfold resolve_inside, resolve. rewrite join_not_absolute by done.
  assert (Forall (fun c => has_slash c = false) p) as Hs
    by (eapply Forall_impl; [exact Hp|by intros ? []]).
  rewrite split_join, resolve_steps by done.
  rewrite (proj2 (relative_to_spec root _ p) eq_refl). by destruct p.
Qed.

(** No path read from the database reaches outside the storage root: what [_resolve_inside]
    accepts, however the path is written (absolute, with dot entries, with doubled separators), is
    a file strictly below the root given by proper names, and writing that file's relative path
    down and resolving it again gives the same file. *)
Lemma resolve_inside_confined root path p :
  Forall proper root -> resolve_inside root path = Ok p ->
  p <> [] /\ Forall proper p /\ resolve root path = (root ++ p)%list
  /\ resolve_inside root (join p) = Ok p.
Proof.
  intros Hr H. unfold resolve_inside in H.
  destruct (relative_to root (resolve root path)) as [q|] eqn:E; [|done].
  apply relative_to_spec in E. pose proof (resolve_proper root path Hr) as Hp. rewrite E in Hp.
  apply Forall_app in Hp as [_ Hp]. destruct q as [|c q]; [done|]. apply Ok_inj in H as <-.
  split_and!; [done|done|done|]. by apply resolve_inside_join.
Qed.

(** ** Saving is atomic *)

(** Database and manifest as they were. *)
Definition same_records (w w' : World) : Prop :=
  committed w' = committed w /\ working w' = working w
  /\ synced w' = synced w /\ buffered w' = buffered w.

(** Only the file [p] may differ. *)
Definition only_file (p : string) (w w' : World) : Prop :=
  same_records w w' /\ forall q, q <> p -> read_file q w' = read_file q w.

Lemma only_file_tick p w w' : only_file p w w' -> only_file p w (tick w').
Proof. done. Qed.
Lemma only_file_put p c w w' : only_file p w w' -> only_file p w (set_fs (dict_set p c (fs w')) w').
Proof.
  intros [H1 H2]. split; [done|]. intros q Hq. unfold read_file. cbn [fs set_fs].
  rewrite dict_get_set_ne by done. by apply H2.
Qed.
Lemma only_file_remove p w w' : only_file p w w' -> only_file p w (set_fs (dict_pop p (fs w')) w').
Proof.
  intros [H1 H2]. split; [done|]. intros q Hq. unfold read_file. cbn [fs set_fs].
  rewrite dict_get_pop, Prelude.eqb_neq by done. by apply H2.
Qed.
#[local] Hint Resolve only_file_tick only_file_put only_file_remove : core.

Lemma wp_write_file p raw written w0 w : only_file p w0 w ->
  wp (write_file p raw written) (fun r w' =>
    only_file p w0 w' /\ (r = Ok tt -> read_file p w' = Some raw)) w.
Proof.
  intros H. unfold write_file, sync_file.
  do 3 (wp_step; wp_step; [split; [auto 10|done]|]; wp_step).
  wp_step; [split; [auto 10|done]|]. wp_step. split; [auto 10|]. intros _.
  unfold read_file. cbn [fs set_fs tick]. apply dict_get_set_eq.
Qed.

(** After the rename: the destination holds the bytes, the temporary file is gone. *)
Definition renamed (tmp dst : string) (raw : bytes) (w w' : World) : Prop :=
  same_records w w' /\ read_file dst w' = Some raw /\ read_file tmp w' = None
  /\ forall q, q <> tmp -> q <> dst -> read_file q w' = read_file q w.

Lemma wp_rename_file tmp dst raw w0 w : tmp <> dst -> only_file tmp w0 w -> read_file tmp w = Some raw ->
  wp (rename_file tmp dst) (fun r w' =>
    match r with Ok _ => renamed tmp dst raw w0 w' | Err _ => only_file tmp w0 w' end) w.
Proof.
  intros Hne H E. unfold rename_file. wp_step; [auto|]. unfold wp.
  change (read_file tmp (tick w)) with (read_file tmp w). rewrite E. cbn [fst snd].
  destruct H as [Hs H]. split; [done|]. unfold read_file. cbn [fs set_fs tick]. split_and!.
  - apply dict_get_set_eq.
  - by rewrite dict_get_set_ne, dict_get_pop, Prelude.eqb_refl by done.
  - intros q Hq1 Hq2. rewrite dict_get_set_ne, dict_get_pop, Prelude.eqb_neq by done. by apply H.
Qed.

Lemma wp_with_temporary {A} tmp (m : M World A) (Q : A -> World -> Prop) w0 w :
  wp m (fun r w' => match r with Ok a => Q a w' | Err _ => only_file tmp w0 w' end) w ->
  wp (with_temporary tmp m) (fun r w' => match r with Ok a => Q a w' | Err _ => only_file tmp w0 w' end) w.
Proof.
  unfold wp, with_temporary, mtry, mbnd, remove_file, io. destruct (m w) as [[a|e] w']; [done|].
  intros H. cbn in H. destruct (faults w' (ticks w')); [exact H|]. exact (only_file_remove _ _ (tick w') H).
Qed.

Lemma temporary_not_eml uuid account date hash : temporary_path uuid <> eml_path account date hash.
Proof. unfold temporary_path, eml_path, account_root. rewrite !append_assoc, !append_cons. discriminate. Qed.

(** Writing the temporary file and renaming it. *)
Lemma wp_publish tmp dst raw written w0 w : tmp <> dst -> only_file tmp w0 w ->
  wp (make_directory ;! write_file tmp raw written ;! rename_file tmp dst) (fun r w' =>
    match r with Ok _ => renamed tmp dst raw w0 w' | Err _ => only_file tmp w0 w' end) w.
Proof.
  intros Hne H. unfold make_directory. wp_step. wp_step; [auto|]. wp_step. wp_step.
  eapply wp_mono; [apply wp_write_file; eauto|].
  intros [[]|e] w' [H' E]; [|done]. apply wp_rename_file; auto.
Qed.

(** What a save may leave behind, however it ends. *)
Definition saved (tmp dst : string) (raw : bytes) (w : World) (r : result StoredEml) (w' : World) : Prop :=
  same_records w w'
  /\ (forall q, q <> tmp -> q <> dst -> read_file q w' = read_file q w)
  /\ (read_file dst w' = read_file dst w \/ read_file dst w' = Some raw)
  /\ forall s, r = Ok s ->
       eml_file_hash s = hexdigest raw
       /\ (read_file tmp w = None -> read_file tmp w' = None)
       /\ exists c, read_file (eml_relative_path s) w' = Some c /\ hexdigest c = hexdigest raw
            /\ eml_size_bytes s = Z.of_nat (length c)
            /\ (if deduplicated s then fs w' = fs w else c = raw /\ eml_relative_path s = dst).

Lemma existing_path_read account hash w p : existing_path account hash w = Some p ->
  exists c, read_file p w = Some c /\ hexdigest c = hash.
Proof.
  intros [_ H]%List.find_some. bsimp. destruct (read_file p w) as [c|]; [|done]. bsimp. by exists c.
Qed.

Lemma saved_error tmp dst raw w e w' : tmp <> dst -> only_file tmp w w' -> saved tmp dst raw w (Err e) w'.
Proof. intros Hne [Hs H]. split; [done|]. split; [auto|]. split; [left; by apply H|done]. Qed.

Lemma saved_reused tmp dst raw w p c w' : same_records w w' -> fs w' = fs w ->
  read_file p w = Some c -> hexdigest c = hexdigest raw ->
  saved tmp dst raw w (Ok (MkStoredEml p (hexdigest raw) (Z.of_nat (length c)) true)) w'.
Proof.
  intros Hs Hf Hp Hc. assert (forall q, read_file q w' = read_file q w) as Hr
    by (intros q; unfold read_file; by rewrite Hf).
  split; [done|]. split; [auto|]. split; [left; auto|]. intros s [= <-]. split; [done|].
  split; [by rewrite Hr|]. exists c. by rewrite Hr.
Qed.

Lemma only_file_refl p w : only_file p w w.
Proof. by repeat split. Qed.
#[local] Hint Resolve only_file_refl : core.

Lemma wp_save_eml account date raw uuid written w :
  wp (save_eml account date raw uuid written)
    (saved (temporary_path uuid) (eml_path account date (hexdigest raw)) raw w) w.
Proof.
  pose proof (temporary_not_eml uuid account date (hexdigest raw)) as Hne.
  unfold save_eml. wp_step. wp_step.
  destruct (validate_account_id (code_points account)); [|by apply saved_error; auto].
  unfold find_existing_eml. wp_step. wp_step; [intros; by apply saved_error; auto|]. wp_step.
  destruct (existing_path account (hexdigest raw) (tick w)) as [p|] eqn:Ep.
  { apply existing_path_read in Ep as (c & Hp & Hc).
    wp_step. rewrite Hp. by apply (saved_reused _ _ _ w p c). }
  unfold make_directory. wp_step. wp_step; [intros; by apply saved_error; auto|]. wp_step.
  unfold reuse_destination. wp_step. wp_step; [intros; by apply saved_error; auto|]. wp_step.
  set (dst := eml_path account date (hexdigest raw)) in *.
  match goal with |- context [read_file dst ?x] => change (read_file dst x) with (read_file dst w) end.
  destruct (match read_file dst w with Some c => _ | None => None end) as [s|] eqn:Es.
  { wp_step. destruct (read_file dst w) as [c|] eqn:Ed; [|done].
    destruct (hexdigest c == hexdigest raw) eqn:Ec; [|done]. injection Es as <-. bsimp.
    by apply (saved_reused _ _ _ w dst c). }
  wp_step. eapply wp_mono; [apply (wp_with_temporary _ _ (fun _ => renamed (temporary_path uuid) dst raw w)); apply wp_publish; auto|].
  intros [u|e] w1 H1; [|by apply saved_error].
  unfold sync_directory. destruct H1 as (Hs & Hd & Ht & Hq).
  wp_step. wp_step; [intros; split; [done|]; split; [done|]; by split; [right|]|]. wp_step. wp_step.
  split; [done|]. split; [done|]. split; [by right|]. intros s [= <-]. split; [done|]. split; [done|].
  by exists raw.
Qed.

Lemma succeeds_try {A} (m : M World A) h (Q : A -> World -> Prop) w :
  succeeds m Q w -> succeeds (mtry m h) Q w.
Proof. intros (a & w' & E & H). exists a, w'. split; [|done]. unfold mtry. by rewrite E. Qed.

Lemma succeeds_write_file p raw written w : faultless w ->
  succeeds (write_file p raw written) (fun _ w' => read_file p w' = Some raw) w.
Proof.
  intros Hf. unfold write_file, put_file, sync_file.
  do 3 (run_step; run_step; apply succeeds_modify; [done|]). run_step. run_step.
  unfold read_file. cbn [fs set_fs tick]. apply dict_get_set_eq.
Qed.

Lemma succeeds_rename_file src dst c w : faultless w -> read_file src w = Some c ->
  succeeds (rename_file src dst)
    (fun _ w' => w' = set_fs (dict_set dst c (dict_pop src (fs w))) (tick w)) w.
Proof.
  intros Hf E. unfold rename_file. run_step. exists tt. eexists. split; [|split; [|reflexivity]]; [|done].
  change (read_file src (tick w)) with (read_file src w). by rewrite E.
Qed.

(** Case analysis on the option a computation branches on. *)
Ltac split_option :=
  match goal with |- succeeds (match ?x with Some _ => _ | None => _ end) _ _ => destruct x end.

Lemma succeeds_save_eml account date raw uuid written w :
  faultless w -> validate_account_id (code_points account) = Ok tt ->
  succeeds (save_eml account date raw uuid written) (fun _ _ => True) w.
Proof.
  intros Hf Hv. unfold save_eml. rewrite Hv. run_step. apply succeeds_lift; [done|].
  unfold find_existing_eml. run_step. run_step. run_step.
  split_option; [by run_step|]. unfold make_directory. run_step. run_step. run_step.
  unfold reuse_destination. run_step. run_step. run_step.
  split_option; [by run_step|]. run_step. apply succeeds_try. run_step. run_step. run_step. run_step.
  eapply succeeds_mono; [by apply succeeds_write_file|]. intros u w1 H1 Hf1.
  eapply succeeds_mono; [exact (succeeds_rename_file _ _ raw w1 Hf1 H1)|]. intros v w2 -> Hf2.
  unfold sync_directory. run_step. run_step. run_step. by run_step.
Qed.

(** C24. Saving an EML is atomic and never damages another file, whatever operation fails or
    wherever the program stops: the database, the manifest and every file but the temporary one
    and the destination are as before, and the destination holds either what it held or all the
    bytes. When the save returns, the file it names holds bytes with the hash of the message (the
    message itself unless an existing file is reused, in which case no file changed) and no
    temporary file is left; without faults the save of a valid account returns. *)
Theorem save_eml_atomic account date raw uuid written w :
  saved (temporary_path uuid) (eml_path account date (hexdigest raw)) raw w
    (save_eml account date raw uuid written w).1 (save_eml account date raw uuid written w).2
  /\ (faultless w -> validate_account_id (code_points account) = Ok tt ->
      is_ok (save_eml account date raw uuid written w).1 = true).
Proof.
  split; [apply wp_save_eml|]. intros Hf Hv.
  destruct (succeeds_save_eml account date raw uuid written w Hf Hv) as (s & w' & -> & _). done.
Qed.

(** ** Reading back *)

Section Reading.
Context (root : list string).

Lemma wp_file_at path (Q : result string -> World -> Prop) w :
  Q (let? p := resolve_inside root path in Ok (join p)) w -> wp (file_at root path) Q w.
Proof. done. Qed.

(** [read_verified] gives the bytes of the file, and only when they have the expected hash. *)
Lemma read_verified_spec path hash w c w' :
  read_verified root path hash w = (Ok c, w') ->
  exists p, resolve_inside root path = Ok p /\ read_file (join p) w = Some c
    /\ hexdigest c = fold_hash hash.
Proof.
  unfold read_verified. destruct (is_hash hash); [|done]. cbn [negb].
  unfold mbnd, file_at, mlift, read_bytes, io.
  destruct (resolve_inside root path) as [p|e]; cbn [rbind]; [|done].
  destruct (faults w (ticks w)); [done|]. change (read_file (join p) (tick w)) with (read_file (join p) w).
  destruct (read_file (join p) w) as [c'|] eqn:E; [|done].
  destruct (hexdigest c' == fold_hash hash) eqn:Eh; [|done]. intros [= <- <-]. bsimp. by exists p.
Qed.

Lemma read_verified_runs path hash p c w : faultless w -> is_hash hash = true ->
  resolve_inside root path = Ok p -> read_file (join p) w = Some c -> hexdigest c = fold_hash hash ->
  succeeds (read_verified root path hash) (fun r _ => r = c) w.
Proof.
  intros Hf Hh Hp Hc Eh. unfold read_verified. rewrite Hh. cbn [negb]. unfold file_at. rewrite Hp.
  run_step. apply succeeds_lift; [done|]. unfold read_bytes. run_step. run_step.
  exists c, (tick w). change (read_file (join p) (tick w)) with (read_file (join p) w). rewrite Hc.
  split; [done|]. split; [done|]. rewrite Eh, Prelude.eqb_refl. by run_step.
Qed.
End Reading.

(** ** Quarantine and cleaning *)

Lemma remove_all_removes l : forall n w, faultless w ->
  succeeds (remove_all l n) (fun _ w' => forall p, read_file p w' = if mem p l then None else read_file p w) w.
Proof.
  induction l as [|x l IH]; intros n w Hf; cbn [remove_all]; [by run_step|]. unfold remove_file.
  run_step. run_step. apply succeeds_modify; [done|].
  eapply succeeds_mono; [by apply IH|]. intros k w' H _ p. rewrite H. unfold read_file.
  cbn [fs set_fs tick]. rewrite dict_get_pop, mem_cons. by destruct (p == x), (mem p l).
Qed.

Lemma wp_remove_all l : forall n w,
  wp (remove_all l n) (fun _ w' => forall p, p ∉ l -> read_file p w' = read_file p w) w.
Proof.
  induction l as [|x l IH]; intros n w; cbn [remove_all]; [by wp_step|].
  wp_step. wp_step; [done|]. wp_step. eapply wp_mono; [apply IH|]. intros r w' H p Hp.
  rewrite H by set_solver. unfold read_file. cbn [fs set_fs tick].
  by rewrite dict_get_pop, Prelude.eqb_neq by set_solver.
Qed.

Lemma temporary_files_spec p w :
  p ∈ List.filter is_temporary (fs w).*1 <-> is_temporary p = true /\ read_file p w <> None.
Proof.
  rewrite list_elem_of_In, filter_In, <- list_elem_of_In. unfold read_file. rewrite dict_get_None.
  split; intros [H1 H2]; split; try done; [tauto|]. by destruct (decide (p ∈ (fs w).*1)).
Qed.

(** The cleaning removes only temporary files, whatever fails; without faults, all of them. *)
Lemma wp_cleanup_tmp w :
  wp cleanup_tmp (fun _ w' => forall p, is_temporary p = false -> read_file p w' = read_file p w) w.
Proof.
  unfold cleanup_tmp. wp_step. wp_step; [done|]. wp_step. eapply wp_mono; [apply wp_remove_all|].
  intros r w' H p Hp. rewrite H; [done|]. rewrite temporary_files_spec. rewrite Hp. by intros [].
Qed.

Lemma cleanup_tmp_removes w : faultless w ->
  succeeds cleanup_tmp (fun _ w' => forall p, is_temporary p = true -> read_file p w' = None) w.
Proof.
  intros Hf. unfold cleanup_tmp. run_step. run_step. run_step.
  eapply succeeds_mono; [by apply remove_all_removes|]. intros n w' H _ p Hp. rewrite H.
  destruct (mem p _) eqn:E; [done|]. bsimp. rewrite temporary_files_spec in E.
  change (read_file p (tick w)) with (read_file p w) in *. destruct (read_file p w); [|done].
  by destruct E.
Qed.

Lemma quarantine_path_temporary p uuid : is_temporary (quarantine_path p uuid) = true.
Proof.
  unfold quarantine_path. rewrite !append_cons. unfold is_temporary. apply andb_true_iff. split; [done|].
  apply negb_true_iff, Prelude.eqb_neq. discriminate.
Qed.

(** A quarantined EML is destroyed by the next start: the quarantine moves the suspect file,
    its bytes intact, under [tmp/quarantine], and [cleanup_tmp], which every session runs when it
    opens the storage, removes that file with the other temporary ones. *)
Lemma quarantined_then_lost root path uuid p c w :
  faultless w -> resolve_inside root path = Ok p -> read_file (join p) w = Some c ->
  read_file (quarantine_path p uuid) w = None ->
  succeeds (quarantine root path uuid) (fun _ w1 =>
    read_file (quarantine_path p uuid) w1 = Some c /\ read_file (join p) w1 = None
    /\ succeeds cleanup_tmp (fun _ w2 => read_file (quarantine_path p uuid) w2 = None) w1) w.
Proof.
  intros Hf Hp Hc Hq. unfold quarantine. rewrite Hp. run_step. apply succeeds_lift; [done|].
  run_step. run_step. run_step. change (read_file (join p) (tick w)) with (read_file (join p) w).
  rewrite Hc. unfold make_directory. cbn [mwhen]. run_step. run_step. run_step.
  eapply succeeds_mono; [by apply (succeeds_rename_file _ _ c)|]. intros u w1 E Hf1.
  assert (join p <> quarantine_path p uuid) as Hne by congruence.
  cbn beta in E. subst w1. split_and!.
  - unfold read_file. cbn [fs set_fs tick]. apply dict_get_set_eq.
  - unfold read_file. cbn [fs set_fs tick].
    by rewrite dict_get_set_ne, dict_get_pop, Prelude.eqb_refl.
  - eapply succeeds_mono; [by apply cleanup_tmp_removes|]. intros n w2 H _.
    apply H, quarantine_path_temporary.
Qed.

(** A storage with one EML file. *)
Definition one_file : World :=
  MkWorld empty_db None [("eml/a/x.eml", [65%Z])] [] [] None 0 (fun _ => None) [] [].

(** ** Names of stored files *)

(** The path of an EML of the account whose content has this hash. *)
Definition named (account hash path : string) : Prop :=
  String.prefix (account_root account) path = true
  /\ ends_with ("/" ++ file_name_of hash)%string path = true.

Lemma length_append (a b : string) : String.length (a +:+ b) = (String.length a + String.length b)%nat.
Proof. induction a as [|x a IH]; [done|]. rewrite append_cons. cbn [String.length]. by rewrite IH. Qed.
Lemma substring_all s : String.substring 0 (String.length s) s = s.
Proof. induction s as [|x s IH]; [done|]. cbn [String.length String.substring]. by rewrite IH. Qed.
Lemma substring_skip a s n : String.substring (String.length a) n (a +:+ s) = String.substring 0 n s.
Proof. induction a as [|x a IH]; [done|]. rewrite append_cons. cbn [String.length String.substring]. exact IH. Qed.
Lemma ends_with_append a s : ends_with s (a +:+ s) = true.
Proof.
  unfold ends_with. rewrite length_append.
  replace (String.length a + String.length s - String.length s)%nat with (String.length a) by lia.
  rewrite substring_skip, substring_all. apply Prelude.eqb_refl.
Qed.
Lemma prefix_append a s : String.prefix a (a +:+ s) = true.
Proof.
  induction a as [|x a IH]; [by destruct s|]. rewrite append_cons. cbn [String.prefix].
  rewrite IH. by destruct (Ascii.ascii_dec x x).
Qed.
Lemma ends_with_same s t p : String.length s = String.length t ->
  ends_with s p = true -> ends_with t p = true -> s = t.
Proof. unfold ends_with. intros Hl Hs Ht. bsimp. by rewrite <- Hs, <- Ht, Hl. Qed.

Lemma eml_path_named account date hash : named account hash (eml_path account date hash).
Proof.
  split; unfold eml_path; [apply prefix_append|].
  rewrite <- !append_assoc. rewrite (append_assoc _ "/"). apply ends_with_append.
Qed.

Lemma length_file_name m : String.length (file_name_of (hexdigest m)) = 36%nat.
Proof.
  unfold file_name_of. rewrite length_append. pose proof (length_hexdigest m) as H.
  set (h := hexdigest m) in *. clearbody h.
  assert (forall n s, (n <= String.length s)%nat -> String.length (String.substring 0 n s) = n) as Hs.
  { clear. induction n as [|n IH]; intros [|c s] Hn; simpl in *; try lia. rewrite IH; lia. }
  rewrite Hs by lia. done.
Qed.

Lemma ends_with_slash n1 n2 p : String.length n1 = String.length n2 ->
  ends_with ("/" ++ n1)%string p = true -> ends_with ("/" ++ n2)%string p = true -> n1 = n2.
Proof.
  intros Hl H1 H2. cut (("/" ++ n1)%string = ("/" ++ n2)%string).
  { rewrite !append_cons, !append_nil. congruence. }
  apply (ends_with_same _ _ p); [|done|done]. rewrite !length_append. by rewrite Hl.
Qed.

(** Two hashes a path is named after have the same first 128 bits. *)
Lemma named_same account c1 c2 p : named account (hexdigest c1) p -> named account (hexdigest c2) p ->
  file_name_of (hexdigest c1) = file_name_of (hexdigest c2).
Proof.
  intros [_ H1] [_ H2]. eapply ends_with_slash; [|exact H1|exact H2].
  etransitivity; [apply length_file_name | symmetry; apply length_file_name].
Qed.

Lemma temporary_not_named account hash uuid : ~ named account hash (temporary_path uuid).
Proof.
  intros [H _]. unfold account_root, temporary_path in H. rewrite !append_cons in H. cbn [String.prefix] in H.
  by destruct (Ascii.ascii_dec _ _).
Qed.

Lemma fold_hash_digest m : fold_hash (hexdigest m) = hexdigest m.
Proof.
  unfold fold_hash. pose proof (hexdigest_lower m) as H. set (h := hexdigest m) in *. clearbody h.
  assert (forall (f : Ascii.ascii -> Ascii.ascii) l, (forall c, lower_hex c = true -> f c = c) ->
    Forall (fun c => lower_hex c = true) l -> map f l = l) as E.
  { clear. intros f l Hf. induction 1 as [|c l Hc Hl IH]; [done|]. cbn [map]. by rewrite IH, Hf. }
  rewrite E; [apply String.string_of_list_ascii_of_string | | done].
  intros c Hc. unfold lower_hex in Hc. apply mem_true in Hc. cbn [String.list_ascii_of_string] in Hc.
  rewrite !elem_of_cons, elem_of_nil in Hc. destruct_or! Hc; subst; done.
Qed.

(** A save names its file after the account and the hash. *)
Lemma save_eml_named account date raw uuid written w s w' :
  save_eml account date raw uuid written w = (Ok s, w') ->
  named account (hexdigest raw) (eml_relative_path s).
Proof.
  intros E. cut (wp (save_eml account date raw uuid written) (fun r _ =>
    forall s, r = Ok s -> named account (hexdigest raw) (eml_relative_path s)) w).
  { unfold wp. rewrite E. cbn. eauto. }
  clear. unfold save_eml. wp_step. wp_step. destruct (validate_account_id _); [|done].
  wp_step. unfold find_existing_eml. wp_step; [done|]. wp_step.
  destruct (existing_path account (hexdigest raw) (tick w)) as [p|] eqn:Ep.
  { wp_step. intros s [= <-]. apply List.find_some in Ep as [_ Ep]. bsimp. by split. }
  wp_step. unfold make_directory at 1. wp_step; [done|]. wp_step.
  wp_step. unfold reuse_destination. wp_step; [done|]. wp_step.
  match goal with |- context [match ?x with Some _ => _ | None => None end] =>
    destruct x as [c|]; [destruct (hexdigest c == hexdigest raw)|] end.
  { wp_step. intros s [= <-]. apply eml_path_named. }
  all: wp_step; unfold wp at 1;
    match goal with |- context [with_temporary ?t ?m ?x] => destruct (with_temporary t m x) as [[u|e] w1] end;
    cbn [fst snd]; [|done]; unfold sync_directory; wp_step; wp_step; [done|]; wp_step; wp_step;
    intros s [= <-]; apply eml_path_named.
Qed.
