(* ===== verification/Config.v ===== *)
(** * Config: the configuration file

    [config.py]: the settings with their validation, the upgrades of old files, reading and writing. The file
    is JSON; a setting is checked both when it is read and when a configuration is made. *)

From S2P Require Import Prelude Errors PyText Json JsonIndent Manifest Database World EmlStorage.
Open Scope string_scope.

Definition CURRENT_SCHEMA_VERSION : Z := 2.
Definition REMOTE_DELETE_MODES : list string := ["trash"; "expunge"; "remove_membership"].
Definition PURGE_MODES : list string := ["manual"; "grace"; "immediate"].
Definition STARTUP_VERIFICATION_MODES : list string := ["quick"; "full"].
Definition ENCRYPTION_DECLARATIONS : list string := ["encrypted"; "unencrypted"; "unknown"].
Definition CREDENTIAL_STORAGE_MODES : list string := ["keyring"; "session_only"].
Definition CAPABILITY_LEVELS : list string := ["ok"; "degraded"; "unsupported"].

(** [AppConfig]; the names that other modules use have a prefix. *)
Record AppConfig := MkConfig {
  schema_version : Z;
  storage_root_candidates : list string;
  storage_root_uuid : option string;
  sync_on_startup : bool;
  sync_interval_minutes : Z;
  flag_refresh_enabled : bool;
  flag_refresh_window_days : Z;
  flag_refresh_min_interval_seconds : Z;
  max_message_bytes : Z;
  remote_delete_mode : string;
  c_remote_trash_folder : option string;
  delete_batch_limit : Z;
  trash_grace_days : Z;
  purge_mode : string;
  block_remote_images : bool;
  startup_verification : string;
  heartbeat_interval_sec : Z;
  c_reprobe_attempts : Z;
  sync_log_retention_days : Z;
  db_backup_to_local_disk : bool;
  storage_profiles : event;
  credential_storage : string;
  extra : event;
}.

(** ** Checks *)

Definition config_error {A} (message : string) : result A := raise ConfigError ("Invalid configuration: " ++ message).
Definition require_int (v : json) (field : string) : result Z :=
  match v with JInt n => Ok n | _ => config_error (field ++ " must be an integer") end.
Definition require_bool (v : json) (field : string) : result bool :=
  match v with JBool b => Ok b | _ => config_error (field ++ " must be a boolean") end.
Definition require_string (v : json) (field : string) : result string :=
  match v with JStr s => Ok s | _ => config_error (field ++ " must be a string") end.
Definition require_optional_string (v : json) (field : string) : result (option string) :=
  match v with JNull => Ok None | JStr s => Ok (Some s) | _ => config_error (field ++ " must be a string or null") end.
(** [_require_non_negative], [_require_positive] of a field that is an integer. *)
Definition require_non_negative (n : Z) (field : string) : result unit :=
  if (n <? 0)%Z then config_error (field ++ " must not be negative") else Ok tt.
Definition require_positive (n : Z) (field : string) : result unit :=
  if (n <=? 0)%Z then config_error (field ++ " must be greater than zero") else Ok tt.
Definition check_mode (mode field : string) (allowed : list string) : result string :=
  if mem mode allowed then Ok mode else config_error (field ++ " must be one of the modes").
Definition require_mode (v : json) (field : string) (allowed : list string) : result string :=
  let? mode := require_string v field in check_mode mode field allowed.

(** A member that may be absent or null is checked otherwise. *)
Definition when_present {A} (name : string) (profile : event) (f : json -> result A) : result unit :=
  match dict_get name profile with None | Some JNull => Ok tt | Some v => let? x := f v in Ok tt end.
Definition validate_storage_profile (profile : event) : result unit :=
  when_present "capabilities" profile
    (fun v => match v with JObj _ => Ok tt | _ => config_error "capabilities must be an object" end) ;?
  when_present "capability_level" profile (fun v => require_mode v "capability_level" CAPABILITY_LEVELS) ;?
  when_present "checked_path" profile (fun v => require_string v "checked_path") ;?
  when_present "storage_fingerprint" profile (fun v => require_string v "storage_fingerprint") ;?
  when_present "capability_ack_at" profile (fun v => require_optional_string v "capability_ack_at") ;?
  when_present "encryption_declared_at" profile (fun v => require_optional_string v "encryption_declared_at") ;?
  when_present "first_sync_confirmed_at" profile (fun v => require_optional_string v "first_sync_confirmed_at") ;?
  when_present "encryption" profile (fun v => require_mode v "encryption" ENCRYPTION_DECLARATIONS).
(** The entries of [storage_profiles]; every value of the model is a JSON value. *)
Definition validate_profile_entry (kv : string * json) : result unit :=
  check (negb (kv.1 == "")) ConfigError "Invalid configuration: storage_profiles keys must be non-empty strings" ;?
  match kv.2 with JObj profile => validate_storage_profile profile | _ => config_error "storage_profiles must be objects" end.
Fixpoint validate_profiles (l : event) : result unit :=
  match l with [] => Ok tt | kv :: l => validate_profile_entry kv ;? validate_profiles l end.
Definition validated_storage_profiles (v : json) : result event :=
  match v with
  | JObj l => validate_profiles l ;? Ok l
  | _ => config_error "storage_profiles must be an object"
  end.

(** [_validate_config]; the types of the fields hold by construction. *)
Definition validate_config (c : AppConfig) : result unit :=
  check (1 <=? schema_version c)%Z ConfigError "Invalid configuration: schema_version must be at least 1" ;?
  check (forallb (fun s => negb (s == "")) (storage_root_candidates c)) ConfigError
    "Invalid configuration: storage_root_candidates must contain non-empty strings" ;?
  require_non_negative (sync_interval_minutes c) "sync_interval_minutes" ;?
  require_positive (flag_refresh_window_days c) "flag_refresh_window_days" ;?
  require_positive (flag_refresh_min_interval_seconds c) "flag_refresh_min_interval_seconds" ;?
  require_positive (max_message_bytes c) "max_message_bytes" ;?
  check_mode (remote_delete_mode c) "remote_delete_mode" REMOTE_DELETE_MODES ;?
  require_positive (delete_batch_limit c) "delete_batch_limit" ;?
  require_non_negative (trash_grace_days c) "trash_grace_days" ;?
  check_mode (purge_mode c) "purge_mode" PURGE_MODES ;?
  check_mode (startup_verification c) "startup_verification" STARTUP_VERIFICATION_MODES ;?
  require_positive (heartbeat_interval_sec c) "heartbeat_interval_sec" ;?
  require_non_negative (c_reprobe_attempts c) "reprobe_attempts" ;?
  require_non_negative (sync_log_retention_days c) "sync_log_retention_days" ;?
  validate_profiles (storage_profiles c) ;?
  check_mode (credential_storage c) "credential_storage" CREDENTIAL_STORAGE_MODES ;?
  Ok tt.
(** The constructor, with its [__post_init__]. *)
Definition make_config (c : AppConfig) : result AppConfig := validate_config c ;? Ok c.
Definition defaults : AppConfig :=
  MkConfig CURRENT_SCHEMA_VERSION [] None true 60 true 30 3600 (50 * 1024 * 1024) "trash" None 1000 30 "manual" true
    "quick" 5 3 90 false [] "keyring" [].

(** ** Upgrades *)

Definition set_default (k : string) (v : json) (d : event) : event :=
  match dict_get k d with Some _ => d | None => dict_set k v d end.
Definition upgrade_v0_to_v1 (d : event) : event := dict_set "schema_version" (JInt 1) d.
Definition upgrade_v1_to_v2 (d : event) : event :=
  dict_set "schema_version" (JInt 2)
    (set_default "credential_storage" (JStr "keyring") (set_default "storage_profiles" (JObj []) d)).
Definition CONFIG_UPGRADERS (version : Z) : option (event -> event) :=
  if (version =? 0)%Z then Some upgrade_v0_to_v1 else if (version =? 1)%Z then Some upgrade_v1_to_v2 else None.
(** The loop: every upgrade raises the version, so that their number is enough fuel. *)
Fixpoint upgrade_loop (fuel : nat) (version : Z) (d : event) : result event :=
  if (version <? CURRENT_SCHEMA_VERSION)%Z then
    match fuel with
    | O => config_error "upgrade does not end"
    | S fuel =>
        match CONFIG_UPGRADERS version with
        | None => config_error "no upgrade path exists"
        | Some upgrader =>
            let d := upgrader d in
            let? version := require_int (get_or JNull (dict_get "schema_version" d)) "schema_version" in
            upgrade_loop fuel version d
        end
    end
  else Ok d.
Definition upgrade (d : event) : result event :=
  let? version := require_int (get_or (JInt CURRENT_SCHEMA_VERSION) (dict_get "schema_version" d)) "schema_version" in
  check (version <=? CURRENT_SCHEMA_VERSION)%Z ConfigVersionTooNewError "Configuration schema is newer than supported schema" ;?
  let? d := upgrade_loop 2 version d in
  Ok (if dict_get "remote_delete_mode" d == Some (JStr "permanent")
      then dict_set "remote_delete_mode" (JStr "expunge") d else d).

(** ** Decoding and encoding *)

(** [_encode]'s members, in their order. *)
Definition optional (o : option string) : json := match o with Some s => JStr s | None => JNull end.
Definition fields_of (c : AppConfig) : event :=
  [("schema_version", JInt (schema_version c));
   ("storage_root_candidates", JList (map JStr (storage_root_candidates c)));
   ("storage_root_uuid", optional (storage_root_uuid c));
   ("sync_on_startup", JBool (sync_on_startup c));
   ("sync_interval_minutes", JInt (sync_interval_minutes c));
   ("flag_refresh_enabled", JBool (flag_refresh_enabled c));
   ("flag_refresh_window_days", JInt (flag_refresh_window_days c));
   ("flag_refresh_min_interval_seconds", JInt (flag_refresh_min_interval_seconds c));
   ("max_message_bytes", JInt (max_message_bytes c));
   ("remote_delete_mode", JStr (remote_delete_mode c));
   ("remote_trash_folder", optional (c_remote_trash_folder c));
   ("delete_batch_limit", JInt (delete_batch_limit c));
   ("trash_grace_days", JInt (trash_grace_days c));
   ("purge_mode", JStr (purge_mode c));
   ("block_remote_images", JBool (block_remote_images c));
   ("startup_verification", JStr (startup_verification c));
   ("heartbeat_interval_sec", JInt (heartbeat_interval_sec c));
   ("reprobe_attempts", JInt (c_reprobe_attempts c));
   ("sync_log_retention_days", JInt (sync_log_retention_days c));
   ("db_backup_to_local_disk", JBool (db_backup_to_local_disk c));
   ("storage_profiles", JObj (storage_profiles c));
   ("credential_storage", JStr (credential_storage c))].
Definition KNOWN_FIELDS : list string :=
  ["schema_version"; "storage_root_candidates"; "storage_root_uuid"; "sync_on_startup"; "sync_interval_minutes";
   "flag_refresh_enabled"; "flag_refresh_window_days"; "flag_refresh_min_interval_seconds"; "max_message_bytes";
   "remote_delete_mode"; "remote_trash_folder"; "delete_batch_limit"; "trash_grace_days"; "purge_mode";
   "block_remote_images"; "startup_verification"; "heartbeat_interval_sec"; "reprobe_attempts";
   "sync_log_retention_days"; "db_backup_to_local_disk"; "storage_profiles"; "credential_storage"].
Fixpoint strings_of (l : list json) : option (list string) :=
  match l with
  | [] => Some []
  | JStr s :: l => option_map (cons s) (strings_of l)
  | _ :: _ => None
  end.
Definition as_string_tuple (v : json) (field : string) : result (list string) :=
  match v with
  | JList l => match strings_of l with Some l => Ok l | None => config_error (field ++ " must be an array of strings") end
  | _ => config_error (field ++ " must be an array of strings")
  end.

(** [_decode] *)
Definition decode (d : event) : result AppConfig :=
  let? d := upgrade d in
  let field name (default : json) := get_or default (dict_get name d) in
  let number name default := require_int (field name (JInt default)) name in
  let boolean name default := require_bool (field name (JBool default)) name in
  let text name default := require_string (field name (JStr default)) name in
  let optional_text name default := require_optional_string (field name (optional default)) name in
  let? f1 := number "schema_version" (schema_version defaults) in
  let? f2 := as_string_tuple (field "storage_root_candidates" (JList (map JStr (storage_root_candidates defaults))))
               "storage_root_candidates" in
  let? f3 := optional_text "storage_root_uuid" (storage_root_uuid defaults) in
  let? f4 := boolean "sync_on_startup" (sync_on_startup defaults) in
  let? f5 := number "sync_interval_minutes" (sync_interval_minutes defaults) in
  let? f6 := boolean "flag_refresh_enabled" (flag_refresh_enabled defaults) in
  let? f7 := number "flag_refresh_window_days" (flag_refresh_window_days defaults) in
  let? f8 := number "flag_refresh_min_interval_seconds" (flag_refresh_min_interval_seconds defaults) in
  let? f9 := number "max_message_bytes" (max_message_bytes defaults) in
  let? f10 := text "remote_delete_mode" (remote_delete_mode defaults) in
  let? f11 := optional_text "remote_trash_folder" (c_remote_trash_folder defaults) in
  let? f12 := number "delete_batch_limit" (delete_batch_limit defaults) in
  let? f13 := number "trash_grace_days" (trash_grace_days defaults) in
  let? f14 := text "purge_mode" (purge_mode defaults) in
  let? f15 := boolean "block_remote_images" (block_remote_images defaults) in
  let? f16 := text "startup_verification" (startup_verification defaults) in
  let? f17 := number "heartbeat_interval_sec" (heartbeat_interval_sec defaults) in
  let? f18 := number "reprobe_attempts" (c_reprobe_attempts defaults) in
  let? f19 := number "sync_log_retention_days" (sync_log_retention_days defaults) in
  let? f20 := boolean "db_backup_to_local_disk" (db_backup_to_local_disk defaults) in
  let? f21 := validated_storage_profiles (field "storage_profiles" (JObj (storage_profiles defaults))) in
  let? f22 := require_mode (field "credential_storage" (JStr (credential_storage defaults))) "credential_storage"
                CREDENTIAL_STORAGE_MODES in
  make_config (MkConfig f1 f2 f3 f4 f5 f6 f7 f8 f9 f10 f11 f12 f13 f14 f15 f16 f17 f18 f19 f20 f21 f22
    (List.filter (fun kv => negb (mem kv.1 KNOWN_FIELDS)) d)).
(** [_encode]: the extra members, updated with the fields. *)
Definition encode (c : AppConfig) : result event :=
  validate_config c ;? Ok (fold_left (fun d kv => dict_set kv.1 kv.2 d) (fields_of c) (extra c)).

(** ** The file *)

(** What [load] makes of the contents. A text that is not UTF-8 raises [UnicodeDecodeError], a [ValueError]
    that is not caught. *)
Definition load_bytes (contents : option bytes) : result AppConfig :=
  match contents with
  | None => make_config defaults
  | Some l =>
      if negb (utf8_valid false l) then raise ValueError "invalid start byte" else
      match loads l with
      | None => raise ConfigError "Could not read configuration"
      | Some (JObj d) => decode d
      | Some _ => config_error "the JSON root must be an object"
      end
  end.
(** [load]; an error of the system that is not the absence of the file. *)
Definition load (path : string) : M World AppConfig :=
  let! contents := mtry (io (mgets (read_file path)))
    (fun e => if isinstance e FileNotFoundError then mret None
              else if isinstance e OSError then mraise ConfigError "Could not read configuration" else mthrow e) in
  mlift (load_bytes contents).
(** The text written for a configuration. *)
Definition config_bytes (values : event) : bytes := (dump_indented (JObj values) ++ [10%Z])%list.
(** [save]: [temporary] is the name [mkstemp] finds, [written] the bytes that reach it first. *)
Definition save (path temporary : string) (written : nat) (c : AppConfig) : M World unit :=
  let! payload := mlift (encode c) in
  mtry
    (with_temporary temporary
       (make_directory ;! write_file temporary (config_bytes payload) written ;! rename_file temporary path))
    (fun e => if isinstance e OSError || isinstance e TypeError || isinstance e ValueError
              then mraise ConfigError "Could not write configuration" else mthrow e).
Close Scope string_scope.
