(* ===== verification/ConfigSafe.v ===== *)
(** * ConfigSafe: what the configuration file keeps

    The theorems on [Config]: a configuration that was saved is read back, saving is atomic, and upgrading
    ends. *)

From S2P Require Import Prelude Errors PyText Json JsonIndent Manifest Database World EmlStorage Config.
Open Scope string_scope.

(** ** Upgrading *)

(** The upgrade of any file ends, with the current version or with a [ConfigError]. *)
Lemma upgrade_loop_ends version d :
  match upgrade_loop 2 version d with
  | Ok d' => (CURRENT_SCHEMA_VERSION <= version)%Z /\ d' = d \/ dict_get "schema_version" d' = Some (JInt 2)
  | Err e => exn_class e = ConfigError /\ (version < 0)%Z
  end.
Proof.
  unfold CURRENT_SCHEMA_VERSION. cbn [upgrade_loop]. unfold CURRENT_SCHEMA_VERSION. destruct (Z.ltb_spec version 2) as [H|H]; [|by left].
  unfold CONFIG_UPGRADERS at 1. destruct (Z.eqb_spec version 0) as [->|].
  - unfold upgrade_v0_to_v1. rewrite dict_get_set_eq. cbn -[dict_get dict_set upgrade_v1_to_v2].
    unfold upgrade_v1_to_v2. rewrite dict_get_set_eq. cbn -[dict_get dict_set set_default]. right. by rewrite dict_get_set_eq.
  - destruct (Z.eqb_spec version 1) as [->|].
    + unfold upgrade_v1_to_v2. rewrite dict_get_set_eq. cbn -[dict_get dict_set set_default]. right. by rewrite dict_get_set_eq.
    + cbn. split; [done|lia].
Qed.

(** ** Reading back *)

Lemma fields_keys c : (fields_of c).*1 = KNOWN_FIELDS.
Proof. reflexivity. Qed.
Lemma known_nodup : NoDup KNOWN_FIELDS.
Proof. by apply (bool_decide_unpack _). Qed.

(** Members with new keys are put behind the old ones. *)
Lemma update_fresh (l : event) : forall d, NoDup (d.*1 ++ l.*1) ->
  fold_left (fun d kv => dict_set kv.1 kv.2 d) l d = (d ++ l)%list.
Proof.
  induction l as [|[k v] l IH]; intros d Hd; cbn [fold_left]; [by rewrite app_nil_r|].
  cbn [fst snd]. rewrite dict_set_fresh.
  - rewrite IH, <- app_assoc; [done|]. rewrite fmap_app, <- app_assoc. exact Hd.
  - csimpl in Hd. apply NoDup_app in Hd as (_ & H & _). set_solver.
Qed.

(** What JSON text can carry and gives back: members besides the known ones, keys that occur once, no floating-point numbers
    (whose texts [Json] does not read), and texts without lone surrogates. Whether the configuration is valid and
    which version it has is left open. *)
Record storable (c : AppConfig) : Prop := Storable {
  st_extra : forall k, k ∈ (extra c).*1 -> k ∉ KNOWN_FIELDS;
  st_plain : plain (JObj (extra c)) = true /\ plain (JObj (storage_profiles c)) = true;
  st_text : valid_text (JObj (fields_of c)) = true /\ valid_text (JObj (extra c)) = true;
}.

(** *** Profiles, their members sorted *)

Lemma when_present_canon {A} name p (f : json -> result A) : NoDup p.*1 -> (forall v, f (canon v) = f v) ->
  when_present name (canon_event p) f = when_present name p f.
Proof.
  intros Hp Hf. unfold when_present. rewrite dict_get_canon by done.
  destruct (dict_get name p) as [v|]; [|done]. cbn [option_map]. pose proof (Hf v) as E. destruct v; try done; cbn [canon] in *; by rewrite E.
Qed.
Lemma validate_storage_profile_canon p : NoDup p.*1 ->
  validate_storage_profile (canon_event p) = validate_storage_profile p.
Proof.
  intros Hp. unfold validate_storage_profile. rewrite !when_present_canon by (assumption || (intros []; reflexivity)).
  done.
Qed.
Lemma validate_entry_canon kv : plain kv.2 = true ->
  validate_profile_entry (kv.1, canon kv.2) = validate_profile_entry kv.
Proof.
  destruct kv as [k [| | | | | |p]]; intros Hp; try done. unfold validate_profile_entry. cbn [fst snd canon].
  apply plain_obj in Hp as [Hp _]. fold (canon_event p). by rewrite validate_storage_profile_canon.
Qed.
Lemma validate_profiles_forall l :
  validate_profiles l = Ok tt <-> Forall (fun kv => validate_profile_entry kv = Ok tt) l.
Proof.
  induction l as [|kv l IH]; cbn [validate_profiles]; [split; [constructor|done]|]. rewrite Forall_cons, <- IH.
  destruct (validate_profile_entry kv) as [[]|e]; cbn [rbind]; [tauto|]. split; [done|]. by intros [[=] _].
Qed.
Lemma validate_profiles_canon l : plain (JObj l) = true -> validate_profiles l = Ok tt ->
  validate_profiles (canon_event l) = Ok tt.
Proof.
  intros Hp. rewrite !validate_profiles_forall, canon_event_perm, Forall_fmap. intros Hl.
  cbn [plain] in Hp. apply andb_true_iff in Hp as [_ Hp]. rewrite forallb_true in Hp.
  rewrite !Forall_forall in *. intros kv Hkv. cbn [compose]. rewrite validate_entry_canon; auto.
Qed.

(** *** Decoding *)

Lemma check_mode_same mode field allowed m : check_mode mode field allowed = Ok m -> m = mode.
Proof. unfold check_mode. destruct (mem mode allowed); [by intros [= ->]|done]. Qed.
(** [_decode] of an object whose upgrade has every field of a valid configuration. *)
Lemma decode_fields c d d1 : upgrade d = Ok d1 -> validate_config c = Ok tt ->
  Forall (fun kv => dict_get kv.1 d1 = Some kv.2) (fields_of c) ->
  decode d = Ok (MkConfig (schema_version c) (storage_root_candidates c) (storage_root_uuid c) (sync_on_startup c)
    (sync_interval_minutes c) (flag_refresh_enabled c) (flag_refresh_window_days c) (flag_refresh_min_interval_seconds c)
    (max_message_bytes c) (remote_delete_mode c) (c_remote_trash_folder c) (delete_batch_limit c) (trash_grace_days c)
    (purge_mode c) (block_remote_images c) (startup_verification c) (heartbeat_interval_sec c) (c_reprobe_attempts c)
    (sync_log_retention_days c) (db_backup_to_local_disk c) (storage_profiles c) (credential_storage c)
    (List.filter (fun kv => negb (mem kv.1 KNOWN_FIELDS)) d1)).
Proof.
  intros Hup Hv Hd. unfold fields_of in Hd. repeat (apply Forall_cons in Hd as [?H Hd]). cbn [fst snd] in *.
  assert (forall l, strings_of (map JStr l) = Some l) as Hstr.
  { induction l as [|x l IH]; [done|]. cbn [map strings_of]. by rewrite IH. }
  assert (forall o name, require_optional_string (optional o) name = Ok o) as Hopt by (by intros [s|] name).
  pose proof Hv as Hall. unfold validate_config in Hall.
  repeat match type of Hall with rbind _ _ = _ => apply rbind_ok in Hall as (? & ? & Hall) end.
  unfold decode. rewrite Hup. cbn [rbind]. cbv zeta.
  repeat match goal with E : dict_get ?k d1 = Some _ |- context [dict_get ?k d1] => rewrite E end.
  unfold as_string_tuple, validated_storage_profiles, require_mode. cbn [get_or]. rewrite Hstr, !Hopt.
  cbn [rbind require_int require_bool require_string].
  match goal with E : validate_profiles _ = Ok _ |- _ => rewrite E end.
  match goal with E : check_mode (credential_storage c) _ _ = Ok _ |- _ => rewrite E, (check_mode_same _ _ _ _ E) end.
  cbn [rbind]. unfold make_config.
  match goal with |- rbind ?v _ = _ => change v with (validate_config c) end. by rewrite Hv.
Qed.

(** [c] in the current version, with its dictionaries as the JSON text gives them back. *)
Definition reloaded (c : AppConfig) (profiles extras : event) : AppConfig :=
  MkConfig CURRENT_SCHEMA_VERSION (storage_root_candidates c) (storage_root_uuid c) (sync_on_startup c)
    (sync_interval_minutes c) (flag_refresh_enabled c) (flag_refresh_window_days c) (flag_refresh_min_interval_seconds c)
    (max_message_bytes c) (remote_delete_mode c) (c_remote_trash_folder c) (delete_batch_limit c) (trash_grace_days c)
    (purge_mode c) (block_remote_images c) (startup_verification c) (heartbeat_interval_sec c) (c_reprobe_attempts c)
    (sync_log_retention_days c) (db_backup_to_local_disk c) profiles (credential_storage c) extras.

Lemma encode_nodup c : storable c -> NoDup (extra c ++ fields_of c)%list.*1.
Proof.
  intros [Hx [Hp _] _]. rewrite fmap_app, fields_keys. apply plain_obj in Hp as [Hp _]. apply NoDup_app.
  split; [done|]. split; [done|]. apply known_nodup.
Qed.
Lemma encode_storable c : storable c -> validate_config c = Ok tt -> encode c = Ok (extra c ++ fields_of c)%list.
Proof.
  intros Hc Hv. unfold encode. rewrite Hv. cbn [rbind]. pose proof (encode_nodup c Hc) as Hnd. rewrite fmap_app in Hnd.
  by rewrite update_fresh.
Qed.
Lemma dict_set_same {K V} `{EqDecision K} (k : K) (v : V) d : dict_get k d = Some v -> dict_set k v d = d.
Proof.
  induction d as [|[k' v'] d IH]; cbn [dict_get dict_set]; [done|]. destruct (k == k'); [by intros [= ->]|]. intros H. by rewrite IH.
Qed.
Lemma filter_dict_set {K V} `{EqDecision K} (p : K * V -> bool) (k : K) (v : V) d : (forall x, p (k, x) = false) ->
  List.filter p (dict_set k v d) = List.filter p d.
Proof.
  intros Hp. induction d as [|[k' v'] d IH]; cbn [dict_set]; [cbn; by rewrite Hp|].
  destruct (k == k') eqn:E; cbn [List.filter]; [apply Prelude.eqb_true in E as <-; by rewrite !Hp|]. by rewrite IH.
Qed.
(** A file that [save] wrote is upgraded by its version alone. *)
Lemma upgrade_saved d v mode x y : dict_get "schema_version" d = Some (JInt v) -> (1 <= v <= 2)%Z ->
  dict_get "storage_profiles" d = Some x -> dict_get "credential_storage" d = Some y ->
  dict_get "remote_delete_mode" d = Some (JStr mode) -> mode <> "permanent" ->
  upgrade d = Ok (dict_set "schema_version" (JInt 2) d).
Proof.
  intros Hv Hr Hx Hy Hm Hne. unfold upgrade. rewrite Hv. cbn [get_or require_int rbind].
  assert (upgrade_loop 2 v d = Ok (dict_set "schema_version" (JInt 2) d)) as E.
  { cbn [upgrade_loop]. unfold CURRENT_SCHEMA_VERSION. destruct (Z.ltb_spec v 2) as [H|H].
    - assert (v = 1%Z) as -> by lia. change (CONFIG_UPGRADERS 1) with (Some upgrade_v1_to_v2). cbv zeta iota.
      unfold upgrade_v1_to_v2. rewrite dict_get_set_eq. cbn [get_or require_int rbind]. change (2 <? 2)%Z with false. cbv iota.
      unfold set_default. by rewrite Hx, Hy.
    - assert (v = 2%Z) as -> by lia. by rewrite dict_set_same. }
  unfold check, CURRENT_SCHEMA_VERSION. rewrite (proj2 (Z.leb_le v 2)) by lia. cbn [rbind]. rewrite E. cbn [rbind].
  rewrite dict_get_set_ne, Hm by done. rewrite Prelude.eqb_neq; [done|]. by intros [= ->].
Qed.
Lemma upgrade_later d v : dict_get "schema_version" d = Some (JInt v) -> (2 < v)%Z ->
  upgrade d = raise ConfigVersionTooNewError "Configuration schema is newer than supported schema".
Proof.
  intros Hv Hr. unfold upgrade. rewrite Hv. cbn [get_or require_int rbind]. unfold check, CURRENT_SCHEMA_VERSION.
  by rewrite (proj2 (Z.leb_gt v 2)) by lia.
Qed.
Lemma fields_canon c extras :
  fields_of (reloaded c (canon_event (storage_profiles c)) extras)
  = ("schema_version", JInt 2) :: map (fun kv => (kv.1, canon kv.2)) (tail (fields_of c)).
Proof.
  destruct c as [? l u ? ? ? ? ? ? ? t]. unfold fields_of. cbn [tail map fst snd canon]. rewrite map_map. by destruct u, t.
Qed.
Lemma validated c : validate_config c = Ok tt ->
  (1 <= schema_version c)%Z /\ remote_delete_mode c <> "permanent" /\ validate_profiles (storage_profiles c) = Ok tt.
Proof.
  intros Hv. pose proof Hv as Hm. unfold validate_config in Hm.
  repeat match type of Hm with rbind _ _ = _ => apply rbind_ok in Hm as (? & ? & Hm) end. split_and!.
  - match goal with E : check _ _ "Invalid configuration: schema_version must be at least 1" = Ok ?u |- _ => destruct u; apply check_ok in E end. lia.
  - intros E. rewrite E in *. discriminate.
  - match goal with E : validate_profiles _ = Ok ?x |- _ => by destruct x end.
Qed.
(** The configuration in the current version is valid too. *)
Lemma reloaded_valid c : storable c -> validate_config c = Ok tt ->
  validate_config (reloaded c (canon_event (storage_profiles c)) (extra c)) = Ok tt.
Proof.
  intros [_ [_ Hpp] _] Hv. destruct (validated c Hv) as (Hge & _ & Hprof). revert Hv. unfold validate_config.
  change (storage_profiles (reloaded c _ _)) with (canon_event (storage_profiles c)). rewrite validate_profiles_canon, Hprof by done.
  unfold check at 1. rewrite (proj2 (Z.leb_le _ _) Hge). exact (fun H => H).
Qed.

Lemma saved_get c k v : storable c -> (k, v) ∈ fields_of c -> dict_get k (canon_event (extra c ++ fields_of c)) = Some (canon v).
Proof.
  intros Hc Hk. pose proof (encode_nodup c Hc) as Hnd. rewrite dict_get_canon by done.
  rewrite (dict_get_NoDup k v); [done|done|]. apply elem_of_app. by right.
Qed.
Lemma reads_back c : storable c -> validate_config c = Ok tt -> (schema_version c <= 2)%Z -> exists profiles extras,
  decode (canon_event (extra c ++ fields_of c)) = Ok (reloaded c profiles extras)
  /\ profiles ≡ₚ map (fun kv => (kv.1, canon kv.2)) (storage_profiles c)
  /\ extras ≡ₚ map (fun kv => (kv.1, canon kv.2)) (extra c).
Proof.
  intros Hc Hv Hver. pose proof (encode_nodup c Hc) as Hnd. destruct (validated c Hv) as (Hge & Hmode & _).
  set (d := canon_event (extra c ++ fields_of c)%list). set (d1 := dict_set "schema_version" (JInt 2) d).
  assert (upgrade d = Ok d1) as Hup.
  { assert (forall i kv, fields_of c !! i = Some kv -> dict_get kv.1 d = Some (canon kv.2)) as Hget.
    { intros i [k v] Hi. apply saved_get; [done|]. by apply list_elem_of_lookup_2 in Hi. }
    eapply (upgrade_saved _ (schema_version c) (remote_delete_mode c)); [exact (Hget 0%nat _ eq_refl)|lia|exact (Hget 20%nat _ eq_refl)|
      exact (Hget 21%nat _ eq_refl)|exact (Hget 9%nat _ eq_refl)|exact Hmode]. }
  exists (canon_event (storage_profiles c)), (List.filter (fun kv => negb (mem kv.1 KNOWN_FIELDS)) d1).
  split; [|split; [apply canon_event_perm|]].
  - set (c' := reloaded c (canon_event (storage_profiles c)) (extra c)).
    change (Ok (reloaded c _ _)) with (Ok (MkConfig (schema_version c') (storage_root_candidates c') (storage_root_uuid c') (sync_on_startup c')
      (sync_interval_minutes c') (flag_refresh_enabled c') (flag_refresh_window_days c') (flag_refresh_min_interval_seconds c')
      (max_message_bytes c') (remote_delete_mode c') (c_remote_trash_folder c') (delete_batch_limit c') (trash_grace_days c')
      (purge_mode c') (block_remote_images c') (startup_verification c') (heartbeat_interval_sec c') (c_reprobe_attempts c')
      (sync_log_retention_days c') (db_backup_to_local_disk c') (storage_profiles c') (credential_storage c')
      (List.filter (fun kv => negb (mem kv.1 KNOWN_FIELDS)) d1))).
    apply decode_fields; [done|by apply reloaded_valid|].
    unfold c'. rewrite fields_canon. constructor; [apply dict_get_set_eq|]. apply Forall_fmap, Forall_forall.
    intros [k v] Hkv. cbn [compose fst snd]. unfold d1. rewrite dict_get_set_ne.
    + apply saved_get; [done|]. by right.
    + intros ->. pose proof known_nodup as Hkn. rewrite <- (fields_keys c) in Hkn. apply NoDup_cons in Hkn as [Hkn _]. apply Hkn.
      by apply (list_elem_of_fmap_2 fst) in Hkv.
  - unfold d1. rewrite filter_dict_set by (intros x; reflexivity). unfold d. destruct Hc as [Hx _ _].
    rewrite (filter_perm _ _ _ (canon_event_perm _)). rewrite map_app, List.filter_app.
    rewrite filter_all, filter_none, app_nil_r; [done| |].
    + intros x (kv & -> & Hkv)%list_elem_of_fmap. cbn [fst]. apply negb_false_iff, mem_true. rewrite <- (fields_keys c).
      by apply list_elem_of_fmap_2.
    + intros x (kv & -> & Hkv)%list_elem_of_fmap. cbn [fst]. apply negb_true_iff, mem_false. apply Hx.
      by apply list_elem_of_fmap_2.
Qed.

(** ** Loading what was saved *)

Lemma fields_plain c : storable c -> plain (JObj (extra c ++ fields_of c)) = true /\ valid_text (JObj (extra c ++ fields_of c)) = true.
Proof.
  intros Hc. pose proof (encode_nodup c Hc) as Hnd. destruct Hc as [_ [Hx Hp] [Ht Hy]]. split.
  - cbn [plain] in *. apply andb_true_iff in Hx as [_ Hx]. rewrite bool_decide_eq_true_2 by done. cbn [andb].
    rewrite forallb_app, Hx. cbn [andb]. unfold fields_of. cbn [forallb snd plain]. rewrite Hp.
    assert (forall o, plain (optional o) = true) as Ho by by intros [].
    rewrite !Ho. rewrite !andb_true_r. apply forallb_true. by intros x (y & -> & _)%list_elem_of_fmap.
  - cbn [valid_text] in *. by rewrite forallb_app, Hy, Ht.
Qed.

(** What [load] makes of the text that [save] writes: the same settings in the current version, up to the order of the members
    of the dictionaries, with the members that the program does not know; a later version is refused. *)
Definition loads_as (c : AppConfig) (r : result AppConfig) : Prop :=
  if (2 <? schema_version c)%Z then r = raise ConfigVersionTooNewError "Configuration schema is newer than supported schema"
  else exists profiles extras, r = Ok (reloaded c profiles extras)
    /\ profiles ≡ₚ map (fun kv => (kv.1, canon kv.2)) (storage_profiles c)
    /\ extras ≡ₚ map (fun kv => (kv.1, canon kv.2)) (extra c).
Lemma saved_config_loads c : storable c -> validate_config c = Ok tt ->
  encode c = Ok (extra c ++ fields_of c)%list /\ loads_as c (load_bytes (Some (config_bytes (extra c ++ fields_of c)))).
Proof.
  intros Hc Hv. split; [by apply encode_storable|].
  destruct (fields_plain c Hc) as [Hplain Htext]. unfold load_bytes, config_bytes.
  destruct (loads_dump_indented _ Hplain Htext) as [-> ->]. cbn [negb]. unfold loads_as.
  destruct (Z.ltb_spec 2 (schema_version c)) as [H|H]; [|by apply reads_back].
  unfold decode. cbn [canon]. fold (canon_event (extra c ++ fields_of c)). rewrite (upgrade_later _ (schema_version c)); [done| |done].
  apply (saved_get c "schema_version" (JInt (schema_version c))); [done|by left].
Qed.

(** Saving: every other file stays as it is, and the configuration file holds what it held or the whole new
    text, whatever fails or wherever the program stops. *)
Lemma wp_save path tmp written c values w : tmp <> path -> encode c = Ok values ->
  wp (save path tmp written c) (fun r w' =>
    match r with
    | Ok _ => renamed tmp path (config_bytes values) w w'
    | Err _ => only_file tmp w w'
    end) w.
Proof.
  intros Hne He. unfold save. wp_step. rewrite He. wp_step.
  pose proof (wp_with_temporary tmp _ (fun _ => renamed tmp path (config_bytes values) w) w w
    (wp_publish tmp path (config_bytes values) written w w Hne (only_file_refl tmp w))) as H.
  unfold wp, mtry in *. destruct (with_temporary _ _ w) as [[[]|e] w']; [done|].
  by destruct (_ || _)%bool.
Qed.
(** C38. Saving the configuration is atomic and loading it gives it back: whatever operation fails and wherever it stops, no
    other file, nothing of the database and nothing of the manifest changes; the file holds its old contents or the whole
    text; when [save] returns, no temporary file is left, and loading the file gives the saved settings back in the current
    version, the members that the program does not know included, up to the order of members, or, when their version is
    later than the current one, refuses them as too new. The members of the settings are those JSON text gives back
    ([storable]: no floating-point numbers, no lone surrogates). *)
Theorem save_config_atomic path tmp written c w : tmp <> path -> storable c ->
  let '(r, w') := save path tmp written c w in
  same_records w w'
  /\ (forall q, q <> tmp -> q <> path -> read_file q w' = read_file q w)
  /\ (is_ok r = false -> read_file path w' = read_file path w)
  /\ (is_ok r = true -> read_file tmp w' = None /\ loads_as c (load_bytes (read_file path w'))).
Proof.
  intros Hne Hc. destruct (validate_config c) as [[]|e] eqn:Hv.
  - destruct (saved_config_loads c Hc Hv) as (He & Hl). pose proof (wp_save path tmp written c _ w Hne He) as H. unfold wp in H.
    destruct (save path tmp written c w) as [[[]|e] w']; cbn [fst snd] in H.
    + destruct H as (Hs & Hpath & Htmp & Hq). do 3 (split; [done|]). intros _. split; [done|]. by rewrite Hpath.
    + destruct H as (Hs & Hq). split; [done|]. split; [auto|]. split; [|done]. intros _. by apply Hq.
  - unfold save, encode. by rewrite Hv.
Qed.

(** A configuration with a storage profile and a member of a later version. *)
Definition sample_config : AppConfig :=
  MkConfig 2 ["/media/mail"] (Some "root") true 15 true 30 3600 1000 "expunge" None 10 30 "grace" true "full" 5 3 90 false
    [("root", JObj [("encryption", JStr "encrypted"); ("capabilities", JObj [])])] "keyring" [("theme", JStr "dark")].
Lemma sample_storable : storable sample_config.
Proof.
  split; [|split; vm_compute; reflexivity|split; vm_compute; reflexivity].
  intros k Hk Hin. apply list_elem_of_singleton in Hk as ->. revert Hin. by apply (bool_decide_unpack _).
Qed.
Lemma save_config_atomic_witness :
  is_ok (save "config.json" ".config.json.tmp" 3 sample_config one_file).1 = true
  /\ let '(r, w') := save "config.json" ".config.json.tmp" 3 sample_config one_file in
     is_ok r = true -> read_file ".config.json.tmp" w' = None /\ loads_as sample_config (load_bytes (read_file "config.json" w')).
Proof.
  split; [vm_compute; reflexivity|].
  pose proof (save_config_atomic "config.json" ".config.json.tmp" 3 sample_config one_file ltac:(done) sample_storable) as H.
  destruct (save "config.json" ".config.json.tmp" 3 sample_config one_file) as [r w']. apply H.
Defined.

(** ** Edge cases *)

(** A configuration of a later version can be made and saved, and is then refused by [load]. *)
Definition later_config : AppConfig :=
  MkConfig 3 [] None true 60 true 30 3600 1000 "trash" None 1000 30 "manual" true "quick" 5 3 90 false [] "keyring" [].
Lemma later_version_saved : exists values msg, encode later_config = Ok values
  /\ load_bytes (Some (config_bytes values)) = raise ConfigVersionTooNewError msg.
Proof.
  exists (fields_of later_config), "Configuration schema is newer than supported schema".
  split; vm_compute; reflexivity.
Qed.
(** A file that is not UTF-8 raises [UnicodeDecodeError] instead of a [ConfigError]. *)
Lemma invalid_utf8_escapes :
  exists e, load_bytes (Some [255%Z]) = Err e /\ isinstance e ConfigError = false.
Proof. by exists (Exn ValueError "invalid start byte"). Qed.
(** Upgrading any object ends: with an object of the current version (one without a version counts as
    such), or with a [ConfigError]. *)
Lemma upgrade_ends d : match upgrade d with
  | Ok d' => dict_get "schema_version" d' = Some (JInt 2) \/ dict_get "schema_version" d' = None
  | Err e => isinstance e ConfigError = true
  end.
Proof.
  unfold upgrade.
  assert (forall d', dict_get "schema_version" (if dict_get "remote_delete_mode" d' == Some (JStr "permanent")
      then dict_set "remote_delete_mode" (JStr "expunge") d' else d') = dict_get "schema_version" d') as Hmode.
  { intros d'. destruct (_ == _); [by rewrite dict_get_set_ne|done]. }
  destruct (dict_get "schema_version" d) as [v|] eqn:Ev; cbn [get_or].
  - destruct v as [| |n| | | |]; try done. cbn [require_int rbind]. unfold check. destruct (Z.leb_spec n CURRENT_SCHEMA_VERSION); [|done].
    cbn [rbind]. pose proof (upgrade_loop_ends n d) as H2. destruct (upgrade_loop 2 n d) as [d'|e]; cbn [rbind].
    + rewrite Hmode. left. destruct H2 as [[Hn ->]|H2]; [|done]. rewrite Ev. unfold CURRENT_SCHEMA_VERSION in *. do 2 f_equal. lia.
    + destruct H2 as [H2 _]. unfold isinstance. by rewrite H2.
  - cbn [require_int rbind]. change (upgrade_loop 2 CURRENT_SCHEMA_VERSION d) with (Ok d). cbn -[dict_get dict_set]. rewrite Hmode. by right.
Qed.
Close Scope string_scope.
