(* ===== verification/Mbox.v ===== *)
(** * Mbox: exporting messages

    [usecases/export_mbox.py] and [usecases/export_message.py], with the mbox format of Python's [mailbox]
    module as far as they use it: adding the bytes of a message, and finding the messages of a file. The
    destination is a path outside of the storage root in the same file system; that its directory is the
    same before and after is not modelled, directories do not change. *)

From S2P Require Import Prelude Errors PyText PyTime Identity Retry Json Manifest Sha256 Database World EmlStorage.
From Stdlib Require Import DecimalString.

Open Scope list_scope.

(** ** The format *)

Definition from_ : bytes := lit "From ".
Definition starts_with (p l : bytes) : bool := if strip_prefix p l is Some _ then true else false.
Definition greater : Z := 62.
(** [message.replace(b"\nFrom ", b"\n>From ")] *)
Fixpoint mangle (l : bytes) : bytes :=
  match l with
  | [] => []
  | c :: l => if (c =? newline)%Z && starts_with from_ l then newline :: greater :: mangle l else c :: mangle l
  end.

(** [time.asctime] *)
Definition weekday (t : datetime) : string :=
  nth (Z.to_nat ((ordinal t + 6) mod 7)) ["Mon"; "Tue"; "Wed"; "Thu"; "Fri"; "Sat"; "Sun"]%string ""%string.
Definition month_name (t : datetime) : string :=
  nth (Z.to_nat (month t - 1))
    ["Jan"; "Feb"; "Mar"; "Apr"; "May"; "Jun"; "Jul"; "Aug"; "Sep"; "Oct"; "Nov"; "Dec"]%string ""%string.
Definition asctime (t : datetime) : string :=
  (weekday t ++ " " ++ month_name t ++ " " ++ (if day t <? 10 then " " ++ int_str (day t) else pad2 (day t))%Z
   ++ " " ++ pad2 (hour t) ++ ":" ++ pad2 (minute t) ++ ":" ++ pad2 (second t) ++ " " ++ int_str (year t))%string.

(** The first line of an entry and the message: a message that starts with the separator loses that line. *)
Fixpoint cut_line (l : bytes) : bytes * bytes :=
  match l with
  | [] => ([], [])
  | c :: l => if (c =? newline)%Z then ([], l) else let (line, rest) := cut_line l in (c :: line, rest)
  end.
Definition separator (now : datetime) (raw : bytes) : bytes * bytes :=
  if starts_with from_ raw then cut_line raw else (lit "From MAILER-DAEMON " ++ lit (asctime now), raw).
Definition ends_line (l : bytes) : bool := bool_decide (last l = Some newline).
Definition with_line_end (l : bytes) : bytes := if ends_line l then l else l ++ [newline].
(** What [mbox.add] appends to the file. *)
Definition entry (now : datetime) (raw : bytes) : bytes :=
  let '(line, message) := separator now raw in
  line ++ [newline] ++ with_line_end (mangle message) ++ [newline].

(** The messages [mailbox.mbox] finds in a file: the lines after each separator, without an empty one at the
    end. *)
Definition finish (l : list bytes) : bytes :=
  match last l with
  | Some b => concat (if bool_decide (b = [newline]) then removelast l else l)
  | None => []
  end.
Definition close (current : option (list bytes)) : list bytes := match current with Some l => [finish l] | None => [] end.
Fixpoint group (current : option (list bytes)) (lines : list bytes) : list bytes :=
  match lines with
  | [] => close current
  | line :: lines =>
      if starts_with from_ line then close current ++ group (Some []) lines
      else group (option_map (fun l => l ++ [line]) current) lines
  end.
Definition mbox_messages (content : bytes) : list bytes := group None (readlines content).

(** ** The exports *)

Section Mailbox.
Context (root : list string) (cancelled : nat -> bool) (now : nat -> datetime).

Definition check_cancel : M World unit := raise_if_cancelled (fun w => cancelled (ticks w)).
Definition storage_error {A} (msg : string) (m : M World A) : M World A :=
  mtry m (fun e => if isinstance e OSError then mraise StorageError msg else mthrow e).
(** [_resolve_parent] of a directory that exists. *)
Definition resolve_parent : M World unit := storage_error "export destination directory is unavailable" (io (mret tt)).
(** A string that is not empty. *)
Definition given (o : option string) : option string :=
  match o with Some s => if (s == "")%string then None else Some s | None => None end.
(** [_message_metadata] *)
Definition message_metadata (id : Z) : M World (option (string * string)) :=
  let! found := db_read (get_message id) in
  match found with
  | None => mraise StorageError "Message does not exist"
  | Some s =>
      let m := s_message s in
      if m_local_state m == Purged then mret None else
      match given (relative_path m), given (file_hash m) with
      | None, _ => mraise StorageError "Message has no stored EML path"
      | _, None => mraise StorageError "Message has no stored EML hash"
      | Some path, Some hash => mret (Some (path, hash))
      end
  end.
(** [_append_message] *)
Definition append_message (temporary : string) (content raw : bytes) : M World bytes :=
  let! t := mgets (fun w => now (ticks w)) in
  mtry (put_file temporary (content ++ entry t raw) ;! mret (content ++ entry t raw))
    (fun e => if isinstance e OSError || isinstance e TypeError || isinstance e ValueError
              then mraise StorageError "Could not append EML to mbox" else mthrow e).
(** The loop: what the file holds, and the numbers of exported and skipped messages. *)
Fixpoint append_all (temporary : string) (ids : list Z) (content : bytes) (exported skipped : Z) : M World (bytes * Z * Z) :=
  match ids with
  | [] => mret (content, exported, skipped)
  | id :: ids =>
      check_cancel ;!
      let! metadata := message_metadata id in
      match metadata with
      | None => append_all temporary ids content exported (skipped + 1)
      | Some (path, hash) =>
          let! raw := read_verified root path hash in
          let! content := append_message temporary content raw in
          append_all temporary ids content (exported + 1) skipped
      end
  end.
(** [export_mbox]: [name] is the name of the destination, [destination] its path, [temporary] the name
    [mkstemp] finds beside it. *)
Definition export_mbox (ids : list Z) (name destination temporary : string) : M World string :=
  if (name == "")%string then mraise StorageError "mbox export destination must name a file" else
  resolve_parent ;!
  storage_error "Could not export mbox"
    (resolve_parent ;!
     put_file temporary [] ;!
     with_temporary temporary
       (io (mret tt) ;!
        append_all temporary ids [] 0 0 ;!
        check_cancel ;!
        io (mret tt) ;! io (mret tt) ;! sync_file ;!
        resolve_parent ;!
        rename_file temporary destination) ;!
     sync_directory) ;!
  mret destination.
(** [export_eml] *)
Definition export_eml (path hash name destination temporary : string) (written : nat) : M World string :=
  let! raw := read_verified root path hash in
  resolve_parent ;!
  if (name == "")%string then mraise StorageError "EML export destination must name a file" else
  storage_error "Could not export EML"
    (resolve_parent ;!
     with_temporary temporary (write_file temporary raw written ;! rename_file temporary destination) ;!
     sync_directory) ;!
  mret destination.
End Mailbox.

(** ** Reading an export back *)

(** No line of the text starts with the separator. *)
Definition no_from (l : bytes) : Prop :=
  starts_with from_ l = false /\ forall a b, l = a ++ newline :: b -> starts_with from_ b = false.

Lemma starts_with_app p l r : starts_with p l = true -> starts_with p (l ++ r) = true.
Proof.
  unfold starts_with. revert l. induction p as [|c p IH]; intros [|d l]; cbn [strip_prefix app]; try done.
  destruct (c =? d)%Z; [apply IH|done].
Qed.
Lemma starts_with_snoc p l c : Forall (fun d => d <> c) p -> starts_with p (l ++ [c]) = starts_with p l.
Proof.
  unfold starts_with. intros Hp. revert l. induction Hp as [|d p Hd Hp IH]; intros [|e l]; cbn [strip_prefix app]; try done.
  - rewrite (proj2 (Z.eqb_neq d c)) by done. done.
  - destruct (d =? e)%Z; [apply IH|done].
Qed.
Lemma from_no_newline : Forall (fun c => c <> newline) from_.
Proof. by repeat constructor. Qed.
(** Quoting keeps the text up to its first line break. *)
Lemma starts_with_mangle p l : Forall (fun c => c <> newline) p -> starts_with p (mangle l) = starts_with p l.
Proof.
  unfold starts_with. intros Hp. revert l. induction Hp as [|c p Hc Hp IH]; intros [|d l]; cbn [mangle]; try done.
  destruct (Z.eqb_spec d newline) as [->|Hd]; cbn [andb].
  - destruct (starts_with from_ l); cbn [strip_prefix]; by rewrite (proj2 (Z.eqb_neq c newline)).
  - cbn [strip_prefix]. destruct (c =? d)%Z; [apply IH|done].
Qed.
Lemma mangle_no_from l : starts_with from_ l = false -> no_from (mangle l).
Proof.
  intros Hl. split; [by rewrite starts_with_mangle by apply from_no_newline|]. clear Hl.
  induction l as [|c l IH]; intros a b; cbn [mangle]; [by destruct a|].
  destruct ((c =? newline)%Z && starts_with from_ l) eqn:E.
  - destruct a as [|x [|y a]]; cbn [app]; intros H; simplify_eq; [reflexivity|by apply (IH a b)].
  - destruct a as [|x a]; cbn [app]; intros H; simplify_eq; [|by apply (IH a b)]. rewrite starts_with_mangle by apply from_no_newline.
    by destruct (starts_with from_ l).
Qed.
Lemma with_line_end_no_from l : no_from l -> no_from (with_line_end l).
Proof.
  intros [H1 H2]. unfold with_line_end. destruct (ends_line l); [by split|]. split.
  - by rewrite starts_with_snoc by apply from_no_newline.
  - intros a b. destruct b as [|c b _] using rev_ind; [done|]. rewrite app_comm_cons, app_assoc. intros [E <-]%app_inj_tail.
    rewrite starts_with_snoc by apply from_no_newline. by apply (H2 a).
Qed.

(** A text that ends with a line break is whole lines, none of them a separator. *)
Lemma cut_lines l : ends_line l = true -> exists ls, l = concat ls /\ Forall whole_line ls.
Proof.
  intros H. unfold ends_line in H. apply bool_decide_eq_true in H. apply last_Some in H as [l' ->].
  assert (forall l' acc, no_newline acc -> exists ls, acc ++ l' ++ [newline] = concat ls /\ Forall whole_line ls) as Hgo.
  { clear l'. induction l' as [|c l' IH]; intros acc Hacc.
    - exists [acc ++ [newline]]. cbn. rewrite app_nil_r. split; [done|]. constructor; [by exists acc|done].
    - destruct (Z.eq_dec c newline) as [->|Hc].
      + destruct (IH []) as (ls & E & Hls); [constructor|]. exists ((acc ++ [newline]) :: ls). cbn [concat]. rewrite <- E.
        split; [by rewrite <- app_assoc|]. constructor; [by exists acc|done].
      + destruct (IH (acc ++ [c])) as (ls & E & Hls); [by apply Forall_app; split; [|constructor]|].
        exists ls. rewrite <- E, <- app_assoc. done. }
  apply (Hgo l' []). constructor.
Qed.
Lemma lines_no_from ls : Forall whole_line ls -> no_from (concat ls) -> Forall (fun line => starts_with from_ line = false) ls.
Proof.
  intros Hw [H1 H2]. apply Forall_lookup. intros i line Hi. pose proof (take_drop_middle ls i line Hi) as E.
  rewrite <- E, concat_app in H1, H2. cbn [concat] in H1, H2.
  destruct (starts_with from_ line) eqn:Hl; [|done]. exfalso.
  induction (take i ls) as [|x l _] using rev_ind.
  - cbn [concat app] in H1. by rewrite (starts_with_app _ _ _ Hl) in H1.
  - assert (whole_line x) as (body & -> & _).
    { rewrite Forall_forall in Hw. apply Hw. rewrite <- E. apply elem_of_app. left. apply elem_of_app. right. by left. }
    specialize (H2 (concat l ++ body) (line ++ concat (drop (S i) ls))).
    rewrite concat_app in H2. cbn [concat] in H2. rewrite app_nil_r, <- !app_assoc in H2. specialize (H2 eq_refl).
    by rewrite (starts_with_app _ _ _ Hl) in H2.
Qed.

(** The date is one line. *)
Lemma no_newline_app a b : no_newline (lit a) -> no_newline (lit b) -> no_newline (lit (a ++ b)%string).
Proof. unfold no_newline, lit. rewrite bytes_of_app. intros. by apply Forall_app. Qed.
Lemma int_str_no_newline n : no_newline (lit (int_str n)).
Proof. eapply Forall_impl; [apply int_str_digits|]. unfold newline. intros c Hc ->. lia. Qed.
Lemma pad2_no_newline n : (0 <= n < 100)%Z -> no_newline (lit (pad2 n)).
Proof.
  intros Hn. assert (forall d, (0 <= d < 10)%Z -> byte_of (digit d) <> newline) as Hd.
  { intros d Hd. unfold byte_of. rewrite digit_code by done. unfold newline. lia. }
  unfold no_newline, lit. cbn [pad2 bytes_of]. repeat constructor; apply Hd; Z.to_euclidean_division_equations; lia.
Qed.
Lemma nth_no_newline i l : Forall (fun s => no_newline (lit s)) l -> no_newline (lit (nth i l ""%string)).
Proof. intros H. revert i. induction H as [|s l Hs _ IH]; intros [|i]; cbn; try done; by constructor. Qed.
Lemma asctime_no_newline t : valid t = true -> no_newline (lit (asctime t)).
Proof.
  intros Hv. pose proof (valid_ranges t Hv) as (_ & _ & Hday & Hh & Hm & Hs & _). unfold asctime.
  repeat (apply no_newline_app); try (by repeat constructor); try (by apply pad2_no_newline); try apply int_str_no_newline;
    try (by apply nth_no_newline; repeat constructor).
  destruct (day t <? 10)%Z; [apply no_newline_app; [by repeat constructor|apply int_str_no_newline]|by apply pad2_no_newline].
Qed.

(** *** The messages of an export *)

Lemma whole_with_line_end l : ends_line (with_line_end l) = true.
Proof.
  unfold with_line_end. destruct (ends_line l) eqn:E; [done|]. unfold ends_line. by rewrite bool_decide_eq_true, last_snoc.
Qed.
Lemma group_lines ls : Forall (fun line => starts_with from_ line = false) ls ->
  forall l rest, group (Some l) (ls ++ rest) = group (Some (l ++ ls)) rest.
Proof.
  induction 1 as [|line ls Hl _ IH]; intros l rest; cbn [app group]; [by rewrite app_nil_r|].
  rewrite Hl. cbn [option_map]. by rewrite IH, <- app_assoc.
Qed.
Lemma finish_snoc ls : finish (ls ++ [[newline]]) = concat ls.
Proof. unfold finish. by rewrite last_snoc, bool_decide_eq_true_2, removelast_last. Qed.
(** The lines of an entry: the separator, the message, an empty line. *)
Lemma entry_lines now raw : valid now = true -> starts_with from_ raw = false ->
  exists line ls, entry now raw = concat (line :: ls ++ [[newline]]) /\ Forall whole_line (line :: ls ++ [[newline]])
    /\ starts_with from_ line = true /\ concat ls = with_line_end (mangle raw)
    /\ Forall (fun line => starts_with from_ line = false) (ls ++ [[newline]]).
Proof.
  intros Hv Hr. unfold entry, separator. rewrite Hr.
  destruct (cut_lines _ (whole_with_line_end (mangle raw))) as (ls & E & Hls).
  exists ((lit "From MAILER-DAEMON " ++ lit (asctime now)) ++ [newline]), ls. rewrite E. split_and!.
  - cbn [concat]. rewrite concat_app, <- !app_assoc. done.
  - constructor; [|apply Forall_app; split; [done|constructor; [by exists []; split; [|constructor]|constructor]]].
    eexists. split; [done|]. apply Forall_app. split; [by repeat constructor|by apply asctime_no_newline].
  - rewrite <- app_assoc. reflexivity.
  - done.
  - apply Forall_app. split; [|by repeat constructor]. apply lines_no_from; [done|]. rewrite <- E.
    by apply with_line_end_no_from, mangle_no_from.
Qed.

(** An mbox export is read back message by message: whatever its messages contain, as long as none
    starts with [From ], the file made of their entries has exactly one message for each of them, in order:
    its bytes with the lines that look like a separator quoted, and a line break at the end. *)
Theorem mbox_reads_back (l : list (datetime * bytes)) :
  Forall (fun x => valid x.1 = true /\ starts_with from_ x.2 = false) l ->
  mbox_messages (concat (map (fun x => entry x.1 x.2) l)) = map (fun x => with_line_end (mangle x.2)) l.
Proof.
  intros Hl. unfold mbox_messages.
  assert (exists lines, concat (map (fun x => entry x.1 x.2) l) = concat lines /\ Forall whole_line lines
    /\ forall current, group current lines = close current ++ map (fun x => with_line_end (mangle x.2)) l) as (lines & E & Hw & Hg).
  { induction Hl as [|[now raw] l [Hv Hr] _ (lines & E & Hw & Hg)]; [exists []; by split_and!; [| |intros; cbn; rewrite app_nil_r]|].
    destruct (entry_lines now raw Hv Hr) as (line & ls & E1 & Hw1 & Hf & Ec & Hls). exists ((line :: ls ++ [[newline]]) ++ lines).
    cbn [map concat fst snd]. rewrite E1, E, concat_app. split; [done|]. split; [by apply Forall_app|].
    intros current. cbn [app group]. rewrite Hf. rewrite group_lines by done. rewrite Hg. cbn [app close].
    by rewrite finish_snoc, Ec. }
  rewrite E, <- (app_nil_r (concat lines)), readlines_lines by (done || constructor). by rewrite app_nil_r, Hg.
Qed.
Example mbox_reads_back_ex :
  mbox_messages (concat (map (fun x => entry x.1 x.2)
    [(DateTime 2024 2 29 12 0 0 0, lit "a" ++ [newline] ++ lit "From b"); (DateTime 2024 3 1 0 0 0 0, [])]))
  = [lit "a" ++ [newline] ++ lit ">From b" ++ [newline]; [newline]].
Proof.
  apply (mbox_reads_back [(DateTime 2024 2 29 12 0 0 0, lit "a" ++ [newline] ++ lit "From b"); (DateTime 2024 3 1 0 0 0 0, [])]).
  repeat constructor.
Qed.
Example asctime_ex : asctime (DateTime 2024 2 29 12 0 0 0) = "Thu Feb 29 12:00:00 2024"%string.
Proof. reflexivity. Qed.

(** Undoing the quoting. *)
Fixpoint unmangle (l : bytes) : bytes :=
  match l with
  | [] => []
  | c :: l => c :: (if (c =? newline)%Z then
                      match l with
                      | d :: l' => if (d =? greater)%Z && starts_with from_ l' then unmangle l' else unmangle l
                      | [] => []
                      end
                    else unmangle l)
  end.
(** Quoting loses nothing but the difference to lines that were quoted before. *)
Lemma unmangle_mangle l : (forall a b, l = a ++ newline :: greater :: b -> starts_with from_ b = false) ->
  unmangle (mangle l) = l.
Proof.
  induction l as [|c l IH]; intros H; [done|]. assert (unmangle (mangle l) = l) as Hl.
  { apply IH. intros a b ->. by apply (H (c :: a)). }
  cbn [mangle]. destruct (Z.eqb_spec c newline) as [->|Hc]; cbn [andb].
  - destruct (starts_with from_ l) eqn:E.
    + cbn [unmangle]. rewrite Z.eqb_refl, starts_with_mangle, E by apply from_no_newline. cbn. by rewrite Hl.
    + cbn [unmangle]. rewrite Z.eqb_refl. f_equal. destruct l as [|d l]; [done|].
      destruct (mangle (d :: l)) as [|d' l'] eqn:Em; [cbn in Em; by destruct (_ && _)%bool|].
      destruct (Z.eqb_spec d' greater) as [->|]; cbn [andb]; [|by rewrite Hl].
      cbn [mangle] in Em. destruct ((d =? newline)%Z && starts_with from_ l); [done|]. injection Em as -> <-.
      rewrite starts_with_mangle by apply from_no_newline. by rewrite (H [] l).
  - cbn [unmangle]. rewrite (proj2 (Z.eqb_neq c newline)) by done. by rewrite Hl.
Qed.
(** A message whose first line starts with [From ] loses that line. *)
Lemma from_message_loses_line now : valid now = true ->
  entry now (lit "From here" ++ [newline] ++ lit "text") = lit "From here" ++ [newline] ++ lit "text" ++ [newline; newline]
  /\ mbox_messages (entry now (lit "From here" ++ [newline] ++ lit "text")) = [lit "text" ++ [newline]].
Proof. by split. Qed.

(** ** Exporting *)

Section ExportFacts.
Context (root : list string) (cancelled : nat -> bool) (now : nat -> datetime) (temporary : string) (w0 : World).

(** Only the temporary file was written. *)
Definition apart (w : World) : Prop := only_file temporary w0 w.
Lemma apart_tick w : apart w -> apart (tick w).
Proof. done. Qed.
Lemma apart_io {A} (a : A) : keeps apart (io (mret a)).
Proof. intros w H. unfold post, io. by destruct (faults w (ticks w)). Qed.
Lemma apart_io_gets {A} (f : World -> A) : keeps apart (io (mgets f)).
Proof. intros w H. unfold post, io. by destruct (faults w (ticks w)). Qed.
Lemma apart_read path hash : keeps apart (read_verified root path hash).
Proof.
  unfold read_verified. apply keeps_if; [apply keeps_raise|]. apply keeps_bnd; [apply keeps_lift|]. intros p.
  apply keeps_bnd; [|intros payload; apply keeps_if; [apply keeps_ret|apply keeps_raise]].
  intros w H. unfold post, read_bytes, io. destruct (faults w (ticks w)); [done|]. by destruct (read_file p (tick w)).
Qed.
Lemma apart_put c : keeps apart (put_file temporary c).
Proof.
  intros w H. unfold post, put_file, io. destruct (faults w (ticks w)); [done|]. by apply (only_file_put temporary c w0 (tick w)).
Qed.
Lemma apart_metadata id : keeps apart (message_metadata id).
Proof.
  apply keeps_bnd; [apply apart_io_gets|]. intros [s|]; [|apply keeps_raise]. apply keeps_if; [apply keeps_ret|].
  destruct (given _); [|apply keeps_raise]. destruct (given _); [apply keeps_ret|apply keeps_raise].
Qed.
(** The entries of the messages that were read: not of the purged ones, and each with the recorded hash. *)
Definition exported (id : Z) : bool :=
  match get_message id (view w0) with Some s => negb (m_local_state (s_message s) == Purged) | None => true end.
Definition exported_as (id : Z) (x : datetime * bytes) : Prop :=
  exists s hash n, get_message id (view w0) = Some s /\ file_hash (s_message s) = Some hash
    /\ hexdigest x.2 = fold_hash hash /\ x.1 = now n.
Definition entries (l : list (datetime * bytes)) : bytes := concat (map (fun x => entry x.1 x.2) l).
Definition holds (content : bytes) (w : World) : Prop := apart w /\ read_file temporary w = Some content.

Lemma holds_io {A} (m : M World A) content : (forall w, fs (m w).2 = fs w) -> keeps apart m -> keeps (holds content) m.
Proof.
  intros Hf Hm w [Ha Hr]. specialize (Hm w Ha). specialize (Hf w). unfold post in *.
  destruct (m w) as [[a|e] w']; cbn [snd] in Hf; (split; [done|]); unfold read_file; by rewrite Hf.
Qed.
Lemma read_fs path hash w : fs (read_verified root path hash w).2 = fs w.
Proof.
  unfold read_verified. destruct (negb _); [done|]. unfold mbnd, file_at, mlift.
  destruct (rbind _ _) as [p|]; [|done]. unfold read_bytes, io. destruct (faults w (ticks w)); [done|].
  destruct (read_file p (tick w)); [|done]. by destruct (_ == _).
Qed.
Lemma metadata_spec content id :
  triple (holds content) (message_metadata id)
    (fun r w => holds content w /\ match r with
       | None => exported id = false
       | Some (path, hash) => exported id = true /\ exists s, get_message id (view w0) = Some s /\ file_hash (s_message s) = Some hash
       end) apart.
Proof.
  intros w [Ha Hr]. unfold message_metadata, mbnd, db_read, io, post. destruct (faults w (ticks w)); [done|]. cbn.
  assert (view (tick w) = view w0) as -> by (destruct Ha as [(Hc & Hw & _) _]; unfold view; cbn; by rewrite Hc, Hw).
  unfold exported. destruct (get_message id (view w0)) as [s|]; [|done].
  destruct (m_local_state (s_message s) == Purged); [done|]. destruct (given (relative_path _)); [|done].
  destruct (file_hash (s_message s)) as [h|] eqn:Eh; cbn [given]; [|done]. destruct (h == "")%string; [done|]. 
  split; [done|]. split; [done|]. exists s. by rewrite Eh.
Qed.
Lemma append_spec content raw :
  triple (holds content) (append_message now temporary content raw)
    (fun c w => exists n, c = content ++ entry (now n) raw /\ holds c w) apart.
Proof.
  intros w [Ha Hr]. unfold append_message, mbnd, mgets, mtry, put_file, io, post.
  destruct (faults w (ticks w)) as [e|]; cbn.
  - by destruct (_ || _)%bool.
  - exists (ticks w). split; [done|]. split; [by apply (only_file_put temporary _ w0 (tick w))|].
    unfold read_file. cbn. apply dict_get_set_eq.
Qed.
Lemma append_all_spec ids : forall l e s,
  triple (holds (entries l)) (append_all root cancelled now temporary ids (entries l) e s)
    (fun _ w => exists l', holds (entries (l ++ l')) w /\ Forall2 exported_as (List.filter exported ids) l') apart.
Proof.
  induction ids as [|id ids IH]; intros l e s; cbn [append_all List.filter].
  { apply triple_ret. intros w Hw. exists []. by rewrite app_nil_r. }
  eapply triple_bnd with (Q := fun _ => holds (entries l)).
  { intros w Hw. unfold check_cancel, raise_if_cancelled, post. destruct (cancelled (ticks w)); [apply Hw|done]. }
  intros _. eapply triple_bnd; [apply metadata_spec|]. intros [[path hash]|]; apply triple_pure.
  - intros (Hx & m & Hm & Hh). rewrite Hx.
    eapply triple_bnd with (Q := fun raw w => holds (entries l) w /\ hexdigest raw = fold_hash hash).
    { intros w Hw. pose proof (apart_read path hash w (proj1 Hw)) as Ha. pose proof (read_fs path hash w) as Hf.
      unfold post in *. destruct (read_verified root path hash w) as [[raw|x] w'] eqn:E; [|done]. cbn [snd] in Hf.
      split; [split; [done|]; unfold read_file; rewrite Hf; apply Hw|].
      by apply read_verified_spec in E as (p & _ & _ & ?). }
    intros raw. apply triple_pure. intros Hraw. eapply triple_bnd; [apply append_spec|]. intros c w (n & -> & Hc).
    assert (entries l ++ entry (now n) raw = entries (l ++ [(now n, raw)])) as E.
    { unfold entries. rewrite map_app, concat_app. cbn. by rewrite app_nil_r. }
    rewrite E in *. specialize (IH (l ++ [(now n, raw)]) (e + 1)%Z s w Hc). unfold post in *.
    destruct (append_all _ _ _ _ _ _ _ _ w) as [[r|x] w']; [|done]. destruct IH as (l' & Hl & Hall).
    exists ((now n, raw) :: l'). rewrite <- app_assoc in Hl. split; [done|]. constructor; [|done]. by exists m, hash, n.
  - intros ->. apply IH.
Qed.
Lemma apart_cancel : keeps apart (check_cancel cancelled).
Proof. intros w H. unfold check_cancel, raise_if_cancelled, post. by destruct (cancelled (ticks w)). Qed.

(** The destination holds the entries of the messages. *)
Definition complete (ids : list Z) (destination : string) (w : World) : Prop :=
  exists l, read_file destination w = Some (entries l) /\ Forall2 exported_as (List.filter exported ids) l.
Definition published (ids : list Z) (destination : string) (w : World) : Prop :=
  same_records w0 w /\ read_file temporary w = None /\ complete ids destination w
  /\ forall q, q <> temporary -> q <> destination -> read_file q w = read_file q w0.

Lemma resolve_apart : keeps apart resolve_parent.
Proof.
  unfold resolve_parent, storage_error. apply keeps_try; [apply apart_io|]. intros e. apply keeps_if; [apply keeps_raise|apply keeps_throw].
Qed.
Lemma resolve_fs w : fs (resolve_parent w).2 = fs w.
Proof. unfold resolve_parent, storage_error, mtry, io. destruct (faults w (ticks w)) as [e|]; [|done]. by destruct (isinstance e OSError). Qed.
Lemma start_spec : triple apart (put_file temporary []) (fun _ => holds []) apart.
Proof.
  intros w Hw. pose proof (apart_put [] w Hw) as H. unfold post, put_file, io in *. destruct (faults w (ticks w)); [done|].
  split; [done|]. unfold read_file. cbn. apply dict_get_set_eq.
Qed.
Lemma holds_keeps {A} content (m : M World A) : keeps (holds content) m -> triple (holds content) m (fun _ => holds content) apart.
Proof. intros H w Hw. specialize (H w Hw). unfold post in *. destruct (m w) as [[a|e] w']; [done|apply H]. Qed.
Lemma holds_step content : triple (holds content) (io (mret tt)) (fun _ => holds content) apart.
Proof.
  apply holds_keeps, holds_io; [|apply apart_io]. intros w. unfold io. by destruct (faults w (ticks w)).
Qed.
(** What follows the last entry. *)
Lemma publish_spec (ids : list Z) destination l : temporary <> destination -> Forall2 exported_as (List.filter exported ids) l ->
  triple (holds (entries l))
    (check_cancel cancelled ;! io (mret tt) ;! io (mret tt) ;! sync_file ;! resolve_parent ;! rename_file temporary destination)
    (fun _ => published ids destination) apart.
Proof.
  intros Hne Hl. pose proof (holds_step (entries l)) as Hstep.
  eapply triple_bnd with (Q := fun _ => holds (entries l)).
  { intros w Hw. unfold check_cancel, raise_if_cancelled, post. destruct (cancelled (ticks w)); [apply Hw|done]. }
  intros _. do 3 (eapply triple_bnd; [apply Hstep|]; intros ?).
  eapply triple_bnd with (Q := fun _ => holds (entries l)).
  { apply holds_keeps, holds_io; [apply resolve_fs|apply resolve_apart]. }
  intros _ w [Ha Hr]. pose proof (wp_rename_file temporary destination (entries l) w0 w Hne Ha Hr) as H.
  unfold wp, post in *. destruct (rename_file temporary destination w) as [[u|e] w']; [|exact H].
  destruct H as (Hs & Hd & Ht & Hq). split; [done|]. split; [done|]. split; [by exists l|done].
Qed.
Lemma export_body ids destination : temporary <> destination ->
  triple (holds [])
    (with_temporary temporary
       (io (mret tt) ;! append_all root cancelled now temporary ids [] 0 0 ;! check_cancel cancelled ;!
        io (mret tt) ;! io (mret tt) ;! sync_file ;! resolve_parent ;! rename_file temporary destination))
    (fun _ => published ids destination) apart.
Proof.
  intros Hne. unfold with_temporary. eapply triple_try with (E' := apart).
  2: { intros e. eapply triple_bnd with (Q := fun _ => apart); [|intros _; by apply triple_throw].
       apply keeps_try; [|intros _; apply keeps_ret]. intros w Hw. unfold post, remove_file, io. destruct (faults w (ticks w)); [done|].
       by apply (only_file_remove temporary w0 (tick w)). }
  eapply triple_bnd with (Q := fun _ => holds []).
  { apply holds_step. }
  intros _. eapply triple_bnd; [apply (append_all_spec ids [])|]. intros _ w (l & Hw & Hl).
  by apply (publish_spec ids destination l).
Qed.
End ExportFacts.

(** C39. Exporting to an mbox file is atomic and complete: whatever operation fails, or when the export is
    cancelled, no stored message, no other file and nothing of the database or the manifest changes, and the
    destination holds what it held or the complete export. When the export returns, the destination is the
    complete export and the temporary file is gone: reading it back finds exactly the messages that are not
    purged, in the order asked for, each with the recorded hash, its separator-like lines quoted and a
    line break at its end, as long as none starts with [From ]. *)
Theorem mbox_export_complete root cancelled now ids name destination temporary w :
  temporary <> destination -> (forall n, valid (now n) = true) ->
  let '(r, w') := export_mbox root cancelled now ids name destination temporary w in
  same_records w w'
  /\ (forall q, q <> temporary -> q <> destination -> read_file q w' = read_file q w)
  /\ (read_file destination w' = read_file destination w \/ complete now w ids destination w')
  /\ (is_ok r = true -> read_file temporary w' = None /\ exists l,
       Forall2 (exported_as now w) (List.filter (exported w) ids) l
       /\ (Forall (fun x => starts_with from_ x.2 = false) l ->
           option_map mbox_messages (read_file destination w') = Some (map (fun x => with_line_end (mangle x.2)) l))).
Proof.
  intros Hne Hnow. set (Q := fun (_ : string) => published now temporary w ids destination).
  set (E := fun w' => apart temporary w w' \/ published now temporary w ids destination w').
  assert (triple (apart temporary w) (export_mbox root cancelled now ids name destination temporary) Q E) as H.
  { unfold export_mbox. destruct (name == "")%string; [apply triple_raise; by left|].
    eapply triple_bnd with (Q := fun _ => apart temporary w).
    { eapply triple_conseq; [apply resolve_apart|done|done|by left]. }
    intros _. eapply triple_bnd with (Q := fun _ => published now temporary w ids destination).
    2: { intros _. by apply triple_ret. }
    unfold storage_error. eapply triple_try with (E' := E).
    2: { intros e. destruct (isinstance e OSError); [by apply triple_raise|by apply triple_throw]. }
    eapply triple_bnd with (Q := fun _ => apart temporary w).
    { eapply triple_conseq; [apply resolve_apart|done|done|by left]. }
    intros _. eapply triple_bnd with (Q := fun _ => holds temporary w []).
    { eapply triple_conseq; [apply start_spec|done|done|by left]. }
    intros _. eapply triple_bnd with (Q := fun _ => published now temporary w ids destination).
    { eapply triple_conseq; [by apply export_body|done|done|by left]. }
    intros _ w1 Hw1. unfold post, sync_directory, io. destruct (faults w1 (ticks w1)); [by right|done]. }
  specialize (H w (only_file_refl temporary w)). unfold post, Q, E in H.
  assert (forall w', published now temporary w ids destination w' -> same_records w w'
    /\ (forall q, q <> temporary -> q <> destination -> read_file q w' = read_file q w)
    /\ complete now w ids destination w') as Hpub by (intros w' (H1 & _ & H3 & H4); done).
  destruct (export_mbox root cancelled now ids name destination temporary w) as [[d|e] w'].
  - destruct (Hpub w' H) as (H1 & H2 & H3). split_and!; [done|done|by right|]. intros _. destruct H as (_ & Ht & (l & Hl & Hall) & _).
    split; [done|]. exists l. split; [done|]. intros Hf. rewrite Hl. cbn [option_map]. f_equal. apply mbox_reads_back.
    clear Hl. induction Hall as [|id x ids' l' Hx _ IH]; [done|]. apply Forall_cons in Hf as [Hf1 Hf2].
    constructor; [|by apply IH]. destruct Hx as (s & h & n & _ & _ & _ & ->). by split.
  - destruct H as [[Hs Hq]|H].
    + split_and!; [done|intros q H1 _; by apply Hq|left; by apply Hq|done].
    + destruct (Hpub w' H) as (H1 & H2 & H3). split_and!; [done|done|by right|done].
Qed.

(** Two messages, the second purged. *)
Definition sample_mail : bytes := lit "a" ++ [newline] ++ lit "From b".
Definition sample_hash : string := Eval vm_compute in hexdigest sample_mail.
Definition sample_row (id : Z) (state : local_state) : message :=
  Message id "acct" None "k" "imap:x" state None (Some "eml/acct/x.eml"%string) (Some sample_hash) None
    None None None None None None false None None None None None None.
Definition sample_world : World :=
  MkWorld (MkDb [] [] [sample_row 1 Active; sample_row 2 Purged] [] [Contents 1 None None None None] [] [] [] [] 3 2 1 1 [] [] 1)
    None [("eml/acct/x.eml"%string, sample_mail)] [] [] None 0 (fun _ => None) [] [].
Definition sample_export : result string * World :=
  export_mbox ["data"%string] (fun _ => false) (fun _ => DateTime 2024 2 29 12 0 0 0) [1%Z; 2%Z] "out.mbox" "/home/out.mbox"
    "/home/.mail-dock-mbox-1.tmp" sample_world.
Lemma mbox_export_complete_witness :
  is_ok sample_export.1 = true /\ read_file "/home/.mail-dock-mbox-1.tmp" sample_export.2 = None
  /\ exists l, Forall2 (exported_as (fun _ => DateTime 2024 2 29 12 0 0 0) sample_world)
                 (List.filter (exported sample_world) [1%Z; 2%Z]) l
     /\ (Forall (fun x => starts_with from_ x.2 = false) l ->
         option_map mbox_messages (read_file "/home/out.mbox" sample_export.2) = Some (map (fun x => with_line_end (mangle x.2)) l)).
Proof.
  assert (is_ok sample_export.1 = true) as Hok by (vm_compute; reflexivity). split; [exact Hok|].
  revert Hok. unfold sample_export.
  generalize (mbox_export_complete ["data"%string] (fun _ => false) (fun _ => DateTime 2024 2 29 12 0 0 0) [1%Z; 2%Z] "out.mbox"
    "/home/out.mbox" "/home/.mail-dock-mbox-1.tmp" sample_world ltac:(discriminate) (fun _ => eq_refl)).
  destruct (export_mbox _ _ _ _ _ _ _ _) as [r w']. intros (_ & _ & _ & H) Hok. exact (H Hok).
Defined.
Example sample_export_ex : read_file "/home/out.mbox" sample_export.2
  = Some (lit "From MAILER-DAEMON Thu Feb 29 12:00:00 2024" ++ [newline] ++ lit "a" ++ [newline] ++ lit ">From b" ++ [newline; newline]).
Proof. vm_compute. reflexivity. Qed.
