(* ===== verification/AttachmentExport.v ===== *)
(** * AttachmentExport: attachments written to a directory

    [usecases/export_attachments.py], [usecases/save_attachment.py], [usecases/open_message.py] and [resolve_within] of
    [domain/attachments.py]. The renderer is an argument. The directory of the destination is given by its components; its files are files of
    [World] under absolute paths. Other programs may create files there at any time: what they create just before
    a link is an input of the attempt, so that the endless retries are a recursion over what the others do.
    [mkstemp] finds the name [temporary]; symbolic links, directories that vanish and progress reports are not modelled. *)

From S2P Require Import Prelude Errors PyText Attachments Identity Retry Json Manifest Sha256 Database World EmlStorage.

Open Scope list_scope.

(** The parts of a rendered message, as far as they are used. *)
Record MessagePart := Part { content_id : option string; part_filename : option pystr; payload : bytes; is_inline : bool }.
(** What another program creates, when there is no file of that name. *)
Notation arrival := (option (string * bytes)).

(** ** Paths *)

(** The bytes of a name. *)
Definition text (name : pystr) : string := string_of (flat_map utf8_encode name).
Definition file_of (dest : list string) (p : list string) : string := String slash (join (dest ++ p)).
(** [dest_dir / name], for a name that is one component. *)
Definition path_of (dest : list string) (name : pystr) : string := file_of dest [text name].
(** [resolve_within] *)
Definition resolve_within (dest : list string) (name : pystr) : result string :=
  let? p := resolve_inside dest (text name) in Ok (file_of dest p).

Fixpoint rfind_dot (i : nat) (name : pystr) : option nat :=
  match name with
  | [] => None
  | c :: name => match rfind_dot (S i) name with Some j => Some j | None => if (c =? 46)%Z then Some i else None end
  end.
(** [Path(name).stem] and [.suffix]: a dot at the start or the end does not count. *)
Definition split_suffix (name : pystr) : pystr * pystr :=
  match rfind_dot 0 name with
  | Some i => if ((0 <? i) && (i <? length name - 1))%nat then (take i name, drop i name) else (name, [])
  | None => (name, [])
  end.
Definition stem (name : pystr) : pystr := (split_suffix name).1.
Definition suffix (name : pystr) : pystr := (split_suffix name).2.
Definition counted (base : pystr) (n : Z) (ext : pystr) : pystr := base ++ lit " (" ++ bytes_of (int_str n) ++ lit ")" ++ ext.
(** The candidate names: the name itself, then with a counter. *)
Definition candidate_name_at (filename : pystr) (k : nat) : pystr :=
  match k with O => filename | _ => counted (stem filename) (Z.of_nat k) (suffix filename) end.

(** [int(text)] of a text of ASCII characters: white space around it, a sign, digits with single underscores between
    them. *)
Fixpoint int_digits (seen : bool) (n : Z) (l : pystr) : option Z :=
  match l with
  | [] => if seen then Some n else None
  | c :: l =>
      if Json.is_digit c then int_digits true (10 * n + (c - 48)) l
      else if (c =? 95)%Z && seen then match l with d :: _ => if Json.is_digit d then int_digits false n l else None | [] => None end
      else None
  end.
Definition is_blank (c : Z) : bool := ((9 <=? c) && (c <=? 13) || (28 <=? c) && (c <=? 32))%Z.
Fixpoint drop_while (p : Z -> bool) (l : pystr) : pystr :=
  match l with c :: l' => if p c then drop_while p l' else l | [] => [] end.
Definition py_int (l : pystr) : option Z :=
  match rstrip is_blank (drop_while is_blank l) with
  | 43%Z :: l => int_digits false 0 l
  | 45%Z :: l => option_map Z.opp (int_digits false 0 l)
  | l => int_digits false 0 l
  end.
(** The text after the last [ (]. *)
Fixpoint after_marker (l : pystr) : option pystr :=
  match l with
  | [] => None
  | c :: l' => match after_marker l' with
               | Some r => Some r
               | None => match c, l' with 32%Z, 40%Z :: r => Some r | _, _ => None end
               end
  end.
(** [_next_counter] *)
Definition next_counter (name : pystr) : Z :=
  let stem := stem name in
  match after_marker stem with
  | Some r => if bool_decide (last stem = Some 41%Z)
              then match py_int (removelast r) with Some n => n + 1 | None => 1 end else 1
  | None => 1
  end%Z.

(** ** Operations *)

(** The last component of a path, and whether it is longer than a file system allows. *)
Fixpoint last_name (acc path : string) : string :=
  match path with
  | EmptyString => acc
  | String c path => if Ascii.eqb c slash then last_name "" path else last_name (acc +:+ String c "")%string path
  end.
Definition NAME_MAX : nat := 255.
Definition too_long (path : string) : bool := (NAME_MAX <? String.length (last_name "" path))%nat.
Definition long_name_error : exn := Exn OSError "File name too long".
(** [Path.exists] of Python 3.13: the error of a name that is too long is not one of those that mean no. *)
Definition exists_at (path : string) : M World bool :=
  io (fun w => if too_long path then (Err long_name_error, w) else (Ok (if read_file path w is Some _ then true else false), w)).
(** Another program creates its file. *)
Definition arrive (o : arrival) (w : World) : World :=
  match o with
  | Some (p, c) => match read_file p w with None => set_fs (dict_set p c (fs w)) w | Some _ => w end
  | None => w
  end.
(** [os.link]: the destination must not exist. *)
Definition link_file (o : arrival) (src dst : string) : M World unit :=
  io (fun w =>
    let w := arrive o w in
    match read_file src w with
    | None => (raise FileNotFoundError "No such file or directory", w)
    | Some c => match read_file dst w with
                | Some _ => (raise FileExistsError "File exists", w)
                | None => (Ok tt, set_fs (dict_set dst c (fs w)) w)
                end
    end).
(** [try: m finally: c], where [c] raises nothing. *)
Definition finally_ {A} (m : M World A) (c : M World unit) : M World A := fun w => let (r, w) := m w in (r, (c w).2).

Section Operations.
Context (root : list string) (nfc : pystr -> pystr) (render : bytes -> list MessagePart) (cancelled : nat -> bool).
Context (dest : list string) (temporary : string) (written : nat).

(** ** export_attachments *)

(** [_candidate_path], counting from [k]: among as many names as there are files and one more, one is free. *)
Fixpoint candidate_loop (fuel : nat) (filename : pystr) (k : nat) : M World string :=
  match fuel with
  | O => mraise RuntimeError "more names than files"
  | S fuel =>
      let! candidate := mtry (mlift (resolve_within dest (candidate_name_at filename k)))
        (fun e => if isinstance e ValueError then mraise StorageError "Attachment destination is no longer safe" else mthrow e) in
      let! occupied := exists_at candidate in
      if occupied then candidate_loop fuel filename (S k) else mret candidate
  end.
Definition candidate_path (filename : pystr) : M World string :=
  let! n := mgets (fun w => length (fs w)) in candidate_loop (S n) filename 0.
(** [_write_without_overwrite]; making the temporary file is not inside its [try]. *)
Definition write_without_overwrite (destination : string) (raw : bytes) (o : arrival) : M World string :=
  put_file temporary [] ;!
  finally_
    (mtry
       (put_file temporary (take written raw) ;! put_file temporary raw ;! sync_file ;!
        link_file o temporary destination ;!
        remove_file temporary ;! sync_directory ;! mret destination)
       (fun e => if isinstance e FileExistsError then mthrow e
                 else if isinstance e OSError then mraise StorageError "Could not export attachment" else mthrow e))
    (discard temporary).
Definition export_attempt (name : pystr) (raw : bytes) (o : arrival) : M World string :=
  let! destination := candidate_path name in write_without_overwrite destination raw o.
(** The [while True] of [_export_part]. *)
Fixpoint export_loop (others : list arrival) (name : pystr) (raw : bytes) : M World string :=
  match others with
  | [] => export_attempt name raw None
  | o :: others => mtry (export_attempt name raw o)
                     (fun e => if isinstance e FileExistsError then export_loop others name raw else mthrow e)
  end.
Definition export_part (others : list arrival) (p : MessagePart) : M World (string * list string) :=
  let! sanitized := mlift (sanitize_attachment_name nfc (get_or [] (part_filename p))) in
  let! path := export_loop others (sname sanitized) (payload p) in
  mret (path, warnings sanitized).

(** [_message_storage]; [given] is a string that is not empty. *)
Definition given (o : option string) : option string :=
  match o with Some s => if (s == "")%string then None else Some s | None => None end.
Definition message_storage (m : message) : result (option (string * string)) :=
  if m_local_state m == Purged then Ok None else
  match given (relative_path m), given (file_hash m) with
  | None, _ => raise StorageError "Message has no stored EML path"
  | _, None => raise StorageError "Message has no stored EML hash"
  | Some path, Some hash => Ok (Some (path, hash))
  end.
Record export_result := ExportResult {
  files : list string; skipped_count : Z; warning_codes : list string;
  warning_details : list (Z * string * list string);   (* the message's id, the path, its codes *)
  executable_paths : list string }.
Definition check_cancel : M World unit := raise_if_cancelled (fun w => cancelled (ticks w)).
(** The parts of a message; [others] gives what other programs do from a moment on. *)
Fixpoint export_parts (others : nat -> list arrival) (id : Z) (l : list MessagePart) (r : export_result) : M World export_result :=
  match l with
  | [] => mret r
  | p :: l =>
      check_cancel ;!
      if (if content_id p is Some _ then true else false) || is_inline p then export_parts others id l r else
      let! o := mgets (fun w => others (ticks w)) in
      let! done := export_part o p in
      export_parts others id l (ExportResult (files r ++ [done.1]) (skipped_count r) (warning_codes r ++ done.2)
        (match done.2 with [] => warning_details r | _ => warning_details r ++ [(id, done.1, done.2)] end)
        (if mem "executable_extension"%string done.2 then executable_paths r ++ [done.1] else executable_paths r))
  end.
Fixpoint export_messages (others : nat -> list arrival) (l : list message) (r : export_result) : M World export_result :=
  match l with
  | [] => mret r
  | m :: l =>
      check_cancel ;!
      let! metadata := mlift (message_storage m) in
      match metadata with
      | None => export_messages others l (ExportResult (files r) (skipped_count r + 1) (warning_codes r) (warning_details r) (executable_paths r))
      | Some (path, hash) =>
          let! raw := read_verified root path hash in
          let! r := export_parts others (m_id m) (render raw) r in
          export_messages others l r
      end
  end.
Definition export_attachments (others : nat -> list arrival) (l : list message) : M World export_result :=
  let! r := export_messages others l (ExportResult [] 0 [] [] []) in
  check_cancel ;! mret r.

(** ** save_attachment *)

Record AttachmentSavePlan := SavePlan {
  plan_path : string; plan_hash : string; part_index : Z; plan_filename : pystr; plan_warnings : list string;
  plan_executable : bool }.
Definition part_at (l : list MessagePart) (i : Z) : result MessagePart :=
  if (i <? 0)%Z then raise StorageError "Attachment part index is out of range" else
  match l !! Z.to_nat i with
  | None => raise StorageError "Attachment part index is out of range"
  | Some p => if is_inline p then raise StorageError "Inline MIME parts cannot be saved as attachments" else Ok p
  end.
(** [_candidate_name] *)
Fixpoint candidate_name_loop (fuel : nat) (filename : pystr) (k : nat) : M World pystr :=
  match fuel with
  | O => mraise RuntimeError "more names than files"
  | S fuel =>
      let! occupied := exists_at (path_of dest (candidate_name_at filename k)) in
      if occupied then candidate_name_loop fuel filename (S k) else mret (candidate_name_at filename k)
  end.
Definition candidate_name (filename : pystr) : M World pystr :=
  let! n := mgets (fun w => length (fs w)) in candidate_name_loop (S n) filename 0.
(** [prepare_attachment_save] *)
Definition prepare_attachment_save (path hash : string) (i : Z) (filename : option pystr) : M World AttachmentSavePlan :=
  let! raw := read_verified root path hash in
  let! part := mlift (part_at (render raw) i) in
  let! sanitized := mlift (sanitize_attachment_name nfc
    (match filename with Some f => f | None => get_or [] (part_filename part) end)) in
  let! chosen := candidate_name (sname sanitized) in
  mret (SavePlan path hash i chosen (warnings sanitized) (is_executable sanitized)).
(** The loop of [commit_attachment_save]: the name the last attempt was made with, and its path. *)
Fixpoint commit_loop (others : list arrival) (plan : AttachmentSavePlan) (name : pystr) (destination : string) : M World string :=
  match others with
  | [] => link_file None temporary destination ;! mret destination
  | o :: others =>
      mtry (link_file o temporary destination ;! mret destination)
        (fun e => if isinstance e FileExistsError then
           let f := plan_filename plan in
           let! next := candidate_name (counted (stem f) (next_counter name) (suffix f)) in
           let! destination := mlift (resolve_within dest next) in
           commit_loop others plan next destination
         else mthrow e)
  end.
Definition commit_attachment_save (others : list arrival) (plan : AttachmentSavePlan) (overwrite : bool) : M World string :=
  let! raw := read_verified root (plan_path plan) (plan_hash plan) in
  let! checked := mtry
    (let! part := mlift (part_at (render raw) (part_index plan)) in
     let! sanitized := mlift (sanitize_attachment_name nfc (plan_filename plan)) in
     if negb (Bool.eqb (is_executable sanitized) (plan_executable plan))
     then mraise StorageError "Attachment security classification changed" else
     if negb (bool_decide (sname sanitized = plan_filename plan))
     then mraise StorageError "Attachment filename changed after confirmation" else
     let! destination := mlift (resolve_within dest (plan_filename plan)) in
     mret (part, destination))
    (fun e => if isinstance e ValueError then mraise StorageError "Attachment destination is no longer safe" else mthrow e) in
  mtry
    (let! destination := with_temporary temporary
       (write_file temporary (payload checked.1) written ;!
        if overwrite then rename_file temporary checked.2 ;! mret checked.2
        else let! destination := commit_loop others plan (plan_filename plan) checked.2 in
             discard temporary ;! mret destination) in
     sync_directory ;! mret destination)
    (fun e => if isinstance e OSError then mraise StorageError "Could not save attachment" else mthrow e).

(** ** open_message *)

(** The row of [SqliteSearchRepository.get_message]: a message is found in its first folder only, so one that is in no
    folder does not exist. The summary of the folder and of the last failure are left out. *)
Definition get_detail (id : Z) (d : Db) : option message :=
  match message_with id d, first_membership id d with
  | Some m, Some mf => if existsb (fun f => f_id f =? mf_folder_id mf)%Z (folders d) then Some m else None
  | _, _ => None
  end.
(** The rendered message is given by its parts. *)
Definition open_message (id : Z) : M World (message * list MessagePart) :=
  let! detail := db_read (get_detail id) in
  match detail with
  | None => mraise StorageError ("Message does not exist: " ++ int_str id)
  | Some m =>
      if m_local_state m == Purged then mraise StorageError "Message EML is unavailable because it was purged" else
      match relative_path m, file_hash m with
      | None, _ => mraise StorageError "Message has no stored EML path"
      | _, None => mraise StorageError "Message has no stored EML hash"
      | Some path, Some hash => let! raw := read_verified root path hash in mret (m, render raw)
      end
  end.
End Operations.

(** ** No file is overwritten *)

Section ExportFacts.
Context (root : list string) (nfc : pystr -> pystr) (render : bytes -> list MessagePart) (cancelled : nat -> bool).
Context (dest : list string) (temporary : string) (written : nat).

(** Everything that was there stays: the database, the manifest, and every file but the temporary one. *)
Definition kept (w w' : World) : Prop :=
  same_records w w' /\ forall q c, q <> temporary -> read_file q w = Some c -> read_file q w' = Some c.
#[local] Instance kept_preorder : PreOrder kept.
Proof.
  split; [by intros w|]. intros w1 w2 w3 [(A1 & A2 & A3 & A4) A5] [(B1 & B2 & B3 & B4) B5].
  split; [split_and!; congruence|]. auto.
Qed.
Lemma kept_tick w : kept w (tick w).
Proof. done. Qed.
Lemma kept_io {A} (m : M World A) : preserves kept m -> preserves kept (io m).
Proof.
  intros H w. unfold io. destruct (faults w (ticks w)); [apply kept_tick|]. etrans; [apply kept_tick|apply H].
Qed.
Lemma kept_io_gets {A} (f : World -> A) : preserves kept (io (mgets f)).
Proof. apply kept_io. by intros w. Qed.
Lemma kept_exists path : preserves kept (exists_at path).
Proof. apply kept_io. intros w. by destruct (too_long path). Qed.
Lemma kept_nop : preserves kept (io (mret tt)).
Proof. apply kept_io. by intros w. Qed.
Lemma kept_set q c w : q = temporary \/ read_file q w = None -> kept w (set_fs (dict_set q c (fs w)) w).
Proof.
  intros Hq. split; [done|]. intros p x Hp Hx. unfold read_file in *. cbn [fs set_fs].
  rewrite dict_get_set_ne; [done|]. intros ->. destruct Hq as [?|Hq]; [done|]. by rewrite Hx in Hq.
Qed.
Lemma kept_put c : preserves kept (put_file temporary c).
Proof. apply kept_io. intros w. by apply kept_set; left. Qed.
Lemma kept_remove : preserves kept (remove_file temporary).
Proof.
  apply kept_io. intros w. split; [done|]. intros q c Hq Hc. unfold read_file in *. cbn.
  by rewrite dict_get_pop, Prelude.eqb_neq by done.
Qed.
Lemma kept_arrive o w : kept w (arrive o w).
Proof.
  unfold arrive. destruct o as [[p c]|]; [|done]. destruct (read_file p w) eqn:E; [done|]. apply kept_set. by right.
Qed.
Lemma kept_link o src dst : preserves kept (link_file o src dst).
Proof.
  apply kept_io. intros w. cbn. etrans; [apply (kept_arrive o)|]. destruct (read_file src (arrive o w)); [|done].
  destruct (read_file dst (arrive o w)) eqn:E; [done|]. apply kept_set. by right.
Qed.
Lemma kept_try {A} (m : M World A) h : preserves kept m -> (forall e, preserves kept (h e)) -> preserves kept (mtry m h).
Proof.
  intros Hm Hh w. specialize (Hm w). unfold mtry. destruct (m w) as [[a|e] w1]; cbn [snd] in *; [done|].
  etrans; [exact Hm|apply Hh].
Qed.
Lemma kept_finally {A} (m : M World A) c : preserves kept m -> preserves kept c -> preserves kept (finally_ m c).
Proof.
  intros Hm Hc w. specialize (Hm w). unfold finally_. destruct (m w) as [r w1]. cbn [snd] in *. etrans; [exact Hm|apply Hc].
Qed.
Lemma kept_throw {A} e : preserves kept (@mthrow World A e).
Proof. by intros w. Qed.
Lemma kept_discard : preserves kept (discard temporary).
Proof. apply kept_try; [apply kept_remove|]. intros e. by intros w. Qed.
Lemma kept_read path hash : preserves kept (read_verified root path hash).
Proof.
  unfold read_verified. apply (preserves_if kept); [by intros w|]. apply (preserves_bnd kept); [by intros w|]. intros p.
  apply (preserves_bnd kept); [|intros c; apply (preserves_if kept); by intros w].
  apply kept_io. intros w. cbn. by destruct (read_file p w).
Qed.
Lemma kept_cancel : preserves kept (check_cancel cancelled).
Proof. intros w. unfold check_cancel, raise_if_cancelled. by destruct (cancelled (ticks w)). Qed.
#[local] Hint Resolve kept_io_gets kept_exists kept_nop kept_put kept_remove kept_link kept_try kept_finally kept_throw kept_discard kept_read kept_cancel
  kept_preorder : maildock.
Ltac kept := repeat first [solve [auto with maildock] | apply (preserves_bnd kept); [|intros ?] | apply (preserves_if kept) | apply kept_try; [|intros ?]
  | case_match].
Lemma kept_candidate fuel name : forall k, preserves kept (candidate_loop dest fuel name k).
Proof. induction fuel as [|fuel IH]; intros k; cbn [candidate_loop]; [by intros w|]. kept. Qed.
Lemma kept_write destination raw o : preserves kept (write_without_overwrite temporary written destination raw o).
Proof. unfold write_without_overwrite, sync_file, sync_directory. apply (preserves_bnd kept); [auto with maildock|]. intros _. apply kept_finally; kept. Qed.
Lemma kept_attempt name raw o : preserves kept (export_attempt dest temporary written name raw o).
Proof. unfold export_attempt, candidate_path. pose proof kept_candidate. pose proof kept_write. kept. Qed.
Lemma kept_loop others name raw : preserves kept (export_loop dest temporary written others name raw).
Proof. pose proof kept_attempt. induction others as [|o others IH]; cbn [export_loop]; kept. Qed.
Lemma kept_parts others id l : forall r, preserves kept (export_parts nfc cancelled dest temporary written others id l r).
Proof.
  induction l as [|p l IH]; intros r; cbn [export_parts]; [by intros w|].
  unfold export_part. pose proof kept_loop. kept.
Qed.
(** What an attempt and the loop publish. *)
Definition published (w w' : World) (d : string) (raw : bytes) : Prop :=
  d <> temporary /\ read_file d w = None /\ read_file d w' = Some raw.
Lemma kept_absent w w' q : q <> temporary -> kept w w' -> read_file q w' = None -> read_file q w = None.
Proof. intros Hq [_ H] Hw'. destruct (read_file q w) as [c|] eqn:E; [|done]. by rewrite (H q c) in Hw'. Qed.
Lemma published_kept w0 w w' w1 d raw : kept w0 w -> kept w' w1 -> published w w' d raw -> published w0 w1 d raw.
Proof.
  intros H0 H1 (Hd & Hn & Hc). split; [done|]. split; [by apply (kept_absent w0 w)|]. by apply H1.
Qed.
Lemma write_publishes destination raw o w :
  wp (write_without_overwrite temporary written destination raw o)
    (fun r w' => match r with Ok d => d = destination /\ published w w' destination raw | Err _ => True end) w.
Proof.
  set (B := fun w1 => kept w w1 /\ read_file temporary w1 = Some raw).
  set (C := fun w1 => published w w1 destination raw).
  assert (triple (kept w) (put_file temporary raw) (fun _ => B) (fun _ => True)) as Hput.
  { intros w1 H1. pose proof (kept_put raw w1) as Hk. unfold post, put_file, io in *. destruct (faults w1 (ticks w1)); [done|].
    split; [exact (transitivity H1 Hk)|]. unfold read_file. cbn. apply dict_get_set_eq. }
  assert (forall c, triple (kept w) (put_file temporary c) (fun _ => kept w) (fun _ => True)) as Hany.
  { intros c w1 H1. pose proof (kept_put c w1) as Hk. unfold post, put_file, io in *. destruct (faults w1 (ticks w1)); [done|].
    exact (transitivity H1 Hk). }
  assert (triple B (link_file o temporary destination) (fun _ => C) (fun _ => True)) as Hlink.
  { intros w1 [H1 H2]. unfold link_file, io, post. destruct (faults w1 (ticks w1)); [done|].
    assert (read_file temporary (arrive o (tick w1)) = Some raw) as Ht.
    { unfold arrive. destruct o as [[p c]|]; [|done]. destruct (read_file p (tick w1)) eqn:E; [done|].
      unfold read_file in *. cbn [fs set_fs tick]. rewrite dict_get_set_ne; [done|]. intros ->. cbn [fs tick] in E. by rewrite H2 in E. }
    rewrite Ht. destruct (read_file destination (arrive o (tick w1))) eqn:Ed; [done|].
    assert (destination <> temporary) as Hne by (intros ->; by rewrite Ht in Ed).
    split; [done|]. split; [|unfold read_file; cbn; apply dict_get_set_eq].
    apply (kept_absent w (arrive o (tick w1))); [done| |done]. etrans; [exact H1|]. etrans; [apply kept_tick|apply kept_arrive]. }
  assert (forall A (m : M World A), preserves kept m -> triple C m (fun _ => C) (fun _ => True)) as Hkeep.
  { intros A m Hm w1 H1. specialize (Hm w1). unfold post. destruct (m w1) as [[a|e] w2]; [|done].
    apply (published_kept w w w1 w2); [done|exact Hm|exact H1]. }
  assert (triple (kept w) (put_file temporary (take written raw) ;! put_file temporary raw ;! sync_file ;!
    link_file o temporary destination ;! remove_file temporary ;! sync_directory ;! mret destination)
    (fun d w' => d = destination /\ C w') (fun _ => True)) as Hm.
  { eapply triple_bnd; [apply Hany|]. intros ?. eapply triple_bnd; [apply Hput|]. intros ?.
    eapply triple_bnd with (Q := fun _ => B).
    { intros w2 [H2 H3]. unfold sync_file, io, post. destruct (faults w2 (ticks w2)); [done|]. split; [exact (transitivity H2 (kept_tick w2))|done]. }
    intros ?. eapply triple_bnd; [apply Hlink|]. intros ?.
    eapply triple_bnd; [apply (Hkeep unit), kept_remove|]. intros ?. eapply triple_bnd; [apply (Hkeep unit), kept_nop|]. intros ?.
    by apply triple_ret. }
  assert (post (fun d w' => d = destination /\ C w') (fun _ => True)
    (write_without_overwrite temporary written destination raw o w)) as H.
  { unfold write_without_overwrite. eapply triple_bnd; [apply Hany| |done]. intros ? w1 H1. unfold finally_, mtry.
    specialize (Hm w1 H1). unfold post in Hm |- *.
    destruct ((put_file temporary (take written raw) ;! _) w1) as [[d|e] w2].
    - destruct Hm as [-> Hm]. split; [done|]. apply (published_kept w w w2); [done|apply kept_discard|exact Hm].
    - destruct (isinstance e FileExistsError); [done|]. by destruct (isinstance e OSError). }
  unfold wp, post in *. by destruct (write_without_overwrite temporary written destination raw o w) as [[d|e] w'].
Qed.
(** The loop publishes the bytes in a file that was not there. *)
Lemma attempt_publishes name raw o w :
  wp (export_attempt dest temporary written name raw o)
    (fun r w' => match r with Ok d => published w w' d raw | Err _ => True end) w.
Proof.
  unfold export_attempt. apply wp_bnd. assert (kept w (candidate_path dest name w).2) as Hk.
  { unfold candidate_path, mbnd, mgets. apply kept_candidate. }
  unfold wp at 1. destruct (candidate_path dest name w) as [[d|e] w1]; [|done]. cbn [fst snd] in *.
  eapply wp_mono; [apply write_publishes|]. intros [d'|e] w2; [|done]. intros [-> H].
  apply (published_kept w w1 w2 w2); done.
Qed.
Lemma loop_publishes others name raw : forall w,
  wp (export_loop dest temporary written others name raw)
    (fun r w' => match r with Ok d => published w w' d raw | Err _ => True end) w.
Proof.
  induction others as [|o others IH]; intros w; cbn [export_loop]; [apply attempt_publishes|].
  pose proof (attempt_publishes name raw o w) as H. pose proof (kept_attempt name raw o w) as Hk. unfold wp, mtry in *.
  destruct (export_attempt dest temporary written name raw o w) as [[d|e] w1]; [done|]. cbn [fst snd] in *.
  destruct (isinstance e FileExistsError); [|done]. specialize (IH w1).
  destruct (export_loop dest temporary written others name raw w1) as [[d|x] w2]; [|done]. cbn [fst snd] in *.
  by apply (published_kept w w1 w2 w2).
Qed.

(** ** The whole export *)

(** The parts that are exported: neither inline nor with a Content-ID. *)
Definition wanted (l : list MessagePart) : list MessagePart :=
  List.filter (fun p => negb ((if content_id p is Some _ then true else false) || is_inline p)) l.
(** Since [w0] the files of the result were published, each for its part, and nothing was lost. *)
Definition exported (w0 : World) (r : export_result) (ps : list MessagePart) (w : World) : Prop :=
  kept w0 w /\ Forall2 (fun d p => published w0 w d (payload p)) (files r) ps /\ NoDup (files r).
Definition not_purged (m : message) : bool := negb (m_local_state m == Purged).
(** The bytes read for each message have its recorded hash. *)
Definition read_as (m : message) (raw : bytes) : Prop :=
  exists hash, file_hash m = Some hash /\ hexdigest raw = fold_hash hash.

Lemma exported_step w0 r ps w w' : kept w w' -> exported w0 r ps w -> exported w0 r ps w'.
Proof.
  intros Hk (H1 & H2 & H3). split; [by etrans|]. split; [|done]. eapply Forall2_impl; [exact H2|].
  intros d p H. by apply (published_kept w0 w0 w w').
Qed.
Lemma triple_kept w0 r ps {A} (m : M World A) : preserves kept m ->
  triple (exported w0 r ps) m (fun _ => exported w0 r ps) (kept w0).
Proof.
  intros Hm w Hw. specialize (Hm w). unfold post. destruct (m w) as [[a|e] w']; cbn [snd] in Hm.
  - by apply (exported_step w0 r ps w).
  - etrans; [apply Hw|exact Hm].
Qed.
Lemma triple_export_part w0 r ps others p :
  triple (exported w0 r ps) (export_part nfc dest temporary written others p)
    (fun d w => forall r', files r' = files r ++ [d.1] -> exported w0 r' (ps ++ [p]) w) (kept w0).
Proof.
  intros w Hw. unfold export_part, mbnd, mlift. destruct (sanitize_attachment_name nfc _) as [z|e]; [|apply Hw].
  pose proof (loop_publishes others (sname z) (payload p) w) as Hp. pose proof (kept_loop others (sname z) (payload p) w) as Hk.
  unfold wp, post in *. destruct (export_loop dest temporary written others (sname z) (payload p) w) as [[d|e] w']; cbn [fst snd] in *.
  - intros r' Er. cbn [fst] in Er. destruct (exported_step w0 r ps w w' Hk Hw) as (H1 & H2 & H3). split; [done|]. rewrite Er. split.
    + apply Forall2_app; [done|]. constructor; [|constructor]. by apply (published_kept w0 w w' w'), Hp; [apply Hw|].
    + apply NoDup_app. split; [done|]. split; [|apply NoDup_singleton]. intros d' Hd ->%list_elem_of_singleton.
      destruct Hw as (_ & Hw & _). apply list_elem_of_lookup in Hd as [i Hi].
      destruct (Forall2_lookup_l _ _ _ _ _ Hw Hi) as (q & _ & _ & _ & Hq). destruct Hp as (_ & Hn & _). cbn in Hq. congruence.
  - etrans; [apply Hw|exact Hk].
Qed.
Lemma triple_export_parts w0 others id l : forall r ps,
  triple (exported w0 r ps) (export_parts nfc cancelled dest temporary written others id l r)
    (fun r' w => exported w0 r' (ps ++ wanted l) w) (kept w0).
Proof.
  induction l as [|p l IH]; intros r ps; cbn [export_parts wanted List.filter].
  { apply triple_ret. intros w. by rewrite app_nil_r. }
  eapply triple_bnd; [apply triple_kept, kept_cancel|]. intros ?. fold (wanted l).
  destruct ((if content_id p is Some _ then true else false) || is_inline p); cbn [negb]; [apply IH|].
  eapply triple_bnd; [apply triple_kept; by intros w|]. intros o. eapply triple_bnd; [apply triple_export_part|]. intros d.
  change (p :: wanted l) with ([p] ++ wanted l). rewrite app_assoc. eapply triple_conseq; [apply IH|intros w Hw|intros r' w Hw|intros w Hw]; [by apply Hw|exact Hw|exact Hw].
Qed.
Lemma triple_export_messages w0 others l : forall r ps,
  triple (exported w0 r ps) (export_messages root nfc render cancelled dest temporary written others l r)
    (fun r' w => exists raws, Forall2 read_as (List.filter not_purged l) raws
       /\ exported w0 r' (ps ++ concat (map (fun raw => wanted (render raw)) raws)) w) (kept w0).
Proof.
  induction l as [|m l IH]; intros r ps; cbn [export_messages List.filter].
  { apply triple_ret. intros w Hw. exists []. by rewrite app_nil_r. }
  eapply triple_bnd; [apply triple_kept, kept_cancel|]. intros ?.
  assert (forall md, message_storage m = Ok md -> match md with
    | None => not_purged m = false
    | Some (path, hash) => not_purged m = true /\ file_hash m = Some hash
    end) as Hmd.
  { intros md. unfold message_storage, not_purged. destruct (m_local_state m == Purged); [by intros [= <-]|].
    destruct (given (relative_path m)); [|done]. destruct (file_hash m) as [h|]; cbn [given]; [|done].
    destruct (h == "")%string; [done|]. by intros [= <-]. }
  eapply triple_bnd with (Q := fun md w => exported w0 r ps w /\ message_storage m = Ok md).
  { intros w Hw. unfold mlift, post. destruct (message_storage m); [done|apply Hw]. }
  intros md. apply triple_pure. intros E. specialize (Hmd md E). destruct md as [[path hash]|].
  - destruct Hmd as [-> Hh]. eapply triple_bnd with (Q := fun raw w => exported w0 r ps w /\ hexdigest raw = fold_hash hash).
    { intros w Hw. pose proof (triple_kept w0 r ps _ (kept_read path hash) w Hw) as Hk. unfold post in *.
      destruct (read_verified root path hash w) as [[raw|e] w'] eqn:Er; [|done]. split; [done|].
      by apply read_verified_spec in Er as (q & _ & _ & ?). }
    intros raw. apply triple_pure. intros Hraw. eapply triple_bnd; [apply triple_export_parts|]. intros r'.
    eapply triple_conseq; [apply IH|done| |done]. intros r2 w (raws & H1 & H2). exists (raw :: raws).
    split; [constructor; [by exists hash|done]|]. cbn [map concat]. by rewrite app_assoc.
  - rewrite Hmd. eapply triple_conseq; [apply IH|done|done|done].
Qed.

(** C30. Exporting attachments overwrites nothing and leaves out nothing it selects: whatever operation fails, whatever other
    programs create meanwhile and whenever it is cancelled, the database, the manifest and every file that was there
    (but the temporary one) stay as they are. When the export returns, its files are distinct, none of them existed
    before, and they hold, in order, the bytes of every part of the messages that are not purged which is neither inline
    nor has a Content-ID ([wanted]; [attachment_with_id_left_out] shows an attachment that this leaves out), each
    message read with its recorded hash. *)
Theorem export_never_overwrites others l w :
  let '(r, w') := export_attachments root nfc render cancelled dest temporary written others l w in
  kept w w' /\ match r with
  | Err _ => True
  | Ok res => NoDup (files res) /\ exists raws, Forall2 read_as (List.filter not_purged l) raws
      /\ Forall2 (fun d p => published w w' d (payload p)) (files res) (concat (map (fun raw => wanted (render raw)) raws))
  end.
Proof.
  assert (triple (exported w (ExportResult [] 0 [] [] []) []) (export_attachments root nfc render cancelled dest temporary written others l)
    (fun r' w' => exists raws, Forall2 read_as (List.filter not_purged l) raws
       /\ exported w r' (concat (map (fun raw => wanted (render raw)) raws)) w') (kept w)) as H.
  { unfold export_attachments. eapply triple_bnd; [apply triple_export_messages|]. intros r'.
    intros w1 (raws & H1 & H2). pose proof (triple_kept w r' _ _ kept_cancel w1 H2) as Hc. unfold mbnd, post in *.
    destruct (check_cancel cancelled w1) as [[u|e] w2]; [|done]. cbn. by exists raws. }
  specialize (H w). unfold post in H.
  destruct (export_attachments root nfc render cancelled dest temporary written others l w) as [[res|e] w'].
  - destruct H as (raws & H1 & H2 & H3 & H4); [by split; [|split; [constructor|constructor]]|]. split; [done|]. split; [done|]. by exists raws.
  - split; [|done]. apply H. by split; [|split; [constructor|constructor]].
Qed.
End ExportFacts.

(** The documentation promises all attachments that are not inline; one that has a Content-ID, as some programs give to
    every part, is left out without a word, while it can be saved on its own. *)
Definition named_attachment : MessagePart := Part (Some "1"%string) (Some (lit "a.pdf")) [1%Z] false.
Lemma attachment_with_id_left_out nfc cancelled dest temporary written others id r w : cancelled (ticks w) = false ->
  (export_parts nfc cancelled dest temporary written others id [named_attachment] r w).1 = Ok r
  /\ part_at [named_attachment] 0 = Ok named_attachment.
Proof. intros Hc. split; [|done]. cbn. unfold mbnd, check_cancel, raise_if_cancelled. by rewrite Hc. Qed.
