(* ===== verification/AttachmentComplete.v ===== *)
(** * AttachmentComplete: the export of attachments ends

    [_candidate_path] counts up until a name is free, and [_export_part] tries again as long as other programs take
    the name first. The candidate names of a file name are pairwise different, so the counting ends after at
    most as many names as there are files; when the others stop, the part is written, unless the counter has made
    the name longer than a file system allows. *)

From S2P Require Import Prelude Errors PyText PyTime Attachments Identity Retry Json Manifest Sha256 Database World EmlStorage AttachmentExport.

Open Scope list_scope.

(** ** The text of names *)

Lemma string_of_app a b : string_of (a ++ b) = (string_of a +:+ string_of b)%string.
Proof. induction a as [|c a IH]; [done|]. exact (f_equal (String (ascii_of c)) IH). Qed.
Lemma text_app a b : text (a ++ b) = (text a +:+ text b)%string.
Proof. unfold text. by rewrite flat_map_app, string_of_app. Qed.
Lemma text_ascii s : Forall (fun c => c < 128)%Z (bytes_of s) -> text (bytes_of s) = s.
Proof.
  intros H. unfold text. assert (flat_map utf8_encode (bytes_of s) = bytes_of s) as ->; [|apply string_of_bytes_of].
  induction H as [|c l Hc _ IH]; [done|]. cbn [flat_map]. rewrite IH. unfold utf8_encode.
  by rewrite (proj2 (Z.ltb_lt c _)) by done.
Qed.
Lemma has_slash_app a b : has_slash (a +:+ b)%string = has_slash a || has_slash b.
Proof. induction a as [|c a IH]; [done|]. change (Ascii.eqb c slash || has_slash (a +:+ b)%string = (Ascii.eqb c slash || has_slash a) || has_slash b). by rewrite IH, orb_assoc. Qed.
Lemma length_text_app a b : String.length (a +:+ b)%string = (String.length a + String.length b)%nat.
Proof. induction a as [|c a IH]; [done|]. exact (f_equal S IH). Qed.
Lemma app_cancel a b c d : (a +:+ b +:+ c = a +:+ d +:+ c)%string -> b = d.
Proof.
  intros H%(f_equal bytes_of). rewrite !bytes_of_app in H. apply app_inv_head in H. apply app_inv_tail in H.
  by apply bytes_of_inj.
Qed.
Lemma has_slash_bytes s : has_slash s = false <-> 47%Z ∉ bytes_of s.
Proof.
  induction s as [|c s IH]; [by split; [intros _ ?%elem_of_nil|]|]. cbn [has_slash bytes_of]. rewrite orb_false_iff, IH, not_elem_of_cons.
  assert (Ascii.eqb c slash = false <-> 47%Z <> byte_of c) as ->; [|done]. rewrite Ascii.eqb_neq. split; intros H E; apply H.
  - rewrite <- (ascii_of_byte_of c), <- E. reflexivity.
  - by rewrite E.
Qed.
Lemma int_str_no_slash n : has_slash (int_str n) = false.
Proof. apply has_slash_bytes. intros Hi. pose proof (int_str_digits n) as H. rewrite Forall_forall in H. specialize (H _ Hi). lia. Qed.
Lemma text_counted base n ext :
  text (counted base n ext) = (text base +:+ (" (" +:+ int_str n +:+ ")") +:+ text ext)%string.
Proof.
  unfold counted. rewrite !text_app. unfold lit. rewrite (text_ascii (int_str n)) by (eapply Forall_impl; [apply int_str_digits|]; cbn beta; lia).
  rewrite !text_ascii by (repeat constructor). by rewrite !PyTime.append_assoc.
Qed.
Lemma stem_suffix name : stem name ++ suffix name = name.
Proof. unfold stem, suffix, split_suffix. repeat case_match; cbn; by rewrite ?take_drop, ?app_nil_r. Qed.

(** The candidate names of a name are different, and as good as the name. *)
Lemma candidate_text_inj name i j : text (candidate_name_at name i) = text (candidate_name_at name j) -> i = j.
Proof.
  assert (forall k, text name <> text (counted (stem name) (Z.of_nat k) (suffix name))) as H0.
  { intros k H%(f_equal String.length). rewrite text_counted, <- (stem_suffix name), text_app in H at 1.
    rewrite !length_text_app in H. cbn in H. lia. }
  destruct i as [|i], j as [|j]; cbn [candidate_name_at]; intros H; [done|by apply H0 in H|symmetry in H; by apply H0 in H|].
  rewrite !text_counted in H. apply app_cancel in H. apply (app_cancel " (" _ ")"), int_str_inj in H. lia.
Qed.
Lemma candidate_proper name k : proper (text name) -> proper (text (candidate_name_at name k)).
Proof.
  destruct k as [|k]; [done|]. cbn [candidate_name_at]. intros [_ H]. rewrite <- (stem_suffix name), text_app, has_slash_app in H.
  apply orb_false_iff in H as [H1 H2]. rewrite text_counted. split.
  - intros [E|[E|[E|E%elem_of_nil]%elem_of_cons]%elem_of_cons]%elem_of_cons; [..|done];
      apply (f_equal String.length) in E; rewrite !length_text_app in E; cbn in E; lia.
  - rewrite !has_slash_app, H1, H2. cbn. by rewrite int_str_no_slash.
Qed.

Section Complete.
Context (root : list string) (nfc : pystr -> pystr) (render : bytes -> list MessagePart) (cancelled : nat -> bool).
Context (dest : list string) (temporary : string) (written : nat).

Lemma file_of_inj a b : file_of dest [a] = file_of dest [b] -> a = b.
Proof.
  assert (exists p, forall c, join (dest ++ [c]) = (p +:+ c)%string) as [p Hp].
  { clear. induction dest as [|x d [p Hp]]; [by exists ""%string|]. exists (x +:+ String slash p)%string. intros c.
    rewrite PyTime.append_assoc. cbn [app join]. specialize (Hp c). by destruct (d ++ [c]) eqn:E; [destruct d|rewrite Hp]. }
  unfold file_of. intros [= H]. rewrite !Hp in H. apply (f_equal bytes_of) in H. rewrite !bytes_of_app in H.
  by apply app_inv_head, bytes_of_inj in H.
Qed.
Lemma resolve_within_proper name : proper (text name) -> resolve_within dest name = Ok (path_of dest name).
Proof.
  intros H. unfold resolve_within, path_of. change (text name) with (join [text name]) at 1. rewrite resolve_inside_join; [done|done|]. by apply Forall_singleton.
Qed.

(** The candidate of number [k]. *)
Definition candidate (name : pystr) (k : nat) : string := path_of dest (candidate_name_at name k).
Definition occupied (w : World) (p : string) : Prop := read_file p w <> None.

(** With more names than files, one is free. *)
Lemma names_run_out w name n : (forall k, (k < n)%nat -> occupied w (candidate name k)) -> (n <= length (fs w))%nat.
Proof.
  intros H. rewrite <- (length_seq n 0), <- (length_map (candidate name)). rewrite <- (length_map fst (fs w)).
  apply submseteq_length, NoDup_submseteq.
  - apply NoDup_fmap_2; [intros i j E; by apply file_of_inj, candidate_text_inj in E|apply NoDup_seq].
  - intros p (k & -> & Hk%elem_of_seq)%list_elem_of_fmap. destruct (decide (candidate name k ∈ (fs w).*1)) as [|Hn]; [done|].
    apply dict_get_None in Hn. by destruct (H k ltac:(lia)).
Qed.
(** Every name that is tried before the first one that is too long is taken. *)
Definition exhausted (w : World) (name : pystr) : Prop :=
  exists k, too_long (candidate name k) = true /\ forall j, (j < k)%nat -> occupied w (candidate name j).
(** [m] ends, without faults, with a value or an exception that the world it ends in accounts for. *)
Definition ends {A} (m : M World A) (Q : A -> World -> Prop) (E : exn -> World -> Prop) (w : World) : Prop :=
  exists r w', m w = (r, w') /\ faultless w' /\ match r with Ok a => Q a w' | Err e => E e w' end.
Lemma ends_mono {A} (m : M World A) (P Q : A -> World -> Prop) (E F : exn -> World -> Prop) w :
  ends m P E w -> (forall a w', P a w' -> faultless w' -> Q a w') -> (forall e w', E e w' -> F e w') -> ends m Q F w.
Proof. intros (r & w' & Em & Hf & H) HQ HF. exists r, w'. split_and!; [done|done|]. destruct r; auto. Qed.
Lemma ends_bnd {A B} (m : M World A) (k : A -> M World B) Q E w :
  ends m (fun a w' => ends (k a) Q E w') E w -> ends (mbnd m k) Q E w.
Proof.
  intros ([a|e] & w' & Em & Hf & H); unfold ends, mbnd; rewrite Em; [done|]. by exists (Err e), w'.
Qed.
Lemma ends_ret {A} (a : A) (Q : A -> World -> Prop) E w : faultless w -> Q a w -> ends (mret a) Q E w.
Proof. intros Hf H. by exists (Ok a), w. Qed.
Lemma succeeds_ends {A} (m : M World A) Q E w : succeeds m Q w -> ends m Q E w.
Proof. intros (a & w' & H1 & H2 & H3). by exists (Ok a), w'. Qed.
Lemma ends_kept {A} (m : M World A) Q E w : preserves (kept temporary) m -> ends m Q E w ->
  ends m (fun a w' => Q a w' /\ kept temporary w w') E w.
Proof. intros Hp (r & w' & Em & Hf & H). exists r, w'. specialize (Hp w). rewrite Em in Hp. split_and!; [done|done|]. by destruct r. Qed.

Lemma loop_finds name : proper (text name) -> forall fuel k w, faultless w ->
  (length (fs w) < k + fuel)%nat -> (forall j, (j < k)%nat -> occupied w (candidate name j)) ->
  ends (candidate_loop dest fuel name k) (fun d w' => fs w' = fs w /\ read_file d w = None /\ exists k, d = candidate name k)
    (fun e w' => e = long_name_error /\ exhausted w' name) w.
Proof.
  intros Hp. induction fuel as [|fuel IH]; intros k w Hf Hn Hk.
  { apply names_run_out in Hk. lia. }
  cbn [candidate_loop]. rewrite resolve_within_proper by by apply candidate_proper.
  apply ends_bnd, succeeds_ends, succeeds_try, succeeds_lift; [done|]. apply ends_bnd. unfold ends at 1, exists_at, io.
  rewrite Hf. change (read_file ?p (tick w)) with (read_file p w). fold (candidate name k).
  destruct (too_long (candidate name k)) eqn:El; (eexists _, _; split; [reflexivity|]; split; [done|]).
  { split; [done|]. by exists k. }
  destruct (read_file (candidate name k) w) eqn:E; [|apply ends_ret; [done|]; eauto].
  apply (IH (S k) (tick w)); [done|cbn; lia|].
  intros j Hj. destruct (decide (j = k)) as [->|]; [unfold occupied; change (read_file (candidate name k) w <> None); by rewrite E|apply Hk; lia].
Qed.
(** [_candidate_path] finds a name that is free, or comes to one that is too long. *)
Lemma candidate_path_finds name w : proper (text name) -> faultless w ->
  ends (candidate_path dest name) (fun d w' => fs w' = fs w /\ read_file d w = None /\ exists k, d = candidate name k)
    (fun e w' => e = long_name_error /\ exhausted w' name) w.
Proof.
  intros Hp Hf. unfold candidate_path. apply ends_bnd, succeeds_ends, succeeds_gets; [done|]. apply loop_finds; [done|done|lia|]. lia.
Qed.

(** ** An attempt is written, or another program was first *)

Lemma io_runs {A} (m : M World A) w : faultless w -> io m w = m (tick w).
Proof. intros Hf. unfold io. by rewrite Hf. Qed.
Lemma put_runs c w : faultless w -> exists w', put_file temporary c w = (Ok tt, w') /\ faultless w'
  /\ read_file temporary w' = Some c /\ forall q, q <> temporary -> read_file q w' = read_file q w.
Proof.
  intros Hf. unfold put_file. rewrite io_runs by done. eexists. split; [reflexivity|]. split; [done|]. unfold read_file. cbn [fs set_fs].
  split; [apply dict_get_set_eq|]. intros q Hq. by rewrite dict_get_set_ne.
Qed.
Lemma remove_runs w : faultless w -> exists w', remove_file temporary w = (Ok tt, w') /\ faultless w'.
Proof. intros Hf. unfold remove_file. rewrite io_runs by done. by eexists. Qed.
Lemma discard_runs w : faultless w -> faultless (discard temporary w).2.
Proof. intros Hf. unfold discard, mtry. by destruct (remove_runs w Hf) as (w' & -> & ?). Qed.
Lemma arrive_faultless o w : faultless w -> faultless (arrive o w).
Proof. intros Hf. unfold arrive. by repeat case_match. Qed.

(** What an attempt comes to: written, or a file that exists, which happens only when others create files. *)
Definition tried {A} (o : arrival) (x : result A * World) : Prop :=
  faultless x.2 /\ match x.1 with Ok _ => True | Err e => isinstance e FileExistsError = true /\ o <> None end.
Lemma link_tried o d w : faultless w -> read_file d w = None -> is_Some (read_file temporary w) ->
  tried o (link_file o temporary d w).
Proof.
  intros Hf Hd [c Ht]. unfold link_file. rewrite io_runs by done. change (read_file temporary (tick w) = Some c) in Ht.
  assert (read_file temporary (arrive o (tick w)) <> None) as Hn.
  { unfold arrive. destruct o as [[p x]|]; [|congruence].
    destruct (read_file p (tick w)) eqn:E; [congruence|]. unfold read_file in *. cbn [fs set_fs].
    destruct (decide (temporary = p)) as [<-|]; [by rewrite dict_get_set_eq|rewrite dict_get_set_ne by done; congruence]. }
  destruct (read_file temporary (arrive o (tick w))) as [c'|]; [|done].
  destruct (read_file d (arrive o (tick w))) eqn:E; (split; [by apply arrive_faultless|]); [|done].
  split; [done|]. intros ->. unfold read_file in *. cbn in *. congruence.
Qed.
Lemma write_tried d raw o w : faultless w -> d <> temporary -> read_file d w = None ->
  tried o (write_without_overwrite temporary written d raw o w).
Proof.
  intros Hf Hd Hn. unfold write_without_overwrite, mbnd at 1.
  destruct (put_runs [] w Hf) as (w1 & -> & Hf1 & _ & Hn1). unfold finally_, mtry, mbnd.
  destruct (put_runs (take written raw) w1 Hf1) as (w2 & -> & Hf2 & _ & Hn2).
  destruct (put_runs raw w2 Hf2) as (w3 & -> & Hf3 & Ht & Hn3).
  unfold sync_file, sync_directory. rewrite io_runs by done. cbn [mret].
  destruct (link_tried o d (tick w3)) as [Hf4 Hl]; [done| |by exists raw|].
  { change (read_file d w3 = None). by rewrite Hn3, Hn2, Hn1. }
  destruct (link_file o temporary d (tick w3)) as [[[]|e] w4]; cbn [fst snd] in *.
  - destruct (remove_runs w4 Hf4) as (w5 & -> & Hf5). rewrite io_runs by done. split; [by apply discard_runs|done].
  - rewrite (proj1 Hl). split; [by apply discard_runs|exact Hl].
Qed.
(** What an attempt comes to for a name: the same, or the names are exhausted. *)
Definition attempted {A} (o : arrival) (name : pystr) (x : result A * World) : Prop :=
  tried o x \/ (faultless x.2 /\ x.1 = Err long_name_error /\ exhausted x.2 name).
Lemma attempt_tried name raw o w : proper (text name) -> (forall k, candidate name k <> temporary) -> faultless w ->
  attempted o name (export_attempt dest temporary written name raw o w).
Proof.
  intros Hp Hd Hf. unfold export_attempt, mbnd.
  destruct (candidate_path_finds name w Hp Hf) as ([d|e] & w' & -> & Hf' & H); [|by right; destruct H as [-> ?]]. left.
  destruct H as (Hfs & Hn & k & ->). apply write_tried; [done|done|]. unfold read_file in *. by rewrite Hfs.
Qed.
(** However often others are first, when they stop the part is written or its names are exhausted. *)
Lemma loop_writes others name raw : proper (text name) -> (forall k, candidate name k <> temporary) -> forall w, faultless w ->
  ends (export_loop dest temporary written others name raw) (fun _ _ => True) (fun e w' => e = long_name_error /\ exhausted w' name) w.
Proof.
  intros Hp Hd. induction others as [|o others IH]; intros w Hf; cbn [export_loop].
  - pose proof (attempt_tried name raw None w Hp Hd Hf) as H. unfold ends.
    destruct (export_attempt dest temporary written name raw None w) as [r w']. exists r, w'. split; [done|].
    destruct H as [[Hf' H]|(Hf' & H & He)]; cbn [fst snd] in *; (split; [done|]); [by destruct r; [|destruct H]|by rewrite H].
  - pose proof (attempt_tried name raw o w Hp Hd Hf) as H. unfold ends, mtry.
    destruct (export_attempt dest temporary written name raw o w) as [[d|e] w']; cbn [fst snd] in *.
    { exists (Ok d), w'. destruct H as [[Hf' _]|(_ & H & _)]; [done|discriminate H]. }
    destruct H as [[Hf' [-> _]]|(Hf' & [= ->] & He)]; cbn [fst snd] in *; [by apply IH|].
    by exists (Err long_name_error), w'.
Qed.

(** ** The whole export *)

(** The sanitized name of an attachment is the name of a file, and the temporary file is none of its candidates. *)
Definition well_named (p : MessagePart) : Prop :=
  exists z, sanitize_attachment_name nfc (get_or [] (part_filename p)) = Ok z
    /\ proper (text (sname z)) /\ forall k, candidate (sname z) k <> temporary.
(** The stored file of a message is there with its recorded hash. *)
Definition stored_as (w : World) (m : message) (raw : bytes) : Prop :=
  exists path hash p, relative_path m = Some path /\ path <> ""%string /\ file_hash m = Some hash /\ is_hash hash = true
    /\ resolve_inside root path = Ok p /\ join p <> temporary /\ read_file (join p) w = Some raw /\ hexdigest raw = fold_hash hash.
Lemma stored_kept w w' m raw : kept temporary w w' -> stored_as w m raw -> stored_as w' m raw.
Proof.
  intros [_ Hk] (path & hash & p & H1 & H2 & H3 & H4 & H5 & H6 & H7 & H8). exists path, hash, p. split_and!; auto.
Qed.
(** The names of one of the parts are exhausted. *)
Definition stuck (ps : list MessagePart) (e : exn) (w : World) : Prop :=
  e = long_name_error /\ exists p z, p ∈ ps /\ sanitize_attachment_name nfc (get_or [] (part_filename p)) = Ok z /\ exhausted w (sname z).
Lemma stuck_sub ps qs e w : (forall p, p ∈ ps -> p ∈ qs) -> stuck ps e w -> stuck qs e w.
Proof. intros H (He & p & z & Hp & Hz). split; [done|]. exists p, z. auto. Qed.

Hypothesis never : forall n, cancelled n = false.
Lemma cancel_runs w : faultless w -> check_cancel cancelled w = (Ok tt, w).
Proof. intros Hf. unfold check_cancel, raise_if_cancelled. by rewrite never. Qed.
Lemma parts_run others id l : Forall well_named (wanted l) -> forall r w, faultless w ->
  ends (export_parts nfc cancelled dest temporary written others id l r)
    (fun r' _ => skipped_count r' = skipped_count r) (stuck (wanted l)) w.
Proof.
  induction l as [|p l IH]; intros Hl r w Hf; cbn [export_parts]; [by apply ends_ret|].
  apply ends_bnd, succeeds_ends. exists tt, w. split; [by apply cancel_runs|]. split; [done|]. unfold wanted in Hl |- *. cbn [List.filter] in *.
  destruct ((if content_id p is Some _ then true else false) || is_inline p); cbn [negb] in *; [by apply IH|].
  apply Forall_cons in Hl as [(z & Hz & Hp & Ht) Hl]. apply ends_bnd, succeeds_ends, succeeds_gets; [done|]. apply ends_bnd.
  unfold export_part. apply ends_bnd. rewrite Hz. apply succeeds_ends, succeeds_lift; [done|]. apply ends_bnd.
  eapply ends_mono; [by apply loop_writes| |].
  - intros d w1 _ Hf1. apply ends_ret; [done|]. eapply ends_mono; [by apply IH|done|]. intros e w2. apply stuck_sub. intros q Hq. by right.
  - intros e w1 [-> He]. split; [done|]. exists p, z. split; [by left|done].
Qed.
(** With what was written. *)
Lemma parts_export others id l w0 r ps w : Forall well_named (wanted l) -> faultless w -> exported temporary w0 r ps w ->
  ends (export_parts nfc cancelled dest temporary written others id l r)
    (fun r' w' => (skipped_count r' = skipped_count r /\ exported temporary w0 r' (ps ++ wanted l) w') /\ kept temporary w w') (stuck (wanted l)) w.
Proof.
  intros Hl Hf Hw. apply ends_kept; [apply kept_parts|]. destruct (parts_run others id l Hl r w Hf) as (res & w' & E & Hf' & H).
  pose proof (triple_export_parts nfc cancelled dest temporary written w0 others id l r ps w Hw) as Ht. rewrite E in Ht.
  exists res, w'. split_and!; [done|done|]. by destruct res.
Qed.
Definition all_wanted (raws : list bytes) : list MessagePart := concat (map (fun raw => wanted (render raw)) raws).
Lemma messages_run others w0 l : forall raws r ps w, faultless w -> exported temporary w0 r ps w ->
  Forall2 (stored_as w) (List.filter not_purged l) raws -> Forall (fun raw => Forall well_named (wanted (render raw))) raws ->
  ends (export_messages root nfc render cancelled dest temporary written others l r)
    (fun r' w' => exported temporary w0 r' (ps ++ all_wanted raws) w'
                  /\ skipped_count r' = (skipped_count r + Z.of_nat (length l - length raws))%Z) (stuck (all_wanted raws)) w.
Proof.
  induction l as [|m l IH]; intros raws r ps w Hf Hw Hs Hn; cbn [export_messages List.filter] in *.
  { apply Forall2_nil_inv_l in Hs as ->. apply ends_ret; [done|]. unfold all_wanted. cbn. rewrite app_nil_r. split; [done|lia]. }
  apply ends_bnd, succeeds_ends. exists tt, w. split; [by apply cancel_runs|]. split; [done|]. unfold message_storage. unfold not_purged at 1 in Hs.
  assert (forall k raws, Forall2 (stored_as w) (List.filter not_purged k) raws -> (length raws <= length k)%nat) as Hle.
  { intros k rs Hk%Forall2_length. rewrite <- Hk. clear. induction k as [|x k IHk]; cbn; [lia|]. case_match; cbn; lia. }
  apply ends_bnd. destruct (m_local_state m == Purged); cbn [negb] in Hs.
  - apply succeeds_ends, succeeds_lift; [done|]. eapply ends_mono; [by apply (IH raws _ ps)| |done]. intros r' w' [H1 H2] _. cbn [skipped_count] in *.
    specialize (Hle l raws Hs). split; [done|]. cbn [length]. lia.
  - apply Forall2_cons_inv_l in Hs as (raw & raws' & (path & hash & p & E1 & E2 & E3 & E4 & E5 & E6 & E7 & E8) & Hs & ->).
    apply Forall_cons in Hn as [Hn1 Hn]. rewrite E1, E3. unfold given. rewrite (Prelude.eqb_neq path ""%string) by done.
    assert ((hash == "")%string = false) as -> by (apply Prelude.eqb_neq; intros ->; vm_compute in E4; discriminate E4).
    apply succeeds_ends, succeeds_lift; [done|]. apply ends_bnd.
    eapply ends_mono; [apply (ends_kept (read_verified root path hash) (fun c _ => c = raw) (stuck (all_wanted (raw :: raws')))); [apply kept_read|by eapply succeeds_ends, read_verified_runs]| |done].
    intros raw' w1 [-> Hk1] Hf1. apply ends_bnd.
    eapply ends_mono; [apply (parts_export others (m_id m) (render raw) w0 r ps w1); [done|done|by apply (exported_step temporary w0 r ps w)]| |].
    2: { intros e w2. apply stuck_sub. intros q Hq. apply elem_of_app. by left. }
    intros r1 w2 [[H1 H2] Hk2] Hf2.
    eapply ends_mono; [apply (IH raws' r1 (ps ++ wanted (render raw)))|..]; [done|done| |done| |].
    + eapply Forall2_impl; [exact Hs|]. intros x y Hx. by apply (stored_kept w1 w2), (stored_kept w w1).
    + intros r2 w3 [H3 H4] _. unfold all_wanted in *. cbn [map concat length]. rewrite app_assoc. specialize (Hle l raws' Hs). split; [done|lia].
    + intros e w3. apply stuck_sub. intros q Hq. apply elem_of_app. by right.
Qed.

(** C37. The export ends: without faults of the storage and cancellation, with the file of every message that is not purged
    stored with its hash, attachments whose sanitized names are names of files, and a temporary name that is neither one
    of their candidates nor a stored file, the export either returns or raises, however often other programs take a name
    first, as long as they do so finitely often for each part. When it returns, every part it selects is in a new file
    with its bytes, in order, and the skipped messages are the purged ones. It raises only the error of a name that is too
    long, and only when all shorter names of one of the parts are taken. *)
Theorem export_returns others l raws w : faultless w ->
  Forall2 (stored_as w) (List.filter not_purged l) raws -> Forall (fun raw => Forall well_named (wanted (render raw))) raws ->
  let '(r, w') := export_attachments root nfc render cancelled dest temporary written others l w in
  match r with
  | Ok res => Forall2 (fun d p => published temporary w w' d (payload p)) (files res) (all_wanted raws) /\ NoDup (files res)
      /\ skipped_count res = Z.of_nat (length l - length raws)
  | Err e => stuck (all_wanted raws) e w'
  end.
Proof.
  intros Hf Hs Hn. assert (exported temporary w (ExportResult [] 0 [] [] []) [] w) as Hw by (by split; [|split; [constructor|constructor]]).
  destruct (messages_run others w l raws (ExportResult [] 0 [] [] []) [] w Hf Hw Hs Hn) as (r & w' & E & Hf' & H).
  unfold export_attachments, mbnd. rewrite E. destruct r as [res|e]; [|exact H]. rewrite cancel_runs by done.
  destruct H as [(_ & H1 & H2) H3]. cbn. by split_and!.
Qed.
End Complete.

(** ** An export in a directory where another program writes too *)

Definition sample_mail : bytes := lit "mail".
Definition sample_hash : string := Eval vm_compute in hexdigest sample_mail.
Definition sample_row (id : Z) (state : local_state) : message :=
  Message id "acct" None "k" "imap:x" state None (Some "eml/acct/x.eml"%string) (Some sample_hash) None
    None None None None None None false None None None None None None.
Definition sample_world : World :=
  MkWorld (MkDb [] [] [] [] [] [] [] [] [] 3 2 1 1 [] [] 1) None [("eml/acct/x.eml"%string, sample_mail)] [] [] None 0
    (fun _ => None) [] [].
Definition sample_parts (_ : bytes) : list MessagePart :=
  [Part None (Some (lit "a.txt")) [1%Z] false; Part None (Some (lit "logo.png")) [2%Z] true].
Definition sample_others (_ : nat) : list arrival := [Some ("/d/a.txt"%string, lit "other")].
Notation sample_temporary := "/d/.mail-dock-attachment-1.tmp"%string.

Definition sample_export : result export_result * World :=
  export_attachments ["data"%string] (fun s => s) sample_parts (fun _ => false) ["d"%string] sample_temporary 0 sample_others
    [sample_row 1 Active; sample_row 2 Purged] sample_world.
Example sample_files : sample_export.1 = Ok (ExportResult ["/d/a (1).txt"%string] 1 [] [] []).
Proof. vm_compute. reflexivity. Qed.
Lemma export_returns_witness : exists r,
  sample_export.1 = Ok r /\ skipped_count r = 1%Z
  /\ Forall2 (fun d p => published sample_temporary sample_world sample_export.2 d (payload p)) (files r)
       [Part None (Some (lit "a.txt")) [1%Z] false].
Proof.
  assert (Forall2 (stored_as ["data"%string] sample_temporary sample_world) (List.filter not_purged [sample_row 1 Active; sample_row 2 Purged])
    [sample_mail]) as H1.
  { constructor; [|constructor]. exists "eml/acct/x.eml"%string, sample_hash, ["eml"%string; "acct"%string; "x.eml"%string].
    split_and!; try (vm_compute; reflexivity); discriminate. }
  assert (Forall (fun raw => Forall (well_named (fun s => s) ["d"%string] sample_temporary) (wanted (sample_parts raw))) [sample_mail]) as H2.
  { constructor; [|constructor]. constructor; [|constructor]. eexists. split; [vm_compute; reflexivity|].
    split; [split; [|vm_compute; reflexivity]|].
    + apply mem_false. vm_compute. reflexivity.
    + intros [|k]; unfold candidate, path_of, file_of; cbn [candidate_name_at]; [discriminate|].
      rewrite text_counted. discriminate. }
  assert (let '(r, w') := sample_export in match r with
    | Ok res => Forall2 (fun d p => published sample_temporary sample_world w' d (payload p)) (files res) (all_wanted sample_parts [sample_mail])
        /\ NoDup (files res) /\ skipped_count res = 1%Z
    | Err e => stuck (fun s => s) ["d"%string] (all_wanted sample_parts [sample_mail]) e w'
    end) as H
    by exact (export_returns ["data"%string] (fun s => s) sample_parts (fun _ => false) ["d"%string] sample_temporary 0 (fun _ => eq_refl)
         sample_others [sample_row 1 Active; sample_row 2 Purged] [sample_mail] sample_world (fun _ => eq_refl) H1 H2).
  revert H. generalize sample_files. generalize sample_export. intros [r w'] E H. cbn [fst] in E. subst r.
  destruct H as (H & _ & Hc). eexists. split; [reflexivity|]. split; [exact Hc|exact H].
Defined.

(** A name of the longest length that is taken: with the counter it is longer than a name may be, and the error of looking for
    it escapes as it is, from an export of two attachments of that name as well as when one is saved. *)
Definition longest_name : pystr := replicate 251 97%Z ++ lit ".txt".
Definition longest_part : MessagePart := Part None (Some longest_name) [1%Z] false.
Definition taken_world : World := set_fs ((path_of ["d"%string] longest_name, []) :: fs sample_world) sample_world.
Lemma longest_name_escapes :
  let nfc := fun s : pystr => s in
  (export_attachments ["data"%string] nfc (fun _ => [longest_part; longest_part]) (fun _ => false) ["d"%string] sample_temporary 0
     (fun _ => []) [sample_row 1 Active] sample_world).1 = Err long_name_error
  /\ (prepare_attachment_save ["data"%string] nfc (fun _ => [longest_part]) ["d"%string] "eml/acct/x.eml" sample_hash 0 None taken_world).1
     = Err long_name_error.
Proof. vm_compute. by split. Qed.
