(* ===== verification/Uuid.v ===== *)
(** * Uuid: the identifiers [uuid.UUID] reads

    [UUID(s)] of the standard library with everything it accepts, its text and its version. *)

From S2P Require Import Prelude Errors PyText Json.

Open Scope list_scope.

(** [int(s, 16)] *)
Definition decimal_value (c : Z) : option Z := option_map (fun z => c - z)%Z (find (fun z => (z <=? c) && (c <? z + 10))%Z decimal_zeros).
(** The decimal digits of other scripts are digits too. *)
Definition to_ascii_digits (l : pystr) : pystr := map (fun c => match decimal_value c with Some d => 48 + d | None => c end)%Z l.
Fixpoint base16_digits (seen : bool) (n : Z) (l : pystr) : option Z :=
  match l with
  | [] => if seen then Some n else None
  | c :: l =>
      match hex_value c with
      | Some d => base16_digits true (16 * n + d) l
      | None => if (c =? 95)%Z && seen then match l with d :: _ => if hex_value d then base16_digits false n l else None | [] => None end
                else None
      end
  end.
Definition base16_number (l : pystr) : option Z :=
  match l with
  | 48%Z :: x :: l' => if mem x [88; 120]%Z
                       then base16_digits false 0 (match l' with 95%Z :: l' => l' | _ => l' end)
                       else base16_digits false 0 l
  | _ => base16_digits false 0 l
  end.
Fixpoint drop_spaces (l : pystr) : pystr := match l with c :: l' => if is_space c then drop_spaces l' else l | [] => [] end.
Definition strip (l : pystr) : pystr := rstrip is_space (drop_spaces l).
Definition int16 (l : pystr) : option Z :=
  match to_ascii_digits (strip l) with
  | 43%Z :: l => base16_number l
  | 45%Z :: l => option_map Z.opp (base16_number l)
  | l => base16_number l
  end.
(** [UUID(s)] *)
Fixpoint remove_all (fuel : nat) (p l : pystr) : pystr :=   (* [s.replace(p, "")] *)
  match fuel, l with
  | S fuel, c :: l' => match strip_prefix p l with Some r => remove_all fuel p r | None => c :: remove_all fuel p l' end
  | _, _ => []
  end.
Definition is_brace (c : Z) : bool := ((c =? 123) || (c =? 125))%Z.
Fixpoint drop_braces (l : pystr) : pystr := match l with c :: l' => if is_brace c then drop_braces l' else l | [] => [] end.
Fixpoint hex_digits (k : nat) (n : Z) : bytes :=
  match k with O => [] | S k => hex_digits k (n / 16) ++ [hex_digit (n mod 16)] end.
Definition hyphenated (l : bytes) : bytes :=
  take 8 l ++ 45%Z :: take 4 (drop 8 l) ++ 45%Z :: take 4 (drop 12 l) ++ 45%Z :: take 4 (drop 16 l) ++ 45%Z :: drop 20 l.
Definition uuid_int (s : string) : option Z :=
  let l := code_points s in
  let l := remove_all (length l) (lit "urn:") l in
  let l := remove_all (length l) (lit "uuid:") l in
  let l := List.filter (fun c => negb (c =? 45)%Z) (rstrip is_brace (drop_braces l)) in
  if negb (length l =? 32)%nat then None else
  match int16 l with
  | Some n => if ((0 <=? n) && (n <? 2 ^ 128))%Z then Some n else None
  | None => None
  end.
(** [str(UUID(s))] *)
Definition uuid_text (s : string) : option bytes := option_map (fun n => hyphenated (hex_digits 32 n)) (uuid_int s).
(** [UUID(s).version], which only the RFC 4122 variant has. *)
Definition uuid_version (n : Z) : option Z :=
  if (Z.land (Z.shiftr n 62) 3 =? 2)%Z then Some (Z.land (Z.shiftr n 76) 15) else None.
Example uuid_ex : option_map uuid_version (uuid_int "{12345678-1234-4abc-9def-0123456789AB}") = Some (Some 4%Z).
Proof. vm_compute. reflexivity. Qed.
