(* ===== verification/StorageRoot.v ===== *)
(** * StorageRoot: which directory is the storage

    The marker file, the probes and the choice of the root in [infrastructure/storage/storage_root.py], with
    [infrastructure/storage/detach.py]. What the operating system answers about a directory is given: a value, or an
    [OSError] with its numbers. A schema that is a float is refused here, where Python takes 1.0 for 1; paths are those of
    POSIX systems; the layout, the drive kinds and Windows calls are left out. [StorageLock] is its own file. *)

From S2P Require Import Prelude Errors PyText PyTime Json StorageLock Uuid.

Open Scope list_scope.

(** ** Errors of the operating system *)

Record os_error := OsError { errno : option Z; winerror : option Z; os_class : exc_class; os_message : string }.
Definition DETACH_WINERRORS : list Z := [6; 21; 55; 433; 995; 1117; 1167]%Z.
(** [EIO], [ENXIO], [ENODEV], [ESTALE] *)
Definition DETACH_ERRNOS : list Z := [5; 6; 19; 116]%Z.
Definition one_of (l : list Z) (n : option Z) : bool := match n with Some n => mem n l | None => false end.
(** [classify_os_error]: [None] for the error itself. *)
Definition classify_os_error (e : os_error) : option exn :=
  if one_of DETACH_WINERRORS (winerror e) || one_of DETACH_ERRNOS (errno e) then Some (Exn StorageDetachedError (os_message e)) else None.
(** [classify_sqlite_error], for the name of the error. *)
Definition classify_sqlite_error (name message : string) : option exn :=
  if String.prefix "SQLITE_IOERR" name || mem name ["SQLITE_READONLY_DBMOVED"; "SQLITE_CANTOPEN"]%string
  then Some (Exn StorageDetachedError message) else None.
(** [_raise_storage_os_error] *)
Definition storage_os_error (e : os_error) : exn :=
  match classify_os_error e with Some x => x | None => Exn StorageRootMissingError (os_message e) end.
Notation answer A := (A + os_error)%type.

(** ** The marker *)

Inductive RootProbe := OK | MISSING | FOREIGN.
#[export] Instance root_probe_eq_dec : EqDecision RootProbe.
Proof. solve_decision. Defined.
Record RootMarker := Marker { schema : json; root_uuid : string; created_at : string; app : string }.
Definition MARKER_SCHEMA_VERSION : Z := 1.
Definition APP_NAME : string := "mail-dock".
(** [schema == MARKER_SCHEMA_VERSION]; [True] equals 1. *)
Definition is_schema (j : option json) : bool := match j with Some (JInt n) => (n =? MARKER_SCHEMA_VERSION)%Z | Some (JBool b) => b | _ => false end.
(** [_read_marker], of the answer to reading the file. *)
Definition read_marker (file : answer bytes) : result RootMarker :=
  let invalid := raise StorageForeignRootError "Invalid storage marker" in
  match file with
  | inr e => Err (storage_os_error e)
  | inl text =>
      if negb (utf8_valid false text) then raise ValueError "invalid start byte" else
      match loads text with
      | Some (JObj raw) =>
          match dict_get "schema"%string raw, dict_get "root_uuid"%string raw, dict_get "created_at"%string raw, dict_get "app"%string raw with
          | Some s, Some (JStr u), Some (JStr c), Some (JStr a) =>
              if negb (is_schema (Some s)) || negb (a == APP_NAME)%string then invalid else
              match uuid_int u, parse_datetime c with
              | Some n, Some _ => if bool_decide (uuid_version n = Some 4%Z) then Ok (Marker s u c a) else invalid
              | _, _ => invalid
              end
          | _, _, _, _ => invalid
          end
      | _ => invalid
      end
  end.
(** [as_dict], and the text [initialize_root] writes. *)
Definition as_dict (m : RootMarker) : json :=
  JObj [("schema", schema m); ("root_uuid", JStr (root_uuid m)); ("created_at", JStr (created_at m)); ("app", JStr (app m))]%string.
Definition marker_text (m : RootMarker) : bytes := print (as_dict m) ++ [10%Z].

(** ** Probing *)

(** The answers about a directory. *)
Record directory := Directory { is_dir : answer bool; marker_is_file : answer bool; marker_file : answer bytes }.
Definition asked (a : answer bool) (k : result RootProbe) : result RootProbe :=
  match a with
  | inr e => match classify_os_error e with Some x => Err x | None => Ok MISSING end
  | inl false => Ok MISSING
  | inl true => k
  end.
Definition probe (d : directory) (expected_uuid : option string) : result RootProbe :=
  asked (is_dir d) (asked (marker_is_file d)
    match read_marker (marker_file d) with
    | Ok m => Ok (match expected_uuid with
                  | None => OK
                  | Some u => if (root_uuid m == u)%string then OK else FOREIGN
                  end)
    | Err e => if isinstance e StorageForeignRootError then Ok FOREIGN else Err e
    end).

Section Resolve.
Context (normalize : string -> string) (look : string -> directory).   (* [expanduser().resolve()]; the answers *)

(** [_normalized_candidates] *)
Definition normalized_candidates (candidates : list string) : list string :=
  fold_left (fun l c => let n := normalize c in if mem n l then l else l ++ [n]) candidates [].
Record RootResolution := Resolution { path : option string; the_probe : RootProbe }.
Fixpoint resolve_loop (foreign_path : option string) (l : list string) (expected_uuid : option string) : result RootResolution :=
  match l with
  | [] => Ok (match foreign_path with Some p => Resolution (Some p) FOREIGN | None => Resolution None MISSING end)
  | c :: l =>
      let? p := probe (look c) expected_uuid in
      match p with
      | OK => Ok (Resolution (Some c) OK)
      | FOREIGN => resolve_loop (match foreign_path with Some _ => foreign_path | None => Some c end) l expected_uuid
      | MISSING => resolve_loop foreign_path l expected_uuid
      end
  end.
Definition resolve_root (candidates : list string) (expected_uuid : option string) : result RootResolution :=
  resolve_loop None (normalized_candidates candidates) expected_uuid.

(** ** Free space *)

Definition WARNING_FREE_BYTES : Z := 20 * 1024 ^ 3.
Definition MINIMUM_FREE_BYTES : Z := 5 * 1024 ^ 3.
Inductive SpaceStatus := SpaceOk | SpaceWarning.
Definition free_space (a : answer Z) : result Z := match a with inl n => Ok n | inr e => Err (storage_os_error e) end.
Definition check_free_space (a : answer Z) : result SpaceStatus :=
  let? available := free_space a in
  if (available <? MINIMUM_FREE_BYTES)%Z then raise InsufficientSpaceError "Storage root has too few free bytes"
  else Ok (if (available <? WARNING_FREE_BYTES)%Z then SpaceWarning else SpaceOk).
End Resolve.

(** ** Making a root *)

(** The answers while a root is made: whether the path exists and is a directory, the result of making it, a marker that
    another program makes meanwhile, how many bytes are written, and the errors of creating, writing and syncing. *)
Record making := Making {
  m_exists : answer bool; m_is_dir : answer bool; m_mkdir : answer unit; m_arrives : option bytes;
  m_open : answer unit; m_written : nat; m_write : answer unit; m_sync : answer unit }.
(** [initialize_root], over the content of the marker file. *)
Definition initialize_root (a : making) (uuid4 : string) (now : datetime) : M (option bytes) RootMarker :=
  let storage {A} (x : answer A) : M (option bytes) A := match x with inl v => mret v | inr e => mthrow (storage_os_error e) end in
  let reread : M (option bytes) RootMarker := fun s => match s with
    | Some text => (read_marker (inl text), s)
    | None => (raise StorageRootMissingError "No such file or directory", s)
    end in
  let! there := storage (m_exists a) in
  let! usable := if there then storage (m_is_dir a) else mret true in
  if negb usable then mraise StorageRootMissingError "Storage root is not a directory" else
  storage (m_mkdir a) ;!
  let! marked := mget in
  match marked with
  | Some _ => reread
  | None =>
      mmodify (fun _ => m_arrives a) ;!
      let! s := mget in
      match s with
      | Some _ => reread                                           (* [FileExistsError] *)
      | None =>
          let marker := Marker (JInt MARKER_SCHEMA_VERSION) uuid4 (isoformat now) APP_NAME in
          storage (m_open a) ;!
          mmodify (fun _ => Some (match m_write a with inl _ => marker_text marker | inr _ => take (m_written a) (marker_text marker) end)) ;!
          storage (m_write a) ;! storage (m_sync a) ;! mret marker
      end
  end.

(** ** The choice of the root *)

Section ResolveFacts.
Context (normalize : string -> string) (look : string -> directory) (expected : option string).
#[local] Notation probes p q := (probe (look p) expected = Ok q).

Lemma candidates_loop_spec l : forall f r, resolve_loop look f l expected = Ok r ->
  match the_probe r with
  | OK => exists l1 p l2, l = l1 ++ p :: l2 /\ path r = Some p /\ probes p OK /\ Forall (fun q => ~ probes q OK) l1
  | FOREIGN => Forall (fun q => ~ probes q OK) l /\
      match f with
      | Some p => path r = Some p
      | None => exists l1 p l2, l = l1 ++ p :: l2 /\ path r = Some p /\ probes p FOREIGN /\ Forall (fun q => probes q MISSING) l1
      end
  | MISSING => path r = None /\ f = None /\ Forall (fun q => probes q MISSING) l
  end.
Proof.
  induction l as [|c l IH]; intros f r; cbn [resolve_loop].
  { destruct f; intros [= <-]; cbn; [split; [constructor|done]|by split_and!]. }
  destruct (probe (look c) expected) as [q|e] eqn:Eq; [|done]. cbn [rbind]. destruct q.
  - intros [= <-]. cbn. exists [], c, l. by split_and!.
  - intros Hr%IH. destruct (the_probe r).
    + destruct Hr as (l1 & p & l2 & -> & H1 & H2 & H3). exists (c :: l1), p, l2. split_and!; try done. constructor; [by rewrite Eq|done].
    + destruct Hr as (H1 & H2 & H3). split_and!; [done|done|by constructor].
    + destruct Hr as (H1 & H2). split; [constructor; [by rewrite Eq|done]|]. destruct f; [done|].
      destruct H2 as (l1 & p & l2 & -> & H3 & H4 & H5). exists (c :: l1), p, l2. split_and!; try done. by constructor.
  - intros Hr%IH. destruct (the_probe r).
    + destruct Hr as (l1 & p & l2 & -> & H1 & H2 & H3). exists (c :: l1), p, l2. split_and!; try done. constructor; [by rewrite Eq|done].
    + destruct Hr as (_ & H & _). by destruct f.
    + destruct Hr as (H1 & H2). split; [constructor; [by rewrite Eq|done]|]. destruct f as [p|]; [done|]. exists [], c, l. by split_and!.
Qed.
(** The first candidate that is the expected storage is chosen; a foreign one is reported only when there is none, and a
    missing one only when nothing at all is there. *)
Theorem resolve_root_spec candidates r : resolve_root normalize look candidates expected = Ok r ->
  let l := normalized_candidates normalize candidates in
  match the_probe r with
  | OK => exists l1 p l2, l = l1 ++ p :: l2 /\ path r = Some p /\ probes p OK /\ Forall (fun q => ~ probes q OK) l1
  | FOREIGN => Forall (fun q => ~ probes q OK) l /\
      exists l1 p l2, l = l1 ++ p :: l2 /\ path r = Some p /\ probes p FOREIGN /\ Forall (fun q => probes q MISSING) l1
  | MISSING => path r = None /\ Forall (fun q => probes q MISSING) l
  end.
Proof.
  intros H%candidates_loop_spec. cbv zeta. destruct (the_probe r); [done|by destruct H as (? & _ & ?)|done].
Qed.
End ResolveFacts.

(** ** A root that was made is found again *)

(** A marker of this version is read back. *)
Definition proper_marker (m : RootMarker) : Prop :=
  schema m = JInt 1 /\ app m = APP_NAME /\ text (root_uuid m) /\ text (created_at m)
  /\ (exists n, uuid_int (root_uuid m) = Some n /\ uuid_version n = Some 4%Z) /\ is_Some (parse_datetime (created_at m)).
Lemma marker_read m : proper_marker m -> read_marker (inl (marker_text m)) = Ok m.
Proof.
  intros (Hs & Ha & Hu & Hc & (n & Hn & Hv) & [t Ht]). destruct m as [s u c a]. cbn [schema app root_uuid created_at] in *. subst s a.
  set (j := as_dict (Marker (JInt 1) u c APP_NAME)).
  assert (plain j = true) as Hp by (vm_compute; reflexivity).
  assert (valid_text j = true) as Hvt.
  { unfold text in *. unfold j, as_dict. cbn [schema app root_uuid created_at valid_text forallb fst snd]. rewrite Hu, Hc. vm_compute. reflexivity. }
  assert (utf8_valid false (print j ++ [10%Z]) = true) as Hutf by (rewrite utf8_valid_app; [done|by apply utf8_valid_print]).
  unfold read_marker, marker_text. fold j. rewrite Hutf. cbn [negb]. rewrite loads_printed by done. unfold j, as_dict.
  cbn [schema app root_uuid created_at].
  change (dict_get "schema" _) with (Some (JInt 1)). change (dict_get "root_uuid" _) with (Some (JStr u)).
  change (dict_get "created_at" _) with (Some (JStr c)). change (dict_get "app" _) with (Some (JStr APP_NAME)). cbv iota.
  change (negb (is_schema (Some (JInt 1))) || negb (APP_NAME == APP_NAME)%string) with false. cbv iota.
  rewrite Hn, Ht, bool_decide_eq_true_2 by done. reflexivity.
Qed.
(** What [uuid4] draws. *)
Definition is_uuid4 (s : string) : Prop := text s /\ exists n, uuid_int s = Some n /\ uuid_version n = Some 4%Z.

(** A root that was made is found again: when [initialize_root] returns, whatever happened before or meanwhile, the marker
    file holds the marker it returned, and a probe for that identifier finds the root; without errors it returns, unless
    the marker that is there is none. *)
Theorem initialized_root_is_found a uuid4 now s : is_uuid4 uuid4 -> valid now = true ->
  let '(r, s') := initialize_root a uuid4 now s in
  match r with
  | Ok m => exists text, s' = Some text /\ read_marker (inl text) = Ok m
      /\ probe (Directory (inl true) (inl true) (inl text)) (Some (root_uuid m)) = Ok OK
      /\ (s = None -> m_arrives a = None -> root_uuid m = uuid4)
  | Err e => e = Exn StorageRootMissingError "Storage root is not a directory" \/ (exists o, e = storage_os_error o)
      \/ (exists text, s' = Some text /\ read_marker (inl text) = Err e)
  end.
Proof.
  intros (Hu & n & Hn & Hv) Hnow.
  assert (forall text m, read_marker (inl text) = Ok m -> probe (Directory (inl true) (inl true) (inl text)) (Some (root_uuid m)) = Ok OK) as Hprobe.
  { intros text m Hm. unfold probe. cbn [is_dir marker_is_file marker_file asked]. by rewrite Hm, Prelude.eqb_refl. }
  assert (forall x : answer bool, match x with inl _ => True | inr e => exists o, storage_os_error e = storage_os_error o end) as Hos
    by (intros [|e]; eauto).
  unfold initialize_root. unfold mbnd at 1. destruct (m_exists a) as [there|e]; [|by right; left; exists e]. cbn [mret].
  unfold mbnd at 1.
  assert (exists x : bool + exn, (if there then match m_is_dir a with inl v => mret v | inr e => mthrow (storage_os_error e) end else mret true) s
    = (match x with inl b => Ok b | inr e => Err e end, s) /\ match x with inl _ => True | inr e => exists o, e = storage_os_error o end) as (x & -> & Hx).
  { destruct there; [|by exists (inl true)]. destruct (m_is_dir a) as [v|e]; [by exists (inl v)|]. exists (inr (storage_os_error e)). split; [done|by exists e]. }
  destruct x as [[]|e]; cbn [negb]; [|by left|by right; left].
  unfold mbnd at 1. destruct (m_mkdir a) as [[]|e]; [|by right; left; exists e]. cbn [mret]. unfold mbnd at 1, mget.
  destruct s as [text|].
  { destruct (read_marker (inl text)) as [m|e] eqn:E; [|by right; right; exists text].
    exists text. split_and!; [done|done|by apply Hprobe|done]. }
  unfold mbnd at 1, mmodify. unfold mbnd at 1. destruct (m_arrives a) as [text|].
  { destruct (read_marker (inl text)) as [m|e] eqn:E; [|by right; right; exists text].
    exists text. split_and!; [done|done|by apply Hprobe|done]. }
  unfold mbnd at 1. destruct (m_open a) as [[]|e]; [|by right; left; exists e]. cbn [mret]. unfold mbnd at 1. unfold mbnd at 1.
  destruct (m_write a) as [[]|e]; [|by right; left; exists e]. cbn [mret]. unfold mbnd. destruct (m_sync a) as [[]|e]; [|by right; left; exists e].
  cbn [mret]. set (m := Marker _ _ _ _).
  assert (read_marker (inl (marker_text m)) = Ok m) as Hm.
  { apply marker_read. split_and!; try done; [by apply isoformat_text|by exists n|]. exists now. by apply parse_isoformat. }
  exists (marker_text m). split_and!; [done|done|by apply Hprobe|done].
Qed.
(** An error while the marker is written leaves a part of it: the directory then counts as foreign, and cannot be made a
    root any more. *)
Definition full_disk : os_error := OsError (Some 28%Z) None OSError "No space left on device".
Definition failing : making := Making (inl true) (inl true) (inl tt) None (inl tt) 10 (inr full_disk) (inl tt).
Definition working_again : making := Making (inl true) (inl true) (inl tt) None (inl tt) 0 (inl tt) (inl tt).
Definition sample_uuid : string := "123e4567-e89b-42d3-a456-426614174000".
Lemma partial_marker_is_foreign :
  let s := (initialize_root failing sample_uuid (DateTime 2024 5 1 12 0 0 0) None).2 in
  (initialize_root working_again sample_uuid (DateTime 2024 5 1 12 0 0 0) s).1 = raise StorageForeignRootError "Invalid storage marker"
  /\ option_map (fun text => probe (Directory (inl true) (inl true) (inl text)) None) s = Some (Ok FOREIGN).
Proof. split; vm_compute; reflexivity. Qed.
(** A marker that is not UTF-8 is no foreign one: the error of the decoder escapes. *)
Lemma undecodable_marker_escapes : probe (Directory (inl true) (inl true) (inl [255%Z])) None = raise ValueError "invalid start byte".
Proof. reflexivity. Qed.
Lemma initialized_root_is_found_witness : exists m text,
  initialize_root working_again sample_uuid (DateTime 2024 5 1 12 0 0 0) None = (Ok m, Some text)
  /\ probe (Directory (inl true) (inl true) (inl text)) (Some (root_uuid m)) = Ok OK /\ root_uuid m = sample_uuid.
Proof.
  assert (is_uuid4 sample_uuid) as Hu.
  { split; [vm_compute; reflexivity|]. exists 0x123e4567e89b42d3a456426614174000%Z. split; vm_compute; reflexivity. }
  generalize (initialized_root_is_found working_again sample_uuid (DateTime 2024 5 1 12 0 0 0) None Hu eq_refl).
  assert (is_ok (initialize_root working_again sample_uuid (DateTime 2024 5 1 12 0 0 0) None).1 = true) as Hok by (vm_compute; reflexivity).
  revert Hok. destruct (initialize_root working_again sample_uuid (DateTime 2024 5 1 12 0 0 0) None) as [[m|e] s']; cbn [fst is_ok]; [|discriminate].
  intros _ (text & -> & _ & Hp & Hid). exists m, text. split; [reflexivity|]. split; [exact Hp|]. exact (Hid eq_refl eq_refl).
Defined.
