(* ===== verification/UrlText.v ===== *)
(** * UrlText: what [urllib.parse] does with the URLs of the OAuth client

    [quote], [urlencode], [unquote], [parse_qsl] and [urlsplit] of the standard library, on the UTF-8 bytes of the
    strings, and that [parse_qsl] reads back what [urlencode] writes. *)

From S2P Require Import Prelude Errors PyText Json.

Open Scope list_scope.

(** ** Quoting *)

(** Letters, digits and [_.-~] are not quoted. *)
Definition unreserved (c : Z) : bool :=
  ((48 <=? c) && (c <=? 57) || (65 <=? c) && (c <=? 90) || (97 <=? c) && (c <=? 122)
   || (c =? 95) || (c =? 46) || (c =? 45) || (c =? 126))%Z.
Definition upper_hex (n : Z) : Z := if (n <? 10)%Z then (48 + n)%Z else (55 + n)%Z.
Definition percent (c : Z) : bytes := [37; upper_hex (c / 16); upper_hex (c mod 16)]%Z.
(** [quote(s, safe="")] *)
Definition quote (l : bytes) : bytes := flat_map (fun c => if unreserved c then [c] else percent c) l.
(** [quote_plus(s)] *)
Definition quote_plus (l : bytes) : bytes :=
  flat_map (fun c => if (c =? 32)%Z then [43%Z] else if unreserved c then [c] else percent c) l.
Definition assignment (kv : string * string) : bytes := quote_plus (bytes_of kv.1) ++ 61%Z :: quote_plus (bytes_of kv.2).
(** [urlencode] of a dict of strings *)
Definition urlencode (values : list (string * string)) : bytes := join [38%Z] (map assignment values).

(** ** Unquoting *)

(** [unquote_to_bytes]: a percent sign without two hexadecimal digits stays. *)
Fixpoint unquote_to_bytes (l : bytes) : bytes :=
  match l with
  | [] => []
  | c :: l1 =>
      if (c =? 37)%Z
      then match l1 with
           | a :: b :: l2 => match hex_value a, hex_value b with
                             | Some x, Some y => (16 * x + y)%Z :: unquote_to_bytes l2
                             | _, _ => c :: unquote_to_bytes l1
                             end
           | _ => c :: unquote_to_bytes l1
           end
      else c :: unquote_to_bytes l1
  end.

Definition replacement : bytes := [0xEF; 0xBF; 0xBD]%Z.
Definition cont (c : Z) : bool := ((0x80 <=? c) && (c <=? 0xBF))%Z.
(** The count of the bytes that follow a lead byte, and the range of the first of them. *)
Definition lead (c : Z) : option (nat * Z * Z) :=
  (if (0xC2 <=? c) && (c <=? 0xDF) then Some (1%nat, 0x80, 0xBF)
   else if c =? 0xE0 then Some (2%nat, 0xA0, 0xBF)
   else if c =? 0xED then Some (2%nat, 0x80, 0x9F)
   else if (0xE1 <=? c) && (c <=? 0xEF) then Some (2%nat, 0x80, 0xBF)
   else if c =? 0xF0 then Some (3%nat, 0x90, 0xBF)
   else if c =? 0xF4 then Some (3%nat, 0x80, 0x8F)
   else if (0xF1 <=? c) && (c <=? 0xF3) then Some (3%nat, 0x80, 0xBF)
   else None)%Z.
(** [decode("utf-8", "replace")], encoded again: every maximal part of a character that breaks off is replaced. *)
Fixpoint decode_replace (l : bytes) : bytes :=
  match l with
  | [] => []
  | a :: l1 =>
      if (a <? 0x80)%Z then a :: decode_replace l1 else
      match lead a with
      | None => replacement ++ decode_replace l1
      | Some (n, lo, hi) =>
          match l1 with
          | b :: l2 =>
              if negb ((lo <=? b) && (b <=? hi))%Z then replacement ++ decode_replace l1 else
              match n with
              | 1%nat => a :: b :: decode_replace l2
              | _ => match l2 with
                     | c :: l3 =>
                         if negb (cont c) then replacement ++ decode_replace l2 else
                         match n with
                         | 2%nat => a :: b :: c :: decode_replace l3
                         | _ => match l3 with
                                | d :: l4 => if negb (cont d) then replacement ++ decode_replace l3
                                             else a :: b :: c :: d :: decode_replace l4
                                | [] => replacement
                                end
                         end
                     | [] => replacement
                     end
              end
          | [] => replacement
          end
      end
  end.
(** [unquote]: the runs of ASCII characters are unquoted and decoded one by one. *)
Fixpoint unquote_runs (run l : bytes) : bytes :=
  match l with
  | [] => decode_replace (unquote_to_bytes (rev run))
  | c :: l => if (c <? 128)%Z then unquote_runs (c :: run) l
              else decode_replace (unquote_to_bytes (rev run)) ++ c :: unquote_runs [] l
  end.
Definition unquote (l : bytes) : bytes := unquote_runs [] l.

(** The parts between the separators, and before and after the first one. *)
Fixpoint split_on (sep : Z) (l : bytes) : list bytes :=
  match l with
  | [] => [[]]
  | c :: l => if (c =? sep)%Z then [] :: split_on sep l
              else match split_on sep l with x :: r => (c :: x) :: r | [] => [[c]] end
  end.
Fixpoint cut (sep : Z) (l : bytes) : bytes * option bytes :=
  match l with
  | [] => ([], None)
  | c :: l => if (c =? sep)%Z then ([], Some l) else let (x, r) := cut sep l in (c :: x, r)
  end.
Definition plus_to_space (l : bytes) : bytes := map (fun c => if (c =? 43)%Z then 32%Z else c) l.
Definition decode_part (l : bytes) : string := string_of (unquote (plus_to_space l)).
(** [parse_qsl(query, keep_blank_values=True)] *)
Definition parse_qsl (query : bytes) : list (string * string) :=
  map (fun p => let (k, v) := cut 61 p in (decode_part k, decode_part (get_or [] v)))
    (List.filter (fun p => bool_decide (p <> [])) (split_on 38 query)).
(** [parse_qs(...).get(key, [])] *)
Definition values_of (key : string) (l : list (string * string)) : list string :=
  map snd (List.filter (fun kv => kv.1 == key) l).

(** ** urlsplit *)

Record split_url := SplitUrl { u_scheme : bytes; u_netloc : bytes; u_path : bytes; u_query : bytes; u_fragment : bytes }.
Definition is_letter (c : Z) : bool := ((65 <=? c) && (c <=? 90) || (97 <=? c) && (c <=? 122))%Z.
Definition scheme_char (c : Z) : bool := is_letter c || is_digit c || mem c [43; 45; 46]%Z.
Definition lower_byte (c : Z) : Z := if ((65 <=? c) && (c <=? 90))%Z then (c + 32)%Z else c.
Definition split_scheme (url : bytes) : bytes * bytes :=
  match cut 58 url with
  | (c :: s, Some rest) => if is_letter c && forallb scheme_char s then (map lower_byte (c :: s), rest) else ([], url)
  | _ => ([], url)
  end.
Fixpoint until (stops : list Z) (l : bytes) : bytes * bytes :=
  match l with
  | [] => ([], [])
  | c :: l' => if mem c stops then ([], l) else let (x, r) := until stops l' in (c :: x, r)
  end.
(** An authority with square brackets is taken for an invalid one. *)
Definition urlsplit (url : bytes) : result split_url :=
  let (scheme, rest) := split_scheme url in
  let? (netloc, rest) := match rest with
    | 47%Z :: 47%Z :: r => let (n, r) := until [47; 63; 35]%Z r in
                           if mem 91%Z n || mem 93%Z n then raise ValueError "Invalid IPv6 URL" else Ok (n, r)
    | _ => Ok ([], rest)
    end in
  let (rest, fragment) := cut 35 rest in
  let (path, query) := cut 63 rest in
  Ok (SplitUrl scheme netloc path (get_or [] query) (get_or [] fragment)).

Example parse_ex : map (fun kv => (kv.1, kv.2)) (parse_qsl (lit "a=1&b=x+y%2Fz&&c&d=%E3%81%82%FF"))
  = [("a", "1"); ("b", "x y/z"); ("c", ""); ("d", string_of [0xE3; 0x81; 0x82; 0xEF; 0xBF; 0xBD]%Z)]%string.
Proof. vm_compute. reflexivity. Qed.
Example split_ex : urlsplit (lit "https://h.example/p/q?x=1#f") = Ok (SplitUrl (lit "https") (lit "h.example") (lit "/p/q") (lit "x=1") (lit "f")).
Proof. vm_compute. reflexivity. Qed.

(** ** What is quoted is read back *)

Definition quoted_char (c : Z) : Prop := (0 <= c < 128)%Z /\ c <> 38%Z /\ c <> 61%Z.
Lemma percent_hex c : (0 <= c < 256)%Z -> hex_value (upper_hex (c / 16)) = Some (c / 16)%Z
  /\ hex_value (upper_hex (c mod 16)) = Some (c mod 16)%Z.
Proof.
  assert (forall n, (0 <= n < 16)%Z -> hex_value (upper_hex n) = Some n) as H.
  { intros n Hn. unfold hex_value, upper_hex. repeat case_match; bsimp; try lia; f_equal; lia. }
  intros Hc. split; apply H; Z.to_euclidean_division_equations; lia.
Qed.
Lemma quote_plus_chars l : Forall (fun c => 0 <= c < 256)%Z l -> Forall quoted_char (quote_plus l).
Proof.
  induction 1 as [|c l Hc _ IH]; [constructor|]. cbn [quote_plus flat_map]. apply Forall_app. split; [|exact IH].
  unfold quoted_char. destruct (c =? 32)%Z; [repeat constructor; lia|]. destruct (unreserved c) eqn:E.
  - unfold unreserved in E. constructor; [|constructor]. bsimp. lia.
  - unfold percent, upper_hex. repeat constructor; repeat case_match; bsimp; Z.to_euclidean_division_equations; lia.
Qed.
Lemma unquote_percent c l : (0 <= c < 256)%Z -> unquote_to_bytes (percent c ++ l) = c :: unquote_to_bytes l.
Proof.
  intros Hc. cbn. destruct (percent_hex c Hc) as [-> ->]. f_equal. Z.to_euclidean_division_equations; lia.
Qed.
Lemma unquote_quoted l : Forall (fun c => 0 <= c < 256)%Z l -> unquote_to_bytes (plus_to_space (quote_plus l)) = l.
Proof.
  induction 1 as [|c l Hc _ IH]; [done|]. cbn [quote_plus flat_map]. fold (quote_plus l). unfold plus_to_space. rewrite map_app.
  fold (plus_to_space (quote_plus l)). destruct (Z.eqb_spec c 32) as [->|Hn]; [by rewrite <- IH at 2|]. destruct (unreserved c) eqn:E.
  - assert (c <> 43%Z /\ c <> 37%Z) as [H1 H2] by (unfold unreserved in E; bsimp; lia). cbn [map app unquote_to_bytes].
    rewrite (proj2 (Z.eqb_neq c 43)), (proj2 (Z.eqb_neq c 37)) by done. by rewrite IH.
  - assert (map (fun c => if (c =? 43)%Z then 32%Z else c) (percent c) = percent c) as ->.
    { unfold percent, upper_hex. cbn [map]. repeat f_equal; repeat case_match; bsimp; Z.to_euclidean_division_equations; lia. }
    by rewrite unquote_percent, IH.
Qed.
Lemma unquote_ascii l : Forall (fun c => c < 128)%Z l -> unquote l = decode_replace (unquote_to_bytes l).
Proof.
  intros H. unfold unquote. assert (forall run, unquote_runs run l = decode_replace (unquote_to_bytes (rev run ++ l))) as ->; [|done].
  induction H as [|c l Hc _ IH]; intros run; cbn [unquote_runs]; [by rewrite app_nil_r|].
  rewrite (proj2 (Z.ltb_lt c 128)) by done. rewrite IH. cbn [rev]. by rewrite <- app_assoc.
Qed.
(** The ranges of the second byte are those of well-formed text. *)
Lemma lead_two a : (0xC2 <= a <= 0xDF)%Z -> lead a = Some (1%nat, 0x80, 0xBF)%Z.
Proof. intros H. unfold lead. by rewrite !(proj2 (Z.leb_le _ _)) by lia. Qed.
Lemma lead_three a b : (0xE0 <= a <= 0xEF)%Z -> cont b = true -> negb ((a =? 0xE0) && (b <? 0xA0))%Z = true ->
  negb ((a =? 0xED) && (0xA0 <=? b))%Z = true ->
  exists lo hi, lead a = Some (2%nat, lo, hi) /\ ((lo <=? b) && (b <=? hi))%Z = true.
Proof.
  intros Ha Hb H1 H2. unfold cont in Hb. rewrite negb_true_iff, andb_false_iff, Z.eqb_neq in H1, H2. bsimp.
  unfold lead. repeat case_match; bsimp; try lia; do 2 eexists; (split; [reflexivity|]); apply andb_true_iff; rewrite !Z.leb_le; lia.
Qed.
Lemma lead_four a b : (0xF0 <= a <= 0xF4)%Z -> cont b = true -> negb ((a =? 0xF0) && (b <? 0x90))%Z = true ->
  negb ((a =? 0xF4) && (0x8F <? b))%Z = true ->
  exists lo hi, lead a = Some (3%nat, lo, hi) /\ ((lo <=? b) && (b <=? hi))%Z = true.
Proof.
  intros Ha Hb H1 H2. unfold cont in Hb. rewrite negb_true_iff, andb_false_iff, Z.eqb_neq in H1, H2. bsimp.
  unfold lead. repeat case_match; bsimp; try lia; do 2 eexists; (split; [reflexivity|]); apply andb_true_iff; rewrite !Z.leb_le; lia.
Qed.
Lemma decode_valid l : utf8_valid false l = true -> decode_replace l = l.
Proof.
  induction l as [l IH] using (induction_ltof1 _ (@length Z)); unfold ltof in IH.
  destruct l as [|a l]; [done|]. cbn [utf8_valid decode_replace]. intros H. destruct (a <? 128)%Z.
  { f_equal. apply IH; [simpl; lia|done]. }
  destruct ((0xC2 <=? a) && (a <=? 0xDF))%Z eqn:E2.
  { destruct l as [|b l]; [done|]. bsimp. rewrite lead_two by lia. rewrite (proj2 (Z.leb_le 128 b)), (proj2 (Z.leb_le b 191)) by lia.
    cbn [andb negb]. do 2 f_equal. apply IH; [simpl; lia|done]. }
  destruct ((0xE0 <=? a) && (a <=? 0xEF))%Z eqn:E3.
  { destruct l as [|b [|c l]]; [done..|]. repeat apply andb_true_iff in H as [H ?]. cbn [orb] in *.
    destruct (lead_three a b) as (lo & hi & -> & ->); [bsimp; lia|unfold cont; by apply andb_true_iff|done|done|].
    bsimp. unfold cont. rewrite (proj2 (Z.leb_le 128 c)), (proj2 (Z.leb_le c 191)) by lia. cbn [andb negb].
    do 3 f_equal. apply IH; [simpl; lia|done]. }
  destruct ((0xF0 <=? a) && (a <=? 0xF4))%Z eqn:E4; [|done].
  destruct l as [|b [|c [|d l]]]; [done..|]. repeat apply andb_true_iff in H as [H ?].
  destruct (lead_four a b) as (lo & hi & -> & ->); [bsimp; lia|unfold cont; by apply andb_true_iff|done|done|].
  bsimp. unfold cont. rewrite (proj2 (Z.leb_le 128 c)), (proj2 (Z.leb_le c 191)), (proj2 (Z.leb_le 128 d)), (proj2 (Z.leb_le d 191)) by lia.
  cbn [andb negb]. do 4 f_equal. apply IH; [simpl; lia|done].
Qed.
Lemma decode_quoted s : utf8_valid false (bytes_of s) = true -> decode_part (quote_plus (bytes_of s)) = s.
Proof.
  intros Hs. unfold decode_part. pose proof (quote_plus_chars _ (bytes_of_range s)) as Hq. rewrite unquote_ascii.
  - rewrite unquote_quoted by apply bytes_of_range. by rewrite decode_valid, string_of_bytes_of.
  - apply Forall_map. eapply Forall_impl; [exact Hq|]. intros c [[? ?] _]. case_match; lia.
Qed.

(** ** A query is read back *)

Lemma split_on_none sep l : sep ∉ l -> split_on sep l = [l].
Proof.
  induction l as [|c l IH]; [done|]. intros Hn. cbn [split_on]. rewrite (proj2 (Z.eqb_neq c sep)) by set_solver.
  by rewrite IH by set_solver.
Qed.
Lemma split_on_app sep x l : sep ∉ x -> split_on sep (x ++ sep :: l) = x :: split_on sep l.
Proof.
  induction x as [|c x IH]; intros Hn; cbn [app split_on]; [by rewrite Z.eqb_refl|].
  rewrite (proj2 (Z.eqb_neq c sep)) by set_solver. by rewrite IH by set_solver.
Qed.
Lemma split_on_join sep l : l <> [] -> Forall (fun x => sep ∉ x) l -> split_on sep (join [sep] l) = l.
Proof.
  intros Hne Hl. destruct Hl as [|x l Hx Hl]; [done|]. cbn [join]. clear Hne. revert x Hx.
  induction Hl as [|y l Hy _ IH]; intros x Hx; cbn [flat_map]; [by rewrite app_nil_r, split_on_none|].
  cbn [app]. rewrite split_on_app by done. f_equal. by apply IH.
Qed.
Lemma cut_app sep x l : sep ∉ x -> cut sep (x ++ sep :: l) = (x, Some l).
Proof.
  induction x as [|c x IH]; intros Hn; cbn [app cut]; [by rewrite Z.eqb_refl|].
  rewrite (proj2 (Z.eqb_neq c sep)) by set_solver. by rewrite IH by set_solver.
Qed.
Lemma not_quoted c s : c = 38%Z \/ c = 61%Z -> c ∉ quote_plus (bytes_of s).
Proof.
  intros Hc Hin. pose proof (quote_plus_chars _ (bytes_of_range s)) as H. rewrite Forall_forall in H.
  destruct (H c Hin) as (_ & ? & ?). by destruct Hc.
Qed.
Lemma assignment_read kv : utf8_valid false (bytes_of kv.1) = true -> utf8_valid false (bytes_of kv.2) = true ->
  (let (k, v) := cut 61 (assignment kv) in (decode_part k, decode_part (get_or [] v))) = kv.
Proof.
  intros H1 H2. unfold assignment. rewrite cut_app by (apply not_quoted; by right). cbn [get_or].
  rewrite !decode_quoted by done. by destruct kv.
Qed.
(** [parse_qsl] of [urlencode] gives the values back. *)
Lemma urlencode_read values : Forall (fun kv => utf8_valid false (bytes_of kv.1) = true /\ utf8_valid false (bytes_of kv.2) = true) values ->
  parse_qsl (urlencode values) = values.
Proof.
  intros H. destruct values as [|kv l]; [done|]. unfold parse_qsl, urlencode. rewrite split_on_join; [|done|].
  - revert H. generalize (kv :: l). clear. intros l Hl. induction Hl as [|kv l [H1 H2] _ IH]; [done|]. cbn [map List.filter].
    rewrite bool_decide_eq_true_2 by (unfold assignment; by destruct (quote_plus _)). cbn [map]. by rewrite assignment_read, IH.
  - apply Forall_map, Forall_forall. intros x _. unfold assignment. intros [Hi|[Hi|Hi]%elem_of_cons]%elem_of_app;
      [by apply (not_quoted 38) in Hi; [|by left]|done|by apply (not_quoted 38) in Hi; [|by left]].
Qed.
