(* ===== verification/Credentials.v ===== *)
(** * Credentials: where passwords and OAuth secrets are kept

    [BaseCredentialStore] and [ManagedSecretName] of [domain/ports.py] as a class of operations, with a class of the laws its
    clients rely on ([OAuth], [Registration]); [infrastructure/security/session_store.py] and
    [infrastructure/security/keyring_store.py] are its two instances. The [keyring] package is a class of operations
    of its own: what it documents is [KeyringLaws]. *)

From stdpp Require Import gmap strings.
From S2P Require Import Prelude Errors PyText Accounts Identity Json.

Open Scope list_scope.

(** ** The interface *)

Inductive ManagedSecretName := PASSWORD | CLIENT_SECRET | REFRESH_TOKEN.
#[export] Instance secret_name_eq_dec : EqDecision ManagedSecretName.
Proof. solve_decision. Defined.
Definition secret_value (n : ManagedSecretName) : string :=
  match n with PASSWORD => "password" | CLIENT_SECRET => "client_secret" | REFRESH_TOKEN => "refresh_token" end.
Definition MANAGED_SECRET_NAMES : list string := map secret_value [PASSWORD; CLIENT_SECRET; REFRESH_TOKEN].

Class CredentialStore (S : Type) := {
  set_password : string -> string -> M S unit;
  get_password : string -> M S (option string);
  delete_password : string -> M S unit;
  set_secret : string -> string -> string -> M S unit;
  get_secret : string -> string -> M S (option string);
  delete_secret : string -> string -> M S unit;
  delete_all_secrets : string -> M S unit }.

(** An operation on one secret leaves the others; one that fails raises a [CredentialStoreError]. *)
Definition denied (e : exn) : Prop := isinstance e CredentialStoreError = true.
Definition others_kept {S} (stored : S -> string -> ManagedSecretName -> option string) (usable : string -> Prop)
    (a : string) (n : ManagedSecretName) (s s' : S) : Prop :=
  forall b k, usable b -> (b, k) <> (a, n) -> stored s' b k = stored s b k.
Definition reads_secret {S} (stored : S -> string -> ManagedSecretName -> option string) (usable : string -> Prop)
    (a : string) (n : ManagedSecretName) (m : M S (option string)) : Prop :=
  forall s, let '(r, s') := m s in
  (forall b k, usable b -> stored s' b k = stored s b k)
  /\ match r with Ok v => v = stored s a n | Err e => denied e end.
Definition writes_secret {S} (stored : S -> string -> ManagedSecretName -> option string) (usable : string -> Prop)
    (a : string) (n : ManagedSecretName) (v : string) (m : M S unit) : Prop :=
  forall s, let '(r, s') := m s in
  others_kept stored usable a n s s' /\ match r with Ok _ => stored s' a n = Some v | Err e => denied e end.

Class CredentialLaws (S : Type) `{CredentialStore S} := {
  usable : string -> Prop;   (* the account ids the store tells apart *)
  stored : S -> string -> ManagedSecretName -> option string;
  usable_valid a : validate_account_id (code_points a) = Ok tt -> usable a;
  get_password_law a : usable a -> reads_secret stored usable a PASSWORD (get_password a);
  set_password_law a v : usable a -> writes_secret stored usable a PASSWORD v (set_password a v);
  get_secret_law a n : usable a -> n <> PASSWORD -> reads_secret stored usable a n (get_secret a (secret_value n));
  set_secret_law a n v : usable a -> n <> PASSWORD -> writes_secret stored usable a n v (set_secret a (secret_value n) v) }.

Lemma secret_value_inj n k : secret_value n = secret_value k -> n = k.
Proof. by destruct n, k. Qed.

(** ** The store of one session *)

Record session := Session { secrets : gmap (string * string) string }.
Definition session_set_secret (a n v : string) : M session unit :=
  mmodify (fun s => Session (<[(a, n) := v]> (secrets s))).
Definition session_get_secret (a n : string) : M session (option string) := mgets (fun s => secrets s !! (a, n)).
Definition session_delete_secret (a n : string) : M session unit :=
  mmodify (fun s => Session (delete (a, n) (secrets s))).
#[export] Instance session_store : CredentialStore session := {
  set_password a v := session_set_secret a "password" v;
  get_password a := session_get_secret a "password";
  delete_password a := session_delete_secret a "password";
  set_secret := session_set_secret;
  get_secret := session_get_secret;
  delete_secret := session_delete_secret;
  delete_all_secrets a := mfor MANAGED_SECRET_NAMES (session_delete_secret a) }.

#[export] Instance session_laws : CredentialLaws session.
Proof.
  apply (Build_CredentialLaws session _ (fun _ => True) (fun s a n => secrets s !! (a, secret_value n))).
  - done.
  - intros a _ s. done.
  - intros a v _ s. split; [|apply lookup_insert_eq]. intros b k _ Hne. cbn. apply lookup_insert_ne.
    intros [= -> E]. apply Hne. by rewrite (secret_value_inj PASSWORD k E).
  - intros a n _ _ s. done.
  - intros a n v _ _ s. split; [|apply lookup_insert_eq]. intros b k _ Hne. cbn. apply lookup_insert_ne.
    intros [= -> E]. apply Hne. by rewrite (secret_value_inj n k E).
Defined.

(** Deleting all secrets of an account leaves none of them, and nothing else changes. *)
Lemma session_deletes_all a s : let '(r, s') := delete_all_secrets a s in
  r = Ok tt /\ (forall n, stored s' a n = None) /\ forall b n, b <> a -> stored s' b n = stored s b n.
Proof.
  cbn. split; [done|]. split.
  - intros []; cbn; repeat (rewrite lookup_delete_eq || rewrite lookup_delete_ne by congruence); done.
  - intros b n Hne. by rewrite !lookup_delete_ne by congruence.
Qed.

(** ** The keyring of the operating system *)

(** The [keyring] package, for the service [mail-dock]: any operation may raise; [kr_delete] answers [false] for a
    [PasswordDeleteError]. *)
Class Keyring (K : Type) := {
  get_keyring : M K string;                      (* the qualified name of the backend's type *)
  kr_get : string -> M K (option string);
  kr_set : string -> string -> M K unit;
  kr_delete : string -> M K bool }.

Section KeyringStore.
Context {K : Type} `{Keyring K}.

Inductive KeyringBackendStatus := SUPPORTED | UNSUPPORTED | UNAVAILABLE.
Definition status_value (s : KeyringBackendStatus) : string :=
  match s with SUPPORTED => "supported" | UNSUPPORTED => "unsupported" | UNAVAILABLE => "unavailable" end.
Definition ALLOWED_BACKENDS : list string :=
  ["keyring.backends.Windows.WinVaultKeyring"; "keyring.backends.macOS.Keyring"; "keyring.backends.SecretService.Keyring";
   "keyring.backends.kwallet.DBusKeyring"]%string.
Definition detect_backend : M K KeyringBackendStatus :=
  mtry (let! name := get_keyring in mret (if mem name ALLOWED_BACKENDS then SUPPORTED else UNSUPPORTED))
    (fun _ => mret UNAVAILABLE).
Definition backend_name : M K string := mtry get_keyring (fun _ => mret (status_value UNAVAILABLE)).
Definition ensure_supported_backend : M K unit :=
  let! status := detect_backend in
  match status with
  | SUPPORTED => mret tt
  | _ => mraise CredentialStoreError ("Keyring backend is " +:+ status_value status +:+ "; credentials will not be stored")
  end.
(** [_username] *)
Definition keyring_username (account_id name : string) : string :=
  ("mail-dock-secret:" +:+ string_of (urlsafe_b64encode (print (JList [JStr account_id; JStr name]))))%string.
(** The handlers at the end of every operation. *)
Definition translated {A} (m : M K A) (message : string) : M K A :=
  mtry m (fun e => if isinstance e CredentialStoreError then mthrow e else mraise CredentialStoreError message).

Definition keyring_set_password (a v : string) : M K unit :=
  translated (ensure_supported_backend ;! kr_set a v) "Could not store account credentials".
Definition keyring_get_password (a : string) : M K (option string) :=
  translated (ensure_supported_backend ;! kr_get a) "Could not read account credentials".
Definition keyring_delete_password (a : string) : M K unit :=
  translated (ensure_supported_backend ;! let! _ := kr_delete a in mret tt) "Could not delete account credentials".
Definition keyring_set_secret (a n v : string) : M K unit :=
  translated (ensure_supported_backend ;! kr_set (keyring_username a n) v) "Could not store account secret".
Definition keyring_get_secret (a n : string) : M K (option string) :=
  translated (ensure_supported_backend ;! kr_get (keyring_username a n)) "Could not read account secret".
Definition keyring_delete_secret (a n : string) : M K unit :=
  translated (ensure_supported_backend ;! let! _ := kr_delete (keyring_username a n) in mret tt) "Could not delete account secret".
Definition keyring_delete_all (a : string) : M K unit :=
  mfor MANAGED_SECRET_NAMES (keyring_delete_secret a) ;! keyring_delete_password a.
End KeyringStore.

#[export] Instance keyring_store {K} `{Keyring K} : CredentialStore K := {
  set_password := keyring_set_password;
  get_password := keyring_get_password;
  delete_password := keyring_delete_password;
  set_secret := keyring_set_secret;
  get_secret := keyring_get_secret;
  delete_secret := keyring_delete_secret;
  delete_all_secrets := keyring_delete_all }.

(** ** The keyring's store satisfies the interface *)

(** No two secrets have one user name, and no secret has the user name of an account. *)
Lemma urlsafe_b64encode_inj l1 l2 : Forall is_byte l1 -> Forall is_byte l2 -> urlsafe_b64encode l1 = urlsafe_b64encode l2 -> l1 = l2.
Proof.
  intros H1 H2 E. apply b64_body_inj; [done|done|]. rewrite <- !b64_stripped by done. by rewrite E.
Qed.
Lemma urlsafe_b64encode_bytes l : Forall is_byte l -> Forall is_byte (urlsafe_b64encode l).
Proof.
  assert (forall n, (0 <= n < 64)%Z -> is_byte (b64_char n)) as H by (intros n Hn; apply b64_char_range in Hn; unfold is_byte; lia).
  assert (is_byte pad) as Hp by (unfold is_byte, pad; lia).
  induction l as [|a|a b|a b c l IH] using list_ind3; intros Hl; cbn; [constructor|..];
    repeat match goal with H : Forall is_byte (_ :: _) |- _ => apply Forall_cons in H as [? ?] end; unfold is_byte in *;
    repeat (apply Forall_cons; split); auto; try (apply H; Z.to_euclidean_division_equations; lia).
Qed.
Lemma secret_json_bytes a n : Forall is_byte (print (JList [JStr a; JStr n])).
Proof.
  assert (forall s, Forall is_byte (print_string s)) as H.
  { intros s. unfold print_string. rewrite !Forall_app, !Forall_singleton. split; [|split; [|unfold is_byte, dquote; lia]]; [unfold is_byte, dquote; lia|].
    pose proof (bytes_of_range s) as Hr. induction Hr as [|c l Hc _ IH]; cbn [flat_map]; [constructor|]. apply Forall_app. split; [|done].
    unfold esc_byte, hex_digit, is_byte. repeat case_match; bsimp; rewrite ?Forall_cons, ?Forall_nil; Z.to_euclidean_division_equations; lia. }
  cbn [print map join flat_map]. rewrite !Forall_app, !Forall_singleton, !Forall_nil. unfold is_byte, comma. split_and!; (apply H || lia || done).
Qed.
Lemma keyring_username_inj a n b k : keyring_username a n = keyring_username b k -> a = b /\ n = k.
Proof.
  unfold keyring_username. intros E%(f_equal bytes_of). rewrite !bytes_of_app in E. apply app_inv_head in E.
  assert (forall l, Forall is_byte l -> bytes_of (string_of (urlsafe_b64encode l)) = urlsafe_b64encode l) as Hb
    by (intros l Hl; by apply bytes_of_string_of, urlsafe_b64encode_bytes).
  rewrite !Hb in E by apply secret_json_bytes. apply urlsafe_b64encode_inj in E; [|apply secret_json_bytes..].
  assert (forall x y, print (JList [JStr x; JStr y]) = 91%Z :: print_string x ++ ([comma] ++ print_string y ++ [93%Z])) as Hp.
  { intros x y. cbn [print map join flat_map]. by rewrite app_nil_r, <- !app_assoc. }
  rewrite !Hp in E. apply (f_equal (drop 1)) in E. cbn [drop] in E. rewrite !drop_0 in E.
  pose proof (value_string 0 a ([comma] ++ print_string n ++ [93%Z])) as Ha. rewrite E, value_string in Ha. injection Ha as <- _.
  split; [done|]. do 2 apply app_inv_head in E.
  pose proof (value_string 0 n [93%Z]) as Hn. rewrite E, value_string in Hn. by injection Hn as <-.
Qed.
Lemma decode_ascii p n l : Forall (fun c => c < 128)%Z p -> utf8_decode_fuel (length p + n) (p ++ l) = p ++ utf8_decode_fuel n l.
Proof.
  induction 1 as [|c p Hc _ IH]; [done|]. cbn [length Nat.add app utf8_decode_fuel]. rewrite (proj2 (Z.ltb_lt c _)) by done. by rewrite IH.
Qed.
Lemma forbidden_prefix p s : Forall (fun c => c < 128)%Z (bytes_of p) -> existsb is_forbidden (bytes_of p) = true ->
  validate_account_id (code_points (p +:+ s)%string) <> Ok tt.
Proof.
  intros Hp Hf. assert (existsb is_forbidden (code_points (p +:+ s)%string) = true) as H.
  { unfold code_points. rewrite bytes_of_app, length_app, decode_ascii, existsb_app, Hf by done. done. }
  revert H. generalize (code_points (p +:+ s)%string). intros x Hx. unfold validate_account_id.
  rewrite Hx. destruct (negb (mem x _)), (negb (existsb (fun c => c <? 32)%Z x)); discriminate.
Qed.
Lemma secret_is_no_account a b n : validate_account_id (code_points a) = Ok tt -> a <> keyring_username b n.
Proof.
  intros Ha ->. refine (forbidden_prefix _ _ _ _ Ha); [by repeat constructor|vm_compute; reflexivity].
Qed.

(** What [keyring] documents: reading changes nothing, writing changes one entry. *)
Class KeyringLaws (K : Type) `{Keyring K} := {
  entry : K -> string -> option string;
  get_keyring_law s : forall u, entry (get_keyring s).2 u = entry s u;
  kr_get_law u s : let '(r, s') := kr_get u s in
    (forall x, entry s' x = entry s x) /\ match r with Ok v => v = entry s u | Err _ => True end;
  kr_set_law u v s : let '(r, s') := kr_set u v s in
    (forall x, x <> u -> entry s' x = entry s x) /\ match r with Ok _ => entry s' u = Some v | Err _ => True end }.

Section KeyringLaws.
Context {K : Type} `{KeyringLaws K}.

Definition keyring_usable (a : string) : Prop := validate_account_id (code_points a) = Ok tt.
Definition keyring_user (a : string) (n : ManagedSecretName) : string :=
  match n with PASSWORD => a | _ => keyring_username a (secret_value n) end.
Definition keyring_stored (s : K) (a : string) (n : ManagedSecretName) : option string := entry s (keyring_user a n).

Lemma keyring_user_inj a n b k : keyring_usable a -> keyring_usable b -> keyring_user a n = keyring_user b k -> (a, n) = (b, k).
Proof.
  intros Ha Hb E. destruct (decide (n = PASSWORD)) as [->|Hn], (decide (k = PASSWORD)) as [->|Hk].
  - by cbn in E; subst.
  - exfalso. apply (secret_is_no_account a b (secret_value k)); [done|]. by destruct k.
  - exfalso. apply (secret_is_no_account b a (secret_value n)); [done|]. by destruct n.
  - assert (forall a n, n <> PASSWORD -> keyring_user a n = keyring_username a (secret_value n)) as Hu by (by intros ? []).
    rewrite !Hu in E by done. apply keyring_username_inj in E as [-> E]. by rewrite (secret_value_inj n k).
Qed.
Lemma detect_keeps s : forall u, entry (detect_backend s).2 u = entry s u.
Proof.
  intros u. unfold detect_backend, mtry, mbnd. pose proof (get_keyring_law s u) as Hk. by destruct (get_keyring s) as [[name|e] s'].
Qed.
(** A translated operation raises nothing but a [CredentialStoreError]. *)
Lemma translated_denied {A} (m : M K A) message s : match (translated m message s).1 with Ok _ => True | Err e => denied e end.
Proof.
  unfold translated, mtry. destruct (m s) as [[a|e] s']; [done|]. unfold denied. destruct (isinstance e CredentialStoreError) eqn:E; [exact E|done].
Qed.
(** Behind the check of the backend an operation starts from the same entries. *)
Lemma translated_runs {A} (m : M K A) message s : let '(r, s') := translated (ensure_supported_backend ;! m) message s in
  exists s1, (forall u, entry s1 u = entry s u)
    /\ match r with
       | Ok a => m s1 = (Ok a, s')
       | Err _ => s' = s1 \/ s' = (m s1).2
       end.
Proof.
  unfold translated, mtry, ensure_supported_backend, mbnd, mraise, mthrow. pose proof (detect_keeps s) as Hd.
  destruct (detect_backend s) as [[st|e] s1]; cbn [fst snd] in Hd.
  - destruct st; [|cbn; by exists s1; split; [done|left]..]. unfold mret.
    destruct (m s1) as [[a|e] s2] eqn:E; [by exists s1|]. destruct (isinstance e CredentialStoreError);
      (exists s1; split; [done|]; right; by rewrite E).
  - destruct (isinstance e CredentialStoreError); by exists s1; split; [done|left].
Qed.
Lemma keyring_reads a n u message : keyring_user a n = u ->
  reads_secret keyring_stored keyring_usable a n (translated (ensure_supported_backend ;! kr_get u) message).
Proof.
  intros <- s. pose proof (translated_runs (kr_get (keyring_user a n)) message s) as Hr.
  pose proof (translated_denied (ensure_supported_backend ;! kr_get (keyring_user a n)) message s) as Hd.
  destruct (translated _ _ s) as [r s']. destruct Hr as (s1 & Hs1 & Hr). pose proof (kr_get_law (keyring_user a n) s1) as Hg.
  unfold keyring_stored. destruct r as [v|e].
  - rewrite Hr in Hg. destruct Hg as [Hg ->]. split; [|apply Hs1]. intros b k _. by rewrite Hg.
  - split; [|exact Hd]. intros b k _. destruct Hr as [-> | ->]; [apply Hs1|].
    destruct (kr_get (keyring_user a n) s1) as [r2 s2]. cbn [snd]. by rewrite (proj1 Hg).
Qed.
Lemma keyring_writes a n u v message : keyring_usable a -> keyring_user a n = u ->
  writes_secret keyring_stored keyring_usable a n v (translated (ensure_supported_backend ;! kr_set u v) message).
Proof.
  intros Ha <- s. pose proof (translated_runs (kr_set (keyring_user a n) v) message s) as Hr.
  pose proof (translated_denied (ensure_supported_backend ;! kr_set (keyring_user a n) v) message s) as Hd.
  destruct (translated _ _ s) as [r s']. destruct Hr as (s1 & Hs1 & Hr). pose proof (kr_set_law (keyring_user a n) v s1) as Hg.
  assert (forall b k, keyring_usable b -> (b, k) <> (a, n) -> keyring_user b k <> keyring_user a n) as Hne
    by (intros b k Hb Hk E; by apply Hk, keyring_user_inj).
  unfold keyring_stored, others_kept. destruct r as [x|e].
  - rewrite Hr in Hg. destruct Hg as [Hg Hv]. split; [|exact Hv]. intros b k Hb Hk. by rewrite Hg by by apply Hne.
  - split; [|exact Hd]. intros b k Hb Hk. destruct Hr as [-> | ->]; [apply Hs1|].
    destruct (kr_set (keyring_user a n) v s1) as [r2 s2]. cbn [snd]. by rewrite (proj1 Hg) by by apply Hne.
Qed.
#[export] Instance keyring_laws : CredentialLaws K.
Proof.
  apply (Build_CredentialLaws K _ keyring_usable keyring_stored).
  - done.
  - intros a _. by apply keyring_reads.
  - intros a v Ha. by apply keyring_writes.
  - intros a n _ Hn. apply keyring_reads. by destruct n.
  - intros a n v Ha Hn. apply keyring_writes; [done|]. by destruct n.
Defined.
End KeyringLaws.

(** ** A keyring that is a dictionary *)

Record ring := Ring { ring_backend : string; ring_entries : gmap string string; ring_refuses : bool }.
#[export] Instance ring_keyring : Keyring ring := {
  get_keyring := mgets ring_backend;
  kr_get u := mgets (fun s => ring_entries s !! u);
  kr_set u v := mmodify (fun s => Ring (ring_backend s) (<[u := v]> (ring_entries s)) (ring_refuses s));
  kr_delete u := fun s =>
    if ring_refuses s || bool_decide (ring_entries s !! u = None) then (Ok false, s)
    else (Ok true, Ring (ring_backend s) (delete u (ring_entries s)) (ring_refuses s)) }.
#[export] Instance ring_laws : KeyringLaws ring.
Proof.
  apply (Build_KeyringLaws ring _ (fun s u => ring_entries s !! u)); [done|done|].
  intros u v s. split; [|apply lookup_insert_eq]. intros x Hx. by apply lookup_insert_ne.
Defined.

(** A [PasswordDeleteError] is taken for an absent secret, whatever its reason: when the user refuses to unlock the
    keyring, deleting all secrets of an account returns although the password is still there. *)
Lemma refused_deletion_returns :
  let s := Ring "keyring.backends.kwallet.DBusKeyring" {["acct" := "secret"]} true in
  delete_all_secrets "acct" s = (Ok tt, s) /\ (get_password "acct" s).1 = Ok (Some "secret"%string).
Proof. split; vm_compute; reflexivity. Qed.
