(* ===== verification/OAuth.v ===== *)
(** * OAuth: authorizing an account and refreshing its access token

    [infrastructure/security/oauth2.py] and [usecases/oauth_authorize.py], with their data of [domain/ports.py]. The browser,
    the provider and the clock are an environment: what [secrets.token_urlsafe] draws, the requests that reach the
    callback listener, the answers of the token endpoint and the times are arguments. Times are microseconds. Client
    ids and secrets are UTF-8 text; bodies in UTF-16 or UTF-32, which [json.loads] would accept, count as invalid. *)

From S2P Require Import Prelude Errors PyText Identity Json Sha256 Uuid UrlText Credentials.

Open Scope list_scope.

(** ** Providers *)

Record Provider := MkProvider {
  authorization_endpoint : string; token_endpoint : string; allowed_hosts : list string; scopes : list string;
  loopback_redirect_host : string; microsoft : bool }.

(** [_provider] *)
Definition provider_of (provider : string) (tenant : option string) : result Provider :=
  if (provider == "google")%string then
    match tenant with
    | Some _ => raise ConfigError "Google OAuth does not accept a tenant"
    | None => Ok (MkProvider "https://accounts.google.com/o/oauth2/v2/auth" "https://oauth2.googleapis.com/token"
                    ["accounts.google.com"; "oauth2.googleapis.com"] ["https://mail.google.com/"] "127.0.0.1" false)
    end
  else if (provider == "microsoft")%string then
    let tenant_value := match tenant with None => "organizations" | Some t => t end%string in
    let? tenant_value :=
      if mem tenant_value ["consumers"; "organizations"]%string then Ok (bytes_of tenant_value) else
      match uuid_text tenant_value with
      | Some u => Ok u
      | None => raise ConfigError "Microsoft tenant must be consumers, organizations, or a tenant ID"
      end in
    let endpoint_base := ("https://login.microsoftonline.com/" +:+ string_of (quote tenant_value) +:+ "/oauth2/v2.0")%string in
    Ok (MkProvider (endpoint_base +:+ "/authorize") (endpoint_base +:+ "/token") ["login.microsoftonline.com"]
          ["https://outlook.office.com/IMAP.AccessAsUser.All"; "offline_access"] "localhost" true)
  else raise ConfigError "unsupported OAuth provider".

(** [_redirect_uri] *)
Definition redirect_uri_of (host : string) (port : Z) : string := ("http://" +:+ host +:+ ":" +:+ int_str port +:+ "/")%string.

(** [hostname] and [port] of an authority; [None] for a port that is no number of a port. *)
Fixpoint after_last (sep : Z) (l : bytes) : option bytes :=
  match l with
  | [] => None
  | c :: l => match after_last sep l with Some r => Some r | None => if (c =? sep)%Z then Some l else None end
  end.
Definition host_of (netloc : bytes) : bytes := map lower_byte (cut 58 (get_or netloc (after_last 64 netloc))).1.
Definition port_valid (netloc : bytes) : bool :=
  match (cut 58 (get_or netloc (after_last 64 netloc))).2 with
  | None | Some [] => true
  | Some p => forallb is_digit p && (digits_value p <=? 65535)%Z
  end.
(** [_validate_endpoint] *)
Definition validate_endpoint (url : string) (allowed : list string) : result unit :=
  let? parsed := urlsplit (bytes_of url) in
  if negb (port_valid (u_netloc parsed)) then raise ConfigError "OAuth endpoint has an invalid port" else
  check (bool_decide (u_scheme parsed = lit "https") && mem (string_of (host_of (u_netloc parsed))) allowed
         && negb (mem 64%Z (u_netloc parsed)) && bool_decide (u_fragment parsed = []) && bool_decide (u_query parsed = []))
    ConfigError "OAuth endpoint is not an approved HTTPS endpoint".

(** ** The callback *)

Definition is_ascii (s : string) : bool := forallb (fun c => c <? 128)%Z (bytes_of s).
(** [do_GET]: the code or the failure; [None] when the handler raises, which the server ignores. *)
Definition callback_result (expected_state target : string) : option (option string * option string) :=
  match urlsplit (bytes_of target) with
  | Err _ => None
  | Ok parsed =>
      let values := parse_qsl (u_query parsed) in
      if negb (bool_decide (u_path parsed = [47%Z])) then Some (None, Some "invalid_callback"%string) else
      match values_of "state" values with
      | [received] =>
          (* [hmac.compare_digest] accepts text of ASCII characters only *)
          if negb (is_ascii received && is_ascii expected_state) then None else
          if negb (received == expected_state) then Some (None, Some "invalid_state"%string) else
          if (length (values_of "error" values) =? 1)%nat then Some (None, Some "authorization_denied"%string) else
          match values_of "code" values with
          | [code] => if (code == "")%string then Some (None, Some "missing_code"%string) else Some (Some code, None)
          | _ => Some (None, Some "missing_code"%string)
          end
      | _ => Some (None, Some "invalid_callback"%string)
      end
  end.
(** One round of the waiting loop: nothing came, the token is cancelled, a GET request came, the listener failed. *)
Inductive poll := Quiet | Cancelled | Get (target : string) | ListenerFails.
(** [_wait_for_code]; the rounds before the deadline are a list. *)
Fixpoint wait_for_code (state : string) (polls : list poll) : result string :=
  match polls with
  | [] => raise TransientError "OAuth authorization timed out"
  | Quiet :: polls => wait_for_code state polls
  | Cancelled :: _ => raise OperationCancelledError "OAuth authorization cancelled"
  | ListenerFails :: _ => raise TransientError "OAuth callback listener failed"
  | Get target :: polls =>
      match callback_result state target with
      | None => wait_for_code state polls
      | Some (Some code, None) => Ok code
      | Some (_, Some f) =>
          if (f == "authorization_denied")%string then raise AuthenticationError "OAuth authorization was denied"
          else if (f == "invalid_state")%string then raise AuthenticationError "OAuth state validation failed"
          else raise AuthenticationError "OAuth callback was invalid"
      | Some (None, None) => raise AuthenticationError "OAuth callback was invalid"
      end
  end.

(** ** The token endpoint *)

(** An answer with its status; an error whose body cannot be read; no answer. *)
Inductive http_answer := Answered (status : Z) (body : bytes) | Truncated (status : Z) (e : exn) | Failed (e : exn).
Record OAuthTokenResponse := TokenResponse {
  access_token : string; expires_at : Z; refresh_token : option string; token_type : string }.
Definition MAX_TOKEN_RESPONSE_BYTES : Z := 1024 * 1024.
(** [datetime.max] *)
Definition MAX_TIME : Z := 253402300799999999.

(** The status and the body; what is not read of a longer body is not used. *)
Definition received (a : http_answer) : result (Z * bytes) :=
  let unavailable e := if isinstance e OSError then raise TransientError "OAuth token endpoint is temporarily unavailable" else Err e in
  match a with
  | Answered status body => Ok (status, body)
  | Truncated status e => if ((200 <=? status) && (status <? 300))%Z then unavailable e else Err e
  | Failed e => unavailable e
  end.
Definition is_string (j : json) : bool := if j is JStr _ then true else false.
Definition given (j : option json) : option json := match j with Some JNull => None | _ => j end.
(** The rest of [_request_tokens]: the token, the seconds it lives, the new refresh token and the type. *)
Definition token_data (a : http_answer) : result (string * Z * option string * string) :=
  let? (status, body) := received a in
  if (MAX_TOKEN_RESPONSE_BYTES <? Z.of_nat (length body))%Z then raise PermanentError "OAuth token endpoint returned an oversized response" else
  if ((status =? 429) || (500 <=? status))%Z then raise TransientError "OAuth token endpoint is temporarily unavailable" else
  match loads body with
  | None => raise PermanentError "OAuth token endpoint returned invalid JSON"
  | Some (JObj payload) =>
      let oauth_error := given (dict_get "error"%string payload) in
      if (if oauth_error is Some j then negb (is_string j) else false)
      then raise PermanentError "OAuth token endpoint returned an invalid error response" else
      if ((status <? 200) || (300 <=? status))%Z || (if oauth_error is Some _ then true else false) then
        if (if oauth_error is Some (JStr s) then mem s ["invalid_grant"; "invalid_client"; "unauthorized_client"]%string else false)
        then raise AuthenticationError "OAuth credentials are invalid or require reauthorization"
        else raise PermanentError "OAuth token request failed"
      else
      let incomplete := raise PermanentError "OAuth token endpoint returned incomplete token data" in
      match dict_get "access_token"%string payload, dict_get "expires_in"%string payload,
            get_or (JStr "Bearer") (dict_get "token_type"%string payload) with
      | Some (JStr access), Some (JInt expires_in), JStr kind =>
          if (access == "")%string || (expires_in <=? 0)%Z || (kind == "")%string then incomplete else
          match given (dict_get "refresh_token"%string payload) with
          | None => Ok (access, expires_in, None, kind)
          | Some (JStr r) => if (r == "")%string then incomplete else Ok (access, expires_in, Some r, kind)
          | Some _ => incomplete
          end
      | _, _, _ => incomplete
      end
  | Some _ => raise PermanentError "OAuth token endpoint returned an invalid response"
  end.

(** ** State *)

Record PendingAuthorization := Pending {
  p_provider : Provider; p_client_id : string; p_client_secret : option string; p_redirect_uri : string; p_state : string;
  p_code_verifier : string; p_port : Z }.
Record AccessToken := MkAccessToken { t_value : string; t_expires_at : Z }.

Section OAuth.
Context {S : Type} `{CredentialStore S}.

(** The client with its pending requests and open listeners, the provider's cached token, the credential store, the
    token requests sent and the count of times read. *)
Record oauth := OAuth {
  pending : list (string * PendingAuthorization); listeners : list Z; cached : option AccessToken; store : S;
  sent : list (string * list (string * string)); clock_reads : nat }.
Definition set_pending p w := OAuth p (listeners w) (cached w) (store w) (sent w) (clock_reads w).
Definition set_listeners l w := OAuth (pending w) l (cached w) (store w) (sent w) (clock_reads w).
Definition set_cached c w := OAuth (pending w) (listeners w) c (store w) (sent w) (clock_reads w).
Definition set_store s w := OAuth (pending w) (listeners w) (cached w) s (sent w) (clock_reads w).
Definition log_request r w := OAuth (pending w) (listeners w) (cached w) (store w) (sent w ++ [r]) (clock_reads w).

Definition on_store {A} (m : M S A) : M oauth A := fun w => let (r, s) := m (store w) in (r, set_store s w).

Context (answer : nat -> http_answer) (clock : nat -> Z).

Definition now : M oauth Z :=
  fun w => (Ok (clock (clock_reads w)),
            OAuth (pending w) (listeners w) (cached w) (store w) (sent w) (Datatypes.S (clock_reads w))).

(** [_request_tokens] *)
Definition request_tokens (p : Provider) (values : list (string * string)) : M oauth OAuthTokenResponse :=
  mlift (validate_endpoint (token_endpoint p) (allowed_hosts p)) ;!
  let! n := mgets (fun w => length (sent w)) in
  mmodify (log_request (token_endpoint p, values)) ;!
  let! d := mlift (token_data (answer n)) in
  let '(access, expires_in, refresh, kind) := d in
  let! t := now in
  let expires := (t + expires_in * 1000000)%Z in
  if (MAX_TIME <? expires)%Z then mraise PermanentError "OAuth token expiry is invalid" else
  mret (TokenResponse access expires refresh kind).

(** ** Authorization *)

Definition blank (s : string) : bool := forallb is_space (code_points s).
Record OAuthAuthorizationRequest := AuthorizationRequest { request_id : string; authorization_url : string; redirect_uri : string }.
Definition code_challenge (verifier : string) : string :=
  string_of (rstrip (fun c => c =? pad)%Z (urlsafe_b64encode (sha256 (bytes_of verifier)))).
Definition join_words (l : list string) : string := string_of (join [32%Z] (map bytes_of l)).
Definition authorization_parameters (p : Provider) (client_id redirect state verifier : string) : list (string * string) :=
  [("client_id", client_id); ("response_type", "code"); ("redirect_uri", redirect); ("scope", join_words (scopes p));
   ("state", state); ("code_challenge", code_challenge verifier); ("code_challenge_method", "S256")]%string
  ++ (if microsoft p then [("response_mode", "query")] else [("access_type", "offline"); ("prompt", "consent")])%string.
(** [OAuth2Client.begin_authorization]; [port] is the port of the listener, if it can be opened. *)
Definition begin_authorization (provider client_id : string) (client_secret tenant : option string)
    (state : string) (port : option Z) (verifier id : string) : M oauth OAuthAuthorizationRequest :=
  if blank client_id then mraise ConfigError "OAuth client ID is required" else
  let! definition := mlift (provider_of provider tenant) in
  mlift (validate_endpoint (authorization_endpoint definition) (allowed_hosts definition)) ;!
  match port with
  | None => mraise ConfigError "could not start the OAuth loopback callback listener"
  | Some port =>
      mmodify (fun w => set_listeners (port :: listeners w) w) ;!
      let redirect := redirect_uri_of (loopback_redirect_host definition) port in
      let url := (authorization_endpoint definition +:+ "?"
        +:+ string_of (urlencode (authorization_parameters definition client_id redirect state verifier)))%string in
      mmodify (fun w => set_pending (dict_set id (Pending definition client_id client_secret redirect state verifier port) (pending w)) w) ;!
      mret (AuthorizationRequest id url redirect)
  end.
(** The form of the code exchange. *)
Definition exchange_values (p : PendingAuthorization) (code : string) : list (string * string) :=
  [("grant_type", "authorization_code"); ("client_id", p_client_id p); ("code", code); ("redirect_uri", p_redirect_uri p);
   ("code_verifier", p_code_verifier p)]%string
  ++ match p_client_secret p with Some s => if (s == "")%string then [] else [("client_secret", s)]%string | None => [] end.
Definition close_listener (port : Z) (w : oauth) : oauth := set_listeners (remove Z.eq_dec port (listeners w)) w.
(** [try: m finally: w := f w] *)
Definition finally_ {A} (m : M oauth A) (f : oauth -> oauth) : M oauth A := fun w => let (r, w) := m w in (r, f w).
(** [OAuth2Client.complete_authorization]; [timeout_ok]: the timeout is finite and positive. *)
Definition complete_authorization (id : string) (timeout_ok : bool) (polls : list poll) : M oauth OAuthTokenResponse :=
  if negb timeout_ok then mraise ValueError "timeout must be positive" else
  let! found := mgets (fun w => dict_get id (pending w)) in
  mmodify (fun w => set_pending (dict_pop id (pending w)) w) ;!
  match found with
  | None => mraise ConfigError "OAuth authorization request is missing or already completed"
  | Some p =>
      finally_
        (let! code := mlift (wait_for_code (p_state p) polls) in
         request_tokens (p_provider p) (exchange_values p code))
        (close_listener (p_port p))
  end.

(** ** Refreshing *)

Definition refresh_values (p : Provider) (client_id refresh : string) (client_secret : option string) : list (string * string) :=
  [("grant_type", "refresh_token"); ("client_id", client_id); ("refresh_token", refresh); ("scope", join_words (scopes p))]%string
  ++ match client_secret with Some s => if (s == "")%string then [] else [("client_secret", s)]%string | None => [] end.
(** [OAuth2Client.refresh_access_token] *)
Definition refresh_access_token (provider client_id refresh : string) (client_secret tenant : option string)
    (on_refresh_token_rotated : option (string -> M oauth unit)) : M oauth OAuthTokenResponse :=
  if blank client_id || (refresh == "")%string then mraise ConfigError "OAuth client ID and refresh token are required" else
  let! definition := mlift (provider_of provider tenant) in
  let! tokens := request_tokens definition (refresh_values definition client_id refresh client_secret) in
  match refresh_token tokens with
  | None => mret tokens
  | Some r =>
      match on_refresh_token_rotated with
      | None => mraise CredentialStoreError "cannot accept a rotated OAuth refresh token without a persistence callback"
      | Some f =>
          mtry (f r) (fun _ => mraise CredentialStoreError "could not save the rotated OAuth refresh token") ;! mret tokens
      end
  end.

(** ** OAuthAccessTokenProvider *)

Record token_provider := TokenProvider {
  tp_account_id : string; tp_provider : string; tp_client_id : string; tp_tenant : option string }.
(** [__init__] *)
Definition make_token_provider (account provider client_id : string) (tenant : option string) : result token_provider :=
  if (account == "")%string || (provider == "")%string || (client_id == "")%string
  then raise ConfigError "OAuth account configuration is incomplete" else Ok (TokenProvider account provider client_id tenant).
(** [get_access_token] *)
Definition get_access_token (tp : token_provider) (account : string) : M oauth AccessToken :=
  if negb (account == tp_account_id tp) then mraise ConfigError "OAuth token provider was used for a different account" else
  let! t := now in
  let! current := mgets cached in
  let fresh := match current with
               | Some a => if (t + 120000000 <? t_expires_at a)%Z then Some a else None
               | None => None
               end in
  match fresh with
  | Some a => mret a
  | None =>
      let! refresh := on_store (get_secret account "refresh_token") in
      match refresh with
      | None | Some ""%string => mraise AuthenticationError "OAuth account requires reauthorization"
      | Some refresh =>
          let! client_secret := on_store (get_secret account "client_secret") in
          let! response := refresh_access_token (tp_provider tp) (tp_client_id tp) refresh client_secret (tp_tenant tp)
            (Some (fun value => on_store (set_secret account "refresh_token" value))) in
          let a := MkAccessToken (access_token response) (expires_at response) in
          mmodify (set_cached (Some a)) ;! mret a
      end
  end.

(** ** oauth_authorize.py *)

Definition begin_account_authorization (account provider client_id : string) (client_secret tenant : option string)
    (state : string) (port : option Z) (verifier id : string) : M oauth OAuthAuthorizationRequest :=
  match client_secret with
  | Some s => on_store (set_secret account "client_secret" s)
  | None => mret tt
  end ;!
  begin_authorization provider client_id client_secret tenant state port verifier id.
Definition complete_account_authorization (account id : string) (timeout_ok : bool) (polls : list poll) : M oauth unit :=
  let! tokens := complete_authorization id timeout_ok polls in
  match refresh_token tokens with
  | None => mraise AuthenticationError "OAuth provider did not issue a refresh token"
  | Some r => on_store (set_secret account "refresh_token" r)
  end.
End OAuth.
