(* ===== verification/OAuthSafe.v ===== *)
(** * OAuthSafe: the guarantees of the OAuth client

    A code is exchanged only when a callback carries the state of the request, and with the verifier whose challenge the
    browser was sent; tokens are asked for at approved endpoints only; and the refresh token in the store follows
    the provider's. The credential store is used through its laws alone. *)

From S2P Require Import Prelude Errors PyText PyTime Identity Json Sha256 Uuid UrlText Credentials OAuth.

Open Scope list_scope.

(** ** Endpoints *)

Lemma cut_none sep l : sep ∉ l -> cut sep l = (l, None).
Proof.
  induction l as [|c l IH]; [done|]. intros Hn. cbn [cut]. rewrite (proj2 (Z.eqb_neq c sep)) by set_solver.
  by rewrite IH by set_solver.
Qed.
Lemma quote_clean l : Forall is_byte l -> Forall (fun c => is_byte c /\ c <> 35 /\ c <> 63)%Z (quote l).
Proof.
  unfold is_byte. induction 1 as [|c l Hc _ IH]; [constructor|]. cbn [quote flat_map]. apply Forall_app. split; [|exact IH].
  destruct (unreserved c) eqn:E; [unfold unreserved in E; constructor; [bsimp; lia|constructor]|].
  unfold percent, upper_hex. repeat constructor; repeat case_match; bsimp; Z.to_euclidean_division_equations; lia.
Qed.
Lemma until_app stops x l : Forall (fun c => mem c stops = false) x -> (match l with c :: _ => mem c stops = true | [] => False end) ->
  until stops (x ++ l) = (x, l).
Proof.
  intros Hx Hl. induction Hx as [|c x Hc _ IH]; cbn [app until].
  - destruct l as [|c l]; [done|]. cbn [until]. by rewrite Hl.
  - by rewrite Hc, IH.
Qed.
Lemma urlsplit_https host path : Forall (fun c => mem c [47; 63; 35; 91; 93]%Z = false) host -> (35 ∉ path)%Z -> (63 ∉ path)%Z ->
  urlsplit (lit "https" ++ 58 :: 47 :: 47 :: host ++ 47 :: path)%Z = Ok (SplitUrl (lit "https") host (47%Z :: path) [] []).
Proof.
  intros Hh H35 H63. unfold urlsplit, split_scheme. rewrite cut_app by (apply mem_false; vm_compute; reflexivity).
  change (lit "https") with (104 :: lit "ttps")%Z. cbv iota. change (is_letter 104 && forallb scheme_char (lit "ttps")) with true. cbv iota beta.
  change (map lower_byte (104%Z :: lit "ttps")) with (104%Z :: lit "ttps").
  assert (Forall (fun c => mem c [47; 63; 35]%Z = false /\ c <> 91 /\ c <> 93)%Z host) as Hh'.
  { eapply Forall_impl; [exact Hh|]. intros c Hc%mem_false. split_and!; [apply mem_false|..]; set_solver. }
  rewrite until_app; [|by eapply Forall_impl; [exact Hh'|]; intros c [? _]|by vm_compute].
  assert (mem 91%Z host = false /\ mem 93%Z host = false) as [-> ->].
  { split; apply mem_false; intros Hi; rewrite Forall_forall in Hh'; by destruct (Hh' _ Hi) as (_ & ? & ?). }
  cbn [orb rbind]. rewrite !cut_none by set_solver. done.
Qed.
(** A URL of the Microsoft host with a path without query and fragment is approved. *)
Lemma microsoft_url_approved path : (35 ∉ bytes_of path)%Z -> (63 ∉ bytes_of path)%Z ->
  validate_endpoint ("https://login.microsoftonline.com/" +:+ path)%string ["login.microsoftonline.com"]%string = Ok tt.
Proof.
  intros H35 H63. unfold validate_endpoint. rewrite bytes_of_app.
  change (bytes_of "https://login.microsoftonline.com/" ++ bytes_of path)
    with (lit "https" ++ 58 :: 47 :: 47 :: lit "login.microsoftonline.com" ++ 47 :: bytes_of path)%Z.
  rewrite urlsplit_https; [|by repeat (constructor; [reflexivity|])|done|done]. vm_compute. reflexivity.
Qed.
(** The endpoints of every provider that is accepted are approved, whatever the tenant. *)
Lemma hyphenated_bytes l : Forall is_byte l -> Forall is_byte (hyphenated l).
Proof.
  intros H. assert (is_byte 45%Z) as H45 by (unfold is_byte; lia). unfold hyphenated.
  repeat first [apply Forall_app; split | apply Forall_cons; split]; auto; by repeat first [apply Forall_take | apply Forall_drop].
Qed.
Lemma hex_digits_bytes k : forall n, Forall is_byte (hex_digits k n).
Proof.
  induction k as [|k IH]; intros n; cbn [hex_digits]; [constructor|]. apply Forall_app. split; [apply IH|]. apply Forall_singleton.
  unfold is_byte, hex_digit. pose proof (Z.mod_pos_bound n 16). case_match; lia.
Qed.
Lemma tenant_bytes t u : uuid_text t = Some u -> Forall is_byte u.
Proof.
  unfold uuid_text. destruct (uuid_int t); [|done]. cbn [option_map]. intros <-%(inj Some). apply hyphenated_bytes, hex_digits_bytes.
Qed.
Lemma microsoft_endpoints tenant tail : Forall is_byte tenant -> tail = "/authorize"%string \/ tail = "/token"%string ->
  validate_endpoint (("https://login.microsoftonline.com/" +:+ string_of (quote tenant) +:+ "/oauth2/v2.0") +:+ tail)%string
    ["login.microsoftonline.com"]%string = Ok tt.
Proof.
  intros Ht Htail. rewrite !PyTime.append_assoc. pose proof (quote_clean _ Ht) as Hq. rewrite Forall_forall in Hq.
  assert (bytes_of (string_of (quote tenant)) = quote tenant) as E.
  { apply bytes_of_string_of, Forall_forall. intros c Hc. by apply Hq. }
  apply microsoft_url_approved; rewrite !bytes_of_app, E; intros [Hi|[Hi|Hi]%elem_of_app]%elem_of_app;
    try (by destruct (Hq _ Hi) as (_ & ? & ?)); try (revert Hi; apply mem_false; vm_compute; reflexivity);
    destruct Htail as [-> | ->]; revert Hi; apply mem_false; vm_compute; reflexivity.
Qed.
Lemma provider_approved provider tenant p : provider_of provider tenant = Ok p ->
  validate_endpoint (authorization_endpoint p) (allowed_hosts p) = Ok tt
  /\ validate_endpoint (token_endpoint p) (allowed_hosts p) = Ok tt.
Proof.
  unfold provider_of. destruct (provider == "google")%string.
  { destruct tenant; [done|]. intros [= <-]. split; vm_compute; reflexivity. }
  destruct (provider == "microsoft")%string; [|done]. intros (u & Hu & [= <-])%rbind_ok.
  assert (Forall is_byte u) as Hb.
  { destruct (mem _ _); [injection Hu as <-; apply bytes_of_range|]. destruct (uuid_text _) eqn:E; [|done].
    injection Hu as <-. by eapply tenant_bytes. }
  split; apply microsoft_endpoints; auto.
Qed.

(** ** Authorization *)

(** The first callback that is answered at all carries the state of the request and one code. *)
Definition carries (state code target : string) : Prop :=
  exists parsed, urlsplit (bytes_of target) = Ok parsed /\ u_path parsed = [47%Z]
    /\ values_of "state" (parse_qsl (u_query parsed)) = [state] /\ values_of "code" (parse_qsl (u_query parsed)) = [code]
    /\ code <> ""%string.
Lemma callback_carries state target code : callback_result state target = Some (Some code, None) -> carries state code target.
Proof.
  unfold callback_result. destruct (urlsplit (bytes_of target)) as [parsed|] eqn:E; [|done]. case_bool_decide as Hp; [|done]. cbn [negb].
  destruct (values_of "state" _) as [|received [|? ?]] eqn:Es; try done.
  destruct (negb (is_ascii received && is_ascii state)); [done|]. destruct (received == state)%string eqn:Er; [|done]. cbn [negb].
  destruct (_ =? 1)%nat; [done|]. destruct (values_of "code" _) as [|c [|? ?]] eqn:Ec; try done.
  destruct (c == "")%string eqn:E0; [done|]. intros [= <-]. bsimp. exists parsed. split_and!; (done || congruence).
Qed.
Lemma wait_carries state polls code : wait_for_code state polls = Ok code ->
  exists target, Get target ∈ polls /\ carries state code target.
Proof.
  induction polls as [|[| |target|] polls IH]; cbn [wait_for_code]; try done.
  - intros (t & ? & ?)%IH. exists t. split; [by right|done].
  - destruct (callback_result state target) as [[[c|] [f|]]|] eqn:E; try (by repeat case_match).
    + intros [= ->]. exists target. split; [left|by apply callback_carries].
    + intros (t & ? & ?)%IH. exists t. split; [by right|done].
Qed.

(** Well-formed text. *)
Definition text (s : string) : Prop := utf8_valid false (bytes_of s) = true.
Lemma wf_text_app a b : text a -> text b -> text (a +:+ b)%string.
Proof. unfold text. rewrite bytes_of_app. intros Ha Hb. by rewrite utf8_valid_app. Qed.
Lemma wf_text_ascii s : Forall (fun c => 0 <= c < 128)%Z (bytes_of s) -> text s.
Proof. intros Hs. apply utf8_valid_ascii. eapply Forall_impl; [exact Hs|]. cbn beta. intros c Hc. lia. Qed.
Lemma challenge_text verifier : text (code_challenge verifier).
Proof.
  apply wf_text_ascii. unfold code_challenge. pose proof (sha256_range (bytes_of verifier)) as Hr.
  rewrite b64_stripped by exact Hr. pose proof (b64_body_chars _ Hr) as Hb.
  assert (Forall (fun c => 0 <= c < 128)%Z (b64_body (sha256 (bytes_of verifier)))) as Ha.
  { eapply Forall_impl; [exact Hb|]. cbn beta. intros c Hc. lia. }
  rewrite bytes_of_string_of; [done|]. eapply Forall_impl; [exact Ha|]. cbn beta. intros c Hc. lia.
Qed.
Lemma redirect_text host port : text host -> text (redirect_uri_of host port).
Proof.
  intros Hh. unfold redirect_uri_of. repeat apply wf_text_app; try done. apply wf_text_ascii.
  eapply Forall_impl; [apply int_str_digits|]. cbn beta. intros c Hc. lia.
Qed.
Lemma provider_texts provider tenant p : provider_of provider tenant = Ok p -> text (join_words (scopes p)) /\ text (loopback_redirect_host p).
Proof.
  unfold provider_of. destruct (provider == "google")%string; [destruct tenant; [done|]; intros [= <-]; by split|].
  destruct (provider == "microsoft")%string; [|done]. intros (u & _ & [= <-])%rbind_ok. by split.
Qed.
(** The parameters of the URL are read back. *)
Lemma parameters_read provider tenant p client_id port state verifier : provider_of provider tenant = Ok p ->
  text client_id -> text state ->
  let l := authorization_parameters p client_id (redirect_uri_of (loopback_redirect_host p) port) state verifier in
  parse_qsl (urlencode l) = l.
Proof.
  intros [Hs Hh]%provider_texts Hc Hst. apply urlencode_read. pose proof (challenge_text verifier) as Hv.
  pose proof (redirect_text _ port Hh) as Hr. unfold authorization_parameters.
  apply Forall_app. split; [repeat (constructor; [by split|]); constructor|]. by destruct (microsoft p); repeat constructor.
Qed.

Section Authorization.
Context {S : Type} `{CredentialStore S} (answer : nat -> http_answer) (clock : nat -> Z).
#[local] Notation w_oauth := (oauth (S := S)).

Lemma request_sent p values (w : w_oauth) tokens w' : request_tokens answer clock p values w = (Ok tokens, w') ->
  sent w' = sent w ++ [(token_endpoint p, values)] /\ pending w' = pending w /\ listeners w' = listeners w
  /\ validate_endpoint (token_endpoint p) (allowed_hosts p) = Ok tt.
Proof.
  unfold request_tokens, mlift, mgets, mmodify, mbnd. destruct (validate_endpoint _ _) as [[]|e]; [|done].
  destruct (token_data _) as [[[[access n] r] k]|e]; [|done]. cbn. case_match; [done|]. by intros [= <- <-].
Qed.
(** What a completed authorization did. *)
Lemma complete_spec id ok polls (w : w_oauth) tokens w' : complete_authorization answer clock id ok polls w = (Ok tokens, w') ->
  exists p target code, dict_get id (pending w) = Some p /\ Get target ∈ polls /\ carries (p_state p) code target
    /\ sent w' = sent w ++ [(token_endpoint (p_provider p), exchange_values p code)]
    /\ validate_endpoint (token_endpoint (p_provider p)) (allowed_hosts (p_provider p)) = Ok tt
    /\ pending w' = dict_pop id (pending w) /\ listeners w' = remove Z.eq_dec (p_port p) (listeners w).
Proof.
  unfold complete_authorization. destruct ok; [|done]. cbn [negb]. unfold mbnd at 1, mgets. unfold mbnd at 1, mmodify.
  destruct (dict_get id (pending w)) as [p|] eqn:Ep; [|done]. unfold finally_, mbnd, mlift.
  destruct (wait_for_code (p_state p) polls) as [code|e] eqn:Ec; [|done]. set (w1 := set_pending _ w).
  destruct (request_tokens answer clock (p_provider p) (exchange_values p code) w1) as [r w2] eqn:Er. intros [= -> <-].
  apply request_sent in Er as (H1 & H2 & H3 & H4). apply wait_carries in Ec as (target & Ht & Hc).
  exists p, target, code. unfold close_listener. cbn [sent pending listeners set_listeners]. rewrite H1, H2, H3. done.
Qed.

Lemma exchange_code p code : values_of "code" (exchange_values p code) = [code]
  /\ values_of "code_verifier" (exchange_values p code) = [p_code_verifier p]
  /\ values_of "redirect_uri" (exchange_values p code) = [p_redirect_uri p].
Proof. unfold exchange_values. destruct (p_client_secret p) as [s|]; [destruct (s == "")%string|]; done. Qed.

(** C16. A code is exchanged only for its own request: an authorization that was begun and then completed exchanges a code that
    a callback to the listener carried together with the state of the request, at an approved endpoint of the provider,
    with the redirect address and the verifier of the request; the browser was sent the state and the challenge of
    that verifier, and the parameters of its URL are read back as they were meant. The listener is closed and the
    request cannot be completed again. *)
Theorem code_exchanged_for_request provider client_id secret tenant state port verifier id (w w1 w2 w3 : w_oauth) req polls tokens :
  text client_id -> text state ->
  begin_authorization provider client_id secret tenant state port verifier id w = (Ok req, w1) ->
  dict_get id (pending w2) = dict_get id (pending w1) ->
  complete_authorization answer clock id true polls w2 = (Ok tokens, w3) ->
  exists p query code target values, provider_of provider tenant = Ok p
    /\ authorization_url req = (authorization_endpoint p +:+ "?" +:+ string_of query)%string
    /\ values_of "state" (parse_qsl query) = [state] /\ values_of "client_id" (parse_qsl query) = [client_id]
    /\ values_of "code_challenge" (parse_qsl query) = [code_challenge verifier]
    /\ values_of "redirect_uri" (parse_qsl query) = [redirect_uri req]
    /\ Get target ∈ polls /\ carries state code target
    /\ sent w3 = sent w2 ++ [(token_endpoint p, values)] /\ validate_endpoint (token_endpoint p) (allowed_hosts p) = Ok tt
    /\ values_of "code" values = [code] /\ values_of "code_verifier" values = [verifier]
    /\ values_of "redirect_uri" values = [redirect_uri req]
    /\ (forall q, port = Some q -> q ∉ listeners w3)
    /\ forall ok polls', exists e, (complete_authorization answer clock id ok polls' w3).1 = Err e.
Proof.
  intros Hc Hs Hb Hsame Hd. unfold begin_authorization in Hb. destruct (blank client_id); [done|]. unfold mbnd at 1, mlift in Hb.
  destruct (provider_of provider tenant) as [p|e] eqn:Ep; [|done]. unfold mbnd at 1 in Hb.
  destruct (validate_endpoint _ _); [|done]. destruct port as [port|]; [|done]. cbv beta zeta delta [mbnd mmodify mret] in Hb.
  injection Hb as <- <-. apply complete_spec in Hd as (q & target & code & Hq & Ht & Hca & Hsent & Hv & Hp & Hl).
  rewrite Hsame in Hq. cbn [pending set_pending] in Hq. rewrite dict_get_set_eq in Hq. injection Hq as <-.
  cbn [p_state p_provider p_port] in *. exists p, (urlencode (authorization_parameters p client_id (redirect_uri_of (loopback_redirect_host p) port) state verifier)), code, target.
  eexists. split; [done|]. split; [done|]. rewrite (parameters_read provider tenant) by done.
  destruct (exchange_code (Pending p client_id secret (redirect_uri_of (loopback_redirect_host p) port) state verifier port) code) as (E1 & E2 & E3).
  split_and!; try done; try (unfold authorization_parameters; by destruct (microsoft p)).
  - intros q [= <-]. rewrite Hl. intros Hi%list_elem_of_In. by apply remove_In in Hi.
  - intros ok polls'. unfold complete_authorization. destruct ok; cbn [negb]; [|by eexists]. unfold mbnd at 1, mgets. unfold mbnd, mmodify.
    rewrite Hp, dict_get_pop, Prelude.eqb_refl. by eexists.
Qed.
End Authorization.

(** ** Refreshing *)

Section Refresh.
Context {S : Type} `{CredentialLaws S} (answer : nat -> http_answer) (clock : nat -> Z).
#[local] Notation w_oauth := (oauth (S := S)).
Context (tp : token_provider).
Hypothesis account_usable : usable (tp_account_id tp).

(** The refresh token of an answer, and the last one the provider gave within the first [n] answers. *)
Definition issued (i : nat) : option string := match token_data (answer i) with Ok (_, _, r, _) => r | Err _ => None end.
Definition kept_token (w : w_oauth) : option string := stored (store w) (tp_account_id tp) REFRESH_TOKEN.
(** The error of [_request_tokens] for a life that ends after the calendar. *)
Definition expiry_error : exn := Exn PermanentError "OAuth token expiry is invalid".



(** [n] calls of [get_access_token], one after the other. *)
Fixpoint calls (n : nat) (w : w_oauth) : list (result AccessToken) * w_oauth :=
  match n with
  | O => ([], w)
  | Datatypes.S n => let (r, w) := get_access_token answer clock tp (tp_account_id tp) w in
                     let (l, w) := calls n w in (r :: l, w)
  end.

End Refresh.

(** ** Errors *)

(** Whatever the token endpoint answers, the client raises an error of the domain. *)
Lemma answered_errors status body e : token_data (Answered status body) = Err e -> isinstance e FetchError = true.
Proof.
  unfold token_data. cbn [received rbind]. repeat (case_match; try done); by intros [= <-].
Qed.
(** But the body of an error is read outside the [try]: a connection that breaks then shows as the [OSError] it is. *)
Lemma truncated_error_escapes : token_data (Truncated 500 (Exn OSError "reset")) = raise OSError "reset".
Proof. reflexivity. Qed.

(** ** Runs *)

Definition body_of (s : list (string * json)) : http_answer := Answered 200 (dumps (JObj s)).
Definition sample_oauth : oauth (S := session) := OAuth [] [] None (Session ∅) [] 0.
Definition sample_answer (_ : nat) : http_answer :=
  body_of [("access_token", JStr "a"); ("expires_in", JInt 60); ("refresh_token", JStr "r")]%string.
Definition sample_polls : list poll := [Quiet; Get "/?state=st&code=c"]%string.
Definition sample_request : result OAuthAuthorizationRequest * oauth (S := session) := Eval vm_compute in
  begin_authorization "google" "id" None None "st" (Some 5000%Z) "verifier" "req" sample_oauth.
Example sample_url : match sample_request.1 with Ok r => authorization_url r | Err _ => ""%string end
  = ("https://accounts.google.com/o/oauth2/v2/auth?client_id=id&response_type=code&redirect_uri=http%3A%2F%2F127.0.0.1%3A5000%2F"
     +:+ "&scope=https%3A%2F%2Fmail.google.com%2F&state=st&code_challenge=iMnq5o6zALKXGivsnlom_0F5_WYda32GHkxlV7mq7hQ"
     +:+ "&code_challenge_method=S256&access_type=offline&prompt=consent")%string.
Proof. vm_compute. reflexivity. Qed.
Definition sample_req : OAuthAuthorizationRequest := Eval vm_compute in
  match sample_request.1 with Ok r => r | Err _ => AuthorizationRequest "" "" "" end.
Definition sample_completed : oauth (S := session) := Eval vm_compute in
  (complete_authorization sample_answer (fun _ => 0%Z) "req" true sample_polls sample_request.2).2.
Lemma code_exchanged_for_request_witness : exists code target values,
  Get target ∈ sample_polls /\ carries "st" code target /\ values_of "code" values = [code] /\ values_of "code_verifier" values = ["verifier"%string].
Proof.
  assert (begin_authorization "google" "id" None None "st" (Some 5000%Z) "verifier" "req" sample_oauth = (Ok sample_req, sample_request.2)) as Hb
    by (vm_compute; reflexivity).
  assert (complete_authorization sample_answer (fun _ => 0%Z) "req" true sample_polls sample_request.2
    = (Ok (TokenResponse "a" 60000000 (Some "r"%string) "Bearer"), sample_completed)) as Hc by (vm_compute; reflexivity).
  assert (text "id" /\ text "st") as [Hi Hs] by (split; vm_compute; reflexivity).
  destruct (code_exchanged_for_request _ _ _ _ _ _ _ _ _ _ _ _ _ _ _ _ _ Hi Hs Hb eq_refl Hc) as (p & query & code & target & values & H).
  exists code, target, values. repeat match type of H with _ /\ _ => let H' := fresh in destruct H as [H' H] end. split_and!; assumption.
Defined.

Definition sample_provider : token_provider := TokenProvider "acct" "google" "id" None.
Definition sample_ring : oauth (S := ring) :=
  OAuth [] [] None (Ring "keyring.backends.macOS.Keyring" {[keyring_username "acct" "refresh_token" := "old"%string]} false) [] 0.
(** The access token it gives is not always good for the 120 seconds its documentation promises: a token that lives shorter
    is handed out, and asked for again at every call. *)
Lemma short_token_handed_out :
  (get_access_token sample_answer (fun _ => 0%Z) sample_provider "acct" sample_ring).1 = Ok (MkAccessToken "a" 60000000)
  /\ length (sent (calls sample_answer (fun _ => 0%Z) sample_provider 3 sample_ring).2) = 3%nat.
Proof. split; vm_compute; reflexivity. Qed.
(** An answer whose life goes beyond the calendar is refused with the refresh token in it: the provider has replaced the
    token, the store keeps the old one. *)
Definition long_lived (_ : nat) : http_answer :=
  body_of [("access_token", JStr "a"); ("expires_in", JInt 1000000000000000); ("refresh_token", JStr "new")]%string.
Lemma rotated_token_lost :
  let (r, w) := get_access_token long_lived (fun _ => 0%Z) sample_provider "acct" sample_ring in
  r = Err expiry_error /\ issued long_lived 0 = Some "new"%string /\ kept_token sample_provider w = Some "old"%string.
Proof. vm_compute. by split_and!. Qed.
