(* ===== verification/DeleteRemote.v ===== *)
(** * DeleteRemote: deleting messages from the mail server

    [usecases/delete_remote.py] and [usecases/account_guards.py]: the dry run that checks every
    local copy, the execution with its durable intents, and the reconciliation of uncertain
    operations. The server is an environment: a [fetcher] answers each request, possibly
    differently each time; the commands that delete are logged in [World] with the durable state
    they were sent in. [clock] gives the time of each step. *)

From S2P Require Import Prelude Errors PyText PyTime StorageState Identity Json Manifest Database.
From S2P Require Import World EmlStorage SearchPages.
Open Scope string_scope.

(** ** Data *)

Record DeleteCandidate := Candidate {
  dc_message_id : Z;
  dc_account_id : string;
  dc_folder_raw_name : string;
  dc_uid : Z;
  dc_uidvalidity : Z;
  dc_subject : string;
  dc_date_sent : option string;
  dc_internal_date : option string;
  dc_size_bytes : Z;
  dc_relative_path : string;
  dc_file_hash : string;
  dc_message_id_header : option string;
  dc_folder_id : option Z;
}.
Record DeleteExclusion := Exclusion {
  de_message_id : Z; de_reason : string; de_subject : string; de_size_bytes : Z }.
Record DeleteScope := Scope {
  scope_message_ids : list Z; flagged_message_ids : list Z; non_deletable_message_ids : list Z;
  matched_count : Z; flagged_excluded_count : Z; truncated : bool; scope_limit : Z }.
Record DeleteDryRunResult := DryRun {
  candidates : list DeleteCandidate; exclusions : list DeleteExclusion; dr_total_size : Z;
  dr_exclude_flagged : bool; dr_scope : option DeleteScope }.
Record DeleteResult := Deleted {
  completed_ids : list Z; uncertain_ids : list Z; d_skipped_ids : list Z;
  errors : list (Z * string); d_total_size : Z }.

(** The server as the program sees it; the number is the step at which it is asked. *)
Record fetcher := Fetcher {
  select_folder : nat -> string -> result Z;
  list_existing_uids : nat -> string -> result (list Z);
  iter_flags : nat -> string -> list Z -> Z -> result (list (Z * list string));
  supports_uid_expunge : nat -> result bool;
  find_trash_folder : nat -> result (option string);
  remote_reply : nat -> string -> string -> Z -> option Z -> result (option (Z * Z));
}.

Definition ask {A} (f : nat -> result A) : M World A := fun w => (f (ticks w), tick w).

(** [move_remote_message_to_trash], [expunge_remote_message], [remove_remote_membership]: the
    server may have carried out the command whatever it answers. *)
Definition remote_command (ft : fetcher) (mode folder : string) (u : Z) (expected : option Z)
    : M World (option (Z * Z)) :=
  fun w => (remote_reply ft (ticks w) mode folder u expected,
            tick (log_remote (RemoteCall mode folder u expected (committed w) (fs w) (synced w)) w)).

(** [try: m except ...]: the outcome as a value. *)
Definition attempt {A} (m : M World A) : M World (result A) := fun w => let (r, w') := m w in (Ok r, w').

(** ** Account guards *)

Definition is_pst_account (a : account) : bool := provider_type a == "pst_import".
Definition ensure_imap_account (id : string) : M World unit :=
  let! l := db_read list_accounts in
  match List.find (fun a => a_id a == id) l with
  | Some a => mlift (check (negb (is_pst_account a)) PermanentError
                       "PST archive account cannot be used for an IMAP operation")
  | None => mret tt
  end.
Definition ensure_imap_message (m : message) : M World unit :=
  if account_id m == "" then mret tt else ensure_imap_account (account_id m).

(** ** Candidates *)

Definition nonempty (o : option string) : option string :=
  match o with Some s => if s == "" then None else Some s | None => None end.

(** [_folder_names]: folder id to name and UIDVALIDITY. *)
Definition folder_names (account : string) : M World (list (Z * (string * option Z))) :=
  let! l := db_read (list_folders account) in
  mret (flat_map (fun f => if raw_name f == "" then [] else [(f_id f, (raw_name f, f_uidvalidity f))]) l).

Section Delete.
Context (root : list string) (ft : fetcher) (clock : nat -> datetime).

Definition get_timestamp : M World string := mgets (fun w => isoformat (clock (ticks w))).

(** The membership the record is merged with, or the reason there is none. *)
Definition chosen_membership (folder_id : option Z) (l : list (membership * string * option string))
    : option (membership * string * option string) + string :=
  match folder_id with
  | Some f => match List.filter (fun x => (mf_folder_id x.1.1 =? f)%Z) l with
              | [x] => inl (Some x)
              | _ => inr "membership_not_found"
              end
  | None => match l with
            | [] => inl None
            | [x] => inl (Some x)
            | _ => inr "folder_selection_required"
            end
  end.

(** The EML check: the reason it fails, or none. A [StorageDetachedError] is raised again. *)
Definition verify_eml (path hash : string) : M World (option string) :=
  let! r := attempt (read_verified root path hash) in
  match r with
  | Ok _ => mret None
  | Err e =>
      if isinstance e StorageDetachedError then mthrow e
      else if isinstance e FileNotFoundError then mret (Some "eml_missing")
      else if isinstance e StorageError then
        mret (Some (if contains (lit "hash") (casefold (code_points (exn_msg e))) then "hash_mismatch" else "eml_unreadable"))
      else mthrow e
  end.

(** The folder a record is in: its own name when the join gave one, else by its id. *)
Definition record_folder (account : string) (raw : option string) (folder_id : option Z)
    : M World (option (string * option Z)) :=
  match nonempty raw with
  | Some n => mret (Some (n, None))
  | None =>
      let! names := folder_names account in
      mret (folder_id ≫= fun i => dict_get i (rev names))
  end.

(** [_candidate_from_record] *)
Definition candidate_from_record (r : stored) (folder_id : option Z)
    (exclude_flagged require_present : bool) : M World (DeleteCandidate + string) :=
  let m := s_message r in
  let! l := db_read (list_message_memberships (account_id m) (source_item_key m)) in
  match chosen_membership folder_id l with
  | inr reason => mret (inr reason)
  | inl chosen =>
      let mf := match chosen with Some x => Some x.1.1 | None => s_membership r end in
      let raw := option_map (fun x => x.1.2) chosen in
      let state := option_map remote_state mf in
      if require_present && (state != Some "present") then mret (inr "remote_state_not_deletable")
      else if mem state [Some "deleted"; Some "uncertain"] then mret (inr "remote_state_not_deletable")
      else if exclude_flagged && has_imap_flag (mf ≫= imap_flags) "\Flagged" then mret (inr "flagged")
      else if account_id m == "" then mret (inr "account_id_missing")
      else match nonempty (relative_path m), nonempty (file_hash m), mf ≫= uid, mf ≫= uidvalidity,
                 size_bytes m with
           | None, _, _, _, _ => mret (inr "eml_missing")
           | _, None, _, _, _ => mret (inr "file_hash_missing")
           | _, _, None, _, _ => mret (inr "uid_missing")
           | _, _, _, None, _ => mret (inr "uidvalidity_missing")
           | _, _, _, _, None => mret (inr "size_missing")
           | Some path, Some hash, Some u, Some uidv, Some size =>
               if (size <? 0)%Z then mret (inr "size_missing") else
               let! folder := record_folder (account_id m) raw (option_map mf_folder_id mf) in
               match folder with
               | None => mret (inr "folder_missing")
               | Some (name, folder_uidv) =>
                   if match folder_uidv with Some v => negb (v =? uidv)%Z | None => false end
                   then mret (inr "uidvalidity_mismatch") else
                   let! bad := verify_eml path hash in
                   match bad with
                   | Some reason => mret (inr reason)
                   | None =>
                       let! indexed := db_read (has_message_contents (m_id m)) in
                       if negb indexed then mret (inr "message_contents_missing") else
                       mret (inl (Candidate (m_id m) (account_id m) name u uidv (get_or "" (subject m))
                         (date_sent m) (internal_date m) size path hash (message_id m)
                         (option_map mf_folder_id mf)))
                   end
               end
           end
  end.

(** ** The dry run *)

Fixpoint mmap {A B} (f : A -> M World B) (l : list A) : M World (list B) :=
  match l with
  | [] => mret []
  | x :: l => let! y := f x in let! ys := mmap f l in mret (y :: ys)
  end.

Definition exclude (id : Z) (reason : string) (r : option stored) : DeleteExclusion :=
  Exclusion id reason (get_or "" (r ≫= fun r => subject (s_message r)))
    (get_or 0%Z (r ≫= fun r => size_bytes (s_message r))).

(** [fixed_exclusions]: an id in both lists is not deletable. *)
Definition fixed_reason (scope : option DeleteScope) (id : Z) : option string :=
  match scope with
  | None => None
  | Some s => if mem id (non_deletable_message_ids s) then Some "remote_state_not_deletable"
              else if mem id (flagged_message_ids s) then Some "flagged" else None
  end.

(** One selected message: a candidate or an exclusion. *)
Definition dry_run_one (folder_id : option Z) (exclude_flagged : bool) (scope : option DeleteScope)
    (x : Z * option stored) : M World (DeleteCandidate + DeleteExclusion) :=
  let (id, record) := x in
  match fixed_reason scope id with
  | Some reason => mret (inr (exclude id reason record))
  | None =>
      if match scope with Some s => negb (mem id (scope_message_ids s)) | None => false end
      then mret (inr (Exclusion id "outside_delete_scope" "" 0))
      else match record with
           | None => mret (inr (Exclusion id "message_not_found" "" 0))
           | Some r =>
               let! c := candidate_from_record r folder_id exclude_flagged
                           (if scope is Some _ then true else false) in
               mret (match c with
                     | inl c => inl c
                     | inr reason => inr (exclude id reason (Some r))
                     end)
           end
  end.

Definition lefts {A B} (l : list (A + B)) : list A :=
  flat_map (fun x => match x with inl a => [a] | inr _ => [] end) l.
Definition rights {A B} (l : list (A + B)) : list B :=
  flat_map (fun x => match x with inl _ => [] | inr b => [b] end) l.
Definition sum_sizes (l : list DeleteCandidate) : Z :=
  fold_left (fun n c => (n + dc_size_bytes c)%Z) l 0%Z.

Definition dry_run {S} `{StorageGate S} (storage_state : S) (message_ids : list Z) (folder_id : option Z)
    (exclude_flagged : bool) (scope : option DeleteScope) : M World DeleteDryRunResult :=
  let! records := mmap (fun id => db_read (get_message id)) message_ids in
  mfor records (fun r => match r with Some r => ensure_imap_message (s_message r) | None => mret tt end) ;!
  mlift (check (remote_delete_allowed storage_state) StorageDetachedError
           "Remote deletion requires attached storage") ;!
  let! outcomes := mmap (dry_run_one folder_id exclude_flagged scope) (zip message_ids records) in
  mret (DryRun (lefts outcomes) (rights outcomes) (sum_sizes (lefts outcomes)) exclude_flagged scope).

(** [select_delete_scope]: oldest first, undated messages before all others. *)
Definition scope_leb (a b : MessageSummary) : bool :=
  let key s := or_else (ms_date_sent s) (ms_internal_date s) in
  match key a, key b with
  | None, Some _ => true
  | Some _, None => false
  | None, None => (ms_id a <=? ms_id b)%Z
  | Some t, Some u => match datetime_compare t u with
                      | Lt => true | Gt => false | Eq => (ms_id a <=? ms_id b)%Z
                      end
  end.
Definition scope_le (a b : MessageSummary) : Prop := scope_leb a b = true.
#[export] Instance scope_le_dec : RelDecision scope_le.
Proof. intros a b. unfold scope_le. apply _. Defined.

Definition select_delete_scope (items : list MessageSummary) (exclude_flagged : bool) (limit : Z)
    : result DeleteScope :=
  check (0 <? limit)%Z ValueError "limit must be positive" ;?
  let non_deletable := map ms_id (List.filter (fun i => ms_remote_state i != "present") items) in
  let flagged := map ms_id (List.filter (fun i => negb (mem (ms_id i) non_deletable)
                   && exclude_flagged && has_imap_flag (ms_imap_flags i) "\Flagged") items) in
  let eligible := merge_sort scope_le (List.filter (fun i =>
                    negb (mem (ms_id i) non_deletable || mem (ms_id i) flagged)) items) in
  let ids := map ms_id (take_Z limit eligible) in
  Ok (Scope ids flagged non_deletable (Z.of_nat (length items)) (Z.of_nat (length flagged))
        (0 <? Z.of_nat (length items) - Z.of_nat (length non_deletable) - Z.of_nat (length flagged)
              - Z.of_nat (length ids))%Z limit).

(** ** Events and database updates of one deletion *)

(** [_event] *)
Definition delete_event (name : string) (c : DeleteCandidate) (mode ts : string) : event :=
  [("event", JStr name); ("account_id", JStr (dc_account_id c));
   ("folder_raw_name", JStr (dc_folder_raw_name c)); ("uid", JInt (dc_uid c));
   ("uidvalidity", JInt (dc_uidvalidity c)); ("mode", JStr mode); ("timestamp", JStr ts)].

(** [_audit_entry] *)
Definition delete_audit (c : DeleteCandidate) (mode ts : string) : audit_in :=
  AuditIn (Some ts) (Some "remote_delete") (Some (dc_account_id c)) (Some (int_str (dc_message_id c)))
    (Some (dc_subject c)) (Some (dc_size_bytes c))
    (Some ("mode=" ++ mode ++ "; uid=" ++ int_str (dc_uid c) ++ "; folder=" ++ dc_folder_raw_name c)).

(** [_TrashMergePlan] *)
Record TrashMergePlan := MergePlan {
  alias_source_item_key : string;
  duplicate_message_id : option Z;
  identity_event : event;
  snapshot_event : event;
  new_membership : option (list membership);
  trash_folder_id : Z;
}.

Definition jtext (o : option string) : json := match o with Some s => JStr s | None => JNull end.
Definition jint (o : option Z) : json := match o with Some n => JInt n | None => JNull end.
Definition membership_json (mf : membership) (raw : string) (moved_raw : option string) : json :=
  JObj [("folder_raw_name", JStr raw); ("uid", jint (uid mf)); ("uidvalidity", jint (uidvalidity mf));
        ("remote_state", JStr (remote_state mf)); ("moved_to_folder_raw_name", jtext moved_raw);
        ("imap_flags", jtext (imap_flags mf)); ("flags_seen_at", jtext (flags_seen_at mf));
        ("last_seen_at", jtext (last_seen_at mf))].

(** [_build_trash_merge_plan] *)
Definition build_trash_merge_plan (c : DeleteCandidate) (r : stored) (trash : string) (moved : Z * Z)
    : M World (option TrashMergePlan) :=
  let key := source_item_key (s_message r) in
  if key == "" then mret None else
  let! alias_key := mlift (imap_source_item_key trash moved.1 moved.2) in
  if alias_key == key then mret None else
  let! folders := db_read (list_folders (dc_account_id c)) in
  match List.find (fun f => raw_name f == trash) folders with
  | None => mret None
  | Some tf =>
      let! ts := get_timestamp in
      let! l := db_read (list_message_memberships (dc_account_id c) key) in
      let here (mf : membership) := Some (mf_folder_id mf) == dc_folder_id c in
      let remaining := map (fun x => if here x.1.1
        then (set_remote_state "moved" (Some (f_id tf)) x.1.1, x.1.2, Some trash) else x) l in
      let new := Membership (dc_message_id c) (f_id tf) (Some moved.2) (Some moved.1) "present" None None
                   None (Some ts) in
      let! dup := db_read (find_message_id_by_source_item_key (dc_account_id c) alias_key) in
      mret (Some (MergePlan alias_key dup
        [("event", JStr "message_identity_linked"); ("account_id", JStr (dc_account_id c));
         ("canonical_source_item_key", JStr key); ("alias_source_item_key", JStr alias_key);
         ("evidence_kind", JStr "copyuid"); ("file_hash", JStr (dc_file_hash c)); ("timestamp", JStr ts)]
        [("event", JStr "message_membership_snapshot"); ("account_id", JStr (dc_account_id c));
         ("source_item_key", JStr key);
         ("memberships", JList (map (fun x => membership_json x.1.1 x.1.2 x.2) remaining
                                ++ [membership_json new trash None])%list);
         ("timestamp", JStr ts)]
        (match dup with Some _ => None | None => Some (map (fun x => x.1.1) remaining ++ [new])%list end)
        (f_id tf)))
  end.

(** [_commit_completed_state] *)
Definition commit_completed_state (c : DeleteCandidate) (mode ts : string) (r : stored)
    (merge_plan : option TrashMergePlan) : M World unit :=
  begin_batch ;!
  (if mode == "remove_membership" then
     if source_item_key (s_message r) == ""
     then mraise StorageError "Gmail membership removal has no canonical source key" else
     let! l := db_read (list_message_memberships (dc_account_id c) (source_item_key (s_message r))) in
     db_update' (replace_message_memberships (dc_message_id c)
       (map (fun x => x.1.1) (List.filter (fun x => Some (mf_folder_id x.1.1) != dc_folder_id c) l)))
   else match merge_plan with
        | Some p =>
            match duplicate_message_id p, new_membership p with
            | Some dup, _ =>
                db_update' (merge_duplicate_message (dc_account_id c) (dc_message_id c) dup) ;!
                db_update (update_remote_state (dc_message_id c) "moved" (Some (trash_folder_id p))
                             (dc_folder_id c))
            | None, Some l =>
                db_update' (replace_message_memberships (dc_message_id c) l) ;!
                db_update' (add_message_identity_alias (dc_account_id c) (alias_source_item_key p)
                              (dc_message_id c) "copyuid")
            | None, None => mret tt
            end
        | None => db_update (update_remote_state (dc_message_id c) "deleted" None (dc_folder_id c))
        end) ;!
  db_update' (record_audit (delete_audit c mode ts)) ;!
  commit_batch.

(** [_membership_snapshot_event] *)
Definition label_list (j : json) : option (list string) :=
  match j with
  | JList l => if forallb (fun x => match x with JStr _ => true | _ => false end) l
               then Some (flat_map (fun x => match x with JStr s => [s] | _ => [] end) l) else None
  | _ => None
  end.
Definition membership_snapshot_event (c : DeleteCandidate) (r : stored) : M World event :=
  let m := s_message r in
  let key := source_item_key m in
  if key == "" then mraise StorageError "Gmail membership removal has no canonical source key" else
  let! folders := db_read (list_folders (dc_account_id c)) in
  let! l := db_read (list_message_memberships (dc_account_id c) key) in
  let kept := List.filter (fun x => Some (mf_folder_id x.1.1) != dc_folder_id c) l in
  let named x := match nonempty (Some x.1.2) with
                 | Some n => Some n
                 | None => nonempty (option_map raw_name (List.find (fun f => (f_id f =? mf_folder_id x.1.1)%Z) folders))
                 end in
  mlift (check (forallb (fun x => if named x is Some _ then true else false) kept) StorageError
           "Gmail membership snapshot has an unknown folder") ;!
  let! ts := get_timestamp in
  let! labels := match gmail_labels m with
                 | None => mret None
                 | Some s => match loads (bytes_of s) with
                             | Some j => mret (label_list j)
                             | None => mraise StorageError
                                         "Gmail labels are invalid in the local message record"
                             end
                 end in
  mret ([("event", JStr "message_membership_snapshot"); ("account_id", JStr (dc_account_id c));
         ("source_item_key", JStr key);
         ("memberships", JList (map (fun x => membership_json x.1.1 (get_or "" (named x)) x.2) kept));
         ("timestamp", JStr ts)]
        ++ match labels with
           | Some ls => [("gmail_labels", JList (map JStr (List.filter (fun s => s != dc_folder_raw_name c) ls)))]
           | None => []
           end)%list.

(** ** The flag check before an execution *)

Fixpoint join_space (l : list string) : string :=
  match l with [] => "" | [x] => x | x :: l => x ++ " " ++ join_space l end.

(** [grouped_items]: by folder, in the order of first use. *)
Definition group_items (items : list DeleteCandidate) : list (string * list DeleteCandidate) :=
  fold_left (fun d c => dict_set (dc_folder_raw_name c)
                          (get_or [] (dict_get (dc_folder_raw_name c) d) ++ [c])%list d) items [].

(** Flags the server reported, and the messages left out with the reason. *)
Record preflight := Preflight {
  verified_flags : list ((string * Z) * list string); preflight_skips : list (Z * string) }.
Definition skip_all (l : list DeleteCandidate) (reason : string) (p : preflight) : preflight :=
  Preflight (verified_flags p)
    (fold_left (fun d c => dict_set (dc_message_id c) reason d) l (preflight_skips p)).

Definition check_group (g : string * list DeleteCandidate) (p : preflight) : M World preflight :=
  let (name, l) := g in
  match l with
  | [] => mret p
  | c0 :: _ =>
      let expected := dc_uidvalidity c0 in
      if negb (forallb (fun c => (dc_uidvalidity c =? expected)%Z) l)
      then mret (skip_all l "uidvalidity_mismatch" p) else
      let! r := attempt (let! v := ask (fun n => select_folder ft n name) in
                         if negb (v =? expected)%Z then mret None
                         else let! refs := ask (fun n => iter_flags ft n name (map dc_uid l) expected) in
                              mret (Some refs)) in
      match r with
      | Ok None => mret (skip_all l "uidvalidity_mismatch" p)
      | Ok (Some refs) =>
          mret (Preflight (fold_left (fun d ref =>
                  if mem ref.1 (map dc_uid l) then dict_set (name, ref.1) ref.2 d else d)
                  refs (verified_flags p)) (preflight_skips p))
      | Err e =>
          if isinstance e UidValidityChanged then mret (skip_all l "uidvalidity_mismatch" p)
          else if isinstance e TransientError || isinstance e StorageDetachedError then mthrow e
          else if isinstance e FetchError then mret (skip_all l "flag_unverified" p)
          else mthrow e
      end
  end.
Fixpoint check_groups (l : list (string * list DeleteCandidate)) (p : preflight) : M World preflight :=
  match l with [] => mret p | g :: l => let! p := check_group g p in check_groups l p end.

(** What the flags decide for one candidate: the flags seen, and the reason to skip it. *)
Definition flag_decision (p : preflight) (c : DeleteCandidate) : option (list string) * option string :=
  match dict_get (dc_message_id c) (preflight_skips p),
        dict_get (dc_folder_raw_name c, dc_uid c) (verified_flags p) with
  | Some reason, _ => (None, Some reason)
  | None, None => (None, Some "flag_unverified")
  | None, Some flags => (Some flags,
      if has_imap_flag (Some (join_space flags)) "\Flagged" then Some "flagged_on_server" else None)
  end.

(** The [exclude_flagged] block: the candidates left, and the skipped with their reasons. *)
Definition flag_check (items : list DeleteCandidate) : M World (list DeleteCandidate * list (Z * string)) :=
  let! p := check_groups (group_items items) (Preflight [] []) in
  let seen := flat_map (fun c => match (flag_decision p c).1 with Some f => [(c, f)] | None => [] end) items in
  mwhen (if seen is [] then false else true)
    (let! ts := get_timestamp in
     begin_batch ;!
     mfor seen (fun x => match dc_folder_id x.1 with
       | Some fid => db_update (update_flags (dc_account_id x.1) fid (dc_uidvalidity x.1) (dc_uid x.1)
                                  (Some (join_space x.2)) ts)
       | None => mret tt
       end) ;!
     commit_batch) ;!
  mret (List.filter (fun c => if (flag_decision p c).2 is None then true else false) items,
        flat_map (fun c => match (flag_decision p c).2 with
                           | Some reason => [(dc_message_id c, reason)] | None => [] end) items).

(** ** Execution *)

Definition skip_delete (id : Z) (reason : string) (r : DeleteResult) : DeleteResult :=
  Deleted (completed_ids r) (uncertain_ids r) (d_skipped_ids r ++ [id])%list
    (errors r ++ [(id, reason)])%list (d_total_size r).

Definition same_target (a b : DeleteCandidate) : bool :=
  (dc_file_hash a == dc_file_hash b) && (dc_relative_path a == dc_relative_path b)
  && (dc_uid a =? dc_uid b)%Z && (dc_uidvalidity a =? dc_uidvalidity b)%Z
  && (dc_folder_raw_name a == dc_folder_raw_name b).

(** After the command succeeded: the completion events, then the database. *)
Definition complete_delete (c : DeleteCandidate) (r : stored) (mode : string) (google : list string)
    (trash : option string) (moved : option (Z * Z)) : M World unit :=
  let! merge_plan :=
    match (if (mode == "trash") && negb (mem (dc_account_id c) google) then (moved, trash) else (None, None)) with
    | (Some mv, Some t) => build_trash_merge_plan c r t mv
    | _ => mret None
    end in
  let! ts := get_timestamp in
  man_append (delete_event "remote_delete_completed" c mode ts) ;!
  (if mode == "remove_membership" then
     let! e := membership_snapshot_event c r in man_append e
   else match merge_plan with
        | Some p => man_append (identity_event p) ;! man_append (snapshot_event p)
        | None => mret tt
        end) ;!
  flush_and_sync ;!
  commit_completed_state c mode ts r merge_plan.

(** One planned deletion; [invalid] are the folders whose UIDVALIDITY changed. *)
Definition delete_one (mode : string) (exclude_flagged : bool) (google : list string)
    (trash : option string) (planned : DeleteCandidate) (st : list string * DeleteResult)
    : M World (list string * DeleteResult) :=
  let (invalid, res) := st in
  let skip reason := (invalid, skip_delete (dc_message_id planned) reason res) in
  if mem (dc_folder_raw_name planned) invalid then mret (skip "uidvalidity_mismatch") else
  let! record := db_read (get_message (dc_message_id planned)) in
  match record with
  | None => mret (skip "message_not_found")
  | Some r =>
      let! verified := candidate_from_record r (dc_folder_id planned) false false in
      match verified with
      | inr reason => mret (skip reason)
      | inl c =>
          if negb (same_target c planned) then mret (skip "plan_stale") else
          let! ts := get_timestamp in
          man_append (delete_event "remote_delete_intent" c mode ts) ;!
          flush_and_sync ;!
          let! reply := attempt (remote_command ft mode (dc_folder_raw_name c) (dc_uid c)
                                   (if exclude_flagged then Some (dc_uidvalidity c) else None)) in
          match reply with
          | Err e =>
              if isinstance e UidValidityChanged then
                mret ((invalid ++ [dc_folder_raw_name c])%list,
                      skip_delete (dc_message_id c) "uidvalidity_mismatch" res)
              else if isinstance e TransientError || isinstance e StorageDetachedError then
                let! ts := get_timestamp in
                man_append (delete_event "remote_delete_uncertain" c mode ts) ;!
                flush_and_sync ;!
                mret (invalid, Deleted (completed_ids res) (uncertain_ids res ++ [dc_message_id c])%list
                        (d_skipped_ids res) (errors res ++ [(dc_message_id c, exn_msg e)])%list
                        (d_total_size res))
              else if isinstance e FetchError then
                mret (invalid, skip_delete (dc_message_id c) (exn_msg e) res)
              else mthrow e
          | Ok moved =>
              complete_delete c r mode google trash moved ;!
              mret (invalid, Deleted (completed_ids res ++ [dc_message_id c])%list (uncertain_ids res)
                      (d_skipped_ids res) (errors res) (d_total_size res + dc_size_bytes c)%Z)
          end
      end
  end.
Fixpoint delete_loop (mode : string) (exclude_flagged : bool) (google : list string)
    (trash : option string) (items : list DeleteCandidate) (st : list string * DeleteResult)
    : M World DeleteResult :=
  match items with
  | [] => mret st.2
  | c :: items => let! st := delete_one mode exclude_flagged google trash c st in
                  delete_loop mode exclude_flagged google trash items st
  end.

(** [execute] *)
Definition execute {S} `{StorageGate S} (storage_state : S) (items : list DeleteCandidate)
    (mode : string) (delete_batch_limit : Z) (exclude_flagged : bool) : M World DeleteResult :=
  mfor items (fun c => ensure_imap_account (dc_account_id c)) ;!
  mlift (check (remote_delete_allowed storage_state) StorageDetachedError
           "Remote deletion requires attached storage") ;!
  mlift (check (mem mode ["trash"; "expunge"; "remove_membership"]) ValueError
           "mode must be 'trash', 'expunge', or 'remove_membership'") ;!
  mlift (check (0 <? delete_batch_limit)%Z ValueError "delete_batch_limit must be positive") ;!
  mlift (check (Z.of_nat (length items) <=? delete_batch_limit)%Z ValueError
           "delete plan exceeds the batch limit") ;!
  let! accounts := db_read list_accounts in
  let google := map a_id (List.filter (fun a => oauth_provider a == Some "google") accounts) in
  mlift (check (negb ((mode == "expunge") && existsb (fun c => mem (dc_account_id c) google) items))
           PermanentError "Gmail accounts do not support remote expunge") ;!
  mlift (check (negb ((mode == "remove_membership")
                      && negb (forallb (fun c => mem (dc_account_id c) google) items)))
           PermanentError "remote membership removal is only supported for Gmail labels") ;!
  let! supported := if mode == "expunge" then ask (supports_uid_expunge ft) else mret true in
  mlift (check supported PermanentError "UID EXPUNGE is not supported by this IMAP server") ;!
  let wants_trash := (mode == "trash") && (if items is [] then false else true) in
  let! trash := if wants_trash then ask (find_trash_folder ft) else mret None in
  mlift (check (negb (wants_trash && (if trash is None then true else false))) PermanentError
           "could not identify the remote trash folder") ;!
  let! kept := if exclude_flagged && (if items is [] then false else true) then flag_check items
               else mret (items, []) in
  let (to_delete, skipped) := (kept : list DeleteCandidate * list (Z * string)) in
  delete_loop mode exclude_flagged google trash to_delete
    ([], Deleted [] [] (map fst skipped) skipped 0).

(** ** Reconciliation *)

(** [_message_by_uid]: each message with its first membership only. *)
Definition message_by_uid (account : string) (folder_id : option Z) (uidv u : Z) : M World (option stored) :=
  let! l := db_read (list_stored_messages (Some account)) in
  mret (List.find (fun r => match s_membership r with
    | Some mf => (Some (mf_folder_id mf) == folder_id) && (uidvalidity mf == Some uidv) && (uid mf == Some u)
    | None => false
    end) l).

(** [_candidate_for_reconciliation]: the candidate carries no folder. *)
Definition candidate_for_reconciliation (r : stored) (account folder : string) (u uidv : Z)
    : option DeleteCandidate :=
  let m := s_message r in
  match size_bytes m, relative_path m, file_hash m with
  | Some size, Some path, Some hash =>
      Some (Candidate (m_id m) account folder u uidv (get_or "" (subject m)) (date_sent m)
              (internal_date m) size path hash (message_id m) None)
  | _, _, _ => None
  end.

(** Whether the server, asked about the folder, no longer has the UID. *)
Definition uid_is_gone (folder : string) (u uidv : Z) : M World bool :=
  let! r := attempt (let! v := ask (fun n => select_folder ft n folder) in
                     if negb (v =? uidv)%Z then mret false
                     else let! uids := ask (fun n => list_existing_uids ft n folder) in
                          mret (negb (mem u uids))) in
  match r with
  | Ok gone => mret gone
  | Err e => if isinstance e TransientError || isinstance e StorageDetachedError || isinstance e FetchError
             then mret false else mthrow e
  end.

Definition reconcile_one (intent : event) : M World unit :=
  if event_name intent != Some "remote_delete_intent" then mret tt else
  match text_of "account_id" intent, text_of "folder_raw_name" intent, int_of "uid" intent,
        int_of "uidvalidity" intent, text_of "mode" intent with
  | Some account, Some folder, Some u, Some uidv, Some mode =>
      if negb (mem mode ["trash"; "expunge"; "remove_membership"]) then mret tt else
      let! gone := uid_is_gone folder u uidv in
      if negb gone then mret tt else
      let! folders := db_read (list_folders account) in
      let folder_id := option_map f_id (List.find (fun f => raw_name f == folder) folders) in
      let! record := message_by_uid account folder_id uidv u in
      match record ≫= fun r => option_map (pair r) (candidate_for_reconciliation r account folder u uidv) with
      | None => mret tt
      | Some (r, c) =>
          let! ts := get_timestamp in
          man_append (delete_event "remote_delete_completed" c mode ts) ;!
          mwhen (mode == "remove_membership")
            (let! e := membership_snapshot_event c r in man_append e) ;!
          flush_and_sync ;!
          commit_completed_state c mode ts r None
      end
  | _, _, _, _, _ => mret tt
  end.

Definition reconcile_uncertain_deletes {S} `{StorageGate S} (storage_state : S) : M World unit :=
  mlift (check (remote_delete_allowed storage_state) StorageDetachedError
           "Remote-delete reconciliation requires attached storage") ;!
  let! intents := io (mgets (fun w => incomplete_intents (synced w))) in
  mfor intents reconcile_one.
End Delete.
Close Scope string_scope.

(** ** What a step leaves alone *)

(** Nothing but the step counter changes. *)
Definition frozen (w w' : World) : Prop :=
  committed w' = committed w /\ working w' = working w /\ fs w' = fs w /\ synced w' = synced w
  /\ buffered w' = buffered w /\ remote w' = remote w.
#[export] Instance frozen_preorder : PreOrder frozen.
Proof. split; [by intros w|]. intros x y z. unfold frozen. intuition congruence. Qed.

(** No command is sent. *)
Definition silent (w w' : World) : Prop := remote w' = remote w.
#[export] Instance silent_preorder : PreOrder silent.
Proof. split; [by intros w|]. intros x y z. unfold silent. congruence. Qed.

Section Steps.
Context (R : World -> World -> Prop) `{!PreOrder R} (Htick : forall w w', R w w' -> R w (tick w')).

Lemma preserves_io {A} (m : M World A) : preserves R m -> preserves R (io m).
Proof.
  intros Hm w. unfold io. assert (R w (tick w)) as Ht by (apply Htick; reflexivity).
  case_match; [done|]. etransitivity; [exact Ht|apply Hm].
Qed.
Lemma preserves_read {A} (f : Db -> A) : preserves R (db_read f).
Proof. apply preserves_io. intros w. reflexivity. Qed.
Lemma preserves_ask {A} (f : nat -> result A) : preserves R (ask f).
Proof. intros w. apply Htick. reflexivity. Qed.
Lemma preserves_attempt {A} (m : M World A) : preserves R m -> preserves R (attempt m).
Proof. intros Hm w. specialize (Hm w). unfold attempt. by destruct (m w). Qed.
Lemma preserves_throw {A} e : preserves R (@mthrow World A e).
Proof. intros w. reflexivity. Qed.
Lemma preserves_map {A B} (f : A -> M World B) l : (forall x, preserves R (f x)) -> preserves R (mmap f l).
Proof.
  intros Hf. induction l as [|x l IH]; [apply preserves_ret; apply _|].
  apply preserves_bnd; [apply _|done|]. intros y. apply preserves_bnd; [apply _|done|].
  intros ys. apply preserves_ret. apply _.
Qed.
Lemma preserves_read_bytes p : preserves R (read_bytes p).
Proof. apply preserves_io. intros w. by case_match. Qed.
End Steps.

Lemma frozen_tick w w' : frozen w w' -> frozen w (tick w').
Proof. done. Qed.
Lemma silent_tick w w' : silent w w' -> silent w (tick w').
Proof. done. Qed.
#[local] Hint Resolve preserves_io preserves_read preserves_ask preserves_attempt preserves_throw
  preserves_map preserves_read_bytes frozen_tick silent_tick : maildock.

(** Follow the structure of a computation whose steps all respect the relation. *)
Ltac respect :=
  repeat first
    [ progress intros
    | apply preserves_bnd; [apply _| |]
    | apply preserves_ret; apply _ | apply preserves_lift; apply _ | apply preserves_raise; apply _
    | apply preserves_gets; apply _ | apply preserves_throw; apply _
    | apply preserves_when; [apply _|] | apply preserves_for; [apply _|]
    | apply preserves_read; [apply _|auto with maildock]
    | apply preserves_read_bytes; [apply _|auto with maildock]
    | apply preserves_ask; [apply _|auto with maildock]
    | apply preserves_attempt
    | apply preserves_map; [apply _|]
    | progress cbv beta zeta
    | case_match ].

Section Frames.
Context (root : list string) (ft : fetcher) (clock : nat -> datetime).

Lemma frozen_read_verified path hash : preserves frozen (read_verified root path hash).
Proof. unfold read_verified, file_at. respect. Qed.

Lemma frozen_record_folder account raw fid : preserves frozen (record_folder account raw fid).
Proof. unfold record_folder, folder_names. respect. Qed.

Lemma frozen_candidate r fid flagged present :
  preserves frozen (candidate_from_record root r fid flagged present).
Proof.
  unfold candidate_from_record, verify_eml.
  respect; first [apply frozen_record_folder | apply frozen_read_verified].
Qed.

Lemma frozen_ensure id : preserves frozen (ensure_imap_account id).
Proof. unfold ensure_imap_account. respect. Qed.

Lemma frozen_check_groups l : forall p, preserves frozen (check_groups ft l p).
Proof. induction l as [|g l IH]; intros p; cbn [check_groups]; unfold check_group; respect; apply IH. Qed.
End Frames.

(** ** What a candidate guarantees *)

(** A message of the account at that folder, UID and UIDVALIDITY, not already deleted, whose EML
    file is present with the recorded hash and whose contents are indexed. *)
Definition verified_copy (root : list string) (d : Db) (files : list (string * bytes))
    (account folder : string) (u uidv : Z) : Prop :=
  exists m path hash p content owner mf f,
    m ∈ messages d /\ account_id m = account /\ has_message_contents (m_id m) d = true
    /\ relative_path m = Some path /\ file_hash m = Some hash
    /\ resolve_inside root path = Ok p /\ dict_get (join p) files = Some content
    /\ Sha256.hexdigest content = fold_hash hash
    /\ owner ∈ messages d /\ account_id owner = account /\ source_item_key owner = source_item_key m
    /\ mf ∈ memberships_of (m_id owner) d /\ uid mf = Some u /\ uidvalidity mf = Some uidv
    /\ remote_state mf ∉ ["deleted"; "uncertain"]%string
    /\ f ∈ folders d /\ f_id f = mf_folder_id mf /\ raw_name f = folder.

Lemma elem_of_flat_map {A B} (f : A -> list B) l y : y ∈ flat_map f l <-> exists x, x ∈ l /\ y ∈ f x.
Proof. rewrite list_elem_of_In, in_flat_map. by setoid_rewrite list_elem_of_In. Qed.

(** The owner of a membership the record is merged with. *)
Definition owned_by (m : message) (mf : membership) (d : Db) : Prop :=
  exists owner, owner ∈ messages d /\ account_id owner = account_id m
    /\ source_item_key owner = source_item_key m /\ mf ∈ memberships_of (m_id owner) d.

Lemma list_message_memberships_owner account key d x :
  x ∈ list_message_memberships account key d ->
  (exists owner, owner ∈ messages d /\ account_id owner = account /\ source_item_key owner = key
     /\ x.1.1 ∈ memberships_of (m_id owner) d)
  /\ exists f, f ∈ folders d /\ f_id f = mf_folder_id x.1.1 /\ raw_name f = x.1.2.
Proof.
  intros (m & Hm & Hx)%elem_of_flat_map. destruct (_ && _) eqn:E; [|by apply elem_of_nil in Hx]. bsimp.
  apply elem_of_flat_map in Hx as (mf & Hmf & Hx).
  destruct (folder_with (mf_folder_id mf) d) as [f|] eqn:Ef; [|by apply elem_of_nil in Hx].
  apply list_elem_of_singleton in Hx as ->. apply List.find_some in Ef as [Hf Ef]. bsimp. split.
  - exists m. split_and!; [done..|]. simpl. unfold by_folder in Hmf.
    by rewrite (merge_sort_Permutation folder_le) in Hmf.
  - exists f. by rewrite list_elem_of_In.
Qed.

Lemma chosen_membership_in fid l x : chosen_membership fid l = inl (Some x) -> x ∈ l.
Proof.
  unfold chosen_membership. destruct fid as [f|].
  - destruct (List.filter _ l) as [|y [|z l']] eqn:E; try done. intros [= <-].
    apply list_elem_of_In. eapply proj1, filter_In. rewrite E. by left.
  - destruct l as [|y [|z l']]; try done. intros [= <-]. by left.
Qed.

Lemma first_membership_in id d mf : first_membership id d = Some mf -> mf ∈ memberships_of id d.
Proof.
  unfold first_membership, by_folder. pose proof (merge_sort_Permutation folder_le (memberships_of id d)) as Hp.
  destruct (merge_sort _ _) as [|x l]; [done|]. intros [= <-]. rewrite <- Hp. by left.
Qed.

Section Verified.
Context (root : list string).

Lemma frozen_view w w' : frozen w w' -> view w' = view w /\ fs w' = fs w.
Proof. intros (E1 & E2 & E3 & _). unfold view. by rewrite E1, E2. Qed.

Lemma wp_frozen {A} (m : M World A) (Q : result A -> World -> Prop) w :
  preserves frozen m -> wp m Q w -> wp m (fun r w' => frozen w w' /\ Q r w') w.
Proof. intros Hp Hq. split; [apply Hp|exact Hq]. Qed.

Lemma wp_record_folder account raw fid w :
  wp (record_folder account raw fid) (fun r _ => forall name v, r = Ok (Some (name, v)) ->
    raw = Some name \/ exists f i, fid = Some i /\ f ∈ folders (view w) /\ f_id f = i /\ raw_name f = name) w.
Proof.
  unfold record_folder. destruct (nonempty raw) as [n|] eqn:En.
  { wp_step. intros name v [= <- <-]. left. unfold nonempty in En. repeat case_match; congruence. }
  unfold folder_names. wp_step. wp_step. wp_step; [done|]. wp_step. wp_step. intros name v H. right.
  destruct fid as [i|]; [|done]. injection H as H. apply dict_get_In in H.
  apply list_elem_of_In, in_rev, list_elem_of_In, elem_of_flat_map in H as (f & Hf & H).
  case_match; [by apply elem_of_nil in H|]. apply list_elem_of_singleton in H. simplify_eq.
  exists f, (f_id f). split_and!; try done. apply list_elem_of_In, filter_In in Hf as [Hf _].
  by apply list_elem_of_In.
Qed.

Lemma wp_verify_eml path hash w :
  wp (verify_eml root path hash) (fun r _ => r = Ok None ->
    exists p c, resolve_inside root path = Ok p /\ read_file (join p) w = Some c
      /\ Sha256.hexdigest c = fold_hash hash) w.
Proof.
  unfold wp, verify_eml, mbnd, attempt. destruct (read_verified root path hash w) as [[c|e] w'] eqn:E.
  - intros _. apply read_verified_spec in E as (p & H). by exists p, c.
  - by repeat case_match.
Qed.

Lemma nonempty_some o s : nonempty o = Some s -> o = Some s.
Proof. unfold nonempty. intros H. repeat case_match; congruence. Qed.

(** Close a branch that returns no candidate. *)
Ltac no_candidate := wp_step; by intros ? [=].

Lemma wp_candidate r fid flagged present w m : s_message r = m -> m ∈ messages (view w) ->
  (forall mf, s_membership r = Some mf -> owned_by m mf (view w)) ->
  wp (candidate_from_record root r fid flagged present) (fun res _ => forall c, res = Ok (inl c) ->
    dc_account_id c = account_id m
    /\ verified_copy root (view w) (fs w) (dc_account_id c) (dc_folder_raw_name c) (dc_uid c)
         (dc_uidvalidity c)) w.
Proof.
  intros Em Hm Hmf. unfold candidate_from_record. rewrite Em. wp_step. wp_step; [done|].
  destruct (chosen_membership fid _) as [chosen|reason] eqn:Ec; [|no_candidate]. cbv zeta.
  set (mf := match chosen with Some x => Some x.1.1 | None => s_membership r end).
  assert (forall x, mf = Some x -> owned_by m x (view w)) as Howned.
  { intros x Hx. subst mf. destruct chosen as [y|]; [|by apply Hmf]. injection Hx as <-.
    apply chosen_membership_in, list_message_memberships_owner in Ec as [(o & H) _]. exists o. naive_solver. }
  do 4 (case_match; [no_candidate|]).
  destruct (nonempty (relative_path m)) as [path|] eqn:Ep; [|no_candidate].
  destruct (nonempty (file_hash m)) as [hash|] eqn:Eh; [|no_candidate].
  destruct (mf ≫= uid) as [u|] eqn:Eu; [|no_candidate].
  destruct (mf ≫= uidvalidity) as [uidv|] eqn:Ev; [|no_candidate].
  destruct (size_bytes m) as [size|]; [|no_candidate]. case_match; [no_candidate|].
  wp_step. eapply wp_mono; [apply wp_frozen; [apply frozen_record_folder|apply wp_record_folder]|].
  intros [[[name v]|]|e] w1 [F1 Hfolder]; [|no_candidate|done]. case_match; [no_candidate|].
  wp_step. eapply wp_mono; [apply wp_frozen; [|apply wp_verify_eml]|].
  { unfold verify_eml. respect; apply frozen_read_verified. }
  intros [[reason|]|e] w2 [F2 Heml]; [no_candidate| |done].
  wp_step. wp_step; [done|]. destruct (has_message_contents (m_id m) (view w2)) eqn:Ei; cbn [negb]; [|no_candidate]. wp_step. intros c [= <-]. split; [done|].
  cbn [dc_account_id dc_folder_raw_name dc_uid dc_uidvalidity].
  destruct (frozen_view _ _ (transitivity F1 F2)) as [Ev2 _].
  destruct (frozen_view _ _ F1) as [_ Ef1]. change (view (tick w)) with (view w) in *.
  change (fs (tick w)) with (fs w) in Ef1. rewrite Ev2 in Ei.
  destruct mf as [mfx|] eqn:Emf; [|done]. simpl in Eu, Ev.
  destruct (Howned mfx eq_refl) as (owner & Ho1 & Ho2 & Ho3 & Ho4).
  destruct (Heml eq_refl) as (p & c & Hp & Hc & Hh). unfold read_file in Hc. rewrite Ef1 in Hc.
  assert (exists f, f ∈ folders (view w) /\ f_id f = mf_folder_id mfx /\ raw_name f = name) as (f & Hf).
  { destruct (Hfolder name v eq_refl) as [Hr|(f & i & Hi & Hf & <- & <-)].
    - destruct chosen as [x|]; [|done]. injection Hr as <-. injection Emf as <-.
      apply chosen_membership_in, list_message_memberships_owner in Ec as [_ (f & Hf)]. by exists f.
    - injection Hi as Hi. exists f. by rewrite Hi. }
  exists m, path, hash, p, c, owner, mfx, f. destruct Hf as (Hf1 & Hf2 & Hf3).
  apply nonempty_some in Ep, Eh. split_and!; try assumption; [reflexivity|].
  apply mem_false in H0. cbn [option_map] in H0. intros Hin. exact (H0 (list_elem_of_fmap_2 Some _ _ Hin)).
Qed.
End Verified.

(** ** Every command is backed *)

Lemma silent_write {A} (f : Db -> result (A * Db)) : preserves silent (db_write f).
Proof.
  apply preserves_io; [apply _|done|]. intros w. unfold silent, put_db. by repeat case_match.
Qed.
Lemma silent_begin : preserves silent begin_batch.
Proof. apply preserves_io; [apply _|done|]. intros w. unfold silent. by case_match. Qed.
Lemma silent_commit : preserves silent commit_batch.
Proof. apply preserves_io; [apply _|done|]. intros w. unfold silent, mmodify. simpl. by case_match. Qed.
Lemma silent_append e : preserves silent (man_append e).
Proof. apply preserves_io; [apply _|done|]. intros w. unfold silent. by case_match. Qed.
Lemma silent_sync : preserves silent flush_and_sync.
Proof. apply preserves_io; [apply _|done|]. by intros w. Qed.

Ltac hush := respect; first [apply silent_write | apply silent_begin | apply silent_commit
                            | apply silent_append | apply silent_sync].

(** A computation that ends with a commit leaves no batch open. *)
Lemma commit_closes w w' : commit_batch w = (Ok tt, w') -> working w' = None.
Proof.
  unfold commit_batch, io, mmodify. case_match; [done|]. intros [= <-].
  by destruct (working w) eqn:E.
Qed.

Lemma bnd_ok {A B} (m : M World A) (k : A -> M World B) w b w' :
  mbnd m k w = (Ok b, w') -> exists a w1, m w = (Ok a, w1) /\ k a w1 = (Ok b, w').
Proof. unfold mbnd. destruct (m w) as [[a|e] w1]; [|done]. intros H. by exists a, w1. Qed.

Section Backed.
Context (root : list string) (ft : fetcher) (clock : nat -> datetime).

Lemma silent_snapshot c r : preserves silent (membership_snapshot_event clock c r).
Proof. unfold membership_snapshot_event, get_timestamp. respect. Qed.
Lemma silent_plan c r t mv : preserves silent (build_trash_merge_plan clock c r t mv).
Proof. unfold build_trash_merge_plan, get_timestamp. respect. Qed.
Lemma silent_commit_state c mode ts r p : preserves silent (commit_completed_state c mode ts r p).
Proof. unfold commit_completed_state, db_update', db_update. hush. Qed.
#[local] Opaque membership_snapshot_event build_trash_merge_plan commit_completed_state.
Lemma silent_complete c r mode google trash moved :
  preserves silent (complete_delete clock c r mode google trash moved).
Proof.
  unfold complete_delete, get_timestamp.
  respect; first [apply silent_snapshot | apply silent_plan | apply silent_commit_state
                 | apply silent_append | apply silent_sync].
Qed.
#[local] Transparent membership_snapshot_event build_trash_merge_plan commit_completed_state.

Lemma complete_closes c r mode google trash moved w w' :
  complete_delete clock c r mode google trash moved w = (Ok tt, w') -> working w' = None.
Proof.
  unfold complete_delete. intros (p & w1 & _ & H)%bnd_ok.
  apply bnd_ok in H as (ts & w2 & _ & H). apply bnd_ok in H as (? & w3 & _ & H).
  apply bnd_ok in H as (? & w4 & _ & H). apply bnd_ok in H as (? & w5 & _ & H).
  unfold commit_completed_state in H. apply bnd_ok in H as (? & w6 & _ & H).
  apply bnd_ok in H as (? & w7 & _ & H). apply bnd_ok in H as (? & w8 & _ & H).
  by eapply commit_closes.
Qed.

(** A command about a message with a verified copy, sent after its intent was made durable, and
    with the expected UIDVALIDITY when the flags were checked. *)
Definition backed_call (mode : string) (exclude_flagged : bool) (c : remote_call) : Prop :=
  rc_mode c = mode /\ exists account uidv e,
    verified_copy root (rc_db c) (rc_fs c) account (rc_folder c) (rc_uid c) uidv
    /\ e ∈ rc_synced c /\ event_name e = Some "remote_delete_intent"%string
    /\ text_of "account_id" e = Some account /\ text_of "folder_raw_name" e = Some (rc_folder c)
    /\ int_of "uid" e = Some (rc_uid c) /\ int_of "uidvalidity" e = Some uidv
    /\ text_of "mode" e = Some mode
    /\ rc_expected c = if exclude_flagged then Some uidv else None.
Definition all_backed (mode : string) (exclude_flagged : bool) (w0 w : World) : Prop :=
  forall c, c ∈ remote w -> c ∈ remote w0 \/ backed_call mode exclude_flagged c.

Lemma all_backed_silent mode ef w0 w w' : all_backed mode ef w0 w -> silent w w' -> all_backed mode ef w0 w'.
Proof. unfold all_backed, silent. by intros H ->. Qed.

(** The invariant of the loop: every command backed, no batch open between two deletions. *)
Definition kept {A} (mode : string) (ef : bool) (w0 : World) (r : result A) (w : World) : Prop :=
  all_backed mode ef w0 w /\ (is_ok r = true -> working w = None).

Lemma kept_frozen {A} mode ef w0 w w' (r : result A) :
  working w = None -> all_backed mode ef w0 w -> frozen w w' -> kept mode ef w0 r w'.
Proof.
  intros Hw Hb (_ & Ew & _ & _ & _ & Er). split; [by eapply all_backed_silent|]. by rewrite Ew.
Qed.

(** Sending the command, its intent already durable. *)
Lemma wp_command mode ef c ts w0 w (Q : result (result (option (Z * Z))) -> World -> Prop) :
  all_backed mode ef w0 w -> delete_event "remote_delete_intent" c mode ts ∈ synced w ->
  verified_copy root (committed w) (fs w) (dc_account_id c) (dc_folder_raw_name c) (dc_uid c)
    (dc_uidvalidity c) ->
  (forall r w', all_backed mode ef w0 w' -> working w' = working w -> Q (Ok r) w') ->
  wp (attempt (remote_command ft mode (dc_folder_raw_name c) (dc_uid c)
                 (if ef then Some (dc_uidvalidity c) else None))) Q w.
Proof.
  intros Hb He Hv HQ. unfold wp, attempt, remote_command. cbn [fst snd]. apply HQ; [|done].
  intros x. cbn [remote tick log_remote]. intros [Hx|Hx%list_elem_of_singleton]%elem_of_app; [by apply Hb|].
  right. subst x. split; [done|]. exists (dc_account_id c), (dc_uidvalidity c).
  exists (delete_event "remote_delete_intent" c mode ts). by split_and!.
Qed.

Lemma record_owned id w r : get_message id (view w) = Some r ->
  s_message r ∈ messages (view w)
  /\ forall mf, s_membership r = Some mf -> owned_by (s_message r) mf (view w).
Proof.
  unfold get_message. destruct (message_with id (view w)) as [m|] eqn:E; [|done]. intros [= <-].
  apply message_with_id in E as [_ Hm]. split; [done|]. intros mf Hmf. exists m. split_and!; [done..|].
  by apply first_membership_in.
Qed.

Lemma wp_delete_one mode ef google trash planned st w0 w :
  working w = None -> all_backed mode ef w0 w ->
  wp (delete_one root ft clock mode ef google trash planned st) (kept mode ef w0) w.
Proof.
  intros Hw Hb. destruct st as [invalid res]. unfold delete_one. cbv zeta.
  case_match; [wp_step; by apply (kept_frozen mode ef w0 w)|].
  wp_step. wp_step; [intros; by apply (kept_frozen mode ef w0 w)|].
  destruct (get_message (dc_message_id planned) (view w)) as [r|] eqn:Er;
    [|wp_step; by apply (kept_frozen mode ef w0 w)].
  destruct (record_owned _ w r Er) as [Hm Hmf].
  wp_step. eapply wp_mono; [apply wp_frozen; [apply frozen_candidate|]; by apply (wp_candidate root r _ _ _ (tick w) (s_message r))|].
  intros [[c|reason]|e] w1 [F1 Hc]; [|wp_step; by apply (kept_frozen mode ef w0 w)|by apply (kept_frozen mode ef w0 w)].
  destruct (Hc c eq_refl) as [_ Hv]. clear Hc.
  case_match; [wp_step; by apply (kept_frozen mode ef w0 w)|].
  assert (all_backed mode ef w0 w1 /\ working w1 = None
    /\ verified_copy root (committed w1) (fs w1) (dc_account_id c) (dc_folder_raw_name c) (dc_uid c)
         (dc_uidvalidity c)) as (Hb1 & Hw1 & Hv1).
  { destruct F1 as (Ec & Ew & Ef & _ & _ & Ere). split; [by eapply all_backed_silent|].
    rewrite Ew, Ec, Ef. split; [done|]. unfold view in Hv. cbn in Hv. by rewrite Hw in Hv. }
  clear dependent w. unfold get_timestamp. wp_step. wp_step.
  wp_step. wp_step; [by split|]. intros n _.
  wp_step. wp_step; [by split|]. wp_step. wp_step.
  eapply (wp_command mode ef c _ w0); [done| |done|].
  { cbn [synced set_manifest tick all_events buffered]. apply elem_of_app. right. apply elem_of_app.
    right. by left. }
  intros [moved|e] w2 Hb2 Hw2.
  - wp_step. unfold wp.
    destruct (complete_delete clock c r mode google trash moved w2) as [[[]|e] w3] eqn:Ed; cbn [fst snd];
      pose proof (silent_complete c r mode google trash moved w2) as Hs; rewrite Ed in Hs;
      (split; [by eapply all_backed_silent|]); [|done].
    intros _. by eapply complete_closes.
  - case_match; [wp_step; by split; [|rewrite Hw2]|].
    case_match; [|case_match; [wp_step; by split; [|rewrite Hw2]|by split]].
    wp_step. wp_step. wp_step. wp_step; [by split|]. intros k _. wp_step. wp_step; [by split|]. wp_step.
    wp_step. by split; [|cbn; rewrite Hw2].
Qed.

Lemma wp_delete_loop mode ef google trash items w0 : forall st w,
  working w = None -> all_backed mode ef w0 w ->
  wp (delete_loop root ft clock mode ef google trash items st) (kept mode ef w0) w.
Proof.
  induction items as [|c items IH]; intros st w Hw Hb; cbn [delete_loop]; [by wp_step|].
  wp_step. eapply wp_mono; [by apply wp_delete_one|]. intros [st'|e] w' [Hb' Hw']; [|by split].
  apply IH; [by apply Hw'|done].
Qed.

Lemma silent_flag_check items : preserves silent (flag_check ft clock items).
Proof.
  unfold flag_check, get_timestamp, db_update.
  apply preserves_bnd; [apply _|intros w; apply frozen_check_groups|]. intros p. hush.
Qed.

Lemma flag_check_closes items w x w' : working w = None ->
  flag_check ft clock items w = (Ok x, w') -> working w' = None.
Proof.
  unfold flag_check. intros Hw (p & w1 & H1 & H)%bnd_ok.
  pose proof (frozen_check_groups ft (group_items items) (Preflight [] []) w) as F. rewrite H1 in F.
  destruct F as (_ & Ew & _). cbn [snd] in Ew. apply bnd_ok in H as (u & w2 & H2 & [= _ <-]).
  unfold mwhen in H2. case_match; [|injection H2 as _ <-; congruence].
  apply bnd_ok in H2 as (? & ? & _ & H2). apply bnd_ok in H2 as (? & ? & _ & H2).
  apply bnd_ok in H2 as (? & ? & _ & H2). destruct u. by eapply commit_closes.
Qed.

Lemma wp_flag_check (b : bool) items mode ef w0 w : working w = None -> all_backed mode ef w0 w ->
  wp (if b then flag_check ft clock items else mret (items, [])) (kept mode ef w0) w.
Proof.
  intros Hw Hb. destruct b; [|by apply wp_ret]. unfold wp. pose proof (silent_flag_check items w) as Hs.
  destruct (flag_check ft clock items w) as [[x|e] w2] eqn:E; cbn [fst snd] in *;
    (split; [by eapply all_backed_silent|]); [|done]. intros _. by eapply flag_check_closes.
Qed.

Lemma wp_frozen_step {A} (m : M World A) (Q : result A -> World -> Prop) mode ef w0 w :
  preserves frozen m -> working w = None -> all_backed mode ef w0 w ->
  (forall r w', working w' = None -> all_backed mode ef w0 w' -> Q r w') -> wp m Q w.
Proof.
  intros Hm Hw Hb HQ. destruct (Hm w) as (_ & Ew & _ & _ & _ & Er).
  apply HQ; [congruence|]. by eapply all_backed_silent.
Qed.

(** A step that only reads, or raises. *)
Ltac frozen_step mode ef w0 :=
  apply wp_bnd; eapply (wp_frozen_step _ _ mode ef w0); [|eassumption|eassumption|];
  [respect; first [apply frozen_ensure | done]
  |match goal with H : all_backed _ _ _ ?x |- _ => clear dependent x end;
   let w := fresh "w" in let Hw := fresh "Hw" in let Hb := fresh "Hb" in
   intros [?|?] w Hw Hb; [|by split]].

Lemma wp_execute {S} `{StorageGate S} (gate : S) items mode limit ef w0 w :
  working w = None -> all_backed mode ef w0 w ->
  wp (execute root ft clock gate items mode limit ef) (kept mode ef w0) w.
Proof.
  intros Hw Hb. unfold execute. cbv zeta. do 12 frozen_step mode ef w0. apply wp_bnd.
  eapply wp_mono; [by apply wp_flag_check|]. intros [[todo skipped]|e] w' [Hb' Hw']; [|by split].
  apply wp_delete_loop; [by apply Hw'|done].
Qed.

(** C1. No message is deleted on the server without a verified local copy: whatever fails and
    whatever the server answers, every delete command an execution sends is about a message of
    the database whose EML file is at that moment present with the recorded hash and whose
    contents are indexed, in a folder and at a UID and UIDVALIDITY the database holds and has not
    marked deleted; an intent naming exactly that operation is already durable in the manifest, and
    the storage gate was open. *)
Theorem remote_delete_backed {S} `{StorageGate S} (gate : S) items mode limit ef w c :
  working w = None -> c ∈ remote (execute root ft clock gate items mode limit ef w).2 ->
  c ∈ remote w \/ (remote_delete_allowed gate = true /\ backed_call mode ef c).
Proof.
  intros Hw Hc. destruct (remote_delete_allowed gate) eqn:Eg.
  - assert (all_backed mode ef w w) as Hb by (intros x; auto).
    destruct (wp_execute gate items mode limit ef w w Hw Hb) as [Hall _]. destruct (Hall c Hc); auto.
  - left. unfold execute in Hc. rewrite Eg in Hc. revert Hc. cbn [check]. unfold mbnd at 1 2.
    assert (preserves frozen (mfor items (fun c => ensure_imap_account (dc_account_id c)))) as F
      by (respect; apply frozen_ensure).
    specialize (F w). destruct (mfor items _ w) as [[u|e] w1]; cbn; destruct F as (_ & _ & _ & _ & _ & Er);
      cbn in Er; by rewrite Er.
Qed.
End Backed.

(** ** The removal of a Gmail label *)

Section Labels.
Context (root : list string) (ft : fetcher) (clock : nat -> datetime).

(** The manifest accepts no intent with that mode. *)
Lemma label_intent_refused c ts : is_ok (validate_event (delete_event "remote_delete_intent" c "remove_membership" ts)) = false.
Proof.
  destruct (validate_event _) as [p|] eqn:E; [|done]. exfalso.
  apply rbind_ok in E as (? & _ & E). apply rbind_ok in E as (t & _ & E).
  apply rbind_ok in E as ([] & E & _). rewrite validate_fields_remote_delete in E by (by left).
  repeat (apply rbind_ok in E as ([] & _ & E)). by apply check_ok in E.
Qed.

(** What follows an append that is refused never runs. *)
Lemma silent_refused {A} e (k : unit -> M World A) :
  is_ok (validate_event e) = false -> preserves silent (mbnd (man_append e) k).
Proof.
  intros He w. unfold mbnd, man_append, io. destruct (faults w (ticks w)); [done|].
  destruct (validate_event e); [done|]. reflexivity.
Qed.

Lemma frozen_silent {A} (m : M World A) : preserves frozen m -> preserves silent m.
Proof. intros H w. by destruct (H w) as (_ & _ & _ & _ & _ & ?). Qed.

Lemma silent_label_delete ef google trash planned st :
  preserves silent (delete_one root ft clock "remove_membership" ef google trash planned st).
Proof.
  destruct st as [invalid res]. unfold delete_one. cbv zeta. case_match; [respect|].
  apply preserves_bnd; [apply _|apply preserves_read; [apply _|done]|]. intros [r|]; [|respect].
  apply preserves_bnd; [apply _|apply frozen_silent, frozen_candidate|]. intros [c|reason]; [|respect].
  case_match; [respect|]. apply preserves_bnd; [apply _|unfold get_timestamp; respect|]. intros ts.
  apply silent_refused, label_intent_refused.
Qed.

Lemma silent_label_loop ef google trash items : forall st,
  preserves silent (delete_loop root ft clock "remove_membership" ef google trash items st).
Proof.
  induction items as [|c items IH]; intros st; cbn [delete_loop]; [respect|].
  apply preserves_bnd; [apply _|apply silent_label_delete|]. intros. apply IH.
Qed.

(** A Gmail label is never removed from a message: the manifest refuses every intent with
    the mode [remove_membership], so an execution in that mode, which [execute] accepts and checks
    for, sends no command whatever it is given. *)
Lemma label_removal_never_sent {S} `{StorageGate S} (gate : S) items limit ef w :
  remote (execute root ft clock gate items "remove_membership" limit ef w).2 = remote w.
Proof.
  enough (preserves silent (execute root ft clock gate items "remove_membership" limit ef)) as Hs by apply Hs.
  unfold execute. cbv zeta.
  do 12 (apply preserves_bnd; [apply _|respect; first [apply frozen_silent, frozen_ensure | done]|]; intros).
  apply preserves_bnd; [apply _| |].
  - case_match; [apply silent_flag_check|respect].
  - intros [todo skipped]. apply silent_label_loop.
Qed.
End Labels.

(** ** Reconciliation *)

Section Reconciliation.
Context (clock : nat -> datetime).

Lemma update_remote_state_all id state moved d mf :
  mf ∈ memberships (update_remote_state id state moved None d) -> mf_message_id mf = id ->
  remote_state mf = state.
Proof.
  unfold update_remote_state. cbn [memberships set_memberships].
  intros (x & _ & ->)%elem_of_update_where. destruct (mf_message_id x =? id)%Z eqn:E; simpl; [done|].
  intros Hx. by rewrite Hx, Z.eqb_refl in E.
Qed.

(** Reconciling one uncertain deletion marks the message deleted in every folder: the
    candidate it builds carries no folder, so the update has no folder to restrict it, and the
    copies in other folders, still on the server, are recorded as deleted. *)
Lemma reconciliation_marks_every_folder r account folder u uidv c mode ts w :
  faultless w -> working w = None -> mode <> "remove_membership"%string ->
  candidate_for_reconciliation r account folder u uidv = Some c ->
  succeeds (commit_completed_state c mode ts r None) (fun _ w' =>
    forall mf, mf ∈ memberships (committed w') -> mf_message_id mf = m_id (s_message r) ->
    remote_state mf = "deleted"%string) w.
Proof.
  intros Hf Hw Hm Hc. unfold commit_completed_state. rewrite (Prelude.eqb_neq mode) by done.
  assert (dc_folder_id c = None /\ dc_message_id c = m_id (s_message r)) as [E1 E2]
    by (unfold candidate_for_reconciliation in Hc; repeat case_match; simplify_eq; done).
  rewrite E1, E2. run_step. apply succeeds_begin; [done..|]. run_step. run_step.
  run_step. eapply succeeds_db_update'; [done|reflexivity|].
  eapply succeeds_commit; [done|reflexivity|]. intros mf Hin Hid.
  exact (update_remote_state_all _ "deleted" None _ mf Hin Hid).
Qed.
End Reconciliation.

(** ** Concrete runs *)

Open Scope string_scope.

(** A message of two folders; [v] is the UIDVALIDITY the database records for its first folder. *)
Definition copy_hash : string := Eval vm_compute in Sha256.hexdigest [65%Z].
Definition delete_message_row : message :=
  Message 1 "acct" None "k" "imap:x" Active None (Some "eml/acct/x.eml") (Some copy_hash) (Some "hello")
    None None None None None (Some 1%Z) false None None None None None None.
Definition delete_world (v : Z) : World :=
  MkWorld (MkDb [] [Folder 1 "acct" "INBOX" "INBOX" (Some v) 0 true None None true None;
                    Folder 2 "acct" "Work" "Work" (Some 5%Z) 0 true None None true None]
             [delete_message_row]
             [Membership 1 1 (Some 7%Z) (Some 3%Z) "present" None None None None;
              Membership 1 2 (Some 9%Z) (Some 5%Z) "present" None None None None]
             [Contents 1 None None None None] [] [] [] [] 3 2 1 1 [] [] 1)
    None [("eml/acct/x.eml", [65%Z])] [] [] None 0 (fun _ => None) [] [].
Definition willing_server : fetcher :=
  Fetcher (fun _ _ => Ok 4%Z) (fun _ _ => Ok []) (fun _ _ _ _ => Ok []) (fun _ => Ok true)
    (fun _ => Ok (Some "Trash")) (fun _ _ _ _ _ => Ok None).
Definition steady : nat -> datetime := fun _ => DateTime 2024 5 2 12 0 0 0.
Definition planned_delete : DeleteCandidate :=
  Candidate 1 "acct" "INBOX" 7 3 "hello" None None 1 "eml/acct/x.eml" copy_hash None (Some 1%Z).

(** A stale UIDVALIDITY is not noticed: the membership says 3, the database records [v] for
    the folder (any value) and the server has another one, yet without the flag check the dry run
    accepts the message and the execution sends the deletion of UID 7 with no UIDVALIDITY to
    check, so the server deletes whatever message now has that UID. *)
Lemma stale_uidvalidity_sent v :
  (dry_run ["data"] initial_machine [1%Z] (Some 1%Z) false None (delete_world v)).1
  = Ok (DryRun [planned_delete] [] 1 false None)
  /\ map (fun c => (rc_folder c, rc_uid c, rc_expected c))
       (remote (execute ["data"] willing_server steady initial_machine [planned_delete] "trash" 1000 false
                  (delete_world v)).2)
     = [("INBOX", 7%Z, None)].
Proof. split; vm_compute; reflexivity. Qed.

(** The command that execution sends. *)
Definition sent_call : remote_call :=
  List.hd (RemoteCall "" "" 0 None empty_db [] [])
    (remote (execute ["data"] willing_server steady initial_machine [planned_delete] "trash" 1000 false
               (delete_world 3)).2).

Lemma remote_delete_backed_witness :
  rc_uid sent_call = 7%Z /\ backed_call ["data"] "trash" false sent_call.
Proof.
  split; [vm_compute; reflexivity|].
  destruct (remote_delete_backed ["data"] willing_server steady initial_machine [planned_delete] "trash" 1000
              false (delete_world 3) sent_call) as [Hc|[_ Hc]].
  - reflexivity.
  - assert (remote (execute ["data"] willing_server steady initial_machine [planned_delete] "trash" 1000 false
      (delete_world 3)).2 = [sent_call]) as -> by (vm_compute; reflexivity). by left.
  - by apply elem_of_nil in Hc.
  - exact Hc.
Defined.

Close Scope string_scope.
