(* ===== verification/Snapshots.v ===== *)
(** * Snapshots: account and folder attributes in the manifest

    [usecases/snapshots.py]: the events that let a reindex recover the accounts and folders, and
    when they are written. The two loops over all accounts ([backfill_snapshots],
    [reconcile_account_snapshots]) are modelled by their bodies, one account and its manifest at a
    time, as [World] holds the manifest of one account. [clock] gives the time of each step. *)

From S2P Require Import Prelude Errors PyText PyTime Json Manifest Database World DeleteRemote.
Open Scope string_scope.

Definition ACCOUNT_FIELDS : list string :=
  ["account_id"; "provider_type"; "display_name"; "host"; "port"; "username"; "is_enabled";
   "tls_mode"; "ca_cert_path"; "auth_type"; "oauth_provider"; "oauth_client_id"; "oauth_tenant"].
Definition FOLDER_FIELDS : list string :=
  ["account_id"; "folder_raw_name"; "display_name"; "uidvalidity"; "delimiter"; "is_sync_target"].

(** [str(value)] of a column that may be NULL. *)
Definition str_of (o : option string) : string := get_or "None" o.

(** [_account_event]; [int(None)] raises. *)
Definition account_event (a : account) (ts : string) : result event :=
  match port a with
  | None => raise TypeError "int() argument must be a string, a bytes-like object or a real number"
  | Some n => Ok
      [("event", JStr "account_snapshot"); ("account_id", JStr (a_id a));
       ("provider_type", JStr (provider_type a)); ("display_name", jtext (a_display_name a));
       ("host", JStr (str_of (host a))); ("port", JInt n); ("username", JStr (str_of (username a)));
       ("is_enabled", JBool (is_enabled a)); ("tls_mode", JStr (tls_mode a));
       ("ca_cert_path", jtext (ca_cert_path a)); ("auth_type", JStr (auth_type a));
       ("oauth_provider", jtext (oauth_provider a)); ("oauth_client_id", jtext (oauth_client_id a));
       ("oauth_tenant", jtext (oauth_tenant a)); ("timestamp", JStr ts)]
  end.

(** [folder_snapshot_event] of a folder record's attributes; a row has no delimiter column. *)
Definition folder_event (account raw display : string) (uidv : option Z) (delimiter : option string)
    (target : bool) (ts : string) : event :=
  [("event", JStr "folder_snapshot"); ("account_id", JStr account);
   ("folder_raw_name", JStr raw); ("display_name", JStr display);
   ("uidvalidity", jint uidv); ("delimiter", jtext delimiter);
   ("is_sync_target", JBool target); ("timestamp", JStr ts)].
Definition folder_snapshot_event (account : string) (f : folder) (ts : string) : event :=
  folder_event account (raw_name f) (display_name f) (f_uidvalidity f) None (is_sync_target f) ts.

(** [event.get(field)]: an absent member and a null one are the same. *)
Definition member (f : string) (e : event) : json := get_or JNull (get f e).

(** [_matches_previous] *)
Definition matches_previous (e : event) (previous : option event) (fields : list string) : bool :=
  match previous with
  | Some p => forallb (fun f => member f e == member f p) fields
  | None => false
  end.

(** [_previous_snapshot]: the last event of that name about that identity. *)
Definition previous_snapshot (name field identity : string) (es : list event) : option event :=
  find_last (fun e => (member "event" e == JStr name) && (member field e == JStr identity)) es.

Section Snapshots.
Context (clock : nat -> datetime).

(** What both recorders do with the event: nothing when the previous one agrees, else append. *)
Definition record_snapshot (e : event) (previous : option event) (fields : list string)
    (only_if_missing : bool) : M World bool :=
  if (if previous is Some _ then true else false)
     && (only_if_missing || matches_previous e previous fields)
  then mret false
  else man_append e ;! flush_and_sync ;! mret true.

(** [record_account_snapshot] *)
Definition record_account_snapshot (a : account) (only_if_missing : bool) : M World bool :=
  let! ts := get_timestamp clock in
  let! e := mlift (account_event a ts) in
  let! es := io (mgets synced) in
  record_snapshot e (previous_snapshot "account_snapshot" "account_id" (a_id a) es) ACCOUNT_FIELDS
    only_if_missing.

(** [record_folder_snapshot], for the record whose event is given. *)
Definition record_folder_event (raw : string) (event_of : string -> event) (only_if_missing : bool)
    : M World bool :=
  let! ts := get_timestamp clock in
  let! es := io (mgets synced) in
  record_snapshot (event_of ts) (previous_snapshot "folder_snapshot" "folder_raw_name" raw es) FOLDER_FIELDS
    only_if_missing.
Definition record_folder_snapshot (account : string) (f : folder) (only_if_missing : bool)
    : M World bool :=
  record_folder_event (raw_name f) (folder_snapshot_event account f) only_if_missing.

(** The body of [backfill_snapshots]: the events written for the account and for its folders. *)
Definition backfill_account (a : account) : M World (Z * Z) :=
  let! wrote := record_account_snapshot a true in
  let! l := db_read (list_folders (a_id a)) in
  let! ws := mmap (fun f => record_folder_snapshot (a_id a) f true) l in
  mret ((if wrote then 1 else 0)%Z, Z.of_nat (length (List.filter id ws))).

(** The body of [reconcile_account_snapshots]: the manifest first, then the database. *)
Definition reconcile_account (a : account) : M World bool :=
  if (a_id a == "") || negb (mem (provider_type a) ["onamae_imap"; "imap"]) then mret false else
  let normalized := Account (a_id a) "imap" (a_display_name a) (host a) (port a) (username a)
                      (is_enabled a) (tls_mode a) (ca_cert_path a) (auth_type a) (oauth_provider a)
                      (oauth_client_id a) (oauth_tenant a) in
  record_account_snapshot normalized false ;!
  if provider_type a == "imap" then mret false
  else db_update' (normalize_account_provider_type (a_id a) "imap") ;! mret true.
End Snapshots.
