(* ===== verification/Registration.v ===== *)
(** * Registration: accounts and their passwords

    [usecases/register_account.py]: the connection details go to the database and the manifest, the password to the
    credential store, which is used through its interface ([Credentials]). [with_manifest] says whether a manifest was
    passed. *)

From S2P Require Import Prelude Errors PyText PyTime Accounts Json Manifest Database World DeleteRemote Snapshots Credentials.

Open Scope list_scope.

(** The keyword arguments of [register_account] and [update_account]. *)
Record account_form := AccountForm {
  form_id : string; form_host : string; form_port : Z; form_username : string; form_password : option string;
  form_display_name : option string; form_tls_mode : string; form_ca_cert_path : option string; form_auth_type : string;
  form_oauth_provider : option string; form_oauth_client_id : option string; form_oauth_tenant : option string;
  with_manifest : bool }.

(** [_validate_auth_configuration] *)
Definition absent (o : option string) : bool := match o with None | Some ""%string => true | _ => false end.
Definition validate_auth_configuration (f : account_form) : result unit :=
  if negb (mem (form_auth_type f) ["password"; "xoauth2"]%string)
  then raise ValueError "auth_type must be 'password' or 'xoauth2'" else
  if (form_auth_type f == "xoauth2")%string then
    if negb (match form_oauth_provider f with Some p => mem p ["google"; "microsoft"]%string | None => false end)
       || absent (form_oauth_client_id f)
    then raise ValueError "OAuth accounts require a supported provider and client ID" else
    if bool_decide (form_oauth_provider f = Some "google"%string) && (if form_oauth_tenant f is Some _ then true else false)
    then raise ValueError "Google OAuth does not accept a tenant" else Ok tt
  else if existsb (fun o => if o is Some _ then true else false) [form_oauth_provider f; form_oauth_client_id f; form_oauth_tenant f]
  then raise ValueError "OAuth settings require auth_type='xoauth2'" else Ok tt.

Definition account_of (f : account_form) (enabled : bool) : account :=
  Account (form_id f) "imap" (form_display_name f) (Some (form_host f)) (Some (form_port f)) (Some (form_username f)) enabled
    (form_tls_mode f) (form_ca_cert_path f) (form_auth_type f) (form_oauth_provider f) (form_oauth_client_id f) (form_oauth_tenant f).

Section Registration.
Context {S : Type} `{CredentialStore S} (clock : nat -> datetime).

(** The durable state and the credential store. *)
Record app := App { app_world : World; app_store : S }.
Definition on_world {A} (m : M World A) : M app A := fun a => let (r, w) := m (app_world a) in (r, App w (app_store a)).
Definition on_credentials {A} (m : M S A) : M app A := fun a => let (r, s) := m (app_store a) in (r, App (app_world a) s).

(** What both do at the end: the manifest first, then the row. *)
Definition record_account (f : account_form) (enabled : bool) : M app string :=
  on_world
    (mwhen (with_manifest f) (let! _ := record_account_snapshot clock (account_of f enabled) false in mret tt) ;!
     let! _ := db_write (upsert_account (account_of f enabled)) in
     mret (form_id f)).
Definition register_account (f : account_form) : M app string :=
  mlift (validate_account_id (code_points (form_id f))) ;!
  mlift (validate_auth_configuration f) ;!
  (if (form_auth_type f == "password")%string then
     match form_password f with
     | None | Some ""%string => mraise ValueError "password is required for password authentication"
     | Some p => on_credentials (set_password (form_id f) p)
     end
   else if negb (absent (form_password f)) then mraise ValueError "password must not be supplied for OAuth authentication"
   else mret tt) ;!
  record_account f true.
Definition update_account (f : account_form) (is_enabled : bool) : M app string :=
  mlift (validate_account_id (code_points (form_id f))) ;!
  mlift (validate_auth_configuration f) ;!
  if (form_auth_type f == "xoauth2")%string && negb (absent (form_password f))
  then mraise ValueError "password must not be supplied for OAuth authentication" else
  (if (form_auth_type f == "password")%string then
     match form_password f with
     | None | Some ""%string => mret tt
     | Some p => on_credentials (set_password (form_id f) p)
     end
   else mret tt) ;!
  record_account f is_enabled.
Definition load_credentials (account_id : string) : M app string :=
  let! password := on_credentials (get_password account_id) in
  match password with
  | None => mraise AuthenticationError ("No credentials are registered for account: " +:+ account_id)
  | Some p => mret p
  end.
(** The columns hold no password, so that nothing is left out. *)
Definition list_registered : M app (list account) := on_world (db_read list_accounts).
End Registration.
Arguments app S : clear implicits.

(** ** Every row has its password *)

(** Two worlds with the same database, as the connection sees it. *)
Definition same_view (w w' : World) : Prop := view w' = view w.
#[export] Instance same_view_preorder : PreOrder same_view.
Proof. split; [by intros w|]. unfold same_view. intros w1 w2 w3. congruence. Qed.

Lemma same_view_io {A} (m : M World A) : preserves same_view m -> preserves same_view (io m).
Proof. intros H w. unfold io. destruct (faults w (ticks w)); [done|]. etrans; [|apply H]. done. Qed.
Lemma same_view_snapshot clock a missing : preserves same_view (record_account_snapshot clock a missing).
Proof.
  unfold record_account_snapshot, record_snapshot. apply (preserves_bnd same_view); [by intros w|]. intros ts.
  apply (preserves_bnd same_view); [by intros w; destruct (account_event a ts)|]. intros e.
  apply (preserves_bnd same_view); [by apply same_view_io; intros w|]. intros es. apply (preserves_if same_view); [by intros w|].
  apply (preserves_bnd same_view).
  { unfold man_append. apply same_view_io. intros w. by case_match. }
  intros ?. apply (preserves_bnd same_view); [by apply same_view_io; intros w|]. by intros ? w.
Qed.

Section Rows.
Context {S : Type} `{CredentialLaws S} (clock : nat -> datetime).

(** Every IMAP account that signs in with a password has one. *)
Definition rows_have_passwords (a : app S) : Prop :=
  forall row, row ∈ accounts (view (app_world a)) -> provider_type row = "imap"%string -> auth_type row = "password"%string ->
  usable (a_id row) -> stored (app_store a) (a_id row) PASSWORD <> None.

Lemma record_rows f enabled (a : app S) : let '(r, a') := record_account clock f enabled a in
  app_store a' = app_store a /\ match r with
  | Ok i => i = form_id f /\ exists d, upsert_account (account_of f enabled) (view (app_world a)) = Ok (form_id f, d) /\ view (app_world a') = d
  | Err _ => view (app_world a') = view (app_world a)
  end.
Proof.
  unfold record_account, on_world. set (snap := mwhen _ _).
  assert (preserves same_view snap) as Hs.
  { unfold snap, mwhen. apply (preserves_if same_view); [|by intros w]. apply (preserves_bnd same_view); [apply same_view_snapshot|]. by intros ? w. }
  specialize (Hs (app_world a)). unfold mbnd at 1. destruct (snap (app_world a)) as [[[]|e] w1]; cbn [snd] in Hs; [|by split].
  unfold db_write, io, mbnd. destruct (faults w1 (ticks w1)); [by split|]. change (view (tick w1)) with (view w1). rewrite Hs.
  destruct (upsert_account (account_of f enabled) (view (app_world a))) as [[i d]|e] eqn:Eu; [|by split].
  split; [done|]. cbn [app_world]. split; [done|]. exists d. split.
  - unfold upsert_account in Eu. destruct (check _ _ _); [|done]. destruct (check _ _ _); [|done]. cbn [rbind] in Eu.
    injection Eu as <- <-. done.
  - apply view_put.
Qed.
Lemma upsert_rows x d i d' : upsert_account x d = Ok (i, d') -> forall row, row ∈ accounts d' -> row = x \/ row ∈ accounts d.
Proof.
  unfold upsert_account. destruct (check _ _ _); [|done]. destruct (check _ _ _); [|done]. cbn [rbind]. intros [= <- <-] row.
  destruct (existsb _ _); cbn [accounts set_accounts].
  - intros (b & -> & Hb)%list_elem_of_fmap. destruct (a_id b == a_id x)%string; auto.
  - intros [Hr|Hr%list_elem_of_singleton]%elem_of_app; auto.
Qed.
Lemma record_keeps f enabled (a : app S) : rows_have_passwords a ->
  (form_auth_type f = "password"%string -> usable (form_id f) -> stored (app_store a) (form_id f) PASSWORD <> None) ->
  rows_have_passwords (record_account clock f enabled a).2.
Proof.
  intros Ha Hf. pose proof (record_rows f enabled a) as Hr. destruct (record_account clock f enabled a) as [r a']. cbn [snd].
  destruct Hr as [Hs Hr]. intros row Hrow. rewrite Hs. destruct r as [i|e]; [|rewrite Hr in Hrow; by apply Ha].
  destruct Hr as (_ & d & Hu & Hd). rewrite Hd in Hrow. destruct (upsert_rows _ _ _ _ Hu row Hrow) as [->|Hold]; [|by apply Ha].
  intros _ Hp Hus. by apply Hf.
Qed.
Lemma password_set f p (a : app S) : usable (form_id f) -> rows_have_passwords a ->
  let '(r, a') := on_credentials (set_password (form_id f) p) a in
  match r with Ok _ => rows_have_passwords a' /\ stored (app_store a') (form_id f) PASSWORD = Some p | Err e => denied e end.
Proof.
  intros Hu Ha. unfold on_credentials. pose proof (set_password_law (form_id f) p Hu (app_store a)) as Hl.
  destruct (set_password (form_id f) p (app_store a)) as [[[]|e] s']; [|by destruct Hl]. destruct Hl as [Hk Hv].
  split; [|exact Hv]. intros row Hrow Hi Hp Hr. cbn [app_store app_world] in *. destruct (decide (a_id row = form_id f)) as [->|Hne]; [by rewrite Hv|].
  rewrite (Hk (a_id row) PASSWORD Hr) by congruence. by apply Ha.
Qed.

(** Registering an account keeps every row with its password; the row, with its password, is there when it returns, and the
    rows are as before when it raises. *)
Theorem registration_keeps_passwords f (a : app S) : rows_have_passwords a ->
  let '(r, a') := register_account clock f a in
  (match r with Err e => denied e | Ok _ => False end \/ rows_have_passwords a')
  /\ match r with
     | Ok i => i = form_id f /\ account_of f true ∈ accounts (view (app_world a'))
               /\ (form_auth_type f = "password"%string -> form_password f = stored (app_store a') i PASSWORD)
     | Err _ => accounts (view (app_world a')) = accounts (view (app_world a))
     end.
Proof.
  intros Ha. unfold register_account. unfold mbnd at 1, mlift at 1. destruct (validate_account_id _) as [[]|e] eqn:Ev; [|by split; [right|]].
  pose proof (usable_valid _ Ev) as Hu. unfold mbnd at 1, mlift at 1. destruct (validate_auth_configuration f) as [[]|e]; [|by split; [right|]].
  assert (forall a1 : app S, rows_have_passwords a1 -> app_world a1 = app_world a ->
    (form_auth_type f = "password"%string -> stored (app_store a1) (form_id f) PASSWORD = form_password f /\ form_password f <> None) ->
    let '(r, a') := record_account clock f true a1 in
    (match r with Err e => denied e | Ok _ => False end \/ rows_have_passwords a')
    /\ match r with
       | Ok i => i = form_id f /\ account_of f true ∈ accounts (view (app_world a'))
                 /\ (form_auth_type f = "password"%string -> form_password f = stored (app_store a') i PASSWORD)
       | Err _ => accounts (view (app_world a')) = accounts (view (app_world a))
       end) as Hend.
  { intros a1 Ha1 Hw Hp. pose proof (record_keeps f true a1 Ha1) as Hk. pose proof (record_rows f true a1) as Hr. rewrite Hw in Hr.
    destruct (record_account clock f true a1) as [r a']. cbn [snd] in Hk. destruct Hr as [Hs Hr].
    assert (rows_have_passwords a') as Ha' by (apply Hk; intros E _; by destruct (Hp E) as [-> ?]). split; [by right|].
    destruct r as [i|e]; [|by rewrite Hr]. destruct Hr as (-> & d & Hup & Hd). split; [done|]. split.
    - rewrite Hd. unfold upsert_account in Hup. destruct (check _ _ _); [|done]. destruct (check _ _ _); [|done]. cbn [rbind] in Hup.
      injection Hup as <-. destruct (existsb _ _) eqn:Ee; cbn [accounts set_accounts].
      + apply existsb_exists in Ee as (b & Hb & Eb). apply list_elem_of_fmap. exists b. rewrite Eb. split; [done|]. by apply list_elem_of_In.
      + apply elem_of_app. right. by apply list_elem_of_singleton.
    - intros E. rewrite Hs. by destruct (Hp E) as [-> _]. }
  destruct (form_auth_type f == "password")%string eqn:Et.
  - destruct (form_password f) as [p|] eqn:Ep; [|by split; [right|]]. destruct p as [|c p']; [by split; [right|]|]. set (p := String c p') in *.
    unfold mbnd. pose proof (password_set f p a Hu Ha) as Hp. pose proof (eq_refl (app_world (on_credentials (set_password (form_id f) p) a).2)) as Hw.
    unfold on_credentials in Hp, Hw |- *. destruct (set_password (form_id f) p (app_store a)) as [[[]|e] s']; [|by split; [left|]].
    destruct Hp as [Ha1 Hst]. apply Hend; [done|done|]. intros _. by rewrite Hst.
  - destruct (negb (absent (form_password f))); [by split; [right|]|]. unfold mbnd, mret. apply Hend; [done|done|]. intros E. by rewrite E in Et.
Qed.
End Rows.
