(* ===== verification/Sync.v ===== *)
(** * Sync: synchronizing an IMAP account

    [usecases/sync_mail.py]: [sync_account] with its nested functions, and [force_fetch_message].
    The state of a run is the durable state ([World]) and the variables the nested functions share:
    the statistics, the messages stored in this run, the checkpoint number, the folder records the
    run updates in place, the pending items and the UIDs attempted in the current folder. The mail
    server, the parser, the clock, the cancellation token, the random file names and the retry
    jitter are an environment the functions are parametrized by; the server may answer differently
    each time it is asked, and an iterator may fail after some items. The progress callback, the log
    and the [started_at] time it uses are left out. *)

From S2P Require Import Prelude Errors PyText PyTime Identity Json Manifest Database World.
From S2P Require Import Sha256 EmlStorage DeleteRemote Retry Snapshots.
From Stdlib Require QArith.
Open Scope Z_scope.
Open Scope string_scope.

(** ** Data *)

Record SyncOptions := Options {
  max_message_bytes : Z;
  flag_refresh_enabled : bool;
  flag_refresh_window_days : Z;
  flag_refresh_min_interval_seconds : Z;
}.
(** [__post_init__] *)
Definition make_options (max_bytes : Z) (enabled : bool) (days seconds : Z) : result SyncOptions :=
  check (0 <? max_bytes)%Z ValueError "max_message_bytes must be positive" ;?
  check (0 <? days)%Z ValueError "flag_refresh_window_days must be positive" ;?
  check (0 <? seconds)%Z ValueError "flag_refresh_min_interval_seconds must be positive" ;?
  Ok (Options max_bytes enabled days seconds).

Record SyncResult := Synced {
  r_fetched : Z; r_transferred : Z; r_skipped : Z; r_failed : Z; r_cancelled : bool }.

Record stats := Stats {
  fetched_count : Z; transferred_bytes : Z; skipped_count : Z; failed_count : Z; estimated_bytes : Z }.

(** [RemoteMessageRef] *)
Record message_ref := Ref {
  ref_uid : Z;
  ref_message_id : option string;
  ref_internal_date : option datetime;
  ref_size_bytes : option Z;
  ref_flags : list string;
  ref_gmail_msgid : option string;
  ref_gmail_thrid : option string;
  ref_gmail_labels : option (list string);
}.

(** [ParsedAttachment], [ParsedMessage] *)
Record attachment := Attachment { att_filename : option string; att_inline : bool }.
Record parsed := Parsed {
  p_subject : string; p_sender : string; p_recipient : string; p_cc : string;
  p_date_sent : option datetime;
  p_message_id : option string; p_in_reply_to : option string; p_references_ids : option string;
  p_thread_key : option string; p_content_key : option string;
  p_body_text : string; p_attachments : list attachment; p_has_attachment : bool;
  p_parse_error : option string;
}.

(** A failure to record: UIDVALIDITY, error class, message. *)
Record failure_in := FailureIn { fi_uidvalidity : Z; fi_class : string; fi_message : string }.

(** [_PendingItem] *)
Record pending_item := Item {
  pi_uid : Z;
  pi_event : option event;
  pi_record : option message_in;
  pi_failure_folder_id : option Z;
  pi_contents : option contents_in;
  pi_failure : option failure_in;
  pi_clear_failure : bool;
  pi_bytes : Z;
}.

(** [_LocalMessage]: the row id, and the record as its row and its membership. *)
Definition local_message : Type := Z * (message * membership).

(** [_MoveStateEvent] *)
Record move_state := MoveState {
  ms_message_id : Z;
  ms_folder_id : Z;
  ms_moved_to : option Z;
  ms_event : event;
  ms_record : message * membership;
  ms_remove_membership : bool;
  ms_merge_candidate : option (message * membership);
}.

Record sync_state := SyncState {
  world : World;
  run_stats : stats;
  known_messages : list ((Z * Z * Z) * local_message);
  checkpoint_sequence : Z;
  targets : list folder;
  pending : list pending_item;
  attempted : list Z;
}.
Definition set_world w s := SyncState w (run_stats s) (known_messages s) (checkpoint_sequence s)
  (targets s) (pending s) (attempted s).
Definition set_stats x s := SyncState (world s) x (known_messages s) (checkpoint_sequence s)
  (targets s) (pending s) (attempted s).
Definition set_known x s := SyncState (world s) (run_stats s) x (checkpoint_sequence s)
  (targets s) (pending s) (attempted s).
Definition set_sequence x s := SyncState (world s) (run_stats s) (known_messages s) x
  (targets s) (pending s) (attempted s).
Definition set_targets x s := SyncState (world s) (run_stats s) (known_messages s)
  (checkpoint_sequence s) x (pending s) (attempted s).
Definition set_pending x s := SyncState (world s) (run_stats s) (known_messages s)
  (checkpoint_sequence s) (targets s) x (attempted s).
Definition set_attempted x s := SyncState (world s) (run_stats s) (known_messages s)
  (checkpoint_sequence s) (targets s) (pending s) x.

(** An operation on the durable state. *)
Definition dur {A} (m : M World A) : M sync_state A :=
  fun s => let (r, w) := m (world s) in (r, set_world w s).

(** ** Constants and conversions *)

Definition BATCH_MESSAGE_LIMIT : Z := 100.
Definition BATCH_BYTES_LIMIT : Z := 50 * 1024 * 1024.
Definition SQLITE_MAX_INTEGER : Z := 2 ^ 63 - 1.

(** [_date_iso] *)
Definition date_iso (t : option datetime) : option string := option_map to_utc_iso8601 t.

(** [_valid_sqlite_modseq]: a Python object, [bool] being a subclass of [int]. *)
Definition valid_sqlite_modseq (value : json) : option Z :=
  match value with
  | JInt n => if ((n <=? 0) || (SQLITE_MAX_INTEGER <? n))%Z then None else Some n
  | _ => None
  end.

(** [_flag_seen_at_is_expired] *)
Definition flag_seen_at_is_expired (value : option string) (now : datetime) (seconds : Z) : bool :=
  match nonempty value with
  | None => true
  | Some s => match parse_datetime s with
              | None => true
              | Some seen_at => (seconds * 1000000 <=? microseconds now - microseconds seen_at)%Z
              end
  end.

(** ["\n".join(...)] *)
Definition newline_text : string := String (Ascii.ascii_of_nat 10) "".
Fixpoint join_lines (l : list string) : string :=
  match l with [] => "" | [x] => x | x :: l => x ++ newline_text ++ join_lines l end.

(** [_message_contents] *)
Definition message_contents_of (p : parsed) (empty : bool) : contents_in :=
  if empty then ContentsIn (Some "") None (Some "") None (Some "") (Some "") else
  ContentsIn (Some (p_subject p)) None (Some (p_sender p)) None (Some (p_body_text p))
    (Some (join_lines (flat_map (fun a => match att_filename a with
      | Some n => if att_inline a then [] else [n]
      | None => []
      end) (p_attachments p)))).

Definition jlabels (o : option (list string)) : json :=
  match o with Some l => JList (map JStr l) | None => JNull end.
(** [json.dumps(list(labels), ensure_ascii=False, separators=(",", ":"))] *)
Definition labels_text (l : list string) : string := string_of (print (JList (map JStr l))).

(** [parsed.message_id or ref.message_id] *)
Definition header_id (p : parsed) (r : message_ref) : option string :=
  or_else (nonempty (p_message_id p)) (ref_message_id r).

(** ** Events *)

(** [_fetch_event] *)
Definition fetch_event (account folder_raw_name : string) (folder_id uidv : Z) (r : message_ref)
    (p : parsed) (st : StoredEml) (msgid thrid : option string) (labels : option (list string))
    (now : string) : result event :=
  let? key := remote_source_item_key folder_raw_name uidv (ref_uid r) msgid in
  Ok [("event", JStr "fetch"); ("account_id", JStr account); ("folder_id", JInt folder_id);
      ("folder_raw_name", JStr folder_raw_name); ("uid", JInt (ref_uid r)); ("uidvalidity", JInt uidv);
      ("source_item_key", JStr key); ("message_id", jtext (header_id p r));
      ("relative_path", JStr (eml_relative_path st)); ("file_hash", JStr (eml_file_hash st));
      ("size_bytes", JInt (eml_size_bytes st)); ("internal_date", jtext (date_iso (ref_internal_date r)));
      ("timestamp", JStr now); ("deduplicated", JBool (deduplicated st)); ("gmail_msgid", jtext msgid);
      ("gmail_thrid", jtext thrid); ("gmail_labels", jlabels labels)].

(** [_skipped_event] *)
Definition skipped_event (account folder_raw_name : string) (folder_id uidv : Z) (r : message_ref)
    (size : Z) (now : string) : event :=
  [("event", JStr "fetch_skipped"); ("account_id", JStr account); ("folder_id", JInt folder_id);
   ("folder_raw_name", JStr folder_raw_name); ("uid", JInt (ref_uid r)); ("uidvalidity", JInt uidv);
   ("size_bytes", JInt size); ("reason", JStr "oversize"); ("timestamp", JStr now)].

(** [message_identity_linked] *)
Definition link_event (account canonical alias evidence : string) (hash : json) (now : string) : event :=
  [("event", JStr "message_identity_linked"); ("account_id", JStr account);
   ("canonical_source_item_key", JStr canonical); ("alias_source_item_key", JStr alias);
   ("evidence_kind", JStr evidence); ("file_hash", hash); ("timestamp", JStr now)].

(** What a snapshot uses of a record: its key, its membership, its labels. *)
Record snap := Snap { sn_key : string; sn_membership : membership; sn_labels : option (list string) }.
(** The labels of a record: the JSON text of the column, when it is a list of strings. *)
Definition labels_of (m : message) : option (list string) :=
  match gmail_labels m with
  | Some s => match loads (bytes_of s) with Some j => label_list j | None => None end
  | None => None
  end.
Definition snap_of (m : message) (mf : membership) : snap := Snap (source_item_key m) mf (labels_of m).

Definition text_le (a b : Z * (membership * string * string)) : Prop := String.leb a.2.2 b.2.2 = true.
#[export] Instance text_le_dec : RelDecision text_le.
Proof. intros a b. unfold text_le. apply _. Defined.

(** [_membership_snapshot_event] *)
Definition snapshot_event_of (clock : nat -> datetime) (account : string) (record : snap)
    (remove_folder_id : option Z) (additional : list snap) : M World event :=
  let! fl := db_read (list_folders account) in
  let! ms := db_read (list_message_memberships account (sn_key record)) in
  let! now := mgets (fun w => to_utc_iso8601 (clock (ticks w))) in
  let name (id : Z) := option_map raw_name (List.find (fun f => (f_id f =? id)%Z) fl) in
  let put (d : list (Z * (membership * string))) (mf : membership) (raw : string) :=
    dict_set (mf_folder_id mf) (mf, raw) d in
  let held := fold_left (fun d x => put d x.1.1 x.1.2) ms [] in
  let first := match remove_folder_id with
               | Some f => dict_pop f held
               | None => put held (sn_membership record) ""
               end in
  let all := fold_left (fun d r => put d (sn_membership r) "") additional first in
  let named := map (fun x => (x.1, (x.2, get_or "" (name x.1)))) all in
  mret ([("event", JStr "message_membership_snapshot"); ("account_id", JStr account);
         ("source_item_key", JStr (sn_key record));
         ("memberships", JList (map (fun x =>
            membership_json x.2.1.1 (get_or x.2.1.2 (name x.1)) (moved_to_folder_id x.2.1.1 ≫= name))
            (merge_sort text_le named)));
         ("timestamp", JStr now)]
        ++ match sn_labels record with
           | Some l => [("gmail_labels", JList (map JStr l))]
           | None => []
           end)%list.

(** ** Records *)

(** The message columns of the record [_record_for_message] builds. *)
Definition SYNC_COLUMNS : list string :=
  ["message_id"; "content_key"; "source_item_key"; "local_state"; "relative_path"; "file_hash";
   "subject"; "sender"; "recipient"; "cc"; "date_sent"; "internal_date"; "size_bytes";
   "has_attachment"; "in_reply_to"; "references_ids"; "thread_key"; "gmail_msgid"; "gmail_thrid";
   "gmail_labels"].

(** [_record_for_message] *)
Definition record_for_message (account : string) (folder_id : Z) (folder_raw_name : string) (uidv : Z)
    (r : message_ref) (p : parsed) (st : option StoredEml) (size : Z) (now : string)
    : result message_in :=
  let hash := option_map eml_file_hash st in
  let content := match nonempty (p_content_key p), hash with
                 | Some k, _ => k
                 | None, Some h => "sha256:" ++ String.substring 0 32 h
                 | None, None => "uid:" ++ int_str uidv ++ ":" ++ int_str (ref_uid r)
                 end in
  let? key := remote_source_item_key folder_raw_name uidv (ref_uid r) (ref_gmail_msgid r) in
  Ok (MessageIn SYNC_COLUMNS
        (Message 0 account (header_id p r) content key Active None (option_map eml_relative_path st)
           hash (Some (p_subject p)) (Some (p_sender p)) (Some (p_recipient p)) (Some (p_cc p))
           (date_iso (p_date_sent p)) (date_iso (ref_internal_date r)) (Some size)
           (p_has_attachment p) (p_in_reply_to p) (p_references_ids p) (p_thread_key p)
           (ref_gmail_msgid r) (ref_gmail_thrid r) (option_map labels_text (ref_gmail_labels r)))
        (Membership 0 folder_id (Some (ref_uid r)) (Some uidv) "present" None
           (Some (join_space (ref_flags r))) (Some now) (Some now))).

(** [_record_fetch_failure], with the folder [process_ref] adds *)
Definition fetch_failure_item (folder_id u uidv : Z) (e : exn) : pending_item :=
  Item u None None (Some folder_id) None
    (Some (FailureIn uidv
      (if isinstance e AuthenticationError then "auth"
       else if isinstance e TransientError then "transient" else "permanent") (exn_msg e))) false 0.

(** ** The environment *)

(** The mail server; the number is the step at which it is asked. *)
Record source := Source {
  src_select_folder : nat -> string -> result Z;
  src_max_uid : nat -> string -> result Z;
  src_refs : nat -> string -> Z -> Z -> list message_ref * option exn;
  src_flags : nat -> string -> list Z -> list message_ref * option exn;
  src_flags_since : nat -> string -> Z -> list message_ref * option exn;
  src_highest_modseq : nat -> result json;
  src_capabilities : list string;
  src_existing_uids : nat -> string -> result (list Z);
  src_download : nat -> string -> Z -> result bytes;
  src_headers : nat -> string -> Z -> result bytes;
}.

(** The rest of the environment. *)
Record environment := Env {
  clock : nat -> datetime;
  cancelled : nat -> bool;                      (* the token, at each step *)
  parse : bytes -> option datetime -> result parsed;
  normalize : string -> string;                 (* text normalization of the search index *)
  fresh_name : nat -> string;                   (* uuid4().hex *)
  partial_write : nat -> nat;                   (* bytes on disk before a write ends *)
  jitter : nat -> QArith_base.Q -> QArith_base.Q -> QArith_base.Q;
}.

Section Run.
Context (root : list string) (src : source) (env : environment) (account : string)
  (options : SyncOptions).

Definition now_iso : M World string := mgets (fun w => to_utc_iso8601 (clock env (ticks w))).
Definition token_cancelled (s : sync_state) : bool := cancelled env (ticks (world s)).
Definition check_token : M sync_state unit := raise_if_cancelled token_cancelled.
Definition count (f : stats -> stats) : M sync_state unit :=
  mmodify (fun s => set_stats (f (run_stats s)) s).
Definition add_stats (a b : stats) : stats :=
  Stats (fetched_count a + fetched_count b) (transferred_bytes a + transferred_bytes b)
    (skipped_count a + skipped_count b) (failed_count a + failed_count b)
    (estimated_bytes a + estimated_bytes b).

(** A request to the server, and an iterator over its answers. *)
Definition request {A} (f : nat -> result A) : M sync_state A := dur (ask f).
Definition stream (f : nat -> list message_ref * option exn)
    : M sync_state (list message_ref * option exn) := dur (ask (fun n => Ok (f n))).
(** The end of an iteration: the error that ended the iterator, if any. *)
Definition end_of (e : option exn) : M sync_state unit :=
  match e with Some e => mthrow e | None => mret tt end.

(** [with_retry(..., cancel=token)] with its default policy. *)
Definition retry_policy : retry_env sync_state := RetryEnv _ token_cancelled
  (fun a b => dur (fun w => (Ok (jitter env (ticks w) a b), tick w)))
  (fun _ => dur (fun w => (Ok (cancelled env (ticks w)), tick w))).
Definition retried {A} (m : M sync_state A) : M sync_state A :=
  with_retry retry_policy m 3 (QArith_base.Qmake 1 1) (QArith_base.Qmake 60 1) true.

(** [ManifestWriter.checkpoint] *)
Definition man_checkpoint (sequence : Z) (batch_id : string) : M World unit :=
  let! ts := get_timestamp (clock env) in
  man_append [("event", JStr "checkpoint"); ("account_id", JStr account); ("timestamp", JStr ts);
              ("sequence", JInt sequence); ("batch_id", JStr batch_id)] ;!
  flush_and_sync.

(** ** Committing the pending items *)

(** The cursor arguments of [commit_pending]. *)
Record cursor := Cursor {
  cu_folder_id : Z; cu_last_seen : option Z; cu_backfill : option Z; cu_completed : option bool }.

(** One item of the first loop: its event, and what the snapshots and aliases need. *)
Definition staged : Type := list (string * list snap) * list (string * string).
Definition stage_item (it : pending_item) (st : staged) : M World staged :=
  let (snaps, aliases) := st in
  match pi_event it with
  | None => mret (snaps, aliases)
  | Some e =>
      man_append e ;!
      match (if event_name e == Some "fetch" then pi_record it else None) with
      | None => mret (snaps, aliases)
      | Some r =>
          let row := mr_row r in
          let key := source_item_key row in
          let snaps := dict_set key (get_or [] (dict_get key snaps)
                                     ++ [snap_of row (mr_membership r)])%list snaps in
          match gmail_msgid row, text_of "folder_raw_name" e, uidvalidity (mr_membership r),
                uid (mr_membership r), file_hash row with
          | Some _, Some name, Some v, Some u, Some h =>
              let! alias := mlift (imap_source_item_key name v u) in
              if alias == key then mret (snaps, aliases) else
              let! now := now_iso in
              man_append (link_event account key alias "gmail_msgid" (JStr h) now) ;!
              mret (snaps, (aliases ++ [(key, alias)])%list)
          | _, _, _, _, _ => mret (snaps, aliases)
          end
      end
  end.
Fixpoint stage_items (l : list pending_item) (st : staged) : M World staged :=
  match l with [] => mret st | it :: l => let! st := stage_item it st in stage_items l st end.

(** The snapshot of one message: its records of the batch. *)
Definition append_snapshot (x : string * list snap) : M World unit :=
  match x.2 with
  | [] => mret tt
  | r :: more => let! e := snapshot_event_of (clock env) account r None more in man_append e
  end.

Definition with_id (id : Z) (m : message) : message :=
  Message id (account_id m) (message_id m) (content_key m) (source_item_key m) (m_local_state m)
    (trashed_at m) (relative_path m) (file_hash m) (subject m) (sender m) (recipient m) (cc m)
    (date_sent m) (internal_date m) (size_bytes m) (has_attachment m) (in_reply_to m)
    (references_ids m) (thread_key m) (gmail_msgid m) (gmail_thrid m) (gmail_labels m).
Definition known_key (mf : membership) : Z * Z * Z :=
  (mf_folder_id mf, get_or 0%Z (uidvalidity mf), get_or 0%Z (uid mf)).
Definition remember (id : Z) (r : message_in) : M sync_state unit :=
  mmodify (fun s => set_known (dict_set (known_key (mr_membership r))
    (id, (with_id id (mr_row r), with_message_id id (mr_membership r))) (known_messages s)) s).

(** One item of the batch. *)
Definition batch_item (aliases : list (string * string)) (it : pending_item) : M sync_state unit :=
  match pi_record it with
  | None => mret tt
  | Some r =>
      let! id := dur (db_write (add_message (normalize env) r (pi_contents it))) in
      remember id r ;!
      mfor aliases (fun a => mwhen (a.1 == source_item_key (mr_row r))
        (dur (db_update' (add_message_identity_alias account a.2 id "gmail_msgid"))))
  end ;!
  match pi_failure it with
  | Some f =>
      match pi_failure_folder_id it with
      | Some fid => dur (db_update (record_failure account fid (fi_uidvalidity f) (pi_uid it)
                                      (fi_class f) (fi_message f)))
      | None => mraise DatabaseError "SQLite operation failed: record sync failure"
      end
  | None =>
      match (if pi_clear_failure it then pi_record it else None) with
      | Some r => dur (db_update (clear_failure account (mf_folder_id (mr_membership r))
                                    (get_or 0%Z (uidvalidity (mr_membership r))) (pi_uid it)))
      | None => mret tt
      end
  end.

(** [commit_pending]: nothing to do without items and cursor. *)
Definition write_pending (items : list pending_item) (cu : option cursor) : M sync_state unit :=
  let! st := dur (stage_items items ([], [])) in
  dur (mfor st.1 append_snapshot ;! flush_and_sync ;! begin_batch) ;!
  mfor items (batch_item st.2) ;!
  match cu with
  | Some c => dur (db_update (update_sync_cursors (cu_folder_id c) (cu_last_seen c)
                                (cu_backfill c) (cu_completed c)))
  | None => mret tt
  end ;!
  dur commit_batch ;!
  mmodify (fun s => set_sequence (checkpoint_sequence s + 1)%Z (set_pending [] s)) ;!
  let! n := mgets checkpoint_sequence in
  let! name := mgets (fun s => fresh_name env (ticks (world s))) in
  dur (man_checkpoint n name) ;!
  mwhen (n mod 10 =? 0)%Z (dur (io (mret tt))).
Definition commit_pending (cu : option cursor) : M sync_state unit :=
  let! items := mgets pending in
  match items, cu with
  | [], None => mret tt
  | _, _ => write_pending items cu
  end.
Definition commit_if_pending : M sync_state unit :=
  let! items := mgets pending in if items is [] then mret tt else commit_pending None.

(** ** One message *)

Definition set_failure_folder (fid : Z) (it : pending_item) : pending_item :=
  match pi_failure it with
  | Some _ => Item (pi_uid it) (pi_event it) (pi_record it) (Some fid) (pi_contents it)
                (pi_failure it) (pi_clear_failure it) (pi_bytes it)
  | None => it
  end.

(** The item of a message over the size limit. *)
Definition oversize_item (raw : string) (fid uidv : Z) (r : message_ref) (payload : bytes) (size : Z)
    : M sync_state pending_item :=
  let! p := mlift (parse env payload (ref_internal_date r)) in
  let! now := dur now_iso in
  let! rec := mlift (record_for_message account fid raw uidv r p None size now) in
  count (add_stats (Stats 1 0 1 1 0)) ;!
  mret (Item (ref_uid r) (Some (skipped_event account raw fid uidv r size now)) (Some rec) None None
          (Some (FailureIn uidv "oversize" "message exceeds configured size limit")) false
          (Z.of_nat (length payload))).

(** The EML: the file the database knows for this content, else a saved one. *)
Definition store_eml (r : message_ref) (raw : bytes) : M World StoredEml :=
  let file_hash := hexdigest raw in
  let! existing := db_read (find_stored_eml account file_hash) in
  let! reused := match existing with
                 | Some x => reuse root (eml_relative_path x) file_hash
                 | None => mret None
                 end in
  match reused with
  | Some s => mret s
  | None =>
      let! n := mgets ticks in
      save_eml account (ref_internal_date r) raw (fresh_name env n) (partial_write env n)
  end.

(** [make_item] *)
Definition make_item (raw : string) (fid uidv : Z) (r : message_ref) : M sync_state pending_item :=
  count (add_stats (Stats 0 0 0 0 (get_or 0%Z (ref_size_bytes r)))) ;!
  if (max_message_bytes options <? get_or 0 (ref_size_bytes r))%Z then
    let! headers := retried (request (fun n => src_headers src n raw (ref_uid r))) in
    let! it := oversize_item raw fid uidv r headers (get_or 0%Z (ref_size_bytes r)) in
    count (add_stats (Stats 0 (Z.of_nat (length headers)) 0 0 0)) ;!
    mret it
  else
  let! payload := retried (request (fun n => src_download src n raw (ref_uid r))) in
  let size := Z.of_nat (length payload) in
  count (add_stats (Stats 0 size 0 0 (if ref_size_bytes r is None then size else 0%Z))) ;!
  if (max_message_bytes options <? size)%Z then oversize_item raw fid uidv r payload size else
  let! stored := dur (store_eml r payload) in
  let! p := mlift (parse env payload (ref_internal_date r)) in
  let! now := dur now_iso in
  let! rec := mlift (record_for_message account fid raw uidv r p (Some stored) size now) in
  let failed := if p_parse_error p is Some _ then true else false in
  count (add_stats (Stats 1 0 0 (if failed then 1 else 0) 0)) ;!
  let! e := mlift (fetch_event account raw fid uidv r p stored (ref_gmail_msgid r) (ref_gmail_thrid r)
                     (ref_gmail_labels r) now) in
  mret (Item (ref_uid r) (Some e) (Some rec) None (Some (message_contents_of p failed))
          (match p_parse_error p with
           | Some m => Some (FailureIn uidv "parse" (get_or "message parsing failed" (nonempty (Some m))))
           | None => None
           end) (negb failed) size).

(** [process_ref]: a failed message becomes an item that records the failure. *)
Definition process_ref (raw : string) (fid uidv : Z) (r : message_ref) : M sync_state unit :=
  check_token ;!
  let! it := mtry (let! it := make_item raw fid uidv r in mret (set_failure_folder fid it))
    (fun e => if isinstance e AuthenticationError then mthrow e
              else if isinstance e FetchError || isinstance e StorageError then
                count (add_stats (Stats 0 0 0 1 0)) ;! mret (fetch_failure_item fid (ref_uid r) uidv e)
              else mthrow e) in
  mmodify (fun s => set_pending (pending s ++ [it])%list s).

Definition batch_is_full (s : sync_state) : bool :=
  ((BATCH_MESSAGE_LIMIT <=? Z.of_nat (length (pending s)))
   || (BATCH_BYTES_LIMIT <=? fold_left (fun n it => n + pi_bytes it) (pending s) 0))%Z.
Definition mark_attempted (u : Z) : M sync_state unit :=
  mmodify (fun s => set_attempted (attempted s ++ [u])%list s).

(** [retry_pending_failures] *)
Definition retry_failure (raw : string) (fid uidv : Z) (f : failure) : M sync_state unit :=
  let u := sf_uid f in
  let! found := stream (fun n => src_refs src n raw u u) in
  match found with
  | ([], e) => end_of e
  | (r :: _, _) =>
      mark_attempted u ;!
      if (error_class f == "oversize")
         && match ref_size_bytes r with Some n => (max_message_bytes options <? n)%Z | None => false end
      then mret tt
      else process_ref raw fid uidv r ;!
           let! full := mgets batch_is_full in
           mwhen full (commit_pending None)
  end.
Definition retry_pending_failures (raw : string) (fid uidv : Z) : M sync_state unit :=
  let! l := dur (db_read (pending_failures account fid uidv)) in
  mfor l (retry_failure raw fid uidv).

(** [process_range]: the smallest UID of the items pending since the last history commit. *)
Definition history_cursor (fid : Z) (minimum : option Z) : cursor :=
  let next := match minimum with Some m => Z.max (m - 1) 0 | None => 0%Z end in
  Cursor fid None (Some next) (Some (next =? 0)%Z).
Fixpoint range_loop (raw : string) (fid uidv : Z) (history : bool) (l : list message_ref)
    (minimum : option Z) : M sync_state (option Z) :=
  match l with
  | [] => mret minimum
  | r :: l =>
      let! seen := mgets (fun s => mem (ref_uid r) (attempted s)) in
      if seen then range_loop raw fid uidv history l minimum else
      mark_attempted (ref_uid r) ;!
      process_ref raw fid uidv r ;!
      let m := match minimum with Some m => Z.min m (ref_uid r) | None => ref_uid r end in
      let! full := mgets batch_is_full in
      if full then
        if history
        then commit_pending (Some (history_cursor fid (Some m))) ;!
             range_loop raw fid uidv history l None
        else commit_pending None ;! range_loop raw fid uidv history l (Some m)
      else range_loop raw fid uidv history l (Some m)
  end.
Definition process_range (raw : string) (fid uidv : Z) (min_uid max_uid : Z) (history : bool)
    : M sync_state (option Z) :=
  let! answer := stream (fun n => src_refs src n raw min_uid max_uid) in
  let! minimum := range_loop raw fid uidv history answer.1 None in
  end_of answer.2 ;!
  mret minimum.

(** ** Refreshing the flags *)

Definition Z_le (a b : Z) : Prop := (a <= b)%Z.
#[local] Instance Z_le_dec : RelDecision Z_le.
Proof. intros a b. unfold Z_le. apply _. Defined.
Definition sorted_uids (l : list Z) : list Z := merge_sort Z_le l.
Definition str_le (a b : string) : Prop := String.leb a b = true.
#[local] Instance str_le_dec : RelDecision str_le.
Proof. intros a b. unfold str_le. apply _. Defined.
Definition same_labels (a b : list string) : bool := merge_sort str_le a == merge_sort str_le b.

(** The saved labels of an item; anything but a list of strings counts as none. *)
Definition saved_labels (m : message) : list string :=
  match nonempty (gmail_labels m) with
  | Some s => get_or [] (loads (bytes_of s) ≫= label_list)
  | None => []
  end.

(** The lists of updates waiting for a flush. *)
Record flag_queue := Queue {
  q_changes : list (Z * option string);
  q_touches : list Z;
  q_labels : list (Z * list string);
}.
Definition empty_queue : flag_queue := Queue [] [] [].
Definition queue_length (q : flag_queue) : Z :=
  Z.of_nat (length (q_changes q) + length (q_touches q) + length (q_labels q)).

Section Refresh.
Context (google : bool) (f : folder) (uidv : Z) (seen_at : string)
  (items : list (Z * (message * membership))).      (* by UID *)

(** The record of a message whose labels changed: its membership with the new flags. *)
Definition label_snap (q : flag_queue) (u : Z) (labels : list string) (x : message * membership) : snap :=
  let mf := x.2 in
  let flags := match dict_get u (q_changes q) with Some fl => fl | None => imap_flags mf end in
  Snap (source_item_key x.1)
    (Membership (mf_message_id mf) (f_id f) (uid mf) (uidvalidity mf) (remote_state mf)
       (moved_to_folder_id mf) flags (flags_seen_at mf) (Some seen_at)) (Some labels).

Fixpoint group_label_snaps (q : flag_queue) (named : bool) (l : list (Z * list string))
    (d : list (string * list snap)) : M World (list (string * list snap)) :=
  match l with
  | [] => mret d
  | (u, labels) :: l =>
      match dict_get u items with
      | None => mraise KeyError "uid"
      | Some x =>
          mlift (check named StorageError "Gmail flag refresh lacks membership identity") ;!
          let key := source_item_key x.1 in
          group_label_snaps q named l
            (dict_set key (get_or [] (dict_get key d) ++ [label_snap q u labels x])%list d)
      end
  end.

(** [flush_flag_updates] *)
Definition flush_flag_updates (q : flag_queue) : M World unit :=
  if (queue_length q =? 0)%Z then mret tt else
  mwhen google
    (let! fl := db_read (list_folders account) in
     let named := existsb (fun g => (f_id g =? f_id f)%Z) fl in
     let! groups := group_label_snaps q named (q_labels q) [] in
     mfor groups append_snapshot ;!
     mwhen (if q_labels q is [] then false else true) flush_and_sync) ;!
  begin_batch ;!
  mfor (q_changes q) (fun c => db_update (update_flags account (f_id f) uidv c.1 c.2 seen_at)) ;!
  mwhen (if q_touches q is [] then false else true)
    (db_update (touch_flags_seen_at account (f_id f) uidv (q_touches q) seen_at)) ;!
  mfor (q_labels q) (fun x => match dict_get x.1 items with
    | Some y => db_update (update_gmail_labels (m_id y.1) (labels_text x.2))
    | None => mraise KeyError "uid"
    end) ;!
  commit_batch.

Definition flush_when_full (q : flag_queue) : M World flag_queue :=
  if (500 <=? queue_length q)%Z then flush_flag_updates q ;! mret empty_queue else mret q.

Definition labels_changed (u : Z) (labels : option (list string)) : bool :=
  match labels with
  | Some l => google && negb (same_labels l (match dict_get u items with
                                             | Some x => saved_labels x.1 | None => [] end))
  | None => false
  end.
(** [queue_update] and [queue_touch] *)
Definition queue_update (u : Z) (flags : option string) (labels : option (list string)) (q : flag_queue)
    : M World flag_queue :=
  flush_when_full (Queue (q_changes q ++ [(u, flags)])%list (q_touches q)
    (match labels with
     | Some l => if labels_changed u labels then dict_set u l (q_labels q) else q_labels q
     | None => q_labels q
     end)).
Definition queue_touch (u : Z) (q : flag_queue) : M World flag_queue :=
  flush_when_full (Queue (q_changes q) (q_touches q ++ [u])%list (q_labels q)).

(** One pass over the answers: [touch] tells whether an unchanged message is only touched. The
    UIDs answered and the queue. *)
Fixpoint refresh_loop (touch : bool) (l : list message_ref) (answered : list Z) (q : flag_queue)
    : M sync_state (list Z * flag_queue) :=
  match l with
  | [] => mret (answered, q)
  | r :: l =>
      check_token ;!
      match dict_get (ref_uid r) items with
      | None => refresh_loop touch l answered q
      | Some x =>
          let flags := Some (join_space (ref_flags r)) in
          let! q := dur (if touch && (imap_flags x.2 == flags)
                            && negb (labels_changed (ref_uid r) (ref_gmail_labels r))
                         then queue_touch (ref_uid r) q
                         else queue_update (ref_uid r) flags (ref_gmail_labels r) q) in
          refresh_loop touch l (answered ++ [ref_uid r])%list q
      end
  end.
Definition refresh_stream (touch : bool) (answer : nat -> list message_ref * option exn)
    : M sync_state (list Z * flag_queue) :=
  let! a := stream answer in
  let! out := refresh_loop touch a.1 [] empty_queue in
  end_of a.2 ;!
  check_token ;!
  mret out.
Fixpoint touch_all (l : list Z) (q : flag_queue) : M World flag_queue :=
  match l with [] => mret q | u :: l => let! q := queue_touch u q in touch_all l q end.

Definition save_modseq (value : option Z) : M World unit :=
  begin_batch ;! db_update (set_highest_modseq (f_id f) value) ;! commit_batch.

(** The three ways to refresh: everything known, the changes since the saved sequence number, or
    the expired messages one by one. *)
Definition refresh_known (expired : list Z) (use_condstore saved_ahead : bool)
    (current saved : option Z) : M sync_state unit :=
  let raw := raw_name f in
  if use_condstore && ((if saved is None then true else false) || saved_ahead) then
    let! out := refresh_stream false (fun n => src_flags src n raw (sorted_uids (map fst items))) in
    dur (flush_flag_updates out.2) ;!
    match current with Some c => dur (save_modseq (Some c)) | None => mret tt end
  else
  match (if use_condstore then saved else None), current with
  | Some modseq, Some c =>
      let! out := refresh_stream false (fun n => src_flags_since src n raw modseq) in
      let! q := dur (touch_all (sorted_uids (List.filter (fun u => negb (mem u out.1)) expired)) out.2) in
      dur (flush_flag_updates q) ;!
      dur (save_modseq (Some c))
  | _, _ =>
      let! out := refresh_stream true (fun n => src_flags src n raw (sorted_uids expired)) in
      dur (flush_flag_updates out.2) ;!
      mwhen (negb use_condstore && (if saved is Some _ then true else false)) (dur (save_modseq None))
  end.
End Refresh.

Definition uppercase_char (c : Ascii.ascii) : Ascii.ascii :=
  let n := Ascii.nat_of_ascii c in
  if (97 <=? n)%nat && (n <=? 122)%nat then Ascii.ascii_of_nat (n - 32) else c.
Fixpoint uppercase (s : string) : string :=
  match s with "" => "" | String c s => String (uppercase_char c) (uppercase s) end.

(** [refresh_flags] *)
Definition refresh_flags (google : bool) (f : folder) : M sync_state unit :=
  if negb (flag_refresh_enabled options) || negb (initial_sync_completed f) then mret tt else
  let uidv := get_or 0%Z (f_uidvalidity f) in
  let! now := mgets (fun s => clock env (ticks (world s))) in
  let seen_at := to_utc_iso8601 now in
  let since := to_utc_iso8601 (minus_days (flag_refresh_window_days options) now) in
  let! rows := dur (db_read (list_flag_refresh_items account (f_id f) uidv since)) in
  let items := flat_map (fun x => match uid x.2 with Some u => [(u, x)] | None => [] end) rows in
  let expired := map fst (List.filter (fun x =>
    flag_seen_at_is_expired (flags_seen_at x.2.2) now (flag_refresh_min_interval_seconds options)) items) in
  let condstore := mem "CONDSTORE" (map uppercase (src_capabilities src)) in
  let! reported := request (fun n => src_highest_modseq src n) in
  let current := valid_sqlite_modseq reported in
  let saved := highest_modseq f ≫= fun n => valid_sqlite_modseq (JInt n) in
  let use_condstore := condstore && (if current is Some _ then true else false) in
  let saved_ahead := match saved, current with Some a, Some b => (b <? a)%Z | _, _ => false end in
  if (if expired is [] then true else false) then
    mwhen ((if highest_modseq f is Some _ then true else false)
           && (negb use_condstore || (if saved is None then true else false) || saved_ahead))
      (dur (save_modseq f None))
  else refresh_known google f uidv seen_at items expired use_condstore saved_ahead current saved.

(** ** One folder *)

Definition update_target (fid : Z) (g : folder -> folder) : M sync_state unit :=
  mmodify (fun s => set_targets (update_where (fun f => (f_id f =? fid)%Z) g (targets s)) s).
Definition with_generation (v : Z) (f : folder) : folder :=
  Folder (f_id f) (f_account_id f) (raw_name f) (display_name f) (Some v) (last_seen_uid f)
    (is_sync_target f) (last_synced_at f) (backfill_next_uid f) (initial_sync_completed f)
    (highest_modseq f).
Definition with_completed (b : bool) (f : folder) : folder :=
  Folder (f_id f) (f_account_id f) (raw_name f) (display_name f) (f_uidvalidity f) (last_seen_uid f)
    (is_sync_target f) (last_synced_at f) (backfill_next_uid f) b (highest_modseq f).

Definition write_cursors (g : Db -> Db) : M World unit := begin_batch ;! db_update g ;! commit_batch.

(** The cursors the folder starts from: last UID seen, next UID to backfill, history complete. *)
Definition start_cursors (f : folder) (v : Z) : M sync_state (Z * Z * bool) :=
  let fid := f_id f in
  if f_uidvalidity f != Some v then
    let! max_uid := request (fun n => src_max_uid src n (raw_name f)) in
    dur (write_cursors (initialize_sync_cursors fid v max_uid)) ;!
    let! ts := dur (get_timestamp (clock env)) in
    dur (man_append (folder_snapshot_event account (with_generation v f) ts) ;! flush_and_sync) ;!
    mret (max_uid, max_uid, (max_uid =? 0)%Z)
  else match backfill_next_uid f with
       | Some b => mret (last_seen_uid f, b, initial_sync_completed f)
       | None =>
           let! max_uid := request (fun n => src_max_uid src n (raw_name f)) in
           dur (write_cursors (update_sync_cursors fid None (Some max_uid)
                                 (Some (initial_sync_completed f)))) ;!
           mret (last_seen_uid f, max_uid, initial_sync_completed f)
       end.

(** New messages above [last_seen]; the last UID seen afterwards. *)
Definition fetch_new (f : folder) (v last_seen : Z) : M sync_state Z :=
  let! new_max := request (fun n => src_max_uid src n (raw_name f)) in
  if (last_seen <? new_max)%Z then
    process_range (raw_name f) (f_id f) v (last_seen + 1)%Z new_max false ;!
    commit_pending (Some (Cursor (f_id f) (Some new_max) None None)) ;!
    mret new_max
  else mret last_seen.

(** The history below [limit]; whether it is complete. *)
Definition fetch_history (f : folder) (v limit : Z) : M sync_state bool :=
  let! minimum := process_range (raw_name f) (f_id f) v 1 limit true in
  let! items := mgets pending in
  match items, minimum with
  | _ :: _, _ => commit_pending (Some (history_cursor (f_id f) minimum))
  | [], None => dur (write_cursors (update_sync_cursors (f_id f) None (Some 0%Z) (Some true)))
  | [], Some _ => mret tt
  end ;!
  mret (get_or false (cu_completed (history_cursor (f_id f) minimum))).

(** The [try] block of [sync_folder]: the messages, then the flags. *)
Definition fetch_messages (f : folder) (v : Z) (start : Z * Z * bool) : M sync_state bool :=
  let '(last_seen, backfill, completed) := start in
  retry_pending_failures (raw_name f) (f_id f) v ;!
  let! last_seen := fetch_new f v last_seen in
  let! completed := if negb completed && (0 <? backfill)%Z then fetch_history f v backfill
                    else mret completed in
  update_target (f_id f) (with_completed completed) ;!
  let! catchup := request (fun n => src_max_uid src n (raw_name f)) in
  (if (last_seen <? catchup)%Z then
     process_range (raw_name f) (f_id f) v (last_seen + 1)%Z catchup false ;!
     commit_pending (Some (Cursor (f_id f) (Some catchup) None None))
   else commit_if_pending) ;!
  mret completed.
Definition fetch_folder (google : bool) (f : folder) (v : Z) (start : Z * Z * bool) : M sync_state unit :=
  let! completed := fetch_messages f v start in
  mtry (refresh_flags google (with_completed completed (with_generation v f)))
    (fun e => if isinstance e AuthenticationError || isinstance e OperationCancelledError then mthrow e
              else if isinstance e FetchError then mret tt else mthrow e).

(** [sync_folder]: whether the run was cancelled. *)
Definition sync_folder (google : bool) (f : folder) : M sync_state bool :=
  let! v := request (fun n => src_select_folder src n (raw_name f)) in
  update_target (f_id f) (with_generation v) ;!
  let! start := start_cursors f v in
  mmodify (fun s => set_attempted [] (set_pending [] s)) ;!
  mtry (fetch_folder google f v start ;! mret false)
    (fun e => if isinstance e OperationCancelledError then commit_if_pending ;! mret true
              else if isinstance e AuthenticationError then commit_if_pending ;! mthrow e
              else mthrow e).

(** ** Messages missing from the server *)

Definition joined (s : stored) : list (message * membership) :=
  match s_membership s with Some mf => [(s_message s, mf)] | None => [] end.

(** [known_messages.get(...) or _get_local_message(...)] *)
Definition local_message_at (fid uidv u : Z) : M sync_state (option local_message) :=
  let! known := mgets known_messages in
  match dict_get (fid, uidv, u) known with
  | Some l => mret (Some l)
  | None =>
      let! r := dur (db_read (get_message_by_uid account fid uidv u)) in
      mret (match r with
            | Some x => option_map (fun j => (m_id (s_message x), j)) (head (joined x))
            | None => None
            end)
  end.

(** The other copies of the content. *)
Definition move_candidates (fid : Z) (m : message) : M World (list (message * membership)) :=
  match file_hash m with
  | None => mret []
  | Some h =>
      let! l := db_read (find_move_candidates account (content_key m) (Some h) fid) in
      mret (List.filter (fun x => (content_key x.1 == content_key m) && (file_hash x.1 == Some h))
              (flat_map joined l))
  end.

(** A copy the duplicate may be folded into: the only one in a folder scanned in this run and
    fetched in this run. *)
Definition fresh_candidate (can_merge : bool) (scanned : list Z)
    (known : list ((Z * Z * Z) * local_message)) (l : list (message * membership))
    : option (message * membership) :=
  if negb can_merge then None else
  match List.filter (fun x => mem (mf_folder_id x.2) scanned
      && match uidvalidity x.2, uid x.2 with
         | Some v, Some u => if dict_get (mf_folder_id x.2, v, u) known is Some _ then true else false
         | _, _ => false
         end) l with
  | [x] => Some x
  | _ => None
  end.

(** The name of the event for a missing message. *)
Definition missing_event_name (google : bool) (merge : option (message * membership))
    (candidates : list (message * membership)) (hash : option string) : string :=
  match merge with
  | Some _ => "moved"
  | None => if google || ((if candidates is [] then true else false)
                          && (if hash is Some _ then true else false))
            then "delete_detected" else "remote_state_unknown"
  end.

(** The outcome for one missing UID, if a local message has it. *)
Definition missing_outcome (google : bool) (scanned : list Z) (names : list (Z * string)) (f : folder)
    (u : Z) : M sync_state (option move_state) :=
  let fid := f_id f in
  let uidv := get_or 0%Z (f_uidvalidity f) in
  let! local := local_message_at fid uidv u in
  match local with
  | None => mret None
  | Some (id, (m, mf)) =>
      let! candidates := dur (move_candidates fid m) in
      let! known := mgets known_messages in
      let merge := fresh_candidate (negb google && (if file_hash m is Some _ then true else false)
                                    && mem fid scanned) scanned known candidates in
      let moved_to := option_map (fun x => mf_folder_id x.2) merge in
      let name := missing_event_name google merge candidates (file_hash m) in
      let! key := match nonempty (Some (source_item_key m)) with
                  | Some k => mret k
                  | None => mlift (remote_source_item_key (raw_name f) uidv u None)
                  end in
      let! now := dur now_iso in
      let e := [("event", JStr name); ("account_id", JStr account);
                ("folder_raw_name", JStr (raw_name f)); ("uid", JInt u); ("uidvalidity", JInt uidv);
                ("source_item_key", JStr key); ("message_id", jtext (message_id m));
                ("content_key", JStr (content_key m)); ("file_hash", jtext (file_hash m));
                ("timestamp", JStr now)] in
      let moved_name := moved_to ≫= fun i => dict_get i names in
      mret (Some (MoveState id fid moved_to
        (e ++ match moved_name with
              | Some n => [("moved_to_folder_raw_name", JStr n)] | None => [] end)%list
        (m, mf) google merge))
  end.
Fixpoint missing_outcomes (google : bool) (scanned : list Z) (names : list (Z * string)) (f : folder)
    (l : list Z) : M sync_state (list move_state) :=
  match l with
  | [] => mret []
  | u :: l =>
      let! o := missing_outcome google scanned names f u in
      let! os := missing_outcomes google scanned names f l in
      mret (match o with Some x => x :: os | None => os end)
  end.

(** The manifest records of an outcome besides its event. *)
Definition outcome_events (o : move_state) : M World unit :=
  let (m, mf) := ms_record o in
  if ms_remove_membership o then
    let! e := snapshot_event_of (clock env) account (snap_of m mf) (Some (ms_folder_id o)) [] in
    man_append e
  else match ms_merge_candidate o with
       | None => mret tt
       | Some (cm, cmf) =>
           let! now := now_iso in
           man_append (link_event account (source_item_key m) (source_item_key cm) "file_hash_move"
                         (jtext (file_hash cm)) now) ;!
           let! e := snapshot_event_of (clock env) account
                       (snap_of m (set_remote_state "moved" (ms_moved_to o) mf)) None
                       [snap_of cm cmf] in
           man_append e
       end.

(** The database updates of an outcome. *)
Definition apply_outcome (o : move_state) : M World unit :=
  if ms_remove_membership o then
    match nonempty (text_of "source_item_key" (ms_event o)) with
    | None => mraise StorageError "Gmail membership removal has no canonical source key"
    | Some key =>
        let! l := db_read (list_message_memberships account key) in
        db_update' (replace_message_memberships (ms_message_id o)
          (map (fun x => x.1.1) (List.filter (fun x => negb (mf_folder_id x.1.1 =? ms_folder_id o)%Z) l)))
    end
  else match ms_merge_candidate o with
       | Some (cm, _) =>
           db_update' (merge_duplicate_message account (ms_message_id o) (m_id cm)) ;!
           db_update (update_remote_state (ms_message_id o) "moved" (ms_moved_to o)
                        (Some (ms_folder_id o)))
       | None =>
           let state := if event_name (ms_event o) == Some "delete_detected" then "deleted"
                        else if event_name (ms_event o) == Some "moved" then "moved" else "unknown" in
           db_update (update_remote_state (ms_message_id o) state (ms_moved_to o)
                        (Some (ms_folder_id o)))
       end.

Definition commit_outcomes (l : list move_state) : M World unit :=
  mfor l (fun o => man_append (ms_event o)) ;!
  mfor l outcome_events ;!
  flush_and_sync ;!
  begin_batch ;!
  mfor l apply_outcome ;!
  commit_batch.

(** The folder's UIDs the server no longer lists; an answer that fails skips the folder. *)
Definition detect_missing (google : bool) (scanned : list Z) (names : list (Z * string)) (f : folder)
    : M sync_state unit :=
  let! answer := dur (attempt (ask (fun n => src_existing_uids src n (raw_name f)))) in
  match answer with
  | Err e => if isinstance e FetchError then mret tt else mthrow e
  | Ok remote =>
      let! local := dur (db_read (local_uids account (f_id f) (get_or 0%Z (f_uidvalidity f)))) in
      let missing := sorted_uids (remove_dups (List.filter (fun u => negb (mem u remote)) local)) in
      let! outcomes := missing_outcomes google scanned names f missing in
      if outcomes is [] then mret tt else dur (commit_outcomes outcomes)
  end.

(** ** The run *)

(** The loop over the folders: whether it was cancelled, and the folders scanned. *)
Fixpoint sync_folders (google : bool) (l : list folder) (scanned : list Z)
    : M sync_state (bool * list Z) :=
  match l with
  | [] => mret (false, scanned)
  | f :: l =>
      let! out := mtry (let! c := sync_folder google f in mret (Some c))
        (fun e => if isinstance e AuthenticationError then mthrow e
                  else if isinstance e FetchError then mret None else mthrow e) in
      match out with
      | Some true => mret (true, scanned)
      | Some false => sync_folders google l (scanned ++ [f_id f])%list
      | None => sync_folders google l scanned
      end
  end.

Definition result_of (c : bool) (s : stats) : SyncResult :=
  Synced (fetched_count s) (transferred_bytes s) (skipped_count s) (failed_count s) c.

(** The body of [sync_account], over the state of a run. *)
Definition sync_run : M sync_state SyncResult :=
  dur (ensure_imap_account account) ;!
  let! accounts := dur (db_read list_accounts) in
  let google := existsb (fun a => (a_id a == account) && (oauth_provider a == Some "google")) accounts in
  let! folders := dur (db_read (list_sync_targets account)) in
  mmodify (fun s => set_sequence (get_or 0%Z (last_sequence (world s))) (set_targets folders s)) ;!
  let! out := sync_folders google folders [] in
  let (stopped, scanned) := (out : bool * list Z) in
  mwhen (negb stopped)
    (let! l := mgets targets in
     mfor l (detect_missing google scanned (map (fun f => (f_id f, raw_name f)) folders))) ;!
  let! s := mgets run_stats in
  mret (result_of stopped s).

Definition initial_state (w : World) : sync_state :=
  SyncState w (Stats 0 0 0 0 0) [] 0 [] [] [].
(** [sync_account] *)
Definition sync_account : M World SyncResult :=
  fun w => let (r, s) := sync_run (initial_state w) in (r, world s).

(** [force_fetch_message]: the event carries no Gmail identity. *)
Definition force_fetch_message (raw : string) (fid uidv u : Z) : M sync_state SyncResult :=
  check_token ;!
  let! v := request (fun n => src_select_folder src n raw) in
  if negb (v =? uidv)%Z
  then mraise PermanentError "message UIDVALIDITY has changed; run synchronization again" else
  let! found := stream (fun n => src_refs src n raw u u) in
  match found with
  | ([], e) => end_of e ;! mraise PermanentError "message no longer exists on the server"
  | (r :: _, _) =>
      let! payload := retried (request (fun n => src_download src n raw u)) in
      check_token ;!
      let! stored := dur (store_eml r payload) in
      let! p := mlift (parse env payload (ref_internal_date r)) in
      let size := Z.of_nat (length payload) in
      let failed := if p_parse_error p is Some _ then true else false in
      dur (let! now := now_iso in
           let! rec := mlift (record_for_message account fid raw uidv r p (Some stored) size now) in
           let! e := mlift (fetch_event account raw fid uidv r p stored None None None now) in
           man_append e ;!
           flush_and_sync ;!
           begin_batch ;!
           let! id := db_write (add_message (normalize env) rec (Some (message_contents_of p failed))) in
           match p_parse_error p with
           | Some msg => db_update (record_failure account fid uidv u "parse"
                           (get_or "message parsing failed" (nonempty (Some msg))))
           | None => db_update (clear_failure account fid uidv u)
           end ;!
           commit_batch ;!
           let! n := mgets (fun w => get_or 0%Z (last_sequence w)) in
           let! name := mgets (fun w => fresh_name env (ticks w)) in
           man_checkpoint (n + 1)%Z name) ;!
      mret (Synced 1 size 0 (if failed then 1%Z else 0%Z) false)
  end.
End Run.
Close Scope string_scope.
Close Scope Z_scope.
