(* ===== verification/SyncDurable.v ===== *)
(** * SyncDurable: what a synchronization leaves on disk

    Whatever the server answers, whichever storage operation fails and wherever the run is
    cancelled, every message row of the account that names an EML file names a file that is there,
    whose bytes have the recorded hash, and whose fetch event is on disk in the manifest: the files
    are placed before the events are synced, and the events are synced before the rows are
    written. *)

From S2P Require Import Prelude Errors PyTime Json Manifest Database World Sha256.
From S2P Require Import EmlStorage DeleteRemote Retry Snapshots Sync.

(** ** Rows keep their storage *)

Section Rows.
Context (account : string).

(** Path and hash of every row of the account come from a row of [d]. *)
Definition rows_from (d d' : Db) : Prop :=
  forall m', m' ∈ messages d' -> account_id m' = account ->
    exists m, m ∈ messages d /\ account_id m = account
      /\ relative_path m' = relative_path m /\ file_hash m' = file_hash m.

#[export] Instance rows_from_preorder : PreOrder rows_from.
Proof.
  split; [intros d m Hm Ha; by exists m|]. intros d1 d2 d3 H1 H2 m3 Hm Ha.
  destruct (H2 m3 Hm Ha) as (m2 & Hm2 & Ha2 & E1 & E2).
  destruct (H1 m2 Hm2 Ha2) as (m1 & Hm1 & Ha1 & E3 & E4). exists m1. by rewrite E1, E2.
Qed.

Lemma rows_from_same d d' : messages d' = messages d -> rows_from d d'.
Proof. intros E m Hm Ha. rewrite E in Hm. by exists m. Qed.

Lemma rows_from_update id f d :
  (forall m, account_id (f m) = account_id m /\ relative_path (f m) = relative_path m
             /\ file_hash (f m) = file_hash m) ->
  rows_from d (update_message id f d).
Proof.
  intros Hf m' Hm Ha. unfold update_message in Hm. cbn [messages set_messages] in Hm.
  apply elem_of_update_where in Hm as (m & Hm & ->). exists m. specialize (Hf m).
  case_match; [|done]. destruct Hf as (E1 & E2 & E3). by rewrite <- E1.
Qed.

Lemma rows_from_deleted id d : rows_from d (delete_message id d).
Proof.
  intros m Hm Ha. unfold delete_message in Hm.
  cbn [messages set_messages set_aliases set_contents set_memberships] in Hm.
  apply elem_of_delete_where in Hm as [Hm _]. by exists m.
Qed.

Lemma merge_membership_messages canonical duplicate mf d d' :
  merge_membership canonical duplicate mf d = Ok d' -> messages d' = messages d.
Proof.
  unfold merge_membership. case_match; [|by intros [= <-]].
  by intros (? & _ & [= <-])%rbind_ok.
Qed.
Lemma merge_memberships_messages canonical duplicate l : forall d d',
  merge_memberships canonical duplicate l d = Ok d' -> messages d' = messages d.
Proof.
  induction l as [|mf l IH]; intros d d' H; cbn [merge_memberships] in H; [by apply Ok_inj in H as <-|].
  apply rbind_ok in H as (d1 & H1%merge_membership_messages & H). by rewrite (IH _ _ H).
Qed.

Lemma rows_from_merge canonical duplicate d d' :
  merge_duplicate_message account canonical duplicate d = Ok d' -> rows_from d d'.
Proof.
  destruct (Z.eq_dec canonical duplicate) as [->|Hne].
  { unfold merge_duplicate_message. rewrite Z.eqb_refl. by intros <-%Ok_inj. }
  intros H. apply merge_duplicate_inv in H as (c & x & d1 & Ec & Ex & _ & _ & Hm & ->); [|done].
  apply merge_memberships_messages in Hm. rewrite (proj2 (merge_aliases_frame _ _ _ _)) in Hm.
  etransitivity; [|apply rows_from_deleted]. etransitivity; [|by apply rows_from_same].
  apply List.find_some in Ex as [Hx Ex]. bsimp. apply list_elem_of_In in Hx. clear Hm Ec.
  unfold merge_row. set (d0 := match relative_path c, file_hash c with None, None => _ | _, _ => d end).
  transitivity d0.
  - subst d0. repeat case_match; try reflexivity. intros m Hm Ha.
    unfold update_message_storage, update_message in Hm. cbn [messages set_messages] in Hm.
    apply elem_of_update_where in Hm as (m0 & Hm & ->). case_match; [by exists x|by exists m0].
  - set (d2 := if _ == m_local_state c then d0 else _). transitivity d2.
    + subst d2. case_match; [reflexivity|]. by apply rows_from_update.
    + by case_match; apply rows_from_same.
Qed.

Lemma insert_memberships_messages l : forall d d',
  insert_memberships l d = Ok d' -> messages d' = messages d.
Proof.
  induction l as [|mf l IH]; intros d d' H; cbn [insert_memberships] in H; [by apply Ok_inj in H as <-|].
  apply rbind_ok in H as (? & _ & H). by rewrite (IH _ _ H).
Qed.
Lemma replace_memberships_messages id l d d' :
  replace_message_memberships id l d = Ok d' -> messages d' = messages d.
Proof.
  unfold replace_message_memberships. intros (? & _ & H)%rbind_ok.
  by rewrite (insert_memberships_messages _ _ _ H).
Qed.
Lemma add_alias_messages acc key id evidence d d' :
  add_message_identity_alias acc key id evidence d = Ok d' -> messages d' = messages d.
Proof.
  unfold add_message_identity_alias. cbv zeta.
  assert (forall a, messages (insert_alias a d) = messages d) as Hi
    by (intros a; unfold insert_alias; by case_match).
  case_match; [|done]. intros (? & _ & <-%Ok_inj)%rbind_ok. apply Hi.
Qed.
Lemma record_failure_messages acc fid v u c msg d : messages (record_failure acc fid v u c msg d) = messages d.
Proof. unfold record_failure. by case_match. Qed.
End Rows.

(** ** Files and records of the world *)

Section Durable.
Context (account : string).

(** The fetch event of the file [p] with hash [h]. *)
Definition fetch_of (p h : string) (e : event) : Prop :=
  event_name e = Some "fetch"%string /\ text_of "account_id" e = Some account
  /\ text_of "relative_path" e = Some p /\ text_of "file_hash" e = Some h.

(** A row of the account is backed: its file is there with its hash, its event on disk. *)
Definition backed (w : World) (m : message) : Prop :=
  account_id m = account -> forall p, relative_path m = Some p ->
  exists h c, file_hash m = Some h /\ named account h p /\ read_file p w = Some c /\ hexdigest c = h
    /\ exists e, e ∈ synced w /\ fetch_of p h e.

Context (known : string -> Prop).   (* the hashes of the run *)

Definition on_disk (w : World) (p h : string) : Prop :=
  named account h p /\ known h /\ exists c, read_file p w = Some c /\ hexdigest c = h.
Definition row_ok (w : World) (m : message) : Prop :=
  account_id m = account -> forall p, relative_path m = Some p ->
  exists h, file_hash m = Some h /\ on_disk w p h /\ exists e, e ∈ synced w /\ fetch_of p h e.
Definition rows_ok (w : World) (d : Db) : Prop := forall m, m ∈ messages d -> row_ok w m.

(** The relation every operation but the insertion of a message respects. *)
Record extends (w w' : World) : Prop := {
  ext_files : forall p h, on_disk w p h -> on_disk w' p h;
  ext_synced : synced w ⊆ synced w';
  ext_all : all_events w ⊆ all_events w';
  ext_committed : rows_from account (committed w) (committed w') \/ rows_from account (view w) (committed w');
  ext_view : rows_from account (committed w) (view w') \/ rows_from account (view w) (view w');
}.

#[export] Instance extends_preorder : PreOrder extends.
Proof.
  split.
  - intros w. split; auto; set_solver.
  - intros w1 w2 w3 [F1 S1 A1 C1 V1] [F2 S2 A2 C2 V2]. split; [auto|set_solver|set_solver| |].
    + destruct C2 as [C2|C2]; [destruct C1 as [C1|C1]|destruct V1 as [V1|V1]];
        [left|right|left|right]; by etransitivity.
    + destruct V2 as [V2|V2]; [destruct C1 as [C1|C1]|destruct V1 as [V1|V1]];
        [left|right|left|right]; by etransitivity.
Qed.

Lemma rows_ok_extends w w' d d' : extends w w' -> rows_from account d d' -> rows_ok w d -> rows_ok w' d'.
Proof.
  intros X Hd H m' Hm' Ha p Hp. destruct (Hd m' Hm' Ha) as (m & Hm & Ha' & E1 & E2).
  rewrite E1 in Hp. destruct (H m Hm Ha' p Hp) as (h & Hh & Hf & e & He & Hfe).
  exists h. rewrite E2. split; [done|]. split; [by apply (ext_files _ _ X)|]. exists e.
  split; [by apply (ext_synced _ _ X)|done].
Qed.

Definition db_ok (w : World) : Prop := rows_ok w (committed w) /\ rows_ok w (view w).
Lemma db_ok_extends w w' : extends w w' -> db_ok w -> db_ok w'.
Proof.
  intros X [Hc Hv]. split.
  - destruct (ext_committed _ _ X) as [H|H]; by eapply rows_ok_extends.
  - destruct (ext_view _ _ X) as [H|H]; by eapply rows_ok_extends.
Qed.

(** Worlds that differ in nothing the relation looks at. *)
Lemma extends_same w w' : fs w' = fs w -> synced w' = synced w -> buffered w' = buffered w ->
  committed w' = committed w -> working w' = working w -> extends w w'.
Proof.
  intros Ef Es Eb Ec Ew. split.
  - intros p h. unfold on_disk, read_file. by rewrite Ef.
  - by rewrite Es.
  - unfold all_events. by rewrite Es, Eb.
  - left. by rewrite Ec.
  - right. unfold view. by rewrite Ec, Ew.
Qed.
Lemma extends_tick w w' : extends w w' -> extends w (tick w').
Proof. intros H. etransitivity; [exact H|]. by apply extends_same. Qed.

(** Only the manifest changes, and it grows. *)
Lemma extends_manifest w s b n : synced w ⊆ s -> all_events w ⊆ s ++ b ->
  extends w (set_manifest s b n w).
Proof. intros Hs Ha. split; [auto|done|done|by left|by right]. Qed.

Lemma extends_put d w : rows_from account (view w) d -> extends w (put_db d w).
Proof.
  intros H. unfold put_db, view in *. destruct (working w) as [d0|] eqn:E; cbn in H; split;
    unfold all_events, view, on_disk, read_file; cbn; rewrite ?E; cbn; auto; try set_solver.
Qed.

(** ** The primitive operations *)

Lemma extends_io {A} (m : M World A) : preserves extends m -> preserves extends (io m).
Proof. intros H. apply preserves_io; [apply _|exact extends_tick|done]. Qed.
Lemma extends_write {A} (f : Db -> result (A * Db)) :
  (forall d a d', f d = Ok (a, d') -> rows_from account d d') -> preserves extends (db_write f).
Proof.
  intros Hf. apply extends_io. intros w. destruct (f (view w)) as [[a d']|e] eqn:E; [|reflexivity].
  apply extends_put. by eapply Hf.
Qed.
Lemma extends_update f : (forall d, rows_from account d (f d)) -> preserves extends (db_update f).
Proof. intros Hf. apply extends_write. intros d [] d' [= <-]. apply Hf. Qed.
Lemma extends_update' f : (forall d d', f d = Ok d' -> rows_from account d d') ->
  preserves extends (db_update' f).
Proof. intros Hf. apply extends_write. intros d [] d' (d1 & H & [= <-])%rbind_ok. by apply Hf. Qed.
Lemma extends_begin : preserves extends begin_batch.
Proof.
  apply extends_io. intros w. destruct (working w) as [d|] eqn:E; [reflexivity|].
  split; unfold on_disk, read_file, view, all_events; cbn; auto; by left.
Qed.
Lemma extends_commit : preserves extends commit_batch.
Proof.
  apply extends_io. intros w. unfold mmodify. cbn [snd]. destruct (working w) as [d|] eqn:E; [|reflexivity].
  split; unfold on_disk, read_file, view, all_events; cbn; rewrite ?E; cbn; auto; by right.
Qed.
Lemma extends_append e : preserves extends (man_append e).
Proof.
  apply extends_io. intros w. case_match; [|reflexivity].
  apply extends_manifest; [done|]. unfold all_events. rewrite (assoc_L (++)). set_solver.
Qed.
Lemma extends_sync : preserves extends flush_and_sync.
Proof.
  apply extends_io. intros w. apply extends_manifest; unfold all_events; [set_solver|].
  by rewrite app_nil_r.
Qed.
Lemma extends_read {A} (f : Db -> A) : preserves extends (db_read f).
Proof. apply extends_io. intros w. reflexivity. Qed.
Lemma extends_ask {A} (f : nat -> result A) : preserves extends (ask f).
Proof. intros w. by apply extends_tick. Qed.

#[local] Hint Resolve extends_tick : maildock.
#[local] Ltac ext := unfold get_timestamp in *; respect; first
  [ apply extends_begin | apply extends_commit | apply extends_append | apply extends_sync
  | apply extends_io; intros ?; reflexivity
  | apply extends_update; intros ?; by apply rows_from_same
  | apply extends_update'; intros ? ? ? | idtac ].

(** ** The composed operations on the durable state *)

Context (root : list string) (src : source) (env : environment) (options : SyncOptions).

Lemma extends_snapshot_event r f l : preserves extends (snapshot_event_of (clock env) account r f l).
Proof. unfold snapshot_event_of. ext. Qed.
Lemma extends_append_snapshot x : preserves extends (append_snapshot env account x).
Proof.
  unfold append_snapshot. destruct x.2; [ext|].
  apply preserves_bnd; [apply _|apply extends_snapshot_event|]. ext.
Qed.
Lemma extends_checkpoint n name : preserves extends (man_checkpoint env account n name).
Proof. unfold man_checkpoint. ext. Qed.
Lemma extends_ensure : preserves extends (ensure_imap_account account).
Proof. unfold ensure_imap_account. ext. Qed.
Lemma extends_write_cursors g : (forall d, messages (g d) = messages d) -> preserves extends (write_cursors g).
Proof. intros Hg. unfold write_cursors. ext. Qed.
Lemma extends_stage_item it st : preserves extends (stage_item env account it st).
Proof. unfold stage_item, now_iso. destruct st. ext. Qed.

Section RefreshSteps.
Context (google : bool) (f : folder) (uidv : Z) (seen_at : string)
  (items : list (Z * (message * membership))).

Lemma extends_group_labels q named l : forall d,
  preserves extends (group_label_snaps f seen_at items q named l d).
Proof.
  induction l as [|[u ls] l IH]; intros d; cbn [group_label_snaps]; [ext|].
  destruct (dict_get u items); [|ext]. apply preserves_bnd; [apply _|ext|]. intros _. apply IH.
Qed.
Lemma extends_flush q : preserves extends (flush_flag_updates env account google f uidv seen_at items q).
Proof.
  unfold flush_flag_updates. ext.
  - apply extends_group_labels.
  - apply extends_append_snapshot.
  - apply extends_update. intros d. by apply rows_from_update.
Qed.
Lemma extends_flush_full q :
  preserves extends (flush_when_full env account google f uidv seen_at items q).
Proof.
  unfold flush_when_full. case_match; [|ext]. apply preserves_bnd; [apply _|apply extends_flush|]. ext.
Qed.
Lemma extends_touch_all l : forall q,
  preserves extends (touch_all env account google f uidv seen_at items l q).
Proof.
  induction l as [|u l IH]; intros q; cbn [touch_all]; [ext|].
  apply preserves_bnd; [apply _|apply extends_flush_full|]. intros q'. apply IH.
Qed.
Lemma extends_modseq v : preserves extends (save_modseq f v).
Proof. unfold save_modseq. ext. Qed.
End RefreshSteps.

Lemma extends_outcome_events o : preserves extends (outcome_events env account o).
Proof.
  unfold outcome_events. destruct (ms_record o) as [m mf]. unfold now_iso. ext;
    apply extends_snapshot_event.
Qed.
Lemma extends_apply_outcome o : preserves extends (apply_outcome account o).
Proof.
  unfold apply_outcome. ext.
  - by eapply rows_from_same, replace_memberships_messages.
  - by eapply rows_from_merge.
Qed.
Lemma extends_commit_outcomes l : preserves extends (commit_outcomes env account l).
Proof.
  unfold commit_outcomes. ext; [apply extends_outcome_events|apply extends_apply_outcome].
Qed.

(** ** Storing an EML *)

Context (Hdistinct : forall h1 h2, known h1 -> known h2 -> file_name_of h1 = file_name_of h2 -> h1 = h2).

Lemma extends_save date raw uuid written : known (hexdigest raw) ->
  preserves extends (save_eml account date raw uuid written).
Proof.
  intros Hk w. pose proof (wp_save_eml account date raw uuid written w) as H. unfold wp in H.
  destruct (save_eml account date raw uuid written w) as [r w']. cbn [fst snd] in *.
  destruct H as ((Ec & Ew & Es & Eb) & Hq & Hd & _). split.
  - intros p h (Hn & Hh & c & Hp & <-). split; [done|]. split; [done|].
    assert (p <> temporary_path uuid) as Ht by (intros ->; by eapply temporary_not_named).
    destruct (decide (p = eml_path account date (hexdigest raw))) as [->|Hne].
    + assert (hexdigest c = hexdigest raw) as E
        by (apply Hdistinct; [done|done|]; eapply named_same; [exact Hn|apply eml_path_named]).
      destruct Hd as [Hd|Hd]; rewrite Hd; [by exists c|by exists raw].
    + rewrite Hq by done. by exists c.
  - by rewrite Es.
  - unfold all_events. by rewrite Es, Eb.
  - left. by rewrite Ec.
  - right. unfold view. by rewrite Ec, Ew.
Qed.

Lemma save_eml_on_disk date raw uuid written w s w' : known (hexdigest raw) ->
  save_eml account date raw uuid written w = (Ok s, w') ->
  eml_file_hash s = hexdigest raw /\ on_disk w' (eml_relative_path s) (hexdigest raw).
Proof.
  intros Hk E. pose proof (save_eml_named _ _ _ _ _ _ _ _ E) as Hn.
  pose proof (wp_save_eml account date raw uuid written w) as H. unfold wp in H. rewrite E in H.
  destruct H as (_ & _ & _ & H). destruct (H s eq_refl) as (Eh & _ & c & Hc & Hd & _).
  split; [done|]. split; [done|]. split; [done|]. by exists c.
Qed.

Lemma find_stored_eml_row hash d x : find_stored_eml account hash d = Some x ->
  exists m, m ∈ messages d /\ account_id m = account /\ file_hash m = Some hash
    /\ relative_path m = Some (eml_relative_path x).
Proof.
  unfold find_stored_eml. destruct (List.find _ (messages d)) as [m|] eqn:Ef; [|done].
  apply List.find_some in Ef as [Hin Ef]. apply list_elem_of_In in Hin.
  destruct (relative_path m) as [p|] eqn:Ep; [|done]. intros [= <-]. bsimp. by exists m.
Qed.

Lemma reuse_some path hash w s w' : reuse root path hash w = (Ok (Some s), w') ->
  eml_relative_path s = path /\ eml_file_hash s = fold_hash hash /\ w' = tick w.
Proof.
  unfold reuse. destruct (is_hash hash); [|done]. cbn [negb].
  unfold mbnd, file_at, mlift, mgets, io. destruct (resolve_inside root path) as [p|]; cbn [rbind]; [|done].
  destruct (faults w (ticks w)); [done|]. destruct (read_file (join p) (tick w)) as [c|]; [|done].
  destruct (hexdigest c == fold_hash hash) eqn:E; [|done]. bsimp. by intros [= <- <-].
Qed.
Lemma extends_reuse path hash : preserves extends (reuse root path hash).
Proof. unfold reuse, file_at. ext. Qed.

Lemma wp_store_eml r raw w : known (hexdigest raw) -> db_ok w ->
  wp (store_eml root env account r raw) (fun res w' => extends w w' /\
    forall st, res = Ok st -> eml_file_hash st = hexdigest raw
      /\ on_disk w' (eml_relative_path st) (hexdigest raw)) w.
Proof.
  intros Hk [_ Hv].
  assert (forall o w1, extends w w1 ->
    (forall s, o = Some s -> eml_file_hash s = hexdigest raw
       /\ on_disk w1 (eml_relative_path s) (hexdigest raw)) ->
    wp (match o with
        | Some s => mret s
        | None => let! n := mgets ticks in
                  save_eml account (ref_internal_date r) raw (fresh_name env n) (partial_write env n)
        end) (fun res w' => extends w w' /\ forall st, res = Ok st -> eml_file_hash st = hexdigest raw
          /\ on_disk w' (eml_relative_path st) (hexdigest raw)) w1) as Hk2.
  { intros o w1 X Ho. destruct o as [s|].
    - wp_step. split; [done|]. intros st [= <-]. by apply Ho.
    - wp_step. wp_step. set (n := ticks w1). clearbody n. unfold wp.
      pose proof (extends_save (ref_internal_date r) raw (fresh_name env n) (partial_write env n) Hk w1) as X2.
      split; [by etransitivity|]. intros st E. eapply save_eml_on_disk; [done|]. rewrite <- E.
      by apply surjective_pairing. }
  unfold store_eml. wp_step. wp_step; [intros; split; [by apply extends_tick|done]|].
  destruct (find_stored_eml account (hexdigest raw) (view w)) as [x|] eqn:Ef.
  - wp_step. unfold wp at 1. pose proof (extends_reuse (eml_relative_path x) (hexdigest raw) (tick w)) as X.
    destruct (reuse root (eml_relative_path x) (hexdigest raw) (tick w)) as [[o|e] w1] eqn:Er; cbn [fst snd] in *.
    2: { split; [|done]. etransitivity; [by apply extends_tick|done]. }
    assert (extends w w1) as X1 by (etransitivity; [by apply extends_tick|done]).
    apply Hk2; [done|]. intros s ->. apply reuse_some in Er as (E1 & E2 & _).
    rewrite fold_hash_digest in E2. split; [done|]. rewrite E1.
    apply find_stored_eml_row in Ef as (m & Hm & Ha & Hh & Hp).
    destruct (Hv m Hm Ha _ Hp) as (h & Hh' & Hd & _). rewrite Hh in Hh'. injection Hh' as <-.
    by apply (ext_files _ _ X1).
  - wp_step. wp_step. apply (Hk2 None); [by apply extends_tick|done].
Qed.

(** ** The invariant of a run *)

(** The EML of an item is on disk, and its event names it. *)
Definition item_ok (w : World) (it : pending_item) : Prop :=
  forall r, pi_record it = Some r -> mr_columns r = SYNC_COLUMNS
    /\ forall p, relative_path (mr_row r) = Some p ->
       exists h, file_hash (mr_row r) = Some h /\ on_disk w p h
         /\ exists e, pi_event it = Some e /\ fetch_of p h e.
Definition inv (s : sync_state) : Prop :=
  db_ok (world s) /\ Forall (item_ok (world s)) (pending s).

Lemma item_ok_extends w w' it : extends w w' -> item_ok w it -> item_ok w' it.
Proof.
  intros X H r Hr. destruct (H r Hr) as [Hc Hp]. split; [done|]. intros p E.
  destruct (Hp p E) as (h & Hh & Hd & He). exists h. split; [done|]. split; [|done].
  by apply (ext_files _ _ X).
Qed.
Lemma inv_extends s w : extends (world s) w -> inv s -> inv (set_world w s).
Proof.
  intros X [Hd Hp]. split; [by eapply db_ok_extends|]. cbn. eapply Forall_impl; [exact Hp|].
  intros it. by apply item_ok_extends.
Qed.
Lemma keeps_dur {A} (m : M World A) : preserves extends m -> keeps inv (dur m).
Proof.
  intros Hm s Hs. unfold dur, post. specialize (Hm (world s)). destruct (m (world s)) as [[a|e] w];
    by apply inv_extends.
Qed.
Lemma keeps_count f : keeps inv (count f).
Proof. by apply keeps_modify. Qed.
Lemma keeps_token : keeps inv (check_token env).
Proof. intros s Hs. unfold check_token, raise_if_cancelled. by case_match. Qed.

#[local] Hint Resolve keeps_dur keeps_count keeps_token extends_ask extends_read : keeps.

(** ** One message *)

Context (Hserved : forall n f u raw, src_download src n f u = Ok raw -> known (hexdigest raw)).

Lemma triple_retried {A} (m : M sync_state A) Q : triple inv m Q inv -> triple inv (retried env m) Q inv.
Proof.
  intros Hm. apply with_retry_triple; [done| |]; intros; apply keeps_dur; intros w; by apply extends_tick.
Qed.
Lemma triple_download raw u :
  triple inv (retried env (request (fun n => src_download src n raw u)))
    (fun payload s => inv s /\ known (hexdigest payload)) inv.
Proof.
  apply triple_retried. intros s Hs. unfold request, dur, ask, post.
  destruct (src_download src (ticks (world s)) raw u) as [payload|e] eqn:E;
    [split; [|by eapply Hserved]|]; apply inv_extends; try done; by apply extends_tick.
Qed.

Lemma item_no_eml w it : (forall r, pi_record it = Some r ->
  mr_columns r = SYNC_COLUMNS /\ relative_path (mr_row r) = None) -> item_ok w it.
Proof. intros H r Hr. destruct (H r Hr) as [Hc Hp]. split; [done|]. intros p E. by rewrite Hp in E. Qed.

Lemma triple_oversize raw fid uidv r payload size :
  triple inv (oversize_item env account raw fid uidv r payload size)
    (fun it s => inv s /\ item_ok (world s) it) inv.
Proof.
  unfold oversize_item. eapply triple_bnd; [apply keeps_lift|]. intros p.
  eapply triple_bnd; [apply keeps_dur; unfold now_iso; ext|]. intros now.
  eapply (triple_bnd _ _ _ (fun rec s => inv s /\ mr_columns rec = SYNC_COLUMNS
    /\ relative_path (mr_row rec) = None)).
  { apply triple_lift; [|done]. unfold record_for_message. cbv zeta.
    by intros rec s (k & _ & <-%Ok_inj)%rbind_ok Hs. }
  intros rec. eapply (triple_bnd _ _ _ (fun _ s => inv s /\ mr_columns rec = SYNC_COLUMNS
    /\ relative_path (mr_row rec) = None)).
  { apply triple_modify. by intros s (Hs & Hc). }
  intros ?. apply triple_ret. intros s (Hs & Hc & Hp). split; [done|]. apply item_no_eml.
  by intros x [= <-].
Qed.

Lemma fetched_item_ok w fid raw uidv r p st size now rec e it :
  record_for_message account fid raw uidv r p (Some st) size now = Ok rec ->
  fetch_event account raw fid uidv r p st (ref_gmail_msgid r) (ref_gmail_thrid r)
    (ref_gmail_labels r) now = Ok e ->
  on_disk w (eml_relative_path st) (eml_file_hash st) ->
  pi_record it = Some rec -> pi_event it = Some e -> item_ok w it.
Proof.
  unfold record_for_message, fetch_event. cbv zeta.
  intros (k & _ & <-%Ok_inj)%rbind_ok (k' & _ & <-%Ok_inj)%rbind_ok Hd Hr He x Hx.
  rewrite Hr in Hx. injection Hx as <-. split; [done|]. cbn [mr_row relative_path file_hash option_map].
  intros path [= <-]. exists (eml_file_hash st). split; [done|]. split; [done|].
  eexists. split; [exact He|]. by repeat split.
Qed.

Lemma triple_store r payload : known (hexdigest payload) ->
  triple inv (dur (store_eml root env account r payload))
    (fun st s => inv s /\ on_disk (world s) (eml_relative_path st) (eml_file_hash st)) inv.
Proof.
  intros Hk s Hs. pose proof (wp_store_eml r payload (world s) Hk (proj1 Hs)) as H. unfold wp in H.
  unfold dur, post. destruct (store_eml root env account r payload (world s)) as [[st|e] w]; cbn [fst snd] in H;
    destruct H as [X H]; [|by apply inv_extends].
  split; [by apply inv_extends|]. destruct (H st eq_refl) as [-> Hd]. exact Hd.
Qed.

Lemma triple_make_item raw fid uidv r :
  triple inv (make_item root src env account options raw fid uidv r)
    (fun it s => inv s /\ item_ok (world s) it) inv.
Proof.
  unfold make_item. eapply triple_bnd; [apply keeps_count|]. intros ?. case_match.
  { eapply triple_bnd; [apply triple_retried, keeps_dur, extends_ask|]. intros headers.
    eapply triple_bnd; [apply triple_oversize|]. intros it.
    eapply (triple_bnd _ _ _ (fun _ s => inv s /\ item_ok (world s) it)); [by apply triple_modify|].
    intros ?. by apply triple_ret. }
  eapply triple_bnd; [apply triple_download|]. intros payload.
  apply triple_pure. intros Hk. eapply triple_bnd; [apply keeps_count|]. intros ?.
  case_match; [apply triple_oversize|].
  eapply triple_bnd; [by apply triple_store|]. intros st. set (d := on_disk).
  eapply (triple_bnd _ _ _ (fun _ s => inv s /\ d (world s) (eml_relative_path st) (eml_file_hash st)));
    [apply triple_lift; [done|by intros s []]|]. intros p.
  eapply (triple_bnd _ _ _ (fun _ s => inv s /\ d (world s) (eml_relative_path st) (eml_file_hash st)));
    [by intros [] Hs|]. intros now.
  eapply (triple_bnd _ _ _ (fun rec s => inv s /\ d (world s) (eml_relative_path st) (eml_file_hash st)
    /\ record_for_message account fid raw uidv r p (Some st) (Z.of_nat (length payload)) now = Ok rec));
    [apply triple_lift; [by intros rec s E [Hs Hd]|by intros s []]|]. intros rec.
  eapply (triple_bnd _ _ _ (fun _ s => inv s /\ d (world s) (eml_relative_path st) (eml_file_hash st)
    /\ record_for_message account fid raw uidv r p (Some st) (Z.of_nat (length payload)) now = Ok rec));
    [by apply triple_modify|]. intros ?.
  eapply (triple_bnd _ _ _ (fun e s => inv s /\ d (world s) (eml_relative_path st) (eml_file_hash st)
    /\ record_for_message account fid raw uidv r p (Some st) (Z.of_nat (length payload)) now = Ok rec
    /\ fetch_event account raw fid uidv r p st (ref_gmail_msgid r) (ref_gmail_thrid r)
         (ref_gmail_labels r) now = Ok e));
    [apply triple_lift; [by intros e s E (Hs & Hd & Hr)|by intros s []]|]. intros e.
  apply triple_ret. intros s (Hs & Hd & Hr & He). split; [done|]. by eapply fetched_item_ok.
Qed.

Lemma item_ok_folder w fid it : item_ok w it -> item_ok w (set_failure_folder fid it).
Proof. intros H. unfold set_failure_folder. by destruct (pi_failure it). Qed.

Lemma keeps_process_ref raw fid uidv r :
  keeps inv (process_ref root src env account options raw fid uidv r).
Proof.
  unfold process_ref. eapply triple_bnd; [apply keeps_token|]. intros ?.
  eapply (triple_bnd _ _ _ (fun it s => inv s /\ item_ok (world s) it)).
  - eapply (triple_try _ _ _ _ inv).
    + eapply triple_bnd; [apply triple_make_item|]. intros it. apply triple_ret. intros s [Hs Hi].
      split; [done|]. by apply item_ok_folder.
    + intros e. case_match; [by apply triple_throw|]. case_match; [|by apply triple_throw].
      eapply triple_bnd; [apply keeps_count|]. intros ?. apply triple_ret. intros s Hs. split; [done|].
      by apply item_no_eml.
  - intros it. apply triple_modify. intros s [[Hd Hp] Hi]. split; [done|]. cbn. apply Forall_app.
    split; [done|]. by constructor.
Qed.

(** ** Committing *)

(** The events of the items are written, or on disk. *)
Definition written (items : list pending_item) (w : World) : Prop :=
  forall it e, it ∈ items -> pi_event it = Some e -> e ∈ all_events w.
Definition on_manifest (items : list pending_item) (w : World) : Prop :=
  forall it e, it ∈ items -> pi_event it = Some e -> e ∈ synced w.
Lemma on_manifest_extends items w w' : extends w w' -> on_manifest items w -> on_manifest items w'.
Proof. intros X H it e Hi He. apply (ext_synced _ _ X). by eapply H. Qed.

Lemma wp_extends {A} (m : M World A) w : preserves extends m -> wp m (fun _ w' => extends w w') w.
Proof. intros H. apply H. Qed.

Lemma wp_stage_item it st w : wp (stage_item env account it st) (fun r w' => extends w w' /\
  forall st' e, r = Ok st' -> pi_event it = Some e -> e ∈ all_events w') w.
Proof.
  unfold stage_item. destruct st as [snaps aliases]. destruct (pi_event it) as [e|]; [|by wp_step].
  wp_step. apply wp_man_append; [intros x; split; [by apply extends_tick|done]|]. intros n Hv.
  set (w1 := set_manifest _ _ _ _). assert (extends w w1) as X.
  { etransitivity; [by apply extends_tick|]. apply extends_manifest; [done|].
    unfold all_events. cbn. rewrite (assoc_L (++)). set_solver. }
  assert (e ∈ all_events w1) as He by (unfold all_events; cbn; set_solver). clearbody w1.
  eapply wp_mono; [apply wp_extends|].
  - unfold now_iso. ext.
  - intros r w' X'. split; [by etransitivity|]. intros st' e' _ [= <-]. by apply (ext_all _ _ X').
Qed.
Lemma wp_stage_items l : forall st w, wp (stage_items env account l st) (fun r w' => extends w w' /\
  forall st', r = Ok st' -> written l w') w.
Proof.
  induction l as [|it l IH]; intros st w; cbn [stage_items].
  { wp_step. split; [done|]. intros st' _ x e Hx. by rewrite elem_of_nil in Hx. }
  wp_step. eapply wp_mono; [apply wp_stage_item|]. intros [st1|e] w1 [X1 H1]; [|done].
  eapply wp_mono; [apply IH|]. intros r w2 [X2 H2]. split; [by etransitivity|].
  intros st' -> x e Hx He. apply elem_of_cons in Hx as [->|Hx].
  - apply (ext_all _ _ X2). by eapply H1.
  - by eapply H2.
Qed.

(** Triples of a durable operation from its weakest precondition. *)
Lemma triple_dur {A} (m : M World A) (Q : A -> World -> Prop) (P : World -> Prop) :
  (forall w, P w -> wp m (fun r w' => extends w w' /\ forall a, r = Ok a -> Q a w') w) ->
  triple (fun s => inv s /\ P (world s)) (dur m) (fun a s => inv s /\ Q a (world s)) inv.
Proof.
  intros Hm s [Hs HP]. specialize (Hm (world s) HP). unfold wp in Hm. unfold dur, post.
  destruct (m (world s)) as [[a|e] w]; cbn [fst snd] in Hm; destruct Hm as [X H];
    [|by apply inv_extends]. split; [by apply inv_extends|by apply H].
Qed.

Lemma wp_publish_batch items snaps w : written items w ->
  wp (mfor snaps (append_snapshot env account) ;! flush_and_sync ;! begin_batch)
    (fun r w' => extends w w' /\ forall a, r = Ok a -> on_manifest items w') w.
Proof.
  intros Hw. wp_step. eapply wp_mono.
  { apply wp_extends. apply preserves_for; [apply _|apply extends_append_snapshot]. }
  intros [a|e] w1 X1; [|done]. wp_step. wp_step.
  { intros e. split; [by apply extends_tick|done]. }
  wp_step. set (w2 := set_manifest _ _ _ _). assert (extends w1 w2) as X2.
  { etransitivity; [by apply extends_tick|].
    apply extends_manifest; unfold all_events; [set_solver|by rewrite app_nil_r]. }
  eapply wp_mono; [apply (wp_extends begin_batch), extends_begin|]. intros r w3 X3.
  split; [transitivity w2; [by transitivity w1|done]|]. intros _ _ it e Hi He.
  apply (ext_synced _ _ X3). apply (ext_all _ _ X1). by eapply Hw.
Qed.

(** The rows an insertion leaves: those it found, and the new one. *)
Lemma upsert_message_rows r d id d' m : mr_columns r = SYNC_COLUMNS -> upsert_message r d = Ok (id, d') ->
  m ∈ messages d' -> m ∈ messages d
    \/ relative_path m = relative_path (mr_row r) /\ file_hash m = file_hash (mr_row r).
Proof.
  unfold upsert_message. cbv zeta. intros Hc (? & _ & H)%rbind_ok Hm. rewrite Hc in H.
  destruct (List.find _ (messages d)); injection H as <- <-; cbn [messages set_messages bump_message] in Hm.
  - apply elem_of_update_where in Hm as (y & Hy & ->).
    destruct (same_key _ _ y); [right; split; reflexivity|by left].
  - apply elem_of_app in Hm as [Hm|Hm]; [by left|]. apply list_elem_of_singleton in Hm as ->.
    right; split; reflexivity.
Qed.
Lemma add_message_rows nz r c d id d' m : mr_columns r = SYNC_COLUMNS ->
  add_message nz r c d = Ok (id, d') -> m ∈ messages d' ->
  m ∈ messages d \/ relative_path m = relative_path (mr_row r) /\ file_hash m = file_hash (mr_row r).
Proof.
  unfold add_message. intros Hc ([id1 d1] & H1 & (d2 & H2 & [= <- <-])%rbind_ok)%rbind_ok Hm.
  eapply upsert_message_rows; [done|done|]. unfold upsert_membership in H2.
  apply rbind_ok in H2 as (? & _ & <-%Ok_inj). by repeat case_match.
Qed.

(** The state inside a batch: the items are on disk and their events synced. *)
Definition ready (items : list pending_item) (s : sync_state) : Prop :=
  inv s /\ Forall (item_ok (world s)) items /\ on_manifest items (world s).

Lemma ready_extends items s w : extends (world s) w -> ready items s -> ready items (set_world w s).
Proof.
  intros X (Hi & Hf & Hm). split; [by apply inv_extends|]. split; [|by eapply on_manifest_extends].
  eapply Forall_impl; [exact Hf|]. intros it. by apply item_ok_extends.
Qed.
Lemma ready_dur {A} items (m : M World A) : preserves extends m -> keeps (ready items) (dur m).
Proof.
  intros Hm s Hs. unfold dur, post. specialize (Hm (world s)). destruct (m (world s)) as [[a|e] w];
    by apply ready_extends.
Qed.

Lemma ready_row w items it r p : Forall (item_ok w) items -> on_manifest items w -> it ∈ items ->
  pi_record it = Some r -> relative_path (mr_row r) = Some p ->
  exists h, file_hash (mr_row r) = Some h /\ on_disk w p h /\ exists e, e ∈ synced w /\ fetch_of p h e.
Proof.
  intros Hf Hm Hin Hr Hp. rewrite Forall_forall in Hf. destruct (Hf it Hin r Hr) as [_ H].
  destruct (H p Hp) as (h & Hh & Hd & e & He & Hfe). exists h. split; [done|]. split; [done|].
  exists e. split; [by eapply Hm|done].
Qed.

Lemma ready_same items s w : fs w = fs (world s) -> synced w = synced (world s) ->
  rows_ok (world s) (committed w) -> rows_ok (world s) (view w) -> ready items s ->
  ready items (set_world w s).
Proof.
  intros Ef Es Hc Hv ((_ & Hp) & Hf & Hm). unfold ready, inv, db_ok. cbn [world set_world pending].
  unfold rows_ok, row_ok, on_manifest, item_ok, on_disk, read_file in *. rewrite Ef, Es. done.
Qed.

Lemma ready_insert items it r c : it ∈ items -> pi_record it = Some r ->
  keeps (ready items) (dur (db_write (add_message (normalize env) r c))).
Proof.
  intros Hin Hr s Hs. unfold dur, db_write, io, post.
  destruct (faults (world s) (ticks (world s))) as [e|];
    [by apply ready_extends; [apply extends_tick|]|].
  change (view (tick (world s))) with (view (world s)).
  assert (extends (world s) (tick (world s))) as Xt by by apply extends_tick.
  destruct (add_message (normalize env) r c (view (world s))) as [[id d']|e] eqn:E;
    [|by apply ready_extends].
  apply (ready_extends _ _ _ Xt) in Hs. cbn [set_world world] in Hs.
  set (w := tick (world s)) in *.
  assert (rows_ok w d') as Hd'.
  { intros m Hm Ha p Hp. destruct Hs as ([[_ Hv] _] & Hf & Hman). cbn [world] in *.
    pose proof Hf as Hf2. rewrite Forall_forall in Hf2.
    eapply add_message_rows in Hm as [Hm|[E1 E2]]; [| |apply (Hf2 it Hin r Hr)|done].
    - by apply (Hv m).
    - rewrite E1 in Hp. rewrite E2. by eapply ready_row. }
  assert (rows_ok w (committed w)) as Hc by apply Hs.
  assert (forall w', fs w' = fs w -> synced w' = synced w -> rows_ok w (committed w') ->
    rows_ok w (view w') -> ready items (set_world w' s)) as Hw
    by (intros w' ? ? ? ?; by apply (ready_same items (set_world w s))).
  unfold put_db. destruct (working w) as [d0|] eqn:Ew; apply Hw; try done.
  unfold view. cbn [committed working set_committed]. by rewrite Ew.
Qed.

Lemma ready_batch_item items aliases it : it ∈ items ->
  keeps (ready items) (batch_item env account aliases it).
Proof.
  intros Hin. unfold batch_item. apply keeps_bnd.
  - destruct (pi_record it) as [r|] eqn:Er; [|apply keeps_ret].
    apply keeps_bnd; [by eapply ready_insert|]. intros id. apply keeps_bnd; [by apply keeps_modify|].
    intros _. apply keeps_for. intros a. apply keeps_when, ready_dur. ext.
    by eapply rows_from_same, add_alias_messages.
  - intros _. destruct (pi_failure it) as [f|].
    + destruct (pi_failure_folder_id it); [|apply keeps_raise]. apply ready_dur. ext.
      apply extends_update. intros d. apply rows_from_same, record_failure_messages.
    + case_match; [|apply keeps_ret]. apply ready_dur. ext.
Qed.

Lemma keeps_commit_pending cu : keeps inv (commit_pending env account cu).
Proof.
  unfold commit_pending.
  eapply (triple_bnd _ _ _ (fun items s => inv s /\ Forall (item_ok (world s)) items)).
  { apply triple_gets. intros s Hs. split; [done|apply Hs]. }
  intros items. enough (triple (fun s => inv s /\ Forall (item_ok (world s)) items)
    (write_pending env account items cu) (fun _ => inv) inv) as Hb
    by (destruct items, cu; [exact Hb|by apply triple_ret; intros s []|exact Hb|exact Hb]).
  unfold write_pending. eapply triple_bnd.
  { apply (triple_dur _ (fun _ w => Forall (item_ok w) items /\ written items w)
      (fun w => Forall (item_ok w) items)).
    intros w Hw. eapply wp_mono; [apply wp_stage_items|]. intros r w' [X H]. split; [done|].
    intros a ->. split; [|by eapply H]. eapply Forall_impl; [exact Hw|]. intros it. by apply item_ok_extends. }
  intros st. eapply triple_bnd.
  { apply (triple_dur _ (fun _ w => Forall (item_ok w) items /\ on_manifest items w)
      (fun w => Forall (item_ok w) items /\ written items w)).
    intros w [Hf Hw]. eapply wp_mono; [by apply wp_publish_batch|]. intros r w' [X H]. split; [done|].
    intros a ->. split; [|by eapply H]. eapply Forall_impl; [exact Hf|]. intros it. by apply item_ok_extends. }
  intros ?. apply (triple_conseq (fun s => inv s /\ Forall (item_ok (world s)) items /\ on_manifest items (world s))
    (ready items) _ (fun _ => inv) (fun _ => inv) inv inv); [|done..].
  eapply (triple_bnd _ _ _ (fun _ => ready items)).
  { eapply triple_conseq; [apply keeps_for_in; intros it; apply ready_batch_item|done|done|by intros s []]. }
  intros ?. eapply (triple_bnd _ _ _ (fun _ => inv)).
  { apply (triple_conseq _ inv _ (fun _ => inv) (fun _ => inv) inv inv); [|by intros s []|done|done].
    destruct cu; [|apply keeps_ret].
    apply keeps_dur. ext. }
  intros ?. eapply triple_bnd; [apply keeps_dur, extends_commit|]. intros ?.
  eapply triple_bnd; [apply (keeps_modify inv); intros s [Hd _]; by split|]. intros ?.
  apply keeps_bnd; [apply keeps_gets|]. intros n. apply keeps_bnd; [apply keeps_gets|]. intros name.
  apply keeps_bnd; [apply keeps_dur, extends_checkpoint|]. intros ?. apply keeps_when, keeps_dur. ext.
Qed.
Lemma keeps_commit_if_pending : keeps inv (commit_if_pending env account).
Proof.
  unfold commit_if_pending. apply keeps_bnd; [apply keeps_gets|]. intros [|]; [apply keeps_ret|].
  apply keeps_commit_pending.
Qed.

(** ** The run *)

#[local] Ltac keep := repeat (cbv beta zeta; lazymatch goal with
  | |- forall _, _ => intro
  | |- keeps _ (commit_pending _ _ _) => apply keeps_commit_pending
  | |- keeps _ (commit_if_pending _ _) => apply keeps_commit_if_pending
  | |- keeps _ (process_ref _ _ _ _ _ _ _ _ _) => apply keeps_process_ref
  | |- keeps _ (check_token _) => apply keeps_token
  | |- keeps _ (count _) => apply keeps_count
  | |- keeps _ (mbnd _ _) => apply keeps_bnd
  | |- keeps _ (mtry _ _) => apply keeps_try
  | |- keeps _ (mret _) => apply keeps_ret
  | |- keeps _ (mlift _) => apply keeps_lift
  | |- keeps _ (mgets _) => apply keeps_gets
  | |- keeps _ (mthrow _) => apply keeps_throw
  | |- keeps _ (mraise _ _) => apply keeps_raise
  | |- keeps _ (mwhen _ _) => apply keeps_when
  | |- keeps _ (mfor _ _) => apply keeps_for
  | |- keeps _ (request _) => apply keeps_dur, extends_ask
  | |- keeps _ (stream _) => apply keeps_dur, extends_ask
  | |- keeps _ (mmodify _) => apply keeps_modify; intros s [Hd Hp]; by split
  | |- keeps _ (dur _) => apply keeps_dur; solve [ext]
  | |- keeps _ (match ?x with _ => _ end) => destruct x
  end).

Lemma keeps_end e : keeps inv (end_of e).
Proof. unfold end_of. keep. Qed.

Lemma keeps_retry_failures raw fid uidv :
  keeps inv (retry_pending_failures root src env account options raw fid uidv).
Proof. unfold retry_pending_failures, retry_failure, mark_attempted. keep; apply keeps_end. Qed.
Lemma keeps_range_loop raw fid uidv history l : forall m,
  keeps inv (range_loop root src env account options raw fid uidv history l m).
Proof.
  induction l as [|r l IH]; intros m; cbn [range_loop]; unfold mark_attempted; keep; apply IH.
Qed.
Lemma keeps_process_range raw fid uidv lo hi history :
  keeps inv (process_range root src env account options raw fid uidv lo hi history).
Proof.
  unfold process_range. keep; first [apply keeps_range_loop | apply keeps_end].
Qed.

Lemma keeps_refresh_stream google f uidv seen items touch answer :
  keeps inv (refresh_stream env account google f uidv seen items touch answer).
Proof.
  assert (forall l a q, keeps inv (refresh_loop env account google f uidv seen items touch l a q)) as Hl.
  { induction l as [|r l IH]; intros a q; cbn [refresh_loop]; keep; try apply IH.
    apply keeps_dur. case_match; apply extends_flush_full. }
  unfold refresh_stream. keep; first [apply Hl | apply keeps_end].
Qed.
Lemma keeps_refresh_known google f uidv seen items expired c a cur saved :
  keeps inv (refresh_known src env account google f uidv seen items expired c a cur saved).
Proof.
  unfold refresh_known. keep;
    first [ apply keeps_refresh_stream
          | apply keeps_dur; first [apply extends_flush | apply extends_modseq | apply extends_touch_all] ].
Qed.
Lemma keeps_refresh_flags google f : keeps inv (refresh_flags src env account options google f).
Proof.
  unfold refresh_flags. keep; first [apply keeps_refresh_known | apply keeps_dur, extends_modseq].
Qed.

Lemma keeps_sync_folder google f : keeps inv (sync_folder root src env account options google f).
Proof.
  unfold sync_folder, start_cursors, fetch_folder, fetch_messages, fetch_new, fetch_history, update_target. keep;
    first [ apply keeps_process_range | apply keeps_retry_failures
          | apply keeps_refresh_flags | apply keeps_dur, extends_write_cursors; done ].
Qed.
Lemma keeps_sync_folders google l : forall scanned,
  keeps inv (sync_folders root src env account options google l scanned).
Proof.
  induction l as [|f l IH]; intros scanned; cbn [sync_folders]; keep; try apply IH. apply keeps_sync_folder.
Qed.

Lemma keeps_missing_outcomes google scanned names f l :
  keeps inv (missing_outcomes env account google scanned names f l).
Proof.
  induction l as [|u l IH]; cbn [missing_outcomes]; [keep|].
  unfold missing_outcome, local_message_at, move_candidates, now_iso. keep; apply IH.
Qed.
Lemma keeps_detect google scanned names f :
  keeps inv (detect_missing src env account google scanned names f).
Proof.
  unfold detect_missing. keep;
    first [apply keeps_missing_outcomes | apply keeps_dur, extends_commit_outcomes].
Qed.

Lemma keeps_sync_run : keeps inv (sync_run root src env account options).
Proof.
  unfold sync_run. keep;
    first [apply keeps_dur, extends_ensure | apply keeps_sync_folders | apply keeps_detect].
Qed.
End Durable.

(** ** The theorem *)

(** The hashes a run can meet: of the rows it starts from, and of the contents the server gives. *)
Definition run_hash (src : source) (d : Db) (h : string) : Prop :=
  (exists m, m ∈ messages d /\ file_hash m = Some h)
  \/ exists n f u raw, src_download src n f u = Ok raw /\ hexdigest raw = h.
(** No two of them share the 128 bits a file is named after. *)
Definition distinct_names (src : source) (d : Db) : Prop :=
  forall h1 h2, run_hash src d h1 -> run_hash src d h2 -> file_name_of h1 = file_name_of h2 -> h1 = h2.

Definition all_backed (account : string) (w : World) : Prop :=
  forall m, m ∈ messages (committed w) -> backed account w m.

(** C3. Whatever the server answers, whichever storage operations fail, wherever the run is
    cancelled: if every committed row of the account that names an EML is backed (its file is there
    with its hash, its fetch event is synced), the rows [sync_account] leaves committed are backed
    too. *)
Theorem sync_keeps_backed root src env account options w :
  working w = None -> distinct_names src (committed w) -> all_backed account w ->
  all_backed account (sync_account root src env account options w).2.
Proof.
  intros Hw Hd Hb. pose proof (keeps_sync_run account (run_hash src (committed w)) root src env options Hd) as H.
  assert (forall n f u raw, src_download src n f u = Ok raw -> run_hash src (committed w) (hexdigest raw)) as Hs
    by (intros n f u raw E; right; by exists n, f, u, raw).
  specialize (H Hs (initial_state w)). unfold sync_account.
  assert (rows_ok account (run_hash src (committed w)) w (committed w)) as H0.
  { intros m Hm Ha p Hp. destruct (Hb m Hm Ha p Hp) as (h & c & Hh & Hn & Hc & Eh & He).
    exists h. split; [done|]. split; [|done]. split; [done|]. split; [by left; exists m|]. by exists c. }
  assert (inv account (run_hash src (committed w)) (initial_state w)) as Hi.
  { split; [|constructor]. split; [done|]. unfold view. cbn. by rewrite Hw. }
  specialize (H Hi). destruct (sync_run root src env account options (initial_state w)) as [r s].
  assert (inv account (run_hash src (committed w)) s) as [[Hc _] _] by (unfold post in H; by destruct r).
  intros m Hm Ha p Hp. destruct (Hc m Hm Ha p Hp) as (h & Hh & (Hn & _ & c & Hrc & Eh) & He).
  by exists h, c.
Qed.

(** ** A run *)

Definition sample_parsed : parsed := Parsed "hello" "a@example.com" "" "" None (Some "<1@x>"%string) None None
  None None "text" [] false None.
Definition sample_env : environment := Env (fun _ => DateTime 2024 5 1 12 0 0 0) (fun _ => false)
  (fun _ _ => Ok sample_parsed) (fun s => s) (fun _ => "0123"%string) (fun _ => 1%nat) (fun _ a _ => a).
Definition sample_ref (u : Z) : message_ref :=
  Ref u None (Some (DateTime 2024 4 30 8 0 0 0)) (Some 3%Z) ["\Seen"%string] None None None.
Definition sample_source : source := Source (fun _ _ => Ok 7%Z) (fun _ _ => Ok 2%Z)
  (fun _ _ lo hi => (List.filter (fun r => (lo <=? ref_uid r) && (ref_uid r <=? hi))%Z
                       [sample_ref 2; sample_ref 1], None))
  (fun _ _ _ => ([], None)) (fun _ _ _ => ([], None)) (fun _ => Ok JNull) [] (fun _ _ => Ok [1; 2]%Z)
  (fun _ _ _ => Ok [65; 66; 67]%Z) (fun _ _ _ => Ok []).
Definition sample_account : account := Account "acct" "imap" None (Some "h"%string) (Some 993%Z)
  (Some "u"%string) true "implicit" None "password" None None None.
Definition sample_folder : folder := Folder 1 "acct" "INBOX" "INBOX" None 0 true None None false None.
Definition sample_db : Db := MkDb [sample_account] [sample_folder] [] [] [] [] [] [] [] 2 1 1 1 [] [] 1.
Definition sample_world : World := MkWorld sample_db None [] [] [] None 0 (fun _ => None) [] [].
Definition sample_options : SyncOptions := Options 100 true 30 3600.
Definition sample_run : result SyncResult * World :=
  sync_account ["root"%string] sample_source sample_env "acct" sample_options sample_world.

Lemma sync_keeps_backed_witness :
  all_backed "acct" sample_run.2
  /\ sample_run.1 = Ok (Synced 2 6 0 0 false)
  /\ map relative_path (messages (committed sample_run.2))
     = [Some "eml/acct/2024/04/b5d4045c3f466fa91fe2cc6abe79232a.eml"; 
        Some "eml/acct/2024/04/b5d4045c3f466fa91fe2cc6abe79232a.eml"]%string.
Proof.
  split; [|split; vm_compute; reflexivity].
  apply sync_keeps_backed; [reflexivity| |by intros m Hm; apply elem_of_nil in Hm].
  intros h1 h2 [(m & Hm & _)|(n & f & u & raw & [= <-] & <-)]; [by apply elem_of_nil in Hm|].
  intros [(m & Hm & _)|(n' & f' & u' & raw & [= <-] & <-)] _; [by apply elem_of_nil in Hm|]. reflexivity.
Defined.
