(* ===== verification/SyncBatch.v ===== *)
(** * SyncBatch: the batches of a synchronization

    How [sync_folder] of [usecases/sync_mail.py] uses its buffer and its database batches: it never
    holds more than the limit of pending items, and when the messages of a folder are done the
    batch is closed. *)

From S2P Require Import Prelude Errors PyTime Identity Json Manifest Database World Sha256.
From S2P Require Import EmlStorage DeleteRemote Retry Snapshots Sync.

(** ** Steps that open no batch *)

Definition quiet (w w' : World) : Prop := working w' = working w.
#[export] Instance quiet_preorder : PreOrder quiet.
Proof. split; unfold quiet; [done|]. intros w1 w2 w3. congruence. Qed.
Lemma quiet_tick w w' : quiet w w' -> quiet w (tick w').
Proof. done. Qed.
#[local] Hint Resolve quiet_tick : maildock.
Lemma quiet_io {A} (m : M World A) : preserves quiet m -> preserves quiet (io m).
Proof. intros H. apply preserves_io; [apply _|exact quiet_tick|done]. Qed.
Lemma quiet_append e : preserves quiet (man_append e).
Proof. apply quiet_io. intros w. unfold quiet. by case_match. Qed.
Lemma quiet_sync : preserves quiet flush_and_sync.
Proof. apply quiet_io. by intros w. Qed.
Lemma quiet_ask {A} (f : nat -> result A) : preserves quiet (ask f).
Proof. by intros w. Qed.
Lemma quiet_save account date raw uuid n : preserves quiet (save_eml account date raw uuid n).
Proof.
  intros w. pose proof (wp_save_eml account date raw uuid n w) as ((_ & Ew & _) & _). done.
Qed.

#[local] Ltac calm := unfold get_timestamp in *; respect; first
  [ apply quiet_append | apply quiet_sync | apply quiet_save
  | apply quiet_io; intros ?; reflexivity | idtac ].

Lemma batch_commit_closes w : match commit_batch w with (Ok _, w') => working w' = None | _ => True end.
Proof.
  unfold commit_batch, io, mmodify. destruct (faults w (ticks w)); [done|]. cbn.
  by destruct (working w) eqn:E.
Qed.

(** ** The state between two steps *)

(** The messages fetched and not yet committed. *)
Definition buffered (s : sync_state) : Z := Z.of_nat (length (pending s)).
Definition LIMIT : nat := Z.to_nat BATCH_MESSAGE_LIMIT.
Lemma LIMIT_positive : 0 < LIMIT.
Proof. unfold LIMIT, BATCH_MESSAGE_LIMIT. lia. Qed.
(** The buffer holds at most the limit. *)
Definition fits (s : sync_state) : Prop := length (pending s) <= LIMIT.
(** [shut] holds of the batch, and the buffer is within the limit, or below it. *)
Section Between.
Context (shut : option Db -> Prop).
Definition loaded (s : sync_state) : Prop := shut (working (world s)) /\ fits s.
Definition idle (s : sync_state) : Prop := shut (working (world s)) /\ length (pending s) < LIMIT.
Lemma idle_loaded s : idle s -> loaded s.
Proof. unfold idle, loaded, fits. intros [? ?]. split; [done|lia]. Qed.
Lemma idle_fits s : idle s -> fits s.
Proof. intros H. by apply idle_loaded. Qed.
End Between.
Lemma fits_dur {A} (m : M World A) : keeps fits (dur m).
Proof. intros s Hs. unfold dur. by destruct (m (world s)) as [[a|e] w]. Qed.

Section Batch.
Context (root : list string) (src : source) (env : environment) (account : string)
  (options : SyncOptions).

(** A predicate that quiet steps keep is kept while a message is fetched. *)
Section Fetching.
Context (P : sync_state -> Prop).
Context (HP : forall s s', quiet (world s) (world s') -> pending s' = pending s -> P s -> P s').

Lemma keeps_quiet {A} (m : M World A) : preserves quiet m -> keeps P (dur m).
Proof.
  intros Hm s Hs. specialize (Hm (world s)). unfold dur.
  destruct (m (world s)) as [[a|e] w]; by apply (HP s).
Qed.
Lemma invariant_count f : keeps P (count f).
Proof. apply keeps_modify. intros s. by apply (HP s). Qed.
Lemma invariant_token : keeps P (check_token env).
Proof. intros s Hs. unfold check_token, raise_if_cancelled. by case_match. Qed.
Lemma keeps_retried {A} (f : nat -> result A) : keeps P (retried env (request f)).
Proof. apply with_retry_triple; [apply keeps_quiet, quiet_ask| |]; intros; apply keeps_quiet; by intros w. Qed.
Lemma keeps_oversize raw fid v r payload size :
  keeps P (oversize_item env account raw fid v r payload size).
Proof.
  unfold oversize_item. apply keeps_bnd; [apply keeps_lift|]. intros p.
  apply keeps_bnd; [apply keeps_quiet; unfold now_iso; calm|]. intros now.
  apply keeps_bnd; [apply keeps_lift|]. intros rec. apply keeps_bnd; [apply invariant_count|]. intros ?. apply keeps_ret.
Qed.
Lemma quiet_store r payload : preserves quiet (store_eml root env account r payload).
Proof.
  unfold store_eml. apply preserves_bnd; [apply _|calm|]. intros existing.
  apply preserves_bnd; [apply _|unfold reuse, file_at; calm|]. intros [s|]; [calm|].
  apply preserves_bnd; [apply _|calm|]. intros n. apply quiet_save.
Qed.
Lemma keeps_make_item raw fid v r : keeps P (make_item root src env account options raw fid v r).
Proof.
  unfold make_item. apply keeps_bnd; [apply invariant_count|]. intros ?. apply keeps_if.
  { apply keeps_bnd; [apply keeps_retried|]. intros h. apply keeps_bnd; [apply keeps_oversize|]. intros it.
    apply keeps_bnd; [apply invariant_count|]. intros ?. apply keeps_ret. }
  apply keeps_bnd; [apply keeps_retried|]. intros payload. cbv zeta.
  apply keeps_bnd; [apply invariant_count|]. intros ?. apply keeps_if; [apply keeps_oversize|].
  apply keeps_bnd; [apply keeps_quiet, quiet_store|]. intros st. apply keeps_bnd; [apply keeps_lift|]. intros p.
  apply keeps_bnd; [apply keeps_quiet; unfold now_iso; calm|]. intros now.
  apply keeps_bnd; [apply keeps_lift|]. intros rec. apply keeps_bnd; [apply invariant_count|]. intros ?.
  apply keeps_bnd; [apply keeps_lift|]. intros e. apply keeps_ret.
Qed.
End Fetching.

Section Shut.
Context (shut : option Db -> Prop) (Hnone : shut None).
#[local] Notation idle := (idle shut).
#[local] Notation loaded := (loaded shut).

Lemma idle_step s s' : quiet (world s) (world s') -> pending s' = pending s -> idle s -> idle s'.
Proof. intros Hq Ep [Hw Hl]. split; [by rewrite Hq|by rewrite Ep]. Qed.

(** ** Committing *)

Lemma write_pending_idle items cu : triple fits (write_pending env account items cu) (fun _ => idle) fits.
Proof.
  unfold write_pending. eapply triple_bnd; [apply fits_dur|]. intros st.
  eapply triple_bnd; [apply fits_dur|]. intros ?. eapply triple_bnd.
  { apply keeps_for. intros it. unfold batch_item. apply keeps_bnd.
    - case_match; [|apply keeps_ret]. apply keeps_bnd; [apply fits_dur|]. intros id.
      apply keeps_bnd; [by apply keeps_modify|]. intros ?. apply keeps_for. intros ?. apply keeps_when, fits_dur.
    - intros ?. repeat case_match; first [apply fits_dur | apply keeps_ret | apply keeps_raise]. }
  intros ?. eapply triple_bnd; [case_match; [apply fits_dur|apply keeps_ret]|]. intros ?.
  eapply (triple_bnd _ _ _ (fun _ => loaded)).
  { intros s Hs. unfold dur. pose proof (batch_commit_closes (world s)) as H.
    destruct (commit_batch (world s)) as [[[]|e] w]; [|done]. split; [cbn; by rewrite H|done]. }
  intros ?. apply (triple_bnd _ _ _ (fun _ => idle)).
  { apply triple_modify. intros s [Hw _]. split; [done|]. exact LIMIT_positive. }
  intros ?. apply (triple_conseq _ idle _ _ (fun _ => idle) _ idle); [|done|done|apply (idle_fits shut)].
  apply keeps_bnd; [apply keeps_gets|]. intros n. apply keeps_bnd; [apply keeps_gets|]. intros name.
  apply keeps_bnd; [apply (keeps_quiet idle idle_step); unfold man_checkpoint; calm|]. intros ?.
  apply keeps_when. apply (keeps_quiet idle idle_step). calm.
Qed.
Lemma commit_idle cu : triple loaded (commit_pending env account cu) (fun _ => idle) fits.
Proof.
  unfold commit_pending. eapply (triple_bnd _ _ _ (fun items s => loaded s /\ pending s = items)); [by apply triple_gets|].
  intros items. assert (triple (fun s => loaded s /\ pending s = items) (write_pending env account items cu)
    (fun _ => idle) fits) as H.
  { eapply triple_conseq; [apply write_pending_idle|by intros s [[] _]|done|done]. }
  destruct items, cu; try exact H. apply triple_ret. intros s [[Hw _] Ep]. split; [done|]. rewrite Ep.
  exact LIMIT_positive.
Qed.
Lemma commit_if_idle : triple idle (commit_if_pending env account) (fun _ => idle) fits.
Proof.
  unfold commit_if_pending. eapply (triple_bnd _ _ _ (fun _ => idle)); [by apply triple_gets|]. intros [|].
  - by apply triple_ret.
  - eapply triple_conseq; [apply commit_idle|apply (idle_loaded shut)|done|done].
Qed.
Lemma fits_commit_if : keeps fits (commit_if_pending env account).
Proof.
  unfold commit_if_pending, commit_pending. apply keeps_bnd; [apply keeps_gets|]. intros [|]; [apply keeps_ret|].
  apply keeps_bnd; [apply keeps_gets|]. intros [|]; [apply keeps_ret|].
  eapply triple_conseq; [apply write_pending_idle|done|intros ? s; apply (idle_fits shut)|done].
Qed.

(** ** Filling the buffer *)

Lemma process_ref_loaded raw fid v r :
  triple idle (process_ref root src env account options raw fid v r) (fun _ => loaded) fits.
Proof.
  unfold process_ref. apply (triple_conseq _ idle _ _ (fun _ => loaded) _ idle); [|done|done|apply (idle_fits shut)].
  eapply triple_bnd; [apply (invariant_token idle)|]. intros ?. apply (triple_bnd _ _ _ (fun _ => idle)).
  - apply keeps_try.
    + apply keeps_bnd; [apply (keeps_make_item idle idle_step)|]. intros it. apply keeps_ret.
    + intros e. apply keeps_if; [apply keeps_throw|]. apply keeps_if; [|apply keeps_throw].
      apply keeps_bnd; [apply (invariant_count idle idle_step)|]. intros ?. apply keeps_ret.
  - intros it. apply triple_modify. intros s [Hw Hl]. split; [done|]. unfold fits. cbn.
    rewrite length_app. cbn. lia.
Qed.
(** What is committed when full is below the limit. *)
Lemma not_full s : loaded s -> batch_is_full s = false -> idle s.
Proof.
  intros [Hw Hl] Hf. split; [done|]. unfold batch_is_full in Hf. apply orb_false_iff in Hf as [Hf _].
  apply Z.leb_gt in Hf. unfold LIMIT, BATCH_MESSAGE_LIMIT in *. lia.
Qed.
Lemma full_idle {A} cu (k k' : M sync_state A) Q : triple idle k Q fits -> triple idle k' Q fits ->
  triple loaded (let! full := mgets batch_is_full in if full then commit_pending env account cu ;! k else k') Q fits.
Proof.
  intros Hk Hk'. eapply (triple_bnd _ _ _ (fun b s => loaded s /\ b = batch_is_full s)); [by apply triple_gets|].
  intros [|].
  - eapply triple_bnd; [|intros ?; exact Hk].
    eapply triple_conseq; [apply commit_idle|by intros s []|done|done].
  - intros s [Hl Hf]. apply Hk'. by apply not_full.
Qed.

Lemma stream_idle f : triple idle (stream f) (fun _ => idle) fits.
Proof.
  eapply triple_conseq; [apply (keeps_quiet idle idle_step), quiet_ask|done|done|apply (idle_fits shut)].
Qed.
Lemma request_idle {A} (f : nat -> result A) : triple idle (request f) (fun _ => idle) fits.
Proof.
  eapply triple_conseq; [apply (keeps_quiet idle idle_step), quiet_ask|done|done|apply (idle_fits shut)].
Qed.
Lemma end_idle e : triple idle (end_of e) (fun _ => idle) fits.
Proof. unfold end_of. case_match; [apply triple_throw; apply (idle_fits shut)|by apply triple_ret]. Qed.
Lemma mark_idle u : triple idle (mark_attempted u) (fun _ => idle) fits.
Proof. by apply triple_modify. Qed.

Lemma retry_failure_idle raw fid v f :
  triple idle (retry_failure root src env account options raw fid v f) (fun _ => idle) fits.
Proof.
  unfold retry_failure. eapply triple_bnd; [apply stream_idle|]. intros [[|r l] e]; [apply end_idle|].
  eapply triple_bnd; [apply mark_idle|]. intros ?. case_match; [by apply triple_ret|].
  eapply triple_bnd; [apply process_ref_loaded|]. intros ?.
  eapply (triple_bnd _ _ _ (fun b s => loaded s /\ b = batch_is_full s)); [by apply triple_gets|]. intros [|].
  - eapply triple_conseq; [apply commit_idle|by intros s []|done|done].
  - apply triple_ret. intros s [Hl Hf]. by apply not_full.
Qed.
Lemma range_loop_idle raw fid v history l : forall m,
  triple idle (range_loop root src env account options raw fid v history l m) (fun _ => idle) fits.
Proof.
  induction l as [|r l IH]; intros m; cbn [range_loop]; [by apply triple_ret|].
  eapply (triple_bnd _ _ _ (fun _ => idle)); [by apply triple_gets|]. intros [|]; [apply IH|].
  eapply triple_bnd; [apply mark_idle|]. intros ?. eapply triple_bnd; [apply process_ref_loaded|]. intros ?. cbv zeta.
  destruct history; by apply full_idle.
Qed.
Lemma process_range_idle raw fid v lo hi history :
  triple idle (process_range root src env account options raw fid v lo hi history) (fun _ => idle) fits.
Proof.
  unfold process_range. eapply triple_bnd; [apply stream_idle|]. intros a.
  eapply triple_bnd; [apply range_loop_idle|]. intros m. eapply triple_bnd; [apply end_idle|]. intros ?.
  by apply triple_ret.
Qed.
Lemma write_cursors_idle g : triple idle (dur (write_cursors g)) (fun _ => idle) fits.
Proof.
  intros s [Hw Hl]. pose proof (fits_dur (write_cursors g) s ltac:(unfold fits; lia)) as Hf.
  unfold dur in *. assert (match write_cursors g (world s) with (Ok _, w) => shut (working w) | _ => True end) as Hc.
  { unfold write_cursors, mbnd. destruct (begin_batch (world s)) as [[[]|e] w1]; [|done].
    destruct (db_update g w1) as [[[]|e] w2]; [|done]. pose proof (batch_commit_closes w2) as H.
    destruct (commit_batch w2) as [[[]|e] w3]; [by rewrite H|done]. }
  destruct (write_cursors g (world s)) as [[[]|e] w]; [|done]. by split.
Qed.

Lemma start_cursors_idle f v : triple idle (start_cursors src env account f v) (fun _ => idle) fits.
Proof.
  assert (forall A (m : M World A), preserves quiet m -> triple idle (dur m) (fun _ => idle) fits) as Hq.
  { intros A m Hm. eapply triple_conseq; [by apply (keeps_quiet idle idle_step)|done|done|apply (idle_fits shut)]. }
  unfold start_cursors. case_match; [|case_match; [by apply triple_ret|]].
  - eapply triple_bnd; [apply request_idle|]. intros m. eapply triple_bnd; [apply write_cursors_idle|]. intros ?.
    eapply triple_bnd; [apply Hq; calm|]. intros ts. eapply triple_bnd; [apply Hq; calm|]. intros ?.
    by apply triple_ret.
  - eapply triple_bnd; [apply request_idle|]. intros m. eapply triple_bnd; [apply write_cursors_idle|]. intros ?.
    by apply triple_ret.
Qed.

(** ** The flags *)

Lemma fits_refresh_flags google f : keeps fits (refresh_flags src env account options google f).
Proof.
  assert (forall f uidv seen items t a, keeps fits (refresh_stream env account google f uidv seen items t a)) as HS.
  { intros g uidv seen items t a. unfold refresh_stream. apply keeps_bnd; [apply fits_dur|]. intros x.
    apply keeps_bnd.
    - generalize (@nil Z), empty_queue. induction x.1 as [|r l IH]; intros y q; cbn [refresh_loop]; [apply keeps_ret|].
      apply keeps_bnd; [apply invariant_token|]. intros ?. case_match; [|apply IH].
      apply keeps_bnd; [apply fits_dur|]. intros ?. apply IH.
    - intros out. apply keeps_bnd; [unfold end_of; case_match; [apply keeps_throw|apply keeps_ret]|]. intros ?.
      apply keeps_bnd; [apply invariant_token|]. intros ?. apply keeps_ret. }
  unfold refresh_flags. apply keeps_if; [apply keeps_ret|]. apply keeps_bnd; [apply keeps_gets|]. intros now.
  apply keeps_bnd; [apply fits_dur|]. intros rows. apply keeps_bnd; [apply fits_dur|]. intros rep.
  apply keeps_if; [apply keeps_when, fits_dur|]. unfold refresh_known.
  repeat first [ apply keeps_if | apply keeps_bnd; [first [apply HS|apply fits_dur]|intros ?]
               | apply fits_dur | apply keeps_when | apply keeps_ret | case_match ].
Qed.

(** ** The messages of a folder *)

Lemma fetch_messages_idle f v start :
  triple idle (fetch_messages root src env account options f v start) (fun _ => idle) fits.
Proof.
  unfold fetch_messages. destruct start as [[n limit] c]. eapply (triple_bnd _ _ _ (fun _ => idle)).
  { unfold retry_pending_failures. eapply (triple_bnd _ _ _ (fun _ => idle)).
    - eapply triple_conseq; [apply (keeps_quiet idle idle_step); calm|done|done|apply (idle_fits shut)].
    - intros l. induction l as [|x l IH]; [by apply triple_ret|]. cbn [mfor].
      eapply triple_bnd; [apply retry_failure_idle|]. intros ?. apply IH. }
  intros ?. eapply (triple_bnd _ _ _ (fun _ => idle)).
  { unfold fetch_new. eapply triple_bnd; [apply request_idle|]. intros m. case_match; [|by apply triple_ret].
    eapply triple_bnd; [apply process_range_idle|]. intros ?.
    eapply triple_bnd; [eapply triple_conseq; [apply commit_idle|apply (idle_loaded shut)|done|done]|]. intros ?.
    by apply triple_ret. }
  intros m. eapply (triple_bnd _ _ _ (fun _ => idle)).
  { case_match; [|by apply triple_ret]. unfold fetch_history.
    eapply triple_bnd; [apply process_range_idle|]. intros x.
    eapply (triple_bnd _ _ _ (fun _ => idle)); [by apply triple_gets|]. intros items.
    eapply (triple_bnd _ _ _ (fun _ => idle)); [|intros ?; by apply triple_ret].
    destruct items; [destruct x; [by apply triple_ret|apply write_cursors_idle]|].
    eapply triple_conseq; [apply commit_idle|apply (idle_loaded shut)|done|done]. }
  intros c'. eapply (triple_bnd _ _ _ (fun _ => idle)); [by apply triple_modify|]. intros ?.
  eapply triple_bnd; [apply request_idle|]. intros catchup.
  eapply (triple_bnd _ _ _ (fun _ => idle)); [|intros ?; by apply triple_ret].
  case_match; [|apply commit_if_idle]. eapply triple_bnd; [apply process_range_idle|]. intros ?.
  eapply triple_conseq; [apply commit_idle|apply (idle_loaded shut)|done|done].
Qed.
End Shut.

(** ** The run *)

Lemma fits_sync_folder google f : keeps fits (sync_folder root src env account options google f).
Proof.
  set (any := fun _ : option Db => True). unfold sync_folder.
  assert (forall A (f : nat -> result A), keeps fits (request f)) as Hreq by (intros; apply fits_dur).
  apply keeps_bnd; [apply Hreq|]. intros v. apply keeps_bnd; [by apply keeps_modify|]. intros ?.
  apply keeps_bnd.
  { unfold start_cursors. apply keeps_if; [|case_match; [apply keeps_ret|]];
      repeat first [apply keeps_ret | apply keeps_bnd; [first [apply Hreq|apply fits_dur]|intros ?]]. }
  intros start. eapply (triple_bnd _ _ _ (fun _ => idle any)).
  { apply triple_modify. intros s _. split; [done|]. exact LIMIT_positive. }
  intros ?. eapply (triple_try _ _ _ _ fits).
  - eapply (triple_bnd _ _ _ (fun _ => fits)); [|intros ?; by apply triple_ret]. unfold fetch_folder.
    eapply triple_bnd; [by apply (fetch_messages_idle any)|]. intros c.
    apply (triple_conseq _ fits _ _ (fun _ => fits) _ fits); [|apply (idle_fits any)|done|done].
    apply keeps_try; [apply fits_refresh_flags|]. intros e. apply keeps_if; [apply keeps_throw|].
    apply keeps_if; [apply keeps_ret|apply keeps_throw].
  - intros e. apply keeps_if; [|apply keeps_if; [|apply keeps_throw]];
      (apply keeps_bnd; [by apply (fits_commit_if any)|intros ?]); [apply keeps_ret|apply keeps_throw].
Qed.
Lemma fits_sync_folders google l : forall scanned,
  keeps fits (sync_folders root src env account options google l scanned).
Proof.
  induction l as [|f l IH]; intros scanned; cbn [sync_folders]; [apply keeps_ret|]. apply keeps_bnd.
  - apply keeps_try; [apply keeps_bnd; [apply fits_sync_folder|intros ?; apply keeps_ret]|]. intros e.
    apply keeps_if; [apply keeps_throw|]. apply keeps_if; [apply keeps_ret|apply keeps_throw].
  - intros [[|]|]; [apply keeps_ret|apply IH..].
Qed.
Lemma fits_missing google scanned names f l : keeps fits (missing_outcomes env account google scanned names f l).
Proof.
  induction l as [|u l IH]; cbn [missing_outcomes]; [apply keeps_ret|].
  apply keeps_bnd; [|intros o; apply keeps_bnd; [apply IH|intros os; apply keeps_ret]].
  unfold missing_outcome. apply keeps_bnd.
  - unfold local_message_at. apply keeps_bnd; [apply keeps_gets|]. intros k. case_match; [apply keeps_ret|].
    apply keeps_bnd; [apply fits_dur|]. intros r. apply keeps_ret.
  - intros [[id [m mf]]|]; [|apply keeps_ret]. apply keeps_bnd; [apply fits_dur|]. intros c.
    apply keeps_bnd; [apply keeps_gets|]. intros k.
    apply keeps_bnd; [case_match; [apply keeps_ret|apply keeps_lift]|]. intros key.
    apply keeps_bnd; [apply fits_dur|]. intros now. apply keeps_ret.
Qed.
Lemma fits_detect google scanned names f : keeps fits (detect_missing src env account google scanned names f).
Proof.
  unfold detect_missing. apply keeps_bnd; [apply fits_dur|]. intros [remote|e].
  - apply keeps_bnd; [apply fits_dur|]. intros l. apply keeps_bnd; [apply fits_missing|].
    intros [|o os]; [apply keeps_ret|apply fits_dur].
  - apply keeps_if; [apply keeps_ret|apply keeps_throw].
Qed.

(** C33. A synchronization never buffers more than [_BATCH_MESSAGE_LIMIT] (100) messages that are
    fetched and not yet committed: however the run over all folders ends, by returning, by an error
    of the server, the disk, the database or the manifest at any step, or by cancellation at any
    point, its buffer is within the limit. *)
Theorem pending_within_limit w :
  (buffered (sync_run root src env account options (initial_state w)).2 <= BATCH_MESSAGE_LIMIT)%Z.
Proof.
  assert (keeps fits (sync_run root src env account options)) as H.
  { unfold sync_run. apply keeps_bnd; [apply fits_dur|]. intros ?. apply keeps_bnd; [apply fits_dur|]. intros accounts.
    apply keeps_bnd; [apply fits_dur|]. intros folders. apply keeps_bnd; [by apply keeps_modify|]. intros ?.
    apply keeps_bnd; [apply fits_sync_folders|]. intros [stopped scanned].
    apply keeps_bnd; [|intros ?; apply keeps_bnd; [apply keeps_gets|intros s; apply keeps_ret]].
    apply keeps_when, keeps_bnd; [apply keeps_gets|]. intros l. apply keeps_for. intros f. apply fits_detect. }
  specialize (H (initial_state w) ltac:(unfold fits; cbn; lia)). unfold post in H.
  destruct (sync_run _ _ _ _ _ _) as [[r|e] s]; cbn; unfold fits, buffered, LIMIT, BATCH_MESSAGE_LIMIT in *; lia.
Qed.
End Batch.
