(* ===== verification/SyncCursor.v ===== *)
(** * SyncCursor: the sync cursors never pass a message that is not recorded

    A folder row carries how far its synchronization got: [last_seen_uid] for new messages,
    [backfill_next_uid] and [initial_sync_completed] for the history. A UID behind the cursors is
    not asked for again, so it must be recorded: as a membership of a message, or as a failure to
    retry. The invariant is kept by every step of [sync_folder], whatever fails and wherever it is
    cancelled, for the messages that stay in the folder during the run, when the server answers in the
    order of the request; that a run which returns leaves nothing out holds in any order. *)

From S2P Require Import Prelude Errors PyTime Identity Json Manifest Database DatabaseWf World Sha256.
From S2P Require Import EmlStorage DeleteRemote Retry Snapshots Sync SyncDurable SyncBatch.

Section Cursor.
Context (root : list string) (src : source) (env : environment) (account : string)
  (options : SyncOptions).
Context (raw : string) (fid v : Z) (live : list Z).

(** ** The folder on the server *)

Definition served (r : message_ref) : Prop := exists n lo hi, r ∈ (src_refs src n raw lo hi).1.
Definition key_of (r : message_ref) : result string :=
  remote_source_item_key raw v (ref_uid r) (ref_gmail_msgid r).

(** What the synchronization relies on: one UIDVALIDITY; the UIDs of the messages [live] are positive
    and not above the highest one the server gives; an answer describes messages of the range asked
    for, and, when it ends without an error, all of [live] there, in whatever order; a message has
    one UID in the folder. *)
Record mailbox : Prop := {
  mb_generation : forall n v', src_select_folder src n raw = Ok v' -> v' = v;
  mb_max : forall n m u, src_max_uid src n raw = Ok m -> u ∈ live -> (u <= m)%Z;
  mb_positive : forall u, u ∈ live -> (0 < u)%Z;
  mb_range : forall n lo hi r, r ∈ (src_refs src n raw lo hi).1 -> (lo <= ref_uid r <= hi)%Z;
  mb_complete : forall n lo hi u, u ∈ live -> (lo <= u <= hi)%Z -> (src_refs src n raw lo hi).2 = None ->
    u ∈ map ref_uid (src_refs src n raw lo hi).1;
  mb_keys : forall r r' k, served r -> served r' -> key_of r = Ok k -> key_of r' = Ok k ->
    ref_uid r = ref_uid r';
}.
(** The server keeps to the order of the request, which the client does not check: an answer comes in
    descending order of UID and leaves out none of [live] on the way. *)
Record in_order : Prop := {
  io_descending : forall n lo hi,
    StronglySorted (fun a b => ref_uid b <= ref_uid a)%Z (src_refs src n raw lo hi).1;
  io_none_left : forall n lo hi u r, u ∈ live -> (lo <= u <= hi)%Z ->
    r ∈ (src_refs src n raw lo hi).1 -> (ref_uid r <= u)%Z -> u ∈ map ref_uid (src_refs src n raw lo hi).1;
}.

(** ** The database *)

(** The UID is recorded: a message of the account has it in the folder, or a failure does. *)
Definition stored_at (d : Db) (u : Z) : Prop :=
  exists mf m, mf ∈ memberships d /\ at_uid fid v u mf = true
    /\ m ∈ messages d /\ m_id m = mf_message_id mf /\ account_id m = account.
Definition failed_at (d : Db) (u : Z) : Prop :=
  exists x, x ∈ sync_failures d /\ same_failure account fid v u x = true.
Definition recorded (d : Db) (u : Z) : Prop := stored_at d u \/ failed_at d u.

(** A stored message of the folder is at the UID the server gives it. *)
Definition consistent (d : Db) : Prop :=
  forall mf m r, mf ∈ memberships d -> m ∈ messages d -> m_id m = mf_message_id mf ->
    account_id m = account -> mf_folder_id mf = fid -> uidvalidity mf = Some v ->
    served r -> key_of r = Ok (source_item_key m) -> uid mf = Some (ref_uid r).

(** The cursors of a row, and whether a UID is behind them. *)
Definition cursors (g : folder) : Z * option Z * bool :=
  (last_seen_uid g, backfill_next_uid g, initial_sync_completed g).
Definition behind (c : Z * option Z * bool) (u : Z) : Prop :=
  (u <= c.1.1)%Z /\ (c.2 = true \/ exists b, c.1.2 = Some b /\ (b < u)%Z).
Definition on_row (d : Db) (F : Z * option Z * bool -> Prop) : Prop :=
  forall g, g ∈ folders d -> f_id g = fid -> f_uidvalidity g = Some v -> F (cursors g).
Definition cursor_ok (d : Db) : Prop :=
  on_row d (fun c => forall u, u ∈ live -> behind c u -> recorded d u).

Definition sound (d : Db) : Prop := wf d /\ consistent d.
Definition good (d : Db) : Prop := sound d /\ (in_order -> cursor_ok d).

(** An update that forgets no UID and leaves the cursors. *)
Definition safe (d d' : Db) : Prop :=
  sound d -> sound d' /\ (forall u, stored_at d u -> stored_at d' u)
    /\ (forall u, recorded d u -> recorded d' u) /\ forall F, on_row d F -> on_row d' F.
#[export] Instance safe_preorder : PreOrder safe.
Proof.
  split; [by intros d|]. intros d1 d2 d3 H1 H2 H. destruct (H1 H) as (S2 & T2 & R2 & F2).
  destruct (H2 S2) as (S3 & T3 & R3 & F3). auto 10.
Qed.
Lemma safe_good d d' : safe d d' -> good d -> good d'.
Proof.
  intros H [Hs Hc]. destruct (H Hs) as (Hs' & _ & Hr & HF). split; [done|]. intros Ho.
  unfold cursor_ok. apply HF. intros g Hg E1 E2 u Hu Hb. by eapply Hr, (Hc Ho).
Qed.

(** Updates that keep the keys of messages and memberships, the failures and the cursors. *)
Definition place (mf : membership) : Z * Z * option Z * option Z :=
  (mf_message_id mf, mf_folder_id mf, uidvalidity mf, uid mf).
Definition row_id (m : message) : Z * (string * string) := (m_id m, row_key m).
Definition folder_key (g : folder) : Z * option Z * (Z * option Z * bool) :=
  (f_id g, f_uidvalidity g, cursors g).
Lemma elem_of_map_eq {A B} (g : A -> B) (l l' : list A) x :
  map g l' = map g l -> x ∈ l' -> exists y, y ∈ l /\ g x = g y.
Proof.
  intros E Hx. assert (g x ∈ map g l) as (y & Ey & Hy)%list_elem_of_fmap
    by (rewrite <- E; apply list_elem_of_fmap; by exists x). by exists y.
Qed.

(** [safe] from its parts. *)
Lemma safe_intro d d' : (sound d -> sound d') -> (sound d -> forall u, stored_at d u -> stored_at d' u) ->
  (sound d -> forall u, failed_at d u -> recorded d' u) ->
  map folder_key (folders d') = map folder_key (folders d) -> safe d d'.
Proof.
  intros Hs Ht Hf Ef H. split; [by apply Hs|]. split; [by apply Ht|]. split.
  - intros u [Hu|Hu]; [left; by apply Ht|by apply Hf].
  - intros F HF g Hg E1 E2. destruct (elem_of_map_eq _ _ _ _ Ef Hg) as (g0 & Hg0 & R).
    unfold folder_key in R. injection R as R1 R2 R3 R4 R5. unfold cursors. rewrite R3, R4, R5.
    apply HF; congruence.
Qed.

Lemma safe_mild d d' : (wf d -> wf d') -> map row_id (messages d') = map row_id (messages d) ->
  map place (memberships d') = map place (memberships d) ->
  map folder_key (folders d') = map folder_key (folders d) ->
  (forall u, failed_at d u -> failed_at d' u) -> safe d d'.
Proof.
  intros Hw Em Ep Ef Hf. apply safe_intro; [| |by intros _ u Hu; right; apply Hf|done].
  - intros [Hwf Hc]. split; [by apply Hw|]. intros mf m r Hmf Hm E1 E2 E3 E4 Hr E5.
    destruct (elem_of_map_eq _ _ _ _ Ep Hmf) as (mf0 & Hmf0 & P).
    destruct (elem_of_map_eq _ _ _ _ Em Hm) as (m0 & Hm0 & R).
    unfold place in P. unfold row_id, row_key in R. injection P as P1 P2 P3 P4. injection R as R1 R2 R3.
    rewrite P4. apply (Hc mf0 m0 r); congruence.
  - intros _ u (mf & m & Hmf & Ha & Hm & E1 & E2).
    destruct (elem_of_map_eq _ _ _ _ (eq_sym Ep) Hmf) as (mf0 & Hmf0 & P).
    destruct (elem_of_map_eq _ _ _ _ (eq_sym Em) Hm) as (m0 & Hm0 & R).
    unfold place in P. unfold row_id, row_key in R. injection P as P1 P2 P3 P4. injection R as R1 R2 R3.
    exists mf0, m0. split; [done|]. split; [unfold at_uid in *; by rewrite <- P2, <- P3, <- P4|].
    split; [done|]. split; congruence.
Qed.

(** ** The updates of a run *)

Ltac mild := apply safe_mild; [apply wf_same_keys; same_rows| | | |done]; cbn [messages memberships folders
    set_messages set_memberships set_folders set_aliases update_flags touch_flags_seen_at
    set_highest_modseq update_gmail_labels update_message];
  repeat first [reflexivity | rewrite map_update_where by (intros; reflexivity)].

Lemma safe_flags u fl t d : safe d (update_flags account fid v u fl t d).
Proof. mild. Qed.
Lemma safe_touch us t d : safe d (touch_flags_seen_at account fid v us t d).
Proof. mild. Qed.
Lemma safe_modseq n d : safe d (set_highest_modseq fid n d).
Proof. mild. Qed.
Lemma safe_labels id l d : safe d (update_gmail_labels id l d).
Proof.
  apply safe_mild; [by apply wf_same_keys, same_keys_update| |done..].
  cbn. by rewrite map_update_where.
Qed.
Lemma safe_alias k id e d d' : add_message_identity_alias account k id e d = Ok d' -> safe d d'.
Proof.
  unfold add_message_identity_alias. case_match; [|done]. intros (? & _ & <-%Ok_inj)%rbind_ok.
  unfold insert_alias. case_match; [reflexivity|]. mild.
Qed.

Lemma safe_failure u c msg d : safe d (record_failure account fid v u c msg d)
  /\ failed_at (record_failure account fid v u c msg d) u.
Proof.
  unfold record_failure. destruct (existsb _ (sync_failures d)) eqn:E; split.
  - apply safe_mild; [apply wf_same_keys; same_rows|done..|]. intros u' (x & Hx & Es).
    eexists. split; [apply elem_of_update_where; exists x; by split|]. by case_match.
  - apply existsb_exists in E as (x & Hx & Es). apply list_elem_of_In in Hx.
    eexists. split; [apply elem_of_update_where; exists x; by split|]. by rewrite Es.
  - apply safe_mild; [apply wf_same_keys; same_rows|done..|]. intros u' (x & Hx & Es). exists x.
    split; [|done]. cbn. set_solver.
  - eexists. split; [cbn; apply elem_of_app; right; by apply list_elem_of_singleton|].
    unfold same_failure. cbn. by rewrite Prelude.eqb_refl, !Z.eqb_refl.
Qed.

Lemma same_failure_uid u u' x : same_failure account fid v u x = true ->
  same_failure account fid v u' x = true -> u = u'.
Proof. unfold same_failure. intros H1 H2. bsimp. congruence. Qed.
Lemma safe_clear u d : stored_at d u -> safe d (clear_failure account fid v u d).
Proof.
  intros Hu. apply safe_intro; [| |intros _ u' (x & Hx & Es)|done].
  - intros [Hw Hc]. split; [|done]. eapply wf_same_keys; [|exact Hw]. same_rows.
  - by intros _ u'.
  - destruct (decide (u = u')) as [<-|Hne]; [by left|]. right. exists x. split; [|done].
    apply elem_of_delete_where. split; [done|]. apply not_true_iff_false. intros E.
    apply Hne. by eapply same_failure_uid.
Qed.

(** ** Storing a message *)

Lemma NoDup_map_eq {A B} (g : A -> B) l x y : NoDup (map g l) -> x ∈ l -> y ∈ l -> g x = g y -> x = y.
Proof.
  induction l as [|z l IH]; intros Hd Hx Hy E; [by apply elem_of_nil in Hx|].
  apply NoDup_cons in Hd as [Hz Hd]. apply elem_of_cons in Hx, Hy.
  destruct Hx as [->|Hx], Hy as [->|Hy]; [done| | |by apply IH]; exfalso; apply Hz.
  - rewrite E. apply list_elem_of_fmap. by exists y.
  - rewrite <- E. apply list_elem_of_fmap. by exists x.
Qed.

(** The rows after an upsert: the old ones keep their keys, the returned id has the key. *)
Lemma upsert_message_keys r d id d' : upsert_message r d = Ok (id, d') ->
  (forall m, m ∈ messages d -> exists m', m' ∈ messages d' /\ row_id m' = row_id m)
  /\ (exists m', m' ∈ messages d' /\ m_id m' = id
        /\ row_key m' = (account_id (mr_row r), source_item_key (mr_row r)))
  /\ memberships d' = memberships d /\ folders d' = folders d /\ sync_failures d' = sync_failures d.
Proof.
  unfold upsert_message. cbv zeta. set (acc := account_id (mr_row r)).
  set (key := source_item_key (mr_row r)). intros ([] & _ & E)%rbind_ok.
  assert (forall m, same_key acc key m = true ->
    row_key (set_columns (mr_columns r) (mr_row r) m) = (acc, key)) as Hk.
  { intros m Hm. unfold same_key in Hm. bsimp. unfold row_key, set_columns. cbn. subst acc key.
    destruct (mem "source_item_key"%string (mr_columns r)); congruence. }
  destruct (List.find (same_key acc key) (messages d)) as [old|] eqn:Ef; injection E as <- <-;
    cbn [messages memberships folders sync_failures set_messages bump_message].
  - split; [|split; [|done]].
    + intros m Hm. eexists. split; [apply elem_of_update_where; exists m; by split|].
      destruct (same_key acc key m) eqn:Es; [|done]. unfold row_id. f_equal. rewrite Hk by done.
      unfold same_key in Es. unfold row_key. bsimp. congruence.
    + apply List.find_some in Ef as [Hin Es]. apply list_elem_of_In in Hin.
      eexists. split; [apply elem_of_update_where; exists old; split; [done|reflexivity]|].
      rewrite Es. split; [done|by apply Hk].
  - split; [intros m Hm; exists m; set_solver|]. split; [|done].
    eexists. split; [apply elem_of_app; right; by apply list_elem_of_singleton|]. split; [done|].
    apply Hk. unfold same_key, blank_message. cbn. by rewrite !Prelude.eqb_refl.
Qed.

(** The memberships after an upsert. *)
Lemma upsert_membership_rows mf d d' : upsert_membership mf d = Ok d' ->
  (mf ∈ memberships d')
  /\ (forall o, o ∈ memberships d' -> o = mf \/ o ∈ memberships d)
  /\ (forall o, o ∈ memberships d -> pair_key o <> pair_key mf -> o ∈ memberships d')
  /\ messages d' = messages d /\ folders d' = folders d /\ sync_failures d' = sync_failures d.
Proof.
  unfold upsert_membership. intros ([] & _ & <-%Ok_inj)%rbind_ok.
  destruct (existsb (same_pair mf) (memberships d)) eqn:E; cbn [memberships messages folders sync_failures set_memberships].
  - split; [|split; [|split; [|done]]].
    + apply existsb_exists in E as (o & Ho%list_elem_of_In & Es). apply elem_of_update_where.
      exists o. by rewrite Es.
    + intros o (x & Hx & ->)%elem_of_update_where. case_match; auto.
    + intros o Ho Hne. apply elem_of_update_where. exists o. split; [done|].
      destruct (same_pair mf o) eqn:Es; [|done]. by apply same_pair_key in Es.
  - split; [set_solver|]. split; [|split; [set_solver|done]]. set_solver.
Qed.

(** The record of a message of the folder. *)
Definition rec_good (u : Z) (r : message_in) : Prop :=
  account_id (mr_row r) = account /\ mf_folder_id (mr_membership r) = fid
  /\ uid (mr_membership r) = Some u /\ uidvalidity (mr_membership r) = Some v
  /\ exists ref, served ref /\ ref_uid ref = u /\ key_of ref = Ok (source_item_key (mr_row r)).

Context (Hmb : mailbox).

Lemma safe_add_message nz u r c d id d' : rec_good u r -> add_message nz r c d = Ok (id, d') ->
  safe d d' /\ (sound d -> stored_at d' u).
Proof.
  intros (Ea & Ef & Eu & Ev & ref & Hs & Er & Ek) H. pose proof H as Hadd. unfold add_message in H.
  apply rbind_ok in H as ([id1 d1] & H1 & (d2 & H2 & [= <- <-])%rbind_ok).
  apply upsert_message_keys in H1 as (M1 & (m3 & Hm3 & E3 & K3) & Emf & Efo & Efa).
  apply upsert_membership_rows in H2 as (P1 & P2 & P3 & Em & Efo' & Efa').
  set (mf0 := with_message_id id1 (mr_membership r)) in *.
  set (d' := match c with Some _ => _ | None => d2 end) in *.
  assert (messages d' = messages d1) as Em' by (subst d'; by destruct c).
  assert (memberships d' = memberships d2) as Emf' by (subst d'; by destruct c).
  assert (folders d' = folders d) as Efo'' by (subst d'; destruct c; cbn; congruence).
  assert (sync_failures d' = sync_failures d) as Efa'' by (subst d'; destruct c; cbn; congruence).
  rewrite <- Em' in M1, Hm3. rewrite <- Emf' in P1, P2, P3. rewrite Emf in P2, P3. clearbody d'.
  assert (at_uid fid v u mf0 = true) as Hat.
  { unfold at_uid, mf0. cbn. by rewrite Ef, Eu, Ev, Z.eqb_refl, !Prelude.eqb_refl. }
  assert (stored_at d' u) as Hst.
  { exists mf0, m3. split; [done|]. split; [done|]. split; [done|].
    split; [done|]. unfold row_key in K3. injection K3 as K3 _. by rewrite K3. }
  split; [|done]. apply safe_intro.
  - intros [Hw Hc]. destruct (wf_add_message _ _ _ _ _ _ Hw Hadd) as [Hw' _]. split; [done|].
    intros mf m r' Hmf Hm E1 E2 F1 F2 Hr' Er'. destruct (P2 mf Hmf) as [->|Hold].
    + assert (m = m3) as -> by (eapply NoDup_map_eq; [apply Hw'|done|done|]; by rewrite E1, E3).
      unfold row_key in K3. injection K3 as _ K3. rewrite K3 in Er'. unfold mf0. cbn. rewrite Eu, <- Er.
      f_equal. by eapply (mb_keys Hmb).
    + pose proof (wf_members _ Hw) as Hmem. rewrite Forall_forall in Hmem.
      destruct (proj1 (list_elem_of_fmap _ _ _) (Hmem mf Hold)) as (m0 & E0 & Hm0).
      destruct (M1 m0 Hm0) as (m' & Hm' & R). unfold row_id, row_key in R. injection R as R1 R2 R3.
      assert (m = m') as -> by (eapply NoDup_map_eq; [apply Hw'|done|done|]; congruence).
      apply (Hc mf m0 r'); congruence.
  - intros [Hw Hc] u' (mf & m & Hmf & Ha & Hm & E1 & E2).
    destruct (M1 m Hm) as (m' & Hm' & R). unfold row_id, row_key in R. injection R as R1 R2 R3.
    destruct (decide (pair_key mf = pair_key mf0)) as [Ep|Hne].
    + destruct (wf_add_message _ _ _ _ _ _ Hw Hadd) as [Hw' _]. unfold pair_key, mf0 in Ep.
      cbn in Ep. injection Ep as Ep1 Ep2.
      assert (m' = m3) as -> by (eapply NoDup_map_eq; [apply Hw'|done|done|]; congruence).
      unfold row_key in K3. injection K3 as K3a K3b. unfold at_uid in Ha. bsimp.
      assert (uid mf = Some (ref_uid ref)) as Euid by (apply (Hc mf m ref); congruence).
      replace u' with u by congruence. done.
    + exists mf, m'. split; [by apply P3|]. split; [done|]. split; [done|]. split; congruence.
  - intros _ u' (x & Hx & Es). right. exists x. by rewrite Efa''.
  - by rewrite Efo''.
Qed.

(** ** The relation on the durable state *)

Definition cext (w w' : World) : Prop :=
  (safe (committed w) (committed w') \/ safe (view w) (committed w')) /\ safe (view w) (view w').
#[export] Instance cext_preorder : PreOrder cext.
Proof.
  split; [intros w; split; [left|]; reflexivity|]. intros w1 w2 w3 [C1 V1] [C2 V2]. split; [|by etransitivity].
  destruct C2 as [C2|C2]; [destruct C1 as [C1|C1]; [left|right]; exact (transitivity C1 C2)|].
  right. exact (transitivity V1 C2).
Qed.

Lemma cext_same w w' : committed w' = committed w -> working w' = working w -> cext w w'.
Proof. intros Ec Ew. split; [left; by rewrite Ec|]. unfold view. by rewrite Ec, Ew. Qed.
Lemma cext_tick w w' : cext w w' -> cext w (tick w').
Proof. intros H. etransitivity; [exact H|]. by apply cext_same. Qed.
Lemma cext_put d w : safe (view w) d -> cext w (put_db d w).
Proof.
  intros H. unfold put_db, cext, view in *. destruct (working w) as [d0|] eqn:E; cbn in *; rewrite ?E; cbn.
  - split; [left; reflexivity|done].
  - auto.
Qed.
Lemma cext_io {A} (m : M World A) : preserves cext m -> preserves cext (io m).
Proof. intros H. apply preserves_io; [apply _|exact cext_tick|done]. Qed.
Lemma cext_write {A} (f : Db -> result (A * Db)) :
  (forall d a d', f d = Ok (a, d') -> safe d d') -> preserves cext (db_write f).
Proof.
  intros Hf. apply cext_io. intros w. destruct (f (view w)) as [[a d']|e] eqn:E; [|reflexivity].
  apply cext_put. by eapply Hf.
Qed.
Lemma cext_update f : (forall d, safe d (f d)) -> preserves cext (db_update f).
Proof. intros Hf. apply cext_write. intros d [] d' [= <-]. apply Hf. Qed.
Lemma cext_update' f : (forall d d', f d = Ok d' -> safe d d') -> preserves cext (db_update' f).
Proof. intros Hf. apply cext_write. intros d [] d' (d1 & H & [= <-])%rbind_ok. by apply Hf. Qed.
Lemma cext_begin : preserves cext begin_batch.
Proof.
  apply cext_io. intros w. destruct (working w) as [d|] eqn:E; [reflexivity|].
  split; [left; reflexivity|]. unfold view. cbn. by rewrite E.
Qed.
Lemma cext_commit : preserves cext commit_batch.
Proof.
  apply cext_io. intros w. unfold mmodify. cbn [snd]. destruct (working w) as [d|] eqn:E; [|reflexivity].
  split; [right|]; unfold view; cbn; by rewrite E.
Qed.
Lemma cext_manifest s b n w : cext w (set_manifest s b n w).
Proof. by apply cext_same. Qed.
Lemma cext_append e : preserves cext (man_append e).
Proof. apply cext_io. intros w. case_match; [apply cext_manifest|reflexivity]. Qed.
Lemma cext_sync : preserves cext flush_and_sync.
Proof. apply cext_io. intros w. apply cext_manifest. Qed.
Lemma cext_ask {A} (f : nat -> result A) : preserves cext (ask f).
Proof. intros w. by apply cext_tick. Qed.
Lemma cext_save date raw' uuid n : preserves cext (save_eml account date raw' uuid n).
Proof.
  intros w. pose proof (wp_save_eml account date raw' uuid n w) as ((Ec & Ew & _) & _). by apply cext_same.
Qed.

#[local] Hint Resolve cext_tick : maildock.
#[local] Ltac cx := unfold get_timestamp in *; respect; first
  [ apply cext_begin | apply cext_commit | apply cext_append | apply cext_sync | apply cext_save
  | apply cext_io; intros ?; reflexivity | idtac ].

Lemma cext_snapshot_event r f l : preserves cext (snapshot_event_of (clock env) account r f l).
Proof. unfold snapshot_event_of. cx. Qed.
Lemma cext_append_snapshot x : preserves cext (append_snapshot env account x).
Proof.
  unfold append_snapshot. destruct x.2; [cx|].
  apply preserves_bnd; [apply _|apply cext_snapshot_event|]. cx.
Qed.
Lemma cext_checkpoint n name : preserves cext (man_checkpoint env account n name).
Proof. unfold man_checkpoint. cx. Qed.
Lemma cext_stage_items l : forall st, preserves cext (stage_items env account l st).
Proof.
  induction l as [|it l IH]; intros st; cbn [stage_items]; [cx|].
  apply preserves_bnd; [apply _| |intros st'; apply IH]. unfold stage_item, now_iso. destruct st. cx.
Qed.
Lemma cext_store_eml r payload : preserves cext (store_eml root env account r payload).
Proof.
  unfold store_eml. apply preserves_bnd; [apply _|cx|]. intros existing.
  apply preserves_bnd; [apply _|unfold reuse, file_at; cx|]. intros [s|]; [cx|].
  apply preserves_bnd; [apply _|cx|]. intros n. apply cext_save.
Qed.

Section RefreshSteps.
Context (google : bool) (f : folder) (seen_at : string) (items : list (Z * (message * membership))).
Context (Hf : f_id f = fid).

Lemma cext_flush q : preserves cext (flush_flag_updates env account google f v seen_at items q).
Proof.
  unfold flush_flag_updates. rewrite Hf. cx.
  - assert (forall l named d, preserves cext (group_label_snaps f seen_at items q named l d)) as Hg.
    { induction l as [|[u ls] l IH]; intros named d; cbn [group_label_snaps]; [cx|].
      destruct (dict_get u items); [|cx]. apply preserves_bnd; [apply _|cx|]. intros _. apply IH. }
    apply Hg.
  - apply cext_append_snapshot.
  - apply cext_update. intros d. apply safe_flags.
  - apply cext_update. intros d. apply safe_touch.
  - apply cext_update. intros d. apply safe_labels.
Qed.
Lemma cext_flush_full q : preserves cext (flush_when_full env account google f v seen_at items q).
Proof.
  unfold flush_when_full. case_match; [|cx]. apply preserves_bnd; [apply _|apply cext_flush|]. cx.
Qed.
Lemma cext_touch_all l : forall q, preserves cext (touch_all env account google f v seen_at items l q).
Proof.
  induction l as [|u l IH]; intros q; cbn [touch_all]; [cx|].
  apply preserves_bnd; [apply _|apply cext_flush_full|]. intros q'. apply IH.
Qed.
Lemma cext_modseq n : preserves cext (save_modseq f n).
Proof. unfold save_modseq. rewrite Hf. cx. apply cext_update. intros d. apply safe_modseq. Qed.
End RefreshSteps.

(** ** The state of a run *)

(** An item stands for its UID: it stores the message or records a failure. *)
Definition item_good (it : pending_item) : Prop :=
  (pi_record it <> None \/ pi_failure it <> None)
  /\ (forall r, pi_record it = Some r -> rec_good (pi_uid it) r)
  /\ forall x, pi_failure it = Some x -> fi_uidvalidity x = v /\ pi_failure_folder_id it = Some fid.

Definition K0 (s : sync_state) : Prop :=
  good (committed (world s)) /\ good (view (world s)) /\ Forall item_good (pending s).
Definition kept (s : sync_state) (u : Z) : Prop :=
  recorded (view (world s)) u \/ u ∈ map pi_uid (pending s).
Section State.
Context (rc : list Z).
(** [F]: what is known of the folder's cursors; [dn]: UIDs attempted for certain; [ex]: attempted
    UIDs that need not be kept yet; [rc]: UIDs recorded for certain. *)
Definition K (F : Z * option Z * bool -> Prop) (ex dn : list Z) (s : sync_state) : Prop :=
  K0 s /\ on_row (view (world s)) F /\ (forall u, u ∈ attempted s -> u ∈ ex \/ kept s u)
  /\ (forall u, u ∈ dn -> u ∈ attempted s) /\ forall u, u ∈ rc -> recorded (view (world s)) u.

(** Steps that change the durable state only. *)
Definition rel (s s' : sync_state) : Prop :=
  cext (world s) (world s') /\ pending s' = pending s /\ attempted s' = attempted s.
Lemma cext_good w w' : cext w w' -> good (committed w) -> good (view w) ->
  good (committed w') /\ good (view w').
Proof. intros [[C|C] V] Hc Hv; split; by eapply safe_good. Qed.
Lemma K0_rel s s' : rel s s' -> K0 s -> K0 s'.
Proof.
  intros (X & Ep & _) (Hc & Hv & Hp). destruct (cext_good _ _ X Hc Hv). unfold K0. by rewrite Ep.
Qed.
Lemma kept_rel s s' u : rel s s' -> K0 s -> kept s u -> kept s' u.
Proof.
  intros ([_ V] & Ep & _) (_ & [Hs _] & _) [H|H]; [left|right; by rewrite Ep].
  destruct (V Hs) as (_ & _ & HR & _). by apply HR.
Qed.
Lemma K_rel F ex dn s s' : rel s s' -> K F ex dn s -> K F ex dn s'.
Proof.
  intros R (H0 & HF & Ha & Hd & Hrc). split; [by eapply K0_rel|]. pose proof R as ([_ V] & Ep & Ea).
  destruct H0 as (H1 & [Hs Hc] & H2). destruct (V Hs) as (_ & _ & HR & HF').
  split; [by apply HF'|]. rewrite Ea. split; [|split; [done|auto]]. intros u Hu. destruct (Ha u Hu) as [H|H]; [by left|right].
  by eapply kept_rel.
Qed.
Lemma rel_dur {A} (m : M World A) s : preserves cext m -> rel s (dur m s).2.
Proof. intros H. unfold dur. specialize (H (world s)). by destruct (m (world s)). Qed.

(** A predicate that such steps keep is kept by durable operations. *)
Lemma stable_dur {A} (P : sync_state -> Prop) (m : M World A) :
  (forall s s', rel s s' -> P s -> P s') -> preserves cext m -> keeps P (dur m).
Proof.
  intros HP Hm s Hs. pose proof (rel_dur m s Hm) as R. destruct (dur m s) as [[a|e] s']; cbn in *;
    by eapply HP.
Qed.
Lemma K_dur {A} F ex dn (m : M World A) : preserves cext m -> keeps (K F ex dn) (dur m).
Proof. apply stable_dur. intros s s'. apply K_rel. Qed.
Lemma K_K0 F ex dn s : K F ex dn s -> K0 s.
Proof. by intros []. Qed.
Lemma K_count F ex dn f : keeps (K F ex dn) (count f).
Proof. by apply keeps_modify. Qed.
Lemma K_token F ex dn : keeps (K F ex dn) (check_token env).
Proof. intros s Hs. unfold check_token, raise_if_cancelled. by case_match. Qed.
Lemma K_retried {A} F ex dn (f : nat -> result A) : keeps (K F ex dn) (retried env (request f)).
Proof.
  apply with_retry_triple; [apply K_dur, cext_ask| |]; intros; apply K_dur; intros w; by apply cext_tick.
Qed.

(** ** One message *)

Lemma record_good r p st size now rec : served r ->
  record_for_message account fid raw v r p st size now = Ok rec -> rec_good (ref_uid r) rec.
Proof.
  intros Hs. unfold record_for_message. cbv zeta. intros (k & Ek & <-%Ok_inj)%rbind_ok.
  repeat split. by exists r.
Qed.

Lemma K_oversize F ex dn r payload size : served r ->
  triple (K F ex dn) (oversize_item env account raw fid v r payload size)
    (fun it s => K F ex dn s /\ (item_good (set_failure_folder fid it) /\ pi_uid it = ref_uid r)) (K F ex dn).
Proof.
  intros Hs. unfold oversize_item. eapply triple_bnd; [apply keeps_lift|]. intros p.
  eapply triple_bnd; [apply K_dur; unfold now_iso; cx|]. intros now.
  eapply (triple_bnd _ _ _ (fun rec s => K F ex dn s /\ rec_good (ref_uid r) rec)).
  { apply triple_lift; [|done]. intros rec s E Hk. split; [done|]. by eapply record_good. }
  intros rec. apply triple_pure. intros Hr. eapply triple_bnd; [apply K_count|]. intros ?.
  apply triple_ret. intros s Hk. split; [done|]. split; [|done]. split; [by left|]. split.
  - by intros x [= <-].
  - by intros x [= <-].
Qed.

Lemma K_make_item F ex dn r : served r ->
  triple (K F ex dn) (make_item root src env account options raw fid v r)
    (fun it s => K F ex dn s /\ (item_good (set_failure_folder fid it) /\ pi_uid it = ref_uid r)) (K F ex dn).
Proof.
  intros Hs. unfold make_item. eapply triple_bnd; [apply K_count|]. intros ?. case_match.
  { eapply triple_bnd; [apply K_retried|]. intros headers.
    eapply triple_bnd; [by apply K_oversize|]. intros it. apply triple_pure. intros Hi.
    eapply triple_bnd; [apply K_count|]. intros ?. by apply triple_ret. }
  eapply triple_bnd; [apply K_retried|]. intros payload.
  eapply triple_bnd; [apply K_count|]. intros ?. case_match; [by apply K_oversize|].
  eapply triple_bnd; [apply K_dur, cext_store_eml|]. intros st.
  eapply triple_bnd; [apply keeps_lift|]. intros p.
  eapply triple_bnd; [apply K_dur; unfold now_iso; cx|]. intros now.
  eapply (triple_bnd _ _ _ (fun rec s => K F ex dn s /\ rec_good (ref_uid r) rec)).
  { apply triple_lift; [|done]. intros rec s E Hk. split; [done|]. by eapply record_good. }
  intros rec. apply triple_pure. intros Hr. eapply triple_bnd; [apply K_count|]. intros ?.
  eapply triple_bnd; [apply keeps_lift|]. intros e.
  apply triple_ret. intros s Hk. split; [done|]. split; [|done].
  destruct (p_parse_error p); (split; [by left|]); split; by intros x [= <-].
Qed.

Lemma K_process_ref F dn r : served r ->
  triple (K F [ref_uid r] dn) (process_ref root src env account options raw fid v r)
    (fun _ => K F [] dn) K0.
Proof.
  intros Hs. unfold process_ref.
  apply (triple_conseq _ (K F [ref_uid r] dn) _ _ (fun _ => K F [] dn) _ (fun s => K F [ref_uid r] dn s));
    [|done|done|intros s; apply K_K0].
  eapply triple_bnd; [apply K_token|]. intros ?.
  eapply (triple_bnd _ _ _ (fun it s => K F [ref_uid r] dn s /\ (item_good it /\ pi_uid it = ref_uid r))).
  - eapply triple_try.
    + eapply triple_bnd; [by apply K_make_item|]. intros it. apply triple_pure. intros Hi.
      apply triple_ret. intros s Hk. split; [done|]. split; [apply Hi|]. destruct Hi as [_ <-].
      unfold set_failure_folder. by destruct (pi_failure it).
    + intros e. case_match; [by apply triple_throw|]. case_match; [|by apply triple_throw].
      eapply triple_bnd; [apply K_count|]. intros ?. apply triple_ret. intros s Hk. split; [done|].
      split; [|done]. split; [by right|]. split; [done|]. by intros x [= <-].
  - intros it. apply triple_modify. intros s [((Hc & Hv & Hp) & HF & Ha & Hd & Hrc) [Hi Eu]].
    split; [split; [done|]; split; [done|]; cbn; apply Forall_app; split; [done|by constructor]|].
    split; [done|]. split; [|by split]. cbn [attempted set_pending]. intros u Hu. right.
    unfold kept. cbn [world pending set_pending]. rewrite map_app, elem_of_app.
    destruct (Ha u Hu) as [->%list_elem_of_singleton|[H|H]]; [right; right|by left|right; by left].
    rewrite <- Eu. cbn. by left.
Qed.

(** ** Committing *)

Definition moved (c : cursor) (x : Z * option Z * bool) : Z * option Z * bool :=
  (get_or x.1.1 (cu_last_seen c), match cu_backfill c with Some n => Some n | None => x.1.2 end,
   get_or x.2 (cu_completed c)).

(** The write of a cursor is allowed: what it puts behind it was behind it, or was attempted, as long
    as the answers come in order. *)
Record allowed (cu : option cursor) (F F' : Z * option Z * bool -> Prop) (ex dn : list Z) : Prop := {
  al_folder : forall c, cu = Some c -> cu_folder_id c = fid;
  al_claim : in_order -> forall c x u, cu = Some c -> F x -> u ∈ live -> behind (moved c x) u ->
    behind x u \/ (u ∈ dn /\ u ∉ ex);
  al_row : forall x, F x -> F' (match cu with Some c => moved c x | None => x end);
}.

#[export] Instance rel_preorder : PreOrder rel.
Proof.
  split; [intros s; split; [reflexivity|done]|]. intros s1 s2 s3 (X1 & P1 & A1) (X2 & P2 & A2).
  split; [exact (transitivity X1 X2)|]. split; congruence.
Qed.
Lemma rel_world s w : cext (world s) w -> rel s (set_world w s).
Proof. intros X. by split. Qed.
Lemma rel_sound s s' : rel s s' -> sound (view (world s)) -> sound (view (world s')).
Proof. intros ([_ V] & _) Hs. by destruct (V Hs). Qed.
Lemma rel_stored s s' u : rel s s' -> sound (view (world s)) ->
  stored_at (view (world s)) u -> stored_at (view (world s')) u.
Proof. intros ([_ V] & _) Hs. destruct (V Hs) as (_ & HT & _). apply HT. Qed.

(** One write to the database that is a safe step and establishes [Q]. *)
Lemma write_step {A} (f : Db -> result (A * Db)) (Q : Db -> Prop) s :
  (forall a d', f (view (world s)) = Ok (a, d') -> safe (view (world s)) d' /\ Q d') ->
  post (fun _ s' => rel s s' /\ Q (view (world s'))) (rel s) (dur (db_write f) s).
Proof.
  intros Hf. unfold dur, db_write, io, post.
  assert (rel s (set_world (tick (world s)) s)) as Rt by (apply rel_world; by apply cext_tick).
  destruct (faults (world s) (ticks (world s))); [exact Rt|].
  change (view (tick (world s))) with (view (world s)).
  destruct (f (view (world s))) as [[a d']|e] eqn:E; [|exact Rt]. destruct (Hf a d' eq_refl) as [Hsafe HQ].
  split; [|cbn [world set_world]; by rewrite view_put]. apply rel_world.
  etransitivity; [by apply cext_tick|]. by apply cext_put.
Qed.
Lemma update_step (g : Db -> Db) (Q : Db -> Prop) s :
  safe (view (world s)) (g (view (world s))) -> Q (g (view (world s))) ->
  post (fun _ s' => rel s s' /\ Q (view (world s'))) (rel s) (dur (db_update g) s).
Proof.
  intros Hs HQ. apply write_step. intros a d' E. injection E as _ E. rewrite <- E. by split.
Qed.

(** The first half of an item: the message and its aliases. *)
Lemma store_step al it r s : rec_good (pi_uid it) r -> sound (view (world s)) ->
  post (fun _ s' => rel s s' /\ stored_at (view (world s')) (pi_uid it)) (rel s)
    ((let! id := dur (db_write (add_message (normalize env) r (pi_contents it))) in
      remember id r ;!
      mfor al (fun a => mwhen (a.1 == source_item_key (mr_row r))
        (dur (db_update' (add_message_identity_alias account a.2 id "gmail_msgid"))))) s).
Proof.
  intros Hr Hs. set (P := fun s' => rel s s' /\ stored_at (view (world s')) (pi_uid it)).
  assert (forall s1 s2, rel s1 s2 -> P s1 -> P s2) as HP.
  { intros s1 s2 R [R1 H1]. split; [exact (transitivity R1 R)|].
    eapply rel_stored; [exact R|by eapply rel_sound|done]. }
  refine (triple_bnd (fun s' => s' = s) _ _ (fun _ => P) _ _ _ _ s eq_refl).
  - intros s' ->. apply (write_step _ (fun d => stored_at d (pi_uid it))). intros id d' E.
    eapply safe_add_message in E as [Hsafe Hst]; [|exact Hr]. split; [done|by apply Hst].
  - intros id. apply (triple_conseq _ P _ _ (fun _ => P) _ P); [|done|done|by intros s' []].
    apply (keeps_bnd P); [by apply keeps_modify|]. intros ?. apply keeps_for. intros x. apply keeps_when.
    apply stable_dur; [done|]. apply cext_update'. intros d d'. apply safe_alias.
Qed.

(** One item of the batch: its UID is recorded. *)
Lemma batch_item_records al it s : item_good it -> sound (view (world s)) ->
  post (fun _ s' => rel s s' /\ recorded (view (world s')) (pi_uid it)) (rel s)
    (batch_item env account al it s).
Proof.
  intros (Hne & Hrec & Hfail) Hs. unfold batch_item.
  refine (triple_bnd (fun s' => s' = s) _ _ (fun _ s' => rel s s' /\ (pi_record it <> None ->
    stored_at (view (world s')) (pi_uid it))) _ _ _ _ s eq_refl).
  { intros s' ->. destruct (pi_record it) as [r|] eqn:Er; [|by split; [reflexivity|]].
    pose proof (store_step al it r s (Hrec r eq_refl) Hs) as H. unfold post in *.
    destruct (mbnd _ _ s) as [[[]|e] s']; [|exact H]. by destruct H. }
  intros ? s1 [R1 H1]. pose proof (rel_sound _ _ R1 Hs) as Hs1.
  assert (forall g, safe (view (world s1)) (g (view (world s1))) ->
    recorded (g (view (world s1))) (pi_uid it) ->
    post (fun _ s' => rel s s' /\ recorded (view (world s')) (pi_uid it)) (rel s) (dur (db_update g) s1)) as Hg.
  { intros g Hsafe Hr. pose proof (update_step g (fun d => recorded d (pi_uid it)) s1 Hsafe Hr) as H.
    unfold post in *. destruct (dur (db_update g) s1) as [[[]|e] s2]; [|exact (transitivity R1 H)].
    destruct H as [R2 H2]. split; [exact (transitivity R1 R2)|done]. }
  destruct (pi_failure it) as [x|] eqn:Ex.
  - destruct (Hfail x eq_refl) as [-> ->].
    destruct (safe_failure (pi_uid it) (fi_class x) (fi_message x) (view (world s1))) as [Hsafe Hf].
    apply Hg; [done|by right].
  - destruct (pi_record it) as [r|] eqn:Er; [|by destruct Hne]. specialize (H1 ltac:(done)).
    destruct (pi_clear_failure it); [|by split; [|left]].
    destruct (Hrec r eq_refl) as (_ & -> & _ & -> & _). cbn [get_or].
    apply Hg; [by apply safe_clear|]. destruct (safe_clear _ _ H1 Hs1) as (_ & HT & _). left. by apply HT.
Qed.

Lemma batch_items_record al l : forall s, Forall item_good l -> sound (view (world s)) ->
  post (fun _ s' => rel s s' /\ forall it, it ∈ l -> recorded (view (world s')) (pi_uid it)) (rel s)
    (mfor l (batch_item env account al) s).
Proof.
  induction l as [|it l IH]; intros s Hl Hs; cbn [mfor].
  { split; [reflexivity|]. by intros it ?%elem_of_nil. }
  apply Forall_cons in Hl as [Hi Hl].
  refine (triple_bnd (fun s' => s' = s) _ _
    (fun _ s' => rel s s' /\ recorded (view (world s')) (pi_uid it)) _ _ _ _ s eq_refl).
  { intros s' ->. by apply batch_item_records. }
  intros ? s1 [R1 H1]. pose proof (rel_sound _ _ R1 Hs) as Hs1. specialize (IH s1 Hl Hs1). unfold post in *.
  destruct (mfor l _ s1) as [[[]|e] s2]; [|exact (transitivity R1 IH)]. destruct IH as [R2 H2].
  split; [exact (transitivity R1 R2)|]. intros it' [->|Hit]%elem_of_cons; [|by apply H2].
  destruct R2 as ([_ V] & _). destruct (V Hs1) as (_ & _ & HR & _). by apply HR.
Qed.

(** Everything attempted is recorded. *)
Definition Kall (F : Z * option Z * bool -> Prop) (ex dn : list Z) (s : sync_state) : Prop :=
  K F ex dn s /\ forall u, u ∈ attempted s -> u ∈ ex \/ recorded (view (world s)) u.
Lemma Kall_rel F ex dn s s' : rel s s' -> Kall F ex dn s -> Kall F ex dn s'.
Proof.
  intros R [Hk Ha]. split; [by eapply K_rel|]. pose proof R as ([_ V] & _ & Ea). rewrite Ea.
  destruct Hk as ((_ & [Hs _] & _) & _). destruct (V Hs) as (_ & _ & HR & _).
  intros u Hu. destruct (Ha u Hu); auto.
Qed.
Lemma Kall_dur {A} F ex dn (m : M World A) : preserves cext m -> keeps (Kall F ex dn) (dur m).
Proof. apply stable_dur. intros s s'. apply Kall_rel. Qed.

Lemma good_update_cursors c F F' ex dn d : allowed (Some c) F F' ex dn -> good d -> on_row d F ->
  (forall u, u ∈ dn -> u ∉ ex -> recorded d u) ->
  let d' := update_sync_cursors fid (cu_last_seen c) (cu_backfill c) (cu_completed c) d in
  good d' /\ on_row d' F' /\ forall u, recorded d u -> recorded d' u.
Proof.
  intros [_ Hcl Hrow] [[Hw Hc] Hcur] HF Hdn. cbn zeta. set (d' := update_sync_cursors _ _ _ _ _).
  assert (forall g', g' ∈ folders d' -> f_id g' = fid -> f_uidvalidity g' = Some v ->
    exists g, g ∈ folders d /\ f_id g = fid /\ f_uidvalidity g = Some v
      /\ cursors g' = moved c (cursors g)) as Hg.
  { intros g' (g & Hg & ->)%elem_of_update_where. case_match eqn:E; cbn.
    - intros E1 E2. by exists g.
    - intros E1. apply Z.eqb_neq in E. done. }
  assert (forall u, recorded d u -> recorded d' u) as Hr by done.
  split; [|split; [|done]].
  - split; [split; [eapply wf_same_keys; [|exact Hw]; unfold d'; same_rows|done]|].
    intros Ho g' Hg' E1' E2' u Hu Hb. destruct (Hg g' Hg' E1' E2') as (g & Hgin & E1 & E2 & Eg).
    apply Hr. rewrite Eg in Hb. destruct (Hcl Ho c (cursors g) u eq_refl) as [H|[H1 H2]]; [by apply HF|done|done| |].
    + by eapply (Hcur Ho).
    + by apply Hdn.
  - intros g' Hg' E1' E2'. destruct (Hg g' Hg' E1' E2') as (g & Hgin & E1 & E2 & ->).
    apply Hrow. by apply HF.
Qed.

(** Writing cursors: the update keeps the invariant when everything attempted is recorded. *)
Definition updates (g : Db -> Db) (F F' : Z * option Z * bool -> Prop) (ex dn : list Z) : Prop :=
  forall d, good d -> on_row d F -> (forall u, u ∈ dn -> u ∉ ex -> recorded d u) ->
    good (g d) /\ on_row (g d) F' /\ forall u, recorded d u -> recorded (g d) u.
Lemma cursor_update g F F' ex dn : updates g F F' ex dn ->
  triple (Kall F ex dn) (dur (db_update g)) (fun _ => Kall F' ex dn) K0.
Proof.
  intros Hup s Hs. unfold dur, db_update, db_write, io.
  pose proof (rel_world s (tick (world s)) ltac:(by apply cext_tick)) as Rt.
  destruct (faults (world s) (ticks (world s))); [apply (K0_rel _ _ Rt), Hs|].
  destruct Hs as [((Hc & Hv & Hp) & HF & _ & Hd & Hrc) Hall]. change (view (tick (world s))) with (view (world s)).
  destruct (Hup (view (world s)) Hv HF) as (Hg & HF' & Hr).
  { intros u Hu Hx. by destruct (Hall u (Hd u Hu)). }
  set (d' := g (view (world s))) in *. unfold post.
  assert (good (committed (put_db d' (tick (world s))))) as Hc'.
  { unfold put_db. by destruct (working (tick (world s))). }
  assert (forall u, u ∈ attempted s -> u ∈ ex \/ recorded d' u) as Hall' by (intros u Hu; destruct (Hall u Hu); auto).
  split; [split|]; [split; [done|]; split; [|done]| |]; cbn [world set_world attempted]; rewrite view_put; [done| |done].
  split; [done|]. split; [|by auto]. intros u Hu. destruct (Hall' u Hu) as [?|Hu']; [by left|right; left].
  cbn [world set_world]. by rewrite view_put.
Qed.
Lemma cursor_write cu F F' ex dn : allowed cu F F' ex dn ->
  triple (Kall F ex dn)
    (match cu with
     | Some c => dur (db_update (update_sync_cursors (cu_folder_id c) (cu_last_seen c)
                                   (cu_backfill c) (cu_completed c)))
     | None => mret tt
     end) (fun _ => Kall F' ex dn) K0.
Proof.
  intros Hal. destruct cu as [c|].
  - rewrite (al_folder _ _ _ _ _ Hal c eq_refl). apply cursor_update. intros d. by apply good_update_cursors.
  - apply triple_ret. intros s [(H0 & HF & Hx) Hall]. split; [split; [done|]|done].
    split; [|done]. intros g Hg E1 E2. by apply (al_row _ _ _ _ _ Hal (cursors g)), HF.
Qed.

Lemma Kall_empty F ex dn s : K F ex dn s -> pending s = [] -> Kall F ex dn s.
Proof.
  intros Hk Ep. split; [done|]. intros u Hu. destruct Hk as (_ & _ & Ha & _).
  destruct (Ha u Hu) as [?|[H|H]]; [by left|by right|]. rewrite Ep in H. by apply elem_of_nil in H.
Qed.

(** Committing the pending items with a cursor. *)
Lemma Kall_commit cu F F' ex dn : allowed cu F F' ex dn ->
  triple (K F ex dn) (commit_pending env account cu) (fun _ => Kall F' ex dn) K0.
Proof.
  intros Hal. unfold commit_pending.
  eapply (triple_bnd _ _ _ (fun items s => K F ex dn s /\ pending s = items)); [by apply triple_gets|].
  intros items. set (P := fun s => K F ex dn s /\ pending s = items).
  assert (forall A (m : M World A), preserves cext m -> triple P (dur m) (fun _ => P) K0) as HP.
  { intros A m Hm. apply (triple_conseq _ P _ _ (fun _ => P) _ P); [|done|done|by intros s [[] _]].
    apply stable_dur; [|done]. intros s s' R [Hk Ep]. split; [by eapply K_rel|]. destruct R as (_ & E & _). congruence. }
  assert (items = [] -> cu = None -> triple P (mret tt) (fun _ => Kall F' ex dn) K0) as Hnone.
  { intros -> ->. apply triple_ret. intros s [(H0 & HF & Hx) Ep]. apply Kall_empty; [|done].
    split; [done|]. split; [|done]. intros g Hg E1 E2. by apply (al_row _ _ _ _ _ Hal (cursors g)), HF. }
  assert (triple P (write_pending env account items cu) (fun _ => Kall F' ex dn) K0) as H;
    [|by destruct items, cu; [|apply Hnone| |]]. unfold write_pending.
  eapply triple_bnd; [apply HP, cext_stage_items|]. intros st.
  eapply triple_bnd; [apply HP; cx; apply cext_append_snapshot|]. intros ?.
  eapply (triple_bnd _ _ _ (fun _ => Kall F ex dn)).
  { intros s [Hk Ep]. pose proof Hk as ((Hc & [Hs Hv] & Hp) & _). rewrite Ep in Hp.
    pose proof (batch_items_record st.2 items s Hp Hs) as H. unfold post in *.
    destruct (mfor items _ s) as [[[]|e] s']; [|by eapply K0_rel; [|apply Hk]]. destruct H as [R Hrec].
    pose proof (K_rel _ _ _ _ _ R Hk) as Hk'. split; [done|]. intros u Hu.
    destruct Hk' as (_ & _ & Ha & _). destruct (Ha u Hu) as [He|[Hr|Hin]]; [by left|by right|right].
    pose proof R as (_ & Ep' & _). rewrite Ep', Ep in Hin. apply list_elem_of_fmap in Hin as (it & -> & Hit). auto. }
  intros ?. eapply triple_bnd; [by apply cursor_write|]. intros ?.
  assert (forall A (m : M World A), preserves cext m -> triple (Kall F' ex dn) (dur m) (fun _ => Kall F' ex dn) K0) as HA.
  { intros A m Hm. apply (triple_conseq _ (Kall F' ex dn) _ _ (fun _ => Kall F' ex dn) _ (Kall F' ex dn));
      [by apply Kall_dur|done|done|by intros s [[] _]]. }
  eapply triple_bnd; [apply HA; cx|]. intros ?.
  apply (triple_conseq _ (Kall F' ex dn) _ _ (fun _ => Kall F' ex dn) _ (Kall F' ex dn));
    [|done|done|by intros s [[] _]].
  apply keeps_bnd.
  - apply keeps_modify. intros s [((Hc & Hv & _) & HF & Ha & Hx) Hall]. split; [|done].
    split; [by split|]. split; [done|]. split; [|done]. intros u Hu. destruct (Hall u Hu); [by left|right; by left].
  - intros ?. apply keeps_bnd; [apply keeps_gets|]. intros n. apply keeps_bnd; [apply keeps_gets|]. intros name.
    apply keeps_bnd; [apply Kall_dur, cext_checkpoint|]. intros ?. apply keeps_when, Kall_dur. cx.
Qed.
Lemma K_commit cu F F' ex dn : allowed cu F F' ex dn ->
  triple (K F ex dn) (commit_pending env account cu) (fun _ => K F' ex dn) K0.
Proof. intros Hal. eapply triple_conseq; [by apply Kall_commit|done|by intros ? s []|done]. Qed.

Lemma allowed_none F ex dn : allowed None F F ex dn.
Proof. by split. Qed.
Lemma K_stream F ex dn f : triple (K F ex dn) (stream f)
  (fun a s => K F ex dn s /\ exists n, a = f n) (K F ex dn).
Proof.
  intros s Hs. pose proof (K_dur F ex dn (ask (fun n => Ok (f n))) (cext_ask _) s Hs) as H.
  unfold stream, dur, ask in *. cbn in *. split; [done|by eexists].
Qed.
Lemma K_mark F dn u : triple (K F [] dn) (mark_attempted u) (fun _ => K F [u] (u :: dn)) K0.
Proof.
  apply triple_modify. intros s (H0 & HF & Ha & Hd & Hrc). split; [done|]. split; [done|].
  split; [|split; [|done]]; cbn [attempted set_attempted]; intros u'.
  - intros [H| ->%list_elem_of_singleton]%elem_of_app; [|left; by left].
    destruct (Ha u' H) as [?%elem_of_nil|?]; [done|by right].
  - intros [->|H]%elem_of_cons; [set_solver|]. apply elem_of_app. left. by apply Hd.
Qed.
Lemma K_weaken F ex ex' dn dn' s : K F ex dn s -> (forall u, u ∈ ex -> u ∈ ex' \/ kept s u) ->
  (forall u, u ∈ dn' -> u ∈ dn) -> K F ex' dn' s.
Proof.
  intros (H0 & HF & Ha & Hd & Hrc) He Hs. split; [done|]. split; [done|].
  split; [|split; [by auto|done]]. intros u Hu. destruct (Ha u Hu); auto.
Qed.

(** A retried message. *)
Lemma K_retry_failure F dn x : sf_uid x ∈ rc ->
  triple (K F [] dn) (retry_failure root src env account options raw fid v x) (fun _ => K F [] dn) K0.
Proof.
  intros Hx. unfold retry_failure. cbv zeta.
  eapply (triple_bnd _ _ _ (fun a s => K F [] dn s /\ exists n, a = src_refs src n raw (sf_uid x) (sf_uid x))).
  { eapply triple_conseq; [apply K_stream|done|done|apply K_K0]. }
  intros [l e]. apply triple_pure. intros [n En]. destruct l as [|r l].
  { unfold end_of. destruct e; [apply triple_throw; apply K_K0|by apply triple_ret]. }
  assert (served r) as Hr by (exists n, (sf_uid x), (sf_uid x); rewrite <- En; by left).
  assert (ref_uid r = sf_uid x) as Eu.
  { assert (sf_uid x <= ref_uid r <= sf_uid x)%Z; [|lia]. apply (mb_range Hmb n). rewrite <- En. by left. }
  eapply triple_bnd; [apply K_mark|]. intros ?. rewrite <- Eu. case_match.
  - apply triple_ret. intros s Hk. eapply K_weaken; [exact Hk| |set_solver].
    intros u ->%list_elem_of_singleton. right. left. destruct Hk as (_ & _ & _ & _ & Hrc). apply Hrc. by rewrite Eu.
  - eapply triple_bnd; [by apply K_process_ref|]. intros ?.
    eapply (triple_bnd _ _ _ (fun _ => K F [] (ref_uid r :: dn))); [by apply triple_gets|]. intros full.
    apply (triple_conseq _ (K F [] (ref_uid r :: dn)) _ _ (fun _ => K F [] (ref_uid r :: dn)) _ K0); [|done| |done].
    + destruct full; [|by apply triple_ret]. apply K_commit, allowed_none.
    + intros ? s Hk. eapply K_weaken; [exact Hk| |]; set_solver.
Qed.
Lemma K_retry_failures F dn l : (forall x, x ∈ l -> sf_uid x ∈ rc) ->
  triple (K F [] dn) (mfor l (retry_failure root src env account options raw fid v)) (fun _ => K F [] dn) K0.
Proof.
  induction l as [|x l IH]; intros Hl; [by apply triple_ret|]. cbn [mfor].
  eapply triple_bnd; [apply K_retry_failure, Hl; by left|]. intros ?. apply IH. intros y Hy. apply Hl. by right.
Qed.
End State.

Lemma K0_commit : keeps K0 (commit_pending env account None).
Proof.
  intros s Hs. assert (K [] (fun _ => True) (attempted s) [] s) as Hk.
  { split; [done|]. split; [done|]. split; [by left|]. split; by intros u ?%elem_of_nil. }
  pose proof (K_commit [] None _ _ _ _ (allowed_none _ _ _) s Hk) as H. unfold post in *.
  destruct (commit_pending env account None s) as [[[]|e] s']; [|done]. by apply K_K0 in H.
Qed.
Lemma K0_commit_if : keeps K0 (commit_if_pending env account).
Proof.
  unfold commit_if_pending. apply keeps_bnd; [apply keeps_gets|].
  intros [|]; [apply keeps_ret|apply K0_commit].
Qed.
Lemma K_forget rc rc' F ex dn s : K rc F ex dn s -> (forall u, u ∈ rc' -> u ∈ rc) -> K rc' F ex dn s.
Proof.
  intros (H0 & HF & Ha & Hd & Hrc) Hs. split; [done|]. split; [done|]. split; [done|]. split; [done|]. auto.
Qed.

Lemma K_retry_pending rc F dn : triple (K rc F [] dn)
  (retry_pending_failures root src env account options raw fid v) (fun _ => K rc F [] dn) K0.
Proof.
  unfold retry_pending_failures.
  eapply (triple_bnd _ _ _ (fun l s => K (map sf_uid l ++ rc) F [] dn s)).
  - intros s Hs. unfold db_read, dur, io. set (w := tick (world s)).
    assert (rel s (set_world w s)) as Rt by (apply rel_world; by apply cext_tick).
    apply (K_rel rc _ _ _ _ _ Rt) in Hs. destruct (faults (world s) (ticks (world s))); [by apply K_K0 in Hs|].
    cbn. destruct Hs as (H0 & HF & Ha & Hd & Hrc). split; [done|]. split; [done|]. split; [done|]. split; [done|].
    intros u [(x & -> & Hx)%list_elem_of_fmap|Hu]%elem_of_app; [|by apply Hrc]. unfold pending_failures in Hx.
    rewrite merge_sort_Permutation in Hx. apply list_elem_of_In, filter_In in Hx as [Hx%list_elem_of_In Hf].
    right. exists x. split; [done|]. unfold same_failure. bsimp. by rewrite H, H2, H3, Prelude.eqb_refl, !Z.eqb_refl.
  - intros l. eapply triple_conseq; [apply (K_retry_failures (map sf_uid l ++ rc) F dn l)|done| |done].
    + intros x Hx. apply elem_of_app. left. apply list_elem_of_fmap. by exists x.
    + intros ? s Hk. eapply K_forget; [exact Hk|]. set_solver.
Qed.

(** ** Ranges *)

Section Ranges.
Context (rc : list Z).

(** What the run knows of the row: [n] is not above the last UID seen, the history above [limit]
    is done. *)
Definition known_row (n limit : Z) (x : Z * option Z * bool) : Prop :=
  (n <= x.1.1)%Z /\ (x.2 = true \/ exists b, x.1.2 = Some b /\ (b <= limit)%Z).

Lemma allowed_history n limit m dn : (0 <= limit)%Z -> (m <= limit)%Z ->
  (in_order -> forall u, u ∈ live -> (m <= u <= limit)%Z -> u ∈ dn) ->
  allowed (Some (history_cursor fid (Some m))) (known_row n limit) (known_row n limit) [] dn.
Proof.
  intros Hl Hm Hdn. split; [by intros c [= <-]| |].
  - intros Ho c x u [= <-] (_ & Hx) Hu [H1 H2]. cbn in *. pose proof (mb_positive Hmb u Hu).
    destruct (decide (u <= limit)%Z) as [Hul|Hul].
    + right. split; [|by intros ?%elem_of_nil]. apply (Hdn Ho); [done|]. split; [|done].
      destruct H2 as [H2%Z.eqb_eq|(b & [= <-] & H2)]; lia.
    + left. split; [done|]. destruct Hx as [Hx|(b & Hb & Hx)]; [by left|right; exists b; split; [done|lia]].
  - intros x [H1 _]. cbn. split; [done|right]. eexists. split; [reflexivity|]. lia.
Qed.

(** The messages of an answer that precede [r] are all that are not below it. *)
Lemma prefix_complete n lo hi pre r l u : in_order -> (src_refs src n raw lo hi).1 = (pre ++ r :: l)%list ->
  u ∈ live -> (lo <= u <= hi)%Z -> (ref_uid r <= u)%Z -> u ∈ ref_uid r :: map ref_uid pre.
Proof.
  intros Ho E Hu Hr Hle.
  assert (u ∈ map ref_uid (pre ++ r :: l)) as (r' & -> & Hin)%list_elem_of_fmap.
  { rewrite <- E. apply (io_none_left Ho _ _ _ _ r); [done|done| |done]. rewrite E. set_solver. }
  pose proof (io_descending Ho n lo hi) as Hs. rewrite E in Hs.
  apply elem_of_app in Hin as [Hin|[->|Hin]%elem_of_cons]; [right; by apply list_elem_of_fmap; exists r'|by left|].
  apply StronglySorted_app_1_r, StronglySorted_inv in Hs as [_ Hs]. rewrite List.Forall_forall in Hs.
  apply list_elem_of_In in Hin. specialize (Hs r' Hin). cbn in Hs. apply elem_of_cons. left. lia.
Qed.

Lemma K_range_loop F n limit step lo hi history :
  (history = true -> lo = 1%Z /\ hi = limit /\ (0 <= limit)%Z /\ F = known_row n limit) ->
  forall l pre minimum dn, (src_refs src step raw lo hi).1 = (pre ++ l)%list ->
  (in_order -> forall m r, minimum = Some m -> r ∈ l -> (ref_uid r <= m)%Z) ->
  (forall u, u ∈ map ref_uid pre -> u ∈ dn) ->
  triple (K rc F [] dn) (range_loop root src env account options raw fid v history l minimum)
    (fun _ => K rc F [] (map ref_uid l ++ dn)) K0.
Proof.
  intros Hh. induction l as [|r l IH]; intros pre minimum dn E Hmin Hpre; cbn [range_loop]; [by apply triple_ret|].
  assert ((src_refs src step raw lo hi).1 = (pre ++ [r]) ++ l)%list as E' by by rewrite <- app_assoc.
  assert (forall u, u ∈ map ref_uid (pre ++ [r]) -> u ∈ ref_uid r :: dn) as Hpre' by (rewrite map_app; set_solver).
  assert (r ∈ (src_refs src step raw lo hi).1) as Hin by (rewrite E; set_solver).
  assert (served r) as Hr by (by exists step, lo, hi).
  assert (in_order -> forall m r', minimum = Some m -> r' ∈ l -> (ref_uid r' <= m)%Z) as Hmin'
    by (intros Ho m r' Em Hr'; apply (Hmin Ho m r' Em); by right).
  set (low := match minimum with Some m => Z.min m (ref_uid r) | None => ref_uid r end).
  assert (low <= ref_uid r)%Z as Hlow by (unfold low; destruct minimum; lia).
  assert (in_order -> low = ref_uid r) as Elow.
  { intros Ho. unfold low. destruct minimum as [m|]; [|done]. specialize (Hmin Ho m r eq_refl ltac:(by left)). lia. }
  assert (in_order -> forall m r', Some low = Some m -> r' ∈ l -> (ref_uid r' <= m)%Z) as Hmin''.
  { intros Ho m r' [= <-] Hr'. rewrite Elow by done. pose proof (io_descending Ho step lo hi) as Hs. rewrite E in Hs.
    apply StronglySorted_app_1_r, StronglySorted_inv in Hs as [_ Hs]. rewrite List.Forall_forall in Hs.
    by apply Hs, list_elem_of_In. }
  assert (forall s, K rc F [] (map ref_uid l ++ ref_uid r :: dn) s ->
    K rc F [] (map ref_uid (r :: l) ++ dn) s) as Hout.
  { intros s Hk. eapply K_weaken; [exact Hk| |]; cbn; set_solver. }
  eapply (triple_bnd _ _ _ (fun b s => K rc F [] dn s /\ (b = true -> ref_uid r ∈ attempted s))).
  { apply triple_gets. intros s Hk. split; [done|]. apply mem_true. }
  intros [|].
  { eapply triple_conseq; [by apply (IH (pre ++ [r])%list minimum (ref_uid r :: dn))| |intros ? s; apply Hout|done].
    intros s [(H0 & HF & Ha & Hd & Hrc) Hs]. split; [done|]. split; [done|]. split; [done|]. split; [|done].
    intros u [->|Hu]%elem_of_cons; auto. }
  apply (triple_conseq _ (K rc F [] dn) _ _ (fun _ => K rc F [] (map ref_uid l ++ ref_uid r :: dn)) _ K0);
    [|by intros s []|intros ? s; apply Hout|done].
  eapply triple_bnd; [apply K_mark|]. intros ?. eapply triple_bnd; [by apply K_process_ref|]. intros ?.
  eapply (triple_bnd _ _ _ (fun _ => K rc F [] (ref_uid r :: dn))); [by apply triple_gets|].
  intros [|]; [|by apply (IH (pre ++ [r])%list)]. destruct history.
  - destruct (Hh eq_refl) as (-> & -> & Hl & ->). eapply triple_bnd; [|intros ?; by apply (IH (pre ++ [r])%list)].
    apply K_commit, allowed_history; [done|pose proof (mb_range Hmb step 1 limit r Hin); lia|].
    intros Ho u Hu Hru. rewrite Elow in Hru by done. pose proof (mb_positive Hmb u Hu).
    assert (u ∈ ref_uid r :: map ref_uid pre) by (eapply prefix_complete; [done|exact E|done|lia|lia]). set_solver.
  - eapply triple_bnd; [apply K_commit, allowed_none|]. intros ?. by apply (IH (pre ++ [r])%list).
Qed.

Definition within (lo hi : Z) : list Z := List.filter (fun u => (lo <=? u)%Z && (u <=? hi)%Z) live.
Lemma elem_of_within u lo hi : u ∈ within lo hi <-> u ∈ live /\ (lo <= u <= hi)%Z.
Proof.
  unfold within. rewrite list_elem_of_In, filter_In, <- list_elem_of_In, andb_true_iff, !Z.leb_le. done.
Qed.
Lemma K_row F F' ex dn s : (forall x, F x -> F' x) -> K rc F ex dn s -> K rc F' ex dn s.
Proof. intros H (H0 & HF & Hx). split; [done|]. split; [|done]. intros g Hg E1 E2. by apply H, HF. Qed.

(** Every message of a range is attempted. *)
Lemma K_process_range F n limit lo hi history dn :
  (history = true -> lo = 1%Z /\ hi = limit /\ (0 <= limit)%Z /\ F = known_row n limit) ->
  triple (K rc F [] dn) (process_range root src env account options raw fid v lo hi history)
    (fun _ => K rc F [] (within lo hi ++ dn)) K0.
Proof.
  intros Hh. unfold process_range.
  eapply (triple_bnd _ _ _ (fun a s => K rc F [] dn s /\ exists step, a = src_refs src step raw lo hi)).
  { eapply triple_conseq; [apply K_stream|done|done|apply K_K0]. }
  intros a. apply triple_pure. intros [step ->].
  eapply triple_bnd; [eapply (K_range_loop F n limit step lo hi history Hh _ []); [done|by intros|by intros ? ?%elem_of_nil]|].
  intros m. destruct (src_refs src step raw lo hi).2 as [e|] eqn:E; cbn [end_of].
  { eapply triple_bnd; [by apply (triple_throw _ e (fun _ _ => False)); intros s; apply K_K0|by intros ? s]. }
  eapply (triple_bnd _ _ _ (fun _ => K rc F [] (within lo hi ++ dn))); [|intros ?; by apply triple_ret].
  apply triple_ret. intros s Hk. eapply K_weaken; [exact Hk|by intros ? ?%elem_of_nil|].
  intros u [[Hu Hr]%elem_of_within|Hu]%elem_of_app; apply elem_of_app; [left|by right].
  apply (mb_complete Hmb); auto.
Qed.

Lemma K_request {A} F ex dn (f : nat -> result A) : triple (K rc F ex dn) (request f) (fun _ => K rc F ex dn) K0.
Proof. eapply triple_conseq; [apply K_dur, cext_ask|done|done|apply K_K0]. Qed.

(** Moving the last UID seen over a range whose messages were attempted. *)
Lemma allowed_new n m F dn : (forall x, F x -> n <= x.1.1)%Z ->
  allowed (Some (Cursor fid (Some m) None None)) F (fun x => x.1.1 = m /\ exists y, F y /\ x.1.2 = y.1.2 /\ x.2 = y.2)
    [] (within (n + 1) m ++ dn).
Proof.
  intros Hn. split; [by intros c [= <-]| |].
  - intros _ c x u [= <-] Hx Hu [H1 H2]. cbn in *. specialize (Hn x Hx).
    destruct (decide (u <= x.1.1)%Z); [by left|right]. split; [|by intros ?%elem_of_nil].
    apply elem_of_app. left. apply elem_of_within. split; [done|lia].
  - intros x Hx. cbn. split; [done|]. by exists x.
Qed.

Lemma K_fetch_new f n limit dn : raw_name f = raw -> f_id f = fid ->
  triple (K rc (known_row n limit) [] dn) (fetch_new root src env account options f v n)
    (fun m => K rc (known_row m limit) [] (within (n + 1) m ++ dn)) K0.
Proof.
  intros Er Ef. unfold fetch_new. rewrite Er, Ef. eapply triple_bnd; [apply K_request|]. intros m.
  case_match eqn:Em.
  - eapply triple_bnd; [by apply (K_process_range _ n limit)|]. intros ?.
    eapply triple_bnd; [apply K_commit, (allowed_new n); by intros x []|]. intros ?. apply triple_ret.
    intros s Hk. eapply K_row; [|exact Hk].
    intros x (E1 & y & [_ Hy] & E2 & E3). split; [lia|]. by rewrite E2, E3.
  - apply triple_ret. intros s Hk. eapply K_weaken; [exact Hk|by left|].
    intros u [[_ Hu]%elem_of_within|Hu]%elem_of_app; [lia|done].
Qed.

(** Durable steps in sequence. *)
Lemma triple_dur_bnd {A B} P (m : M World A) (k : A -> M World B) Q E :
  triple P (mbnd (dur m) (fun a => dur (k a))) Q E -> triple P (dur (mbnd m k)) Q E.
Proof.
  intros H s Hs. specialize (H s Hs). unfold dur, mbnd in *. cbn in *.
  destruct (m (world s)) as [[a|e] w]; [|done]. cbn in H. by destruct (k a w).
Qed.

(** Cursors written on their own. *)
Lemma Kall_K0 {A} F dn (m : M World A) : preserves cext m ->
  triple (Kall rc F [] dn) (dur m) (fun _ => Kall rc F [] dn) K0.
Proof. intros Hm. eapply triple_conseq; [by apply Kall_dur|done|done|by intros s [[] _]]. Qed.
Lemma K_write_cursors g F F' dn : updates g F F' [] dn ->
  triple (Kall rc F [] dn) (dur (write_cursors g)) (fun _ => Kall rc F' [] dn) K0.
Proof.
  intros Hup. apply triple_dur_bnd. eapply triple_bnd; [apply Kall_K0, cext_begin|]. intros ?.
  apply triple_dur_bnd. eapply triple_bnd; [|intros ?; apply Kall_K0, cext_commit].
  exact (cursor_update rc g F F' [] dn Hup).
Qed.
Lemma updates_allowed c F F' dn : allowed (Some c) F F' [] dn ->
  updates (update_sync_cursors fid (cu_last_seen c) (cu_backfill c) (cu_completed c)) F F' [] dn.
Proof. intros Hal d. by apply good_update_cursors. Qed.

(** Any history cursor, once the history is attempted. *)
Lemma allowed_done n limit m dn : allowed (Some (history_cursor fid m)) (known_row n limit)
  (fun x => n <= x.1.1)%Z [] (within 1 limit ++ dn).
Proof.
  split; [by intros c [= <-]| |by intros x []].
  intros _ c x u [= <-] (_ & Hx) Hu [H1 H2]. cbn in *. pose proof (mb_positive Hmb u Hu).
  destruct (decide (u <= limit)%Z).
  - right. split; [|by intros ?%elem_of_nil]. apply elem_of_app. left. apply elem_of_within. split; [done|lia].
  - left. split; [done|]. destruct Hx as [Hx|(b & Hb & Hx)]; [by left|right; exists b; split; [done|lia]].
Qed.

Lemma K_fetch_history f n limit dn : raw_name f = raw -> f_id f = fid -> (0 < limit)%Z ->
  triple (K rc (known_row n limit) [] dn) (fetch_history root src env account options f v limit)
    (fun _ => K rc (fun x => n <= x.1.1)%Z [] (within 1 limit ++ dn)) K0.
Proof.
  intros Er Ef Hl. unfold fetch_history. rewrite Er, Ef.
  eapply triple_bnd; [apply (K_process_range _ n limit); intros _; repeat split; lia|]. intros m.
  eapply (triple_bnd _ _ _ (fun items s => K rc (known_row n limit) [] (within 1 limit ++ dn) s /\ pending s = items));
    [by apply triple_gets|]. intros items.
  eapply (triple_bnd _ _ _ (fun _ => K rc (fun x => n <= x.1.1)%Z [] (within 1 limit ++ dn)));
    [|intros ?; by apply triple_ret].
  destruct items as [|it items].
  - destruct m as [m|].
    { apply triple_ret. intros s [Hk _]. eapply K_row; [|exact Hk]. by intros x []. }
    eapply triple_conseq; [apply (K_write_cursors _ _ _ _ (updates_allowed _ _ _ _ (allowed_done n limit None dn)))| |by intros ? s []|done].
    intros s [Hk Ep]. by apply Kall_empty.
  - eapply triple_conseq; [apply K_commit, (allowed_done n limit m dn)|by intros s []|done|done].
Qed.
End Ranges.

(** ** The flags *)

Section RefreshKeeps.
Context (P : sync_state -> Prop) (HP : forall s s', rel s s' -> P s -> P s').
Lemma stable_token : keeps P (check_token env).
Proof. intros s Hs. unfold check_token, raise_if_cancelled. by case_match. Qed.
Section Queue.
Context (google : bool) (f : folder) (seen_at : string) (items : list (Z * (message * membership))).
Context (Hf : f_id f = fid).

Lemma stable_refresh_stream touch answer :
  keeps P (refresh_stream env account google f v seen_at items touch answer).
Proof.
  unfold refresh_stream. apply keeps_bnd; [apply (stable_dur P _ HP), cext_ask|]. intros a. apply keeps_bnd.
  - generalize (@nil Z), empty_queue. induction a.1 as [|r l IH]; intros x q; cbn [refresh_loop]; [apply keeps_ret|].
    apply keeps_bnd; [apply stable_token|]. intros ?. case_match; [|apply IH].
    apply keeps_bnd; [|intros ?; apply IH]. apply (stable_dur P _ HP). case_match; by apply cext_flush_full.
  - intros out. apply keeps_bnd; [unfold end_of; case_match; [apply keeps_throw|apply keeps_ret]|]. intros ?.
    apply keeps_bnd; [apply stable_token|]. intros ?. apply keeps_ret.
Qed.
Lemma stable_refresh_known expired cond ahead current saved :
  keeps P (refresh_known src env account google f v seen_at items expired cond ahead current saved).
Proof.
  assert (forall q, keeps P (dur (flush_flag_updates env account google f v seen_at items q))) as HF.
  { intros q. by apply (stable_dur P _ HP), cext_flush. }
  assert (forall x, keeps P (dur (save_modseq f x))) as HM.
  { intros x. by apply (stable_dur P _ HP), cext_modseq. }
  assert (forall t a k, (forall x, keeps P (k x)) -> keeps P (mbnd (B := unit)
    (refresh_stream env account google f v seen_at items t a) k)) as HS.
  { intros t a k Hk. apply keeps_bnd; [apply stable_refresh_stream|done]. }
  unfold refresh_known. cbv zeta. destruct (cond && _).
  { apply HS. intros x. apply keeps_bnd; [apply HF|]. intros ?. destruct current; [apply HM|apply keeps_ret]. }
  assert (keeps P (let! out := refresh_stream env account google f v seen_at items true
      (fun n => src_flags src n (raw_name f) (sorted_uids expired)) in
    dur (flush_flag_updates env account google f v seen_at items out.2) ;!
    mwhen (negb cond && (if saved is Some _ then true else false)) (dur (save_modseq f None)))) as Hlast.
  { apply HS. intros x. apply keeps_bnd; [apply HF|]. intros ?. apply keeps_when, HM. }
  destruct (if cond then saved else None), current; try exact Hlast.
  apply HS. intros x. apply keeps_bnd; [by apply (stable_dur P _ HP), cext_touch_all|]. intros q.
  apply keeps_bnd; [apply HF|]. intros ?. apply HM.
Qed.
End Queue.
Lemma stable_refresh_flags google f : f_id f = fid -> f_uidvalidity f = Some v ->
  keeps P (refresh_flags src env account options google f).
Proof.
  intros Ef Ev. unfold refresh_flags. rewrite Ev. cbv zeta. cbn [get_or]. apply keeps_if; [apply keeps_ret|].
  apply keeps_bnd; [apply keeps_gets|]. intros now. apply keeps_bnd; [apply (stable_dur P _ HP); cx|]. intros rows.
  apply keeps_bnd; [apply (stable_dur P _ HP), cext_ask|]. intros rep.
  apply keeps_if; [|by apply stable_refresh_known]. apply keeps_when. by apply (stable_dur P _ HP), cext_modseq.
Qed.
End RefreshKeeps.

(** ** The folder *)

Definition all_recorded (d : Db) : Prop := forall u, u ∈ live -> recorded d u.
(** The UIDs behind the cursors a folder starts from: last seen, limit of the history, complete. *)
Definition start_rc (x : Z * Z * bool) : list Z :=
  List.filter (fun u => (u <=? x.1.1)%Z && (x.2 || (x.1.2 <? u)%Z)) live.
Lemma elem_of_start u x : u ∈ start_rc x <-> u ∈ live /\ (u <= x.1.1)%Z /\ (x.2 = true \/ (x.1.2 < u)%Z).
Proof.
  unfold start_rc. rewrite list_elem_of_In, filter_In, <- list_elem_of_In, andb_true_iff, orb_true_iff, Z.leb_le, Z.ltb_lt.
  done.
Qed.
Lemma K_ask {A} rc F ex dn (f : nat -> result A) : triple (K rc F ex dn) (request f)
  (fun a s => K rc F ex dn s /\ exists n, f n = Ok a) K0.
Proof.
  intros s Hs. pose proof (K_request rc F ex dn f s Hs) as H. unfold request, dur, ask in *.
  cbn in *. destruct (f (ticks (world s))) as [a|e] eqn:E; [|done]. split; [done|]. by eexists.
Qed.
Lemma Kall_commit_if rc F dn : triple (K rc F [] dn) (commit_if_pending env account) (fun _ => Kall rc F [] dn) K0.
Proof.
  unfold commit_if_pending.
  eapply (triple_bnd _ _ _ (fun items s => K rc F [] dn s /\ pending s = items)); [by apply triple_gets|].
  intros [|it l].
  - apply triple_ret. intros s [Hk Ep]. by apply Kall_empty.
  - eapply triple_conseq; [apply (Kall_commit rc), allowed_none|by intros s []|done|done].
Qed.

Lemma all_kept rc F n limit c m (history : bool) dn s :
  (forall u, u ∈ start_rc (n, limit, c) -> u ∈ rc) -> history = negb c && (0 <? limit)%Z ->
  (forall u, u ∈ live -> (m < u)%Z -> u ∈ dn) ->
  (forall u, u ∈ (if history then within 1 limit else []) ++ within (n + 1) m -> u ∈ dn) ->
  Kall rc F [] dn s -> all_recorded (view (world s)).
Proof.
  intros Hrc Hh Hnew Hold [(_ & _ & _ & Hd & Hr) Ha] u Hu. pose proof (mb_positive Hmb u Hu).
  assert (u ∈ dn -> recorded (view (world s)) u) as Hdn.
  { intros Hin. destruct (Ha u (Hd u Hin)) as [?%elem_of_nil|?]; done. }
  destruct (decide (m < u)%Z); [by apply Hdn, Hnew|]. destruct (decide (n < u)%Z).
  { apply Hdn, Hold, elem_of_app. right. apply elem_of_within. split; [done|lia]. }
  destruct (decide (c = true \/ (limit < u)%Z)) as [Hc|Hc].
  { apply Hr, Hrc, elem_of_start. cbn. split; [done|]. split; [lia|done]. }
  apply Hdn, Hold, elem_of_app. left. destruct c; [by destruct Hc; left|].
  assert (history = true) as -> by (rewrite Hh; apply Z.ltb_lt; lia). apply elem_of_within. split; [done|lia].
Qed.

Lemma K_fetch_messages f n limit c : raw_name f = raw -> f_id f = fid ->
  triple (K (start_rc (n, limit, c)) (known_row n limit) [] [])
    (fetch_messages root src env account options f v (n, limit, c))
    (fun _ s => K0 s /\ all_recorded (view (world s))) K0.
Proof.
  intros Er Ef. set (rc := start_rc (n, limit, c)). unfold fetch_messages. rewrite Er, Ef.
  eapply triple_bnd; [apply K_retry_pending|]. intros ?.
  eapply triple_bnd; [by apply K_fetch_new|]. intros m.
  set (history := negb c && (0 <? limit)%Z).
  set (dn := ((if history then within 1 limit else []) ++ within (n + 1) m ++ [])%list).
  eapply (triple_bnd _ _ _ (fun _ => K rc (fun x => m <= x.1.1)%Z [] dn)).
  { subst dn. destruct history eqn:E; [apply K_fetch_history; [done..|subst history; bsimp; lia]|].
    apply triple_ret. intros s. apply K_row. by intros x []. }
  intros c'. eapply (triple_bnd _ _ _ (fun _ => K rc (fun x => m <= x.1.1)%Z [] dn)); [by apply triple_modify|].
  intros ?. eapply triple_bnd; [apply K_ask|]. intros catchup. apply triple_pure. intros [t Hmax].
  assert (forall u, u ∈ live -> (u <= catchup)%Z) as Hle by (intros u Hu; by eapply (mb_max Hmb)).
  eapply (triple_bnd _ _ _ (fun _ s => K0 s /\ all_recorded (view (world s)))); [|intros ?; by apply triple_ret].
  case_match eqn:Ec.
  - eapply triple_bnd; [by apply (K_process_range _ _ m 0)|]. intros ?.
    eapply triple_conseq; [apply (Kall_commit rc), (allowed_new m catchup (fun x => m <= x.1.1)%Z dn); by intros x|done| |done].
    intros ? s Hk. split; [apply Hk|]. eapply (all_kept rc _ n limit c m history); [done|done| | |exact Hk].
    + intros u Hu Hm. apply elem_of_app. left. apply elem_of_within. split; [done|]. specialize (Hle u Hu). lia.
    + intros u Hu. apply elem_of_app. right. subst dn. by rewrite app_nil_r.
  - eapply triple_conseq; [apply (Kall_commit_if rc)|done| |done].
    intros ? s Hk. split; [apply Hk|]. eapply (all_kept rc _ n limit c m history); [done|done| | |exact Hk].
    + intros u Hu Hm. specialize (Hle u Hu). lia.
    + intros u Hu. subst dn. by rewrite app_nil_r.
Qed.

(** The cursors a folder starts from. *)
Lemma row_is f d : wf d -> f ∈ folders d -> f_id f = fid ->
  on_row d (fun x => f_uidvalidity f = Some v /\ x = cursors f).
Proof.
  intros Hw Hf Ef g Hg E1 E2. assert (g = f) as -> by (eapply NoDup_map_eq; [apply Hw|done|done|congruence]). done.
Qed.
Lemma updates_initialize m : updates (initialize_sync_cursors fid v m) (fun _ => False)
  (fun x => x = (m, Some m, (m =? 0)%Z)) [] [].
Proof.
  intros d [[Hw Hc] Hcur] HF _. set (d' := initialize_sync_cursors fid v m d).
  assert (on_row d' (fun x => x = (m, Some m, (m =? 0)%Z))) as HF'.
  { intros g' (g & Hg & ->)%elem_of_update_where. case_match eqn:E; [done|]. intros E1. by apply Z.eqb_neq in E. }
  split; [|by split].
  split; [split; [eapply wf_same_keys; [|exact Hw]; unfold d'; same_rows|done]|].
  intros _ g Hg E1 E2 u Hu [H1 H2]. rewrite (HF' g Hg E1 E2) in *. cbn in *. pose proof (mb_positive Hmb u Hu).
  destruct H2 as [H2%Z.eqb_eq|(b & [= <-] & H2)]; lia.
Qed.
Lemma allowed_backfill f m : (forall u, u ∈ live -> (u <= m)%Z) ->
  allowed (Some (Cursor fid None (Some m) (Some (initial_sync_completed f)))) (fun x => x = cursors f)
    (known_row (last_seen_uid f) m) [] [].
Proof.
  intros Hm. split; [by intros c [= <-]| |].
  - intros _ c x u [= <-] -> Hu [H1 H2]. cbn in *. specialize (Hm u Hu). left. split; [done|].
    destruct H2 as [H2|(b & [= <-] & H2)]; [by left|lia].
  - intros x ->. cbn. split; [done|right]. by exists m.
Qed.

Definition fresh_run (f : folder) (s : sync_state) : Prop :=
  K0 s /\ f ∈ folders (view (world s)) /\ pending s = [] /\ attempted s = [] /\ cursor_ok (view (world s)).
Lemma fresh_Kall rc f F s : fresh_run f s -> on_row (view (world s)) F ->
  (forall u, u ∈ rc -> recorded (view (world s)) u) -> Kall rc F [] [] s.
Proof.
  intros (H0 & Hf & Ep & Ea & _) HF Hrc. split; [|rewrite Ea; by intros ? ?%elem_of_nil].
  split; [done|]. split; [done|]. rewrite Ea. split; [by intros ? ?%elem_of_nil|].
  split; [by intros ? ?%elem_of_nil|done].
Qed.
Lemma Kall_request {A} rc F (f : nat -> result A) : triple (Kall rc F [] []) (request f)
  (fun a s => Kall rc F [] [] s /\ exists n, f n = Ok a) K0.
Proof.
  intros s Hs. pose proof (Kall_K0 rc F [] (ask f) (cext_ask f) s Hs) as H. unfold request, dur, ask in *.
  cbn in *. destruct (f (ticks (world s))) as [a|e] eqn:E; [|done]. split; [done|]. by eexists.
Qed.

(** A new generation of UIDs: nothing is behind the new cursors. *)
Lemma K_start_new f : raw_name f = raw -> f_id f = fid -> f_uidvalidity f <> Some v ->
  triple (fresh_run f) (start_cursors src env account f v)
    (fun x => K (start_rc x) (known_row x.1.1 x.1.2) [] []) K0.
Proof.
  intros Er Ef Hv. unfold start_cursors. rewrite Er, Ef.
  assert ((f_uidvalidity f != Some v) = true) as -> by (apply negb_true_iff; by apply Prelude.eqb_false).
  apply (triple_conseq _ (Kall [] (fun _ => False) [] []) _ _
    (fun x s => Kall [] (known_row x.1.1 x.1.2) [] [] s /\ start_rc x = []) _ K0); [| | |done].
  - eapply triple_bnd; [apply Kall_request|]. intros m. apply triple_pure. intros _.
    eapply triple_bnd; [apply K_write_cursors, updates_initialize|]. intros ?.
    eapply triple_bnd; [apply Kall_K0; cx|]. intros ts. eapply triple_bnd; [apply Kall_K0; cx|]. intros ?.
    apply triple_ret. intros s [Hk Ha]. split; [split; [|done]|].
    + eapply K_row; [|exact Hk]. intros x ->. split; cbn; [lia|]. right. exists m. split; [done|lia].
    + destruct (start_rc (m, m, (m =? 0)%Z)) as [|u l] eqn:E; [done|].
      assert (u ∈ start_rc (m, m, (m =? 0)%Z)) as (Hu & H1 & H2)%elem_of_start by (rewrite E; by left).
      cbn in *. pose proof (mb_positive Hmb u Hu). destruct H2 as [H2%Z.eqb_eq|H2]; lia.
  - intros s Hs. eapply fresh_Kall; [exact Hs| |by intros ? ?%elem_of_nil].
    destruct Hs as ((_ & [[Hw _] _] & _) & Hf & _). intros g Hg E1 E2.
    by destruct (row_is f _ Hw Hf Ef g Hg E1 E2) as [H _].
  - intros x s [[Hk _] ->]. done.
Qed.

(** The known generation: what is behind the cursors is recorded. *)
Lemma K_start_known f : raw_name f = raw -> f_id f = fid -> f_uidvalidity f = Some v ->
  triple (fresh_run f) (start_cursors src env account f v)
    (fun x => K (start_rc x) (known_row x.1.1 x.1.2) [] []) K0.
Proof.
  intros Er Ef Hv. unfold start_cursors. rewrite Er, Ef, Hv. rewrite Prelude.eqb_refl. cbn [negb].
  set (rc := List.filter (fun u => (u <=? last_seen_uid f)%Z
    && (initial_sync_completed f || if backfill_next_uid f is Some b then (b <? u)%Z else false)) live).
  assert (forall u, u ∈ rc -> u ∈ live /\ behind (cursors f) u) as Hin.
  { intros u [Hu Hb]%list_elem_of_In%filter_In. apply list_elem_of_In in Hu. split; [done|].
    apply andb_true_iff in Hb as [H1%Z.leb_le H2]. split; [done|]. apply orb_true_iff in H2 as [H2|H2]; [by left|right].
    cbn. destruct (backfill_next_uid f) as [b|]; [|done]. exists b. split; [done|]. by apply Z.ltb_lt. }
  assert (forall u, u ∈ live -> (u <= last_seen_uid f)%Z -> (initial_sync_completed f = true \/
    exists b, backfill_next_uid f = Some b /\ (b < u)%Z) -> u ∈ rc) as Hout.
  { intros u Hu H1 H2. apply list_elem_of_In, filter_In. split; [by apply list_elem_of_In|].
    apply andb_true_iff. split; [by apply Z.leb_le|]. apply orb_true_iff.
    destruct H2 as [H2|(b & -> & H2)]; [by left|right; by apply Z.ltb_lt]. }
  apply (triple_conseq _ (Kall rc (fun x => x = cursors f) [] []) _ _
    (fun x s => Kall rc (known_row x.1.1 x.1.2) [] [] s /\ forall u, u ∈ start_rc x -> u ∈ rc) _ K0); [| | |done].
  - destruct (backfill_next_uid f) as [b|] eqn:Eb.
    + apply triple_ret. intros s [Hk Ha]. split; [split; [|done]|].
      * eapply K_row; [|exact Hk]. intros x ->. split; cbn; [lia|]. right. exists b. split; [done|lia].
      * intros u (Hu & H1 & H2)%elem_of_start. cbn in *. apply Hout; [done|done|].
        destruct H2; [by left|right; by exists b].
    + eapply triple_bnd; [apply Kall_request|]. intros m. apply triple_pure. intros [n Hn].
      assert (forall u, u ∈ live -> (u <= m)%Z) as Hle by (intros u Hu; by eapply (mb_max Hmb)).
      eapply (triple_bnd _ _ _ (fun _ => Kall rc (known_row (last_seen_uid f) m) [] [])).
      * apply K_write_cursors.
        refine (updates_allowed (Cursor fid None (Some m) (Some (initial_sync_completed f))) _ _ _ _).
        by apply allowed_backfill.
      * intros ?. apply triple_ret. intros s Hk. split; [done|].
        intros u (Hu & H1 & H2)%elem_of_start. cbn in *. apply Hout; [done|done|].
        destruct H2 as [H2|H2]; [by left|]. specialize (Hle u Hu). lia.
  - intros s Hs. pose proof Hs as ((_ & [[Hw _] _] & _) & Hf & _ & _ & Hcur). eapply fresh_Kall; [exact Hs| |].
    + intros g Hg E1 E2. by destruct (row_is f _ Hw Hf Ef g Hg E1 E2).
    + intros u [Hu Hb]%Hin. by eapply Hcur.
  - intros x s [[Hk _] Hsub]. by eapply K_forget.
Qed.
Lemma K_start_cursors f : raw_name f = raw -> f_id f = fid ->
  triple (fresh_run f) (start_cursors src env account f v)
    (fun x => K (start_rc x) (known_row x.1.1 x.1.2) [] []) K0.
Proof.
  intros Er Ef. destruct (decide (f_uidvalidity f = Some v)); [by apply K_start_known|by apply K_start_new].
Qed.

(** Steps that do not look at the items of the run. *)
Definition reset (s : sync_state) : sync_state := set_attempted [] (set_pending [] s).
Definition blind {A} (m : M sync_state A) : Prop :=
  forall s, m (reset s) = (let (r, s') := m s in (r, reset s')).
Lemma blind_dur {A} (m : M World A) : blind (dur m).
Proof. intros s. unfold dur. cbn. by destruct (m (world s)). Qed.
Lemma blind_ret {A} (a : A) : blind (mret a).
Proof. by intros s. Qed.
Lemma blind_bnd {A B} (m : M sync_state A) (k : A -> M sync_state B) :
  blind m -> (forall a, blind (k a)) -> blind (mbnd m k).
Proof. intros Hm Hk s. unfold mbnd. rewrite Hm. destruct (m s) as [[a|e] s']; [apply Hk|done]. Qed.
Lemma triple_blind {A} P (m : M sync_state A) Q E : blind m -> triple P m Q E ->
  triple (fun s => P (reset s)) m (fun a s => Q a (reset s)) (fun s => E (reset s)).
Proof. intros Hb Hm s Hs. specialize (Hm _ Hs). rewrite Hb in Hm. by destruct (m s) as [[a|e] s']. Qed.
Lemma blind_start f : blind (start_cursors src env account f v).
Proof.
  unfold start_cursors. repeat first [case_match | apply blind_bnd; [apply blind_dur|intros ?] | apply blind_ret].
Qed.

(** ** The run of a folder *)

Definition settled (s : sync_state) : Prop :=
  K0 s /\ all_recorded (committed (world s)) /\ all_recorded (view (world s)).
Lemma settled_rel s s' : rel s s' -> settled s -> settled s'.
Proof.
  intros R (H0 & Hc & Hv). split; [by eapply K0_rel|]. destruct R as ([C V] & _).
  destruct H0 as ([Hsc _] & [Hsv _] & _). destruct (V Hsv) as (_ & _ & HR & _). split; [|intros u Hu; by apply HR, Hv].
  intros u Hu. destruct C as [C|C]; [destruct (C Hsc) as (_ & _ & HR' & _)|destruct (C Hsv) as (_ & _ & HR' & _)];
    apply HR'; auto.
Qed.
#[local] Notation shut := (fun o : option Db => o = None).

Lemma K_fetch_folder google f x : raw_name f = raw -> f_id f = fid ->
  triple (fun s => K (start_rc x) (known_row x.1.1 x.1.2) [] [] s /\ idle shut s)
    (fetch_folder root src env account options google f v x) (fun _ => settled) K0.
Proof.
  intros Er Ef. destruct x as [[n limit] c]. unfold fetch_folder. eapply (triple_bnd _ _ _ (fun _ => settled)).
  - eapply triple_conseq; [apply triple_and; [by apply K_fetch_messages|by apply (fetch_messages_idle _ _ _ _ _ shut)]|done| |by intros s []].
    intros c' s [[H0 Ha] [Hw _]]. split; [done|]. split; [|done]. unfold view in Ha. by rewrite Hw in Ha.
  - intros c'. apply (triple_conseq _ settled _ _ (fun _ => settled) _ settled); [|done|done|by intros s []].
    apply keeps_try; [apply stable_refresh_flags; [exact settled_rel|done|done]|]. intros e.
    apply keeps_if; [apply keeps_throw|]. apply keeps_if; [apply keeps_ret|apply keeps_throw].
Qed.

Lemma K_sync_folder google f : raw_name f = raw -> f_id f = fid ->
  triple (fun s => fresh_run f (reset s) /\ working (world s) = None)
    (sync_folder root src env account options google f)
    (fun stopped s => K0 (reset s) /\ (stopped = false -> all_recorded (committed (world s))))
    (fun s => K0 (reset s)).
Proof.
  intros Er Ef. unfold sync_folder. rewrite Er, Ef.
  eapply (triple_bnd _ _ _ (fun v' s => (fresh_run f (reset s) /\ idle shut (reset s)) /\ v' = v)).
  { intros s [(H0 & Hf & Hx) Hw]. unfold request, dur, ask. cbn.
    assert (K0 (reset (set_world (tick (world s)) s))) as H0'.
    { apply (K0_rel (reset s)); [|done]. split; [by apply cext_tick|done]. }
    destruct (src_select_folder _ _ _) eqn:E; [|done]. split; [|by eapply (mb_generation Hmb)].
    split; [by split|]. split; [done|exact LIMIT_positive]. }
  intros v'. apply triple_pure. intros ->.
  eapply (triple_bnd _ _ _ (fun _ s => fresh_run f (reset s) /\ idle shut (reset s))); [by apply triple_modify|].
  intros ?. eapply (triple_bnd _ _ _ (fun x s => K (start_rc x) (known_row x.1.1 x.1.2) [] [] (reset s) /\ idle shut (reset s))).
  { eapply triple_conseq; [apply triple_and; apply triple_blind; [apply blind_start|by apply K_start_cursors
      |apply blind_start|by apply (start_cursors_idle _ _ _ shut)]|done|done|by intros s []]. }
  intros x. eapply (triple_bnd _ _ _ (fun _ s => K (start_rc x) (known_row x.1.1 x.1.2) [] [] s /\ idle shut s)).
  { by apply triple_modify. }
  intros ?. assert (forall s, K0 s -> K0 (reset s)) as Hreset by (by intros s (Hc & Hv & _)).
  eapply (triple_try _ _ _ _ K0).
  - eapply triple_bnd; [eapply triple_conseq; [by apply (K_fetch_folder google f x)|done|done|done]|]. intros ?.
    apply triple_ret. intros s (H0 & Hc & _). split; [by apply Hreset|done].
  - intros e. apply (triple_conseq _ K0 _ _ (fun b s => K0 s /\ b = true) _ K0); [|done| |apply Hreset].
    2: { intros b s [H0 ->]. split; [by apply Hreset|done]. }
    case_match; [|case_match; [|by apply triple_throw]]; (eapply triple_bnd; [apply K0_commit_if|intros ?]);
      [by apply triple_ret|by apply triple_throw].
Qed.
End Cursor.

(** The hypotheses on the run of one folder: its server; no batch is open; the row of the folder is
    in the database, whose tables are well formed, whose messages of the folder are stored at the
    UID the server gives them, and where every message behind the cursors is recorded. *)
Record folder_run (src : source) (account : string) (f : folder) (v : Z) (live : list Z)
    (s : sync_state) : Prop := {
  fr_mailbox : mailbox src (raw_name f) v live;
  fr_closed : working (world s) = None;
  fr_sound : sound src account (raw_name f) (f_id f) v (committed (world s));
  fr_cursors : cursor_ok account (f_id f) v live (committed (world s));
  fr_row : f ∈ folders (committed (world s));
}.
Lemma folder_run_outcome root src env account options google f v live s : folder_run src account f v live s ->
  let out := sync_folder root src env account options google f s in
  good src account (raw_name f) (f_id f) v live (committed (world out.2))
  /\ (out.1 = Ok false -> all_recorded account (f_id f) v live (committed (world out.2))).
Proof.
  intros [Hm Hw Hs Hcur Hf]. cbn zeta.
  pose proof (K_sync_folder root src env account options (raw_name f) (f_id f) v live Hm google f eq_refl eq_refl s) as H.
  assert (view (world s) = committed (world s)) as Ev by (unfold view; by rewrite Hw).
  assert (fresh_run src account (raw_name f) (f_id f) v live f (reset s)) as Hfresh.
  { split; [|unfold reset; cbn; by rewrite Ev].
    split; [by split|]. split; [|constructor]. unfold reset. cbn. rewrite Ev. by split. }
  unfold post in H. destruct (sync_folder root src env account options google f s) as [[b|e] s'].
  - destruct H as [(Hc & _) Ha]; [done|]. cbn. split; [done|]. intros [= ->]. by apply Ha.
  - destruct H as (Hc & _); [done|]. by cbn.
Qed.

(** C23. The sync cursors of a folder never pass a message that is not recorded, as long as the
    server answers in the order of the request ([in_order]; the client does not check it, see
    [unordered_answer_loses_message]). From a database in which every message behind the folder's
    cursors is recorded (stored at its UID, or listed as a failure to retry), and the messages of the
    folder are stored at the UIDs the server gives them, [sync_folder] commits only databases in which
    every message behind the cursors is recorded: whichever operation of the disk, the database or
    the manifest fails, whichever command the server refuses, and wherever the run is cancelled.
    This is about the messages that stay in the folder during the run, for a server with one
    UIDVALIDITY whose answers keep to the range asked for and are whole when they end without an
    error ([mailbox]). *)
Theorem folder_sync_keeps_cursors root src env account options google f v live s :
  folder_run src account f v live s -> in_order src (raw_name f) live ->
  cursor_ok account (f_id f) v live
    (committed (world (sync_folder root src env account options google f s).2)).
Proof.
  intros H Ho. destruct (folder_run_outcome root src env account options google f v live s H) as [[_ Hc] _]. by apply Hc.
Qed.

(** C4. A folder that synchronizes to its end misses nothing, in whatever order the server answers:
    from a database with no batch open in which every message behind the folder's cursors is recorded
    and the messages of the folder are stored at the UIDs the server gives them, when [sync_folder]
    returns without having been cancelled, every message that stayed in the folder during the run is
    recorded in the committed database, stored at its UID or listed as a failure to retry. The server
    has one UIDVALIDITY, its answers keep to the range asked for and are whole when they end without
    an error, and a message has one UID ([mailbox]). *)
Theorem folder_sync_records_all root src env account options google f v live s :
  folder_run src account f v live s ->
  (sync_folder root src env account options google f s).1 = Ok false ->
  forall u, u ∈ live ->
    recorded account (f_id f) v (committed (world (sync_folder root src env account options google f s).2)) u.
Proof. intros H. by destruct (folder_run_outcome root src env account options google f v live s H) as [_ ?]. Qed.

(** ** A folder with two messages *)

Lemma sample_whole n lo hi u : u ∈ [1; 2]%Z -> (lo <= u <= hi)%Z ->
  u ∈ map ref_uid (src_refs sample_source n "INBOX" lo hi).1.
Proof.
  intros Hu Hr. cbn [sample_source src_refs fst].
  assert (exists r, r ∈ [sample_ref 2; sample_ref 1] /\ ref_uid r = u) as (r & Hr1 & <-).
  { apply elem_of_cons in Hu as [->| ->%list_elem_of_singleton];
      [exists (sample_ref 1) | exists (sample_ref 2)]; (split; [|reflexivity]); set_solver. }
  apply list_elem_of_fmap. exists r. split; [done|]. apply list_elem_of_In, filter_In.
  split; [by apply list_elem_of_In|]. apply andb_true_iff. rewrite !Z.leb_le. lia.
Qed.
Lemma sample_in_order : in_order sample_source "INBOX" [1; 2]%Z.
Proof.
  split.
  - intros n lo hi. cbn [sample_source src_refs fst List.filter ref_uid sample_ref].
    repeat case_match; repeat constructor. cbn. lia.
  - intros n lo hi u r Hu Hr _ _. by apply sample_whole.
Qed.
Lemma sample_mailbox : mailbox sample_source "INBOX" 7 [1; 2]%Z.
Proof.
  assert (forall lo hi (r : message_ref), r ∈ (src_refs sample_source 0 "INBOX" lo hi).1 ->
    (r = sample_ref 2 \/ r = sample_ref 1) /\ (lo <= ref_uid r <= hi)%Z) as Hin.
  { intros lo hi r [Hr Hb]%list_elem_of_In%filter_In. apply andb_true_iff in Hb as [H1%Z.leb_le H2%Z.leb_le].
    cbn in Hr. intuition. }
  split.
  - by intros n v' [= <-].
  - intros n m u [= <-]. clear Hin. set_unfold. lia.
  - clear Hin. set_unfold. lia.
  - intros n lo hi r Hr. exact (proj2 (Hin lo hi r Hr)).
  - intros n lo hi u Hu Hr _. by apply sample_whole.
  - intros r r' k (n & lo & hi & H) (n' & lo' & hi' & H').
    destruct (Hin lo hi r H) as [Hr _], (Hin lo' hi' r' H') as [Hr' _].
    destruct Hr as [->| ->], Hr' as [->| ->]; try done; vm_compute; congruence.
Qed.
Lemma sample_folder_run : folder_run sample_source "acct" sample_folder 7 [1; 2]%Z (initial_state sample_world).
Proof.
  split; [exact sample_mailbox|done|split| |by left].
  - split; cbn; repeat first [apply NoDup_nil_2 | apply NoDup_singleton | constructor]; cbn; lia.
  - by intros mf m r Hmf%elem_of_nil.
  - intros g Hg E1 E2. cbn in Hg. apply list_elem_of_singleton in Hg as ->. done.
Qed.

Definition sample_folder_outcome : result bool * sync_state :=
  sync_folder ["root"%string] sample_source sample_env "acct" sample_options false sample_folder
    (initial_state sample_world).
Definition sample_cursors : list (Z * option Z * bool) :=
  map cursors (folders (committed (world sample_folder_outcome.2))).

Lemma folder_sync_keeps_cursors_witness :
  cursor_ok "acct" 1 7 [1; 2]%Z (committed (world sample_folder_outcome.2))
  /\ sample_cursors = [(2, Some 0, true)]%Z.
Proof.
  split; [|vm_compute; reflexivity]. exact (folder_sync_keeps_cursors _ _ _ _ _ _ _ _ _ _ sample_folder_run sample_in_order).
Defined.
Lemma folder_sync_records_all_witness :
  recorded "acct" 1 7 (committed (world sample_folder_outcome.2)) 2
  /\ map (fun mf => (uidvalidity mf, uid mf)) (memberships (committed (world sample_folder_outcome.2)))
     = [(Some 7, Some 2); (Some 7, Some 1)]%Z.
Proof.
  split; [|vm_compute; reflexivity].
  apply (folder_sync_records_all ["root"%string] sample_source sample_env "acct" sample_options false sample_folder 7
    [1; 2]%Z (initial_state sample_world)); [exact sample_folder_run|vm_compute; reflexivity|set_solver].
Defined.

(** ** A server that answers out of order

    The client sorts the UIDs it asks for, but yields the answers as they come. The history of 101
    messages is answered from the lowest UID on and, after a full batch, the server wants a new login:
    the history counts as complete, and the message that was to come is behind the cursors. The next
    run, in which nothing fails, returns without having asked for it. *)
Definition ascending : list message_ref := map (fun n => sample_ref (Z.of_nat n)) (seq 1 101).
Definition unordered_source (broken : bool) : source := Source (fun _ _ => Ok 7%Z) (fun _ _ => Ok 101%Z)
  (fun _ _ lo hi => (List.filter (fun r => (lo <=? ref_uid r) && (ref_uid r <=? hi))%Z ascending, None))
  (fun _ _ _ => ([], None)) (fun _ _ _ => ([], None)) (fun _ => Ok JNull) [] (fun _ _ => Ok [])
  (fun _ _ u => if broken && (u =? 101)%Z then raise AuthenticationError "session expired" else Ok [65; 66; 67]%Z)
  (fun _ _ _ => Ok []).
Definition unordered_run (broken : bool) (w : World) : result bool * sync_state :=
  sync_folder ["root"%string] (unordered_source broken) sample_env "acct" sample_options false
    (default sample_folder (head (folders (committed w)))) (initial_state w).
Definition uids_of (w : World) : list (option Z) := map uid (memberships (committed w)).
Lemma unordered_answer_loses_message :
  let w1 := world (unordered_run true sample_world).2 in
  let r2 := unordered_run false w1 in let w2 := world r2.2 in
  r2.1 = Ok false /\ map cursors (folders (committed w1)) = [(101, Some 0, true)]%Z
  /\ uids_of w2 = map (fun n => Some (Z.of_nat n)) (seq 1 100) /\ sync_failures (committed w2) = [].
Proof. vm_compute. done. Qed.
