(* ===== verification/SyncFindings.v ===== *)
(** * SyncFindings: what repeated synchronizations do to moved messages

    Runs of [sync_account] and [force_fetch_message] of [usecases/sync_mail.py] on small servers,
    evaluated: the state recorded for a moved message does not survive the next run, a message that
    failed to parse and was then moved stops every later run of its account, and a forced fetch of
    a Gmail message is recorded under two identities. *)

From S2P Require Import Prelude Errors PyTime Identity Json Manifest Database World Sha256.
From S2P Require Import EmlStorage DeleteRemote Retry Snapshots Sync SyncDurable.

(** A server with the folders INBOX and Archive, each with the messages of the UIDs given; every
    message has the same content. *)
Definition serve (inbox archive : list Z) (gmail : option string) : source :=
  let uids (raw : string) := if (raw == "INBOX"%string) then inbox else archive in
  let ref (u : Z) := Ref u None (Some (DateTime 2024 4 30 8 0 0 0)) (Some 3%Z) [] gmail None None in
  Source (fun _ _ => Ok 7%Z) (fun _ raw => Ok (foldr Z.max 0%Z (uids raw)))
    (fun _ raw lo hi => (map ref (List.filter (fun u => (lo <=? u) && (u <=? hi))%Z (uids raw)), None))
    (fun _ _ _ => ([], None)) (fun _ _ _ => ([], None)) (fun _ => Ok JNull) []
    (fun _ raw => Ok (uids raw)) (fun _ _ _ => Ok [65; 66; 67]%Z) (fun _ _ _ => Ok []).

(** An environment whose parser reports the error given. *)
Definition parser_env (error : option string) : environment :=
  Env (fun _ => DateTime 2024 5 1 12 0 0 0) (fun _ => false)
    (fun _ _ => Ok (Parsed "hello" "a@example.com" "" "" None (Some "<1@x>"%string) None None None
                     None "text" [] false error))
    (fun s => s) (fun _ => "0123"%string) (fun _ => 1%nat) (fun _ a _ => a).
Definition two_folders : World :=
  MkWorld (MkDb [sample_account]
    [Folder 1 "acct" "INBOX" "INBOX" None 0 true None None false None;
     Folder 2 "acct" "Archive" "Archive" None 0 true None None false None] [] [] [] [] [] [] [] 3 1 1 1 [] [] 1)
    None [] [] [] None 0 (fun _ => None) [] [].
Definition run (src : source) (error : option string) (w : World) : result SyncResult * World :=
  sync_account ["root"%string] src (parser_env error) "acct" sample_options w.

(** Three runs: the message is in INBOX; it was moved to Archive; nothing changed. *)
Definition before_move (error : option string) : World := (run (serve [1]%Z [] None) error two_folders).2.
Definition after_move (error : option string) : result SyncResult * World :=
  run (serve [] [1]%Z None) error (before_move error).
Definition next_run (error : option string) : result SyncResult * World :=
  run (serve [] [1]%Z None) error (after_move error).2.
Definition states (w : World) : list (Z * string * option Z) :=
  map (fun mf => (mf_folder_id mf, remote_state mf, moved_to_folder_id mf)) (memberships (committed w)).
Definition event_names (w : World) : list string := omap event_name (synced w).

(** The state recorded for a moved message lasts one run. The run that finds a message gone
    from INBOX and fetched from Archive records it as moved to Archive; the next run, on the same
    server, looks at the same missing UID again, finds the copy in Archive not fetched in this run,
    and overwrites the state with [unknown], the folder it moved to with nothing, appending a
    [remote_state_unknown] event. *)
Lemma moved_state_lasts_one_run :
  states (after_move None).2 = [(1, "moved"%string, Some 2); (2, "present"%string, None)]%Z
  /\ (next_run None).1 = Ok (Synced 0 0 0 0 false)
  /\ states (next_run None).2 = [(1, "unknown"%string, None); (2, "present"%string, None)]%Z
  /\ last (event_names (next_run None).2) = Some "remote_state_unknown"%string.
Proof. vm_compute. repeat split. Qed.

(** A message that could not be parsed and was moved on the server stops every later run of its
    account. The run that follows the move folds the copy in Archive into the message of INBOX, under
    INBOX's identity, and leaves the failure of the copy to be retried; the retry of the next run
    stores the copy under its own identity, for which there is only an alias, and the UID it already
    has in Archive raises a database error out of [sync_account]. Nothing is committed, so the run
    after it starts from the same database. *)
Lemma failed_moved_message_blocks_sync :
  (after_move (Some "bad"%string)).1 = Ok (Synced 1 3 0 1 false)
  /\ map (fun a => (observed_source_item_key a, al_message_id a)) (aliases (committed (after_move (Some "bad"%string)).2))
     = [("imap:QXJjaGl2ZQ:7:1"%string, 1%Z)]
  /\ (next_run (Some "bad"%string)).1 = db_error "SQLite operation failed: add message"
  /\ committed (next_run (Some "bad"%string)).2 = committed (after_move (Some "bad"%string)).2.
Proof. vm_compute. repeat split. Qed.

(** A forced fetch of the message of INBOX. *)
Definition forced : result SyncResult * sync_state :=
  force_fetch_message ["root"%string] (serve [1]%Z [] (Some "1890"%string)) (parser_env None) "acct" "INBOX" 1 7 1
    (initial_state two_folders).

(** A forced fetch of a Gmail message is recorded under two identities: the row is stored under
    the Gmail message id, its fetch event under the folder and UID, since [force_fetch_message] does
    not pass the Gmail id to the event. *)
Lemma forced_fetch_splits_identity :
  map source_item_key (messages (committed (world forced.2))) = ["gmail:1890"%string]
  /\ omap (text_of "source_item_key") (synced (world forced.2)) = ["imap:SU5CT1g:7:1"%string].
Proof. vm_compute. repeat split. Qed.
