(* ===== verification/SyncFolders.v ===== *)
(** * SyncFolders: refreshing the folder list and choosing what to synchronize

    [usecases/sync_folders.py], with the manifest given. The server's folder list is an argument,
    asked once; what is not modelled of a listed folder (its special-use attributes) is not used. *)

From S2P Require Import Prelude Errors PyTime Identity Json Manifest Database DatabaseWf World Sha256.
From S2P Require Import EmlStorage DeleteRemote Retry Snapshots Sync SyncDurable.
Open Scope string_scope.

(** [RemoteFolder] *)
Record remote_folder := RemoteFolder {
  rf_raw_name : string;
  rf_display_name : string;
  rf_uidvalidity : option Z;
  rf_delimiter : option string;
}.
Record FolderRefreshResult := Refreshed { new_count : Z; removed_raw_names : list string }.

Section Folders.
Context (clock : nat -> datetime) (account : string).

(** [existing]: the rows by raw name, the last one of a name. *)
Definition by_raw_name (l : list folder) : list (string * folder) :=
  fold_left (fun d f => dict_set (raw_name f) f d) l [].

(** One folder of the list: its snapshot, then its row; whether it is new. *)
Definition refresh_folder (existing : list (string * folder)) (r : remote_folder) : M World bool :=
  let old := dict_get (rf_raw_name r) existing in
  let target := match old with Some f => is_sync_target f | None => false end in
  record_folder_event clock (rf_raw_name r)
    (folder_event account (rf_raw_name r) (rf_display_name r) (rf_uidvalidity r) (rf_delimiter r) target)
    false ;!
  db_write (upsert_folder (FolderIn account (rf_raw_name r) (Some (rf_display_name r))
    (Some (rf_uidvalidity r)) None (Some target) None None None None)) ;!
  mret (if old is None then true else false).

(** [refresh_folders] *)
Definition refresh_folders (listing : nat -> result (list remote_folder)) : M World FolderRefreshResult :=
  ensure_imap_account account ;!
  let! rows := db_read (list_folders account) in
  let existing := by_raw_name rows in
  let! remote := ask listing in
  let! news := mmap (refresh_folder existing) remote in
  mret (Refreshed (Z.of_nat (length (List.filter id news)))
    (List.filter (fun n => negb (mem n (map rf_raw_name remote))) existing.*1)).

(** [set_sync_target] *)
Definition set_target (raw : string) (enabled : bool) : M World unit :=
  ensure_imap_account account ;!
  let! rows := db_read (list_folders account) in
  match List.find (fun f => raw_name f == raw) rows with
  | None => db_update' (set_sync_target account raw enabled)
  | Some f =>
      record_folder_event clock raw
        (folder_event account (raw_name f) (display_name f) (f_uidvalidity f) None enabled) false ;!
      db_update' (set_sync_target account raw enabled)
  end.
End Folders.

(** ** No folder is enabled *)

Section Enabled.
Context (clock : nat -> datetime) (account : string) (d0 : Db).

(** The folders to synchronize were so in [d0]. *)
Definition enabled_before (d : Db) : Prop :=
  forall g, g ∈ folders d -> is_sync_target g = true ->
    exists f, f ∈ folders d0 /\ f_account_id f = f_account_id g /\ raw_name f = raw_name g
      /\ is_sync_target f = true.
Definition quiet_rows (w : World) : Prop := working w = None /\ enabled_before (committed w).

Lemma rows_io {A} (m : M World A) : keeps quiet_rows m -> keeps quiet_rows (io m).
Proof. intros Hm w Hw. unfold io. destruct (faults w (ticks w)); [done|]. by apply Hm. Qed.
Lemma rows_append e : keeps quiet_rows (man_append e).
Proof. apply rows_io. intros w Hw. by case_match. Qed.
Lemma rows_snapshot raw mk only : keeps quiet_rows (record_folder_event clock raw mk only).
Proof.
  unfold record_folder_event, get_timestamp, record_snapshot. apply keeps_bnd; [apply keeps_gets|]. intros ts.
  apply keeps_bnd; [apply rows_io, keeps_gets|]. intros es. apply keeps_if; [apply keeps_ret|].
  apply keeps_bnd; [apply rows_append|]. intros ?. apply keeps_bnd; [|intros ?; apply keeps_ret].
  apply rows_io. by apply keeps_modify.
Qed.
Lemma rows_upsert f : fi_account_id f = account -> (get_or false (fi_is_sync_target f) = true ->
    exists g, g ∈ folders d0 /\ f_account_id g = account /\ raw_name g = fi_raw_name f /\ is_sync_target g = true) ->
  keeps quiet_rows (db_write (upsert_folder f)).
Proof.
  intros Ea Ht. apply rows_io. intros w [Hw Hd]. unfold view. rewrite Hw. cbn [get_or].
  destruct (upsert_folder f (committed w)) as [[id d']|e] eqn:E; [|by split].
  unfold put_db. rewrite Hw. split; [done|]. cbn. intros g Hg Hgt. unfold upsert_folder in E. rewrite Ea in E.
  destruct (List.find _ _) as [old|].
  - injection E as <- <-. cbn in Hg. apply elem_of_update_where in Hg as (g0 & Hg0 & ->).
    destruct (Hd g0 Hg0) as (f0 & H1 & H2 & H3 & H4); [by case_match|]. exists f0. by case_match.
  - apply rbind_ok in E as (? & _ & [= <- <-]). cbn in Hg. apply elem_of_app in Hg as [Hg|Hg].
    + by apply Hd.
    + apply list_elem_of_singleton in Hg as ->. cbn in *. destruct (Ht Hgt) as (g & ? & ? & ? & ?). by exists g.
Qed.
End Enabled.

Lemma by_raw_name_row l d n f : dict_get n (fold_left (fun d f => dict_set (raw_name f) f d) l d) = Some f ->
  (f ∈ l /\ raw_name f = n) \/ dict_get n d = Some f.
Proof.
  revert d. induction l as [|g l IH]; intros d; cbn [fold_left]; [by right|]. intros [[H1 H2]|H]%IH.
  - left. split; [by right|done].
  - destruct (decide (n = raw_name g)) as [->|Hne].
    + rewrite dict_get_set_eq in H. injection H as <-. left. split; [by left|done].
    + rewrite dict_get_set_ne in H by done. by right.
Qed.

(** Refreshing the folder list enables nothing: whatever the server lists and whichever
    operation fails, a folder that is to be synchronized after [refresh_folders] was to be
    synchronized before it. *)
Lemma refresh_enables_nothing clock account listing w g :
  working w = None ->
  g ∈ folders (committed (refresh_folders clock account listing w).2) -> is_sync_target g = true ->
  exists f, f ∈ folders (committed w) /\ f_account_id f = f_account_id g /\ raw_name f = raw_name g
    /\ is_sync_target f = true.
Proof.
  intros Hw. set (d0 := committed w). assert (quiet_rows d0 w) as Hq by (split; [done|]; intros h Hh Ht; by exists h).
  enough (triple (fun w' => w' = w) (refresh_folders clock account listing) (fun _ => quiet_rows d0) (quiet_rows d0)) as H.
  { specialize (H w eq_refl). unfold post in H.
    destruct (refresh_folders clock account listing w) as [[r|e] w']; destruct H as [_ H]; apply H. }
  unfold refresh_folders. eapply (triple_bnd _ _ _ (fun _ w' => quiet_rows d0 w' /\ committed w' = d0)).
  - intros w' ->. unfold ensure_imap_account, db_read, io, mbnd. destruct (faults w (ticks w)); [done|]. cbn.
    case_match; [|done]. unfold mlift, check. by destruct (negb _).
  - intros ?. eapply (triple_bnd _ _ _ (fun rows w' => quiet_rows d0 w' /\ rows = list_folders account d0)).
    + intros w' [Hq' E]. unfold db_read, io. destruct (faults w' (ticks w')); [done|]. cbn. split; [done|].
      destruct Hq' as [Hw' _]. unfold view. cbn. by rewrite Hw', E.
    + intros rows. apply triple_pure. intros ->. cbv zeta. apply (keeps_bnd (quiet_rows d0)).
      { intros w' Hw'. unfold ask. by destruct (listing _). }
      intros remote. apply keeps_bnd; [|intros ?; apply keeps_ret].
      induction remote as [|r l IH]; cbn [mmap]; [apply keeps_ret|].
      apply keeps_bnd; [|intros b; apply keeps_bnd; [apply IH|intros bs; apply keeps_ret]].
      unfold refresh_folder. apply keeps_bnd; [apply rows_snapshot|]. intros ?.
      apply keeps_bnd; [|intros ?; apply keeps_ret]. apply (rows_upsert account); [done|]. cbn.
      case_match eqn:E; [|done]. intros Ht. apply by_raw_name_row in E as [[H1 H2]|H]; [|done].
      apply list_elem_of_In, filter_In in H1 as [H1%list_elem_of_In Ea]. exists f. bsimp. done.
Qed.

(** ** A refresh between two synchronizations *)

(** What a LIST answer says of two folders: no UIDVALIDITY. *)
Definition sample_listing : nat -> result (list remote_folder) := fun _ =>
  Ok [RemoteFolder "INBOX" "INBOX" None (Some "/"); RemoteFolder "Sent" "Sent" None (Some "/")].
Definition sample_refresh : result FolderRefreshResult * World :=
  refresh_folders (clock sample_env) "acct" sample_listing sample_run.2.
Definition sync_again (w : World) : result SyncResult * World :=
  sync_account ["root"] sample_source sample_env "acct" sample_options w.
Definition folder_state (w : World) : list (string * option Z * Z * bool) :=
  map (fun f => (raw_name f, f_uidvalidity f, last_seen_uid f, is_sync_target f)) (folders (committed w)).

(** Refreshing the folder list makes the next synchronization start over. The list has no
    UIDVALIDITY, and [refresh_folders] writes that over the one the folder's row has; the next run
    takes the folder for a new generation, resets its cursors and downloads its whole history again.
    Without the refresh, the same run on the same server downloads nothing. *)
Lemma refresh_restarts_history :
  folder_state sample_run.2 = [("INBOX", Some 7, 2, true)]%Z
  /\ (sync_again sample_run.2).1 = Ok (Synced 0 0 0 0 false)
  /\ folder_state sample_refresh.2 = [("INBOX", None, 2, true); ("Sent", None, 0, false)]%Z
  /\ (sync_again sample_refresh.2).1 = Ok (Synced 2 6 0 0 false).
Proof. vm_compute. repeat split. Qed.
Close Scope string_scope.
