(* ===== verification/Reindex.v ===== *)
(** * Reindex: rebuilding the database from the manifest

    [reindex] of [usecases/reindex.py] with its helpers, over the durable state: the events are read
    from the manifest of one account, the EML files verified and parsed, the rows written in one
    batch, the audit log after it. The body of [reindex] is cut where its loops are: [gather] (the
    loop over the events), [plan_of] (identity links, purges, snapshots, accounts and folders),
    [prepare] (the loop over the fetched messages), [write_rows] (the batch) and [write_audit].
    [cancelled] tells at each step whether the token is cancelled; progress reports and the log are
    left out. [reindex_pst] is not modelled. *)

From S2P Require Import Prelude Errors PyText PyTime Identity Json Manifest Database World Sha256.
From S2P Require Import EmlStorage DeleteRemote Retry Snapshots Sync.
Open Scope string_scope.

(** ** Data *)

Record ReindexResult := Reindexed {
  ri_accounts : Z; ri_folders : Z; ri_messages : Z; ri_contents : Z; ri_purged : Z; ri_skipped : Z;
  ri_warnings : list string; ri_cancelled : bool }.

(** Account, folder name, UIDVALIDITY, UID. *)
Definition fetch_key : Type := string * string * Z * Z.
(** [_FetchRecord] *)
Record fetch_record := FetchRecord { fr_event : event; fr_key : fetch_key }.
(** [_MessageState]; its [local_state] is never read. *)
Record message_state := State { st_remote : string; st_moved_to : option string }.
(** Account, source item key, path, hash. *)
Definition purge_key : Type := string * string * string * string.
(** (account, alias) to (canonical key, evidence, hash). *)
Definition links : Type := list ((string * string) * (string * string * string)).

(** ** Members of an event *)

(** [_text], [_integer] *)
Definition text (f : string) (e : event) : option string := nonempty (text_of f e).
Definition integer (f : string) (e : event) : option Z := int_of f e.

(** [isinstance(value, int)]: a bool is one. *)
Definition int_or_bool (f : string) (e : event) : option Z :=
  match get f e with Some (JInt n) => Some n | Some (JBool b) => Some (Z.b2z b) | _ => None end.

(** [_internal_date] *)
Definition event_date (e : event) : option datetime := text "internal_date" e ≫= parse_datetime.

(** [_event_key] *)
Definition event_key_of (e : event) : option fetch_key :=
  match text "account_id" e, text "folder_raw_name" e, integer "uid" e, integer "uidvalidity" e with
  | Some a, Some f, Some u, Some v => Some (a, f, v, u)
  | _, _, _, _ => None
  end.
Definition key_account (k : fetch_key) : string := k.1.1.1.
Definition key_folder (k : fetch_key) : string * string := (k.1.1.1, k.1.1.2).

(** [key.startswith(("imap:", "gmail:"))] *)
Definition is_remote_key (key : string) : bool := String.prefix "imap:" key || String.prefix "gmail:" key.

(** [_source_item_key] *)
Definition own_key (f : fetch_record) : result string :=
  let '(_, folder, v, u) := fr_key f in
  match text "gmail_msgid" (fr_event f) with
  | Some g => gmail_source_item_key g
  | None =>
      match text "source_item_key" (fr_event f) with
      | Some k => if is_remote_key k then Ok k else imap_source_item_key folder v u
      | None => imap_source_item_key folder v u
      end
  end.

(** A member that must be [None] or a string, and one that must be a string, with its default. *)
Definition optional_text (f : string) (e : event) : option (option string) :=
  match get f e with None | Some JNull => Some None | Some (JStr s) => Some (Some s) | _ => None end.
Definition text_or (default f : string) (e : event) : option string :=
  match get f e with None => Some default | Some (JStr s) => Some s | _ => None end.

(** [bool(value)] *)
Definition truthy (j : json) : bool :=
  match j with
  | JNull => false
  | JBool b => b
  | JInt n => negb (n =? 0)%Z
  | JFloat t => negb (mem t ["0.0"; "-0.0"])
  | JStr s => s != ""
  | JList l => if l is [] then false else true
  | JObj d => if d is [] then false else true
  end.

(** [_account_record] *)
Definition account_record (e : event) : option account :=
  match text "account_id" e, text "provider_type" e, text "host" e, text "username" e, integer "port" e with
  | Some a, Some p, Some h, Some u, Some n =>
      match text_or "implicit" "tls_mode" e, optional_text "ca_cert_path" e,
            text_or "password" "auth_type" e with
      | Some tls, Some ca, Some auth =>
          match optional_text "oauth_provider" e, optional_text "oauth_client_id" e,
                optional_text "oauth_tenant" e with
          | Some op, Some oc, Some ot =>
              Some (Account a p (text_of "display_name" e) (Some h) (Some n) (Some u)
                      (truthy (get_or (JBool true) (get "is_enabled" e))) tls ca auth op oc ot)
          | _, _, _ => None
          end
      | _, _, _ => None
      end
  | _, _, _, _, _ => None
  end.

(** [_string_list] *)
Definition string_list (f : string) (e : event) : option (list string) := get f e ≫= label_list.

(** A folder row no synchronization target is made of. *)
Definition plain_folder (account name display : string) (uidv : option (option Z)) : folder_in :=
  FolderIn account name (Some display) uidv None (Some false) None None None None.
(** [_folder_record] *)
Definition folder_record (e : event) : option folder_in :=
  match text "account_id" e, text "folder_raw_name" e, text "display_name" e with
  | Some a, Some n, Some d => Some (plain_folder a n d (Some (int_or_bool "uidvalidity" e)))
  | _, _, _ => None
  end.

(** [_state_for_event] *)
Definition state_for_event (e : event) (states : list (fetch_key * message_state)) (k : fetch_key)
    : list (fetch_key * message_state) :=
  if name_in ["delete_detected"; "remote_delete_completed"] e then dict_set k (State "deleted" None) states
  else if name_in ["remote_state_unknown"] e then dict_set k (State "unknown" None) states
  else if name_in ["moved"] e then
    match text "moved_to_folder_raw_name" e with
    | Some d => dict_set k (State "moved" (Some d)) states
    | None => states
    end
  else if name_in ["remote_delete_uncertain"; "remote_delete_intent"] e
  then dict_set k (State "uncertain" None) states
  else states.

(** [_purge_key] *)
Definition purge_key_of (e : event) : option purge_key :=
  match text "account_id" e, text "source_item_key" e, text "relative_path" e, text "file_hash" e with
  | Some a, Some k, Some p, Some h => Some (a, k, p, h)
  | _, _, _, _ => None
  end.

(** ** Identity links *)

(** [_resolve_identity_key]: the keys seen are distinct aliases, so as many steps as there are links
    are enough ([ReindexSafe.resolve_identity_spec]). *)
Fixpoint resolve_loop (fuel : nat) (account : string) (l : links) (seen : list string) (key : string)
    : result string :=
  match dict_get (account, key) l with
  | None => Ok key
  | Some (next, _, _) =>
      if mem key seen then raise StorageError "Manifest identity links contain a cycle" else
      match fuel with
      | O => raise StorageError "Manifest identity links contain a cycle"
      | S fuel => resolve_loop fuel account l (key :: seen) next
      end
  end.
Definition resolve_identity_key (account key : string) (l : links) : result string :=
  resolve_loop (length l) account l [] key.

(** The fetches of a purge: the members that must agree. *)
Definition same_file (path hash : string) (f : fetch_record) : bool :=
  (get "relative_path" (fr_event f) == Some (JStr path)) && (get "file_hash" (fr_event f) == Some (JStr hash)).

(** [_normalize_purge_key] *)
Definition normalize_purge_key (k : purge_key) (fetches : list (fetch_key * fetch_record)) (l : links)
    : result purge_key :=
  let '(account, key, path, hash) := k in
  if is_remote_key key then Ok k else
  match List.filter (fun f => (get "account_id" (fr_event f) == Some (JStr account))
                              && (get "source_item_key" (fr_event f) == Some (JStr key))
                              && same_file path hash f) fetches.*2 with
  | [f] => let? own := own_key f in
           let? resolved := resolve_identity_key account own l in
           Ok (account, resolved, path, hash)
  | _ => Ok k
  end.

(** The first fetch of the message a purge names. *)
Fixpoint purged_fetch (e : event) (k : purge_key) (l : links) (fetches : list fetch_record)
    : result (option event) :=
  let '(_, key, path, hash) := k in
  match fetches with
  | [] => Ok None
  | f :: rest =>
      if member "account_id" (fr_event f) == member "account_id" e then
        let? own := own_key f in
        let? resolved := resolve_identity_key (key_account (fr_key f)) own l in
        if (resolved == key) && same_file path hash f then Ok (Some (fr_event f))
        else purged_fetch e k l rest
      else purged_fetch e k l rest
  end.

(** ** The events *)

Record gathered := Gathered {
  g_accounts : list (string * event);
  g_folders : list ((string * string) * event);
  g_fetches : list (fetch_key * fetch_record);
  g_links : links;
  g_snapshots : list (string * string * event);
  g_states : list (fetch_key * message_state);
  g_purges : list (purge_key * event);
  g_completed : list purge_key;
  g_audit : list (event * string * option event);
}.
Definition nothing : gathered := Gathered [] [] [] [] [] [] [] [] [].

(** [message_identity_linked] *)
Definition add_link (e : event) (l : links) : result links :=
  match text "account_id" e, text "canonical_source_item_key" e, text "alias_source_item_key" e,
        text "evidence_kind" e, text "file_hash" e with
  | Some a, Some canonical, Some alias, Some evidence, Some hash =>
      check (match dict_get (a, alias) l with Some v => v == (canonical, evidence, hash) | None => true end)
        StorageError "Manifest alias maps to multiple canonical messages" ;?
      Ok (dict_set (a, alias) (canonical, evidence, hash) l)
  | _, _, _, _, _ => raise StorageError "Manifest identity link is missing required fields"
  end.

Definition STATE_EVENTS : list string :=
  ["delete_detected"; "remote_state_unknown"; "moved"; "remote_delete_intent"; "remote_delete_completed";
   "remote_delete_uncertain"].

(** The audit entry a state event is remembered for. *)
Definition audit_of (e : event) (related : option event) : list (event * string * option event) :=
  match event_name e with
  | Some n => if mem n ["delete_detected"; "moved"] then [(e, n, related)]
              else if n == "remote_delete_completed" then [(e, "remote_delete", related)] else []
  | None => []
  end.

(** One event of the first loop. *)
Definition gather_event (e : event) (g : gathered) : result gathered :=
  let 'Gathered accounts folders fetches l snapshots states purges completed audit := g in
  if name_in ["account_snapshot"] e then
    Ok match text "account_id" e with
       | Some a => Gathered (dict_set a e accounts) folders fetches l snapshots states purges completed audit
       | None => g
       end
  else if name_in ["folder_snapshot"] e then
    Ok match text "account_id" e, text "folder_raw_name" e with
       | Some a, Some n =>
           Gathered accounts (dict_set (a, n) e folders) fetches l snapshots states purges completed audit
       | _, _ => g
       end
  else if name_in ["message_membership_snapshot"] e then
    Ok match text "account_id" e, text "source_item_key" e with
       | Some a, Some k =>
           Gathered accounts folders fetches l (snapshots ++ [(a, k, e)])%list states purges completed audit
       | _, _ => g
       end
  else if name_in ["message_identity_linked"] e then
    let? l := add_link e l in
    Ok (Gathered accounts folders fetches l snapshots states purges completed audit)
  else if name_in ["fetch"] e then
    Ok match event_key_of e with
       | Some k => Gathered accounts folders (dict_set k (FetchRecord e k) fetches) l snapshots states purges
                     completed audit
       | None => g
       end
  else if name_in STATE_EVENTS e then
    let related := event_key_of e ≫= fun k => option_map fr_event (dict_get k fetches) in
    let states := match event_key_of e with Some k => state_for_event e states k | None => states end in
    Ok (Gathered accounts folders fetches l snapshots states purges completed
          (audit ++ audit_of e related)%list)
  else if name_in ["purge_intent"] e then
    match purge_key_of e with
    | Some k => let? k := normalize_purge_key k fetches l in
                Ok (Gathered accounts folders fetches l snapshots states (dict_set k e purges) completed audit)
    | None => Ok g
    end
  else if name_in ["purged"] e then
    match purge_key_of e with
    | Some k =>
        let? k := normalize_purge_key k fetches l in
        let? related := purged_fetch e k l fetches.*2 in
        Ok (Gathered accounts folders fetches l snapshots states purges (k :: completed)
              (audit ++ [(e, "local_purge", related)])%list)
    | None => Ok g
    end
  else Ok g.

(** ** The plan: what the events say as a whole *)

(** The canonical key of every fetch, and the hash of every canonical message. *)
Fixpoint canonical_fetches (l : links) (fetches : list fetch_record) (hashes : list ((string * string) * string))
    : result (list (fetch_key * string) * list ((string * string) * string)) :=
  match fetches with
  | [] => Ok ([], hashes)
  | f :: rest =>
      let account := key_account (fr_key f) in
      let? own := own_key f in
      let? canonical := resolve_identity_key account own l in
      let hash := text "file_hash" (fr_event f) in
      check (match dict_get (account, own) l with Some (_, _, h) => hash == Some h | None => true end)
        StorageError "Manifest identity link EML hash does not match its fetch" ;?
      check (match hash, dict_get (account, canonical) hashes with
             | Some h, Some previous => previous == h | _, _ => true end)
        StorageError "Canonical message has inconsistent EML hashes" ;?
      let hashes := match hash, dict_get (account, canonical) hashes with
                    | Some h, None => dict_set (account, canonical) h hashes | _, _ => hashes end in
      let? (keys, hashes) := canonical_fetches l rest hashes in
      Ok (dict_set (fr_key f) canonical keys, hashes)
  end.

(** The two checks of the links. *)
Fixpoint check_links (todo l : links) : result unit :=
  match todo with
  | [] => Ok tt
  | ((account, alias), _) :: todo => let? _ := resolve_identity_key account alias l in check_links todo l
  end.
Fixpoint check_link_hashes (todo l : links) (hashes : list ((string * string) * string)) : result unit :=
  match todo with
  | [] => Ok tt
  | ((account, _), (canonical, _, hash)) :: todo =>
      let? key := resolve_identity_key account canonical l in
      check (match dict_get (account, key) hashes with Some h => h == hash | None => true end)
        StorageError "Manifest identity link EML hash does not match its canonical fetch" ;?
      check_link_hashes todo l hashes
  end.

Definition resolve_purge (l : links) (k : purge_key) : result purge_key :=
  let '(account, key, path, hash) := k in
  let? key := resolve_identity_key account key l in Ok (account, key, path, hash).
Fixpoint resolve_purges (l : links) (todo : list (purge_key * event)) (done_ : list (purge_key * event))
    : result (list (purge_key * event)) :=
  match todo with
  | [] => Ok done_
  | (k, e) :: todo => let? k := resolve_purge l k in resolve_purges l todo (dict_set k e done_)
  end.
Fixpoint resolve_completed (l : links) (todo : list purge_key) : result (list purge_key) :=
  match todo with
  | [] => Ok []
  | k :: todo => let? k := resolve_purge l k in let? ks := resolve_completed l todo in Ok (k :: ks)
  end.
(** The last snapshot of every canonical message. *)
Fixpoint resolve_snapshots (l : links) (todo : list (string * string * event))
    (done_ : list ((string * string) * event)) : result (list ((string * string) * event)) :=
  match todo with
  | [] => Ok done_
  | (account, key, e) :: todo =>
      let? key := resolve_identity_key account key l in
      resolve_snapshots l todo (dict_set (account, key) e done_)
  end.

Record plan := Plan {
  pl_canonical : list (fetch_key * string);
  pl_purges : list (purge_key * event);
  pl_completed : list purge_key;
  pl_snapshots : list ((string * string) * event);
  pl_accounts : list (string * account);
  pl_folders : list ((string * string) * folder_in);
  pl_warnings : list string;
}.

(** [accounts], [folders]: the valid snapshots. *)
Definition account_records (d : list (string * event)) : list (string * account) :=
  omap (fun x => option_map (pair x.1) (account_record x.2)) d.
Definition folder_records (accounts : list (string * account)) (d : list ((string * string) * event))
    : list ((string * string) * folder_in) :=
  omap (fun x => match folder_record x.2 with
                 | Some r => if mem x.1.1 accounts.*1 then Some (x.1, r) else None
                 | None => None
                 end) d.

Definition fetch_warnings (accounts : list (string * account)) (folders : list ((string * string) * folder_in))
    (f : fetch_record) : list string :=
  let '(account, folder, _, _) := fr_key f in
  ((if mem account accounts.*1 then [] else [("fetch has no account snapshot: " ++ account)%string])
   ++ (if mem (account, folder) folders.*1 then []
       else [("fetch has no folder snapshot: " ++ account ++ "/" ++ folder)%string]))%list.

Definition plan_of (g : gathered) : result plan :=
  let l := g_links g in
  let fetches := (g_fetches g).*2 in
  check_links l l ;?
  let? (canonical, hashes) := canonical_fetches l fetches [] in
  check_link_hashes l l hashes ;?
  let? purges := resolve_purges l (g_purges g) [] in
  let? completed := resolve_completed l (g_completed g) in
  let? snapshots := resolve_snapshots l (g_snapshots g) [] in
  let accounts := account_records (g_accounts g) in
  let folders := folder_records accounts (g_folders g) in
  Ok (Plan canonical purges completed snapshots accounts folders
       (flat_map (fun x => if account_record x.2 is None then [("invalid account snapshot: " ++ x.1)%string] else [])
          (g_accounts g)
        ++ flat_map (fetch_warnings accounts folders) fetches
        ++ match folders, fetches with
           | [], _ :: _ => ["no valid folder snapshots were available"]
           | _, _ => []
           end)%list).

(** ** The messages *)

(** A message ready to be written, its folder, and the folder it moved to. *)
Record prepared := Prepared {
  pr_row : message_in; pr_contents : option contents_in;
  pr_folder : string * string; pr_destination : option string }.
(** Message id, subject and size of a parsed message. *)
Definition metadata : Type := option string * option string * Z.
Record preparation := Preparation {
  pp_messages : list prepared; pp_contents : Z; pp_purged : Z; pp_skipped : Z;
  pp_warnings : list string; pp_metadata : list ((string * string) * metadata) }.

(** [ParsedMessage()] *)
Definition empty_parsed : parsed := Parsed "" "" "" "" None None None None None None "" [] false None.
(** [json.dumps(labels, ensure_ascii=False)] *)
Definition spaced_labels (l : list string) : string :=
  string_of ([91%Z] ++ Json.join [comma; 32%Z] (map print_string l) ++ [93%Z])%list.
Definition sha_key (hash : string) : string := "sha256:" ++ String.substring 0 32 hash.

Section Reindex.
Context (root : list string) (clock : nat -> datetime) (cancelled : nat -> bool)
  (parse : bytes -> option datetime -> result parsed) (normalize : string -> string).

Definition check_cancel : M World unit := raise_if_cancelled (fun w => cancelled (ticks w)).
Definition on_cancel {A} (m : M World A) (a : A) : M World A :=
  mtry m (fun e => if isinstance e OperationCancelledError then mret a else mthrow e).

(** The events are read one after the other, the token asked after each. *)
Fixpoint gather_loop (es : list event) (g : gathered) : M World gathered :=
  match es with
  | [] => mret g
  | e :: es =>
      io (mret tt) ;! check_cancel ;!
      let! g := mlift (gather_event e g) in gather_loop es g
  end.
Definition gather : M World gathered :=
  let! es := io (mgets synced) in gather_loop es nothing.

(** The row of a fetched message and its membership, the folder ids still to be filled in. *)
Definition rebuilt_row (p : plan) (states : list (fetch_key * message_state)) (f : fetch_record)
    (canonical path hash : string) (size : Z) (x : parsed) (purged : bool) : prepared :=
  let e := fr_event f in
  let '(account, folder, v, u) := fr_key f in
  let state := get_or (State "present" None) (dict_get (fr_key f) states) in
  let labels := match dict_get (account, canonical) (pl_snapshots p) ≫= string_list "gmail_labels" with
                | Some l => Some (labels_text l)
                | None => option_map spaced_labels (string_list "gmail_labels" e)
                end in
  Prepared
    (MessageIn SYNC_COLUMNS
       (Message 0 account (or_else (nonempty (p_message_id x)) (text "message_id" e))
          (get_or (sha_key hash) (nonempty (p_content_key x))) canonical
          (if purged then Purged else Active) None (if purged then None else Some path) (Some hash)
          (Some (p_subject x)) (Some (p_sender x)) (Some (p_recipient x)) (Some (p_cc x))
          (date_iso (p_date_sent x)) (text_of "internal_date" e) (Some size) (p_has_attachment x)
          (p_in_reply_to x) (p_references_ids x) (p_thread_key x) (text "gmail_msgid" e)
          (text "gmail_thrid" e) labels)
       (Membership 0 0 (Some u) (Some v) (st_remote state) None None None None))
    (if purged then None else if p_parse_error x is Some _ then None else Some (message_contents_of x false))
    (account, folder) (st_moved_to state).

(** The EML of a fetch: [None] when it cannot be read. *)
Definition verified (path hash : string) : M World (option bytes) :=
  mtry (let! raw := read_verified root path hash in mret (Some raw))
    (fun e => if isinstance e FileNotFoundError || isinstance e StorageError then mret None else mthrow e).

(** One fetch of the second loop. *)
Definition skip (w : string) (s : preparation) : preparation :=
  Preparation (pp_messages s) (pp_contents s) (pp_purged s) (pp_skipped s + 1)%Z
    (pp_warnings s ++ [w])%list (pp_metadata s).
Definition prepare_fetch (p : plan) (states : list (fetch_key * message_state)) (f : fetch_record)
    (s : preparation) : M World preparation :=
  let e := fr_event f in
  let '(account, _, _, u) := fr_key f in
  match text "relative_path" e, text "file_hash" e with
  | Some path, Some hash =>
      match dict_get (fr_key f) (pl_canonical p) with
      | None => mraise KeyError ""
      | Some canonical =>
          let purged := mem (account, canonical, path, hash) (pl_completed p) in
          let! raw := verified path hash in
          if (if raw is None then negb purged else false)
          then mret (skip ("could not verify EML: " ++ path) s)
          else
            let! x := match raw with
                      | Some c => mlift (parse c (event_date e))
                      | None => mret empty_parsed
                      end in
            let size := get_or (Z.of_nat (length (get_or [] raw))) (int_or_bool "size_bytes" e) in
            let failed := if p_parse_error x is Some _ then true else false in
            mret (Preparation (pp_messages s ++ [rebuilt_row p states f canonical path hash size x purged])%list
                    (pp_contents s + (if purged || failed then 0 else 1))%Z
                    (pp_purged s + (if purged then 1 else 0))%Z (pp_skipped s)
                    (pp_warnings s ++ (if failed then [("EML parse failed: " ++ path)%string] else []))%list
                    (dict_set (account, canonical) (p_message_id x, nonempty (Some (p_subject x)), size)
                       (pp_metadata s)))
      end
  | _, _ => mret (skip ("fetch has no stored EML: " ++ account ++ ":" ++ int_str u) s)
  end.
(** The loop, and whether it was cancelled. *)
Fixpoint prepare_loop (p : plan) (states : list (fetch_key * message_state)) (l : list fetch_record)
    (s : preparation) : M World (preparation * bool) :=
  match l with
  | [] => mret (s, false)
  | f :: l =>
      let! r := attempt (check_cancel ;! prepare_fetch p states f s) in
      match r with
      | Ok s => prepare_loop p states l s
      | Err e => if isinstance e OperationCancelledError then mret (s, true) else mthrow e
      end
  end.
Definition valid_fetches (p : plan) (g : gathered) : list fetch_record :=
  List.filter (fun f => mem (key_folder (fr_key f)) (pl_folders p).*1) (g_fetches g).*2.
Definition prepare (p : plan) (g : gathered) : M World (preparation * bool) :=
  let start := Preparation [] 0 0 0 (pl_warnings p) [] in
  let! stop := on_cancel (check_cancel ;! mret false) true in
  if stop then mret (start, true) else prepare_loop p (g_states g) (valid_fetches p g) start.

(** ** The batch *)

(** What the batch keeps: the ids of the folders and of the messages written. *)
Record ids := Ids { folder_ids : list ((string * string) * Z); message_ids : list ((string * string) * Z) }.

(** The id of a folder, written with a row of its own when it has none yet. *)
Definition folder_for (k : string * string) (i : ids) : M World (Z * ids) :=
  match dict_get k (folder_ids i) with
  | Some id => mret (id, i)
  | None =>
      let! id := db_write (upsert_folder (plain_folder k.1 k.2 k.2 None)) in
      mret (id, Ids (dict_set k id (folder_ids i)) (message_ids i))
  end.
Fixpoint write_folders (l : list ((string * string) * folder_in)) (i : ids) : M World ids :=
  match l with
  | [] => mret i
  | (k, f) :: l =>
      let! id := db_write (upsert_folder f) in
      write_folders l (Ids (dict_set k id (folder_ids i)) (message_ids i))
  end.

(** [message["folder_id"]], [message["moved_to_folder_id"]] *)
Definition placed (r : message_in) (folder : Z) (moved : option Z) : message_in :=
  let mf := mr_membership r in
  MessageIn (mr_columns r) (mr_row r)
    (Membership 0 folder (uid mf) (uidvalidity mf) (remote_state mf) moved (imap_flags mf)
       (flags_seen_at mf) (last_seen_at mf)).
Definition record_key (r : message_in) : string * string := (account_id (mr_row r), source_item_key (mr_row r)).
Definition write_message (x : prepared) (i : ids) : M World ids :=
  match dict_get (pr_folder x) (folder_ids i) with
  | None => mraise KeyError ""
  | Some folder =>
      let! (moved, i) := match pr_destination x with
                         | Some d => let! (id, i) := folder_for (account_id (mr_row (pr_row x)), d) i in
                                     mret (Some id, i)
                         | None => mret (None, i)
                         end in
      let! id := db_write (add_message normalize (placed (pr_row x) folder moved) (pr_contents x)) in
      mret (Ids (folder_ids i) (dict_set (record_key (pr_row x)) id (message_ids i)))
  end.
Fixpoint write_messages (l : list prepared) (i : ids) : M World ids :=
  match l with [] => mret i | x :: l => let! i := write_message x i in write_messages l i end.

Fixpoint write_aliases (todo l : links) (i : ids) : M World unit :=
  match todo with
  | [] => mret tt
  | ((account, alias), (canonical, evidence, _)) :: todo =>
      let! key := mlift (resolve_identity_key account canonical l) in
      match dict_get (account, key) (message_ids i) with
      | None => mraise StorageError "Manifest identity link has no canonical fetch"
      | Some id => db_update' (add_message_identity_alias account alias id evidence) ;!
                   write_aliases todo l i
      end
  end.

(** One entry of a membership snapshot; its members have the types the reader checked. *)
Definition snapshot_membership (account : string) (j : json) (i : ids) : M World (membership * ids) :=
  match j with
  | JObj m =>
      match text "folder_raw_name" m with
      | None => mraise StorageError "Manifest membership snapshot has no folder name"
      | Some name =>
          let! (folder, i) := folder_for (account, name) i in
          let! (moved, i) := match text_of "moved_to_folder_raw_name" m with
                             | Some d => let! (id, i) := folder_for (account, d) i in mret (Some id, i)
                             | None => mret (None, i)
                             end in
          mret (Membership 0 folder (int_of "uid" m) (int_of "uidvalidity" m)
                  (get_or "present" (text_of "remote_state" m)) moved (text_of "imap_flags" m)
                  (text_of "flags_seen_at" m) (text_of "last_seen_at" m), i)
      end
  | _ => mraise StorageError "Manifest membership snapshot contains an invalid entry"
  end.
Fixpoint snapshot_memberships (account : string) (l : list json) (i : ids) : M World (list membership * ids) :=
  match l with
  | [] => mret ([], i)
  | j :: l => let! (mf, i) := snapshot_membership account j i in
              let! (mfs, i) := snapshot_memberships account l i in
              mret (mf :: mfs, i)
  end.
Fixpoint write_snapshots (l : list ((string * string) * event)) (i : ids) : M World unit :=
  match l with
  | [] => mret tt
  | ((account, key), e) :: l =>
      match dict_get (account, key) (message_ids i) with
      | None => mraise StorageError "Membership snapshot has no canonical fetch"
      | Some id =>
          match get "memberships" e with
          | Some (JList entries) =>
              let! (mfs, i) := snapshot_memberships account entries i in
              db_update' (replace_message_memberships id mfs) ;!
              write_snapshots l i
          | _ => mraise StorageError "Manifest membership snapshot is invalid"
          end
      end
  end.
Definition write_rows (p : plan) (l : links) (s : preparation) : M World unit :=
  check_cancel ;!
  begin_batch ;!
  mfor (pl_accounts p) (fun x => let! _ := db_write (upsert_account x.2) in mret tt) ;!
  let! i := write_folders (pl_folders p) (Ids [] []) in
  let! i := write_messages (pp_messages s) i in
  write_aliases l l i ;!
  write_snapshots (pl_snapshots p) i ;!
  commit_batch.

(** ** The audit log *)

(** The value of a TEXT column; a list or an object cannot be bound. *)
Definition column_text (j : json) : result (option string) :=
  match j with
  | JNull => Ok None
  | JStr s => Ok (Some s)
  | JInt n => Ok (Some (int_str n))
  | JBool b => Ok (Some (int_str (Z.b2z b)))
  | JFloat t => Ok (Some t)
  | _ => db_error "SQLite operation failed: record audit"
  end.
(** The size is the integer the fetch event or the parsed message has. *)
Definition column_size (j : json) : option Z :=
  match j with JInt n => Some n | JBool b => Some (Z.b2z b) | _ => None end.

(** [audit_related]: the related event, overlaid with what the parsed message is known by. *)
Definition overlay (m : option metadata) (related : event) : event :=
  match m with
  | None => related
  | Some (id, subject, size) =>
      let put (k : string) (v : option json) (d : event) :=
        match v with Some v => dict_set k v d | None => d end in
      put "size_bytes" (Some (JInt size)) (put "subject" (option_map JStr subject)
        (put "message_id" (option_map JStr id) related))
  end.
(** The key of the message an audit entry is about. *)
Definition audit_key (e : event) (related : option event) (l : links) : result (option string) :=
  let? own := match related with
              | Some r => match event_key_of r with
                          | Some k => let? own := own_key (FetchRecord r k) in Ok (Some own)
                          | None => Ok (text "source_item_key" e)
                          end
              | None => Ok (text "source_item_key" e)
              end in
  match own, event_key_of e, text "account_id" e with
  | None, Some k, _ =>
      let '(account, _, v, u) := k in
      let? key := resolve_identity_key account (int_str v ++ ":" ++ int_str u) l in Ok (Some key)
  | Some own, _, Some account => let? key := resolve_identity_key account own l in Ok (Some key)
  | own, _, _ => Ok own
  end.
(** [_audit_entry] *)
Definition audit_entry (e : event) (operation : string) (related : event) (now : string) : result audit_in :=
  let value (f : string) := match member f e with JNull => member f related | v => v end in
  let? at_ := column_text (get_or (JStr now) (get "timestamp" e)) in
  let? account := column_text (value "account_id") in
  let? id := column_text (value "message_id") in
  let? subject := column_text (value "subject") in
  Ok (AuditIn at_ (Some operation) account id subject (column_size (value "size_bytes"))
        (Some ("reconstructed from " ++ get_or "manifest" (event_name e) ++ " event"))).
Definition write_audit_entry (l : links) (s : preparation) (x : event * string * option event) : M World unit :=
  let '(e, operation, related) := x in
  let! key := mlift (audit_key e related l) in
  let known := match text "account_id" e, key with
               | Some a, Some k => dict_get (a, k) (pp_metadata s)
               | _, _ => None
               end in
  let! now := mgets (fun w => isoformat (clock (ticks w))) in
  let! entry := mlift (audit_entry e operation (overlay known (get_or [] related)) now) in
  db_update' (record_audit entry).

(** ** [reindex] *)

Definition cancelled_result (warnings : list string) : ReindexResult :=
  Reindexed 0 0 0 0 0 0 warnings true.
Definition incomplete_warnings (p : plan) : list string :=
  flat_map (fun x => if mem x.1 (pl_completed p) then [] else
                     [("incomplete purge intent: " ++ x.1.1.1.2)%string]) (pl_purges p).
Definition result_of (p : plan) (s : preparation) : ReindexResult :=
  Reindexed (Z.of_nat (length (pl_accounts p))) (Z.of_nat (length (pl_folders p)))
    (Z.of_nat (length (pp_messages s))) (pp_contents s) (pp_purged s) (pp_skipped s)
    (pp_warnings s ++ incomplete_warnings p)%list false.
(** The second [try] block: the messages prepared, and whether the run was cancelled. *)
Definition rebuild (p : plan) (g : gathered) : M World (preparation * bool) :=
  let! (s, stop) := prepare p g in
  if stop then mret (s, true)
  else on_cancel (write_rows p (g_links g) s ;! mret (s, false)) (s, true).
Definition reindex : M World ReindexResult :=
  let! g := on_cancel (let! g := gather in mret (Some g)) None in
  match g with
  | None => mret (cancelled_result [])
  | Some g =>
      let! p := mlift (plan_of g) in
      let! (s, stop) := rebuild p g in
      if stop then mret (cancelled_result (pp_warnings s))
      else mfor (g_audit g) (write_audit_entry (g_links g) s) ;! mret (result_of p s)
  end.
End Reindex.
Close Scope string_scope.
