(* ===== verification/ReindexSamples.v ===== *)
(** * ReindexSamples: a synchronized world to rebuild

    The concrete input of the witnesses of the theorems on [Reindex]: an account whose folders were
    refreshed and whose messages were synchronized, then the database replaced by an empty one. *)

From S2P Require Import Prelude Errors PyTime Identity Json Manifest Database World Sha256.
From S2P Require Import EmlStorage DeleteRemote Retry Snapshots Sync SyncDurable SyncFindings SyncFolders Reindex.

Definition root_path : list string := ["root"%string].
Definition sample_clock (_ : nat) : datetime := DateTime 2024 5 2 12 0 0 0.
Definition uncancelled (_ : nat) : bool := false.
Definition sample_parse : bytes -> option datetime -> result parsed := parse (parser_env None).

Definition new_account : World :=
  MkWorld (MkDb [sample_account] [] [] [] [] [] [] [] [] 1 1 1 1 [] [] 1) None [] [] [] None 0 (fun _ => None) [] [].
Definition listing : list remote_folder :=
  [RemoteFolder "INBOX" "INBOX" None None; RemoteFolder "Archive" "Archive" None None].
(** The account with its folders enrolled, then with one message of INBOX synchronized. *)
Definition enrolled : World :=
  ((record_account_snapshot sample_clock sample_account false ;!
    refresh_folders sample_clock "acct" (fun _ => Ok listing) ;!
    set_target sample_clock "acct" "INBOX" true ;! set_target sample_clock "acct" "Archive" true) new_account).2.
Definition stored_one : World := (run (serve [1]%Z [] None) None enrolled).2.
(** Its database is replaced by an empty one; and its files are lost as well. *)
Definition to_rebuild : World := set_working None (set_committed empty_db stored_one).
Definition files_lost : World := set_fs [] to_rebuild.

Definition rebuild_sample (w : World) : result ReindexResult * World :=
  reindex root_path sample_clock uncancelled sample_parse (fun s => s) w.

(** The manifest also records that another copy of the message was purged. *)
Definition purged_event : event :=
  [("event", JStr "purged"); ("account_id", JStr "acct"); ("source_item_key", JStr "imap:SU5CT1g:7:1");
   ("relative_path", JStr "eml/acct/2024/03/older.eml"); ("file_hash", JStr "00ff")]%string.
Definition copy_purged : World := set_manifest (synced to_rebuild ++ [purged_event]) [] None to_rebuild.

(** The row rebuilt. *)
Definition no_row : message :=
  Message 0 "" None "" "" Active None None None None None None None None None None false None None None None None None.
Definition rebuilt_message (w : World) : message := List.hd no_row (messages (committed (rebuild_sample w).2)).
