(* ===== verification/ReindexSafe.v ===== *)
(** * ReindexSafe: what a rebuilt database holds

    The theorems on [Reindex]: identity links resolve to the end of their chain or form a cycle; every
    row of a rebuilt database stands for a fetch event of the manifest whose file was verified, and no
    purged message comes back, whichever operation fails. *)

From S2P Require Import Prelude Errors PyTime Identity Json Manifest Database World Sha256.
From S2P Require Import EmlStorage DeleteRemote Retry Snapshots Sync SyncDurable SyncFindings SyncFolders Reindex ReindexSamples.

(** ** Identity links *)

Section Links.
Context (account : string) (l : links).

(** The alias [a] is linked to [b]. *)
Definition linked (a b : string) : Prop := exists ev h, dict_get (account, a) l = Some (b, ev, h).
Definition unlinked (a : string) : Prop := dict_get (account, a) l = None.

Lemma linked_functional a b b' : linked a b -> linked a b' -> b = b'.
Proof. intros (? & ? & H) (? & ? & H'). congruence. Qed.
Lemma linked_or_not a : unlinked a \/ exists b, linked a b.
Proof.
  unfold unlinked, linked. destruct (dict_get _ _) as [[[b ev] h]|]; [right; by exists b, ev, h|by left].
Qed.

(** The keys visited on the way from [start]: all linked, each to another one or to [key]. *)
Record visited (start : string) (seen : list string) (key : string) : Prop := {
  vi_nodup : NoDup seen;
  vi_start : start ∈ seen \/ start = key;
  vi_next : forall a, a ∈ seen -> exists b, linked a b /\ (b ∈ seen \/ b = key);
  vi_reach : rtc linked start key;
}.

Lemma visited_step start seen key next : visited start seen key -> key ∉ seen -> linked key next ->
  visited start (key :: seen) next.
Proof.
  intros [Hd Hs Hn Hr] Hk Hl. split.
  - by constructor.
  - left. destruct Hs as [?| ->]; [by right|by left].
  - intros a [->|Ha]%elem_of_cons; [exists next; split; [done|by right]|].
    destruct (Hn a Ha) as (b & Hb & E). exists b. split; [done|]. left.
    destruct E as [?|E]; [by right|subst b; by left].
  - eapply rtc_r; eauto.
Qed.

(** The keys seen are keys of the dictionary of links. *)
Lemma visited_length start seen key : visited start seen key -> length seen <= length l.
Proof.
  intros [Hd _ Hn _]. rewrite <- (length_fmap fst l), <- (length_fmap (pair account) seen).
  apply submseteq_length, NoDup_submseteq; [by apply (NoDup_fmap_2 (pair account))|].
  intros k (a & -> & Ha)%list_elem_of_fmap. destruct (Hn a Ha) as (b & (ev & h & E) & _).
  apply dict_get_In in E. by apply (list_elem_of_fmap_2 fst) in E.
Qed.

(** A key seen again closes a cycle: every key reached from the start is linked on. *)
Lemma visited_cycle start seen key : visited start seen key -> key ∈ seen ->
  forall k, rtc linked start k -> exists b, linked k b.
Proof.
  intros [_ Hs Hn _] Hk k Hr. enough (k ∈ seen) as Hin by (destruct (Hn k Hin) as (b & ? & _); by exists b).
  assert (start ∈ seen) as Hin by (by destruct Hs as [?|<-]). clear Hs.
  induction Hr as [a|a b k Hab _ IH]; [done|]. apply IH. destruct (Hn a Hin) as (b' & Hb & E).
  rewrite (linked_functional a b b') by done. by destruct E as [?| ->].
Qed.

Lemma resolve_loop_spec start : forall fuel seen key, visited start seen key ->
  length l <= fuel + length seen ->
  match resolve_loop fuel account l seen key with
  | Ok k => rtc linked start k /\ unlinked k
  | Err e => e = Exn StorageError "Manifest identity links contain a cycle"
             /\ forall k, rtc linked start k -> exists b, linked k b
  end.
Proof.
  induction fuel as [|fuel IH]; intros seen key Hv Hl; cbn [resolve_loop];
    (destruct (dict_get (account, key) l) as [[[next ev] h]|] eqn:E; [|split; [apply Hv|done]]);
    assert (linked key next) as Hk by (by exists ev, h);
    (destruct (mem key seen) eqn:Em; [apply mem_true in Em; split; [done|by eapply visited_cycle]|
      apply mem_false in Em; pose proof (visited_step _ _ _ _ Hv Em Hk) as Hv']).
  - pose proof (visited_length _ _ _ Hv') as H. cbn in H. lia.
  - apply IH; [done|cbn; lia].
Qed.

Lemma visited_nothing key : visited key [] key.
Proof. split; [constructor|by right| |reflexivity]. intros a Ha. by apply elem_of_nil in Ha. Qed.
Lemma resolve_unlinked key k : resolve_identity_key account key l = Ok k -> unlinked k.
Proof.
  intros E. pose proof (resolve_loop_spec key (length l) [] key (visited_nothing key) ltac:(lia)) as H.
  unfold resolve_identity_key in E. rewrite E in H. by destruct H.
Qed.

(** Resolving an identity always ends, within as many steps as there are links: it gives the
    unlinked key at the end of the chain of links, and raises exactly when the chain has no end, that
    is when it runs into a cycle. *)
Lemma resolve_identity_spec key :
  match resolve_identity_key account key l with
  | Ok k => rtc linked key k /\ unlinked k
  | Err e => e = Exn StorageError "Manifest identity links contain a cycle"
             /\ forall k, rtc linked key k -> exists b, linked k b
  end.
Proof. exact (resolve_loop_spec key (length l) [] key (visited_nothing key) ltac:(lia)). Qed.
End Links.

(** ** What the events leave in the tables of the first loop *)

Fixpoint gather_all (es : list event) (g : gathered) : result gathered :=
  match es with [] => Ok g | e :: es => let? g := gather_event e g in gather_all es g end.

Lemma name_in_event names e n : event_name e = Some n -> name_in names e = mem n names.
Proof. unfold event_name, name_in. destruct (get "event"%string e) as [[]|]; congruence. Qed.
Lemma name_in_one n e : name_in [n] e = true <-> event_name e = Some n.
Proof.
  unfold event_name, name_in. destruct (get "event"%string e) as [[| | | |s| |]|]; try (split; congruence).
  rewrite mem_true, list_elem_of_singleton. split; congruence.
Qed.

Lemma gather_event_fetches e g g' : gather_event e g = Ok g' ->
  g_fetches g' = g_fetches g
  \/ event_name e = Some "fetch"%string /\ exists k, event_key_of e = Some k
     /\ g_fetches g' = dict_set k (FetchRecord e k) (g_fetches g).
Proof.
  destruct g as [acc fol fet l sn st pu co au]. unfold gather_event.
  destruct (name_in ["account_snapshot"%string] e); [intros [= <-]; left; by case_match|].
  destruct (name_in ["folder_snapshot"%string] e); [intros [= <-]; left; by repeat case_match|].
  destruct (name_in ["message_membership_snapshot"%string] e); [intros [= <-]; left; by repeat case_match|].
  destruct (name_in ["message_identity_linked"%string] e); [intros (? & _ & [= <-])%rbind_ok; by left|].
  destruct (name_in ["fetch"%string] e) eqn:En.
  { apply name_in_one in En. destruct (event_key_of e) as [k|]; intros [= <-]; [right|by left].
    split; [done|]. by exists k. }
  destruct (name_in STATE_EVENTS e); [intros [= <-]; by left|].
  destruct (name_in ["purge_intent"%string] e).
  { destruct (purge_key_of e); [intros (? & _ & [= <-])%rbind_ok|intros [= <-]]; by left. }
  destruct (name_in ["purged"%string] e); [|intros [= <-]; by left].
  destruct (purge_key_of e); [|intros [= <-]; by left].
  intros (? & _ & (? & _ & [= <-])%rbind_ok)%rbind_ok. by left.
Qed.

Lemma gather_event_completed e g g' k : gather_event e g = Ok g' -> k ∈ g_completed g -> k ∈ g_completed g'.
Proof.
  destruct g as [acc fol fet l sn st pu co au]. unfold gather_event. intros H Hk. cbn in Hk.
  destruct (name_in ["account_snapshot"%string] e); [injection H as <-; by case_match|].
  destruct (name_in ["folder_snapshot"%string] e); [injection H as <-; by repeat case_match|].
  destruct (name_in ["message_membership_snapshot"%string] e); [injection H as <-; by repeat case_match|].
  destruct (name_in ["message_identity_linked"%string] e); [by apply rbind_ok in H as (? & _ & [= <-])|].
  destruct (name_in ["fetch"%string] e); [injection H as <-; by case_match|].
  destruct (name_in STATE_EVENTS e); [by injection H as <-|].
  destruct (name_in ["purge_intent"%string] e).
  { destruct (purge_key_of e); [by apply rbind_ok in H as (? & _ & [= <-])|by injection H as <-]. }
  destruct (name_in ["purged"%string] e); [|by injection H as <-].
  destruct (purge_key_of e); [|by injection H as <-].
  apply rbind_ok in H as (? & _ & (? & _ & [= <-])%rbind_ok). by right.
Qed.

Lemma gather_event_purged e g g' account key path hash : gather_event e g = Ok g' ->
  event_name e = Some "purged"%string -> purge_key_of e = Some (account, key, path, hash) ->
  is_remote_key key = true -> (account, key, path, hash) ∈ g_completed g'.
Proof.
  destruct g as [acc fol fet l sn st pu co au]. unfold gather_event. intros H Hn Hk Hr.
  rewrite !(name_in_event _ _ _ Hn), Hk in H. unfold STATE_EVENTS in H.
  revert H. decide_names. cbn [normalize_purge_key]. rewrite Hr. cbn [rbind].
  intros (? & _ & [= <-])%rbind_ok. by left.
Qed.

(** The fetches recorded, and the purges known to be complete. *)
Definition fetches_of (es : list event) (g : gathered) : Prop :=
  forall k f, (k, f) ∈ g_fetches g -> fr_key f = k /\ fr_event f ∈ es
    /\ event_name (fr_event f) = Some "fetch"%string /\ event_key_of (fr_event f) = Some k.

Lemma elem_of_dict_set {K V} `{EqDecision K} (k k' : K) (v v' : V) d :
  (k', v') ∈ dict_set k v d -> (k' = k /\ v' = v) \/ (k', v') ∈ d.
Proof.
  induction d as [|[k0 v0] d IH]; cbn [dict_set].
  - intros [= -> ->]%list_elem_of_singleton. by left.
  - destruct (k == k0) eqn:E.
    + apply eqb_true in E as ->. intros [[= -> ->]|H]%elem_of_cons; [by left|right; by right].
    + intros [[= -> ->]|H]%elem_of_cons; [right; by left|]. destruct (IH H) as [?|?]; [by left|right; by right].
Qed.

Lemma gather_all_fetches es : forall es0 g g', fetches_of es0 g -> gather_all es g = Ok g' ->
  fetches_of (es0 ++ es) g'.
Proof.
  induction es as [|e es IH]; intros es0 g g' Hg H; cbn [gather_all] in H.
  { injection H as <-. by rewrite app_nil_r. }
  apply rbind_ok in H as (g1 & H1 & H). replace (es0 ++ e :: es) with ((es0 ++ [e]) ++ es) by (by rewrite <- app_assoc).
  apply (IH _ g1); [|done]. clear IH H. intros k f Hf.
  destruct (gather_event_fetches _ _ _ H1) as [->|(Hn & k' & Hk & E)] in Hf |- *.
  - destruct (Hg _ _ Hf) as (? & ? & ? & ?). split_and!; try done. apply elem_of_app. by left.
  - rewrite E in Hf. apply elem_of_dict_set in Hf as [[-> ->]|Hf]; cbn [fr_key fr_event].
    + split_and!; try done. apply elem_of_app. right. by left.
    + destruct (Hg _ _ Hf) as (? & ? & ? & ?). split_and!; try done. apply elem_of_app. by left.
Qed.
Lemma gather_all_completed es : forall g g' k, gather_all es g = Ok g' -> k ∈ g_completed g -> k ∈ g_completed g'.
Proof.
  induction es as [|e es IH]; intros g g' k H Hk; cbn [gather_all] in H; [by injection H as <-|].
  apply rbind_ok in H as (g1 & H1 & H). eapply IH, gather_event_completed; eauto.
Qed.
Lemma gather_all_purged es e account key path hash : forall g g', gather_all es g = Ok g' -> e ∈ es ->
  event_name e = Some "purged"%string -> purge_key_of e = Some (account, key, path, hash) ->
  is_remote_key key = true -> (account, key, path, hash) ∈ g_completed g'.
Proof.
  induction es as [|e' es IH]; intros g g' H He Hn Hk Hr; [by apply elem_of_nil in He|].
  cbn [gather_all] in H. apply rbind_ok in H as (g1 & H1 & H). apply elem_of_cons in He as [<-|He].
  - eapply gather_all_completed, gather_event_purged; eauto.
  - by apply (IH g1).
Qed.

(** ** What the plan says *)

Lemma canonical_fetches_spec l fetches : forall hashes keys hashes', canonical_fetches l fetches hashes = Ok (keys, hashes') ->
  forall k c, (k, c) ∈ keys -> exists f own, f ∈ fetches /\ fr_key f = k /\ own_key f = Ok own
    /\ resolve_identity_key (key_account k) own l = Ok c.
Proof.
  induction fetches as [|f fetches IH]; intros hashes keys hashes' H k c Hk; cbn [canonical_fetches] in H.
  { injection H as <- <-. by apply elem_of_nil in Hk. }
  apply rbind_ok in H as (own & Eo & (canonical & Ec & (? & _ & (? & _ & ([ks hs] & Er & H)%rbind_ok)%rbind_ok)%rbind_ok)%rbind_ok).
  injection H as <- <-. apply elem_of_dict_set in Hk as [[-> ->]|Hk].
  - exists f, own. split_and!; try done. by left.
  - destruct (IH _ _ _ Er _ _ Hk) as (f' & own' & Hf & ? & ? & ?). exists f', own'. split_and!; try done. by right.
Qed.

Lemma resolve_self account l key : unlinked account l key -> resolve_identity_key account key l = Ok key.
Proof. unfold unlinked, resolve_identity_key. intros E. destruct (length l); cbn [resolve_loop]; by rewrite E. Qed.
Lemma resolve_completed_unlinked l account key path hash ks : forall ks', resolve_completed l ks = Ok ks' ->
  (account, key, path, hash) ∈ ks -> unlinked account l key -> (account, key, path, hash) ∈ ks'.
Proof.
  induction ks as [|k ks IH]; intros ks' H Hk Hu; [by apply elem_of_nil in Hk|]. cbn [resolve_completed] in H.
  apply rbind_ok in H as (k' & E & (ks1 & Es & [= <-])%rbind_ok). apply elem_of_cons in Hk as [<-|Hk].
  - cbn [resolve_purge] in E. rewrite resolve_self in E by done. injection E as <-. by left.
  - right. by apply IH.
Qed.

(** The parts of the plan the rows depend on. *)
Lemma plan_parts g p : plan_of g = Ok p ->
  (exists hashes, canonical_fetches (g_links g) (g_fetches g).*2 [] = Ok (pl_canonical p, hashes))
  /\ resolve_completed (g_links g) (g_completed g) = Ok (pl_completed p).
Proof.
  unfold plan_of. intros (? & _ & ([ks hs] & Ec & (? & _ & (? & _ & (co & Eco & (? & _ & [= <-])%rbind_ok)%rbind_ok)%rbind_ok)%rbind_ok)%rbind_ok)%rbind_ok.
  split; [by exists hs|done].
Qed.

(** ** An invariant of the statements is one of the batch *)

Section Writes.
Context (P : World -> Prop) (Pfolder : forall f, keeps P (db_write (upsert_folder f))).

Lemma keeps_folder_for k i : keeps P (folder_for k i).
Proof using Pfolder.
  unfold folder_for. destruct (dict_get _ _); [apply keeps_ret|].
  apply keeps_bnd; [apply Pfolder|]. intros id. apply keeps_ret.
Qed.
Lemma keeps_destination account (d : option string) i :
  keeps P (match d with
           | Some d => let! (id, i) := folder_for (account, d) i in mret (Some id, i)
           | None => mret (None, i)
           end).
Proof using Pfolder.
  destruct d; [|apply keeps_ret]. apply keeps_bnd; [apply keeps_folder_for|]. intros []. apply keeps_ret.
Qed.
Lemma keeps_write_folders l : forall i, keeps P (write_folders l i).
Proof using Pfolder.
  induction l as [|[k f] l IH]; intros i; cbn [write_folders]; [apply keeps_ret|].
  apply keeps_bnd; [apply Pfolder|]. intros id. apply IH.
Qed.
Lemma keeps_write_messages normalize l :
  Forall (fun x => forall folder moved,
    keeps P (db_write (add_message normalize (placed (pr_row x) folder moved) (pr_contents x)))) l ->
  forall i, keeps P (write_messages normalize l i).
Proof using Pfolder.
  induction 1 as [|x l Hx _ IH]; intros i; cbn [write_messages]; [apply keeps_ret|].
  apply keeps_bnd; [|intros i'; apply IH]. unfold write_message. destruct (dict_get _ _); [|apply keeps_raise].
  apply keeps_bnd; [apply keeps_destination|]. intros [moved i'].
  apply keeps_bnd; [apply Hx|]. intros id. apply keeps_ret.
Qed.
Lemma keeps_write_aliases todo l i :
  (forall a k id e, keeps P (db_update' (add_message_identity_alias a k id e))) -> keeps P (write_aliases todo l i).
Proof using.
  intros Pa. induction todo as [|[[account alias] [[canonical evidence] hash]] todo IH];
    cbn [write_aliases]; [apply keeps_ret|].
  apply keeps_bnd; [apply keeps_lift|]. intros key. destruct (dict_get _ _); [|apply keeps_raise].
  apply keeps_bnd; [apply Pa|]. intros ?. apply IH.
Qed.
Lemma keeps_snapshot_memberships account l : forall i, keeps P (snapshot_memberships account l i).
Proof using Pfolder.
  induction l as [|j l IH]; intros i; cbn [snapshot_memberships]; [apply keeps_ret|].
  apply keeps_bnd; [|intros [mf i']; apply keeps_bnd; [apply IH|intros []; apply keeps_ret]].
  unfold snapshot_membership. destruct j; try apply keeps_raise. destruct (text _ _); [|apply keeps_raise].
  apply keeps_bnd; [apply keeps_folder_for|]. intros [folder i1].
  apply keeps_bnd; [apply keeps_destination|]. intros []. apply keeps_ret.
Qed.
Lemma keeps_write_snapshots l : (forall id mfs, keeps P (db_update' (replace_message_memberships id mfs))) ->
  forall i, keeps P (write_snapshots l i).
Proof using Pfolder.
  intros Pm. induction l as [|[[account key] e] l IH]; intros i; cbn [write_snapshots]; [apply keeps_ret|].
  destruct (dict_get _ _); [|apply keeps_raise]. destruct (get _ e) as [[]|]; try apply keeps_raise.
  apply keeps_bnd; [apply keeps_snapshot_memberships|]. intros [mfs i'].
  apply keeps_bnd; [apply Pm|]. intros ?. apply IH.
Qed.
End Writes.

Lemma keeps_on_cancel {A} (P : World -> Prop) (m : M World A) a : keeps P m -> keeps P (on_cancel m a).
Proof.
  intros Hm. unfold on_cancel. apply keeps_try; [done|]. intros e. apply keeps_if; [apply keeps_ret|apply keeps_throw].
Qed.
Lemma keeps_check_cancel cancelled (P : World -> Prop) : keeps P (check_cancel cancelled).
Proof. intros w Hw. unfold check_cancel, raise_if_cancelled. by case_match. Qed.

(** ** The rows *)

Section Rows.
Context (root : list string) (clock : nat -> datetime) (cancelled : nat -> bool)
  (parse : bytes -> option datetime -> result parsed) (normalize : string -> string) (w0 : World).

(** The file at a path has the hash. *)
Definition verified_file (path hash : string) : Prop :=
  exists l c, resolve_inside root path = Ok l /\ read_file (join l) w0 = Some c /\ hexdigest c = fold_hash hash.

(** The row stands for a fetch of the plan: [g] is what the events say, [p] the plan made of it. *)
Record row_of (g : gathered) (p : plan) (m : message) : Prop := {
  ro_gathered : gather_all (synced w0) nothing = Ok g;
  ro_plan : plan_of g = Ok p;
  ro_fetch : exists f path hash, (fr_key f, f) ∈ g_fetches g /\ text "relative_path" (fr_event f) = Some path
    /\ text "file_hash" (fr_event f) = Some hash /\ account_id m = key_account (fr_key f)
    /\ dict_get (fr_key f) (pl_canonical p) = Some (source_item_key m) /\ file_hash m = Some hash
    /\ (relative_path m = None /\ (account_id m, source_item_key m, path, hash) ∈ pl_completed p
        \/ relative_path m = Some path /\ verified_file path hash
           /\ (account_id m, source_item_key m, path, hash) ∉ pl_completed p);
}.
Definition good_row (m : message) : Prop := exists g p, row_of g p m.
Definition good_rows (d : Db) : Prop := forall m, m ∈ messages d -> good_row m.
Definition sound_world (w : World) : Prop :=
  same_files w0 w /\ good_rows (committed w) /\ good_rows (view w).

Lemma sound_io {A} (m : M World A) : keeps sound_world m -> keeps sound_world (io m).
Proof. intros Hm w Hw. unfold io. destruct (faults w (ticks w)); [done|]. by apply Hm. Qed.
Lemma sound_db_write {A} (f : Db -> result (A * Db)) :
  (forall d a d', f d = Ok (a, d') -> good_rows d -> good_rows d') -> keeps sound_world (db_write f).
Proof.
  intros Hf. apply sound_io. intros w (Hs & Hc & Hv). destruct (f (view w)) as [[a d]|e] eqn:E; [|done].
  specialize (Hf _ _ _ E Hv). unfold post, sound_world. rewrite view_put. unfold put_db. by destruct (working w).
Qed.
(** An operation that leaves the messages alone. *)
Lemma sound_db_same {A} (f : Db -> result (A * Db)) :
  (forall d a d', f d = Ok (a, d') -> messages d' = messages d) -> keeps sound_world (db_write f).
Proof. intros Hf. apply sound_db_write. intros d a d' E Hd. unfold good_rows. by rewrite (Hf _ _ _ E). Qed.
Lemma sound_db_update' f : (forall d d', f d = Ok d' -> messages d' = messages d) ->
  keeps sound_world (db_update' f).
Proof. intros Hf. apply sound_db_same. by intros d a d' (d1 & E & [= <- <-])%rbind_ok; apply Hf. Qed.
Lemma sound_begin : keeps sound_world begin_batch.
Proof. apply sound_io. intros w (Hs & Hc & Hv). by destruct (working w). Qed.
Lemma sound_commit : keeps sound_world commit_batch.
Proof.
  apply sound_io, keeps_modify. intros w (Hs & Hc & Hv). unfold view in Hv.
  destruct (working w) eqn:E; [done|]. split_and!; [done..|]. unfold view. by rewrite E.
Qed.

(** ** Writing the rows *)

Lemma upsert_account_messages a d r d' : upsert_account a d = Ok (r, d') -> messages d' = messages d.
Proof. unfold upsert_account. intros (? & _ & (? & _ & [= <- <-])%rbind_ok)%rbind_ok. by case_match. Qed.
Lemma upsert_folder_messages f d r d' : upsert_folder f d = Ok (r, d') -> messages d' = messages d.
Proof.
  unfold upsert_folder. case_match; [by intros [= <- <-]|]. by intros (? & _ & [= <- <-])%rbind_ok.
Qed.
Lemma record_audit_messages e d d' : record_audit e d = Ok d' -> messages d' = messages d.
Proof. unfold record_audit. case_match; [by intros <-%Ok_inj|done]. Qed.

(** A message to be written: its row is good whatever id it gets. *)
Definition good_prepared (x : prepared) : Prop :=
  mr_columns (pr_row x) = SYNC_COLUMNS /\ good_row (mr_row (pr_row x)).

Lemma good_row_same m m' : account_id m' = account_id m -> source_item_key m' = source_item_key m ->
  relative_path m' = relative_path m -> file_hash m' = file_hash m -> good_row m -> good_row m'.
Proof.
  intros E1 E2 E3 E4 (g & p & [Hg Hp (f & path & hash & H)]). exists g, p. split; [done..|].
  exists f, path, hash. by rewrite E1, E2, E3, E4.
Qed.
Lemma good_row_columns src dst : good_row src -> account_id dst = account_id src ->
  good_row (set_columns SYNC_COLUMNS src dst).
Proof. intros H E. by apply (good_row_same src). Qed.

Lemma add_message_good x c folder moved d a d' : good_prepared x ->
  add_message normalize (placed (pr_row x) folder moved) c d = Ok (a, d') -> good_rows d -> good_rows d'.
Proof.
  intros [Ec Hx] H Hd. unfold add_message in H. apply rbind_ok in H as ([id d1] & Eu & (d2 & Em & [= <- <-])%rbind_ok).
  assert (messages d2 = messages d1) as E2.
  { unfold upsert_membership in Em. apply rbind_ok in Em as (? & _ & <-%Ok_inj). by case_match. }
  assert (good_rows d1) as H1.
  { unfold upsert_message in Eu. cbn [placed mr_row mr_columns] in Eu. rewrite Ec in Eu.
    apply rbind_ok in Eu as (? & _ & Eu). destruct (List.find _ _) as [old|]; injection Eu as <- <-; intros m Hm;
      cbn [messages set_messages bump_message] in Hm.
    - apply elem_of_update_where in Hm as (m0 & Hm & ->). destruct (same_key _ _ m0) eqn:E; [|by apply Hd].
      apply good_row_columns; [done|]. unfold same_key in E. by bsimp.
    - apply elem_of_app in Hm as [Hm| ->%list_elem_of_singleton]; [by apply Hd|]. by apply good_row_columns. }
  intros m Hm. apply H1. rewrite <- E2. by destruct c.
Qed.

Lemma sound_folder f : keeps sound_world (db_write (upsert_folder f)).
Proof. apply sound_db_same, upsert_folder_messages. Qed.
Lemma sound_write_rows p l s : Forall good_prepared (pp_messages s) -> keeps sound_world (write_rows cancelled normalize p l s).
Proof.
  intros Hs. pose proof sound_folder as Hf. unfold write_rows. apply keeps_bnd; [apply keeps_check_cancel|]. intros ?.
  apply keeps_bnd; [apply sound_begin|]. intros ?. apply keeps_bnd.
  { apply keeps_for. intros x. apply keeps_bnd; [apply sound_db_same, upsert_account_messages|]. intros ?. apply keeps_ret. }
  intros ?. apply keeps_bnd; [by apply keeps_write_folders|]. intros i. apply keeps_bnd.
  { apply keeps_write_messages; [done|]. eapply Forall_impl; [exact Hs|]. intros x Hx folder moved.
    apply sound_db_write. intros db n db' E Hd. by eapply add_message_good. }
  intros i'. apply keeps_bnd; [apply keeps_write_aliases; intros; apply sound_db_update'; intros ? ?; apply add_alias_messages|].
  intros ?. apply keeps_bnd; [|intros ?; apply sound_commit].
  apply keeps_write_snapshots; [done|]. intros. apply sound_db_update'. intros ? ?. apply replace_memberships_messages.
Qed.

(** ** Preparing the messages *)

Lemma sound_read_verified path hash :
  triple sound_world (read_verified root path hash)
    (fun c w => sound_world w /\ verified_file path hash) sound_world.
Proof.
  intros w Hw. unfold read_verified. destruct (negb _); [done|]. unfold mbnd, file_at, mlift.
  destruct (resolve_inside root path) as [l|e] eqn:El; [|done]. cbn [rbind]. unfold read_bytes, io.
  destruct (faults w (ticks w)); [done|]. destruct (read_file (join l) (tick w)) as [c|] eqn:Ec; [|done].
  destruct (hexdigest c == fold_hash hash) eqn:Eh; [|done]. split; [done|]. exists l, c.
  split; [done|]. split; [|by apply eqb_true].
  destruct Hw as ((E & _) & _). unfold read_file in *. by rewrite <- E.
Qed.
Lemma sound_verified path hash :
  triple sound_world (verified root path hash)
    (fun o w => sound_world w /\ (is_Some o -> verified_file path hash)) sound_world.
Proof.
  unfold verified. eapply triple_try.
  - eapply triple_bnd; [apply sound_read_verified|]. intros c. by apply triple_ret; intros w [Hw Hv].
  - intros e. destruct (_ || _); [|by apply triple_throw]. apply triple_ret. intros w Hw. split; [done|]. by intros [].
Qed.

Definition good_preparation (s : preparation) : Prop := Forall good_prepared (pp_messages s).

Section Prepare.
Context (g : gathered) (p : plan) (Hg : gather_all (synced w0) nothing = Ok g) (Hp : plan_of g = Ok p).

Lemma rebuilt_good f canonical path hash size x purged :
  (fr_key f, f) ∈ g_fetches g -> text "relative_path" (fr_event f) = Some path ->
  text "file_hash" (fr_event f) = Some hash -> dict_get (fr_key f) (pl_canonical p) = Some canonical ->
  purged = mem (key_account (fr_key f), canonical, path, hash) (pl_completed p) ->
  (purged = false -> verified_file path hash) ->
  good_prepared (rebuilt_row p (g_states g) f canonical path hash size x purged).
Proof.
  intros Hf Ep Eh Ec Hpu Hv. unfold rebuilt_row. destruct (fr_key f) as [[[account folder] v] u] eqn:Ek.
  split; [done|]. exists g, p. split; [done..|]. exists f, path, hash. rewrite Ek.
  cbn [pr_row mr_row account_id source_item_key relative_path file_hash].
  split_and!; try done. symmetry in Hpu. destruct purged; [left; split; [done|by apply mem_true in Hpu]|right].
  split_and!; [done|by apply Hv|]. by apply mem_false in Hpu.
Qed.

Lemma sound_prepare_fetch f s : (fr_key f, f) ∈ g_fetches g -> good_preparation s ->
  triple sound_world (prepare_fetch root parse p (g_states g) f s)
    (fun s' w => sound_world w /\ good_preparation s') sound_world.
Proof.
  intros Hf Hs. unfold prepare_fetch. destruct (fr_key f) as [[[account folder] v] u] eqn:Ek.
  destruct (text "relative_path" (fr_event f)) as [path|] eqn:Ep; [|by apply triple_ret].
  destruct (text "file_hash" (fr_event f)) as [hash|] eqn:Eh; [|by apply triple_ret].
  destruct (dict_get _ (pl_canonical p)) as [canonical|] eqn:Ec; [|by apply triple_raise].
  set (purged := mem _ _). eapply triple_bnd; [apply sound_verified|]. intros raw.
  apply triple_pure. intros Hv.
  destruct (if raw is None then negb purged else false) eqn:E; [by apply triple_ret|].
  eapply (triple_bnd _ _ _ (fun _ => sound_world)).
  { destruct raw; [by apply triple_lift|by apply triple_ret]. }
  intros x. apply triple_ret. intros w Hw. split; [done|]. unfold good_preparation. cbn [pp_messages].
  apply Forall_app. split; [done|]. apply Forall_singleton. rewrite <- Ek in Ec. apply rebuilt_good; try done.
  - by rewrite Ek.
  - by rewrite Ek.
  - intros Epu. apply Hv. destruct raw; [done|]. by rewrite Epu in E.
Qed.
Lemma sound_prepare_loop l : (forall f, f ∈ l -> (fr_key f, f) ∈ g_fetches g) -> forall s, good_preparation s ->
  triple sound_world (prepare_loop root cancelled parse p (g_states g) l s)
    (fun r w => sound_world w /\ good_preparation r.1) sound_world.
Proof.
  induction l as [|f l IH]; intros Hl s Hs; cbn [prepare_loop]; [by apply triple_ret|].
  eapply (triple_bnd _ _ _ (fun r w => sound_world w /\ forall s', r = Ok s' -> good_preparation s')).
  - intros w Hw. pose proof (triple_bnd _ _ (fun _ => prepare_fetch root parse p (g_states g) f s) _ _ _ (keeps_check_cancel cancelled _)
      (fun _ => sound_prepare_fetch f s (Hl f ltac:(left)) Hs) w Hw) as H.
    unfold attempt. destruct (mbnd _ _ w) as [[s'|e] w']; cbn in *; (split; [apply H|]); [|done].
    intros ? [= <-]. apply H.
  - intros [s'|e].
    + intros w [Hw Hs']. apply IH; [|by apply Hs'|done]. intros f' Hf'. apply Hl. by right.
    + intros w [Hw _]. by case_match.
Qed.
End Prepare.

(** ** The whole run *)

Lemma sound_gather_loop es : forall g,
  triple sound_world (gather_loop cancelled es g) (fun g' w => sound_world w /\ gather_all es g = Ok g') sound_world.
Proof.
  induction es as [|e es IH]; intros g; cbn [gather_loop gather_all]; [by apply triple_ret|].
  eapply triple_bnd; [apply (sound_io (mret tt)), keeps_ret|]. intros ?.
  eapply triple_bnd; [apply keeps_check_cancel|]. intros ?.
  eapply (triple_bnd _ _ _ (fun g1 w => sound_world w /\ gather_event e g = Ok g1)); [by apply triple_lift|].
  intros g1. apply triple_pure. intros ->. cbn [rbind]. apply IH.
Qed.
Lemma sound_gather :
  triple sound_world (gather cancelled) (fun g w => sound_world w /\ gather_all (synced w0) nothing = Ok g) sound_world.
Proof.
  unfold gather. eapply (triple_bnd _ _ _ (fun es w => sound_world w /\ es = synced w0)).
  - intros w Hw. unfold io. destruct (faults w (ticks w)); [done|]. split; [done|].
    by destruct Hw as ((_ & E & _) & _).
  - intros es. apply triple_pure. intros ->. apply sound_gather_loop.
Qed.
Lemma sound_prepare g p : gather_all (synced w0) nothing = Ok g -> plan_of g = Ok p ->
  triple sound_world (prepare root cancelled parse p g)
    (fun r w => sound_world w /\ good_preparation r.1) sound_world.
Proof.
  intros Hg Hp. unfold prepare. eapply triple_bnd.
  - apply keeps_on_cancel, keeps_bnd; [apply keeps_check_cancel|]. intros ?. apply keeps_ret.
  - intros []; [apply triple_ret; intros w Hw; by split; [|apply Forall_nil]|].
    apply sound_prepare_loop; [done..| |by apply Forall_nil].
    intros f Hf. unfold valid_fetches in Hf. apply list_elem_of_In, filter_In in Hf as [Hf%list_elem_of_In _].
    apply list_elem_of_fmap in Hf as ([k f'] & -> & Hf).
    destruct (gather_all_fetches (synced w0) [] nothing g) with k f' as (Ek & _); try done.
    { intros ? ? Hn. by apply elem_of_nil in Hn. }
    cbn in *. by rewrite Ek.
Qed.
Lemma sound_rebuild g p : gather_all (synced w0) nothing = Ok g -> plan_of g = Ok p ->
  keeps sound_world (rebuild root cancelled parse normalize p g).
Proof.
  intros Hg Hp. unfold rebuild. eapply triple_bnd; [by apply sound_prepare|]. intros [s []].
  - apply triple_ret. by intros w [].
  - intros w [Hw Hs]. revert w Hw. apply (keeps_on_cancel _ (write_rows cancelled normalize p (g_links g) s ;! mret (s, false))).
    apply keeps_bnd; [by apply sound_write_rows|]. intros ?. apply keeps_ret.
Qed.
Lemma sound_reindex : keeps sound_world (reindex root clock cancelled parse normalize).
Proof.
  unfold reindex. eapply (triple_bnd _ _ _ (fun o w => sound_world w
    /\ match o with Some g => gather_all (synced w0) nothing = Ok g | None => True end)).
  - unfold on_cancel. eapply triple_try.
    + eapply triple_bnd; [apply sound_gather|]. intros g. by apply triple_ret.
    + intros e. destruct (isinstance e _); [by apply triple_ret|by apply triple_throw].
  - intros [g|]; apply triple_pure; [|intros _; apply keeps_ret]. intros Hg.
    eapply (triple_bnd _ _ _ (fun p w => sound_world w /\ plan_of g = Ok p)); [by apply triple_lift|].
    intros p. apply triple_pure. intros Hp. apply keeps_bnd; [by apply sound_rebuild|]. intros [s []]; [apply keeps_ret|].
    apply keeps_bnd; [|intros ?; apply keeps_ret]. apply keeps_for. intros [[e op] related].
    unfold write_audit_entry. apply keeps_bnd; [apply keeps_lift|]. intros key. cbv zeta.
    apply keeps_bnd; [apply keeps_gets|]. intros now. apply keeps_bnd; [apply keeps_lift|]. intros entry.
    apply sound_db_update'. intros d d'. apply record_audit_messages.
Qed.
End Rows.

(** An empty database is sound. *)
Lemma sound_start root w : messages (committed w) = [] -> working w = None -> sound_world root w w.
Proof.
  intros Hempty Hclosed. split; [reflexivity|]. unfold good_rows, view. rewrite Hclosed. cbn [get_or]. rewrite Hempty.
  split; intros m Hm; by apply elem_of_nil in Hm.
Qed.

Section Theorems.
Context (root : list string) (clock : nat -> datetime) (cancelled : nat -> bool)
  (parse : bytes -> option datetime -> result parsed) (normalize : string -> string) (w : World).
Context (Hempty : messages (committed w) = []) (Hclosed : working w = None).

Lemma reindex_rows : good_rows root w (committed (reindex root clock cancelled parse normalize w).2)
  /\ same_files w (reindex root clock cancelled parse normalize w).2.
Proof using All.
  pose proof (sound_reindex root clock cancelled parse normalize w w (sound_start root w Hempty Hclosed)) as H. unfold post in H.
  destruct (reindex _ _ _ _ _ w) as [[r|e] w']; split; apply H.
Qed.

(** C6. A rebuild invents nothing: whichever operation fails and wherever the run is cancelled, every
    row the rebuilt database holds with a stored path has its file, whose bytes have the hash of the
    row, and a fetch event of the manifest with that account, path and hash. *)
Theorem reindex_rows_backed m path :
  m ∈ messages (committed (reindex root clock cancelled parse normalize w).2) -> relative_path m = Some path ->
  exists hash l c e, file_hash m = Some hash /\ resolve_inside root path = Ok l
    /\ read_file (join l) (reindex root clock cancelled parse normalize w).2 = Some c
    /\ hexdigest c = fold_hash hash
    /\ e ∈ synced (reindex root clock cancelled parse normalize w).2 /\ fetch_of (account_id m) path hash e.
Proof using All.
  destruct reindex_rows as [Hr (Ef & Es & _)]. unfold read_file. rewrite Ef, Es. intros Hm Ep.
  destruct (Hr m Hm) as (g & p & [Hg Hp (f & path' & hash & Hf & Et & Eh & Ea & _ & Em & Hs)]).
  destruct Hs as [[Hs _]|(Hs & (l & c & El & Ec & Ehash) & _)]; [congruence|]. assert (path' = path) as -> by congruence.
  destruct (gather_all_fetches (synced w) [] nothing g) with (fr_key f) f as (_ & He & Hn & Hk); try done.
  { intros ? ? Hnil. by apply elem_of_nil in Hnil. }
  exists hash, l, c, (fr_event f). split_and!; try done.
  assert (forall t s, text t (fr_event f) = Some s -> text_of t (fr_event f) = Some s) as Ht.
  { intros t s. unfold text, nonempty. destruct (text_of t _) as [x|]; [|done]. by case_match. }
  split_and!; try done; [|by apply Ht..]. rewrite Ea. unfold event_key_of in Hk.
  destruct (text "account_id" _) eqn:Eacc; [|done]. apply Ht in Eacc. rewrite Eacc.
  repeat case_match; try done. by injection Hk as <-.
Qed.
(** C7. A rebuild brings no purged message back: if the manifest records that a purge of a message was
    completed, no row of the rebuilt database stores that message under the path and hash purged. *)
Theorem reindex_respects_purges m path e :
  m ∈ messages (committed (reindex root clock cancelled parse normalize w).2) -> relative_path m = Some path ->
  e ∈ synced w -> event_name e = Some "purged"%string -> is_remote_key (source_item_key m) = true ->
  purge_key_of e <> Some (account_id m, source_item_key m, path, get_or ""%string (file_hash m)).
Proof using All.
  destruct reindex_rows as [Hr _]. intros Hm Ep He Hn Hk Epk.
  destruct (Hr m Hm) as (g & p & [Hg Hp (f & path' & hash & Hf & _ & _ & Ea & Ec & Em & Hs)]).
  destruct Hs as [[Hs _]|(Hs & _ & Hnot)]; [congruence|]. assert (path' = path) as -> by congruence.
  apply Hnot. rewrite Em in Epk. cbn [get_or] in Epk. destruct (plan_parts _ _ Hp) as ((hashes & Hcan) & Hcom).
  apply (resolve_completed_unlinked _ _ _ _ _ _ _ Hcom).
  - by eapply gather_all_purged.
  - apply dict_get_In in Ec. destruct (canonical_fetches_spec _ _ _ _ _ Hcan _ _ Ec) as (f' & own & _ & _ & _ & Er).
    rewrite Ea. by eapply resolve_unlinked.
Qed.
End Theorems.

(** ** Examples *)

Lemma reindex_rows_backed_witness : exists hash l c e, file_hash (rebuilt_message to_rebuild) = Some hash
  /\ resolve_inside root_path "eml/acct/2024/04/b5d4045c3f466fa91fe2cc6abe79232a.eml" = Ok l
  /\ read_file (join l) (rebuild_sample to_rebuild).2 = Some c /\ hexdigest c = fold_hash hash
  /\ e ∈ synced (rebuild_sample to_rebuild).2
  /\ fetch_of (account_id (rebuilt_message to_rebuild)) "eml/acct/2024/04/b5d4045c3f466fa91fe2cc6abe79232a.eml" hash e.
Proof.
  apply (reindex_rows_backed root_path sample_clock uncancelled sample_parse (fun s => s) to_rebuild eq_refl eq_refl).
  - apply list_elem_of_In. vm_compute. by left.
  - by vm_compute.
Defined.

Lemma reindex_respects_purges_witness : purge_key_of purged_event
  <> Some ("acct", "imap:SU5CT1g:7:1", "eml/acct/2024/04/b5d4045c3f466fa91fe2cc6abe79232a.eml",
           get_or "" (file_hash (rebuilt_message copy_purged)))%string.
Proof.
  apply (reindex_respects_purges root_path sample_clock uncancelled sample_parse (fun s => s) copy_purged eq_refl eq_refl
    (rebuilt_message copy_purged)).
  - apply list_elem_of_In. vm_compute. by left.
  - by vm_compute.
  - apply elem_of_app. right. by left.
  - done.
  - by vm_compute.
Defined.

(** What the manifest of the sample says, and the plan made of it. *)
Definition sample_gathered : gathered := match gather_all (synced to_rebuild) nothing with Ok g => g | Err _ => nothing end.
Definition sample_plan : plan :=
  match plan_of sample_gathered with Ok p => p | Err _ => Plan [] [] [] [] [] [] [] end.
