(* ===== verification/ReindexAtomic.v ===== *)
(** * ReindexAtomic: a rebuild takes effect as a whole

    Until the batch of [Reindex.write_rows] is committed the database keeps its old content; so a
    rebuild that is cancelled or raises before the audit log leaves it as it was. One consequence is a
    defect: a message whose file is lost is skipped, but its membership snapshot is not, and the whole
    rebuild is given up for it. *)

From S2P Require Import Prelude Errors PyTime Identity Json Manifest Database World Sha256.
From S2P Require Import EmlStorage DeleteRemote Retry Snapshots Sync SyncDurable SyncFindings SyncFolders Reindex ReindexSamples ReindexSafe.

Section Atomic.
Context (root : list string) (clock : nat -> datetime) (cancelled : nat -> bool)
  (parse : bytes -> option datetime -> result parsed) (normalize : string -> string) (d0 : Db).

(** Nothing written: no batch, or one that is still open. *)
Definition untouched (w : World) : Prop := committed w = d0.
Definition shut (w : World) : Prop := untouched w /\ working w = None.
Definition in_progress (w : World) : Prop := untouched w /\ is_Some (working w).

Lemma shut_io {A} (m : M World A) : keeps shut m -> keeps shut (io m).
Proof. intros Hm w Hw. unfold io. destruct (faults w (ticks w)); [done|]. by apply Hm. Qed.
Lemma progress_io {A} (m : M World A) : keeps in_progress m -> keeps in_progress (io m).
Proof. intros Hm w Hw. unfold io. destruct (faults w (ticks w)); [done|]. by apply Hm. Qed.
Lemma progress_db_write {A} (f : Db -> result (A * Db)) : keeps in_progress (db_write f).
Proof.
  apply progress_io. intros w [Hu Hw]. destruct (f (view w)) as [[a d]|e]; [|done]. unfold post, put_db.
  destruct (working w) eqn:E; [|by destruct Hw]. split; [done|]. by eexists.
Qed.
Lemma progress_db_update' f : keeps in_progress (db_update' f).
Proof. apply progress_db_write. Qed.

Lemma shut_gather : keeps shut (gather cancelled).
Proof.
  unfold gather. apply keeps_bnd; [apply shut_io, keeps_gets|]. intros es. generalize nothing.
  induction es as [|e es IH]; intros g; cbn [gather_loop]; [apply keeps_ret|].
  apply keeps_bnd; [apply shut_io, keeps_ret|]. intros ?. apply keeps_bnd; [apply keeps_check_cancel|]. intros ?.
  apply keeps_bnd; [apply keeps_lift|]. intros g'. apply IH.
Qed.
Lemma shut_prepare_fetch p states f s : keeps shut (prepare_fetch root parse p states f s).
Proof.
  unfold prepare_fetch. destruct (fr_key f) as [[[account folder] v] u].
  destruct (text "relative_path"%string _) as [path|]; [|apply keeps_ret].
  destruct (text "file_hash"%string _) as [hash|]; [|apply keeps_ret]. destruct (dict_get _ _); [|apply keeps_raise].
  apply keeps_bnd.
  - unfold verified. apply keeps_try; [|intros e; apply keeps_if; [apply keeps_ret|apply keeps_throw]].
    apply keeps_bnd; [|intros ?; apply keeps_ret]. unfold read_verified. apply keeps_if; [apply keeps_raise|].
    apply keeps_bnd; [apply keeps_lift|]. intros q. apply keeps_bnd; [|intros c; apply keeps_if; [apply keeps_ret|apply keeps_raise]].
    apply shut_io. intros w Hw. by case_match.
  - intros raw. apply keeps_if; [apply keeps_ret|]. apply keeps_bnd; [|intros ?; apply keeps_ret].
    destruct raw; [apply keeps_lift|apply keeps_ret].
Qed.
Lemma shut_prepare p g : keeps shut (prepare root cancelled parse p g).
Proof.
  unfold prepare. apply keeps_bnd.
  { apply keeps_on_cancel, keeps_bnd; [apply keeps_check_cancel|]. intros ?. apply keeps_ret. }
  intros []; [apply keeps_ret|]. generalize (Preparation [] 0 0 0 (pl_warnings p) []).
  induction (valid_fetches p g) as [|f l IH]; intros s; cbn [prepare_loop]; [apply keeps_ret|].
  apply keeps_bnd.
  - intros w Hw. pose proof (keeps_bnd shut _ _ (keeps_check_cancel cancelled shut) (fun _ => shut_prepare_fetch p (g_states g) f s) w Hw) as H.
    unfold attempt. by destruct (mbnd _ _ w) as [[?|?] ?].
  - intros [s'|e]; [apply IH|]. apply keeps_if; [apply keeps_ret|apply keeps_throw].
Qed.

(** ** The batch *)

Lemma untouched_begin : triple shut begin_batch (fun _ => in_progress) untouched.
Proof.
  intros w [Hu Hw]. unfold begin_batch, io. destruct (faults w (ticks w)); [done|].
  change (working (tick w)) with (working w). rewrite Hw. split; [done|by eexists].
Qed.
Lemma untouched_commit : triple in_progress commit_batch (fun _ _ => True) untouched.
Proof. intros w [Hu _]. unfold commit_batch, io. by destruct (faults w (ticks w)). Qed.
Lemma weaken {A} (m : M World A) : keeps in_progress m -> triple in_progress m (fun _ => in_progress) untouched.
Proof. intros H. eapply triple_conseq; [exact H|auto..]. by intros w []. Qed.
Lemma untouched_cancel : triple shut (check_cancel cancelled) (fun _ => shut) untouched.
Proof. eapply triple_conseq; [apply (keeps_check_cancel cancelled shut)|done..|]. by intros w []. Qed.

(** The accounts and the folders, before the messages. *)
Lemma progress_accounts (l : list (string * account)) :
  keeps in_progress (mfor l (fun x => let! _ := db_write (upsert_account x.2) in mret tt)).
Proof. apply keeps_for. intros x. apply keeps_bnd; [apply progress_db_write|]. intros ?. apply keeps_ret. Qed.

(** The batch: committed when [write_rows] returns, forgotten when it raises. *)
Lemma untouched_write_rows p l s :
  triple shut (write_rows cancelled normalize p l s) (fun _ _ => True) untouched.
Proof.
  unfold write_rows. eapply triple_bnd; [apply untouched_cancel|]. intros ?.
  eapply triple_bnd; [apply untouched_begin|]. intros ?.
  eapply triple_bnd; [apply weaken, progress_accounts|]. intros ?.
  eapply triple_bnd; [apply weaken, keeps_write_folders; intros; apply progress_db_write|]. intros i.
  eapply triple_bnd; [apply weaken, keeps_write_messages; [intros; apply progress_db_write|]|].
  { apply Forall_true. intros. apply progress_db_write. }
  intros i'. eapply triple_bnd; [apply weaken, keeps_write_aliases; intros; apply progress_db_update'|]. intros ?.
  eapply triple_bnd; [apply weaken, keeps_write_snapshots; intros; first [apply progress_db_update'|apply progress_db_write]|].
  intros ?. apply untouched_commit.
Qed.

(** ** A snapshot without its message *)

Definition anything (w : World) : Prop := True.
Lemma anything_blind {A} (m : M World A) : triple anything m (fun _ => anything) anything.
Proof. intros w _. unfold post. by destruct (m w) as [[?|?] ?]. Qed.

Lemma folder_for_ids k i : triple anything (folder_for k i) (fun r _ => message_ids r.2 = message_ids i) anything.
Proof.
  unfold folder_for. destruct (dict_get _ _); [by apply triple_ret|].
  eapply triple_bnd; [apply anything_blind|]. intros id. by apply triple_ret.
Qed.
Lemma destination_ids account (d : option string) i :
  triple anything (match d with
                   | Some d => let! (id, i) := folder_for (account, d) i in mret (Some id, i)
                   | None => mret (None, i)
                   end) (fun r _ => message_ids r.2 = message_ids i) anything.
Proof.
  destruct d; [|by apply triple_ret]. eapply triple_bnd; [apply folder_for_ids|]. intros []. by apply triple_ret.
Qed.
Lemma write_folders_ids l : forall i, triple anything (write_folders l i)
  (fun i' _ => message_ids i' = message_ids i) anything.
Proof.
  induction l as [|[k f] l IH]; intros i; cbn [write_folders]; [by apply triple_ret|].
  eapply triple_bnd; [apply anything_blind|]. intros id. apply (IH (Ids _ (message_ids i))).
Qed.
Lemma write_messages_ids k l : Forall (fun x => record_key (pr_row x) <> k) l -> forall i,
  triple anything (write_messages normalize l i)
    (fun i' _ => dict_get k (message_ids i') = dict_get k (message_ids i)) anything.
Proof.
  induction 1 as [|x l Hx _ IH]; intros i; cbn [write_messages]; [by apply triple_ret|].
  eapply (triple_bnd _ _ _ (fun i' _ => dict_get k (message_ids i') = dict_get k (message_ids i))).
  - unfold write_message. destruct (dict_get _ _); [|by apply triple_raise].
    eapply triple_bnd; [apply destination_ids|]. intros [moved i'].
    eapply (triple_bnd _ _ _ (fun _ _ => message_ids i' = message_ids i)).
    { intros w E. unfold post. by destruct (db_write _ w) as [[?|?] ?]. }
    intros id. apply triple_ret. intros w E. cbn [message_ids]. rewrite dict_get_set_ne by congruence. by rewrite E.
  - intros i' w E. rewrite <- E. by apply (IH i').
Qed.
Lemma snapshot_memberships_ids account l : forall i, triple anything (snapshot_memberships account l i)
  (fun r _ => message_ids r.2 = message_ids i) anything.
Proof.
  induction l as [|j l IH]; intros i; cbn [snapshot_memberships]; [by apply triple_ret|].
  eapply (triple_bnd _ _ _ (fun r _ => message_ids r.2 = message_ids i)).
  - unfold snapshot_membership. destruct j; try by apply triple_raise. destruct (text _ _); [|by apply triple_raise].
    eapply triple_bnd; [apply folder_for_ids|]. intros [folder i1].
    intros w E. cbn in E. rewrite <- E.
    eapply (triple_bnd _ _ _ (fun r _ => message_ids r.2 = message_ids i1)); [apply destination_ids| |done].
    intros []. by apply triple_ret.
  - intros [mf i1] w E. cbn in E. rewrite <- E.
    eapply (triple_bnd _ _ _ (fun r _ => message_ids r.2 = message_ids i1)); [apply IH| |done].
    intros []. by apply triple_ret.
Qed.
Lemma write_snapshots_missing k l : k ∈ l.*1 -> forall i, dict_get k (message_ids i) = None ->
  triple anything (write_snapshots l i) (fun _ _ => False) anything.
Proof.
  induction l as [|[[account key] e] l IH]; intros Hk i Hi; [by apply elem_of_nil in Hk|]. cbn [write_snapshots].
  destruct (dict_get (account, key) (message_ids i)) as [id|] eqn:E; [|by apply triple_raise].
  apply elem_of_cons in Hk as [->|Hk]; [cbn in *; congruence|].
  destruct (get _ e) as [[]|]; try by apply triple_raise.
  eapply triple_bnd; [apply snapshot_memberships_ids|]. intros [mfs i'] w E'. cbn in E'.
  eapply (triple_bnd _ _ _ (fun _ => anything)); [apply anything_blind| |done].
  intros ?. apply IH; [done|]. cbn [fst snd] in *. congruence.
Qed.

Lemma write_rows_missing p l s k : k ∈ (pl_snapshots p).*1 ->
  Forall (fun x => record_key (pr_row x) <> k) (pp_messages s) ->
  triple anything (write_rows cancelled normalize p l s) (fun _ _ => False) anything.
Proof.
  intros Hk Hs. unfold write_rows. do 3 (eapply triple_bnd; [apply anything_blind|]; intros ?).
  eapply triple_bnd; [apply write_folders_ids|]. intros i w E. cbn in E.
  apply (triple_bnd anything _ _ (fun i' _ => dict_get k (message_ids i') = None)); [| |exact I].
  { intros w1 _. pose proof (write_messages_ids k _ Hs i w1 I) as H. unfold post in *.
    destruct (write_messages _ _ _ _) as [[i'|?] ?]; [|done]. by rewrite H, E. }
  intros i' w1 E1. apply (triple_bnd anything _ _ (fun _ => anything)); [apply anything_blind| |exact I].
  intros ?. eapply triple_bnd; [by apply (write_snapshots_missing k)|]. intros ? ? [].
Qed.
End Atomic.

(** ** The theorems *)

Lemma any_world w : anything w.
Proof. exact I. Qed.
#[local] Hint Resolve any_world : core.

Section Lost.
Context (root : list string) (clock : nat -> datetime) (cancelled : nat -> bool)
  (parse : bytes -> option datetime -> result parsed) (normalize : string -> string) (w : World).
Context (Hempty : messages (committed w) = []) (Hclosed : working w = None).

(** A run that is cancelled left the database alone. *)
Lemma reindex_cancelled_untouched r w' : reindex root clock cancelled parse normalize w = (Ok r, w') ->
  ri_cancelled r = true -> committed w' = committed w.
Proof using Hclosed.
  intros E. enough (triple (fun w1 => w1 = w) (reindex root clock cancelled parse normalize)
    (fun r w1 => ri_cancelled r = true -> untouched (committed w) w1) anything) as H.
  { specialize (H w eq_refl). rewrite E in H. exact H. }
  unfold reindex. eapply (triple_bnd _ _ _ (fun _ => shut (committed w))).
  { intros w1 ->. assert (shut (committed w) w) as Hs by done.
    pose proof (keeps_on_cancel (shut (committed w)) (let! g := gather cancelled in mret (Some g)) None) as H.
    specialize (H (keeps_bnd _ _ _ (shut_gather cancelled _) (fun _ => keeps_ret _ _)) w Hs).
    unfold post in *. by destruct (on_cancel _ _ w) as [[?|?] ?]. }
  intros [g|]; [|apply triple_ret; by intros ? []].
  eapply (triple_bnd _ _ _ (fun _ => shut (committed w))); [by apply triple_lift|]. intros p.
  eapply (triple_bnd _ _ _ (fun x w1 => x.2 = true -> untouched (committed w) w1)).
  - unfold rebuild. eapply (triple_bnd _ _ _ (fun _ => shut (committed w))).
    { intros w1 Hs. pose proof (shut_prepare root cancelled parse (committed w) p g w1 Hs) as H. unfold post in *.
      by destruct (prepare _ _ _ _ _ _) as [[?|?] ?]. }
    intros [s []]; [apply triple_ret; by intros ? []|]. unfold on_cancel. eapply triple_try.
    + eapply triple_bnd; [apply untouched_write_rows|]. intros ?. by apply triple_ret.
    + intros e. destruct (isinstance e _); [by apply triple_ret|by apply triple_throw].
  - intros [s []]; [by apply triple_ret|]. intros w1 _.
    apply (triple_bnd anything _ _ (fun _ => anything)); [apply anything_blind| |done]. intros ?. by apply triple_ret.
Qed.

(** The files of the message [account], [key] are lost, and it was not purged. *)
Definition lost (g : gathered) (p : plan) (account key : string) : Prop :=
  forall f path hash, (fr_key f, f) ∈ g_fetches g -> key_account (fr_key f) = account ->
    dict_get (fr_key f) (pl_canonical p) = Some key ->
    text "relative_path"%string (fr_event f) = Some path -> text "file_hash"%string (fr_event f) = Some hash ->
    ~ verified_file root w path hash /\ (account, key, path, hash) ∉ pl_completed p.

Lemma lost_not_prepared g p account key s : gather_all (synced w) nothing = Ok g -> plan_of g = Ok p ->
  lost g p account key -> Forall (good_prepared root w) (pp_messages s) ->
  Forall (fun x => record_key (pr_row x) <> (account, key)) (pp_messages s).
Proof.
  intros Hg Hp Hlost Hs. eapply Forall_impl; [exact Hs|].
  intros x [_ (g' & p' & [Hg' Hp' (f & path & hash & Hf & E1 & E2 & E3 & E4 & _ & E5)])] Ek.
  assert (g' = g) as -> by congruence. assert (p' = p) as -> by congruence.
  unfold record_key in Ek. injection Ek as Ek1 Ek2. rewrite Ek1 in E3. rewrite Ek2 in E4.
  destruct (Hlost f path hash Hf (eq_sym E3) E4 E1 E2) as [Hv Hc]. rewrite Ek1, Ek2 in E5. by destruct E5 as [[_ ?]|(_ & ? & _)].
Qed.

(** The first stage ends with what the manifest says, or cancelled. *)
Lemma gather_start g : gather_all (synced w) nothing = Ok g ->
  triple (fun w1 => w1 = w) (on_cancel (let! g := gather cancelled in mret (Some g)) None)
    (fun o w1 => (sound_world root w w1 /\ shut (committed w) w1) /\ (is_Some o -> o = Some g)) (untouched (committed w)).
Proof using Hempty Hclosed.
  intros Hg w1 ->.
  pose proof (triple_and _ _ _ _ _ _ _ (sound_gather root cancelled w) (shut_gather cancelled (committed w)) w
    (conj (sound_start root w Hempty Hclosed) (conj eq_refl Hclosed))) as H.
  unfold on_cancel, mtry, mbnd, post in *. destruct (gather cancelled w) as [[g1|e] w1].
  - destruct H as [[Hs Hg1] Hsh]. split; [done|]. intros _. congruence.
  - destruct (isinstance e _); [|apply H]. split; [done|]. by intros [].
Qed.
Lemma rebuild_lost g p account key : gather_all (synced w) nothing = Ok g -> plan_of g = Ok p ->
  (account, key) ∈ (pl_snapshots p).*1 -> lost g p account key ->
  triple (fun w1 => sound_world root w w1 /\ shut (committed w) w1) (rebuild root cancelled parse normalize p g)
    (fun x w1 => x.2 = true /\ untouched (committed w) w1) (untouched (committed w)).
Proof.
  intros Hg Hp Hk Hlost. unfold rebuild. eapply triple_bnd.
  { eapply triple_conseq; [apply (triple_and _ _ _ _ _ _ _ (sound_prepare root cancelled parse w g p Hg Hp)
      (shut_prepare root cancelled parse (committed w) p g))|done|intros a s H; exact H|]. by intros ? [_ []]. }
  intros [s []]; [apply triple_ret; by intros w1 [_ []]|].
  intros w1 [[_ Hs] Hsh]. cbn in Hs. unfold on_cancel, mtry, mbnd.
  pose proof (untouched_write_rows cancelled normalize (committed w) p (g_links g) s w1 Hsh) as H1.
  pose proof (write_rows_missing cancelled normalize p (g_links g) s (account, key) Hk
    (lost_not_prepared g p account key s Hg Hp Hlost Hs) w1 I) as H2.
  unfold post in *. destruct (write_rows _ _ _ _ _ _) as [[?|e] w2]; [done|]. by destruct (isinstance e _).
Qed.

(** C22. One lost message ends the rebuild of its account. The synchronizer appends a membership
    snapshot for every message it stores; if the files of one such message are missing or damaged and
    it was not purged, no run of [reindex] completes, whatever else is readable: [reindex] skips the
    fetch with a warning, then finds the snapshot without its message and raises, so that every run
    raises or is cancelled and leaves the new database as empty as it was. *)
Theorem lost_file_ends_rebuild g p account key :
  gather_all (synced w) nothing = Ok g -> plan_of g = Ok p -> (account, key) ∈ (pl_snapshots p).*1 ->
  lost g p account key ->
  match reindex root clock cancelled parse normalize w with
  | (Ok r, w') => ri_cancelled r = true /\ committed w' = committed w
  | (Err _, w') => committed w' = committed w
  end.
Proof using All.
  intros Hg Hp Hk Hlost. enough (triple (fun w1 => w1 = w) (reindex root clock cancelled parse normalize)
    (fun r w1 => ri_cancelled r = true /\ untouched (committed w) w1) (untouched (committed w))) as H.
  { specialize (H w eq_refl). by destruct (reindex _ _ _ _ _ w) as [[?|?] ?]. }
  unfold reindex. eapply triple_bnd; [by apply gather_start|].
  intros o. apply triple_pure. intros Ho. destruct o as [g1|]; [|apply triple_ret; by intros w1 [_ []]].
  specialize (Ho ltac:(by eexists)). injection Ho as ->. rewrite Hp.
  eapply (triple_bnd _ _ _ (fun p' w1 => (sound_world root w w1 /\ shut (committed w) w1) /\ p' = p)).
  { intros w1 H1. by split. }
  intros p'. apply triple_pure. intros ->. eapply triple_bnd; [by eapply rebuild_lost|].
  intros [s []]; [apply triple_ret; by intros w1 []|]. by intros w1 [H _].
Qed.
End Lost.

Lemma lost_file_ends_rebuild_witness : lost root_path files_lost sample_gathered sample_plan "acct" "imap:SU5CT1g:7:1"
  /\ match rebuild_sample files_lost with
     | (Ok r, w') => ri_cancelled r = true /\ committed w' = committed files_lost
     | (Err _, w') => committed w' = committed files_lost
     end.
Proof.
  assert (lost root_path files_lost sample_gathered sample_plan "acct" "imap:SU5CT1g:7:1") as Hl.
  { intros f path hash _ _ _ _ _. split; [|by vm_compute; apply not_elem_of_nil]. intros (l & c & _ & H & _).
    unfold read_file, files_lost in H. by cbn in H. }
  split; [exact Hl|].
  apply (lost_file_ends_rebuild root_path sample_clock uncancelled sample_parse (fun s => s) files_lost eq_refl eq_refl
    sample_gathered sample_plan "acct" "imap:SU5CT1g:7:1").
  - by vm_compute.
  - by vm_compute.
  - apply list_elem_of_In. vm_compute. by left.
  - exact Hl.
Defined.
