(* ===== verification/ReindexTables.v ===== *)
(** * ReindexTables: what the batch of a rebuild keeps of its tables

    [built] relates the ids [Reindex.write_rows] keeps in its dictionaries to the rows of the tables,
    and every write of the batch is shown to go through and to keep it, as long as no UID of a folder
    belongs to two messages. *)

From S2P Require Import Prelude Errors PyTime Identity Json Manifest Database DatabaseWf World Sha256.
From S2P Require Import EmlStorage DeleteRemote Retry Snapshots Sync SyncDurable SyncFindings SyncFolders Reindex ReindexSafe.

(** ** The tables of the batch *)

Section Built.
Context (normalize : string -> string) (owner : fetch_key -> string) (known : list string).

(** The dictionaries of ids tell the rows of the tables, and no UID belongs to two messages. *)
Record built (i : ids) (d : Db) : Prop := {
  bu_wf : wf d;
  bu_accounts : forall a, a ∈ known -> existsb (fun x => a_id x == a) (accounts d) = true;
  bu_folder : forall k id, dict_get k (folder_ids i) = Some id ->
    exists f, f ∈ folders d /\ f_id f = id /\ (f_account_id f, raw_name f) = k;
  bu_name : forall f, f ∈ folders d -> dict_get (f_account_id f, raw_name f) (folder_ids i) = Some (f_id f);
  bu_message : forall k id, dict_get k (message_ids i) = Some id ->
    exists m, m ∈ messages d /\ m_id m = id /\ row_key m = k;
  bu_owner : forall mf v u, mf ∈ memberships d -> uidvalidity mf = Some v -> uid mf = Some u ->
    exists f m, f ∈ folders d /\ f_id f = mf_folder_id mf /\ m ∈ messages d /\ m_id m = mf_message_id mf
      /\ account_id m = f_account_id f /\ source_item_key m = owner (f_account_id f, raw_name f, v, u);
}.

Lemma NoDup_map_inj {A B} (f : A -> B) l x y : NoDup (map f l) -> x ∈ l -> y ∈ l -> f x = f y -> x = y.
Proof.
  intros Hd Hx Hy E. apply list_elem_of_lookup in Hx as [i Hi], Hy as [j Hj].
  assert (map f l !! i = Some (f x)) as H1 by (by rewrite list_lookup_fmap, Hi).
  assert (map f l !! j = Some (f y)) as H2 by (by rewrite list_lookup_fmap, Hj).
  rewrite E in H1. rewrite (NoDup_lookup _ _ _ _ Hd H1 H2) in Hi. congruence.
Qed.

Lemma folder_with_row id f d : wf d -> f ∈ folders d -> f_id f = id -> folder_with id d = Some f.
Proof.
  intros Hw Hf E. unfold folder_with. destruct (List.find _ _) as [g|] eqn:Eg.
  - apply List.find_some in Eg as [Hg%list_elem_of_In Eid]. bsimp. f_equal.
    apply (NoDup_map_inj f_id (folders d)); [apply Hw|done..|congruence].
  - apply list_elem_of_In in Hf. apply (List.find_none _ _ Eg) in Hf. by bsimp.
Qed.

(** A folder is written: the tables of messages and memberships stay, rows of folders keep their names. *)
Definition same_tables (d d' : Db) : Prop :=
  messages d' = messages d /\ memberships d' = memberships d /\ accounts d' = accounts d /\ aliases d' = aliases d.

Lemma built_folder fi i d : built i d -> fi_account_id fi ∈ known ->
  exists id d', upsert_folder fi d = Ok (id, d') /\ same_tables d d'
    /\ built (Ids (dict_set (fi_account_id fi, fi_raw_name fi) id (folder_ids i)) (message_ids i)) d'.
Proof.
  intros [Hw Ha Hf Hn Hm Ho] Hk. set (k := (fi_account_id fi, fi_raw_name fi)).
  assert (exists id d', upsert_folder fi d = Ok (id, d') /\ same_tables d d'
    /\ (forall f, f ∈ folders d -> exists f', f' ∈ folders d' /\ f_id f' = f_id f
          /\ f_account_id f' = f_account_id f /\ raw_name f' = raw_name f)
    /\ (exists f', f' ∈ folders d' /\ f_id f' = id /\ (f_account_id f', raw_name f') = k)
    /\ (forall f', f' ∈ folders d' -> (f_account_id f', raw_name f') = k /\ f_id f' = id
          \/ (f_account_id f', raw_name f') <> k /\ exists f, f ∈ folders d /\ f_id f = f_id f'
             /\ f_account_id f = f_account_id f' /\ raw_name f = raw_name f'))
    as (id & d' & E & (E1 & E2 & E3 & E4) & H1 & (g & Hg & Eg & Ek) & H2).
  { unfold upsert_folder. destruct (List.find _ _) as [old|] eqn:Eo.
    - apply List.find_some in Eo as [Hold%list_elem_of_In Eo]. unfold same_folder in Eo. bsimp.
      eexists _, _. split; [done|]. split; [done|]. cbn [folders set_folders]. split_and!.
      + intros f Hin. eexists. split; [apply elem_of_update_where; by exists f|]. by case_match.
      + eexists. split; [apply elem_of_update_where; by exists old|]. unfold k. case_match; cbn; split; congruence.
      + intros f' (f & Hin & ->)%elem_of_update_where. destruct (same_folder _ _ f) eqn:Es; cbn.
        * unfold same_folder in Es. bsimp. left. unfold k. split; [congruence|].
          pose proof (Hn _ Hin). pose proof (Hn _ Hold). congruence.
        * right. split; [|by exists f]. unfold same_folder, k in *. intros [= Q1 Q2].
          by rewrite Q1, Q2, !Prelude.eqb_refl in Es.
    - rewrite (Ha _ Hk). cbn [check rbind]. eexists _, _. split; [done|]. split; [done|].
      cbn [folders set_folders bump_folder]. split_and!.
      + intros f Hin. exists f. split; [|done]. apply elem_of_app. by left.
      + eexists. split; [apply elem_of_app; right; by left|done].
      + intros f' [Hin| ->%list_elem_of_singleton]%elem_of_app; [right|by left]. split; [|by exists f'].
        apply list_elem_of_In in Hin. apply (List.find_none _ _ Eo) in Hin. unfold same_folder, k in *.
        intros [= Q1 Q2]. by rewrite Q1, Q2, !Prelude.eqb_refl in Hin. }
  exists id, d'. split; [done|]. split; [done|]. split; cbn [folder_ids message_ids].
  - by eapply wf_upsert_folder.
  - intros a Hin. rewrite E3. by apply Ha.
  - intros k' id' Hin. destruct (decide (k' = k)) as [->|Hne].
    + rewrite dict_get_set_eq in Hin. injection Hin as <-. by exists g.
    + rewrite dict_get_set_ne in Hin by done. destruct (Hf _ _ Hin) as (f & Hfd & <- & <-).
      destruct (H1 f Hfd) as (f' & ? & ? & Q1 & Q2). exists f'. by rewrite Q1, Q2.
  - intros f' Hin. destruct (H2 f' Hin) as [[-> <-]|(Hne & f & Hfd & <- & Q1 & Q2)]; [by rewrite dict_get_set_eq|].
    rewrite dict_get_set_ne by done. rewrite <- Q1, <- Q2. by apply Hn.
  - intros k' id' Hin. rewrite E1. by apply Hm.
  - intros mf v u Hin. rewrite E1. rewrite E2 in Hin. intros Q1 Q2.
    destruct (Ho mf v u Hin Q1 Q2) as (f & m & Hfd & Q3 & Hmd & Q4 & Q5 & Q6).
    destruct (H1 f Hfd) as (f' & ? & ? & Q7 & Q8). exists f', m. rewrite Q7, Q8. split_and!; try done. congruence.
Qed.

Lemma folder_with_ok id f d : wf d -> f ∈ folders d -> f_id f = id ->
  (if folder_with id d is Some _ then true else false) = true.
Proof. intros. by erewrite folder_with_row. Qed.

(** The row of a message is written: other rows keep their keys and their storage. *)
Lemma built_row x i d : built i d -> mr_columns (pr_row x) = SYNC_COLUMNS ->
  account_id (mr_row (pr_row x)) ∈ known -> forall folder moved,
  exists id d1, upsert_message (placed (pr_row x) folder moved) d = Ok (id, d1)
    /\ folders d1 = folders d /\ memberships d1 = memberships d /\ aliases d1 = aliases d
    /\ (exists m, m ∈ messages d1 /\ m_id m = id /\ row_key m = record_key (pr_row x))
    /\ built (Ids (folder_ids i) (dict_set (record_key (pr_row x)) id (message_ids i))) d1.
Proof.
  intros Hb Ec Hk folder moved. set (r := placed (pr_row x) folder moved).
  assert (exists id d1, upsert_message r d = Ok (id, d1) /\ folders d1 = folders d
    /\ memberships d1 = memberships d /\ aliases d1 = aliases d /\ accounts d1 = accounts d
    /\ (exists m, m ∈ messages d1 /\ m_id m = id /\ row_key m = record_key (pr_row x))
    /\ (forall m, m ∈ messages d -> exists m', m' ∈ messages d1 /\ m_id m' = m_id m /\ row_key m' = row_key m
          /\ (row_key m <> record_key (pr_row x) -> m' = m)))
    as (id & d1 & E & Ef & Emf & Eal & Eac & (m1 & Hm1 & Q1 & Q2) & Hold).
  { unfold upsert_message. subst r. cbn [placed mr_row mr_columns]. rewrite Ec, (bu_accounts _ _ Hb _ Hk).
    change (mem "content_key"%string SYNC_COLUMNS) with true. cbn [andb check rbind].
    assert (forall dst, account_id dst = account_id (mr_row (pr_row x)) ->
      row_key (set_columns SYNC_COLUMNS (mr_row (pr_row x)) dst) = record_key (pr_row x)) as Hset.
    { intros dst Ed. unfold row_key, record_key. cbn. by rewrite Ed. }
    destruct (List.find _ _) as [old|] eqn:Eo.
    - apply List.find_some in Eo as [Ho%list_elem_of_In Es]. pose proof Es as Es'. unfold same_key in Es. bsimp.
      eexists _, _. split; [done|]. cbn [folders memberships aliases accounts messages set_messages]. split_and!; try done.
      + eexists. split; [apply elem_of_update_where; by exists old|]. rewrite Es'. split; [done|]. by apply Hset.
      + intros m Hm. eexists. split; [apply elem_of_update_where; by exists m|].
        destruct (same_key _ _ m) eqn:Em; [|done]. split; [done|]. unfold same_key in Em. bsimp.
        rewrite Hset by done. unfold row_key, record_key. split; congruence.
    - eexists _, _. split; [done|]. cbn [folders memberships aliases accounts messages set_messages bump_message].
      split_and!; try done.
      + eexists. split; [apply elem_of_app; right; by left|]. split; [done|]. by apply Hset.
      + intros m Hm. exists m. split; [apply elem_of_app; by left|done]. }
  exists id, d1. split; [done|]. split; [done|]. split; [done|]. split; [done|]. split; [by exists m1|].
  split; cbn [folder_ids message_ids].
  - by eapply wf_upsert_message; [apply Hb|].
  - intros a Ha. rewrite Eac. by apply Hb.
  - intros k id' Hin. rewrite Ef. by apply Hb.
  - intros f Hf. apply Hb. by rewrite <- Ef.
  - intros k id' Hin. destruct (decide (k = record_key (pr_row x))) as [->|Hne].
    + rewrite dict_get_set_eq in Hin. injection Hin as <-. by exists m1.
    + rewrite dict_get_set_ne in Hin by done. destruct (bu_message _ _ Hb _ _ Hin) as (m & Hm & Q4 & Q5).
      destruct (Hold m Hm) as (m' & Hm' & _ & _ & Es). rewrite Es in Hm' by (by rewrite Q5). by exists m.
  - intros mf v u Hmf Hv Hu. rewrite Emf in Hmf. rewrite Ef.
    destruct (bu_owner _ _ Hb mf v u Hmf Hv Hu) as (f & m & Hf & Q4 & Hm & Q5 & Q6 & Q7).
    destruct (Hold m Hm) as (m' & Hm' & Q8 & Q9 & _). unfold row_key in Q9. injection Q9 as Q9 Q10.
    exists f, m'. rewrite Q9, Q10. split_and!; try done. congruence.
Qed.

(** A membership that names rows, and whose UID its message owns. *)
Definition member_ok (d : Db) (mf : membership) : Prop :=
  exists f m, f ∈ folders d /\ f_id f = mf_folder_id mf /\ m ∈ messages d /\ m_id m = mf_message_id mf
    /\ account_id m = f_account_id f
    /\ (forall v u, uidvalidity mf = Some v -> uid mf = Some u ->
          source_item_key m = owner (f_account_id f, raw_name f, v, u))
    /\ (forall id, moved_to_folder_id mf = Some id -> exists g, g ∈ folders d /\ f_id g = id).

Lemma member_refs d mf : wf d -> member_ok d mf -> membership_refs mf d = true.
Proof.
  intros Hw (f & m & Hf & Q1 & _ & _ & _ & _ & Hmv). unfold membership_refs.
  rewrite (folder_with_ok _ f) by done. cbn [andb]. destruct (moved_to_folder_id mf) as [id|]; [|done].
  destruct (Hmv id eq_refl) as (g & Hg & Q). by rewrite (folder_with_ok _ g).
Qed.

(** Two memberships with the same UID are the same message's, in the same folder. *)
Lemma clash_same i d mf o : built i d -> member_ok d mf -> o ∈ memberships d -> uid_clash mf o = true ->
  same_pair mf o = true.
Proof.
  intros Hb (f & m & Hf & Q1 & Hm & Q2 & Q3 & Hown & _) Ho Hc. unfold uid_clash in Hc. bsimp.
  destruct (uidvalidity mf) as [v|] eqn:Ev; [|done]. destruct (uid mf) as [u|] eqn:Eu; [|done]. bsimp.
  destruct (bu_owner _ _ Hb o v u) as (f' & m' & Hf' & Q4 & Hm' & Q5 & Q6 & Q7); [done..|].
  assert (f' = f) as ->.
  { apply (NoDup_map_inj f_id (folders d)); [apply (bu_wf _ _ Hb)|done..|]. congruence. }
  assert (m' = m) as ->.
  { apply (NoDup_map_inj row_key (messages d)); [apply (bu_wf _ _ Hb)|done..|]. unfold row_key.
    rewrite (Hown v u eq_refl eq_refl). congruence. }
  unfold same_pair. apply andb_true_iff. split; apply Z.eqb_eq; congruence.
Qed.

Lemma built_memberships i d d' : built i d -> wf d' -> folders d' = folders d -> messages d' = messages d ->
  accounts d' = accounts d -> (forall mf, mf ∈ memberships d' -> mf ∈ memberships d \/ member_ok d mf) -> built i d'.
Proof.
  intros [Hw Ha Hf Hn Hm Ho] Hw' Ef Em Ea Hmf. split; [done|..].
  - intros a. rewrite Ea. apply Ha.
  - intros k id. rewrite Ef. apply Hf.
  - intros f. rewrite Ef. apply Hn.
  - intros k id. rewrite Em. apply Hm.
  - intros mf v u Hin Hv Hu. rewrite Ef, Em. destruct (Hmf mf Hin) as [?|(f & m & ? & ? & ? & ? & ? & Hown & _)]; [by apply Ho|].
    exists f, m. split_and!; try done. by apply Hown.
Qed.

Lemma built_upsert_membership i d mf : built i d -> member_ok d mf ->
  exists d', upsert_membership mf d = Ok d' /\ folders d' = folders d /\ messages d' = messages d
    /\ aliases d' = aliases d /\ built i d'.
Proof.
  intros Hb Hmf. assert (exists d', upsert_membership mf d = Ok d' /\ folders d' = folders d /\ messages d' = messages d
    /\ accounts d' = accounts d /\ aliases d' = aliases d
    /\ forall o, o ∈ memberships d' -> o ∈ memberships d \/ o = mf) as (d' & E & Ef & Em & Ea & Eal & Hin).
  { unfold upsert_membership. rewrite member_refs by (done || apply Hb). cbn [andb].
    destruct (existsb _ (memberships d)) eqn:Ex.
    { apply existsb_exists in Ex as (o & Ho%list_elem_of_In & Ex). bsimp. by rewrite (clash_same i d mf o) in *. }
    cbn [negb check rbind]. eexists. split; [done|]. split_and!; try by case_match.
    intros o. case_match; cbn [memberships set_memberships].
    - intros (y & Hy & ->)%elem_of_update_where. case_match; auto.
    - intros [?| ->%list_elem_of_singleton]%elem_of_app; auto. }
  exists d'. split; [done|]. split_and!; try done. apply (built_memberships i d); try done.
  - eapply wf_upsert_membership; [apply Hb| |done]. destruct Hmf as (f & m & _ & _ & Hm & Q & _).
    rewrite <- Q. by apply (list_elem_of_fmap_2 m_id).
  - intros o Ho. destruct (Hin o Ho) as [?| ->]; auto.
Qed.

(** A message is written with its membership and its contents. *)
Lemma built_message x i d folder moved name v u :
  built i d -> mr_columns (pr_row x) = SYNC_COLUMNS -> account_id (mr_row (pr_row x)) ∈ known ->
  dict_get (account_id (mr_row (pr_row x)), name) (folder_ids i) = Some folder ->
  (forall id, moved = Some id -> exists g, g ∈ folders d /\ f_id g = id) ->
  uidvalidity (mr_membership (pr_row x)) = Some v -> uid (mr_membership (pr_row x)) = Some u ->
  source_item_key (mr_row (pr_row x)) = owner (account_id (mr_row (pr_row x)), name, v, u) ->
  exists id d', add_message normalize (placed (pr_row x) folder moved) (pr_contents x) d = Ok (id, d')
    /\ aliases d' = aliases d
    /\ built (Ids (folder_ids i) (dict_set (record_key (pr_row x)) id (message_ids i))) d'.
Proof.
  intros Hb Ec Hk Hfo Hmv Ev Eu Eo.
  destruct (built_row x i d Hb Ec Hk folder moved) as (id & d1 & E & Ef & _ & Eal & (m & Hm & Q1 & Q2) & Hb1).
  destruct (bu_folder _ _ Hb _ _ Hfo) as (f & Hf & Q3 & [= Q4 Q5]). unfold row_key, record_key in Q2. injection Q2 as Q6 Q7.
  destruct (built_upsert_membership _ d1 (with_message_id id (mr_membership (placed (pr_row x) folder moved))) Hb1)
    as (d2 & E2 & Ef2 & Em2 & Eal2 & Hb2).
  { exists f, m. rewrite Ef. cbn. split_and!; try done; try congruence. }
  exists id. unfold add_message. rewrite E. cbn [rbind]. rewrite E2. cbn [rbind].
  destruct (pr_contents x) as [c|]; (eexists; split; [done|]); (split; [cbn; congruence|]); [|done].
  apply (built_memberships _ d2); try done. 2:{ intros mf Hmf. by left. }
  eapply wf_same_keys; [|apply Hb2]. repeat split.
Qed.

(** The memberships of a message are replaced by those of its snapshot. *)
Lemma built_insert id l : forall i d, built i d ->
  Forall (fun mf => mf_message_id mf = id /\ member_ok d mf) l -> NoDup (map mf_folder_id l) ->
  (forall o, o ∈ memberships d -> mf_message_id o = id -> mf_folder_id o ∉ map mf_folder_id l) ->
  exists d', insert_memberships l d = Ok d' /\ folders d' = folders d /\ messages d' = messages d
    /\ aliases d' = aliases d /\ built i d'.
Proof.
  induction l as [|mf l IH]; intros i d Hb Hl Hd Ho; cbn [insert_memberships]; [by exists d|].
  apply Forall_cons in Hl as [[Eid Hmf] Hl]. cbn [map] in Hd. apply NoDup_cons in Hd as [Hnot Hd].
  rewrite member_refs by (done || apply Hb). cbn [andb].
  destruct (existsb _ (memberships d)) eqn:Ex.
  { exfalso. apply existsb_exists in Ex as (o & Hoin%list_elem_of_In & Ex).
    assert (same_pair mf o = true) as Hp by (apply orb_true_iff in Ex as [?|?]; [done|by apply (clash_same i d)]).
    unfold same_pair in Hp. bsimp. apply (Ho o Hoin); [congruence|]. cbn [map].
    assert (mf_folder_id o = mf_folder_id mf) as -> by done. left. }
  cbn [negb check rbind]. set (d1 := set_memberships (fun t => t ++ [mf]) d).
  assert (built i d1) as Hb1.
  { apply (built_memberships i d); try done.
    - destruct Hmf as (f & m & Hf & Q1 & Hm & Q2 & _). apply wf_append_membership; [apply Hb| | |done].
      + rewrite <- Q2. by apply (list_elem_of_fmap_2 m_id).
      + rewrite <- Q1. by apply (list_elem_of_fmap_2 f_id).
    - intros o. cbn [memberships set_memberships d1]. intros [?| ->%list_elem_of_singleton]%elem_of_app; auto. }
  destruct (IH i d1 Hb1) as (d' & E & Ef & Em & Ea & Hb'); [done|done| |].
  - intros o [Hoin| ->%list_elem_of_singleton]%elem_of_app Eo; [|done].
    intros Hin. apply (Ho o Hoin Eo). cbn [map]. by right.
  - exists d'. by split_and!.
Qed.
Lemma built_replace id m l i d : built i d -> m ∈ messages d -> m_id m = id ->
  Forall (fun mf => member_ok d (with_message_id id mf)) l -> NoDup (map mf_folder_id l) ->
  exists d', replace_message_memberships id l d = Ok d' /\ folders d' = folders d /\ messages d' = messages d
    /\ aliases d' = aliases d /\ built i d'.
Proof.
  intros Hb Hm Eid Hl Hd. set (d1 := set_memberships (delete_where (fun mf => (mf_message_id mf =? id)%Z)) d).
  assert (built i d1) as Hb1.
  { apply (built_memberships i d); try done; [by apply wf_delete_memberships, Hb|].
    intros o Ho. apply elem_of_delete_where in Ho as [Ho _]. by left. }
  assert (map mf_folder_id (map (with_message_id id) l) = map mf_folder_id l) as El by (by rewrite map_map).
  destruct (built_insert id (map (with_message_id id) l) i d1 Hb1) as (d' & E & Ef & Em & Ea & Hb').
  - apply Forall_fmap. eapply Forall_impl; [exact Hl|]. by intros mf Hmf.
  - by rewrite El.
  - intros o Ho Eo. apply elem_of_delete_where in Ho as [_ Ho]. bsimp. done.
  - exists d'. split_and!; try done. unfold replace_message_memberships.
    destruct (message_with id d) eqn:Emw; [done|]. apply list_elem_of_In in Hm.
    apply (List.find_none _ _ Emw) in Hm. bsimp. done.
Qed.

Lemma find_snoc {A} (q : A -> bool) l x : existsb q l = false -> q x = true -> List.find q (l ++ [x]) = Some x.
Proof.
  induction l as [|y l IH]; cbn; [by intros _ ->|]. intros [Hy Hl]%orb_false_iff Hx. rewrite Hy. by apply IH.
Qed.

(** An alias not yet known is added. *)
Lemma built_alias account key id e i d : built i d -> existsb (same_alias account key) (aliases d) = false ->
  exists d', add_message_identity_alias account key id e d = Ok d' /\ folders d' = folders d /\ messages d' = messages d
    /\ aliases d' = aliases d ++ [Alias account key id e] /\ built i d'.
Proof.
  intros Hb Hn. unfold add_message_identity_alias, insert_alias. cbn [al_account_id observed_source_item_key].
  rewrite Hn. cbn [aliases set_aliases].
  assert (same_alias account key (Alias account key id e) = true) as Hs by (unfold same_alias; by rewrite !Prelude.eqb_refl).
  rewrite (find_snoc _ _ _ Hn Hs). cbn [al_message_id]. rewrite Z.eqb_refl. cbn [check rbind]. eexists. split; [done|]. split_and!; try done.
  destruct Hb as [Hw Ha Hf Hnm Hm Ho]. split; try done. eapply wf_same_keys; [|exact Hw]. repeat split.
Qed.
End Built.
