(* ===== verification/ReindexComplete.v ===== *)
(** * ReindexComplete: a rebuild that is not disturbed restores every message

    In a run without faults and without cancellation [Reindex.reindex] returns, and the new database
    holds a row for every fetched message whose file is intact. What it asks of the manifest is in
    [rebuildable]: chiefly that no UID of a folder is claimed by two messages. *)

From S2P Require Import Prelude Errors PyTime Identity Json Manifest Database DatabaseWf World Sha256.
From S2P Require Import EmlStorage DeleteRemote Retry Snapshots Sync SyncDurable SyncFindings SyncFolders Reindex ReindexSamples ReindexSafe ReindexTables.

(** ** The batch, without faults *)

Lemma succeeds_write {A} (f : Db -> result (A * Db)) d a d' (Q : A -> World -> Prop) w :
  faultless w -> working w = Some d -> f d = Ok (a, d') ->
  (forall w', faultless w' -> working w' = Some d' -> Q a w') -> succeeds (db_write f) Q w.
Proof.
  intros Hf Hw E HQ. apply succeeds_io; [done|]. eexists a, _. unfold view. cbn [working tick]. rewrite Hw.
  cbn [get_or]. rewrite E. unfold put_db. cbn [working tick]. rewrite Hw. split; [done|]. split; [done|]. by apply HQ.
Qed.
Lemma succeeds_update (f : Db -> result Db) d d' (Q : unit -> World -> Prop) w :
  faultless w -> working w = Some d -> f d = Ok d' ->
  (forall w', faultless w' -> working w' = Some d' -> Q tt w') -> succeeds (db_update' f) Q w.
Proof. intros Hf Hw E HQ. eapply (succeeds_write _ d tt d'); [done..| |done]. by rewrite E. Qed.

Section Batch.
Context (normalize : string -> string) (owner : fetch_key -> string) (known : list string).

(** The open batch with the ids known so far. *)
Definition at_batch (i : ids) (d : Db) (w : World) : Prop :=
  faultless w /\ working w = Some d /\ built owner known i d.
(** More folders, nothing else. *)
Record more_folders (i : ids) (d : Db) (i' : ids) (d' : Db) : Prop := {
  mo_messages : message_ids i' = message_ids i;
  mo_ids : forall k id, dict_get k (folder_ids i) = Some id -> dict_get k (folder_ids i') = Some id;
  mo_tables : messages d' = messages d /\ memberships d' = memberships d /\ aliases d' = aliases d;
}.
Lemma more_folders_refl i d : more_folders i d i d.
Proof. by split. Qed.
Lemma more_folders_trans i1 d1 i2 d2 i3 d3 :
  more_folders i1 d1 i2 d2 -> more_folders i2 d2 i3 d3 -> more_folders i1 d1 i3 d3.
Proof.
  intros [H1 H2 (H3 & H4 & H5)] [G1 G2 (G3 & G4 & G5)]. split; [congruence|auto|split_and!; congruence].
Qed.

Lemma run_folder_for k i d w : at_batch i d w -> k.1 ∈ known ->
  succeeds (folder_for k i) (fun r w' => exists d', at_batch r.2 d' w' /\ more_folders i d r.2 d'
    /\ dict_get k (folder_ids r.2) = Some r.1) w.
Proof.
  intros (Hf & Hw & Hb) Hk. unfold folder_for. destruct (dict_get k (folder_ids i)) as [id|] eqn:E.
  { apply succeeds_ret; [done|]. exists d. split; [done|]. split; [apply more_folders_refl|done]. }
  destruct (built_folder owner known (plain_folder k.1 k.2 k.2 None) i d Hb Hk) as (id & d' & Eu & (E1 & E2 & _ & E4) & Hb').
  apply succeeds_bnd. eapply (succeeds_write _ d id d'); [done..|]. intros w' Hf' Hw'.
  cbn in Hb'. rewrite <- surjective_pairing in Hb'. apply succeeds_ret; [done|]. exists d'. cbn [fst snd].
  split; [by split_and!|]. split; [|cbn [folder_ids]; by rewrite dict_get_set_eq]. split; [done| |done].
  intros k' id' H. cbn [folder_ids]. rewrite dict_get_set_ne; [done|congruence].
Qed.
Lemma run_destination account (o : option string) i d w : at_batch i d w -> account ∈ known ->
  succeeds (match o with
            | Some x => let! (id, i) := folder_for (account, x) i in mret (Some id, i)
            | None => mret (None, i)
            end)
    (fun r w' => exists d', at_batch r.2 d' w' /\ more_folders i d r.2 d'
       /\ forall id, r.1 = Some id -> exists g, g ∈ folders d' /\ f_id g = id) w.
Proof.
  intros Ha Hk. destruct o as [x|].
  - apply succeeds_bnd. eapply succeeds_mono; [by apply (run_folder_for (account, x) i d w)|].
    intros [id i'] w' (d' & Hb & Hm & E) Hf. apply succeeds_ret; [done|]. exists d'. split_and!; try done.
    cbn [fst snd] in *. intros id' [= <-]. destruct Hb as (_ & _ & Hb).
    destruct (bu_folder _ _ _ _ Hb _ _ E) as (g & Hg & Q & _). by exists g.
  - apply succeeds_ret; [apply Ha|]. exists d. split; [done|]. split; [apply more_folders_refl|done].
Qed.

Lemma run_write_folders l : forall i d w, at_batch i d w ->
  Forall (fun x => (fi_account_id x.2, fi_raw_name x.2) = x.1 /\ x.1.1 ∈ known) l ->
  succeeds (write_folders l i) (fun i' w' => exists d', at_batch i' d' w' /\ message_ids i' = message_ids i
    /\ aliases d' = aliases d /\ (forall k, is_Some (dict_get k (folder_ids i)) -> is_Some (dict_get k (folder_ids i')))
    /\ forall k, k ∈ l.*1 -> is_Some (dict_get k (folder_ids i'))) w.
Proof.
  induction l as [|[k f] l IH]; intros i d w Hb Hl; cbn [write_folders].
  { apply succeeds_ret; [apply Hb|]. exists d. split_and!; try done. intros k Hk. by apply elem_of_nil in Hk. }
  apply Forall_cons in Hl as [[Ek Hk] Hl]. cbn [fst snd] in *. destruct Hb as (Hf & Hw & Hb).
  destruct (built_folder owner known f i d Hb) as (id & d' & Eu & (E1 & E2 & _ & E4) & Hb'); [by rewrite <- Ek in Hk|].
  rewrite Ek in Hb'. apply succeeds_bnd. eapply (succeeds_write _ d id d'); [done..|]. intros w' Hf' Hw'.
  assert (forall k', is_Some (dict_get k' (folder_ids i)) \/ k' = k -> is_Some (dict_get k' (dict_set k id (folder_ids i)))) as Hset.
  { intros k' Hk'. destruct (decide (k' = k)) as [->|Hne]; [by rewrite dict_get_set_eq|].
    rewrite dict_get_set_ne by done. by destruct Hk'. }
  eapply succeeds_mono; [apply (IH _ d' w'); [by split_and!|done]|].
  intros i' w2 (d2 & Hb2 & Em & Ea & Hmono & Hall) _. exists d2. split_and!; try done; [congruence|..].
  - intros k' Hk'. apply Hmono, Hset. by left.
  - intros k' [->|Hk']%elem_of_cons; [apply Hmono, Hset; by right|by apply Hall].
Qed.

(** What the batch asks of a prepared message. *)
Definition writable (x : prepared) : Prop :=
  mr_columns (pr_row x) = SYNC_COLUMNS /\ account_id (mr_row (pr_row x)) ∈ known
  /\ exists name v u, pr_folder x = (account_id (mr_row (pr_row x)), name)
     /\ uidvalidity (mr_membership (pr_row x)) = Some v /\ uid (mr_membership (pr_row x)) = Some u
     /\ source_item_key (mr_row (pr_row x)) = owner (account_id (mr_row (pr_row x)), name, v, u).

Lemma run_write_message x i d w : at_batch i d w -> writable x -> is_Some (dict_get (pr_folder x) (folder_ids i)) ->
  succeeds (write_message normalize x i) (fun i' w' => exists d', at_batch i' d' w' /\ aliases d' = aliases d
    /\ (forall k, is_Some (dict_get k (folder_ids i)) -> is_Some (dict_get k (folder_ids i')))
    /\ (forall k, is_Some (dict_get k (message_ids i)) \/ k = record_key (pr_row x) -> is_Some (dict_get k (message_ids i')))) w.
Proof.
  intros Ha (Ec & Hk & name & v & u & Ef & Ev & Eu & Eo) [folder Hfo]. unfold write_message. rewrite Hfo.
  apply succeeds_bnd. eapply succeeds_mono; [by apply run_destination|].
  intros [moved i1] w1 (d1 & (Hf1 & Hw1 & Hb1) & [Q1 Q2 (Q3 & Q4 & Q5)] & Hmv) _. cbn [fst snd] in *.
  rewrite Ef in Hfo. apply Q2 in Hfo.
  destruct (built_message normalize owner known x i1 d1 folder moved name v u Hb1 Ec Hk Hfo Hmv Ev Eu Eo)
    as (id & d2 & E2 & Ea & Hb2).
  apply succeeds_bnd. eapply (succeeds_write _ d1 id d2); [done..|]. intros w2 Hf2 Hw2.
  apply succeeds_ret; [done|]. exists d2. split; [by split_and!|]. split; [congruence|]. cbn [folder_ids message_ids].
  split; [intros k [id' H]; exists id'; by apply Q2|]. rewrite <- Q1.
  intros k Hk'. destruct (decide (k = record_key (pr_row x))) as [->|Hne]; [by rewrite dict_get_set_eq|].
  rewrite dict_get_set_ne by done. by destruct Hk'.
Qed.
Lemma run_write_messages l : forall i d w, at_batch i d w -> Forall writable l ->
  (forall x, x ∈ l -> is_Some (dict_get (pr_folder x) (folder_ids i))) ->
  succeeds (write_messages normalize l i) (fun i' w' => exists d', at_batch i' d' w' /\ aliases d' = aliases d
    /\ (forall k, is_Some (dict_get k (message_ids i)) -> is_Some (dict_get k (message_ids i')))
    /\ forall x, x ∈ l -> is_Some (dict_get (record_key (pr_row x)) (message_ids i'))) w.
Proof.
  induction l as [|x l IH]; intros i d w Ha Hl Hfo; cbn [write_messages].
  { apply succeeds_ret; [apply Ha|]. exists d. split_and!; try done. intros x Hx. by apply elem_of_nil in Hx. }
  apply Forall_cons in Hl as [Hx Hl]. apply succeeds_bnd.
  eapply succeeds_mono; [apply (run_write_message x i d w Ha Hx), Hfo; by left|].
  intros i1 w1 (d1 & Ha1 & Ea1 & Hf1 & Hm1) _. eapply succeeds_mono.
  { apply (IH i1 d1 w1 Ha1 Hl). intros y Hy. apply Hf1, Hfo. by right. }
  intros i2 w2 (d2 & Ha2 & Ea2 & Hm2 & Hall) _. exists d2. split; [done|]. split; [congruence|]. split.
  - intros k Hk. apply Hm2, Hm1. by left.
  - intros y [->|Hy]%elem_of_cons; [apply Hm2, Hm1; by right|by apply Hall].
Qed.

Lemma run_write_aliases l i todo : forall d w, at_batch i d w -> NoDup todo.*1 ->
  (forall account alias v, ((account, alias), v) ∈ todo -> existsb (same_alias account alias) (aliases d) = false) ->
  (forall account alias canonical ev h, ((account, alias), (canonical, ev, h)) ∈ todo ->
     exists key, resolve_identity_key account canonical l = Ok key /\ is_Some (dict_get (account, key) (message_ids i))) ->
  succeeds (write_aliases todo l i) (fun _ w' => exists d', at_batch i d' w') w.
Proof.
  induction todo as [|[[account alias] [[canonical ev] h]] todo IH]; intros d w Ha Hd Hn Hl; cbn [write_aliases].
  { apply succeeds_ret; [apply Ha|]. by exists d. }
  destruct (Hl account alias canonical ev h) as (key & -> & id & Hid); [by left|].
  destruct Ha as (Hf & Hw & Hb). apply succeeds_bnd, succeeds_lift; [done|]. rewrite Hid. apply succeeds_bnd.
  destruct (built_alias owner known account alias id ev i d Hb) as (d' & E & _ & _ & Ea & Hb').
  { apply (Hn account alias (canonical, ev, h)). by left. }
  cbn [fmap list_fmap] in Hd. apply NoDup_cons in Hd as [Hnot Hd].
  eapply (succeeds_update _ d d'); [done..|]. intros w' Hf' Hw'. apply (IH d' w'); [by split_and!|done|..].
  - intros a k v Hin. rewrite Ea, existsb_app, (Hn a k v) by (by right). cbn [existsb orb].
    rewrite orb_false_r. unfold same_alias. cbn [al_account_id observed_source_item_key].
    apply andb_false_iff. destruct (account == a) eqn:E1; [right|by left]. apply eqb_true in E1 as <-.
    apply eqb_false. intros <-. apply Hnot. by apply (list_elem_of_fmap_2 fst) in Hin.
  - intros. eapply Hl. by right.
Qed.

(** An entry of the snapshot of a message of [account] with key [key]. *)
Definition entry_folder (j : json) : option string :=
  match j with JObj m => text "folder_raw_name" m | _ => None end.
Definition entry_ok (account key : string) (j : json) : Prop :=
  exists m name, j = JObj m /\ text "folder_raw_name" m = Some name
    /\ forall v u, int_of "uidvalidity" m = Some v -> int_of "uid" m = Some u -> owner (account, name, v, u) = key.
(** The membership made of an entry, in terms of the folder ids. *)
Definition entry_member (account key : string) (i : ids) (j : json) (mf : membership) : Prop :=
  exists name, entry_folder j = Some name /\ dict_get (account, name) (folder_ids i) = Some (mf_folder_id mf)
    /\ (forall v u, uidvalidity mf = Some v -> uid mf = Some u -> owner (account, name, v, u) = key)
    /\ (forall id, moved_to_folder_id mf = Some id -> exists k, dict_get k (folder_ids i) = Some id).
Lemma entry_member_more account key i d i' d' j mf : more_folders i d i' d' ->
  entry_member account key i j mf -> entry_member account key i' j mf.
Proof.
  intros [_ Hm _] (name & E & Hf & Ho & Hmv). exists name. split_and!; [done|by apply Hm|done|].
  intros id Hid. destruct (Hmv id Hid) as [k Hk]. exists k. by apply Hm.
Qed.

Lemma run_snapshot_membership account key j i d w : at_batch i d w -> account ∈ known -> entry_ok account key j ->
  succeeds (snapshot_membership account j i) (fun r w' => exists d', at_batch r.2 d' w' /\ more_folders i d r.2 d'
    /\ entry_member account key r.2 j r.1) w.
Proof.
  intros Ha Hk (m & name & -> & En & Ho). unfold snapshot_membership. rewrite En. apply succeeds_bnd.
  eapply succeeds_mono; [by apply (run_folder_for (account, name))|].
  intros [folder i1] w1 (d1 & Ha1 & Hm1 & Hfo) _. cbn [fst snd] in *. apply succeeds_bnd.
  eapply succeeds_mono; [by apply (run_destination account)|].
  intros [moved i2] w2 (d2 & Ha2 & Hm2 & Hmv) Hf2. cbn [fst snd] in *. apply succeeds_ret; [done|].
  exists d2. cbn [fst snd]. split; [done|]. split; [by eapply more_folders_trans|]. exists name.
  split; [done|]. split; [by apply Hm2|]. split; [done|]. cbn [moved_to_folder_id]. intros id Hid.
  destruct (Hmv id Hid) as (g & Hg & <-). destruct Ha2 as (_ & _ & Hb2).
  exists (f_account_id g, raw_name g). by apply Hb2.
Qed.
Lemma run_snapshot_memberships account key l : forall i d w, at_batch i d w -> account ∈ known ->
  Forall (entry_ok account key) l ->
  succeeds (snapshot_memberships account l i) (fun r w' => exists d', at_batch r.2 d' w' /\ more_folders i d r.2 d'
    /\ Forall2 (entry_member account key r.2) l r.1) w.
Proof.
  induction l as [|j l IH]; intros i d w Ha Hk Hl; cbn [snapshot_memberships].
  { apply succeeds_ret; [apply Ha|]. exists d. split; [done|]. split; [apply more_folders_refl|constructor]. }
  apply Forall_cons in Hl as [Hj Hl]. apply succeeds_bnd.
  eapply succeeds_mono; [by apply (run_snapshot_membership account key)|].
  intros [mf i1] w1 (d1 & Ha1 & Hm1 & He) _. cbn [fst snd] in *. apply succeeds_bnd.
  eapply succeeds_mono; [by apply (IH i1 d1 w1)|]. intros [mfs i2] w2 (d2 & Ha2 & Hm2 & Hes) Hf2. cbn [fst snd] in *.
  apply succeeds_ret; [done|]. exists d2. cbn [fst snd]. split; [done|]. split; [by eapply more_folders_trans|].
  constructor; [by eapply entry_member_more|done].
Qed.

(** The folders of a snapshot are distinct, so the ids of its memberships are. *)
Lemma entry_members_distinct account key i d l mfs : built owner known i d ->
  Forall2 (entry_member account key i) l mfs -> NoDup (omap entry_folder l) -> NoDup (map mf_folder_id mfs).
Proof.
  intros Hb H. induction H as [|j mf l mfs (name & E & Hf & _) Hl IH]; intros Hd; [constructor|].
  cbn in Hd. rewrite E in Hd. apply NoDup_cons in Hd as [Hnot Hd]. cbn [map]. apply NoDup_cons. split; [|by apply IH].
  intros Hin. apply Hnot. apply list_elem_of_fmap in Hin as (mf' & Eid & Hin).
  apply list_elem_of_lookup in Hin as [n Hn]. destruct (Forall2_lookup_r _ _ _ _ _ Hl Hn) as (j' & Hj & name' & E' & Hf' & _).
  assert (name' = name) as ->.
  { destruct (bu_folder _ _ _ _ Hb _ _ Hf) as (f & Hfd & Q1 & Q2).
    destruct (bu_folder _ _ _ _ Hb _ _ Hf') as (f' & Hfd' & Q3 & Q4).
    assert (f' = f) as -> by (apply (NoDup_map_inj f_id (folders d)); [apply (bu_wf _ _ _ _ Hb)|done..|congruence]).
    congruence. }
  apply list_elem_of_omap. exists j'. split; [by eapply list_elem_of_lookup_2|done].
Qed.

Lemma run_write_snapshots l : forall i d w, at_batch i d w ->
  Forall (fun x => x.1.1 ∈ known /\ is_Some (dict_get x.1 (message_ids i))
    /\ exists entries, get "memberships"%string x.2 = Some (JList entries)
       /\ Forall (entry_ok x.1.1 x.1.2) entries /\ NoDup (omap entry_folder entries)) l ->
  succeeds (write_snapshots l i) (fun _ w' => exists i' d', at_batch i' d' w' /\ message_ids i' = message_ids i) w.
Proof.
  induction l as [|[[account key] e] l IH]; intros i d w Ha Hl; cbn [write_snapshots].
  { apply succeeds_ret; [apply Ha|]. by exists i, d. }
  apply Forall_cons in Hl as [(Hk & [id Hid] & entries & Ee & Hent & Hd) Hl]. cbn [fst snd] in *. rewrite Hid, Ee.
  apply succeeds_bnd. eapply succeeds_mono; [by apply (run_snapshot_memberships account key)|].
  intros [mfs i1] w1 (d1 & (Hf1 & Hw1 & Hb1) & [Q1 Q2 Q3] & Hes) _. cbn [fst snd] in *.
  rewrite <- Q1 in Hid. destruct (bu_message _ _ _ _ Hb1 _ _ Hid) as (m & Hm & Q4 & Q5).
  unfold row_key in Q5. injection Q5 as Q5 Q6. apply succeeds_bnd.
  destruct (built_replace owner known id m mfs i1 d1 Hb1 Hm Q4) as (d2 & E2 & _ & _ & _ & Hb2).
  - apply Forall_forall. intros mf Hmf. apply list_elem_of_lookup in Hmf as [n Hn].
    destruct (Forall2_lookup_r _ _ _ _ _ Hes Hn) as (j & _ & name & _ & Hf & Ho & Hmv).
    destruct (bu_folder _ _ _ _ Hb1 _ _ Hf) as (f & Hfd & Q7 & Q8). injection Q8 as Q8 Q9.
    exists f, m. cbn. split_and!; try done; [congruence|..].
    + intros v u Hv Hu. rewrite Q8, Q9, Q6. symmetry. by apply Ho.
    + intros id' Hid'. destruct (Hmv id' Hid') as [k Hk']. destruct (bu_folder _ _ _ _ Hb1 _ _ Hk') as (g & ? & ? & _). by exists g.
  - by eapply entry_members_distinct.
  - eapply (succeeds_update _ d1 d2); [done..|]. intros w2 Hf2 Hw2.
    eapply succeeds_mono; [apply (IH i1 d2 w2); [by split_and!|]|].
    + eapply Forall_impl; [exact Hl|]. intros x (? & H & ?). split_and!; try done. by rewrite Q1.
    + intros ? w3 (i' & d' & Ha' & Em) _. exists i', d'. split; [done|congruence].
Qed.
End Batch.

(** ** What the first loop keeps *)

(** Snapshots are filed under the account and the folder they name; a link is filed once. *)
Record keyed (g : gathered) : Prop := {
  ke_accounts : forall a e, (a, e) ∈ g_accounts g -> text "account_id" e = Some a;
  ke_folders : forall a n e, ((a, n), e) ∈ g_folders g ->
    text "account_id" e = Some a /\ text "folder_raw_name" e = Some n;
  ke_links : NoDup (g_links g).*1;
}.
Lemma keyed_same g g' : g_accounts g' = g_accounts g -> g_folders g' = g_folders g -> g_links g' = g_links g ->
  keyed g -> keyed g'.
Proof. intros E1 E2 E3 []. split; by rewrite ?E1, ?E2, ?E3. Qed.
Lemma gather_event_keyed e g g' : gather_event e g = Ok g' -> keyed g -> keyed g'.
Proof.
  destruct g as [acc fol fet l sn st pu co au]. unfold gather_event. intros H Hk.
  destruct (name_in ["account_snapshot"%string] e).
  { destruct (text "account_id" e) as [a|] eqn:Ea; injection H as <-; [|done]. destruct Hk as [H1 H2 H3]. split; [|done..].
    intros a' e' [[-> ->]|Hin]%elem_of_dict_set; [done|by apply H1]. }
  destruct (name_in ["folder_snapshot"%string] e).
  { destruct (text "account_id" e) as [a|] eqn:Ea; [|by injection H as <-].
    destruct (text "folder_raw_name" e) as [n|] eqn:En; injection H as <-; [|done]. destruct Hk as [H1 H2 H3]. split; [done| |done].
    intros a' n' e' [[[= -> ->] ->]|Hin]%elem_of_dict_set; [done|by apply H2]. }
  destruct (name_in ["message_membership_snapshot"%string] e).
  { repeat case_match; injection H as <-; try done; by apply (keyed_same (Gathered acc fol fet l sn st pu co au)). }
  destruct (name_in ["message_identity_linked"%string] e).
  { apply rbind_ok in H as (l' & El & [= <-]). destruct Hk as [H1 H2 H3]. split; [done..|]. cbn in *.
    unfold add_link in El. repeat (case_match; [|done]). apply rbind_ok in El as (? & _ & <-%Ok_inj).
    by apply dict_set_NoDup. }
  destruct (name_in ["fetch"%string] e).
  { case_match; injection H as <-; [|done]. by apply (keyed_same (Gathered acc fol fet l sn st pu co au)). }
  destruct (name_in STATE_EVENTS e); [injection H as <-; by apply (keyed_same (Gathered acc fol fet l sn st pu co au))|].
  destruct (name_in ["purge_intent"%string] e).
  { destruct (purge_key_of e); [apply rbind_ok in H as (? & _ & [= <-])|by injection H as <-].
    by apply (keyed_same (Gathered acc fol fet l sn st pu co au)). }
  destruct (name_in ["purged"%string] e); [|by injection H as <-].
  destruct (purge_key_of e); [|by injection H as <-].
  apply rbind_ok in H as (? & _ & (? & _ & [= <-])%rbind_ok). by apply (keyed_same (Gathered acc fol fet l sn st pu co au)).
Qed.
Lemma gather_all_keyed es : forall g g', gather_all es g = Ok g' -> keyed g -> keyed g'.
Proof.
  induction es as [|e es IH]; intros g g' H Hk; cbn [gather_all] in H; [by injection H as <-|].
  apply rbind_ok in H as (g1 & H1 & H). eapply IH, gather_event_keyed; eauto.
Qed.
Lemma keyed_nothing : keyed nothing.
Proof. split; [intros ? ? H|intros ? ? ? H|constructor]; by apply elem_of_nil in H. Qed.

(** The records of the plan. *)
Lemma plan_records g p : plan_of g = Ok p ->
  pl_accounts p = account_records (g_accounts g) /\ pl_folders p = folder_records (pl_accounts p) (g_folders g).
Proof.
  unfold plan_of. intros (? & _ & ([ks hs] & _ & (? & _ & (? & _ & (? & _ & (? & _ & [= <-])%rbind_ok)%rbind_ok)%rbind_ok)%rbind_ok)%rbind_ok)%rbind_ok.
  done.
Qed.
Lemma account_record_id e a : account_record e = Some a -> text "account_id" e = Some (a_id a).
Proof. unfold account_record. intros H. repeat (case_match; try done). by injection H as <-. Qed.
Lemma text_not_empty f e s : text f e = Some s -> s <> ""%string.
Proof. unfold text, nonempty. destruct (text_of f e); [|done]. case_match eqn:E; [done|]. intros [= <-]. by bsimp. Qed.
Lemma plan_account g p a r : keyed g -> plan_of g = Ok p -> (a, r) ∈ pl_accounts p -> a_id r = a /\ a <> ""%string.
Proof.
  intros Hk Hp Hin. destruct (plan_records _ _ Hp) as [E _]. rewrite E in Hin.
  apply list_elem_of_omap in Hin as ([a' e] & Hin & Er). cbn in Er.
  destruct (account_record e) as [r'|] eqn:Ea; [|done]. injection Er as -> ->.
  pose proof (account_record_id _ _ Ea) as H1. pose proof (ke_accounts _ Hk _ _ Hin) as H2.
  split; [congruence|by eapply text_not_empty].
Qed.
Lemma plan_folder g p k r : keyed g -> plan_of g = Ok p -> (k, r) ∈ pl_folders p ->
  (fi_account_id r, fi_raw_name r) = k /\ k.1 ∈ (pl_accounts p).*1.
Proof.
  intros Hk Hp Hin. destruct (plan_records _ _ Hp) as [_ E]. rewrite E in Hin.
  apply list_elem_of_omap in Hin as ([[a n] e] & Hin & Er). cbn [fst snd] in Er.
  destruct (folder_record e) as [r'|] eqn:Ef; [|done]. case_match eqn:Em; [|done]. injection Er as <- <-.
  apply mem_true in Em. split; [|done]. destruct (ke_folders _ Hk _ _ _ Hin) as [H1 H2]. unfold folder_record in Ef.
  rewrite H1, H2 in Ef. case_match; [|done]. by injection Ef as <-.
Qed.

(** ** The run, without faults *)

Section Complete.
Context (root : list string) (clock : nat -> datetime)
  (parse : bytes -> option datetime -> result parsed) (normalize : string -> string) (w0 : World).
Context (g : gathered) (p : plan) (owner : fetch_key -> string).

(** The fetch [f] is one of the message [canonical], stored at [path] with [hash]. *)
Definition fetched (f : fetch_record) (canonical path hash : string) : Prop :=
  f ∈ valid_fetches p g /\ dict_get (fr_key f) (pl_canonical p) = Some canonical
  /\ text "relative_path" (fr_event f) = Some path /\ text "file_hash" (fr_event f) = Some hash.
Definition is_purged (f : fetch_record) (canonical path hash : string) : bool :=
  mem (key_account (fr_key f), canonical, path, hash) (pl_completed p).
(** Its file is intact, or it was purged. *)
Definition restorable (f : fetch_record) (canonical path hash : string) : Prop :=
  is_hash hash = true /\ verified_file root w0 path hash \/ is_purged f canonical path hash = true.
Definition written (account key : string) : Prop :=
  exists f path hash, fetched f key path hash /\ key_account (fr_key f) = account /\ restorable f key path hash.

(** The values of an audit entry can be bound. *)
Definition bindable (e : event) : Prop :=
  Forall (fun f => is_ok (column_text (member f e)) = true) ["timestamp"; "account_id"; "message_id"; "subject"]%string.

(** What a rebuild asks of the manifest. *)
Record rebuildable : Prop := {
  rb_parse : forall c t, is_ok (parse c t) = true;
  rb_auth : Forall (fun x => mem (auth_type x.2) ["password"; "xoauth2"]%string = true) (pl_accounts p);
  rb_paths : Forall (fun f => forall path, text "relative_path" (fr_event f) = Some path ->
      is_ok (resolve_inside root path) = true) (valid_fetches p g);
  rb_owner : Forall (fun f => dict_get (fr_key f) (pl_canonical p) = Some (owner (fr_key f))) (valid_fetches p g);
  rb_links : Forall (fun x => exists key, resolve_identity_key x.1.1 x.2.1.1 (g_links g) = Ok key /\ written x.1.1 key)
      (g_links g);
  rb_snapshots : Forall (fun x => written x.1.1 x.1.2
      /\ exists entries, get "memberships"%string x.2 = Some (JList entries)
         /\ Forall (entry_ok owner x.1.1 x.1.2) entries /\ NoDup (omap entry_folder entries)) (pl_snapshots p);
  rb_audit : Forall (fun x => is_ok (audit_key x.1.1 x.2 (g_links g)) = true /\ bindable x.1.1
      /\ (forall r, x.2 = Some r -> bindable r)) (g_audit g);
}.

Context (Hg : gather_all (synced w0) nothing = Ok g) (Hp : plan_of g = Ok p) (Hok : rebuildable).

(** The token nobody cancels. *)
Definition never (_ : nat) : bool := false.

(** A world like [w0] in which no batch is open. *)
Definition calm (w : World) : Prop :=
  faultless w /\ same_files w0 w /\ working w = None /\ committed w = committed w0.

Lemma run_check_cancel (Q : unit -> World -> Prop) w : faultless w -> Q tt w -> succeeds (check_cancel never) Q w.
Proof. intros Hf HQ. by exists tt, w. Qed.

Lemma run_gather_loop es : forall g1 w, calm w -> gather_all es g1 = Ok g ->
  succeeds (gather_loop never es g1) (fun g' w' => g' = g /\ calm w') w.
Proof.
  induction es as [|e es IH]; intros g1 w Hc H; cbn [gather_loop gather_all] in *.
  { injection H as ->. apply succeeds_ret; [apply Hc|done]. }
  apply rbind_ok in H as (g2 & H1 & H). apply succeeds_bnd, succeeds_io; [apply Hc|]. apply succeeds_ret; [apply Hc|].
  apply succeeds_bnd, run_check_cancel; [apply Hc|]. apply succeeds_bnd. rewrite H1. apply succeeds_lift; [apply Hc|].
  by apply IH.
Qed.

Lemma run_verified f canonical path hash w : calm w -> fetched f canonical path hash ->
  succeeds (verified root path hash) (fun o w' => calm w' /\
    (is_hash hash = true -> verified_file root w0 path hash -> is_Some o)) w.
Proof.
  intros Hc (Hf & _ & Ep & _). pose proof (rb_paths Hok) as Hr. rewrite Forall_forall in Hr.
  specialize (Hr f Hf path Ep). destruct (resolve_inside root path) as [l|] eqn:El; [|done]. clear Hr.
  unfold verified, mtry, mbnd, read_verified. destruct (is_hash hash) eqn:Eh; cbn [negb].
  2:{ eexists None, w. split; [done|]. split; [apply Hc|]. split; [done|]. by intros. }
  unfold file_at, mlift, mbnd. rewrite El. cbn [rbind]. unfold read_bytes, io.
  destruct Hc as (Hfl & Hs & Hw & Hcm). assert (calm (tick w)) as Hc' by done.
  unfold succeeds. cbv beta iota. rewrite Hfl.
  change (read_file (join l) (tick w)) with (read_file (join l) w).
  destruct (read_file (join l) w) as [c|] eqn:Ec.
  2:{ eexists None, (tick w). split; [done|]. split; [done|]. split; [done|]. intros _ (l' & c & El' & Ec' & _).
      rewrite El in El'. injection El' as <-. unfold read_file in *. destruct Hs as (E & _). congruence. }
  destruct (hexdigest c == fold_hash hash) eqn:Ed.
  { eexists (Some c), (tick w). split; [done|]. split; [done|]. split; [done|]. by intros; eexists. }
  eexists None, (tick w). split; [done|]. split; [done|]. split; [done|]. intros _ (l' & c' & El' & Ec' & Ed').
  rewrite El in El'. injection El' as <-. unfold read_file in *. destruct Hs as (E & _).
  assert (c' = c) as -> by congruence. apply eqb_false in Ed. done.
Qed.

(** ** The messages *)

(** What a step makes of a fetch: a message, or one more skipped. *)
Definition prepared_from (f : fetch_record) (x : prepared) : Prop := exists canonical path hash size y,
  fetched f canonical path hash
  /\ x = rebuilt_row p (g_states g) f canonical path hash size y (is_purged f canonical path hash).
Definition prep_step (f : fetch_record) (s s' : preparation) : Prop :=
  (pp_messages s' = pp_messages s /\ pp_skipped s' = (pp_skipped s + 1)%Z
     /\ forall canonical path hash, fetched f canonical path hash -> ~ restorable f canonical path hash)
  \/ exists x, prepared_from f x /\ pp_messages s' = pp_messages s ++ [x] /\ pp_skipped s' = pp_skipped s.

Lemma run_prepare_fetch f s w : calm w -> f ∈ valid_fetches p g ->
  succeeds (prepare_fetch root parse p (g_states g) f s) (fun s' w' => calm w' /\ prep_step f s s') w.
Proof.
  intros Hc Hf. pose proof (rb_owner Hok) as Ho. rewrite Forall_forall in Ho. specialize (Ho f Hf).
  unfold prepare_fetch. destruct (fr_key f) as [[[account folder] v] u] eqn:Ek. rewrite <- Ek in Ho |- *.
  destruct (text "relative_path" (fr_event f)) as [path|] eqn:Ep.
  2:{ apply succeeds_ret; [apply Hc|]. split; [done|]. left. split_and!; try done. intros ? ? ? (_ & _ & ? & _). congruence. }
  destruct (text "file_hash" (fr_event f)) as [hash|] eqn:Eh.
  2:{ apply succeeds_ret; [apply Hc|]. split; [done|]. left. split_and!; try done. intros ? ? ? (_ & _ & _ & ?). congruence. }
  rewrite Ho. set (canonical := owner (fr_key f)) in *. assert (fetched f canonical path hash) as Hfe by done.
  assert (forall c p' h, fetched f c p' h -> c = canonical /\ p' = path /\ h = hash) as Hfun.
  { intros c p' h (_ & ? & ? & ?). split_and!; congruence. }
  change account with (account, folder, v, u).1.1.1. rewrite <- Ek. fold (key_account (fr_key f)).
  fold (is_purged f canonical path hash). cbv zeta.
  apply succeeds_bnd. eapply succeeds_mono; [by apply (run_verified f canonical)|]. intros raw w1 [Hc1 Hv] _.
  destruct (if raw is None then negb (is_purged f canonical path hash) else false) eqn:Es.
  { apply succeeds_ret; [apply Hc1|]. split; [done|]. left. split_and!; try done.
    intros c p' h (-> & -> & ->)%Hfun [[Hh Hfile]|Hpu]; destruct raw; try done; [by destruct (Hv Hh Hfile)|].
    by rewrite Hpu in Es. }
  apply succeeds_bnd. assert (exists x, match raw with Some c => mlift (parse c (event_date (fr_event f)))
    | None => mret empty_parsed end = (mret x : M World parsed)) as [x ->].
  { destruct raw as [c|]; [|by eexists]. pose proof (rb_parse Hok c (event_date (fr_event f))).
    destruct (parse c _) as [x|]; [by exists x|done]. }
  apply succeeds_ret; [apply Hc1|]. apply succeeds_ret; [apply Hc1|]. split; [done|]. right.
  eexists. split; [|done]. exists canonical, path, hash. by do 2 eexists.
Qed.

Lemma run_prepare_loop l : forall s w, calm w -> (forall f, f ∈ l -> f ∈ valid_fetches p g) ->
  succeeds (prepare_loop root never parse p (g_states g) l s) (fun r w' => calm w' /\ r.2 = false
    /\ (Z.of_nat (length (pp_messages r.1)) + pp_skipped r.1
        = Z.of_nat (length (pp_messages s)) + pp_skipped s + Z.of_nat (length l))%Z
    /\ (forall x, x ∈ pp_messages r.1 -> x ∈ pp_messages s \/ exists f, f ∈ l /\ prepared_from f x)
    /\ (forall x, x ∈ pp_messages s -> x ∈ pp_messages r.1)
    /\ forall f canonical path hash, f ∈ l -> fetched f canonical path hash -> restorable f canonical path hash ->
         exists x, x ∈ pp_messages r.1 /\ prepared_from f x) w.
Proof.
  induction l as [|f l IH]; intros s w Hc Hl; cbn [prepare_loop].
  { apply succeeds_ret; [apply Hc|]. split_and!; try done; [cbn; lia|by left|]. intros ? ? ? ? Hnil. by apply elem_of_nil in Hnil. }
  apply succeeds_bnd. destruct (run_prepare_fetch f s w Hc) as (s' & w' & E & Hf' & Hc' & Hstep); [apply Hl; by left|].
  exists (Ok s'), w'. split; [unfold attempt, mbnd, check_cancel, raise_if_cancelled, never; by rewrite E|]. split; [done|].
  cbn. eapply succeeds_mono; [by apply (IH s' w' Hc'); intros; apply Hl; right|].
  intros [r stop] w2 (Hc2 & -> & Hcount & Hfrom & Hkeep & Hall) _. cbn [fst snd] in *.
  destruct Hstep as [(Em & Esk & Hnot)|(x & Hx & Em & Esk)]; rewrite Em in *; rewrite Esk in *; split_and!; try done.
  - cbn [length]. lia.
  - intros x Hx. destruct (Hfrom x Hx) as [?|(f' & ? & ?)]; [by left|]. right. exists f'. split; [by right|done].
  - intros f' c p' h [->|Hin]%elem_of_cons Hfe Hr; [by destruct (Hnot c p' h)|by eapply Hall].
  - rewrite length_app in Hcount. cbn [length] in *. lia.
  - intros y Hy. destruct (Hfrom y Hy) as [[?| ->%list_elem_of_singleton]%elem_of_app|(f' & ? & ?)]; [by left|right|right].
    + exists f. split; [by left|done].
    + exists f'. split; [by right|done].
  - intros y Hy. apply Hkeep, elem_of_app. by left.
  - intros f' c p' h [->|Hin]%elem_of_cons Hfe Hr; [|by eapply Hall]. exists x. split; [|done].
    apply Hkeep, elem_of_app. right. by left.
Qed.
Lemma run_prepare w : calm w ->
  succeeds (prepare root never parse p g) (fun r w' => calm w' /\ r.2 = false
    /\ (Z.of_nat (length (pp_messages r.1)) + pp_skipped r.1 = Z.of_nat (length (valid_fetches p g)))%Z
    /\ (forall x, x ∈ pp_messages r.1 -> exists f, prepared_from f x)
    /\ forall f canonical path hash, fetched f canonical path hash -> restorable f canonical path hash ->
         exists x, x ∈ pp_messages r.1 /\ prepared_from f x) w.
Proof.
  intros Hc. unfold prepare. apply succeeds_bnd. exists false, w. split; [done|]. split; [apply Hc|].
  eapply succeeds_mono; [by apply run_prepare_loop|].
  intros r w' (Hc' & ? & Hcount & Hfrom & _ & Hall) _. split_and!; try done.
  - intros x Hx. destruct (Hfrom x Hx) as [Hnil|(f & _ & ?)]; [by apply elem_of_nil in Hnil|by exists f].
  - intros f c path hash Hf. eapply Hall; [apply Hf|exact Hf].
Qed.

(** ** The rows *)

(** A batch in which only accounts are written. *)
Definition bare (d : Db) : Prop :=
  wf d /\ folders d = [] /\ messages d = [] /\ memberships d = [] /\ aliases d = [].
Definition has_account (d : Db) (a : string) : Prop := existsb (fun x => a_id x == a) (accounts d) = true.
Lemma upsert_account_bare a d : bare d -> a_id a <> ""%string -> mem (auth_type a) ["password"; "xoauth2"]%string = true ->
  exists d', upsert_account a d = Ok (a_id a, d') /\ bare d' /\ forall b, has_account d b \/ b = a_id a -> has_account d' b.
Proof.
  intros (Hw & Hb) Hid Hauth. unfold upsert_account. apply eqb_false in Hid. rewrite Hid, Hauth. cbn [negb check rbind].
  eexists. split; [done|]. unfold has_account. destruct (existsb _ (accounts d)) eqn:Ex; (split; [split; [|done]|]).
  - eapply wf_same_keys; [|exact Hw]. repeat split.
  - intros b Hb'. cbn [accounts set_accounts]. assert (existsb (fun x => a_id x == b) (accounts d) = true) as H
      by (destruct Hb' as [?| ->]; done).
    apply existsb_exists in H as (x & Hx%list_elem_of_In & E). bsimp. apply existsb_exists.
    eexists. split; [apply list_elem_of_In, elem_of_update_where; by exists x|]. case_match eqn:Ea; bsimp; apply eqb_true; congruence.
  - eapply wf_same_keys; [|exact Hw]. repeat split.
  - intros b Hb'. cbn [accounts set_accounts]. rewrite existsb_app. apply orb_true_iff.
    destruct Hb' as [?| ->]; [by left|right]. cbn. by rewrite Prelude.eqb_refl.
Qed.
Lemma run_accounts l : forall d w, faultless w -> working w = Some d -> bare d ->
  Forall (fun x => a_id x.2 = x.1 /\ x.1 <> ""%string /\ mem (auth_type x.2) ["password"; "xoauth2"]%string = true) l ->
  succeeds (mfor l (fun x => let! _ := db_write (upsert_account x.2) in mret tt)) (fun _ w' => exists d',
    working w' = Some d' /\ bare d' /\ (forall a, has_account d a -> has_account d' a)
    /\ forall a, a ∈ l.*1 -> has_account d' a) w.
Proof.
  induction l as [|[k a] l IH]; intros d w Hf Hw Hb Hl; cbn [mfor].
  { apply succeeds_ret; [done|]. exists d. split_and!; try done. intros a Ha. by apply elem_of_nil in Ha. }
  apply Forall_cons in Hl as [(Ek & Hk & Hauth) Hl]. cbn [fst snd] in *. subst k.
  destruct (upsert_account_bare a d Hb Hk Hauth) as (d' & E & Hb' & Hall).
  apply succeeds_bnd, succeeds_bnd. eapply (succeeds_write _ d _ d'); [done..|]. intros w1 Hf1 Hw1.
  apply succeeds_ret; [done|]. eapply succeeds_mono; [by apply (IH d' w1)|].
  intros ? w2 (d2 & Hw2 & Hb2 & Hmono & Hin) _. exists d2. split_and!; try done.
  - intros b Hb3. apply Hmono, Hall. by left.
  - intros b [->|Hb3]%elem_of_cons; [apply Hmono, Hall; by right|by apply Hin].
Qed.

Lemma prepared_writable f x : prepared_from f x -> writable owner (pl_accounts p).*1 x
  /\ pr_folder x ∈ (pl_folders p).*1 /\ exists canonical path hash, fetched f canonical path hash
     /\ record_key (pr_row x) = (key_account (fr_key f), canonical).
Proof.
  intros (canonical & path & hash & size & y & Hfe & ->). assert (keyed g) as Hk by (eapply gather_all_keyed; [done|apply keyed_nothing]).
  assert (key_folder (fr_key f) ∈ (pl_folders p).*1) as Hfo.
  { destruct Hfe as [Hf _]. unfold valid_fetches in Hf. apply list_elem_of_In, filter_In in Hf as [_ Hf]. by apply mem_true. }
  assert ((fr_key f).1.1.1 ∈ (pl_accounts p).*1) as Ha.
  { pose proof Hfo as Hfo'. apply list_elem_of_fmap in Hfo' as ([k r] & E & Hin). cbn in E. subst k.
    by destruct (plan_folder _ _ _ _ Hk Hp Hin) as [_ ?]. }
  pose proof (rb_owner Hok) as Ho. rewrite Forall_forall in Ho. specialize (Ho f ltac:(apply Hfe)).
  assert (canonical = owner (fr_key f)) as Ec by (destruct Hfe as (_ & ? & _); congruence).
  unfold rebuilt_row. destruct (fr_key f) as [[[account folder] v] u] eqn:Ek. cbn [fst] in Ha.
  split; [|split; [done|exists canonical, path, hash; split; [done|done]]].
  split; [done|]. split; [done|]. exists folder, v, u. by split_and!.
Qed.

(** What [run_prepare] says of the preparation. *)
Definition prepares (s : preparation) : Prop :=
  (forall x, x ∈ pp_messages s -> exists f, prepared_from f x)
  /\ forall f canonical path hash, fetched f canonical path hash -> restorable f canonical path hash ->
       exists x, x ∈ pp_messages s /\ prepared_from f x.
Lemma written_prepared s a k : prepares s -> written a k -> exists x, x ∈ pp_messages s /\ record_key (pr_row x) = (a, k).
Proof.
  intros [_ Hall] (f & path & hash & Hf & <- & Hr). destruct (Hall f k path hash Hf Hr) as (x & Hx & Hfx).
  exists x. split; [done|]. destruct (prepared_writable f x Hfx) as (_ & _ & c & p' & h & Hf' & ->).
  destruct Hf as (_ & ? & _), Hf' as (_ & ? & _). congruence.
Qed.
Lemma written_known a k s : prepares s -> written a k -> a ∈ (pl_accounts p).*1.
Proof.
  intros Hs Hk. destruct (written_prepared s a k Hs Hk) as (x & Hx & E). destruct Hs as [Hfrom _].
  destruct (Hfrom x Hx) as [f Hf]. destruct (prepared_writable f x Hf) as ((_ & Ha & _) & _).
  unfold record_key in E. by injection E as <- _.
Qed.

Lemma built_bare d : bare d -> (forall a, a ∈ (pl_accounts p).*1 -> has_account d a) ->
  built owner (pl_accounts p).*1 (Ids [] []) d.
Proof.
  intros (Hw & Ef & Em & Emf & _) Ha. split; try done.
  - intros f. rewrite Ef. intros H. by apply elem_of_nil in H.
  - intros mf v u. rewrite Emf. intros H. by apply elem_of_nil in H.
Qed.
Lemma plan_accounts_ok : Forall (fun x => a_id x.2 = x.1 /\ x.1 <> ""%string
  /\ mem (auth_type x.2) ["password"; "xoauth2"]%string = true) (pl_accounts p).
Proof.
  apply Forall_forall. intros [a r] Hin. pose proof (rb_auth Hok) as H. rewrite Forall_forall in H.
  destruct (plan_account g p a r) as [? ?]; [eapply gather_all_keyed; [done|apply keyed_nothing]|done..|].
  split_and!; try done. by apply (H (a, r)).
Qed.

Lemma run_write_rows s w : prepares s -> faultless w -> working w = None -> bare (committed w) ->
  succeeds (write_rows never normalize p (g_links g) s) (fun _ w' =>
    working w' = None
    /\ forall x, x ∈ pp_messages s -> exists m, m ∈ messages (committed w') /\ row_key m = record_key (pr_row x)) w.
Proof.
  intros Hs Hf Hw Hbare. assert (keyed g) as Hk by (eapply gather_all_keyed; [done|apply keyed_nothing]).
  unfold write_rows. apply succeeds_bnd, run_check_cancel; [done|]. apply succeeds_bnd, succeeds_begin; [done..|].
  apply succeeds_bnd. eapply succeeds_mono.
  { apply (run_accounts _ (committed w)); [done..|apply plan_accounts_ok]. }
  intros u1 w1 (d1 & Hw1 & Hb1 & _ & Ha1) Hf1. apply succeeds_bnd. eapply succeeds_mono.
  { apply (run_write_folders owner (pl_accounts p).*1 (pl_folders p) (Ids [] []) d1 w1).
    - split_and!; try done. by apply built_bare.
    - apply Forall_forall. intros [k r] Hin. by apply (plan_folder g p). }
  intros i2 w2 (d2 & Hb2 & Em2 & Ea2 & _ & Hfo) _. apply succeeds_bnd. eapply succeeds_mono.
  { apply (run_write_messages normalize owner _ (pp_messages s) i2 d2 w2 Hb2).
    - apply Forall_forall. intros x Hx. destruct Hs as [Hfrom _]. destruct (Hfrom x Hx) as [f Hfx].
      apply (prepared_writable f x Hfx).
    - intros x Hx. destruct Hs as [Hfrom _]. destruct (Hfrom x Hx) as [f Hfx]. apply Hfo, (prepared_writable f x Hfx). }
  intros i3 w3 (d3 & Hb3 & Ea3 & _ & Hall) _.
  assert (forall a k, written a k -> is_Some (dict_get (a, k) (message_ids i3))) as Hwr.
  { intros a k Hak. destruct (written_prepared s a k Hs Hak) as (x & Hx & <-). by apply Hall. }
  apply succeeds_bnd. eapply succeeds_mono.
  { apply (run_write_aliases owner _ (g_links g) i3 (g_links g) d3 w3 Hb3 (ke_links _ Hk)).
    - intros account alias v _. destruct Hb1 as (_ & _ & _ & _ & E). by rewrite Ea3, Ea2, E.
    - intros a al c ev h Hin. pose proof (rb_links Hok) as H. rewrite Forall_forall in H.
      destruct (H _ Hin) as (key & E & Hak). exists key. split; [done|]. by apply Hwr. }
  intros u4 w4 (d4 & Hb4) _. apply succeeds_bnd. eapply succeeds_mono.
  { apply (run_write_snapshots owner _ (pl_snapshots p) i3 d4 w4 Hb4). eapply Forall_impl; [apply (rb_snapshots Hok)|].
    intros [[a k] e] (Hak & Hent). cbn [fst snd] in *. split; [by eapply written_known|]. split; [by apply Hwr|done]. }
  intros u5 w5 (i5 & d5 & (Hf5 & Hw5 & Hb5) & E5) _. apply (succeeds_commit _ d5); [done..|]. split; [done|]. intros x Hx. cbn [committed set_committed set_working].
  destruct (Hall x Hx) as [id Hid]. rewrite <- E5 in Hid. destruct (bu_message _ _ _ _ Hb5 _ _ Hid) as (m & Hm & _ & E).
  by exists m.
Qed.

(** ** The audit log *)

Lemma bindable_set k v e : bindable e -> is_ok (column_text v) = true -> bindable (dict_set k v e).
Proof.
  unfold bindable. intros He Hv. eapply Forall_impl; [exact He|]. intros f Hf. cbn in Hf. unfold member, get in *.
  destruct (decide (f = k)) as [->|Hne]; [by rewrite dict_get_set_eq|by rewrite dict_get_set_ne].
Qed.
Lemma bindable_overlay m e : bindable e -> bindable (overlay m e).
Proof.
  intros He. destruct m as [[[id subject] size]|]; [|done]. unfold overlay.
  apply bindable_set; [|done]. destruct subject, id; cbn [option_map]; repeat (apply bindable_set; [|done]); done.
Qed.
Lemma bindable_entry e operation related now : bindable e -> bindable related ->
  is_ok (audit_entry e operation related now) = true.
Proof.
  unfold bindable. rewrite !Forall_cons. intros (Ht & Ha & Hm & Hs & _) (_ & Ha' & Hm' & Hs' & _).
  assert (forall f, is_ok (column_text (member f e)) = true -> is_ok (column_text (member f related)) = true ->
    is_ok (column_text (match member f e with JNull => member f related | v => v end)) = true) as Hv
    by (intros f He Hr; by destruct (member f e)).
  unfold audit_entry. assert (is_ok (column_text (get_or (JStr now) (get "timestamp"%string e))) = true) as Ht'.
  { unfold member in Ht. by destruct (get _ e). }
  apply Hv in Ha; [|done]. apply Hv in Hm; [|done]. apply Hv in Hs; [|done]. clear - Ht' Ha Hm Hs. revert Ht' Ha Hm Hs.
  repeat match goal with |- context [column_text ?x] => generalize (column_text x) end. by intros [] [] [] [].
Qed.
Lemma bindable_nothing : bindable [].
Proof. by repeat constructor. Qed.

Lemma run_write_audit s w : faultless w -> working w = None ->
  succeeds (mfor (g_audit g) (write_audit_entry clock (g_links g) s)) (fun _ w' =>
    messages (committed w') = messages (committed w)) w.
Proof.
  intros Hf Hw. eapply succeeds_mono.
  { apply (succeeds_for _ _ (fun w1 => working w1 = None /\ messages (committed w1) = messages (committed w))); [done..|].
    intros [[e operation] related] w1 Hin Hf1 [Hw1 Hm1]. pose proof (rb_audit Hok) as H. rewrite Forall_forall in H.
    destruct (H _ Hin) as (Hk & He & Hr). cbn [fst snd] in *. unfold write_audit_entry.
    destruct (audit_key e related (g_links g)) as [key|]; [|done]. apply succeeds_bnd, succeeds_lift; [done|]. cbv zeta.
    run_step. run_step. run_step.
    match goal with |- context [audit_entry e operation ?r ?n] => pose proof (bindable_entry e operation r n He) as Hb end.
    destruct (audit_entry _ _ _ _) as [entry|] eqn:Ee; [|discriminate Hb; apply bindable_overlay; destruct related; [by apply Hr|apply bindable_nothing]].
    apply succeeds_lift; [done|].
    assert (exists op, ai_operation entry = Some op) as [op Eop].
    { unfold audit_entry in Ee. apply rbind_ok in Ee as (? & _ & (? & _ & (? & _ & (? & _ & [= <-])%rbind_ok)%rbind_ok)%rbind_ok). by eexists. }
    eapply succeeds_db_update'; [done|by unfold record_audit; rewrite Eop|]. unfold put_db. cbn [working tick]. by rewrite Hw1; unfold view; rewrite Hw1. }
  by intros ? w1 [_ ?] _.
Qed.

(** ** The whole run *)

Lemma run_gather : calm w0 -> succeeds (gather never) (fun g' w' => g' = g /\ calm w') w0.
Proof.
  intros Hc. unfold gather. apply succeeds_bnd, succeeds_io; [apply Hc|]. apply succeeds_gets; [apply Hc|].
  by apply run_gather_loop.
Qed.
Lemma run_rebuild w : calm w -> bare (committed w0) ->
  succeeds (rebuild root never parse normalize p g) (fun r w' => r.2 = false /\ working w' = None /\ prepares r.1
    /\ (Z.of_nat (length (pp_messages r.1)) + pp_skipped r.1 = Z.of_nat (length (valid_fetches p g)))%Z
    /\ forall x, x ∈ pp_messages r.1 -> exists m, m ∈ messages (committed w') /\ row_key m = record_key (pr_row x)) w.
Proof.
  intros Hc Hb. unfold rebuild. apply succeeds_bnd. eapply succeeds_mono; [by apply run_prepare|].
  intros [s stop] w1 ((Hf1 & _ & Hw1 & Hc1) & Est & Hcount & Hfrom & Hall) _. cbn [fst snd] in *. subst stop.
  unfold on_cancel. apply succeeds_try, succeeds_bnd. eapply succeeds_mono.
  { apply (run_write_rows s); [by split|done..|by rewrite Hc1]. }
  intros u w2 [Hw2 Hrows] Hf2. apply succeeds_ret; [done|]. by split_and!.
Qed.
End Complete.

Section Whole.
Context (root : list string) (clock : nat -> datetime)
  (parse : bytes -> option datetime -> result parsed) (normalize : string -> string) (w : World)
  (g : gathered) (p : plan) (owner : fetch_key -> string).

(** C5. An undisturbed rebuild is complete: started on an empty database, without faults and without
    cancellation, from a manifest that satisfies [rebuildable], [reindex] returns; every fetch it
    considers is either counted as a message or as skipped; and for every fetch whose file is still there
    with its hash the database holds a row of that fetch's message, which is readable at its stored path
    unless a purge of the message was completed. *)
Theorem reindex_complete :
  faultless w -> working w = None -> committed w = empty_db ->
  gather_all (synced w) nothing = Ok g -> plan_of g = Ok p -> rebuildable root parse w g p owner ->
  exists r w', reindex root clock never parse normalize w = (Ok r, w') /\ ri_cancelled r = false
    /\ (ri_messages r + ri_skipped r = Z.of_nat (length (valid_fetches p g)))%Z
    /\ forall f canonical path hash, fetched g p f canonical path hash -> is_hash hash = true ->
         verified_file root w path hash ->
         exists m, m ∈ messages (committed w') /\ row_key m = (key_account (fr_key f), canonical)
           /\ ((forall path hash, (key_account (fr_key f), canonical, path, hash) ∉ pl_completed p) ->
               exists path hash, relative_path m = Some path /\ file_hash m = Some hash
                 /\ verified_file root w path hash).
Proof.
  intros Hf Hw He Hg Hp Hok. assert (calm w w) as Hc by (split_and!; try done; reflexivity).
  assert (bare (committed w)) as Hb by (rewrite He; split; [split; constructor|done]).
  assert (succeeds (reindex root clock never parse normalize) (fun r w' => ri_cancelled r = false
    /\ (ri_messages r + ri_skipped r = Z.of_nat (length (valid_fetches p g)))%Z
    /\ exists s, prepares root w g p s /\ forall x, x ∈ pp_messages s ->
         exists m, m ∈ messages (committed w') /\ row_key m = record_key (pr_row x)) w) as (r & w' & E & _ & Hcan & Hcount & s & Hs & Hrows).
  { unfold reindex. apply succeeds_bnd. unfold on_cancel at 1. apply succeeds_try, succeeds_bnd.
    eapply succeeds_mono; [by apply (run_gather w g)|]. intros g' w1 [-> Hc1] Hf1. apply succeeds_ret; [done|].
    rewrite Hp. apply succeeds_bnd, succeeds_lift; [done|]. apply succeeds_bnd.
    eapply succeeds_mono; [by apply (run_rebuild root parse normalize w g p owner Hg Hp Hok)|].
    intros [s stop] w2 (Est & Hw2 & Hs & Hcount & Hrows) Hf2. cbn [fst snd] in *. subst stop. apply succeeds_bnd.
    eapply succeeds_mono; [by apply (run_write_audit root clock parse w g p owner Hok s)|].
    intros u w3 Em Hf3. apply succeeds_ret; [done|]. split_and!; [done|done|]. exists s. by rewrite Em. }
  exists r, w'. split_and!; try done. intros f canonical path hash Hfe Hh Hv.
  destruct Hs as [Hfrom Hall]. destruct (Hall f canonical path hash Hfe) as (x & Hx & Hfx); [left; done|].
  destruct (Hrows x Hx) as (m & Hm & Ek).
  destruct (prepared_writable root parse w g p owner Hg Hp Hok f x Hfx) as (_ & _ & c & p' & h & Hf' & Er).
  assert (c = canonical) as -> by (destruct Hfe as (_ & ? & _), Hf' as (_ & ? & _); congruence).
  exists m. split; [done|]. split; [congruence|]. intros Hnot.
  assert (messages (committed w) = []) as Hm0 by (by rewrite He).
  destruct (reindex_rows root clock never parse normalize w Hm0 Hw) as [Hr _]. rewrite E in Hr.
  destruct (Hr m Hm) as (g' & p'' & [Hg' Hp' (f' & path' & hash' & _ & _ & _ & _ & _ & Eh & Hst)]).
  assert (g' = g) as -> by congruence. assert (p'' = p) as -> by congruence.
  rewrite Er in Ek. unfold row_key in Ek. injection Ek as Ea Es. rewrite Ea, Es in Hst.
  destruct Hst as [[_ Hin]|(Ep & Hv' & _)]; [by destruct (Hnot _ _ Hin)|]. by exists path', hash'.
Qed.
End Whole.

(** ** The sample *)

Definition sample_fetch : fetch_record :=
  List.hd (FetchRecord [] (""%string, ""%string, 0%Z, 0%Z)) (valid_fetches sample_plan sample_gathered).
Lemma sample_written : written root_path to_rebuild sample_gathered sample_plan "acct" "imap:SU5CT1g:7:1".
Proof.
  exists sample_fetch, "eml/acct/2024/04/b5d4045c3f466fa91fe2cc6abe79232a.eml"%string,
    "b5d4045c3f466fa91fe2cc6abe79232a1a57cdf104f7a26e716e0a1e2789df78"%string.
  split; [split_and!|split]; [apply list_elem_of_In; vm_compute; by left|by vm_compute..|].
  left. split; [by vm_compute|]. by eexists _, [65; 66; 67]%Z.
Qed.
Definition sample_snapshot : (string * string) * event := List.hd ("", "", [])%string (pl_snapshots sample_plan).
Definition sample_entry : event :=
  Eval vm_compute in match get "memberships"%string sample_snapshot.2 with Some (JList [JObj m]) => m | _ => [] end.
Lemma sample_rebuildable :
  rebuildable root_path sample_parse to_rebuild sample_gathered sample_plan (fun _ => "imap:SU5CT1g:7:1"%string).
Proof.
  assert (valid_fetches sample_plan sample_gathered = [sample_fetch]) as Ef by (by vm_compute).
  split.
  - done.
  - vm_compute. by repeat constructor.
  - rewrite Ef. apply Forall_singleton. intros path E. vm_compute in E. injection E as <-. by vm_compute.
  - rewrite Ef. apply Forall_singleton. by vm_compute.
  - assert (g_links sample_gathered = []) as -> by (by vm_compute). constructor.
  - assert (pl_snapshots sample_plan = [sample_snapshot]) as -> by (by vm_compute).
    apply Forall_singleton. split; [exact sample_written|]. exists [JObj sample_entry]. split; [by vm_compute|]. split.
    + apply Forall_singleton. exists sample_entry, "INBOX"%string. split; [reflexivity|]. split; [vm_compute; reflexivity|]. intros; reflexivity.
    + apply NoDup_singleton.
  - assert (g_audit sample_gathered = []) as -> by (by vm_compute). constructor.
Qed.
Lemma reindex_complete_witness :
  rebuildable root_path sample_parse to_rebuild sample_gathered sample_plan (fun _ => "imap:SU5CT1g:7:1"%string)
  /\ exists r w', rebuild_sample to_rebuild = (Ok r, w') /\ ri_cancelled r = false
    /\ (ri_messages r + ri_skipped r = Z.of_nat (length (valid_fetches sample_plan sample_gathered)))%Z
    /\ forall f canonical path hash, fetched sample_gathered sample_plan f canonical path hash -> is_hash hash = true ->
         verified_file root_path to_rebuild path hash ->
         exists m, m ∈ messages (committed w') /\ row_key m = (key_account (fr_key f), canonical)
           /\ ((forall path hash, (key_account (fr_key f), canonical, path, hash) ∉ pl_completed sample_plan) ->
               exists path hash, relative_path m = Some path /\ file_hash m = Some hash
                 /\ verified_file root_path to_rebuild path hash).
Proof.
  split; [exact sample_rebuildable|].
  apply (reindex_complete root_path sample_clock sample_parse (fun s => s) to_rebuild sample_gathered sample_plan
    (fun _ => "imap:SU5CT1g:7:1"%string)); try done; try exact sample_rebuildable; by vm_compute.
Defined.
