(* ===== verification/PstManifest.v ===== *)
(** * PstManifest: the manifest of a PST import generation

    [infrastructure/storage/pst_manifest.py]: two immutable snapshots with a content hash
    ([import.json], [folders.json]) and an event log ([items.jsonl]) with the line format of
    [Manifest] but a schema of its own, and an order between its events: an item is saved after it
    was discovered, purged after its intent, a generation switch committed after it was prepared.
    A file is its list of bytes; the directories, the fsync calls and the temporary file of a
    snapshot are left out. Python compares [True] and [1] as equal, [plain_value] says so; floats,
    which no writer of the program emits, compare by their text. *)

From S2P Require Import Prelude Errors PyText PyTime Json Manifest Sha256.

Open Scope string_scope.

(** ** Values *)

(** [payload.get(field)] *)
Definition attr (f : string) (e : event) : json := get_or JNull (get f e).

(** Equality of Python values: dictionaries without their order, a bool as its integer. *)
Fixpoint unbool (j : json) : json :=
  match j with
  | JBool b => JInt (Z.b2z b)
  | JList l => JList (map unbool l)
  | JObj d => JObj (map (fun kv => (kv.1, unbool kv.2)) d)
  | _ => j
  end.
Definition plain_value (j : json) : json := canon (unbool j).
Definition py_eq (a b : json) : bool := plain_value a == plain_value b.

(** [uuid.UUID(text)]: the 128-bit number, when the text has the form of one; digits are ASCII. *)
Fixpoint remove_all (p : pystr) (skip : nat) (s : pystr) : pystr :=
  match s with
  | [] => []
  | c :: r => match skip with
              | S k => remove_all p k r
              | O => if is_prefix p s then remove_all p (length p - 1) r else c :: remove_all p 0 r
              end
  end.
Definition is_brace (c : Z) : bool := ((c =? 123) || (c =? 125))%Z.
Fixpoint strip_left (p : Z -> bool) (s : pystr) : pystr :=
  match s with c :: r => if p c then strip_left p r else s | [] => [] end.
Definition strip (p : Z -> bool) (s : pystr) : pystr := rev (strip_left p (rev (strip_left p s))).
Definition is_space (c : Z) : bool := ((c =? 32) || ((9 <=? c) && (c <=? 13)) || ((28 <=? c) && (c <=? 31)))%Z.
(** Digits with single underscores between them. *)
Fixpoint hex_number (acc : Z) (underscore : bool) (s : pystr) : option Z :=
  match s with
  | [] => if underscore then None else Some acc
  | c :: s => if (c =? 95)%Z then if underscore then None else hex_number acc true s
              else match hex_value c with Some d => hex_number (16 * acc + d)%Z false s | None => None end
  end.
(** [int(text, 16)] *)
Definition int16 (s : pystr) : option Z :=
  let s := strip is_space s in
  let '(sign, s) := match s with
                    | c :: r => if (c =? 45)%Z then ((-1)%Z, r) else if (c =? 43)%Z then (1%Z, r) else (1%Z, s)
                    | [] => (1%Z, []) end in
  let prefixed := is_prefix (lit "0x") s || is_prefix (lit "0X") s in
  let s := if prefixed then drop 2 s else s in
  let s := if prefixed then match s with c :: r => if (c =? 95)%Z then r else s | [] => [] end else s in
  match s with
  | [] => None
  | c :: _ => if (c =? 95)%Z then None else option_map (Z.mul sign) (hex_number 0 false s)
  end.
Definition parse_uuid (s : string) : option Z :=
  let hex := strip is_brace (remove_all (lit "uuid:") 0 (remove_all (lit "urn:") 0 (code_points s))) in
  let hex := List.filter (fun c => negb (c =? 45)%Z) hex in
  if (length hex =? 32)%nat then
    match int16 hex with
    | Some n => if ((0 <=? n) && (n <? 2 ^ 128))%Z then Some n else None
    | None => None
    end
  else None.
(** [UUID.version]: bits 76 to 79, when the variant bits say RFC 4122. *)
Definition uuid_version (n : Z) : option Z :=
  if Z.testbit n 63 && negb (Z.testbit n 62) then Some (Z.land (Z.shiftr n 76) 15) else None.
Definition is_uuid4 (s : string) : bool :=
  match parse_uuid s with Some n => uuid_version n == Some 4%Z | None => false end.

(** [_validate_import_uuid] *)
Definition validate_import_uuid (s : string) : result unit :=
  match parse_uuid s with
  | None => raise ValueError "import_uuid must be a UUID"
  | Some n => check (uuid_version n == Some 4%Z) ValueError "import_uuid must be a version 4 UUID"
  end.

(** [_SHA256.fullmatch] *)
Definition is_lower_hex (c : Z) : bool := (((48 <=? c) && (c <=? 57)) || ((97 <=? c) && (c <=? 102)))%Z.
Definition is_sha256 (v : option json) : bool :=
  match v with
  | Some (JStr s) => (length (code_points s) =? 64)%nat && forallb is_lower_hex (code_points s)
  | _ => false
  end.

(** [_require_text], [_validate_sha256], [_require_non_negative_int] *)
Definition require_text (payload : event) (f : string) : result unit :=
  check (is_text (get f payload)) ValueError "field must be a non-empty string".
Definition validate_sha256 (v : option json) : result unit :=
  check (is_sha256 v) ValueError "PST manifest field must be a lowercase SHA-256 hex string".
Definition require_non_negative_int (payload : event) (f : string) : result unit :=
  match get f payload with
  | None => raise KeyError f
  | v => check (is_count v) TypeError "field must be a non-negative integer"
  end.
(** [_validate_import_uuid(_require_text(payload, field, ...))] *)
Definition require_uuid (payload : event) (f : string) : result unit :=
  require_text payload f ;? validate_import_uuid (get_or "" (text_of f payload)).

(** ** Snapshots *)

Definition CONTENT_HASH_FIELD : string := "content_sha256".
(** [_canonical_json]: [allow_nan=False], and the text must encode as UTF-8. *)
Definition canonical_json (e : event) : result bytes :=
  check (finite (JObj e)) ValueError "Out of range float values are not JSON compliant" ;?
  check (utf8_valid false (dumps (JObj e))) ValueError "surrogates not allowed" ;?
  Ok (dumps (JObj e)).
(** [_with_content_hash] *)
Definition hashed_content (e : event) : event :=
  let content := dict_pop CONTENT_HASH_FIELD e in
  match get "schema_version" content with
  | Some _ => content
  | None => dict_set "schema_version" (JInt 1) content
  end.
Definition with_content_hash (e : event) : result event :=
  let content := hashed_content e in
  let? encoded := canonical_json content in
  Ok (dict_set CONTENT_HASH_FIELD (JStr (hexdigest encoded)) content).
(** The last check of both validators. *)
Definition check_content_hash (e : event) : result unit :=
  validate_sha256 (get CONTENT_HASH_FIELD e) ;?
  let? expected := with_content_hash e in
  check (get CONTENT_HASH_FIELD e == get CONTENT_HASH_FIELD expected) ValueError
    "content_sha256 does not match its contents".
Definition check_schema (e : event) : result unit :=
  check (py_eq (attr "schema_version" e) (JInt 1)) ValueError "unsupported PST manifest schema version".

Definition IMPORT_REQUIRED : list string :=
  ["account_id"; "display_name"; "import_uuid"; "created_at"; "source_filename"; "source_sha256";
   "source_size_bytes"; "source_mtime"; "source_file_identity"; "readpst_version"; "options"].
Definition is_object (v : option json) : bool := match v with Some (JObj _) => true | _ => false end.
(** [_validate_import_snapshot] *)
Definition validate_import_snapshot (e : event) : result event :=
  check_schema e ;?
  require_fields e IMPORT_REQUIRED ;?
  require_uuid e "import_uuid" ;?
  require_text e "account_id" ;? require_text e "display_name" ;?
  require_text e "source_filename" ;? require_text e "readpst_version" ;?
  let? _ := parse_timestamp (get "created_at" e) in
  validate_sha256 (get "source_sha256" e) ;?
  check (is_count (get "source_size_bytes" e)) ValueError
    "import manifest source_size_bytes must be a non-negative integer" ;?
  check (is_object (get "source_file_identity" e)) ValueError
    "import manifest source_file_identity must be an object" ;?
  check (is_object (get "options" e)) ValueError "import manifest options must be an object" ;?
  check_content_hash e ;?
  Ok e.

(** One entry of [folders.json], and the names seen so far. *)
Fixpoint validate_folders (l : list json) (seen : list string) : result unit :=
  match l with
  | [] => Ok tt
  | JObj f :: l =>
      require_fields f ["raw_name"; "display_name"] ;?
      check (is_text (get "raw_name" f)) ValueError "folder manifest raw_name must be a non-empty string" ;?
      check (is_text (get "display_name" f)) ValueError
        "folder manifest display_name must be a non-empty string" ;?
      let raw := get_or "" (text_of "raw_name" f) in
      check (negb (mem raw seen)) ValueError "folder manifest raw_name is duplicated" ;?
      check (negb (present (get "original_name_unresolved" f)) || is_bool (get "original_name_unresolved" f))
        TypeError "folder manifest original_name_unresolved must be a boolean" ;?
      validate_folders l (raw :: seen)
  | _ :: _ => raise ValueError "folder manifest entries must be objects"
  end.
(** [_validate_folders_snapshot] *)
Definition validate_folders_snapshot (e : event) : result event :=
  check_schema e ;?
  match get "folders" e with
  | Some (JList l) => validate_folders l [] ;? check_content_hash e ;? Ok e
  | _ => raise ValueError "folder manifest folders must be an array"
  end.

(** [_read_snapshot]: the bytes of the file, [None] when it cannot be opened. *)
Definition read_snapshot (validate : event -> result event) (content : option bytes) : result event :=
  match content ≫= loads with
  | None => raise ManifestCorruptError "PST manifest snapshot cannot be read"
  | Some (JObj e) =>
      match validate e with
      | Ok e => Ok e
      | Err x => if isinstance x TypeError || isinstance x ValueError
                 then raise ManifestCorruptError "PST manifest snapshot does not satisfy its schema" else Err x
      end
  | Some _ => raise ManifestCorruptError "PST manifest snapshot must be a JSON object"
  end.
(** [_atomic_write_json] on the file's content: published once, never replaced by another. *)
Definition write_snapshot (validate : event -> result event) (payload : event) (content : option bytes)
    : result bytes :=
  let? encoded := canonical_json payload in
  match content with
  | None => Ok (encoded ++ [newline])%list
  | Some c =>
      let? existing := read_snapshot validate (Some c) in
      check (py_eq (JObj existing) (JObj payload)) ValueError "PST manifest snapshot is immutable" ;?
      Ok c
  end.
(** [write_import_manifest], [write_folders_manifest] *)
Definition write_import_manifest (snapshot : event) (content : option bytes) : result bytes :=
  let? payload := with_content_hash snapshot in
  let? payload := validate_import_snapshot payload in
  write_snapshot validate_import_snapshot payload content.
Definition write_folders_manifest (folders : list json) (content : option bytes) : result bytes :=
  let? payload := with_content_hash [("folders", JList folders)] in
  let? payload := validate_folders_snapshot payload in
  write_snapshot validate_folders_snapshot payload content.
Definition read_import_manifest : option bytes -> result event := read_snapshot validate_import_snapshot.
Definition read_folders_manifest (content : option bytes) : result (list json) :=
  let? e := read_snapshot validate_folders_snapshot content in
  match get "folders" e with
  | Some (JList l) => Ok l
  | _ => raise ManifestCorruptError "PST folder manifest folders must be an array"
  end.

(** ** The event schema *)

Definition ITEM_EVENTS : list string :=
  ["item_discovered"; "item_saved"; "item_parse_failed"; "item_oversize"; "item_reparsed"].
Definition EVENTS : list string :=
  (ITEM_EVENTS ++ ["import_ready"; "purge_intent"; "purged"; "generation_switch_prepared";
   "generation_switch_committed"; "generation_restored"; "generation_superseded"; "import_abandoned"])%list.

(** The branch of [_validate_event] for each event name. *)
Definition validate_fields (name : string) (e : event) : result unit :=
  if name == "item_discovered" then
    require_fields e ["source_item_key"; "source_relative_path"; "folder_relative_path";
                      "source_size_bytes"; "source_sha256"] ;?
    require_text e "source_item_key" ;? require_text e "source_relative_path" ;?
    require_text e "folder_relative_path" ;? require_non_negative_int e "source_size_bytes" ;?
    validate_sha256 (get "source_sha256" e)
  else if mem name ["item_saved"; "item_reparsed"] then
    require_fields e ["source_item_key"; "final_relative_path"; "file_hash"; "size_bytes"] ;?
    require_text e "source_item_key" ;? require_text e "final_relative_path" ;?
    validate_sha256 (get "file_hash" e) ;? require_non_negative_int e "size_bytes"
  else if mem name ["item_parse_failed"; "item_oversize"] then
    require_fields e ["source_item_key"; "error_class"; "error_message"] ;?
    require_text e "source_item_key" ;? require_text e "error_class" ;?
    check (is_str (get "error_message" e)) TypeError "error_message must be a string" ;?
    if name == "item_oversize" then require_non_negative_int e "source_size_bytes" else Ok tt
  else if name == "import_ready" then
    require_fields e ["total_files"; "inventory_sha256"; "static_manifest_sha256"] ;?
    require_non_negative_int e "total_files" ;?
    validate_sha256 (get "inventory_sha256" e) ;? validate_sha256 (get "static_manifest_sha256" e)
  else if mem name ["purge_intent"; "purged"] then
    require_fields e ["source_item_key"; "relative_path"; "file_hash"; "shared_reference_count";
                      "physical_delete"] ;?
    require_text e "source_item_key" ;? require_text e "relative_path" ;?
    validate_sha256 (get "file_hash" e) ;? require_non_negative_int e "shared_reference_count" ;?
    check (is_bool (get "physical_delete" e)) TypeError "physical_delete must be a boolean"
  else if mem name ["generation_switch_prepared"; "generation_switch_committed"] then
    require_uuid e "replaces_import_uuid"
  else if name == "generation_superseded" then require_uuid e "superseded_import_uuid"
  else if name == "generation_restored" then
    require_text e "restored_import_uuid" ;? require_text e "superseded_import_uuid" ;?
    require_uuid e "restored_import_uuid" ;? require_uuid e "superseded_import_uuid"
  else if name == "import_abandoned" then require_text e "reason"
  else Ok tt.

(** [_validate_event] *)
Definition validate_event (e : event) : result event :=
  match get "event" e with
  | Some (JStr name) =>
      check (mem name EVENTS) ValueError "unsupported PST manifest event" ;?
      require_uuid e "import_uuid" ;?
      let? _ := parse_timestamp (get "timestamp" e) in
      validate_fields name e ;?
      (if present (get "account_id" e) then require_text e "account_id" else Ok tt) ;?
      Ok e
  | _ => raise ValueError "unsupported PST manifest event"
  end.

(** [_encode_event], [_parse_line] *)
Definition encode_event (e : event) : result bytes :=
  let? payload := validate_event e in
  let? encoded := canonical_json payload in
  Ok (encoded ++ crc_suffix encoded ++ [newline])%list.
Definition parse_line (line : bytes) : result event :=
  match last line with
  | Some c =>
      check (c =? newline)%Z ManifestCorruptError "PST manifest record is missing its trailing newline" ;?
      match split_suffix (removelast line) with
      | None => corrupt "PST manifest record has no valid CRC32 suffix"
      | Some (payload, crc) =>
          check (crc32 payload mod 4294967296 =? crc)%Z ManifestCorruptError
            "PST manifest record CRC32 does not match its payload" ;?
          match loads payload with
          | Some (JObj decoded) =>
              match validate_event decoded with
              | Ok e => Ok e
              | Err x => if isinstance x TypeError || isinstance x ValueError
                         then corrupt "PST manifest record does not satisfy the event schema" else Err x
              end
          | Some _ => corrupt "PST manifest record must be a JSON object"
          | None => corrupt "PST manifest record contains invalid JSON"
          end
      end
  | None => corrupt "PST manifest record is missing its trailing newline"
  end.

(** ** The order of events *)

(** [_event_key] *)
Definition event_key (e : event) : list json :=
  map plain_value
    (if name_in (ITEM_EVENTS ++ ["purge_intent"; "purged"])%list e
     then [attr "event" e; attr "import_uuid" e; attr "source_item_key" e; attr "relative_path" e;
           attr "file_hash" e]
     else [attr "event" e; attr "import_uuid" e; attr "replaces_import_uuid" e; attr "reason" e]).
(** All members but the timestamp. *)
Definition untimed (e : event) : event := List.filter (fun kv => negb (kv.1 == "timestamp")) e.

(** An earlier event of the same import, with one of the names given, and the same member. *)
Definition earlier (names : list string) (f : string) (e p : event) : bool :=
  name_in names p && py_eq (attr "import_uuid" p) (attr "import_uuid" e) && py_eq (attr f p) (attr f e).

(** What an event asks of those before it. *)
Definition enabled (e : event) (events : list event) : bool :=
  if name_in ["item_saved"; "item_parse_failed"; "item_oversize"] e
  then existsb (earlier ["item_discovered"] "source_item_key" e) events
  else if name_in ["item_reparsed"] e
  then existsb (earlier ["item_parse_failed"; "item_oversize"] "source_item_key" e) events
  else if name_in ["purged"] e
  then existsb (fun p => name_in ["purge_intent"] p && (tail (event_key p) == tail (event_key e))) events
  else if name_in ["generation_switch_committed"] e
  then existsb (earlier ["generation_switch_prepared"] "replaces_import_uuid" e) events
  else if name_in ["generation_superseded"] e
  then existsb (earlier ["generation_switch_committed"] "import_uuid" e) events
  else true.
(** [_validate_transition]: [false] when the event is already there. *)
Definition validate_transition (e : event) (events : list event) : result bool :=
  match List.find (fun p => event_key p == event_key e) events with
  | Some p =>
      check (py_eq (JObj (untimed p)) (JObj (untimed e))) ValueError
        "PST manifest contains a conflicting duplicate idempotency key" ;?
      Ok false
  | None => check (enabled e events) ValueError "PST manifest event out of order" ;? Ok true
  end.

(** ** Reading *)

(** The loop of [read_events]: the events yielded, and how it ended. *)
Fixpoint read_loop (offset : nat) (events : list event) (lines : list bytes)
    : list event * result (option nat) :=
  match lines with
  | [] => ([], Ok None)
  | line :: next =>
      match parse_line line with
      | Err x => ([], match next with
                      | [] => if isinstance x ManifestCorruptError then Ok (Some offset) else Err x
                      | _ => Err x
                      end)
      | Ok e =>
          match validate_transition e events with
          | Err x => ([], match next with
                          | [] => Ok (Some offset)
                          | _ => corrupt "PST manifest event sequence is invalid"
                          end)
          | Ok _ => let (es, ending) := read_loop (offset + length line) (events ++ [e])%list next in
                    (e :: es, ending)
          end
      end
  end.
(** [read_events], consumed to the end: the events, the exception if any, the file left. *)
Definition read_events (content : bytes) : list event * option exn * bytes :=
  let (es, ending) := read_loop 0 [] (readlines content) in
  match ending with
  | Ok None => (es, None, content)
  | Ok (Some n) => (es, None, take n content)
  | Err x => (es, Some x, content)
  end.
(** [PstManifestReader.read_all_events]: the events are checked a second time. *)
Fixpoint check_all (seen es : list event) : result unit :=
  match es with
  | [] => Ok tt
  | e :: es => match validate_transition e seen with
               | Ok _ => check_all (seen ++ [e])%list es
               | Err x => if isinstance x ValueError then corrupt (exn_msg x) else Err x
               end
  end.
Definition read_all_events (content : bytes) : result (list event) :=
  let '(es, raised, _) := read_events content in
  match raised with
  | Some x => Err x
  | None => check_all [] es ;? Ok es
  end.
(** [repair_tail] *)
Definition repair_tail (content : bytes) : result (Z * bytes) :=
  let '(_, raised, after) := read_events content in
  match raised with
  | Some x => Err x
  | None => Ok (Z.of_nat (length content) - Z.of_nat (length after), after)%Z
  end.

(** ** Writing *)

(** [PstManifestWriter]: the generation, the file if it exists, the events the writer knows. *)
Record writer := Writer { w_uuid : string; w_content : option bytes; w_events : list event }.
Definition open_writer (uuid : string) (content : option bytes) : result writer :=
  validate_import_uuid uuid ;?
  match content with
  | None => Ok (Writer uuid None [])
  | Some c => let '(es, raised, c) := read_events c in
              match raised with Some x => Err x | None => Ok (Writer uuid (Some c) es) end
  end.
(** [append] *)
Definition append (e : event) (w : writer) : result writer :=
  let? payload := validate_event e in
  check (py_eq (attr "import_uuid" payload) (JStr (w_uuid w))) ValueError
    "PST manifest event import_uuid does not match the writer" ;?
  let? fresh := validate_transition payload (w_events w) in
  if fresh : bool then
    let? encoded := encode_event payload in
    Ok (Writer (w_uuid w) (Some (get_or [] (w_content w) ++ encoded)%list) (w_events w ++ [payload])%list)
  else Ok w.
Close Scope string_scope.

(** ** Comparison does not depend on the order of the members *)

#[local] Instance key_le_total : Total key_le.
Proof. intros a b. unfold key_le. destruct (String.leb_total a.1 b.1); auto. Qed.
#[local] Instance key_le_trans : Transitive key_le.
Proof.
  intros a b c. unfold key_le, String.leb.
  destruct (String.compare a.1 b.1) eqn:E1; [|destruct (String.compare b.1 c.1) eqn:E2|done]; try done.
  - by apply String.compare_eq_iff in E1 as ->.
  - apply String.compare_eq_iff in E2. by rewrite <- E2, E1.
  - by rewrite (compare_trans Lt _ _ _ E1 E2).
Qed.

Lemma sort_keys_perm (d d' : event) : NoDup d.*1 -> d ≡ₚ d' -> merge_sort key_le d = merge_sort key_le d'.
Proof.
  intros Hd Hp. apply (StronglySorted_unique_strong key_le).
  - intros [k v] [k' v'] Hx Hy H1 H2. rewrite merge_sort_Permutation in Hx. rewrite merge_sort_Permutation, <- Hp in Hy.
    assert (k = k') as -> by (by apply String.leb_antisym).
    pose proof (dict_get_NoDup _ _ _ Hd Hx) as E1. pose proof (dict_get_NoDup _ _ _ Hd Hy) as E2. congruence.
  - by apply (StronglySorted_merge_sort key_le).
  - by apply (StronglySorted_merge_sort key_le).
  - by rewrite !merge_sort_Permutation.
Qed.

Lemma unbool_keys (d : event) : (map (fun kv => (kv.1, unbool kv.2)) d).*1 = d.*1.
Proof. by rewrite <- list_fmap_compose. Qed.
Lemma plain_value_canon j : plain j = true -> plain_value (canon j) = plain_value j.
Proof.
  unfold plain_value. induction j as [|b|z|t|s|l IH|d IH] using json_ind'; try done; cbn [plain]; intros Hp.
  - cbn [canon unbool]. f_equal. rewrite !map_map. apply map_ext_in. intros x Hx%list_elem_of_In.
    rewrite forallb_true in Hp. rewrite Forall_forall in IH. auto.
  - apply andb_true_iff in Hp as [Hd%bool_decide_eq_true Hp]. rewrite forallb_true in Hp. cbn [canon unbool].
    f_equal. apply sort_keys_perm.
    + rewrite map_canon_keys, unbool_keys. rewrite merge_sort_Permutation, map_canon_keys. done.
    + rewrite merge_sort_Permutation. rewrite !map_map. cbn [fst snd].
      assert (map (fun x => (x.1, canon (unbool (canon x.2)))) d = map (fun x => (x.1, canon (unbool x.2))) d) as ->; [|done].
      apply map_ext_in. intros x Hx%list_elem_of_In. rewrite Forall_forall in IH. f_equal. by apply IH; [|apply Hp].
Qed.
Lemma canon_idem j : plain j = true -> canon (canon j) = canon j.
Proof.
  induction j as [|b|z|t|s|l IH|d IH] using json_ind'; try done; cbn [plain]; intros Hp.
  - cbn [canon]. f_equal. rewrite map_map. apply map_ext_in. intros x Hx%list_elem_of_In.
    rewrite forallb_true in Hp. rewrite Forall_forall in IH. auto.
  - apply andb_true_iff in Hp as [Hd%bool_decide_eq_true Hp]. rewrite forallb_true in Hp. cbn [canon].
    f_equal. apply sort_keys_perm.
    + rewrite map_canon_keys. rewrite merge_sort_Permutation, map_canon_keys. done.
    + rewrite merge_sort_Permutation. rewrite map_map. cbn [fst snd].
      assert (map (fun x => (x.1, canon (canon x.2))) d = map (fun x => (x.1, canon x.2)) d) as ->; [|done].
      apply map_ext_in. intros x Hx%list_elem_of_In. rewrite Forall_forall in IH. f_equal. by apply IH; [|apply Hp].
Qed.

(** ** Events that Python compares as equal *)

Definition plain_members (e : event) : event := map (fun kv => (kv.1, plain_value kv.2)) e.
Definition same (a b : event) : Prop :=
  plain (JObj a) = true /\ plain (JObj b) = true /\ py_eq (JObj a) (JObj b) = true.

Lemma plain_members_keys (e : event) : (plain_members e).*1 = e.*1.
Proof. unfold plain_members. by rewrite <- list_fmap_compose. Qed.
Lemma plain_value_obj e : plain_value (JObj e) = JObj (merge_sort key_le (plain_members e)).
Proof. unfold plain_value. cbn [unbool canon]. by rewrite map_map. Qed.
Lemma py_eq_true a b : py_eq a b = true <-> plain_value a = plain_value b.
Proof. apply bool_decide_eq_true. Qed.
Lemma py_eq_obj a b :
  py_eq (JObj a) (JObj b) = true <-> merge_sort key_le (plain_members a) = merge_sort key_le (plain_members b).
Proof. rewrite py_eq_true, !plain_value_obj. split; [by intros [= H]|by intros ->]. Qed.
Lemma py_eq_perm a b : NoDup a.*1 -> plain_members a ≡ₚ plain_members b -> py_eq (JObj a) (JObj b) = true.
Proof. intros Hd Hp. apply py_eq_obj, sort_keys_perm; [by rewrite plain_members_keys | done]. Qed.
Lemma same_perm a b : same a b -> plain_members a ≡ₚ plain_members b.
Proof. intros (_ & _ & H%py_eq_obj). by rewrite <- (merge_sort_Permutation key_le), H, merge_sort_Permutation. Qed.

#[export] Instance same_sym : Symmetric same.
Proof. intros a b (Ha & Hb & H). repeat split; try done. by rewrite py_eq_true in *. Qed.
#[export] Instance same_trans : Transitive same.
Proof. intros a b c (Ha & _ & H) (_ & Hc & H'). repeat split; try done. rewrite !py_eq_true in *. congruence. Qed.
Lemma same_refl e : plain (JObj e) = true -> same e e.
Proof. intros Hp. repeat split; try done. by apply py_eq_true. Qed.
Lemma same_canon e : plain (JObj e) = true -> same e (canon_event e).
Proof.
  intros Hp. repeat split; [done|exact (plain_canon _ Hp)|]. apply py_eq_true. symmetry. exact (plain_value_canon _ Hp).
Qed.

Lemma same_get a b f : same a b -> option_map plain_value (get f a) = option_map plain_value (get f b).
Proof.
  intros Hs. unfold get. rewrite <- !dict_get_map. apply dict_get_perm; [|exact (same_perm _ _ Hs)].
  destruct Hs as ((Hd & _)%plain_obj & _). rewrite <- (plain_members_keys a) in Hd. exact Hd.
Qed.
Lemma same_attr a b f : same a b -> plain_value (attr f a) = plain_value (attr f b).
Proof.
  intros Hs%(same_get a b f). unfold attr. destruct (get f a), (get f b); try done. by injection Hs.
Qed.
Lemma same_name_in names a b : same a b -> name_in names a = name_in names b.
Proof.
  intros Hs%(same_get a b "event"). unfold name_in.
  destruct (get "event" a) as [[]|], (get "event" b) as [[]|]; try done; naive_solver.
Qed.
Lemma same_event_key a b : same a b -> event_key a = event_key b.
Proof.
  intros Hs. unfold event_key. rewrite (same_name_in _ a b Hs). case_match; cbn [map]; by rewrite !(same_attr a b).
Qed.

Lemma untimed_members e : plain_members (untimed e) = untimed (plain_members e).
Proof.
  induction e as [|kv e IH]; [done|]. unfold untimed, plain_members in *. cbn [List.filter map fst].
  case_match; cbn [map]; by rewrite IH.
Qed.
Lemma untimed_NoDup (e : event) : NoDup e.*1 -> NoDup (untimed e).*1.
Proof.
  induction e as [|kv e IH]; [done|]. unfold untimed in *. cbn. rewrite NoDup_cons. intros [Hn Hd].
  case_match; [|auto]. cbn. constructor; [|auto]. intros (x & E & Hx%list_elem_of_In)%list_elem_of_fmap. apply Hn.
  apply filter_In in Hx as [Hx%list_elem_of_In _]. rewrite E. by apply list_elem_of_fmap_2.
Qed.
Lemma same_untimed a b a' b' : same a a' -> same b b' ->
  py_eq (JObj (untimed a)) (JObj (untimed b)) = py_eq (JObj (untimed a')) (JObj (untimed b')).
Proof.
  assert (forall x y, same x y -> plain_value (JObj (untimed x)) = plain_value (JObj (untimed y))) as H.
  { intros x y Hs. apply py_eq_true, py_eq_perm.
    - destruct Hs as ((Hd & _)%plain_obj & _). by apply untimed_NoDup.
    - rewrite !untimed_members. by apply filter_perm, same_perm. }
  intros Ha Hb. unfold py_eq. by rewrite (H a a'), (H b b').
Qed.
Lemma same_earlier names f a a' b b' : same a a' -> same b b' -> earlier names f a b = earlier names f a' b'.
Proof.
  intros Ha Hb. unfold earlier, py_eq.
  by rewrite (same_name_in _ b b'), !(same_attr b b'), !(same_attr a a').
Qed.

Section Related.
Context {A : Type} (R : A -> A -> Prop).
Lemma existsb_related (p q : A -> bool) l l' : Forall2 R l l' -> (forall x y, R x y -> p x = q y) ->
  existsb p l = existsb q l'.
Proof. intros H Hpq. induction H as [|x y l l' Hx _ IH]; [done|]. cbn. by rewrite (Hpq x y), IH. Qed.
Lemma find_related (p q : A -> bool) l l' : Forall2 R l l' -> (forall x y, R x y -> p x = q y) ->
  match List.find p l, List.find q l' with
  | Some x, Some y => R x y
  | None, None => True
  | _, _ => False
  end.
Proof. intros H Hpq. induction H as [|x y l l' Hx _ IH]; [done|]. cbn. rewrite (Hpq x y Hx). destruct (q y); done. Qed.
End Related.

Lemma same_enabled a a' l l' : same a a' -> Forall2 same l l' -> enabled a l = enabled a' l'.
Proof.
  intros Ha Hl. unfold enabled. rewrite !(same_name_in _ a a' Ha).
  repeat match goal with |- (if ?b then _ else _) = _ => destruct b end; try done;
    apply (existsb_related same _ _ l l' Hl); intros x y Hx; try (apply same_earlier; done).
  by rewrite (same_name_in _ x y Hx), (same_event_key x y Hx), (same_event_key a a' Ha).
Qed.
(** Whether an event may follow others does not depend on how they were read. *)
Lemma same_transition a a' l l' : same a a' -> Forall2 same l l' ->
  validate_transition a l = validate_transition a' l'.
Proof.
  intros Ha Hl. unfold validate_transition.
  pose proof (find_related same (fun p => event_key p == event_key a) (fun p => event_key p == event_key a') l l' Hl) as Hf.
  specialize (Hf ltac:(intros x y Hx; cbn beta; by rewrite (same_event_key x y Hx), (same_event_key a a' Ha))).
  rewrite (same_enabled a a' l l' Ha Hl). case_match; case_match; try done.
  by rewrite (same_untimed _ a _ a' Hf Ha).
Qed.

(** ** The schema does not depend on the order of the members *)

Lemma is_sha256_canon o : is_sha256 (option_map canon o) = is_sha256 o.
Proof. by destruct o as [[]|]. Qed.
Lemma is_object_canon o : is_object (option_map canon o) = is_object o.
Proof. by destruct o as [[]|]. Qed.
#[export] Hint Rewrite is_sha256_canon is_object_canon : canon.

Section Canon.
Context (e : event) (Hp : plain (JObj e) = true).
Lemma text_of_canon f : text_of f (canon_event e) = text_of f e.
Proof. unfold text_of. rewrite get_canon by done. by destruct (get f e) as [[]|]. Qed.
Lemma require_text_canon f : require_text (canon_event e) f = require_text e f.
Proof. unfold require_text. rewrite get_canon by done. by autorewrite with canon. Qed.
Lemma require_non_negative_int_canon f :
  require_non_negative_int (canon_event e) f = require_non_negative_int e f.
Proof.
  unfold require_non_negative_int. rewrite get_canon by done. destruct (get f e) as [j|]; [|done].
  cbn [option_map]. by rewrite <- (is_count_canon (Some j)).
Qed.
Lemma require_uuid_canon f : require_uuid (canon_event e) f = require_uuid e f.
Proof. unfold require_uuid. by rewrite require_text_canon, text_of_canon. Qed.
Lemma pst_validate_fields_canon name : validate_fields name (canon_event e) = validate_fields name e.
Proof.
  unfold validate_fields, validate_sha256.
  rewrite !require_fields_canon, !require_text_canon, !require_non_negative_int_canon, !require_uuid_canon,
    !get_canon by done.
  by autorewrite with canon.
Qed.
Lemma pst_validate_event_canon p : validate_event e = Ok p ->
  p = e /\ validate_event (canon_event e) = Ok (canon_event e).
Proof.
  unfold validate_event. rewrite !get_canon, require_uuid_canon, require_text_canon by done.
  destruct (get "event" e) as [[]|]; try done. cbn [option_map canon]. autorewrite with canon.
  intros ([] & -> & ([] & -> & (d & -> & ([] & Hf & ([] & Ha & [= <-])%rbind_ok)%rbind_ok)%rbind_ok)%rbind_ok)%rbind_ok.
  cbn [rbind]. split; [done|]. rewrite pst_validate_fields_canon, Hf. cbn [rbind]. by rewrite Ha.
Qed.
End Canon.
Lemma pst_validate_event_same e p : validate_event e = Ok p -> p = e.
Proof.
  unfold validate_event. destruct (get "event" e) as [[]|]; try done.
  by intros (? & _ & (? & _ & (? & _ & (? & _ & (? & _ & [= <-])%rbind_ok)%rbind_ok)%rbind_ok)%rbind_ok)%rbind_ok.
Qed.

(** ** Lines *)

Definition encodes (e : event) (line : bytes) : Prop := plain (JObj e) = true /\ encode_event e = Ok line.

Lemma canonical_json_ok e l : canonical_json e = Ok l ->
  utf8_valid false (dumps (JObj e)) = true /\ l = dumps (JObj e).
Proof. by intros ([] & _ & ([] & Hu%check_ok & <-%Ok_inj)%rbind_ok)%rbind_ok. Qed.
Lemma pst_parse_encoded e line : encodes e line -> parse_line line = Ok (canon_event e).
Proof.
  intros [Hp (p & Hval & (l & (Hu & ->)%canonical_json_ok & <-%Ok_inj)%rbind_ok)%rbind_ok].
  destruct (pst_validate_event_canon e Hp p Hval) as [-> Hc]. unfold parse_line.
  rewrite app_assoc, last_snoc, removelast_last, split_suffix_encoded. cbn [check rbind newline Z.eqb].
  rewrite Z.eqb_refl. cbn [check rbind]. rewrite loads_dumps by done. cbn [canon].
  fold (canon_event e). by rewrite Hc.
Qed.
Lemma encodes_whole_line e line : encodes e line -> whole_line line.
Proof.
  intros [Hp (p & Hval & (l & (_ & ->)%canonical_json_ok & <-%Ok_inj)%rbind_ok)%rbind_ok].
  apply pst_validate_event_same in Hval as ->. exists (dumps (JObj e) ++ crc_suffix (dumps (JObj e))).
  split; [by rewrite app_assoc|]. apply Forall_app. split.
  - apply print_no_newline. by apply plain_canon.
  - apply crc_suffix_no_newline.
Qed.
Lemma pst_encodes_whole es ls : Forall2 encodes es ls -> Forall whole_line ls.
Proof. induction 1; constructor; eauto using encodes_whole_line. Qed.

(** ** Sequences of events *)

(** Every event is accepted after the ones before it. *)
Fixpoint accepted (seen es : list event) : Prop :=
  match es with
  | [] => True
  | e :: es => is_ok (validate_transition e seen) = true /\ accepted (seen ++ [e]) es
  end.

Lemma accepted_app seen es1 : forall es2,
  accepted seen (es1 ++ es2) <-> accepted seen es1 /\ accepted (seen ++ es1) es2.
Proof.
  revert seen. induction es1 as [|e es1 IH]; intros seen es2; cbn [app accepted].
  - rewrite app_nil_r. tauto.
  - rewrite IH, <- app_assoc. cbn [app]. tauto.
Qed.
Lemma accepted_lookup es i e : accepted [] es -> es !! i = Some e ->
  is_ok (validate_transition e (take i es)) = true.
Proof.
  intros Ha Hi. rewrite <- (take_drop_middle es i e Hi) in Ha. by apply accepted_app in Ha as [_ [Ha _]].
Qed.
Lemma check_all_accepted es : forall seen, accepted seen es -> check_all seen es = Ok tt.
Proof.
  induction es as [|e es IH]; intros seen; [done|]. cbn [accepted check_all]. intros [Ht Ha].
  destruct (validate_transition e seen); [|done]. auto.
Qed.
(** Whatever the bytes, the events the reader yields are accepted ones. *)
Lemma read_loop_accepted lines : forall off seen, accepted seen (read_loop off seen lines).1.
Proof.
  induction lines as [|l lines IH]; intros off seen; cbn [read_loop]; [done|].
  destruct (parse_line l) as [e|]; [|done]. destruct (validate_transition e seen) eqn:E; [|done].
  specialize (IH (off + length l)%nat (seen ++ [e])). destruct (read_loop _ _ lines). cbn [fst accepted] in *.
  by rewrite E.
Qed.
Lemma read_events_accepted c es raised c' : read_events c = (es, raised, c') -> accepted [] es.
Proof.
  unfold read_events. pose proof (read_loop_accepted (readlines c) 0 []) as Ha.
  destruct (read_loop 0 [] (readlines c)) as [es' [[n|]|x]]; cbn [fst] in Ha; by intros [= <- _ _].
Qed.
Lemma read_all_events_spec c :
  read_all_events c = let '(es, raised, _) := read_events c in match raised with Some x => Err x | None => Ok es end.
Proof.
  unfold read_all_events. destruct (read_events c) as [[es [x|]] c'] eqn:E; [done|].
  by rewrite (check_all_accepted es [] (read_events_accepted _ _ _ _ E)).
Qed.

Lemma event_key_name names a b : event_key a = event_key b -> name_in names a = name_in names b.
Proof.
  intros Hk. assert (plain_value (attr "event" a) = plain_value (attr "event" b)) as He.
  { unfold event_key in Hk. destruct (name_in _ a), (name_in _ b); cbn [map] in Hk; congruence. }
  unfold attr, name_in in *. destruct (get "event" a) as [[]|], (get "event" b) as [[]|]; try done; naive_solver.
Qed.
Lemma event_key_attrs a b : event_key a = event_key b ->
  plain_value (attr "import_uuid" a) = plain_value (attr "import_uuid" b)
  /\ (name_in ITEM_EVENTS a = true -> plain_value (attr "source_item_key" a) = plain_value (attr "source_item_key" b))
  /\ (name_in ["generation_switch_committed"; "generation_superseded"] a = true ->
      plain_value (attr "replaces_import_uuid" a) = plain_value (attr "replaces_import_uuid" b)).
Proof.
  intros Hk. pose proof (event_key_name (ITEM_EVENTS ++ ["purge_intent"; "purged"]) a b Hk) as Hn.
  unfold event_key in Hk. rewrite <- Hn in Hk. unfold name_in in *.
  destruct (get "event" a) as [[| | | |n| |]|]; cbn [map] in *; repeat split; try done; try congruence;
    destruct (mem n (ITEM_EVENTS ++ ["purge_intent"; "purged"])) eqn:E; cbn [map] in Hk; try congruence;
    intros Hm%mem_true; exfalso; revert E; repeat (apply elem_of_cons in Hm as [->|Hm]); try by vm_compute.
  all: by apply not_elem_of_nil in Hm.
Qed.
Lemma enabled_key a b l : event_key a = event_key b -> enabled a l = true -> enabled b l = true.
Proof.
  intros Hk. destruct (event_key_attrs a b Hk) as (Hi & Hs & Hr). unfold enabled, earlier, py_eq.
  rewrite <- !(event_key_name _ a b Hk), <- Hi, <- Hk. unfold name_in in *.
  destruct (get "event" a) as [[| | | |n| |]|]; try done.
  repeat match goal with |- (if ?b then _ else _) = true -> _ => destruct b eqn:?E end; try done;
    [rewrite <- Hs; [done|]|rewrite <- Hs; [done|]|rewrite <- Hr; [done|]].
  all: match goal with H : mem _ _ = true |- _ => apply mem_true in H; apply mem_true; unfold ITEM_EVENTS; rewrite !elem_of_cons in *; tauto end.
Qed.
Lemma enabled_weaken e l l' : enabled e l = true -> enabled e (l ++ l') = true.
Proof.
  unfold enabled. rewrite !existsb_app.
  repeat match goal with |- (if ?b then _ else _) = true -> _ => destruct b end; try done; by intros ->.
Qed.

Lemma transition_ok e l : is_ok (validate_transition e l) = true ->
  match List.find (fun p => event_key p == event_key e) l with
  | Some p => py_eq (JObj (untimed p)) (JObj (untimed e)) = true
  | None => enabled e l = true
  end.
Proof.
  unfold validate_transition. destruct (List.find _ l) as [p|].
  - by destruct (py_eq _ _).
  - by destruct (enabled e l).
Qed.
Lemma find_key_app {A} (f : A -> bool) l l' : List.find f (l ++ l') =
  match List.find f l with Some x => Some x | None => List.find f l' end.
Proof. induction l as [|x l IH]; [done|]. cbn. by destruct (f x). Qed.

Lemma accepted_enabled es : accepted [] es -> forall i e, es !! i = Some e -> enabled e (take i es) = true.
Proof.
  intros Ha i. induction i as [i IH] using lt_wf_ind. intros e He.
  pose proof (transition_ok e (take i es) (accepted_lookup es i e Ha He)) as Ht.
  destruct (List.find _ (take i es)) as [p|] eqn:Ef; [|done]. apply find_some in Ef as [Hp Hk]. apply eqb_true_1 in Hk.
  apply list_elem_of_In, list_elem_of_lookup in Hp as [j Hj]. apply lookup_take_Some in Hj as [Hj Hji].
  apply (enabled_key p); [done|]. specialize (IH j Hji p Hj).
  rewrite <- (take_drop j (take i es)), take_take, Nat.min_l by lia. by apply enabled_weaken.
Qed.
Lemma accepted_same_key es i j a b : accepted [] es -> es !! i = Some a -> es !! j = Some b ->
  (i < j)%nat -> event_key a = event_key b -> py_eq (JObj (untimed a)) (JObj (untimed b)) = true.
Proof.
  intros Ha Hi Hj Hij Hk.
  pose proof (transition_ok a _ (accepted_lookup es i a Ha Hi)) as Hta.
  pose proof (transition_ok b _ (accepted_lookup es j b Ha Hj)) as Htb. rewrite Hk in Hta.
  assert (take j es = take i es ++ a :: drop (S i) (take j es)) as E.
  { rewrite <- (take_drop_middle (take j es) i a) at 1 by (rewrite lookup_take_lt; done).
    by rewrite take_take, Nat.min_l by lia. }
  rewrite E, find_key_app in Htb.
  destruct (List.find _ (take i es)) as [p|].
  - rewrite py_eq_true in *. congruence.
  - cbn [List.find] in Htb. by rewrite (proj2 (eqb_true _ _) Hk) in Htb.
Qed.

(** The events of a PST manifest are in an order that makes sense, whatever the bytes of the
    file: when the reader returns them, every event comes after the one it depends on (an item
    saved or failed after it was discovered, a reparse after a failure, a purge after its intent, a
    generation switch committed after it was prepared, a generation superseded after that), and
    two events for the same operation differ in their timestamps only. *)
Lemma events_in_order c es : read_all_events c = Ok es ->
  (forall i e, es !! i = Some e -> enabled e (take i es) = true)
  /\ (forall i j a b, es !! i = Some a -> es !! j = Some b -> (i < j)%nat -> event_key a = event_key b ->
      py_eq (JObj (untimed a)) (JObj (untimed b)) = true).
Proof.
  rewrite read_all_events_spec. destruct (read_events c) as [[es' [x|]] c'] eqn:E; [done|]. intros [= ->].
  apply read_events_accepted in E. split; [by apply accepted_enabled|]. intros i j a b. by apply accepted_same_key.
Qed.

(** ** The writer as a log *)

Definition line_of (e : event) : bytes := match encode_event e with Ok l => l | Err _ => [] end.
Definition encodable (e : event) : Prop := plain (JObj e) = true /\ is_ok (encode_event e) = true.
Definition content_of (es : list event) : bytes := concat (map line_of es).

(** The file and the writer hold the events [es]; no operation is recorded twice. *)
Definition log (w : writer) (es : list event) : Prop :=
  validate_import_uuid (w_uuid w) = Ok tt /\ Forall encodable es
  /\ get_or [] (w_content w) = content_of es /\ Forall2 same es (w_events w)
  /\ accepted [] es /\ NoDup (map event_key es).

Lemma encodable_encodes e : encodable e -> encodes e (line_of e).
Proof. intros [Hp He]. split; [done|]. unfold line_of. by destruct (encode_event e). Qed.
Lemma encodable_lines es : Forall encodable es -> Forall2 encodes es (map line_of es).
Proof. induction 1; constructor; eauto using encodable_encodes. Qed.
Lemma encodable_same es : Forall encodable es -> Forall2 same es (map canon_event es).
Proof. induction 1 as [|e es [Hp _] _ IH]; constructor; [by apply same_canon|done]. Qed.

Lemma read_loop_lines es tail : forall off seen seen', Forall encodable es -> accepted seen es ->
  Forall2 same seen seen' ->
  read_loop off seen' (map line_of es ++ tail)
  = let (es', ending) := read_loop (off + length (content_of es)) (seen' ++ map canon_event es) tail in
    (map canon_event es ++ es', ending).
Proof.
  induction es as [|e es IH]; intros off seen seen' Hes Ha Hs; cbn [map app content_of concat length].
  - rewrite app_nil_r, Nat.add_0_r. by destruct (read_loop off seen' tail).
  - apply Forall_cons in Hes as [He Hes]. destruct Ha as [Ht Ha]. cbn [read_loop].
    rewrite (pst_parse_encoded e) by by apply encodable_encodes.
    rewrite <- (same_transition e (canon_event e) seen seen') by (done || (apply same_canon, He)).
    destruct (validate_transition e seen); [|done].
    rewrite (IH _ (seen ++ [e])); [|done|done|].
    + rewrite length_app, Nat.add_assoc, <- app_assoc. cbn [app]. unfold content_of. by destruct (read_loop _ _ tail).
    + apply Forall2_app; [done|]. constructor; [apply same_canon, He|constructor].
Qed.
Lemma torn_line r : no_newline r -> exists msg, parse_line r = corrupt msg.
Proof.
  intros Hr. unfold parse_line. destruct (last r) as [c|] eqn:E; [|by eexists].
  assert (c <> newline) as Hc.
  { rewrite last_lookup in E. exact (Forall_lookup_1 (fun c => c <> newline) r _ c Hr E). }
  rewrite (proj2 (Z.eqb_neq c newline)) by done. by eexists.
Qed.
Lemma read_events_lines es r : Forall encodable es -> accepted [] es -> no_newline r ->
  read_events (content_of es ++ r) = (map canon_event es, None, content_of es).
Proof.
  intros Hes Ha Hr. unfold read_events, content_of at 1.
  rewrite readlines_lines by (done || eapply pst_encodes_whole, encodable_lines; done).
  rewrite (read_loop_lines es _ _ [] []) by (done || constructor). destruct r as [|c r].
  - cbn [read_loop]. by rewrite !app_nil_r.
  - cbn [read_loop]. destruct (torn_line (c :: r) Hr) as (msg & ->). unfold corrupt, raise.
    replace (isinstance _ ManifestCorruptError) with true by reflexivity.
    rewrite app_nil_r, Nat.add_0_l. unfold content_of. by rewrite take_app_length.
Qed.
Lemma read_log w es : log w es ->
  read_events (get_or [] (w_content w)) = (map canon_event es, None, get_or [] (w_content w))
  /\ read_all_events (get_or [] (w_content w)) = Ok (map canon_event es).
Proof.
  intros (_ & He & -> & _ & Ha & _).
  pose proof (read_events_lines es [] He Ha ltac:(constructor)) as Hr. rewrite app_nil_r in Hr.
  split; [done|]. by rewrite read_all_events_spec, Hr.
Qed.
Lemma same_keys es es' : Forall2 same es es' -> map event_key es = map event_key es'.
Proof. induction 1 as [|a b es es' Hab _ IH]; [done|]. cbn. by rewrite IH, (same_event_key a b). Qed.

Lemma pst_append_ok e w w' : append e w = Ok w' ->
  validate_event e = Ok e
  /\ ((validate_transition e (w_events w) = Ok false /\ w' = w)
      \/ (validate_transition e (w_events w) = Ok true /\ is_ok (encode_event e) = true
          /\ w' = Writer (w_uuid w) (Some (get_or [] (w_content w) ++ line_of e)) (w_events w ++ [e]))).
Proof.
  intros (p & Hv & ([] & Hu & (fresh & Ht & Hf)%rbind_ok)%rbind_ok)%rbind_ok.
  apply pst_validate_event_same in Hv as Hpe. subst p. split; [done|]. destruct fresh.
  - right. apply rbind_ok in Hf as (l & Hl & [= <-]). unfold line_of. by rewrite Hl.
  - left. by injection Hf.
Qed.
Lemma transition_true e l : validate_transition e l = Ok true -> event_key e ∉ map event_key l.
Proof.
  unfold validate_transition. destruct (List.find _ l) as [p|] eqn:E; [by destruct (py_eq _ _)|].
  intros _ (p & Hk & Hp)%list_elem_of_fmap. pose proof (find_none _ _ E p) as Hn.
  rewrite <- list_elem_of_In in Hn. specialize (Hn Hp). apply eqb_false_1 in Hn. by rewrite Hk in Hn.
Qed.
Lemma transition_false e l : validate_transition e l = Ok false ->
  exists p, p ∈ l /\ event_key p = event_key e /\ py_eq (JObj (untimed p)) (JObj (untimed e)) = true.
Proof.
  unfold validate_transition. destruct (List.find _ l) as [p|] eqn:E; [|by destruct (enabled _ _)].
  destruct (py_eq _ _) eqn:Ep; [|done]. intros _. apply find_some in E as [Hp Hk].
  apply eqb_true_1 in Hk. exists p. by rewrite list_elem_of_In.
Qed.
Lemma transition_log e w es : log w es -> plain (JObj e) = true ->
  validate_transition e (w_events w) = validate_transition e es.
Proof.
  intros (_ & _ & _ & Hs & _) Hp. symmetry. apply same_transition; [by apply same_refl|done].
Qed.
Lemma pst_append_log e w w' es : log w es -> plain (JObj e) = true -> append e w = Ok w' ->
  (log w' (es ++ [e]) /\ enabled e es = true)
  \/ (w' = w /\ exists p, p ∈ es /\ event_key p = event_key e
      /\ py_eq (JObj (untimed p)) (JObj (untimed e)) = true).
Proof.
  intros Hlog Hp [Hv [[Ht ->]|(Ht & He & ->)]]%pst_append_ok; rewrite (transition_log e w es Hlog Hp) in Ht.
  - right. split; [done|]. by apply transition_false.
  - left. destruct Hlog as (Hu & Hes & Hc & Hs & Ha & Hn). split.
    + split; [done|]. cbn [w_content w_events get_or]. split_and!.
      * apply Forall_app. split; [done|]. by repeat constructor.
      * rewrite Hc. unfold content_of. rewrite map_app, concat_app. cbn [map concat]. by rewrite app_nil_r.
      * apply Forall2_app; [done|]. constructor; [by apply same_refl|constructor].
      * apply accepted_app. split; [done|]. cbn [app accepted]. by rewrite Ht.
      * rewrite map_app. apply NoDup_app. split; [done|]. split; [|apply NoDup_singleton].
        intros k Hk ->%list_elem_of_singleton. by apply (transition_true e es).
    + unfold validate_transition in Ht. destruct (List.find _ es); [by destruct (py_eq _ _)|].
      by destruct (enabled e es).
Qed.

(** The writer of a PST manifest refines an append-only log without duplicates: appending an
    event whose dependencies are there makes every reader see the previous events followed by it;
    appending one that is already there, as a resumed import does, writes nothing; no operation is
    ever recorded twice. *)
Lemma append_refines_event_log e w w' es : log w es -> plain (JObj e) = true -> append e w = Ok w' ->
  exists es', log w' es'
  /\ read_all_events (get_or [] (w_content w')) = Ok (map canon_event es')
  /\ ((es' = es ++ [e] /\ enabled e es = true)
      \/ (es' = es /\ w' = w /\ exists p, p ∈ es /\ py_eq (JObj (untimed p)) (JObj (untimed e)) = true)).
Proof.
  intros Hlog Hp Ha. destruct (pst_append_log e w w' es Hlog Hp Ha) as [[Hl He]|(-> & p & Hin & _ & Heq)].
  - exists (es ++ [e]). split; [done|]. split; [by apply read_log|auto].
  - exists es. split; [done|]. split; [by apply read_log|]. right. eauto.
Qed.

(** A crash in the middle of a write loses no complete PST event: whatever prefix of the bytes
    survives, the manifest reopens with exactly the events whose lines are whole, cuts the torn
    line off the file, and continues as a log of those events. *)
Lemma crash_reopens_log w es k : log w es ->
  let n := whole k (map line_of es) in
  open_writer (w_uuid w) (Some (take k (get_or [] (w_content w))))
    = Ok (Writer (w_uuid w) (Some (content_of (take n es))) (map canon_event (take n es)))
  /\ log (Writer (w_uuid w) (Some (content_of (take n es))) (map canon_event (take n es))) (take n es).
Proof.
  intros (Hu & Hes & Hc & _ & Ha & Hn) n.
  assert (Forall encodable (take n es)) as Hes' by by apply Forall_take.
  assert (accepted [] (take n es)) as Ha'.
  { rewrite <- (take_drop n es) in Ha. by apply accepted_app in Ha as [? _]. }
  split.
  - unfold open_writer. rewrite Hu, Hc. cbn [rbind].
    destruct (take_whole (map line_of es) (pst_encodes_whole es _ (encodable_lines es Hes)) k) as (r & Hr & Hnl).
    fold n in Hr. unfold content_of at 1. rewrite Hr, firstn_map. fold (content_of (take n es)).
    by rewrite (read_events_lines _ r).
  - split; [done|]. cbn [w_content w_events get_or]. split_and!; [done|done|by apply encodable_same|done|].
    rewrite <- firstn_map. eapply sublist_NoDup; [exact Hn|apply sublist_take].
Qed.
(** Appending again what was just appended changes nothing. *)
Lemma append_idempotent e w w' es : log w es -> plain (JObj e) = true -> append e w = Ok w' ->
  append e w' = Ok w'.
Proof.
  intros Hlog Hp Ha. pose proof (pst_append_ok e w w' Ha) as [Hv [[Ht ->]|(Ht & He & ->)]]; [done|].
  unfold append in *. rewrite Hv in *. cbn [rbind w_uuid w_events] in *.
  destruct (check (py_eq _ _) _ _) as [[]|]; [|done]. cbn [rbind] in *.
  assert (validate_transition e (w_events w ++ [e]) = Ok false) as ->; [|done].
  unfold validate_transition in *. rewrite find_key_app.
  destruct (List.find _ (w_events w)); [by destruct (py_eq _ _)|]. cbn [List.find].
  rewrite (proj2 (eqb_true _ _) eq_refl). by rewrite (proj2 (py_eq_true _ _) eq_refl).
Qed.

(** ** Snapshots *)

Lemma plain_iff (d : event) :
  plain (JObj d) = true <-> NoDup d.*1 /\ (forall kv, kv ∈ d -> plain kv.2 = true).
Proof. cbn [plain]. by rewrite andb_true_iff, bool_decide_eq_true, forallb_true. Qed.
Lemma pst_elem_of_dict_set (k : string) (v : json) (d : event) kv : kv ∈ dict_set k v d -> kv = (k, v) \/ kv ∈ d.
Proof.
  induction d as [|[j w] d IH]; cbn [dict_set]; [set_solver|]. case_match; rewrite !elem_of_cons; [|naive_solver].
  apply eqb_true_1 in H as ->. naive_solver.
Qed.
Lemma plain_dict_set k v (d : event) : plain (JObj d) = true -> plain v = true -> plain (JObj (dict_set k v d)) = true.
Proof.
  rewrite !plain_iff. intros [Hd Hv] Hp. split; [by apply dict_set_NoDup|].
  intros kv [->|Hkv]%pst_elem_of_dict_set; [done|auto].
Qed.
Lemma plain_dict_pop k (d : event) : plain (JObj d) = true -> plain (JObj (dict_pop k d)) = true.
Proof.
  rewrite !plain_iff. unfold dict_pop. intros [Hd Hv]. split.
  - eapply sublist_NoDup; [exact Hd|]. apply fmap_sublist. apply sublist_filter.
  - intros kv [_ Hkv]%list_elem_of_filter. auto.
Qed.
Lemma plain_hashed_content (d : event) : plain (JObj d) = true -> plain (JObj (hashed_content d)) = true.
Proof.
  intros Hp%(plain_dict_pop CONTENT_HASH_FIELD). unfold hashed_content. case_match; [done|]. by apply plain_dict_set.
Qed.

Lemma canon_pop k e : plain (JObj e) = true ->
  canon (JObj (dict_pop k (canon_event e))) = canon (JObj (dict_pop k e)).
Proof.
  intros Hp. pose proof (plain_dict_pop k _ (plain_canon _ Hp)) as Hq. apply plain_iff in Hp as [Hd Hv].
  apply plain_iff in Hq as [Hd' _]. cbn [canon]. f_equal. apply sort_keys_perm; [by rewrite map_canon_keys|].
  unfold dict_pop at 1. rewrite (canon_event_perm e). clear Hd Hd'.
  assert (map (fun kv => (kv.1, canon kv.2)) (filter (fun p => p.1 <> k) (map (fun kv => (kv.1, canon kv.2)) e))
    = map (fun kv => (kv.1, canon kv.2)) (dict_pop k e)) as ->; [|done].
  unfold dict_pop. induction e as [|kv e IH]; [done|].
  cbn [map]. rewrite !filter_cons. cbn [fst]. case_decide; [|apply IH; set_solver].
  cbn [map fst snd]. rewrite canon_idem by (apply Hv; set_solver). f_equal. apply IH. set_solver.
Qed.
Lemma canonical_json_canon e e' : canon (JObj e) = canon (JObj e') -> plain (JObj e) = true -> plain (JObj e') = true ->
  canonical_json e = canonical_json e'.
Proof. intros He Hp Hp'. unfold canonical_json, dumps. by rewrite !plain_finite, He. Qed.
Lemma check_content_hash_canon e : plain (JObj e) = true -> present (get "schema_version" e) = true ->
  check_content_hash (canon_event e) = check_content_hash e.
Proof.
  intros Hp Hs. unfold check_content_hash, with_content_hash, validate_sha256. rewrite get_canon by done.
  autorewrite with canon. destruct (is_sha256 _) eqn:Eh; [|done]. cbn [check rbind].
  assert (hashed_content e = dict_pop CONTENT_HASH_FIELD e
    /\ hashed_content (canon_event e) = dict_pop CONTENT_HASH_FIELD (canon_event e)) as [-> ->].
  { unfold hashed_content, get. rewrite !dict_get_pop. unfold eqb. cbn [bool_decide].
    rewrite !(bool_decide_eq_false_2 ("schema_version" = CONTENT_HASH_FIELD)) by done.
    pose proof (get_canon e Hp "schema_version") as Hg. unfold get in *. rewrite Hg.
    by destruct (dict_get "schema_version" e). }
  rewrite (canonical_json_canon _ (dict_pop CONTENT_HASH_FIELD e)).
  - destruct (canonical_json _); [|done]. cbn [rbind]. unfold get. rewrite !dict_get_set_eq. fold (get CONTENT_HASH_FIELD e).
    by destruct (get CONTENT_HASH_FIELD e) as [[]|].
  - by apply canon_pop.
  - apply plain_dict_pop. exact (plain_canon _ Hp).
  - by apply plain_dict_pop.
Qed.
Lemma check_schema_canon e : plain (JObj e) = true -> check_schema (canon_event e) = check_schema e.
Proof. intros Hp. unfold check_schema, py_eq. by rewrite (same_attr _ e) by by apply same_sym, same_canon. Qed.
Lemma check_schema_present e : check_schema e = Ok tt -> present (get "schema_version" e) = true.
Proof. intros H%check_ok. unfold attr in H. by destruct (get "schema_version" e). Qed.

Lemma validate_import_snapshot_canon e p : plain (JObj e) = true -> validate_import_snapshot e = Ok p ->
  p = e /\ validate_import_snapshot (canon_event e) = Ok (canon_event e).
Proof.
  intros Hp. unfold validate_import_snapshot, validate_sha256.
  rewrite check_schema_canon, !require_fields_canon, require_uuid_canon, !require_text_canon, !get_canon by done.
  autorewrite with canon. destruct (check_schema e) as [[]|] eqn:Es; [|done].
  rewrite check_content_hash_canon by (done || by apply check_schema_present).
  repeat match goal with |- context [rbind ?m] => lazymatch m with Ok _ => fail | Err _ => fail | _ =>
    destruct m; cbn [rbind]; [|done] end end.
  by intros [= <-].
Qed.
Lemma loads_dumps_newline e : plain (JObj e) = true -> utf8_valid false (dumps (JObj e)) = true ->
  loads (dumps (JObj e) ++ [newline]) = Some (JObj (canon_event e)).
Proof.
  intros Hp Hu. unfold loads. rewrite utf8_valid_app by by apply utf8_valid_surrogates.
  change (utf8_valid true [newline]) with true. unfold dumps.
  pose proof (plain_canon _ Hp) as Hc. change (canon (JObj e)) with (JObj (canon_event e)) in *.
  destruct (print_head _ Hc) as (c & r & E & Hw & _). apply plain_iff in Hc as [Hd Hv].
  pose proof (value_obj (canon_event e) (S (length (print (JObj (canon_event e)) ++ [newline]))) [newline]) as Hr.
  rewrite E in Hr |- *. cbn [app] in Hr |- *. rewrite skip_ws_id by done. rewrite Hr; [done| |done|].
  - apply Forall_forall. intros kv Hkv. split; [auto|]. by apply value_print, Hv.
  - cbn [length]. rewrite length_app. lia.
Qed.

Lemma with_content_hash_plain s e : plain (JObj s) = true -> with_content_hash s = Ok e -> plain (JObj e) = true.
Proof.
  intros Hp (l & _ & <-%Ok_inj)%rbind_ok. apply plain_dict_set; [|done]. by apply plain_hashed_content.
Qed.
Lemma snapshot_written (validate : event -> result event) e c :
  plain (JObj e) = true -> validate (canon_event e) = Ok (canon_event e) ->
  write_snapshot validate e None = Ok c -> read_snapshot validate (Some c) = Ok (canon_event e).
Proof.
  intros Hp Hv (l & (Hu & ->)%canonical_json_ok & <-%Ok_inj)%rbind_ok. unfold read_snapshot. cbn [mbind option_bind].
  rewrite loads_dumps_newline by done. by rewrite Hv.
Qed.

(** The description of an import is written once: after [import.json] was published it reads
    back as the snapshot given, its hash included, and writing a snapshot again either leaves the
    file as it is, because it says the same, or raises; no writer ever replaces it. *)
Lemma import_manifest_published_once s c : plain (JObj s) = true ->
  write_import_manifest s None = Ok c ->
  exists e, with_content_hash s = Ok e /\ read_import_manifest (Some c) = Ok (canon_event e)
  /\ forall s', write_import_manifest s' (Some c) = Ok c
       \/ exists x, write_import_manifest s' (Some c) = Err x.
Proof.
  intros Hp (e & He & (p & Hv & Hw)%rbind_ok)%rbind_ok. exists e. split; [done|].
  pose proof (with_content_hash_plain s e Hp He) as Hpe.
  destruct (validate_import_snapshot_canon e p Hpe Hv) as [-> Hc].
  pose proof (snapshot_written _ _ _ Hpe Hc Hw) as Hr. split; [exact Hr|].
  intros s'. unfold write_import_manifest.
  destruct (with_content_hash s') as [e'|]; cbn [rbind]; [|eauto].
  destruct (validate_import_snapshot e') as [p'|]; cbn [rbind]; [|eauto].
  unfold write_snapshot. destruct (canonical_json p'); cbn [rbind]; [|eauto].
  rewrite Hr. cbn [rbind]. destruct (py_eq _ _); cbn [check rbind]; eauto.
Qed.
(** The same snapshot again is the case where nothing happens. *)
Lemma import_manifest_again s c : plain (JObj s) = true -> write_import_manifest s None = Ok c ->
  write_import_manifest s (Some c) = Ok c.
Proof.
  intros Hp (e & He & (p & Hv & Hw)%rbind_ok)%rbind_ok. pose proof (with_content_hash_plain s e Hp He) as Hpe.
  destruct (validate_import_snapshot_canon e p Hpe Hv) as [-> Hc].
  pose proof (snapshot_written _ _ _ Hpe Hc Hw) as Hr. unfold write_import_manifest. rewrite He. cbn [rbind].
  rewrite Hv. cbn [rbind]. unfold write_snapshot in *. destruct (canonical_json e); [|done]. cbn [rbind].
  rewrite Hr. cbn [rbind]. rewrite (proj2 (py_eq_true _ _)); [done|]. exact (plain_value_canon _ Hpe).
Qed.

(** ** Samples *)

Open Scope string_scope.
Definition sample_uuid : string := "6f1d2c3b-4a59-4e8f-9a0b-1c2d3e4f5a6b".
Definition sample_sha : string := "0123456789abcdef0123456789abcdef0123456789abcdef0123456789abcdef".
Definition sample_time : json := JStr "2024-05-01T23:59:59.000250+00:00".
Definition discovered : event :=
  [("event", JStr "item_discovered"); ("import_uuid", JStr sample_uuid); ("timestamp", sample_time);
   ("source_item_key", JStr "pst:1"); ("source_relative_path", JStr "Inbox/1"); ("folder_relative_path", JStr "Inbox");
   ("source_size_bytes", JInt 10); ("source_sha256", JStr sample_sha)].
Definition saved : event :=
  [("event", JStr "item_saved"); ("import_uuid", JStr sample_uuid); ("timestamp", sample_time);
   ("source_item_key", JStr "pst:1"); ("final_relative_path", JStr "eml/pst/x.eml"); ("file_hash", JStr sample_sha);
   ("size_bytes", JInt 10)].
Definition sample_snapshot : event :=
  [("account_id", JStr "acct"); ("display_name", JStr "Archive"); ("import_uuid", JStr sample_uuid);
   ("created_at", sample_time); ("source_filename", JStr "a.pst"); ("source_sha256", JStr sample_sha);
   ("source_size_bytes", JInt 10); ("source_mtime", JNull); ("source_file_identity", JObj []);
   ("readpst_version", JStr "0.6.76"); ("options", JObj [])].
Close Scope string_scope.

Definition ok_or {A} (d : A) (r : result A) : A := match r with Ok a => a | Err _ => d end.
Definition new_writer : writer := Writer sample_uuid None [].
Definition one_writer : writer := ok_or new_writer (append discovered new_writer).
Definition two_writer : writer := ok_or one_writer (append saved one_writer).

Lemma new_log : log new_writer [].
Proof. split; [by vm_compute|]. cbn. repeat split; constructor. Qed.
Lemma one_log : log one_writer [discovered].
Proof.
  destruct (pst_append_log discovered new_writer one_writer [] new_log) as [[H _]|(_ & p & Hp & _)];
    [vm_compute; reflexivity|vm_compute; reflexivity|exact H|by apply not_elem_of_nil in Hp].
Qed.

Definition sample_import_json : bytes := ok_or [] (write_import_manifest sample_snapshot None).

