(* ===== verification/PstTables.v ===== *)
(** * PstTables: the repository of PST imports

    [infrastructure/database/pst_import_repository.py]: the tables [pst_imports] (a row per
    generation) and [pst_import_items] of [Database], over the same connection as the messages. A
    [SELECT *] row is the record itself. *)

From S2P Require Import Prelude Errors Database DatabaseWf World.

Open Scope string_scope.

Definition INCOMPLETE_IMPORT_STATUSES : list string :=
  ["extracting"; "ready_to_ingest"; "ingesting"; "cancelled_resumable"; "failed_resumable"].
Definition COMPLETE_STATUSES : list string := ["completed"; "completed_with_errors"].

(** ** Reading *)

Definition get_import (id : Z) (d : Db) : option pst_import :=
  List.find (fun i => (pi_id i =? id)%Z) (pst_imports d).
(** The join with the accounts, the display name last. *)
Definition list_imports (d : Db) : list (pst_import * option string) :=
  flat_map (fun i => match List.find (fun a => a_id a == pi_account_id i) (accounts d) with
                     | Some a => [(i, a_display_name a)]
                     | None => []
                     end) (pst_imports d).
Definition find_active_by_source_sha256 (sha : string) (d : Db) : option pst_import :=
  List.find (fun i => (pi_source_sha256 i == sha) && pi_is_active i) (pst_imports d).
Definition find_incomplete_by_source_sha256 (sha : string) (d : Db) : list pst_import :=
  List.filter (fun i => (pi_source_sha256 i == sha) && mem (pi_status i) INCOMPLETE_IMPORT_STATUSES)
    (pst_imports d).

Definition item_le (a b : pst_item) : Prop :=
  String.leb (it_source_item_key a) (it_source_item_key b) = true.
#[export] Instance item_le_dec : RelDecision item_le.
Proof. intros a b. unfold item_le. apply _. Defined.
Definition of_import (id : Z) (i : pst_item) : bool := (it_import_id i =? id)%Z.
Definition is_saved (i : pst_item) : bool := mem (it_status i) ["saved"; "completed"].
(** [ORDER BY source_item_key] *)
Definition list_items (id : Z) (d : Db) : list pst_item :=
  merge_sort item_le (List.filter (of_import id) (pst_items d)).
Definition list_incomplete_items (id : Z) (d : Db) : list pst_item :=
  merge_sort item_le (List.filter (fun i => of_import id i && negb (is_saved i)) (pst_items d)).
(** [ORDER BY items.import_id DESC LIMIT 1] *)
Definition get_import_uuid_for_message (message_id : Z) (d : Db) : option string :=
  let uses := List.filter (fun i => it_message_row_id i == Some message_id) (pst_items d) in
  let newest := fold_left Z.max (map it_import_id uses) 0%Z in
  if bool_decide (uses = []) then None
  else option_map pi_import_uuid (get_import newest d).

(** ** Imports *)

(** A row before its insertion; the columns it leaves out have their defaults ([options_json] and
    [started_at], which nothing reads, are left out). *)
Record import_in := ImportIn {
  ii_import_uuid : string;
  ii_account_id : string;
  ii_source_filename : string;
  ii_source_sha256 : string;
  ii_source_size_bytes : option Z;
  ii_source_mtime : option Z;
  ii_status : string;
  ii_is_active : bool;
  ii_replaces_id : option Z;
  ii_readpst_version : option string;
  ii_superseded_at : option string;
  ii_total_files : option Z;
  ii_ingested_count : Z;
  ii_failed_count : Z;
  ii_finished_at : option string;
}.
Definition new_import (r : import_in) (id : Z) : pst_import :=
  PstImport id (ii_import_uuid r) (ii_account_id r) (ii_source_filename r) (ii_source_sha256 r)
    (ii_source_size_bytes r) (ii_source_mtime r) (ii_readpst_version r) (ii_status r) (ii_is_active r)
    (ii_replaces_id r) (ii_superseded_at r) (ii_total_files r) (ii_ingested_count r) (ii_failed_count r) None
    (ii_finished_at r) None.
(** [create_import]: [import_uuid] is unique, [uq_active_pst_source] makes the active row of a
    source unique, the account and the replaced generation must exist. *)
Definition create_import (r : import_in) (d : Db) : result (Z * Db) :=
  check (negb (existsb (fun i => pi_import_uuid i == ii_import_uuid r) (pst_imports d))
         && negb (ii_is_active r && existsb (fun i => (pi_source_sha256 i == ii_source_sha256 r)
                                                      && pi_is_active i) (pst_imports d))
         && existsb (fun a => a_id a == ii_account_id r) (accounts d)
         && match ii_replaces_id r with
            | Some o => existsb (fun i => (pi_id i =? o)%Z) (pst_imports d)
            | None => true
            end) DatabaseError "SQLite operation failed: create PST import" ;?
  let id := next_import_id d in
  Ok (id, bump_import (set_imports (fun l => l ++ [new_import r id])%list d)).

(** The optional columns of [update_import_status]; [None] leaves the column as it is. *)
Record status_in := StatusIn {
  si_total_files : option (option Z);
  si_ingested_count : option Z;
  si_failed_count : option Z;
  si_staging_path : option (option string);
  si_finished_at : option (option string);
  si_error_message : option (option string);
}.
Definition only_status : status_in := StatusIn None None None None None None.
Definition with_status (status : string) (s : status_in) (i : pst_import) : pst_import :=
  PstImport (pi_id i) (pi_import_uuid i) (pi_account_id i) (pi_source_filename i) (pi_source_sha256 i)
    (pi_source_size_bytes i) (pi_source_mtime i) (pi_readpst_version i) status (pi_is_active i)
    (pi_replaces_id i) (pi_superseded_at i) (get_or (pi_total_files i) (si_total_files s))
    (get_or (pi_ingested_count i) (si_ingested_count s)) (get_or (pi_failed_count i) (si_failed_count s))
    (get_or (pi_staging_path i) (si_staging_path s)) (get_or (pi_finished_at i) (si_finished_at s))
    (get_or (pi_error_message i) (si_error_message s)).
Definition update_import (id : Z) (f : pst_import -> pst_import) (d : Db) : Db :=
  set_imports (update_where (fun i => (pi_id i =? id)%Z) f) d.
Definition update_import_status (id : Z) (status : string) (s : status_in) (d : Db) : result Db :=
  check (existsb (fun i => (pi_id i =? id)%Z) (pst_imports d)) DatabaseError "PST import does not exist" ;?
  Ok (update_import id (with_status status s) d).

(** ** Items *)

Definition same_item (i j : pst_item) : bool :=
  (it_import_id j =? it_import_id i)%Z && (it_source_item_key j == it_source_item_key i).
(** [upsert_import_item]: every column but the key is overwritten. *)
Definition upsert_import_item (i : pst_item) (d : Db) : result Db :=
  check (existsb (fun p => (pi_id p =? it_import_id i)%Z) (pst_imports d)
         && match it_message_row_id i with
            | Some m => if message_with m d is Some _ then true else false
            | None => true
            end) DatabaseError "SQLite operation failed: upsert PST import item" ;?
  Ok (if existsb (same_item i) (pst_items d)
      then set_items (update_where (same_item i) (fun _ => i)) d
      else set_items (fun l => l ++ [i])%list d).

(** ** Messages and folders *)

(** [upsert_folder]: only the names are passed on. *)
Definition upsert_pst_folder (account raw display : string) (d : Db) : result (Z * Db) :=
  check ((account != "") && (raw != "") && (display != "")) ValueError
    "PST folder account_id, raw_name, and display_name are required" ;?
  upsert_folder (FolderIn account raw (Some display) None None None None None None None) d.

(** [validate_no_remote_message]: the columns a PST message must not have. *)
Definition validate_no_remote_message (r : message_in) : result unit :=
  let mf := mr_membership r in
  check (remote_state mf == "no_remote") ValueError "PST messages must use remote_state='no_remote'" ;?
  check ((uid mf == None) && (uidvalidity mf == None) && (imap_flags mf == None) && (flags_seen_at mf == None)
         && (last_seen_at mf == None)
         && (negb (mem "internal_date" (mr_columns r)) || (internal_date (mr_row r) == None)))
    ValueError "PST messages must leave fields NULL".
(** The row with its NULL columns: [internal_date] is now one of its columns. *)
Definition pst_row (r : message_in) : message_in :=
  let m := mr_row r in
  MessageIn (if mem "internal_date" (mr_columns r) then mr_columns r else mr_columns r ++ ["internal_date"])%list
    (Message (m_id m) (account_id m) (message_id m) (content_key m) (source_item_key m) (m_local_state m)
       (trashed_at m) (relative_path m) (file_hash m) (subject m) (sender m) (recipient m) (cc m) (date_sent m)
       None (size_bytes m) (has_attachment m) (in_reply_to m) (references_ids m) (thread_key m)
       (gmail_msgid m) (gmail_thrid m) (gmail_labels m))
    (mr_membership r).
Definition add_pst_message (normalize : string -> string) (r : message_in) (c : option contents_in) (d : Db)
    : result (Z * Db) :=
  validate_no_remote_message r ;? add_message normalize (pst_row r) c d.

(** ** Generations *)

(** [UPDATE messages ... WHERE id IN (SELECT message_row_id FROM pst_import_items WHERE import_id = ?)] *)
Definition in_generation (id : Z) (d : Db) (m : message) : bool :=
  existsb (fun i => of_import id i && (it_message_row_id i == Some (m_id m))) (pst_items d).
Definition set_generation_state (id : Z) (state : local_state) (at_ : option string) (d : Db) : Db :=
  set_messages (update_where (in_generation id d) (with_state state at_)) d.
Definition with_generation (active : bool) (status : option string) (superseded : option (option string))
    (i : pst_import) : pst_import :=
  PstImport (pi_id i) (pi_import_uuid i) (pi_account_id i) (pi_source_filename i) (pi_source_sha256 i)
    (pi_source_size_bytes i) (pi_source_mtime i) (pi_readpst_version i) (get_or (pi_status i) status) active
    (pi_replaces_id i) (get_or (pi_superseded_at i) superseded) (pi_total_files i) (pi_ingested_count i)
    (pi_failed_count i) (pi_staging_path i) (pi_finished_at i) (pi_error_message i).

(** The unique index after an [UPDATE] of [is_active]. *)
Definition unique_active (d : Db) : bool :=
  forallb (fun i => forallb (fun j => (pi_id i =? pi_id j)%Z || negb (pi_is_active i && pi_is_active j
                                       && (pi_source_sha256 i == pi_source_sha256 j))) (pst_imports d))
    (pst_imports d).
Definition activate_row (id : Z) (f : pst_import -> pst_import) (d : Db) : result Db :=
  let d := update_import id f d in
  check (unique_active d) DatabaseError "UNIQUE constraint failed: pst_imports.source_sha256" ;? Ok d.

(** [_run_generation_change]: any error becomes a [DatabaseError]; nothing of it stays, because it is
    one transaction of its own or the caller's is rolled back. *)
Definition generation_change (operation : string) (r : result Db) : result Db :=
  match r with Ok d => Ok d | Err _ => db_error ("Could not " ++ operation) end.

(** [strftime('%Y-%m-%dT%H:%M:%SZ', 'now')] is [now]. *)
Definition activate_generation (now : string) (import_id replaces_id : Z) (d : Db) : result Db :=
  generation_change "activate PST generation" (
    match get_import import_id d, get_import replaces_id d with
    | Some new_row, Some old_row =>
        check (mem (pi_status new_row) COMPLETE_STATUSES) ValueError
          "Only a completed PST generation can become active" ;?
        check (negb (pi_is_active new_row) && (pi_replaces_id new_row == Some replaces_id)) ValueError
          "The new PST generation is not an inactive replacement" ;?
        check (pi_is_active old_row && mem (pi_status old_row) COMPLETE_STATUSES) ValueError
          "The replaced PST generation is not active" ;?
        let d := set_generation_state import_id Active None d in
        let d := set_generation_state replaces_id Trashed (Some now) d in
        let? d := activate_row replaces_id (with_generation false (Some "superseded") (Some (Some now))) d in
        activate_row import_id (with_generation true None None) d
    | _, _ => raise ValueError "PST generation does not exist"
    end).

(** [WHERE is_active = 1 AND id != ? ORDER BY id DESC LIMIT 1]: rows are in id order. *)
Definition newest_active_but (id : Z) (d : Db) : option pst_import :=
  last (List.filter (fun i => pi_is_active i && negb (pi_id i =? id)%Z) (pst_imports d)).
Definition restore_generation (now : string) (import_id : Z) (d : Db) : result Db :=
  generation_change "restore PST generation" (
    match get_import import_id d with
    | Some target =>
        check (negb (pi_is_active target) && (pi_status target == "superseded")) ValueError
          "PST generation is not restorable" ;?
        match newest_active_but import_id d with
        | Some current =>
            check ((pi_replaces_id current == Some import_id) && mem (pi_status current) COMPLETE_STATUSES)
              ValueError "PST generations are not an adjacent replacement pair" ;?
            let d := set_generation_state import_id Active None d in
            let d := set_generation_state (pi_id current) Trashed (Some now) d in
            let? d := activate_row (pi_id current)
                        (with_generation false (Some "superseded") (Some (Some now))) d in
            activate_row import_id (with_generation true (Some "completed") (Some None)) d
        | None => raise ValueError "No active PST generation to replace"
        end
    | None => raise ValueError "PST generation is not restorable"
    end).

Definition rollback_generation_switch (now : string) (import_id replaces_id : Z) (d : Db) : result Db :=
  generation_change "rollback PST generation switch" (
    match get_import import_id d, get_import replaces_id d with
    | Some new_row, Some old_row =>
        check (pi_replaces_id new_row == Some replaces_id) ValueError
          "PST generations are not an adjacent replacement pair" ;?
        if pi_is_active new_row && negb (pi_is_active old_row) then
          let d := set_generation_state replaces_id Active None d in
          let d := set_generation_state import_id Trashed (Some now) d in
          let? d := activate_row import_id (with_generation false (Some "completed") None) d in
          activate_row replaces_id (with_generation true (Some "completed") (Some None)) d
        else if negb (pi_is_active new_row) && pi_is_active old_row then Ok d
        else raise ValueError "PST generation switch has an invalid database state"
    | _, _ => raise ValueError "PST generations are not an adjacent replacement pair"
    end).
Close Scope string_scope.

(** ** The constraints of the two tables *)

Definition item_key (i : pst_item) : Z * string := (it_import_id i, it_source_item_key i).
Definition active_key (i : pst_import) : option string :=
  if pi_is_active i then Some (pi_source_sha256 i) else None.
Record pst_wf (d : Db) : Prop := {
  pw_ids : NoDup (map pi_id (pst_imports d));
  pw_next : Forall (fun i => pi_id i < next_import_id d)%Z (pst_imports d);
  pw_uuids : NoDup (map pi_import_uuid (pst_imports d));
  pw_active : NoDup (omap active_key (pst_imports d));
  pw_replaces : Forall (fun i => match pi_replaces_id i with
                                 | Some o => o ∈ map pi_id (pst_imports d) | None => True end) (pst_imports d);
  pw_keys : NoDup (map item_key (pst_items d));
  pw_owner : Forall (fun i => it_import_id i ∈ map pi_id (pst_imports d)) (pst_items d);
  pw_rows : Forall (fun i => match it_message_row_id i with
                             | Some m => m ∈ map m_id (messages d) | None => True end) (pst_items d);
}.

(** The parts of the database [pst_wf] looks at. *)
Lemma pst_wf_frame d d' : pst_wf d -> pst_imports d' = pst_imports d -> pst_items d' = pst_items d ->
  next_import_id d' = next_import_id d -> (forall m, m ∈ map m_id (messages d) -> m ∈ map m_id (messages d')) ->
  pst_wf d'.
Proof.
  intros [H1 H2 H3 H4 H5 H6 H7 H8] E1 E2 E3 Hm. split; rewrite ?E1, ?E2, ?E3; try done.
  eapply Forall_impl; [exact H8|]. intros i Hi. cbn beta in *. destruct (it_message_row_id i); auto.
Qed.

Lemma get_import_id id d i : get_import id d = Some i -> i ∈ pst_imports d /\ pi_id i = id.
Proof. intros [Hi E]%List.find_some. apply list_elem_of_In in Hi. by apply Z.eqb_eq in E. Qed.
Lemma existsb_import id d : existsb (fun i => (pi_id i =? id)%Z) (pst_imports d) = true -> id ∈ map pi_id (pst_imports d).
Proof.
  intros (i & Hi%list_elem_of_In & E%Z.eqb_eq)%existsb_exists. apply list_elem_of_fmap. by exists i.
Qed.

Lemma create_import_wf r d id d' : pst_wf d -> create_import r d = Ok (id, d') -> pst_wf d'.
Proof.
  intros [H1 H2 H3 H4 H5 H6 H7 H8] ([] & Hc%check_ok & [= <- <-])%rbind_ok.
  rewrite !andb_true_iff, !negb_true_iff in Hc. destruct Hc as (((Hu & Ha) & _) & Hr).
  assert (forall A (x : A) l, x ∈ l -> forall y, x ∈ (l ++ [y])%list) as Hl
    by (intros; apply elem_of_app; by left).
  cbn -[map omap] in *. split; cbn -[map omap]; rewrite ?map_app; cbn [map].
  - apply NoDup_snoc; [done|]. intros (i & E & Hi)%list_elem_of_fmap. rewrite Forall_forall in H2.
    specialize (H2 i Hi). cbn in E. lia.
  - apply Forall_app. split; [eapply Forall_impl; [exact H2|]; intros; cbn in *; lia|].
    repeat constructor. cbn. lia.
  - apply NoDup_snoc; [done|]. intros (i & E & Hi)%list_elem_of_fmap. apply not_true_iff_false in Hu.
    apply Hu, existsb_exists. exists i. by rewrite <- list_elem_of_In, (proj2 (eqb_true _ _)).
  - rewrite omap_app. cbn. unfold active_key at 2. cbn. destruct (ii_is_active r) eqn:Ea; [|by rewrite app_nil_r].
    apply NoDup_snoc; [done|]. intros (i & Hi & E)%list_elem_of_omap. unfold active_key in E.
    destruct (pi_is_active i) eqn:Ei; [|done]. injection E as E.
    apply not_true_iff_false in Ha. apply Ha, existsb_exists. exists i. rewrite <- list_elem_of_In, Ei, (proj2 (eqb_true _ _)) by done. done.
  - apply Forall_app. split.
    + eapply Forall_impl; [exact H5|]. intros i Hi. cbn beta in *. destruct (pi_replaces_id i); auto.
    + repeat constructor. cbn. destruct (ii_replaces_id r); [|done]. apply Hl. by apply existsb_import.
  - done.
  - eapply Forall_impl; [exact H7|]. auto.
  - done.
Qed.

(** Updating a row of [pst_imports]: its identity stays, and the active rows stay unique. *)
Definition same_identity (f : pst_import -> pst_import) : Prop := forall i,
  pi_id (f i) = pi_id i /\ pi_import_uuid (f i) = pi_import_uuid i /\ pi_replaces_id (f i) = pi_replaces_id i.
Lemma update_import_wf id f d : same_identity f ->
  NoDup (omap active_key (pst_imports (update_import id f d))) -> pst_wf d -> pst_wf (update_import id f d).
Proof.
  intros Hf Ha [H1 H2 H3 H4 H5 H6 H7 H8]. unfold update_import in *.
  assert (forall (g : pst_import -> Z), (forall i, g (f i) = g i) ->
    map g (update_where (fun i => (pi_id i =? id)%Z) f (pst_imports d)) = map g (pst_imports d)) as Hz
    by (intros g Hg; by apply map_update_where).
  split; cbn [pst_imports pst_items set_imports next_import_id messages]; rewrite ?Hz; try done; try apply Hf.
  - apply Forall_update_where; [|done]. intros i. by rewrite (proj1 (Hf i)).
  - rewrite map_update_where; [done|]. apply Hf.
  - apply Forall_update_where; [|done]. intros i. by rewrite (proj2 (proj2 (Hf i))).
Qed.
Lemma same_active id f d : (forall i, active_key (f i) = active_key i) ->
  omap active_key (pst_imports (update_import id f d)) = omap active_key (pst_imports d).
Proof. apply omap_update_where. Qed.
Lemma unique_active_NoDup d : NoDup (map pi_id (pst_imports d)) -> unique_active d = true ->
  NoDup (omap active_key (pst_imports d)).
Proof.
  unfold unique_active. rewrite forallb_true. intros Hd Hu.
  assert (forall l, l ⊆ pst_imports d -> NoDup (map pi_id l) -> NoDup (omap active_key l)) as H; [|by apply H].
  induction l as [|i l IH]; intros Hl Hn; [constructor|]. cbn in Hn |- *. apply NoDup_cons in Hn as [Hi Hn].
  destruct (active_key i) eqn:E; [|apply IH; [set_solver|done]]. apply NoDup_cons. split; [|apply IH; [set_solver|done]].
  intros (j & Hj & Ej)%list_elem_of_omap. unfold active_key in *.
  destruct (pi_is_active i) eqn:Ei, (pi_is_active j) eqn:Ej'; try done. injection E as E. injection Ej as Ej.
  assert (j ∈ pst_imports d) as Hjd by set_solver.
  specialize (Hu i ltac:(set_solver)). rewrite forallb_true in Hu. specialize (Hu j Hjd).
  rewrite Ei, Ej', (proj2 (eqb_true _ _)) in Hu by congruence. rewrite orb_false_r in Hu. apply Z.eqb_eq in Hu.
  apply Hi. rewrite Hu. by apply list_elem_of_fmap_2.
Qed.
Lemma activate_row_wf id f d d' : same_identity f -> pst_wf d -> activate_row id f d = Ok d' -> pst_wf d'.
Proof.
  intros Hf Hd ([] & Hu%check_ok & <-%Ok_inj)%rbind_ok. apply update_import_wf; try done.
  apply unique_active_NoDup; [|done]. unfold update_import. cbn. rewrite map_update_where; [apply Hd|apply Hf].
Qed.
Lemma with_generation_identity a s t : same_identity (with_generation a s t).
Proof. by intros i. Qed.
Lemma set_generation_state_ids id s t d : map m_id (messages (set_generation_state id s t d)) = map m_id (messages d).
Proof. by apply map_update_where. Qed.
Lemma set_generation_state_wf id s t d : pst_wf d -> pst_wf (set_generation_state id s t d).
Proof. intros H. apply (pst_wf_frame d); try done. intros m. by rewrite set_generation_state_ids. Qed.

Lemma upsert_import_item_wf i d d' : pst_wf d -> upsert_import_item i d = Ok d' -> pst_wf d'.
Proof.
  intros [H1 H2 H3 H4 H5 H6 H7 H8] ([] & Hc%check_ok & <-%Ok_inj)%rbind_ok.
  apply andb_true_iff in Hc as [Ho%existsb_import Hm].
  assert (match it_message_row_id i with Some m => m ∈ map m_id (messages d) | None => True end) as Hr.
  { destruct (it_message_row_id i) as [m|]; [|done]. destruct (message_with m d) as [r|] eqn:E; [|done].
    apply List.find_some in E as [E1%list_elem_of_In E2%Z.eqb_eq]. apply list_elem_of_fmap. by exists r. }
  assert (forall j, same_item i j = true <-> item_key j = item_key i) as Hs.
  { intros j. unfold same_item, item_key. rewrite andb_true_iff, Z.eqb_eq. split; [intros [-> ->%eqb_true_1]; done|].
    intros [= -> ->]. by rewrite (proj2 (eqb_true _ _)). }
  destruct (existsb (same_item i) (pst_items d)) eqn:E; split; cbn; try done.
  - rewrite map_update_where'; [done|]. intros j _ Hj. symmetry. by apply Hs.
  - by apply Forall_update_where.
  - by apply Forall_update_where.
  - rewrite map_app. apply NoDup_snoc; [done|]. intros (j & Ej & Hj)%list_elem_of_fmap.
    apply not_true_iff_false in E. apply E, existsb_exists. exists j. rewrite <- list_elem_of_In. split; [done|]. by apply Hs.
  - apply Forall_app. auto.
  - apply Forall_app. auto.
Qed.

(** Operations on other tables. *)
Definition pst_frame (d d' : Db) : Prop :=
  pst_imports d' = pst_imports d /\ pst_items d' = pst_items d /\ next_import_id d' = next_import_id d
  /\ (forall m, m ∈ map m_id (messages d) -> m ∈ map m_id (messages d')).
#[export] Instance pst_frame_preorder : PreOrder pst_frame.
Proof.
  split; unfold pst_frame; [done|]. intros a b c (E1 & E2 & E3 & H) (E1' & E2' & E3' & H').
  split_and!; [congruence..|auto].
Qed.
Lemma wf_frame d d' : pst_frame d d' -> pst_wf d -> pst_wf d'.
Proof. intros (H1 & H2 & H3 & H4) Hd. by apply (pst_wf_frame d). Qed.
Lemma same_messages_frame d d' : pst_imports d' = pst_imports d -> pst_items d' = pst_items d ->
  next_import_id d' = next_import_id d -> map m_id (messages d') = map m_id (messages d) -> pst_frame d d'.
Proof. intros H1 H2 H3 H4. split_and!; try done. by rewrite H4. Qed.

Lemma upsert_message_frame r d id d' : upsert_message r d = Ok (id, d') ->
  pst_frame d d' /\ id ∈ map m_id (messages d').
Proof.
  unfold upsert_message. cbv zeta. intros ([] & _ & E)%rbind_ok.
  destruct (List.find _ (messages d)) as [old|] eqn:Ef; injection E as <- <-.
  - assert (map m_id (messages (set_messages (update_where (same_key (account_id (mr_row r)) (source_item_key (mr_row r)))
      (set_columns (mr_columns r) (mr_row r))) d)) = map m_id (messages d)) as E by by apply map_update_where.
    split; [by apply same_messages_frame|]. rewrite E. apply List.find_some in Ef as [Hin%list_elem_of_In _].
    by apply list_elem_of_fmap_2.
  - cbn. rewrite map_app. split; [split_and!; try done; cbn; rewrite map_app|]; set_solver.
Qed.
Lemma add_message_frame nz r c d id d' : add_message nz r c d = Ok (id, d') ->
  pst_frame d d' /\ id ∈ map m_id (messages d').
Proof.
  unfold add_message. intros ([id1 d1] & [H1 Hid]%upsert_message_frame & (d2 & H2 & [= <- <-])%rbind_ok)%rbind_ok.
  assert (pst_frame d1 d2 /\ messages d2 = messages d1) as [H12 Em].
  { unfold upsert_membership in H2. apply rbind_ok in H2 as (? & _ & <-%Ok_inj). case_match; by split. }
  split; [|destruct c; cbn; by rewrite Em].
  transitivity d1; [done|]. transitivity d2; [done|]. destruct c; [by apply same_messages_frame|done].
Qed.
Lemma upsert_folder_frame f d id d' : upsert_folder f d = Ok (id, d') -> pst_frame d d'.
Proof.
  unfold upsert_folder. destruct (List.find _ (folders d)); [intros [= _ <-]; by apply same_messages_frame|].
  intros (? & _ & [= _ <-])%rbind_ok. by apply same_messages_frame.
Qed.
Lemma record_audit_frame e d d' : record_audit e d = Ok d' -> pst_frame d d'.
Proof. unfold record_audit. case_match; [|done]. intros <-%Ok_inj. by apply same_messages_frame. Qed.

Lemma merge_row_pst c x d : pst_frame d (merge_row c x d).
Proof.
  assert (forall id f d, (forall m, m_id (f m) = m_id m) -> pst_frame d (update_message id f d)) as Hu
    by (intros; apply same_messages_frame; try done; by apply map_update_where).
  unfold merge_row. set (d0 := match relative_path c, file_hash c with None, None => _ | _, _ => d end).
  set (d1 := if merged_state _ _ == _ then d0 else _).
  transitivity d0; [subst d0; repeat case_match; by (apply Hu || reflexivity)|].
  transitivity d1; [subst d1; case_match; by (apply Hu || reflexivity)|].
  case_match; [by apply same_messages_frame|reflexivity].
Qed.
Lemma merge_aliases_pst account canonical x d : pst_frame d (merge_aliases account canonical x d).
Proof.
  assert (forall a d, pst_frame d (insert_alias a d)) as Hi.
  { intros a d0. unfold insert_alias. case_match; [reflexivity|by apply same_messages_frame]. }
  unfold merge_aliases. generalize (List.filter (fun a => (al_message_id a =? m_id x)%Z && (al_account_id a == account)) (aliases d)).
  intros l. etransitivity; [|by apply same_messages_frame].
  transitivity (fold_left (fun d a => insert_alias (Alias account (observed_source_item_key a) canonical (evidence_kind a)) d) l d);
    [|apply Hi]. revert d. induction l as [|a l IH]; intros d; [reflexivity|]. cbn. by etransitivity; [apply Hi|].
Qed.
Lemma merge_memberships_pst canonical duplicate l : forall d d',
  merge_memberships canonical duplicate l d = Ok d' -> pst_frame d d'.
Proof.
  induction l as [|mf l IH]; intros d d'; cbn [merge_memberships]; [intros [= <-]; reflexivity|].
  intros (d1 & H1 & H2)%rbind_ok. transitivity d1; [|by apply IH]. unfold merge_membership in H1.
  destruct (List.find _ _); [apply rbind_ok in H1 as (? & _ & <-%Ok_inj)|injection H1 as <-]; by apply same_messages_frame.
Qed.
Lemma merge_pst_wf account canonical duplicate d d' : pst_wf d ->
  merge_duplicate_message account canonical duplicate d = Ok d' -> pst_wf d'.
Proof.
  intros H. destruct (Z.eq_dec canonical duplicate) as [->|Hne].
  { unfold merge_duplicate_message. rewrite Z.eqb_refl. by intros <-%Ok_inj. }
  intros E. apply merge_duplicate_inv in E as (c & x & d1 & Ec & _ & Hc & _ & Em & ->); [|done].
  assert (pst_frame d d1) as Hf.
  { etransitivity; [apply (merge_row_pst c x)|]. etransitivity; [apply (merge_aliases_pst account canonical x)|].
    by apply (merge_memberships_pst canonical duplicate _ _ _ Em). }
  assert (canonical ∈ map m_id (messages d1)) as Hin.
  { apply Hf, list_elem_of_fmap. apply List.find_some in Ec as [Ec%list_elem_of_In _]. by exists c. }
  apply (wf_frame _ _ Hf) in H. destruct H as [H1 H2 H3 H4 H5 H6 H7 H8].
  split; cbn [delete_message move_items set_items set_aliases set_contents set_memberships set_messages pst_imports
    pst_items next_import_id messages]; try done.
  - by rewrite map_update_where.
  - by apply Forall_update_where.
  - rewrite Forall_forall in H8. apply Forall_forall. intros i (y & Hy & ->)%elem_of_update_where.
    specialize (H8 y Hy). cbn beta in H8.
    assert (forall m, m ∈ map m_id (messages d1) -> m <> duplicate ->
      m ∈ map m_id (delete_where (fun m => (m_id m =? duplicate)%Z) (messages d1))) as Hdel.
    { intros m (r & -> & Hr)%list_elem_of_fmap Hm. apply list_elem_of_fmap. exists r. split; [done|].
      apply elem_of_delete_where. split; [done|]. by apply Z.eqb_neq. }
    destruct (it_message_row_id y == Some duplicate) eqn:Ey; [by apply Hdel|].
    destruct (it_message_row_id y) as [m|]; [|done]. apply Hdel; [done|]. intros ->. by rewrite (proj2 (eqb_true _ _)) in Ey.
Qed.

(** ** The repository as a step relation *)

Inductive pst_step (now : string) (normalize : string -> string) : Db -> Db -> Prop :=
  | pst_create r d id d' : create_import r d = Ok (id, d') -> pst_step now normalize d d'
  | pst_update_status id st s d d' : update_import_status id st s d = Ok d' -> pst_step now normalize d d'
  | pst_upsert_item i d d' : upsert_import_item i d = Ok d' -> pst_step now normalize d d'
  | pst_upsert_folder a r n d id d' : upsert_pst_folder a r n d = Ok (id, d') -> pst_step now normalize d d'
  | pst_add_message r c d id d' : add_pst_message normalize r c d = Ok (id, d') -> pst_step now normalize d d'
  | pst_activate a b d d' : activate_generation now a b d = Ok d' -> pst_step now normalize d d'
  | pst_restore a d d' : restore_generation now a d = Ok d' -> pst_step now normalize d d'
  | pst_rollback a b d d' : rollback_generation_switch now a b d = Ok d' -> pst_step now normalize d d'
  | pst_audit e d d' : record_audit e d = Ok d' -> pst_step now normalize d d'
  | pst_merge acc c x d d' : merge_duplicate_message acc c x d = Ok d' -> pst_step now normalize d d'.

Lemma generation_change_ok op r d : generation_change op r = Ok d -> r = Ok d.
Proof. by destruct r. Qed.

(** C29. The repository of PST imports keeps the constraints of its tables: import ids and UUIDs are
    unique, a source file has at most one active generation, item keys are unique in a generation,
    every item belongs to an existing import and refers to an existing message, also when messages
    are merged and when generations are switched, restored or rolled back. *)
Theorem pst_repository_keeps_constraints now normalize d d' :
  pst_wf d -> pst_step now normalize d d' -> pst_wf d'.
Proof.
  intros H E. destruct E as [r d id d' E|id st s d d' E|i d d' E|a r n d id d' E|r c d id d' E|a b d d' E|a d d' E
    |a b d d' E|e d d' E|acc c x d d' E].
  - by eapply create_import_wf.
  - apply rbind_ok in E as (? & _ & <-%Ok_inj). apply update_import_wf; [done| |done]. rewrite same_active by done. apply H.
  - by eapply upsert_import_item_wf.
  - apply rbind_ok in E as (? & _ & E%upsert_folder_frame). by eapply wf_frame.
  - apply rbind_ok in E as (? & _ & [E _]%add_message_frame). by eapply wf_frame.
  - apply generation_change_ok in E. destruct (get_import a d), (get_import b d); try done.
    apply rbind_ok in E as (? & _ & (? & _ & (? & _ & (d1 & E1 & E2)%rbind_ok)%rbind_ok)%rbind_ok).
    eapply activate_row_wf in E2; [done|done|]. eapply activate_row_wf in E1; [done|done|].
    by do 2 apply set_generation_state_wf.
  - apply generation_change_ok in E. destruct (get_import a d); [|done]. apply rbind_ok in E as (? & _ & E).
    destruct (newest_active_but a d); [|done]. apply rbind_ok in E as (? & _ & (d1 & E1 & E2)%rbind_ok).
    eapply activate_row_wf in E2; [done|done|]. eapply activate_row_wf in E1; [done|done|].
    by do 2 apply set_generation_state_wf.
  - apply generation_change_ok in E. destruct (get_import a d), (get_import b d); try done.
    apply rbind_ok in E as (? & _ & E). case_match; [|by case_match; [injection E as <-|]].
    apply rbind_ok in E as (d1 & E1 & E2).
    eapply activate_row_wf in E2; [done|done|]. eapply activate_row_wf in E1; [done|done|].
    by do 2 apply set_generation_state_wf.
  - eapply wf_frame; [|exact H]. by eapply record_audit_frame.
  - by eapply merge_pst_wf.
Qed.

(** ** Switching generations *)

Definition switched (now : string) (shown hidden : Z) (d : Db) (m : message) : message :=
  if in_generation hidden d m then with_state Trashed (Some now) m
  else if in_generation shown d m then with_state Active None m else m.

Lemma set_states_messages now a b d :
  messages (set_generation_state b Trashed (Some now) (set_generation_state a Active None d))
  = map (switched now a b d) (messages d).
Proof.
  unfold set_generation_state, update_where. cbn [messages set_messages]. rewrite map_map. apply map_ext.
  intros m. unfold switched, in_generation. cbn [pst_items set_messages].
  destruct (existsb (fun i => of_import a i && _) (pst_items d)); cbn [m_id with_state]; by case_match.
Qed.
Lemma activate_row_spec id f d d' : activate_row id f d = Ok d' ->
  messages d' = messages d /\ pst_items d' = pst_items d
  /\ pst_imports d' = map (fun i => if (pi_id i =? id)%Z then f i else i) (pst_imports d).
Proof. by intros ([] & _ & <-%Ok_inj)%rbind_ok. Qed.
Lemma activate_rows_spec now a b fa fb d d1 d' : a <> b -> (forall i, pi_id (fb i) = pi_id i) ->
  activate_row b fb (set_generation_state b Trashed (Some now) (set_generation_state a Active None d)) = Ok d1 ->
  activate_row a fa d1 = Ok d' ->
  messages d' = map (switched now a b d) (messages d) /\ pst_items d' = pst_items d
  /\ pst_imports d' = map (fun i => if (pi_id i =? a)%Z then fa i else if (pi_id i =? b)%Z then fb i else i)
                        (pst_imports d).
Proof.
  intros Hab Hb (M1 & I1 & P1)%activate_row_spec (M2 & I2 & P2)%activate_row_spec.
  rewrite M2, M1, set_states_messages, I2, I1, P2, P1, map_map. split_and!; try done.
  apply map_ext. intros i. cbn [pst_imports]. destruct (Z.eqb_spec (pi_id i) b) as [E|E].
  - rewrite Hb, E. destruct (Z.eqb_spec b a) as [E'|E']; [congruence|done].
  - by destruct (Z.eqb_spec (pi_id i) a).
Qed.

Lemma activate_generation_ok now a b d d' : activate_generation now a b d = Ok d' ->
  a <> b
  /\ (exists new_row old_row, get_import a d = Some new_row /\ get_import b d = Some old_row
      /\ pi_is_active new_row = false /\ pi_replaces_id new_row = Some b
      /\ pi_is_active old_row = true /\ pi_status old_row ∈ COMPLETE_STATUSES /\ pi_status new_row ∈ COMPLETE_STATUSES)
  /\ messages d' = map (switched now a b d) (messages d) /\ pst_items d' = pst_items d
  /\ pst_imports d' = map (fun i => if (pi_id i =? a)%Z then with_generation true None None i
                                    else if (pi_id i =? b)%Z
                                    then with_generation false (Some "superseded"%string) (Some (Some now)) i else i)
                        (pst_imports d).
Proof.
  intros E%generation_change_ok. destruct (get_import a d) as [n|] eqn:En, (get_import b d) as [o|] eqn:Eo; try done.
  apply rbind_ok in E as ([] & Hs%check_ok & ([] & [Hn Hr]%check_ok%andb_true_iff
    & ([] & [Ho Hos]%check_ok%andb_true_iff & (d1 & E1 & E2)%rbind_ok)%rbind_ok)%rbind_ok).
  apply negb_true_iff in Hn. apply eqb_true_1 in Hr. apply mem_true in Hs, Hos.
  assert (a <> b) as Hab by (intros ->; congruence).
  edestruct (activate_rows_spec now a b) as (M & I & P); [exact Hab| |exact E1|exact E2|]; [done|].
  split_and!; try done. exists n, o. done.
Qed.

(** Making a re-import active is exactly an exchange: the new generation was complete, inactive
    and a replacement of the old one, which was active; afterwards the messages of the old
    generation are in the trash, those of the new one and not of the old one are active, every other
    message is as before; the new row is active, the old one superseded, every other row is as before. *)
Lemma activation_exchanges now a b d d' : activate_generation now a b d = Ok d' ->
  (exists new_row old_row, get_import a d = Some new_row /\ get_import b d = Some old_row
      /\ pi_is_active new_row = false /\ pi_replaces_id new_row = Some b /\ pi_is_active old_row = true)
  /\ messages d' = map (switched now a b d) (messages d)
  /\ (forall i, i ∈ pst_imports d' <->
        exists j, j ∈ pst_imports d /\
          i = if (pi_id j =? a)%Z then with_generation true None None j
              else if (pi_id j =? b)%Z then with_generation false (Some "superseded"%string) (Some (Some now)) j
              else j).
Proof.
  intros (Hab & (n & o & ? & ? & ? & ? & ? & ? & ?) & M & _ & P)%activate_generation_ok.
  split; [by exists n, o|]. split; [done|]. intros i. rewrite P, list_elem_of_fmap. naive_solver.
Qed.

(** The state a rollback finds after an interrupted switch: it undoes the exchange. *)
Lemma find_map_id id (f : pst_import -> pst_import) l : (forall i, pi_id (f i) = pi_id i) ->
  List.find (fun i => (pi_id i =? id)%Z) (map f l) = option_map f (List.find (fun i => (pi_id i =? id)%Z) l).
Proof.
  intros Hf. induction l as [|i l IH]; [done|]. cbn. rewrite Hf. by case_match.
Qed.
Lemma in_generation_items id d d' m m' : pst_items d' = pst_items d -> m_id m' = m_id m ->
  in_generation id d' m' = in_generation id d m.
Proof. unfold in_generation. by intros -> ->. Qed.
Lemma switched_id now a b d m : m_id (switched now a b d m) = m_id m.
Proof. unfold switched. by repeat case_match. Qed.

Lemma omap_NoDup_inj {A B} (f : A -> option B) l x y k : NoDup (omap f l) -> x ∈ l -> y ∈ l ->
  f x = Some k -> f y = Some k -> x = y.
Proof.
  intros Hn Hx Hy Ex Ey. induction l as [|z l IH]; [by apply not_elem_of_nil in Hx|]. cbn in Hn.
  apply elem_of_cons in Hx as [->|Hx], Hy as [->|Hy]; [done| | |].
  - rewrite Ex in Hn. apply NoDup_cons in Hn as [Hn _]. exfalso. apply Hn, list_elem_of_omap. by exists y.
  - rewrite Ey in Hn. apply NoDup_cons in Hn as [Hn _]. exfalso. apply Hn, list_elem_of_omap. by exists x.
  - apply IH; try done. destruct (f z); [by apply NoDup_cons in Hn as [_ ?]|done].
Qed.
Lemma unique_active_spec d : unique_active d = true <-> forall i j, i ∈ pst_imports d -> j ∈ pst_imports d ->
  pi_is_active i = true -> pi_is_active j = true -> pi_source_sha256 i = pi_source_sha256 j -> pi_id i = pi_id j.
Proof.
  unfold unique_active. rewrite forallb_true. split.
  - intros H i j Hi Hj Ai Aj E. specialize (H i Hi). rewrite forallb_true in H. specialize (H j Hj).
    rewrite Ai, Aj, (proj2 (eqb_true _ _) E), orb_false_r in H. by apply Z.eqb_eq.
  - intros H i Hi. rewrite forallb_true. intros j Hj. specialize (H i j Hi Hj).
    destruct (pi_is_active i), (pi_is_active j); rewrite ?orb_true_r; try done.
    destruct (pi_source_sha256 i == pi_source_sha256 j) eqn:E; [|by rewrite orb_true_r].
    apply eqb_true_1 in E. by rewrite (H eq_refl eq_refl E), Z.eqb_refl.
Qed.
Lemma wf_active_unique d i j : pst_wf d -> i ∈ pst_imports d -> j ∈ pst_imports d ->
  pi_is_active i = true -> pi_is_active j = true -> pi_source_sha256 i = pi_source_sha256 j -> pi_id i = pi_id j.
Proof.
  intros H Hi Hj Ai Aj E. f_equal. apply (omap_NoDup_inj active_key (pst_imports d) i j (pi_source_sha256 i)); try done;
    [apply H|unfold active_key; by rewrite Ai|unfold active_key; by rewrite Aj, E].
Qed.

Lemma switched_twice now later a b d d1 m : pst_items d1 = pst_items d ->
  switched later b a d1 (switched now a b d m) = switched later b a d m.
Proof.
  intros I. unfold switched at 1. rewrite !(in_generation_items _ d d1 m (switched now a b d m)) by (done || apply switched_id).
  unfold switched. destruct (in_generation a d m), (in_generation b d m); done.
Qed.

(** The row of an import after the exchange of [a] and [b]. *)
Lemma get_import_switched id a b (fa fb : pst_import -> pst_import) d d1 :
  pst_imports d1 = map (fun i => if (pi_id i =? a)%Z then fa i else if (pi_id i =? b)%Z then fb i else i) (pst_imports d) ->
  (forall i, pi_id (fa i) = pi_id i) -> (forall i, pi_id (fb i) = pi_id i) ->
  get_import id d1 = option_map (fun i => if (pi_id i =? a)%Z then fa i else if (pi_id i =? b)%Z then fb i else i)
                       (get_import id d).
Proof. intros P Ha Hb. unfold get_import. rewrite P. apply find_map_id. intros i. by repeat case_match. Qed.

Lemma unique_active_map d d' g : pst_wf d -> pst_imports d' = map g (pst_imports d) ->
  (forall i, i ∈ pst_imports d -> pi_id (g i) = pi_id i /\ pi_source_sha256 (g i) = pi_source_sha256 i
             /\ (pi_is_active (g i) = true -> pi_is_active i = true)) -> unique_active d' = true.
Proof.
  intros Hwf E Hg. apply unique_active_spec. rewrite E.
  intros i j (i0 & -> & Hi)%list_elem_of_fmap (j0 & -> & Hj)%list_elem_of_fmap Ai Aj Es.
  destruct (Hg i0 Hi) as (-> & Ei & Hai), (Hg j0 Hj) as (-> & Ej & Haj).
  apply (wf_active_unique d); auto. congruence.
Qed.
Lemma activate_row_runs id f d g d0 : pst_wf d0 -> pst_imports (update_import id f d) = map g (pst_imports d0) ->
  (forall i, i ∈ pst_imports d0 -> pi_id (g i) = pi_id i /\ pi_source_sha256 (g i) = pi_source_sha256 i
             /\ (pi_is_active (g i) = true -> pi_is_active i = true)) ->
  activate_row id f d = Ok (update_import id f d).
Proof. intros Hwf E Hg. unfold activate_row. by rewrite (unique_active_map d0 _ g). Qed.

(** A switch that was interrupted after its commit is undone by the recovery: rolling the switch
    back succeeds, makes exactly the rows active that were active before, puts the messages of the
    new generation in the trash and those of the old generation only back in the mailbox. *)
Lemma rollback_undoes_activation now later a b d d1 : pst_wf d -> activate_generation now a b d = Ok d1 ->
  exists d2, rollback_generation_switch later a b d1 = Ok d2
  /\ messages d2 = map (switched later b a d) (messages d) /\ pst_items d2 = pst_items d
  /\ map pi_id (pst_imports d2) = map pi_id (pst_imports d)
  /\ map pi_is_active (pst_imports d2) = map pi_is_active (pst_imports d).
Proof.
  intros Hwf (Hab & (n & o & Gn & Go & An & Rn & Ao & _) & M & I & P)%activate_generation_ok.
  pose proof (get_import_id a d n Gn) as [Hn En]. pose proof (get_import_id b d o Go) as [Ho Eo].
  assert (forall i, i ∈ pst_imports d -> pi_id i = a -> pi_is_active i = false) as Ha.
  { intros i Hi E. by rewrite (NoDup_fmap_inj_elem pi_id (pst_imports d) i n) by (congruence || apply Hwf). }
  assert (forall i, i ∈ pst_imports d -> pi_id i = b -> pi_is_active i = true) as Hb.
  { intros i Hi E. by rewrite (NoDup_fmap_inj_elem pi_id (pst_imports d) i o) by (congruence || apply Hwf). }
  unfold rollback_generation_switch.
  rewrite !(get_import_switched _ a b _ _ d d1 P), Gn, Go by done. cbn [option_map].
  rewrite En, Eo, Z.eqb_refl, (proj2 (Z.eqb_neq b a)), Z.eqb_refl by congruence.
  cbn [pi_is_active pi_replaces_id with_generation negb andb]. rewrite Rn.
  rewrite (proj2 (eqb_true _ _)) by done. cbn [check rbind].
  set (f1 := with_generation false (Some "completed"%string) None).
  set (f2 := with_generation true (Some "completed"%string) (Some None)).
  set (ds := set_generation_state a Trashed (Some later) (set_generation_state b Active None d1)).
  set (g1 := fun i => if (pi_id i =? a)%Z then f1 (with_generation true None None i)
                      else if (pi_id i =? b)%Z
                      then with_generation false (Some "superseded"%string) (Some (Some now)) i else i).
  set (g2 := fun i => if (pi_id i =? b)%Z then f2 (g1 i) else g1 i).
  assert (pst_imports (update_import a f1 ds) = map g1 (pst_imports d)) as P1.
  { unfold update_import, update_where. cbn [pst_imports set_imports]. subst ds. cbn [pst_imports set_messages set_generation_state].
    rewrite P, map_map. apply map_ext. intros i. unfold g1. destruct (Z.eqb_spec (pi_id i) a) as [E|E].
    - cbn [pi_id with_generation]. by rewrite (proj2 (Z.eqb_eq _ _) E).
    - destruct (pi_id i =? b)%Z; cbn [pi_id with_generation]; by rewrite (proj2 (Z.eqb_neq _ _) E). }
  assert (pst_imports (update_import b f2 (update_import a f1 ds)) = map g2 (pst_imports d)) as P2.
  { unfold update_import at 1, update_where. cbn [pst_imports set_imports]. rewrite P1, map_map. apply map_ext.
    intros i. unfold g2. by replace (pi_id (g1 i)) with (pi_id i) by (unfold g1; by repeat case_match). }
  rewrite (activate_row_runs a f1 ds g1 d Hwf P1).
  2:{ intros i Hi. unfold g1. destruct (pi_id i =? a)%Z; [done|]. by destruct (pi_id i =? b)%Z. }
  cbn [rbind]. rewrite (activate_row_runs b f2 _ g2 d Hwf P2).
  2:{ intros i Hi. unfold g2, g1. destruct (Z.eqb_spec (pi_id i) b) as [E|E]; [|by destruct (pi_id i =? a)%Z].
      specialize (Hb i Hi E). by case_match. }
  cbn [generation_change]. eexists. split; [reflexivity|]. split_and!.
  - change (messages (update_import b f2 (update_import a f1 ds))) with (messages ds). subst ds.
    rewrite set_states_messages, M, map_map. apply map_ext. intros m. by apply switched_twice.
  - exact I.
  - rewrite P2, map_map. apply map_ext. intros i. unfold g2, g1. by repeat case_match.
  - rewrite P2, map_map. apply map_ext_in. intros i Hi%list_elem_of_In. unfold g2, g1.
    destruct (Z.eqb_spec (pi_id i) b) as [E|E]; [by rewrite (Hb i Hi E)|].
    destruct (Z.eqb_spec (pi_id i) a) as [E'|E']; [by rewrite (Ha i Hi E')|done].
Qed.

(** The same exchange and its rollback revive what was purged: a purged message of the replaced
    generation is active afterwards, without a file. *)
Lemma rollback_revives_purged now later a b d d1 d2 m : pst_wf d ->
  activate_generation now a b d = Ok d1 -> rollback_generation_switch later a b d1 = Ok d2 ->
  m ∈ messages d -> in_generation b d m = true -> in_generation a d m = false ->
  m_local_state m = Purged -> relative_path m = None ->
  exists m', m' ∈ messages d2 /\ m_id m' = m_id m /\ m_local_state m' = Active /\ relative_path m' = None.
Proof.
  intros Hwf H1 H2 Hm Hb Ha _ Hp. destruct (rollback_undoes_activation now later a b d d1 Hwf H1) as (d2' & H2' & M & _).
  rewrite H2 in H2'. injection H2' as <-. exists (switched later b a d m). rewrite M. split; [by apply list_elem_of_fmap_2|].
  unfold switched. by rewrite Ha, Hb.
Qed.

(** A superseded generation cannot be restored while the newest active import is one of another
    PST: [restore_generation] looks for the generation to replace among the imports of all files. *)
Lemma restore_blocked now a d other : newest_active_but a d = Some other -> pi_replaces_id other <> Some a ->
  exists x, restore_generation now a d = Err x.
Proof.
  intros Hn Hr. unfold restore_generation. rewrite Hn. destruct (get_import a d) as [t|]; [|by eexists].
  destruct (_ && _); cbn [check rbind]; [|by eexists]. rewrite (proj2 (eqb_false _ _) Hr). by eexists.
Qed.
(** An import that was abandoned or discarded stays active, and blocks every later import of its file. *)
Lemma create_import_blocked r d i : i ∈ pst_imports d -> pi_source_sha256 i = ii_source_sha256 r ->
  pi_is_active i = true -> ii_is_active r = true -> exists x, create_import r d = Err x.
Proof.
  intros Hi Es Ai Ar. unfold create_import. rewrite Ar.
  assert (existsb (fun i => (pi_source_sha256 i == ii_source_sha256 r) && pi_is_active i) (pst_imports d) = true) as ->.
  { apply existsb_exists. exists i. by rewrite <- list_elem_of_In, Ai, (proj2 (eqb_true _ _) Es). }
  cbn [andb negb]. rewrite andb_false_r. by eexists.
Qed.

(** ** Two generations of one PST *)

Definition generation_row (id : Z) (uuid sha : string) (active : bool) (replaces : option Z) : pst_import :=
  PstImport id uuid "pst_a" "a.pst" sha (Some 10%Z) (Some 0%Z) None "completed" active replaces None (Some 1%Z) 1 0
    None None None.
Definition generation_item (id message : Z) : pst_item :=
  PstItem id "Inbox/1.eml" "Inbox/1.eml" "Inbox" (Some 10%Z) (Some "00ff"%string) (Some "eml/pst_a/2024/05/x.eml"%string)
    (Some message) "saved" None None 1.
Definition generation_message (id : Z) (key : string) : message :=
  Message id "pst_a" None key key Active None (Some "eml/pst_a/2024/05/x.eml"%string) (Some "00ff"%string) None None None
    None None None None false None None None None None None.
Definition two_generations : Db :=
  MkDb [] [] [generation_message 1 "k1"; generation_message 2 "k2"] [] [] [] [] [] [] 1 3 1 1
    [generation_row 1 "u1" "00ff" true None; generation_row 2 "u2" "00ff" false (Some 1%Z)]
    [generation_item 1 1; generation_item 2 2] 3.
Definition exchanged : Db := match activate_generation "now" 2 1 two_generations with Ok d => d | Err _ => two_generations end.
Lemma two_generations_wf : pst_wf two_generations.
Proof. split; cbn; repeat constructor; set_solver. Defined.
Lemma two_generations_exchanged : activate_generation "now" 2 1 two_generations = Ok exchanged.
Proof. reflexivity. Defined.

Lemma pst_repository_keeps_constraints_witness : pst_wf exchanged.
Proof.
  apply (pst_repository_keeps_constraints "now" (fun s => s) two_generations exchanged); [apply two_generations_wf|].
  by apply (pst_activate _ _ 2 1).
Defined.

