(* ===== verification/PstStage.v ===== *)
(** * PstStage: importing a PST

    [infrastructure/storage/pst_import_storage.py] and the two stages of [usecases/import_pst.py],
    over [World]: stage A converts the PST into a staging directory and records what it holds, stage
    B stores the messages in batches and can be resumed. A staged file is a file of [World] below
    [tmp/pstimp]; there are no links, devices or files that change while they are read. The converter
    ([readpst]) is the list of files it writes, the parser and the source file are answers of the
    environment. *)

From S2P Require Import Prelude Errors PyText PyTime Retry Json Manifest Sha256 PstManifest Database DatabaseWf World EmlStorage DeleteRemote Sync PstTables.

Open Scope string_scope.

(** ** The environment *)

(** [SourceFileSnapshot] *)
Record source_snapshot := SourceSnapshot {
  sn_sha256 : string; sn_size : Z; sn_mtime : Z; sn_identity : option (Z * Z) }.
#[export] Instance source_snapshot_eq_dec : EqDecision source_snapshot.
Proof. solve_decision. Defined.
(** [ImportOptions] *)
Record import_options := ImportOptions { io_display_name : string; io_charset : string; io_include_deleted : bool }.

Record pst_env := PstEnv {
  pe_root : list string;                      (* the storage root *)
  pe_clock : nat -> datetime;
  pe_cancelled : nat -> bool;                 (* the token, at each step *)
  pe_allowed : nat -> bool;                   (* [is_write_allowed()]; always true without a gate *)
  pe_source : nat -> result source_snapshot;  (* hashing the PST *)
  pe_extracted : list (string * bytes);       (* what the converter writes *)
  pe_parse : bytes -> result parsed;          (* [parse_eml(raw, None)] *)
  pe_header_date : bytes -> option datetime;  (* the Date header of the first bytes *)
  pe_normalize : string -> string;
  pe_fresh : nat -> string;                   (* [uuid4().hex] of temporary files *)
  pe_partial : nat -> nat;                    (* bytes on disk before a write ends *)
}.

(** ** The manifest of a generation *)

Definition log_of (uuid : string) (w : World) : pst_log :=
  get_or (PstLog [] [] None None) (dict_get uuid (pst_logs w)).
Definition set_log (uuid : string) (l : pst_log) (w : World) : World :=
  set_pst_logs (dict_set uuid l (pst_logs w)) w.
(** [PstManifestWriter.read_events] *)
Definition pst_events (uuid : string) (w : World) : list event :=
  pl_synced (log_of uuid w) ++ pl_buffered (log_of uuid w).
(** [PstManifestWriter.append]: what it appends goes to the buffered events. *)
Definition pst_append (uuid : string) (e : event) : M World unit :=
  io (fun w =>
    let l := log_of uuid w in
    match PstManifest.append e (PstManifest.Writer uuid None (pst_events uuid w)) with
    | Ok after =>
        (Ok tt, match drop (length (pst_events uuid w)) (PstManifest.w_events after) with
                | [] => w
                | new => set_log uuid (PstLog (pl_synced l) (pl_buffered l ++ new)%list (pl_import l) (pl_folders l)) w
                end)
    | Err x => (Err x, w)
    end).
Definition pst_sync (uuid : string) : M World unit :=
  io (mmodify (fun w => let l := log_of uuid w in
    set_log uuid (PstLog (pl_synced l ++ pl_buffered l)%list [] (pl_import l) (pl_folders l)) w)).
(** The two snapshot files. *)
Definition publish_import (uuid : string) (snapshot : event) : M World unit :=
  io (fun w => let l := log_of uuid w in
    match write_import_manifest snapshot (pl_import l) with
    | Ok c => (Ok tt, set_log uuid (PstLog (pl_synced l) (pl_buffered l) (Some c) (pl_folders l)) w)
    | Err x => (Err x, w)
    end).
Definition publish_folders (uuid : string) (folders : list json) : M World unit :=
  io (fun w => let l := log_of uuid w in
    match write_folders_manifest folders (pl_folders l) with
    | Ok c => (Ok tt, set_log uuid (PstLog (pl_synced l) (pl_buffered l) (pl_import l) (Some c)) w)
    | Err x => (Err x, w)
    end).

(** ** The staging directory *)

(** [import_uuid.replace('-', '')] *)
Fixpoint undashed (s : string) : string :=
  match s with
  | EmptyString => ""
  | String c s => if Ascii.eqb c (Ascii.ascii_of_nat 45) then undashed s else String c (undashed s)
  end.
(** [staging_root], below the storage root. *)
Definition stage_dir (uuid : string) : string := "tmp/pstimp/" ++ String.substring 0 8 (undashed uuid).
Definition staged (uuid rel : string) : string := stage_dir uuid ++ "/" ++ rel.
Definition STAGE_MARKER_NAME : string := "stageA_done.json".

(** What is below a directory, by its relative path. *)
Definition below (dir : string) (p : string) : option string :=
  let prefix := dir ++ "/" in
  if String.prefix prefix p
  then Some (String.substring (String.length prefix) (String.length p - String.length prefix) p) else None.
Definition files_below (dir : string) (w : World) : list (string * bytes) :=
  omap (fun pc => match below dir pc.1 with Some r => Some (r, pc.2) | None => None end) (fs w).

(** An [OSError] of the staging directory is reported as a detached storage. *)
Definition or_detached {A} (m : M World A) : M World A :=
  mtry m (fun e => if isinstance e OSError then mraise StorageDetachedError "PST staging" else mthrow e).
(** [create_staging], [remove_staging] *)
Definition create_staging (uuid : string) : M World unit :=
  or_detached (io (fun w => if bool_decide (files_below (stage_dir uuid) w = []) then (Ok tt, w)
                            else (raise OSError "File exists", w))).
Definition remove_staging (uuid : string) : M World unit :=
  let! l := io (mgets (fun w => map fst (files_below (stage_dir uuid) w))) in
  or_detached (mtry (mfor l (fun r => remove_file (staged uuid r)))
    (fun e => if isinstance e FileNotFoundError then mret tt else mthrow e)).

(** An item of the inventory. *)
Record staged_item := StagedItem { si_key : string; si_folder : string; si_size : Z; si_sha256 : string }.
(** [candidate.parent.relative_to(root).as_posix() or '.'], [raw_name.rsplit('/', 1)[-1]] *)
Definition parent_of (rel : string) : string :=
  match removelast (split_slash rel) with [] => "." | l => join l end.
Definition last_part (name : string) : string := List.last (split_slash name) "".
(** The folders above a file, up to the root. *)
Fixpoint proper_prefixes (acc l : list string) : list string :=
  match l with
  | [] | [_] => []
  | x :: l => join (acc ++ [x]) :: proper_prefixes (acc ++ [x]) l
  end%list.
Definition staged_le (a b : staged_item) : Prop := String.leb (si_key a) (si_key b) = true.
#[export] Instance staged_le_dec : RelDecision staged_le.
Proof. intros a b. unfold staged_le. apply _. Defined.
Definition name_le (a b : string) : Prop := String.leb a b = true.
#[export] Instance name_le_dec : RelDecision name_le.
Proof. intros a b. unfold name_le. apply _. Defined.
Definition scan_items (files : list (string * bytes)) : list staged_item :=
  merge_sort staged_le (map (fun rc =>
    StagedItem rc.1 (parent_of rc.1) (Z.of_nat (length rc.2)) (hexdigest rc.2))
    (List.filter (fun rc => rc.1 != STAGE_MARKER_NAME) files)).
Definition scan_folders (items : list staged_item) : list string :=
  merge_sort name_le (remove_dups (flat_map (fun i => proper_prefixes [] (split_slash (si_key i))) items)).
(** [scan_staging]: the items and the folders as JSON records. *)
Definition item_fields (i : staged_item) : event :=
  [("source_item_key", JStr (si_key i)); ("source_relative_path", JStr (si_key i));
   ("folder_relative_path", JStr (si_folder i)); ("source_size_bytes", JInt (si_size i));
   ("source_sha256", JStr (si_sha256 i))].
Definition folder_record (name : string) : json :=
  JObj [("raw_name", JStr name); ("display_name", JStr (last_part name))].
Definition scan_staging (uuid : string) : M World (list staged_item * list json) :=
  io (mgets (fun w => let items := scan_items (files_below (stage_dir uuid) w) in
                      (items, map folder_record (scan_folders items)))).

(** [resolve_staging_item]: the path of the file, which must exist. *)
Definition resolve_staging_item (env : pst_env) (uuid rel : string) : M World string :=
  let stage := (pe_root env ++ split_slash (stage_dir uuid))%list in
  io (fun w => match relative_to stage (resolve stage rel) with
               | None => (raise UnreadableArchive "PST staging item escapes its root", w)
               | Some p => let file := staged uuid (join p) in
                           if read_file file w is Some _ then (Ok file, w)
                           else (raise UnreadableArchive "PST staging item is missing", w)
               end).

(** [b'\n\n' in prefix or b'\r\n\r\n' in prefix] *)
Definition has_blank_line (l : bytes) : bool := Manifest.contains [10; 10]%Z l || Manifest.contains [13; 10; 13; 10]%Z l.
Definition DATE_HEADER_LIMIT : Z := 65536.
Definition with_date (d : option datetime) (p : parsed) : parsed :=
  Parsed (p_subject p) (p_sender p) (p_recipient p) (p_cc p) d (p_message_id p) (p_in_reply_to p)
    (p_references_ids p) (p_thread_key p) (p_content_key p) (p_body_text p) (p_attachments p)
    (p_has_attachment p) (p_parse_error p).
(** [ParsedMessage()] *)
Definition no_message : parsed := Parsed "" "" "" "" None None None None None None "" [] false None.
(** [read_staged_message]: the parsed message; its date in ISO 8601 is that of the result. *)
Definition read_staged_message (env : pst_env) (file : string) (full : bool) : M World parsed :=
  if negb full then mret no_message else
  let! raw := mtry (read_bytes file) (fun e =>
    if isinstance e OSError then mraise UnreadableArchive "Could not read PST staging item" else mthrow e) in
  let! p := mlift (pe_parse env raw) in
  let prefix := take (Z.to_nat DATE_HEADER_LIMIT) raw in
  mret (if has_blank_line prefix then with_date (pe_header_date env prefix) p else p).

(** ** The marker of stage A *)

(** [_canonical_json] of any value. *)
Definition canonical_bytes (j : json) : result bytes :=
  check (finite j) ValueError "Out of range float values are not JSON compliant" ;?
  check (utf8_valid false (dumps j)) ValueError "surrogates not allowed" ;?
  Ok (dumps j).
Definition unreadable {A} (msg : string) : result A := raise UnreadableArchive msg.
(** A digest as [read_stage_a_marker] checks it: its length, then its characters. *)
Definition is_digest (v : option json) : bool := is_sha256 v.
(** A path that could leave the storage root. *)
Definition backslash : Z := 92.
Definition unslash (s : pystr) : pystr := map (fun c => if (c =? backslash)%Z then 47%Z else c) s.
Fixpoint split_on (sep : Z) (acc : pystr) (s : pystr) : list pystr :=
  match s with
  | [] => [acc]
  | c :: s => if (c =? sep)%Z then acc :: split_on sep [] s else split_on sep (acc ++ [c])%list s
  end.
Definition leaves_root (path : string) : bool :=
  let p := unslash (code_points path) in
  match p with
  | c :: r => (c =? 47)%Z || match r with d :: _ => (d =? 58)%Z | [] => false end
  | [] => false
  end || mem (lit "..") (split_on 47 [] p).
Definition MARKER_REQUIRED : list string :=
  ["schema_version"; "import_uuid"; "staging_relative_path"; "total_files"; "inventory_sha256";
   "static_manifest_sha256"; "created_at"].
Definition validate_marker (e : event) : result event :=
  check (forallb (fun f => present (get f e)) MARKER_REQUIRED) UnreadableArchive
    "Stage A marker is missing fields" ;?
  check (py_eq (attr "schema_version" e) (JInt 1)) UnreadableArchive
    "Unsupported Stage A marker schema version" ;?
  match get "import_uuid" e with
  | Some (JStr u) =>
      match parse_uuid u with
      | None => unreadable "Stage A marker import_uuid is invalid"
      | Some n => check (uuid_version n == Some 4%Z) UnreadableArchive
                    "Stage A marker import_uuid is not a version 4 UUID"
      end
  | _ => unreadable "Stage A marker import_uuid is invalid"
  end ;?
  match get "staging_relative_path" e with
  | Some (JStr p) => check (negb (leaves_root p)) UnreadableArchive
                       "Stage A marker staging path must stay below storage root"
  | _ => unreadable "Stage A marker staging path is invalid"
  end ;?
  check (is_count (get "total_files" e)) UnreadableArchive "Stage A marker total_files is invalid" ;?
  check (is_digest (get "inventory_sha256" e)) UnreadableArchive "Stage A marker inventory_sha256 is invalid" ;?
  check (is_digest (get "static_manifest_sha256" e)) UnreadableArchive
    "Stage A marker static_manifest_sha256 is invalid" ;?
  check (is_str (get "created_at" e)) UnreadableArchive "Stage A marker created_at is invalid" ;?
  Ok e.
(** [read_marker] on the content of the file. *)
Definition decode_marker (content : option bytes) : result event :=
  match content ≫= loads with
  | None => unreadable "Stage A marker cannot be read"
  | Some (JObj e) => Ok e
  | Some _ => unreadable "Stage A marker must contain a JSON object"
  end.
Definition marker_file (uuid : string) : string := staged uuid STAGE_MARKER_NAME.
Definition read_marker (uuid : string) : M World event :=
  mtry (let! content := io (mgets (read_file (marker_file uuid))) in mlift (decode_marker content))
    (fun e => if isinstance e OSError then mlift (unreadable "Stage A marker cannot be read") else mthrow e).
(** [read_stage_a_marker] *)
Definition read_stage_a_marker (uuid : string) : M World event :=
  let! e := read_marker uuid in mlift (validate_marker e).
(** [write_marker]: through a temporary file next to it and a rename. *)
Definition write_marker (env : pst_env) (uuid : string) (payload : event) : M World unit :=
  let! encoded := mlift (canonical_bytes (JObj payload)) in
  let! name := mgets (fun w => staged uuid ("." ++ STAGE_MARKER_NAME ++ "." ++ pe_fresh env (ticks w) ++ ".tmp")) in
  let! part := mgets (fun w => pe_partial env (ticks w)) in
  or_detached (with_temporary name
    (write_file name (encoded ++ [newline])%list part ;!
     rename_file name (marker_file uuid) ;! sync_directory)).

(** [_inventory_hash], [_content_hashed_snapshot], [_static_manifest_hash] *)
Definition inventory_hash (items : list staged_item) : result string :=
  let? l := canonical_bytes (JList (map (fun i => JObj (item_fields i)) items)) in Ok (hexdigest l).
Definition content_hashed_snapshot (payload : event) : result event :=
  let snapshot := match get "schema_version" payload with
                  | Some _ => payload
                  | None => dict_set "schema_version" (JInt 1) payload
                  end in
  let snapshot := dict_pop CONTENT_HASH_FIELD snapshot in
  let? encoded := canonical_bytes (JObj snapshot) in
  Ok (dict_set CONTENT_HASH_FIELD (JStr (hexdigest encoded)) snapshot).
Definition static_manifest_hash (import_snapshot : event) (folders : list json) : result string :=
  let? i := content_hashed_snapshot import_snapshot in
  let? f := content_hashed_snapshot [("schema_version", JInt 1); ("folders", JList folders)] in
  let? a := canonical_bytes (JObj i) in
  let? b := canonical_bytes (JObj f) in
  Ok (hexdigest (a ++ [newline] ++ b ++ [newline])%list).

(** ** The steps both stages use *)

Section Stages.
Context (env : pst_env) (import_id : Z) (uuid account : string).

Definition timestamp : M World string := mgets (fun w => isoformat (pe_clock env (ticks w))).
(** [_ensure_write_allowed] *)
Definition ensure_write_allowed : M World unit :=
  fun w => if pe_allowed env (ticks w) then (Ok tt, w)
           else (raise StorageDetachedError "PST import requires attached storage", w).
Definition check_token : M World unit := Retry.raise_if_cancelled (fun w => pe_cancelled env (ticks w)).
Definition discard_staging : M World unit := ensure_write_allowed ;! remove_staging uuid.
Definition stage_path : string := String slash (join (pe_root env)) ++ String slash (stage_dir uuid).
(** [_record_pst_audit] *)
Definition record_pst_audit (operation account detail : string) : M World unit :=
  let! ts := timestamp in
  db_update' (record_audit (AuditIn (Some ts) (Some operation) (Some account) None None None (Some detail))).
Definition set_import_status (status : string) (s : status_in) : M World unit :=
  db_update' (update_import_status import_id status s).
Definition staging_only (path : option string) : status_in := StatusIn None None None (Some path) None None.
Definition item_event (name : string) (ts : string) (fields : event) : event :=
  [("event", JStr name); ("import_uuid", JStr uuid); ("timestamp", JStr ts)] ++ fields.
Definition append_event (name : string) (fields : event) : M World unit :=
  let! ts := timestamp in pst_append uuid (item_event name ts fields).

(** A batch: [rollback_batch] when the body raises. *)
Definition rollback_batch : M World unit := io (mmodify (set_working None)).
Definition in_transaction {A} (m : M World A) : M World A :=
  begin_batch ;! mtry m (fun e => rollback_batch ;! mthrow e).

(** ** Stage A *)

(** [_abandon_stage_a] *)
Definition abandon_stage_a (error : exn) : M World unit :=
  ensure_write_allowed ;!
  let reason := if isinstance error OperationCancelledError then "cancelled" else "failed" in
  append_event "import_abandoned" [("reason", JStr reason)] ;!
  pst_sync uuid ;!
  let! ts := timestamp in
  set_import_status "abandoned"
    (StatusIn None None None (Some None) (Some (Some ts)) (Some (Some (exn_msg error)))) ;!
  ensure_write_allowed ;!
  let! record := db_read (get_import import_id) in
  match record with
  | None => mraise UnreadableArchive "Abandoned PST import does not exist"
  | Some r => record_pst_audit "pst_import_abandon" (pi_account_id r)
                ("import_uuid=" ++ uuid ++ "; reason=" ++ reason)
  end ;!
  discard_staging.

(** [extractor.extract] *)
Fixpoint extract (l : list (string * bytes)) : M World unit :=
  match l with
  | [] => mret tt
  | (rel, c) :: l => put_file (staged uuid rel) c ;! ensure_write_allowed ;! extract l
  end.
(** [validate_source_snapshot] *)
Definition validate_source_snapshot (expected : source_snapshot) : M World unit :=
  let! actual := io (fun w => (pe_source env (ticks w), w)) in
  mlift (check (actual == expected) SourceChangedError "PST source changed since it was inspected").

(** The snapshot [run_stage_a] records. *)
Definition import_snapshot (ts filename version : string) (s : source_snapshot) (o : import_options) : event :=
  [("account_id", JStr account); ("display_name", JStr (io_display_name o)); ("import_uuid", JStr uuid);
   ("created_at", JStr ts); ("source_filename", JStr filename); ("source_sha256", JStr (sn_sha256 s));
   ("source_size_bytes", JInt (sn_size s)); ("source_mtime", JInt (sn_mtime s));
   ("source_file_identity", JObj match sn_identity s with
                                 | None => []
                                 | Some (dev, ino) => [("st_dev", JInt dev); ("st_ino", JInt ino)]
                                 end);
   ("readpst_version", JStr version);
   ("options", JObj [("charset", JStr (io_charset o)); ("include_deleted", JBool (io_include_deleted o))])].

Fixpoint append_discovered (ts : string) (items : list staged_item) : M World unit :=
  match items with
  | [] => mret tt
  | i :: items => pst_append uuid (item_event "item_discovered" ts (item_fields i)) ;! append_discovered ts items
  end.
Definition discovered_row (i : staged_item) : pst_item :=
  PstItem import_id (si_key i) (si_key i) (si_folder i) (Some (si_size i)) (Some (si_sha256 i)) None None
    "discovered" None None 0.
Definition stage_a_result := (Z * string * string)%type.
(** The [try] block of [run_stage_a]. *)
Definition stage_a_body (filename version : string) (source : source_snapshot) (o : import_options)
    (created : string) : M World stage_a_result :=
  let snapshot := import_snapshot created filename version source o in
  ensure_write_allowed ;!
  set_import_status "extracting" (StatusIn None None None (Some (Some stage_path)) None (Some None)) ;!
  publish_import uuid snapshot ;!
  pst_sync uuid ;!
  ensure_write_allowed ;!
  let! record := db_read (get_import import_id) in
  let replaces := match record with Some r => pi_replaces_id r | None => None end in
  let operation := match replaces with Some n => if (n =? 0)%Z then "pst_import" else "pst_reimport"
                   | None => "pst_import" end in
  record_pst_audit operation account ("import_uuid=" ++ uuid ++ "; source=" ++ filename) ;!
  check_token ;!
  extract (pe_extracted env) ;!
  validate_source_snapshot source ;!
  let! found := scan_staging uuid in
  let (items, folders) := found : list staged_item * list json in
  let! inventory := mlift (inventory_hash items) in
  let! static := mlift (static_manifest_hash snapshot folders) in
  ensure_write_allowed ;!
  publish_folders uuid folders ;!
  let! ts := timestamp in
  append_discovered ts items ;!
  pst_sync uuid ;!
  ensure_write_allowed ;!
  in_transaction
    (mfor items (fun i => ensure_write_allowed ;! db_update' (upsert_import_item (discovered_row i))) ;!
     ensure_write_allowed ;! commit_batch) ;!
  ensure_write_allowed ;!
  let total := Z.of_nat (length items) in
  append_event "import_ready" [("total_files", JInt total); ("inventory_sha256", JStr inventory);
                               ("static_manifest_sha256", JStr static)] ;!
  pst_sync uuid ;!
  ensure_write_allowed ;!
  let! now := timestamp in
  write_marker env uuid
    [("schema_version", JInt 1); ("import_uuid", JStr uuid); ("staging_relative_path", JStr (stage_dir uuid));
     ("total_files", JInt total); ("inventory_sha256", JStr inventory);
     ("static_manifest_sha256", JStr static); ("created_at", JStr now)] ;!
  read_stage_a_marker uuid ;!
  set_import_status "ready_to_ingest"
    (StatusIn (Some (Some total)) None None (Some (Some stage_path)) None (Some None)) ;!
  mret (total, inventory, static).
(** [run_stage_a] *)
Definition run_stage_a (filename version : string) (source : source_snapshot) (o : import_options)
    : M World stage_a_result :=
  mlift (validate_import_uuid uuid) ;!
  let! created := timestamp in
  ensure_write_allowed ;!
  discard_staging ;!
  create_staging uuid ;!
  mtry (stage_a_body filename version source o created) (fun e =>
    if isinstance e StorageDetachedError then mthrow e else abandon_stage_a e ;! mthrow e).

(** ** Stage B *)

Definition MAX_PARSE_SIZE : Z := 104857600.
(** [_event_by_item]: the last event of each item. *)
Definition event_by_item (name : string) (es : list event) : list (string * event) :=
  fold_left (fun d e => match event_name e == Some name, text_of "source_item_key" e with
                        | true, Some k => dict_set k e d
                        | _, _ => d
                        end) es [].
(** The three dictionaries the loop keeps. *)
Record known := Known {
  k_saved : list (string * event);
  k_parse_failed : list (string * event);
  k_oversize : list (string * event);
}.

Definition PST_COLUMNS : list string :=
  ["message_id"; "content_key"; "source_item_key"; "local_state"; "relative_path"; "file_hash"; "subject";
   "sender"; "recipient"; "cc"; "date_sent"; "size_bytes"; "has_attachment"; "in_reply_to"; "references_ids";
   "thread_key"].
(** [_message_contents], [_stage_b_message] *)
Definition pst_contents (p : parsed) : contents_in := message_contents_of p false.
Definition stage_b_message (key path hash : string) (size : Z) (p : parsed) : message_in * option contents_in :=
  (MessageIn PST_COLUMNS
     (Message 0 account (p_message_id p)
        (get_or ("sha256:" ++ String.substring 0 32 hash) (nonempty (p_content_key p))) key Active None
        (Some path) (Some hash) (Some (p_subject p)) (Some (p_sender p)) (Some (p_recipient p)) (Some (p_cc p))
        (option_map to_utc_iso8601 (p_date_sent p)) None (Some size) (p_has_attachment p) (p_in_reply_to p)
        (p_references_ids p) (p_thread_key p) None None None)
     (Membership 0 0 None None "no_remote" None None None None),
   if p_parse_error p is Some _ then None else Some (pst_contents p)).

(** What the first loop prepares for the database: the item's row, its message, contents, folder. *)
Record prepared := Prepared {
  pr_item : pst_item; pr_message : message_in; pr_contents : option contents_in; pr_folder : string }.
Definition saved_item (i : pst_item) (path : string) (cls msg : option string) : pst_item :=
  PstItem (it_import_id i) (it_source_item_key i) (it_source_relative_path i) (it_folder_relative_path i)
    (it_source_size_bytes i) (it_source_sha256 i) (Some path) None "saved" cls msg (it_attempt_count i + 1).

(** The EML of an item: stored now, or by an earlier run. *)
Definition store_item (k : known) (i : pst_item) (file : string) (date : option datetime)
    : M World (known * (string * string * Z)) :=
  let key := it_source_item_key i in
  match dict_get key (k_saved k) with
  | None =>
      ensure_write_allowed ;!
      let! source := mgets (read_file file) in
      let! fresh := mgets (fun w => pe_fresh env (ticks w)) in
      let! part := mgets (fun w => pe_partial env (ticks w)) in
      let! st := save_eml_from_file account date source fresh part in
      mlift (check (eml_file_hash st == get_or "None" (it_source_sha256 i)) UnreadableArchive
               "PST staging hash changed") ;!
      let! ts := timestamp in
      let e := item_event "item_saved" ts
                 [("source_item_key", JStr key); ("final_relative_path", JStr (eml_relative_path st));
                  ("file_hash", JStr (eml_file_hash st)); ("size_bytes", JInt (eml_size_bytes st))] in
      ensure_write_allowed ;!
      pst_append uuid e ;!
      mret (Known (dict_set key e (k_saved k)) (k_parse_failed k) (k_oversize k),
            (eml_relative_path st, eml_file_hash st, eml_size_bytes st))
  | Some e =>
      match get "size_bytes" e with
      | Some (JInt n) => mret (k, (get_or "" (text_of "final_relative_path" e),
                                   get_or "" (text_of "file_hash" e), n))
      | _ => mraise UnreadableArchive "PST saved event size is invalid"
      end
  end.
Definition OVERSIZE_MESSAGE : string := "EML exceeds the 100 MiB parse limit".
(** [item_parse_failed] and [item_oversize], once per item. *)
Definition record_parse_failure (k : known) (key : string) (error : option string) : M World known :=
  match dict_get key (k_parse_failed k) with
  | Some _ => mret k
  | None =>
      let! ts := timestamp in
      let e := item_event "item_parse_failed" ts
                 [("source_item_key", JStr key); ("error_class", JStr "parse");
                  ("error_message", JStr (get_or "message parsing failed" (nonempty error)))] in
      ensure_write_allowed ;!
      pst_append uuid e ;!
      mret (Known (k_saved k) (dict_set key e (k_parse_failed k)) (k_oversize k))
  end.
Definition record_oversize (k : known) (key : string) (size : Z) : M World known :=
  match dict_get key (k_oversize k) with
  | Some _ => mret k
  | None =>
      let! ts := timestamp in
      let e := item_event "item_oversize" ts
                 [("source_item_key", JStr key); ("error_class", JStr "oversize");
                  ("error_message", JStr OVERSIZE_MESSAGE); ("source_size_bytes", JInt size)] in
      ensure_write_allowed ;!
      pst_append uuid e ;!
      mret (Known (k_saved k) (k_parse_failed k) (dict_set key e (k_oversize k)))
  end.

(** One item of the first loop. *)
Definition prepare_item (k : known) (i : pst_item) : M World (known * prepared) :=
  check_token ;!
  let key := it_source_item_key i in
  let! file := resolve_staging_item env uuid (it_source_relative_path i) in
  let! size := mlift (match it_source_size_bytes i with
                      | Some n => Ok n
                      | None => raise TypeError "int() argument must be a string or a number"
                      end) in
  let oversize := (MAX_PARSE_SIZE <? size)%Z in
  let! p := read_staged_message env file (negb oversize) in
  let! stored := store_item k i file (p_date_sent p) in
  let '(k, (path, hash, bytes)) := stored : known * (string * string * Z) in
  let parse_failed := negb oversize && (if p_parse_error p is Some _ then true else false) in
  let! k := if parse_failed then record_parse_failure k key (p_parse_error p) else mret k in
  let! k := if oversize then record_oversize k key size else mret k in
  let (message, contents) := stage_b_message key path hash bytes p in
  mret (k, Prepared
    (saved_item i path
       (if oversize then Some "oversize" else if parse_failed then Some "parse" else None)
       (if oversize then Some OVERSIZE_MESSAGE else if parse_failed then p_parse_error p else None))
    message contents (get_or "." (nonempty (Some (it_folder_relative_path i))))).
Fixpoint prepare_items (k : known) (l : list pst_item) : M World (known * list prepared) :=
  match l with
  | [] => mret (k, [])
  | i :: l =>
      let! one := prepare_item k i in
      let! rest := prepare_items one.1 l in
      mret (rest.1, one.2 :: rest.2)
  end.

Definition with_folder (fid : Z) (r : message_in) : message_in :=
  let mf := mr_membership r in
  MessageIn (mr_columns r) (mr_row r)
    (Membership (mf_message_id mf) fid (uid mf) (uidvalidity mf) (remote_state mf) (moved_to_folder_id mf)
       (imap_flags mf) (flags_seen_at mf) (last_seen_at mf)).
(** One item of the second loop. *)
Definition ingest_item (p : prepared) : M World unit :=
  let name := pr_folder p in
  let! fid := db_write (upsert_pst_folder account name (if name == "." then "." else last_part name)) in
  let! mid := db_write (add_pst_message (pe_normalize env) (with_folder fid (pr_message p)) (pr_contents p)) in
  db_update' (upsert_import_item (with_message_row (Some mid) (pr_item p))).
Definition ingested (l : list pst_item) : Z := Z.of_nat (length (List.filter is_saved l)).
Definition failing (i : pst_item) : bool := mem (it_error_class i) [Some "parse"; Some "oversize"].
Definition failed (l : list pst_item) : Z := Z.of_nat (length (List.filter failing l)).
(** The transaction of a batch. *)
Definition ingest_batch (batch : list prepared) : M World unit :=
  in_transaction
    (mfor batch ingest_item ;!
     let! l := db_read (list_items import_id) in
     set_import_status "ingesting"
       (StatusIn (Some (Some (Z.of_nat (length l)))) (Some (ingested l)) (Some (failed l))
          (Some (Some stage_path)) (Some None) None) ;!
     commit_batch).
Definition run_batch (k : known) (batch : list pst_item) : M World known :=
  check_token ;!
  let! done := prepare_items k batch in
  ensure_write_allowed ;!
  pst_sync uuid ;!
  ingest_batch done.2 ;!
  mret done.1.

(** [items[offset : offset + batch_size] for offset in range(0, len(items), batch_size)] *)
Fixpoint batches (fuel size : nat) (l : list pst_item) : list (list pst_item) :=
  match fuel, l with
  | S fuel, _ :: _ => take size l :: batches fuel size (drop size l)
  | _, _ => []
  end.
Fixpoint run_batches (k : known) (l : list (list pst_item)) : M World unit :=
  match l with [] => mret tt | b :: l => let! k := run_batch k b in run_batches k l end.

(** [StageBResult] *)
Record stage_b_result := StageB {
  sb_status : string; sb_processed : Z; sb_ingested : Z; sb_failed : Z; sb_remaining : Z }.
(** The end of a run: the status, and the staging directory when nothing remains. *)
Definition finish_stage_b (processed : Z) : M World stage_b_result :=
  let! l := db_read (list_items import_id) in
  let remaining := (Z.of_nat (length l) - ingested l)%Z in
  let complete := (remaining =? 0)%Z in
  let status := if negb complete then "failed_resumable"
                else if (failed l =? 0)%Z then "completed" else "completed_with_errors" in
  ensure_write_allowed ;!
  let! ts := timestamp in
  set_import_status status
    (StatusIn (Some (Some (Z.of_nat (length l)))) (Some (ingested l)) (Some (failed l))
       (Some (if complete then None else Some stage_path)) (Some (if complete then Some ts else None)) None) ;!
  mwhen complete discard_staging ;!
  mret (StageB status processed (ingested l) (failed l) remaining).
(** The [except] clauses of [run_stage_b]. *)
Definition stage_b_failure {A} (e : exn) : M World A :=
  (if isinstance e OperationCancelledError then
     ensure_write_allowed ;!
     set_import_status "cancelled_resumable" (StatusIn None None None (Some (Some stage_path)) (Some None) None)
   else if isinstance e StorageDetachedError then mret tt
   else
     ensure_write_allowed ;!
     set_import_status "failed_resumable"
       (StatusIn None None None (Some (Some stage_path)) None (Some (Some (exn_msg e))))) ;!
  mthrow e.
(** [run_stage_b] *)
Definition run_stage_b (batch_size : Z) : M World stage_b_result :=
  mlift (check (0 <? batch_size)%Z ValueError "batch_size must be positive") ;!
  let! marker := read_stage_a_marker uuid in
  mlift (check (py_eq (attr "import_uuid" marker) (JStr uuid)) UnreadableArchive
           "Stage A marker import_uuid does not match the import") ;!
  let! items := db_read (list_incomplete_items import_id) in
  let! es := mgets (pst_events uuid) in
  let k := Known (event_by_item "item_saved" es) (event_by_item "item_parse_failed" es)
             (event_by_item "item_oversize" es) in
  ensure_write_allowed ;!
  set_import_status "ingesting" (staging_only (Some stage_path)) ;!
  mtry (run_batches k (batches (length items) (Z.to_nat batch_size) items) ;!
        finish_stage_b (Z.of_nat (length items)))
    stage_b_failure.
End Stages.
Close Scope string_scope.
