(* ===== verification/PstGenerations.v ===== *)
(** * PstGenerations: verifying, switching and starting PST imports

    The rest of [usecases/import_pst.py]: the verification of a generation, its switch, its
    restoration, the recovery of an interrupted switch and of a detached import, the choice between a
    new import and an existing one, the space it needs; and [import_pst] of
    [presentation/threads/sync_worker.py], which runs them all. *)

From S2P Require Import Prelude Errors PyText PyTime Json Manifest Sha256 PstManifest Database DatabaseWf World EmlStorage DeleteRemote Sync PstTables PstStage.

Open Scope string_scope.

(** ** Rows as dictionaries *)

Definition jtext (o : option string) : json := match o with Some s => JStr s | None => JNull end.
Definition jnum (o : option Z) : json := match o with Some n => JInt n | None => JNull end.
Definition jstate (s : local_state) : json :=
  JStr (match s with Active => "active" | Trashed => "trashed" | Purged => "purged" end).
(** [SELECT * FROM messages]: the columns of the finalized table, without [created_at]. *)
Definition message_record (m : message) : event :=
  [("id", JInt (m_id m)); ("account_id", JStr (account_id m)); ("message_id", jtext (message_id m));
   ("content_key", JStr (content_key m)); ("source_item_key", JStr (source_item_key m));
   ("local_state", jstate (m_local_state m)); ("trashed_at", jtext (trashed_at m));
   ("relative_path", jtext (relative_path m)); ("file_hash", jtext (file_hash m)); ("subject", jtext (subject m));
   ("sender", jtext (sender m)); ("recipient", jtext (recipient m)); ("cc", jtext (cc m));
   ("date_sent", jtext (date_sent m)); ("internal_date", jtext (internal_date m)); ("size_bytes", jnum (size_bytes m));
   ("has_attachment", JInt (Z.b2z (has_attachment m))); ("in_reply_to", jtext (in_reply_to m));
   ("references_ids", jtext (references_ids m)); ("thread_key", jtext (thread_key m));
   ("gmail_msgid", jtext (gmail_msgid m)); ("gmail_thrid", jtext (gmail_thrid m)); ("gmail_labels", jtext (gmail_labels m))].
(** [get_message] *)
Definition get_message_row (id : Z) (d : Db) : option message := message_with id d.

(** ** Choosing what to do *)

(** [ImportJobDecision], [ImportJobAction], [ImportJobResolution] *)
Inductive decision := Resume | DiscardIncomplete | Cancel | Reimport.
Inductive action :=
  | ActNew | ActNeedsIncompleteDecision | ActResume | ActDiscardIncomplete | ActNeedsReimportDecision
  | ActCancel | ActReimport.
#[export] Instance decision_eq_dec : EqDecision decision.
Proof. solve_decision. Defined.
#[export] Instance action_eq_dec : EqDecision action.
Proof. solve_decision. Defined.
Record resolution := Resolution {
  re_action : action; re_import : option pst_import; re_incomplete : list pst_import; re_replaces : option Z }.
Definition requires_user_choice (r : resolution) : bool :=
  mem (re_action r) [ActNeedsIncompleteDecision; ActNeedsReimportDecision].

(** [_validate_source_sha256]; the text is ASCII, as every digest is. *)
Definition validate_source_sha256 (sha : string) : result string :=
  check (is_hash sha) ValueError "source_sha256 must be a complete SHA-256 digest" ;? Ok (fold_hash sha).
Definition import_le (a b : pst_import) : Prop := (pi_id a <= pi_id b)%Z.
#[export] Instance import_le_dec : RelDecision import_le.
Proof. intros a b. unfold import_le. apply _. Defined.
(** [resolve_import_job] *)
Definition resolve_import_job (sha : string) (d : option decision) (db : Db) : result resolution :=
  let? sha := validate_source_sha256 sha in
  let incomplete := merge_sort import_le (List.filter (fun i => mem (pi_status i) INCOMPLETE_IMPORT_STATUSES)
                                            (find_incomplete_by_source_sha256 sha db)) in
  match incomplete with
  | first :: _ =>
      match d with
      | None => Ok (Resolution ActNeedsIncompleteDecision None incomplete None)
      | Some Resume => Ok (Resolution ActResume (Some first) incomplete None)
      | Some DiscardIncomplete => Ok (Resolution ActDiscardIncomplete None incomplete None)
      | Some _ => raise ValueError "An incomplete PST import accepts resume or discard_incomplete"
      end
  | [] =>
      match find_active_by_source_sha256 sha db with
      | Some active =>
          if mem (pi_status active) COMPLETE_STATUSES then
            let r a := Ok (Resolution a (Some active) [] (Some (pi_id active))) in
            match d with
            | None => r ActNeedsReimportDecision
            | Some Cancel => r ActCancel
            | Some Reimport => r ActReimport
            | Some _ => raise ValueError "A completed PST import accepts cancel or reimport"
            end
          else check (d == None) ValueError "No existing PST import requires the selected decision" ;?
               Ok (Resolution ActNew None [] None)
      | None => check (d == None) ValueError "No existing PST import requires the selected decision" ;?
                Ok (Resolution ActNew None [] None)
      end
  end.

(** [ImportCapacity], [check_import_capacity]: the two callbacks are their answers. *)
Record import_capacity := Capacity { ca_available : Z; ca_required : Z; ca_source : Z; ca_retained : Z }.
Definition check_import_capacity (source_size retained : Z) (check_free_space : result unit) (free_space : result Z)
    : result import_capacity :=
  check (negb ((source_size <? 0) || (retained <? 0))%Z) ValueError
    "source_size_bytes and retained_bytes must be non-negative" ;?
  check_free_space ;?
  let? available := free_space in
  let required := ((source_size * 5 + 1) / 2 + retained)%Z in
  check (negb (available <? required)%Z) InsufficientSpaceError "PST import requires more free bytes" ;?
  Ok (Capacity available required source_size retained).

(** ** Generations *)

Section Generations.
Context (env : pst_env) (import_id : Z) (uuid : string).

Definition unreadable_if {A} (b : bool) (msg : string) (m : M World A) : M World A :=
  if b then mraise UnreadableArchive msg else m.
(** [manifest.read_import_manifest()], [manifest.read_folders_manifest()] *)
Definition snapshot_error {A} (e : exn) : M World A :=
  if isinstance e OSError then mraise ManifestCorruptError "PST manifest snapshot cannot be read" else mthrow e.
Definition manifest_snapshot : M World event :=
  mtry (io (fun w => (read_import_manifest (pl_import (log_of uuid w)), w))) snapshot_error.
Definition manifest_folders : M World (list json) :=
  mtry (io (fun w => (read_folders_manifest (pl_folders (log_of uuid w)), w))) snapshot_error.

(** What an item's events must say of its row. *)
Definition same_metadata (i : pst_item) (found saved : event) : bool :=
  py_eq (attr "source_relative_path" found) (JStr (it_source_relative_path i))
  && py_eq (attr "folder_relative_path" found) (JStr (it_folder_relative_path i))
  && py_eq (attr "source_size_bytes" found) (jnum (it_source_size_bytes i))
  && py_eq (attr "source_sha256" found) (jtext (it_source_sha256 i))
  && py_eq (jtext (it_final_relative_path i)) (attr "final_relative_path" saved)
  && negb (it_source_sha256 i == None) && negb (attr "file_hash" saved == JNull)
  && negb (it_final_relative_path i == None).
(** What the message's row must say; [remote_state] is asked of the [messages] row. *)
Definition registered (account : string) (saved : event) (m : message) : bool :=
  let r := message_record m in
  py_eq (attr "account_id" r) (JStr account)
  && py_eq (attr "remote_state" r) (JStr "no_remote")
  && mem (attr "local_state" r) [JStr "active"; JStr "trashed"]
  && py_eq (attr "relative_path" r) (attr "final_relative_path" saved)
  && py_eq (attr "file_hash" r) (attr "file_hash" saved).
Definition error_recorded (es : list event) (key cls : string) : bool :=
  let expected := if cls == "oversize" then "item_oversize" else "item_parse_failed" in
  existsb (fun e => (event_name e == Some expected) && py_eq (attr "source_item_key" e) (JStr key)) es.
(** One item of [verify_generation]; the answer is 1 when it is recorded as failed. *)
Definition verify_item (account : string) (folder_names : list string) (es : list event)
    (discovered saved : list (string * event)) (i : pst_item) : M World Z :=
  let key := it_source_item_key i in
  unreadable_if (negb (mem (it_folder_relative_path i) folder_names)) "PST folder is not registered" (
  unreadable_if (negb (is_saved i)) "PST item is not saved" (
  match it_message_row_id i, dict_get key saved, dict_get key discovered with
  | Some mid, Some e, Some found =>
      unreadable_if (negb (same_metadata i found e)) "PST item storage metadata differs" (
      let! m := db_read (get_message_row mid) in
      unreadable_if (match m with Some m => negb (registered account e m) | None => true end)
        "PST message registration is invalid" (
      let! stored := reuse (pe_root env) (get_or "None" (it_final_relative_path i))
                       (get_or "" (text_of "file_hash" e)) in
      unreadable_if (match stored with
                     | Some s => negb (py_eq (JInt (eml_size_bytes s)) (attr "size_bytes" e))
                     | None => true
                     end) "PST EML is missing or corrupt" (
      match it_error_class i with
      | None => mret 0%Z
      | Some cls => unreadable_if (negb (error_recorded es key cls)) "PST item error is not in the manifest" (mret 1%Z)
      end)))
  | _, _, _ => mraise UnreadableArchive "PST item has no durable message"
  end)).
Fixpoint verify_items (account : string) (folder_names : list string) (es : list event)
    (discovered saved : list (string * event)) (l : list pst_item) : M World Z :=
  match l with
  | [] => mret 0%Z
  | i :: l =>
      let! n := verify_item account folder_names es discovered saved i in
      let! rest := verify_items account folder_names es discovered saved l in
      mret (n + rest)%Z
  end.
(** [GenerationVerification]: the item count and the failed count. *)
Definition verification := (Z * Z)%type.
Definition verify_generation (allow_superseded : bool) : M World verification :=
  let! record := db_read (get_import import_id) in
  match record with
  | None => mraise UnreadableArchive "PST generation does not exist"
  | Some r =>
      unreadable_if (pi_import_uuid r != uuid) "PST generation does not exist" (
      unreadable_if (negb (mem (pi_status r) (COMPLETE_STATUSES ++ if allow_superseded then ["superseded"] else [])%list))
        "PST generation is not complete" (
      let! snapshot := manifest_snapshot in
      unreadable_if (negb (py_eq (attr "import_uuid" snapshot) (JStr uuid)))
        "PST import manifest UUID does not match the DB" (
      unreadable_if (negb (py_eq (attr "account_id" snapshot) (JStr (pi_account_id r))))
        "PST import manifest account does not match the DB" (
      manifest_folders ;!
      let! folders := db_read (list_folders (pi_account_id r)) in
      let! es := mgets (pst_events uuid) in
      let discovered := event_by_item "item_discovered" es in
      let saved := event_by_item "item_saved" es in
      let ready := List.filter (fun e => event_name e == Some "import_ready") es in
      unreadable_if (bool_decide (ready = [])) "PST generation has no import_ready event" (
      let! items := db_read (list_items import_id) in
      unreadable_if (negb ((length discovered =? length items)%nat
                           && forallb (fun i => mem (it_source_item_key i) (map fst discovered)) items
                           && forallb (fun k => mem k (map it_source_item_key items)) (map fst discovered)))
        "PST item manifest and DB inventory differ" (
      let! failed := verify_items (pi_account_id r) (map raw_name folders) es discovered saved items in
      unreadable_if (negb (py_eq (attr "total_files" (List.last ready [])) (JInt (Z.of_nat (length items)))))
        "PST import_ready count differs from the DB" (
      mret (Z.of_nat (length items), failed))))))))
  end.

(** [strftime('%Y-%m-%dT%H:%M:%SZ', 'now')] *)
Definition sql_now : M World string := mgets (fun w => to_utc_iso8601 (pe_clock env (ticks w))).

(** [recover_generation_switch] *)
Definition recover_generation_switch (replaces_id : Z) : M World unit :=
  let! es := mgets (pst_events uuid) in
  let has name := existsb (fun e => event_name e == Some name) es in
  mwhen (has "generation_switch_prepared" && negb (has "generation_switch_committed"))
    (let! now := sql_now in db_update' (rollback_generation_switch now import_id replaces_id)).

(** [switch_generation] *)
Definition replaces_event (replaces_uuid : string) : event := [("replaces_import_uuid", JStr replaces_uuid)].
Definition switch_generation (replaces_id : Z) (replaces_uuid : string) : M World verification :=
  let! new_record := db_read (get_import import_id) in
  let! old_record := db_read (get_import replaces_id) in
  match new_record, old_record with
  | Some n, Some o =>
      unreadable_if (pi_is_active n || negb (pi_is_active o) || (pi_replaces_id n != Some replaces_id)
                     || (pi_import_uuid o != replaces_uuid))
        "PST generations are not an inactive replacement pair" (
      let! verified := verify_generation false in
      ensure_write_allowed env ;!
      append_event env uuid "generation_switch_prepared" (replaces_event replaces_uuid) ;!
      pst_sync uuid ;!
      ensure_write_allowed env ;!
      in_transaction
        (ensure_write_allowed env ;!
         let! now := sql_now in
         db_update' (activate_generation now import_id replaces_id) ;!
         ensure_write_allowed env ;!
         append_event env uuid "generation_switch_committed" (replaces_event replaces_uuid) ;!
         ensure_write_allowed env ;!
         pst_sync uuid ;!
         ensure_write_allowed env ;!
         commit_batch) ;!
      ensure_write_allowed env ;!
      append_event env uuid "generation_superseded" [("superseded_import_uuid", JStr replaces_uuid)] ;!
      ensure_write_allowed env ;!
      pst_sync uuid ;!
      ensure_write_allowed env ;!
      record_pst_audit env "pst_supersede" (pi_account_id n)
        ("import_uuid=" ++ uuid ++ "; superseded_import_uuid=" ++ replaces_uuid) ;!
      mret verified)
  | _, _ => mraise UnreadableArchive "PST generations are not an inactive replacement pair"
  end.

(** [restore_generation] *)
Definition restore_generation_use (superseded_uuid : string) : M World verification :=
  let! verified := verify_generation true in
  ensure_write_allowed env ;!
  in_transaction
    (ensure_write_allowed env ;!
     let! now := sql_now in
     db_update' (restore_generation now import_id) ;!
     ensure_write_allowed env ;!
     append_event env uuid "generation_restored"
       [("restored_import_uuid", JStr uuid); ("superseded_import_uuid", JStr superseded_uuid)] ;!
     ensure_write_allowed env ;!
     pst_sync uuid ;!
     ensure_write_allowed env ;!
     commit_batch) ;!
  let! restored := db_read (get_import import_id) in
  match restored with
  | None => mraise UnreadableArchive "Restored PST generation does not exist"
  | Some r =>
      ensure_write_allowed env ;!
      record_pst_audit env "pst_restore_generation" (pi_account_id r)
        ("import_uuid=" ++ uuid ++ "; superseded_import_uuid=" ++ superseded_uuid) ;!
      mret verified
  end.

(** ** A detached import *)

(** [_reconcile_suspect_import] *)
Definition reconcile_suspect_import (account reason : string) : M World unit :=
  ensure_write_allowed env ;!
  append_event env uuid "import_abandoned" [("reason", JStr ("suspect:" ++ reason))] ;!
  pst_sync uuid ;!
  ensure_write_allowed env ;!
  let! ts := timestamp env in
  set_import_status import_id "suspect"
    (StatusIn None None None (Some None) (Some (Some ts)) (Some (Some reason))) ;!
  record_pst_audit env "pst_import_abandon" account ("import_uuid=" ++ uuid ++ "; reason=suspect:" ++ reason) ;!
  discard_staging env uuid.
(** The evidence: the marker, the staged files, the snapshots and the events agree. *)
Definition stage_a_evidence : M World (list staged_item * list event) :=
  let! marker := read_stage_a_marker uuid in
  unreadable_if (negb (py_eq (attr "import_uuid" marker) (JStr uuid)))
    "Stage A marker import_uuid does not match the import" (
  unreadable_if (negb (py_eq (attr "staging_relative_path" marker) (JStr (stage_dir uuid))))
    "Stage A marker points outside the expected staging path" (
  let! found := scan_staging uuid in
  let (items, folders) := found : list staged_item * list json in
  let! inventory := mlift (inventory_hash items) in
  let! snapshot := manifest_snapshot in
  let! recorded := manifest_folders in
  let! static := mlift (static_manifest_hash snapshot recorded) in
  unreadable_if (negb (py_eq (attr "total_files" marker) (JInt (Z.of_nat (length items)))
                       && py_eq (attr "inventory_sha256" marker) (JStr inventory)
                       && py_eq (attr "static_manifest_sha256" marker) (JStr static)
                       && py_eq (JList recorded) (JList folders)))
    "PST Stage A inventory does not match its marker" (
  let! es := mgets (pst_events uuid) in
  let discovered := map fst (event_by_item "item_discovered" es) in
  unreadable_if (negb (forallb (fun i => mem (si_key i) discovered) items
                       && forallb (fun k => mem k (map si_key items)) discovered))
    "PST Stage A item events do not match the inventory" (
  let ready := List.filter (fun e => event_name e == Some "import_ready") es in
  unreadable_if (bool_decide (ready = [])
                 || negb (py_eq (attr "total_files" (List.last ready [])) (JInt (Z.of_nat (length items)))))
    "PST Stage A has no matching import_ready event" (
  mret (items, es)))))).
(** The row of an item after the detachment; whether its saved state is kept. *)
Definition restored_item (d : Db) (saved : list (string * event)) (current : option pst_item) (i : staged_item)
    : pst_item * bool :=
  let mid := current ≫= it_message_row_id in
  let event := dict_get (si_key i) saved in
  let keep := match event, mid with
              | Some _, Some m => if get_message_row m d is Some _ then true else false
              | _, _ => false
              end in
  (PstItem import_id (si_key i) (si_key i) (si_folder i) (Some (si_size i)) (Some (si_sha256 i))
     (if keep then event ≫= text_of "final_relative_path" else None) (if keep then mid else None)
     (if keep then "saved" else "discovered") (if keep then current ≫= it_error_class else None)
     (if keep then current ≫= it_error_message else None)
     (match current with Some c => it_attempt_count c | None => 0%Z end), keep).
Fixpoint restore_items (existing : list pst_item) (saved : list (string * event)) (l : list staged_item) (n : Z)
    : M World Z :=
  match l with
  | [] => mret n
  | i :: l =>
      let current := find_last (fun c => it_source_item_key c == si_key i) existing in
      let! row := db_read (fun d => restored_item d saved current i) in
      ensure_write_allowed env ;!
      db_update' (upsert_import_item row.1) ;!
      restore_items existing saved l (if row.2 : bool then n + 1 else n)%Z
  end.
(** [reconcile_detached_import] *)
Definition reconcile_detached_import : M World bool :=
  ensure_write_allowed env ;!
  let! record := db_read (get_import import_id) in
  match record with
  | None => mraise UnreadableArchive "PST import does not exist"
  | Some r =>
      unreadable_if (pi_import_uuid r != uuid) "PST import does not exist" (
      let! evidence := mtry (let! x := stage_a_evidence in mret (Some x)) (fun e =>
        if isinstance e OSError || isinstance e TypeError || isinstance e ValueError || isinstance e UnreadableArchive
        then reconcile_suspect_import (pi_account_id r) (exn_msg e) ;! mret None else mthrow e) in
      match evidence with
      | None => mret false
      | Some (items, es) =>
          let! existing := db_read (list_items import_id) in
          ensure_write_allowed env ;!
          in_transaction
            (let! n := restore_items existing (event_by_item "item_saved" es) items 0 in
             ensure_write_allowed env ;!
             set_import_status import_id "cancelled_resumable"
               (StatusIn (Some (Some (Z.of_nat (length items)))) (Some n)
                  (Some (Z.of_nat (length (List.filter (fun c => if nonempty (it_error_class c) is Some _ then true else false)
                                             existing))))
                  (Some (Some (stage_path env uuid))) (Some None) (Some None)) ;!
             ensure_write_allowed env ;!
             commit_batch) ;!
          mret true
      end)
  end.
End Generations.

(** ** The whole import *)

(** [PstImportDecisionRequest], [PstImportResult] *)
Record import_result := ImportResult {
  ir_status : string; ir_import_id : Z; ir_imported : Z; ir_failed : Z; ir_skipped : Z; ir_reimported : bool }.
Inductive import_outcome :=
  | DecisionRequest (source_sha256 : string) (has_incomplete has_completed : bool)
  | Imported (r : import_result).

Section Job.
Context (env : pst_env) (new_uuid : string) (filename version : string) (options : import_options).

(** The use cases get no gate from the worker: [storage_state] is [None]. *)
Definition ungated : pst_env :=
  PstEnv (pe_root env) (pe_clock env) (pe_cancelled env) (fun _ => true) (pe_source env) (pe_extracted env)
    (pe_parse env) (pe_header_date env) (pe_normalize env) (pe_fresh env) (pe_partial env).
(** [try: ... finally: _close_manifest(manifest)] *)
Definition closing {A} (uuid : string) (m : M World A) : M World A :=
  let! a := mtry m (fun e => pst_sync uuid ;! mthrow e) in pst_sync uuid ;! mret a.
(** One import given up by the user. *)
Definition discard_incomplete (i : pst_import) : M World unit :=
  closing (pi_import_uuid i)
    (append_event ungated (pi_import_uuid i) "import_abandoned"
       [("reason", JStr "user_discarded_incomplete_import")] ;!
     pst_sync (pi_import_uuid i)) ;!
  set_import_status (pi_id i) "abandoned" (staging_only None) ;!
  remove_staging (pi_import_uuid i).
Definition pst_account_id (sha : string) : string :=
  "pst_" ++ String.substring 0 12 sha ++ "_" ++ String.substring 0 8 (undashed new_uuid).
(** The account and the row of a new import. *)
Definition register_import (s : source_snapshot) (reimported : bool) (replaces : option Z) : M World Z :=
  let account := pst_account_id (sn_sha256 s) in
  db_write (upsert_account (Account account "pst_import" (Some (io_display_name options)) None (Some 993%Z) None false
                              "implicit" None "password" None None None)) ;!
  db_write (create_import (ImportIn new_uuid account filename (sn_sha256 s) (Some (sn_size s)) (Some (sn_mtime s))
                             "extracting" (negb reimported) replaces None None None 0 0 None)).
(** What an import works on: its id, its UUID and its account. *)
Definition import_pst (d : option decision) (capacity : option (Z * result unit * result Z)) : M World import_outcome :=
  let! s := io (fun w => (pe_source env (ticks w), w)) in
  match capacity with
  | Some (retained, check_free_space, free_space) =>
      mlift (let? _ := check_import_capacity (sn_size s) retained check_free_space free_space in Ok tt)
  | None => mret tt
  end ;!
  let! r := io (fun w => (resolve_import_job (sn_sha256 s) d (view w), w)) in
  let reimported := re_action r == ActReimport in
  let resumed := match re_action r, re_import r with ActResume, Some i => Some i | _, _ => None end in
  if re_action r == ActCancel then mraise OperationCancelledError "PST import was cancelled"
  else if requires_user_choice r then
    mret (DecisionRequest (sn_sha256 s) (negb (bool_decide (re_incomplete r = [])))
            (if re_import r is Some _ then true else false))
  else
    mwhen (re_action r == ActDiscardIncomplete) (mfor (re_incomplete r) discard_incomplete) ;!
    let! id := match resumed with Some i => mret (pi_id i) | None => register_import s reimported (re_replaces r) end in
    let uuid := match resumed with Some i => pi_import_uuid i | None => new_uuid end in
    let account := match resumed with Some i => pi_account_id i | None => pst_account_id (sn_sha256 s) end in
    closing uuid (
      match resumed with
      | Some _ => mret tt
      | None => run_stage_a ungated id uuid account filename version s options ;! mret tt
      end ;!
      let! b := run_stage_b ungated id uuid account 100 in
      match reimported, re_replaces r, re_import r with
      | true, Some old, Some o =>
          closing (pi_import_uuid o) (switch_generation ungated id uuid old (pi_import_uuid o)) ;! mret tt
      | _, _, _ => mret tt
      end ;!
      mret (Imported (ImportResult (sb_status b) id (sb_ingested b) (sb_failed b) (sb_remaining b) reimported))).
End Job.
Close Scope string_scope.
