(* ===== verification/PstReindex.v ===== *)
(** * PstReindex: rebuilding the generations of PST imports, and the whole database

    [reindex_pst] of [usecases/reindex.py] and [infrastructure/database/reindex.py]: a PST
    generation is rebuilt from its two snapshots and its event log, the generations of all PST files
    in the order their replacements ask for (one that meets an error is skipped), and the new database
    replaces the old one only when the accounts and the passes over the generations came to their end. The temporary database is the database of [World] while it is built; an event log
    without events has no file. The migrations of the empty database and the checks of SQLite are
    operations that may fail. *)

From S2P Require Import Prelude Errors PyText PyTime Retry Json Manifest Sha256 PstManifest Database DatabaseWf World EmlStorage DeleteRemote Sync Reindex PstTables PstStage PstGenerations.

Open Scope string_scope.

Section PstReindex.
Context (root : list string) (clock : nat -> datetime) (cancelled : nat -> bool)
  (parse : bytes -> option datetime -> result parsed) (normalize : string -> string).

(** ** One generation *)

(** [PstManifestReader.read_all_events]: the log was checked when it was written. *)
Definition read_log (uuid : string) : M World (list event) :=
  io (fun w => match pl_synced (log_of uuid w) with
               | [] => (raise FileNotFoundError "No such file or directory", w)
               | es => (Ok es, w)
               end).

(** What the events say: the last discovery, save and failures of each item, and the purged items. *)
Record generation := Generation {
  ge_discovered : list (string * event);
  ge_saved : list (string * event);
  ge_parse_failed : list (string * event);
  ge_oversize : list (string * event);
  ge_purged : list string;
}.
Definition generation_of (es : list event) : generation :=
  Generation (event_by_item "item_discovered" es) (event_by_item "item_saved" es)
    (event_by_item "item_parse_failed" es) (event_by_item "item_oversize" es)
    (map fst (event_by_item "purged" es)).

(** How the generation is entered: its status, whether it is active, what it replaced and when it was
    replaced. *)
Record standing := Standing {
  st_status : string; st_active : bool; st_replaces : option Z; st_superseded_at : option string }.
Definition generation_import (snapshot : event) (account uuid filename sha : string) (g : generation) (s : standing)
    : import_in :=
  ImportIn uuid account filename sha (int_of "source_size_bytes" snapshot) (int_of "source_mtime" snapshot)
    (st_status s) (st_active s) (st_replaces s) (text_of "readpst_version" snapshot) (st_superseded_at s)
    (Some (Z.of_nat (length (ge_discovered g)))) (Z.of_nat (length (ge_saved g)))
    (Z.of_nat (length (ge_parse_failed g)) + Z.of_nat (length (ge_oversize g)))
    (text_of "created_at" snapshot).

(** The folders, and the id of each. *)
Fixpoint write_pst_folders (account : string) (l : list json) (ids : list (string * Z)) : M World (list (string * Z)) :=
  match l with
  | [] => mret ids
  | JObj f :: l =>
      check_cancel cancelled ;!
      match text "raw_name" f, text "display_name" f with
      | Some raw, Some display =>
          let! id := db_write (upsert_folder (FolderIn account raw (Some display) (Some None) (Some 0%Z) (Some false)
                                                None None None None)) in
          write_pst_folders account l (dict_set raw id ids)
      | _, _ => mraise StorageError "PST folder manifest contains an invalid folder"
      end
  | _ :: _ => mraise StorageError "PST folder manifest contains an invalid folder"
  end.

(** The row of an item's message. *)
Definition REINDEX_COLUMNS : list string := (PST_COLUMNS ++ ["internal_date"])%list.
Definition generation_row (account key path hash : string) (folder : Z) (saved : event) (x : parsed)
    (purged active : bool) : message_in :=
  MessageIn REINDEX_COLUMNS
    (Message 0 account (p_message_id x) (get_or (sha_key hash) (nonempty (p_content_key x))) key
       (if purged then Purged else if active then Active else Trashed) None
       (if purged then None else Some path) (Some hash) (Some (p_subject x)) (Some (p_sender x))
       (Some (p_recipient x)) (Some (p_cc x)) (option_map to_utc_iso8601 (p_date_sent x)) None
       (int_of "size_bytes" saved) (p_has_attachment x) (p_in_reply_to x) (p_references_ids x) (p_thread_key x)
       None None None)
    (Membership 0 folder None None "no_remote" None None None None).

(** The counters of the loop: messages, contents, purged and skipped items. *)
Record counters := Counters { co_messages : Z; co_contents : Z; co_purged : Z; co_skipped : Z }.
Definition skipped (c : counters) : counters :=
  Counters (co_messages c) (co_contents c) (co_purged c) (co_skipped c + 1).
(** What an item must have to be rebuilt: its folder, path and hash in the staging directory, the saved
    path and hash. *)
Definition item_source (g : generation) (ids : list (string * Z)) (key : string) (found : event)
    : option (event * string * Z * string * string * string * string) :=
  match dict_get key (ge_saved g), text "folder_relative_path" found, text "source_relative_path" found,
        text "source_sha256" found with
  | Some saved, Some folder, Some rel, Some sha =>
      match text "final_relative_path" saved, text "file_hash" saved, dict_get folder ids with
      | Some path, Some hash, Some fid => Some (saved, folder, fid, rel, sha, path, hash)
      | _, _, _ => None
      end
  | _, _, _, _ => None
  end.
Definition rebuild_item (account : string) (import_id : Z) (g : generation) (active : bool) (ids : list (string * Z))
    (x : string * event) (c : counters) : M World counters :=
  let '(key, found) := x in
  check_cancel cancelled ;!
  match item_source g ids key found with
  | None => mret (skipped c)
  | Some (saved, folder, fid, rel, sha, path, hash) =>
      let purged := mem key (ge_purged g) in
      let! raw := if purged then mret None else verified root path hash in
      if negb purged && (if raw is None then true else false) then mret (skipped c) else
      let! x := match raw with Some b => mlift (parse b None) | None => mret empty_parsed end in
      let failure := or_else (dict_get key (ge_parse_failed g)) (dict_get key (ge_oversize g)) in
      let with_contents := (if raw is Some _ then true else false) && (p_parse_error x == None)
                           && (if failure is Some _ then false else true) in
      let! mid := db_write (add_pst_message normalize (generation_row account key path hash fid saved x purged active)
                              (if with_contents then Some (pst_contents x) else None)) in
      db_update' (upsert_import_item
        (PstItem import_id key rel folder (int_of "source_size_bytes" found) (Some sha) (Some path) (Some mid) "saved"
           (if mem key (map fst (ge_oversize g)) then Some "oversize"
            else if mem key (map fst (ge_parse_failed g)) then Some "parse" else None)
           (failure ≫= text_of "error_message") 1)) ;!
      mret (Counters (co_messages c + 1) (if with_contents then co_contents c + 1 else co_contents c)
              (if purged then co_purged c + 1 else co_purged c) (co_skipped c))
  end.
Fixpoint rebuild_items (account : string) (import_id : Z) (g : generation) (active : bool) (ids : list (string * Z))
    (l : list (string * event)) (c : counters) : M World counters :=
  match l with
  | [] => mret c
  | x :: l => let! c := rebuild_item account import_id g active ids x c in
              rebuild_items account import_id g active ids l c
  end.

(** The audit entry of an event. *)
Definition audit_operation (e : event) : option string :=
  match event_name e with
  | Some n =>
      if n == "purged" then Some "local_purge"
      else if n == "generation_restored" then Some "pst_restore_generation"
      else if mem n ["generation_superseded"; "generation_switch_committed"] then Some "pst_supersede"
      else if n == "import_abandoned" then Some "pst_import_abandon"
      else if n == "import_ready" then Some "pst_import"
      else None
  | None => None
  end.
Fixpoint write_pst_audit (account : string) (snapshot : event) (es : list event) : M World unit :=
  match es with
  | [] => mret tt
  | e :: es =>
      match audit_operation e with
      | None => mret tt
      | Some op =>
          db_update' (record_audit (AuditIn (or_else (text_of "timestamp" e) (text_of "created_at" snapshot)) (Some op)
            (Some account) None None None (Some ("reconstructed from PST " ++ get_or "" (event_name e) ++ " event"))))
      end ;!
      write_pst_audit account snapshot es
  end.

(** [reindex_pst] *)
Definition reindex_pst (dir : string) (s : standing) : M World ReindexResult :=
  let! snapshot := manifest_snapshot dir in
  let! folders := manifest_folders dir in
  let! es := read_log dir in
  match text "account_id" snapshot, text "import_uuid" snapshot, text "display_name" snapshot,
        text "source_filename" snapshot, text "source_sha256" snapshot with
  | Some account, Some uuid, Some display, Some filename, Some sha =>
      let g := generation_of es in
      if bool_decide (ge_discovered g = []) then mraise StorageError "PST manifest has no item inventory" else
      db_write (upsert_account (Account account "pst_import" (Some display) (Some "") (Some 993%Z) (Some filename) true
                                  "implicit" None "password" None None None)) ;!
      let! import_id := db_write (create_import (generation_import snapshot account uuid filename sha g s)) in
      let! ids := write_pst_folders account folders [] in
      let! c := rebuild_items account import_id g (st_active s) ids (ge_discovered g) (Counters 0 0 0 0) in
      write_pst_audit account snapshot es ;!
      mret (Reindexed 1 (Z.of_nat (length ids)) (co_messages c) (co_contents c) (co_purged c) (co_skipped c) [] false)
  | _, _, _, _, _ => mraise StorageError "PST import manifest is missing identity fields"
  end.

(** ** All generations *)

(** The directory of a generation and the generation it replaced, by its UUID; and when generations
    were superseded. *)
Record survey := Survey {
  su_found : list (string * (string * option string));
  su_superseded : list (string * option string);
}.
(** The loop over the events of one generation. *)
Definition survey_event (r : option string * list (string * option string)) (e : event)
    : option string * list (string * option string) :=
  let '(replaces, sup) := r in
  if event_name e == Some "generation_switch_committed" then
    match text_of "replaces_import_uuid" e with
    | Some u => (Some u, dict_set u (text_of "timestamp" e) sup)
    | None => r
    end
  else if event_name e == Some "generation_restored" then
    match text_of "superseded_import_uuid" e with
    | Some u => (replaces, dict_set u (text_of "timestamp" e) sup)
    | None => r
    end
  else r.
Definition survey_events (es : list event) (sup : list (string * option string)) :=
  fold_left survey_event es (None, sup).
(** What a rebuild may skip with a warning. *)
Definition unsupported (e : exn) : bool := isinstance e OSError || isinstance e TypeError || isinstance e ValueError.
Definition survey_generation (dir : string) (s : survey) : M World survey :=
  mtry (mlift (validate_import_uuid dir) ;!
        let! snapshot := manifest_snapshot dir in
        match text_of "import_uuid" snapshot with
        | None => mraise ValueError "missing import_uuid"
        | Some uuid =>
            let! es := read_log dir in
            let '(replaces, sup) := survey_events es (su_superseded s) in
            mret (Survey (dict_set uuid (dir, replaces) (su_found s)) sup)
        end)
    (fun e => if unsupported e then mret s else mthrow e).
Fixpoint survey_loop (dirs : list string) (s : survey) : M World survey :=
  match dirs with
  | [] => mret s
  | d :: dirs => let! s := survey_generation d s in survey_loop dirs s
  end.

(** The generations left, those rebuilt with their ids, the results. *)
Record ordering := Ordering {
  or_pending : list string;
  or_rebuilt : list (string * Z);
  or_results : list ReindexResult;
}.
Definition without (u : string) (o : ordering) : ordering :=
  Ordering (List.filter (fun v => v != u) (or_pending o)) (or_rebuilt o) (or_results o).
Definition import_row_id (uuid : string) (d : Db) : option Z :=
  option_map pi_id (List.find (fun i => pi_import_uuid i == uuid) (pst_imports d)).
(** One generation of a pass: whether anything changed. *)
Definition rebuild_generation (s : survey) (u : string) (o : ordering) : M World (ordering * bool) :=
  match dict_get u (su_found s) with
  | None => mraise KeyError u
  | Some (dir, replaces) =>
      let ready := match replaces with
                   | Some r => if dict_get r (or_rebuilt o) is Some _ then true else false
                   | None => true
                   end in
      if negb ready then
        match replaces with
        | Some r => if dict_get r (su_found s) is Some _ then mret (o, false) else mret (without u o, true)
        | None => mret (o, false)
        end
      else
        let active := if dict_get u (su_superseded s) is Some _ then false else true in
        let standing := Standing (if active then "completed" else "superseded") active
                          (replaces ≫= fun r => if r == "" then None else dict_get r (or_rebuilt o))
                          (get_or None (dict_get u (su_superseded s))) in
        let! r := mtry (let! r := reindex_pst dir standing in mret (Some r))
                    (fun e => if unsupported e || isinstance e StorageError then mret None else mthrow e) in
        match r with
        | None => mret (without u o, true)
        | Some r =>
            let! id := db_read (import_row_id u) in
            mret (without u (Ordering (or_pending o)
                               (match id with Some id => dict_set u id (or_rebuilt o) | None => or_rebuilt o end)
                               (or_results o ++ [r])%list), true)
        end
  end.
Fixpoint rebuild_pass (s : survey) (l : list string) (o : ordering) (progress : bool) : M World (ordering * bool) :=
  match l with
  | [] => mret (o, progress)
  | u :: l =>
      let! r := rebuild_generation s u o in
      rebuild_pass s l r.1 (progress || r.2)
  end.
(** [while pending]: fuel, of which one more than there are generations is enough. *)
Fixpoint rebuild_loop (fuel : nat) (s : survey) (o : ordering) : M World ordering :=
  match fuel, or_pending o with
  | S fuel, _ :: _ =>
      let! r := rebuild_pass s (merge_sort name_le (or_pending o)) o false in
      if r.2 : bool then rebuild_loop fuel s r.1 else mret r.1
  | _, _ => mret o
  end.
(** [_rebuild_pst_manifests] *)
Definition rebuild_pst_manifests : M World (list ReindexResult) :=
  let! dirs := io (mgets (fun w => merge_sort name_le (map fst (pst_logs w)))) in
  let! s := survey_loop dirs (Survey [] []) in
  if bool_decide (su_found s = []) then mret [] else
  let! o := rebuild_loop (S (length (su_found s))) s (Ordering (map fst (su_found s)) [] []) in
  mret (or_results o).

(** ** The whole database *)

(** [_combine_results] *)
Definition sum (f : ReindexResult -> Z) (l : list ReindexResult) : Z := fold_right (fun r n => f r + n)%Z 0%Z l.
Definition combine_results (l : list ReindexResult) : ReindexResult :=
  Reindexed (sum ri_accounts l) (sum ri_folders l) (sum ri_messages l) (sum ri_contents l) (sum ri_purged l)
    (sum ri_skipped l) (flat_map ri_warnings l) (existsb ri_cancelled l).

(** The manifest of one account is read. *)
Definition reading {A} (es : list event) (m : M World A) : M World A :=
  fun w => let r := m (set_manifest es [] None w) in
           (r.1, set_manifest (synced w) (buffered w) (last_sequence w) r.2).
(** The accounts one after the other, until one is cancelled. *)
Fixpoint rebuild_accounts (readers : list (list event)) (results : list ReindexResult)
    : M World (list ReindexResult * bool) :=
  match readers with
  | [] => mret (results, false)
  | es :: readers =>
      let! r := reading es (reindex root clock cancelled parse normalize) in
      let results := (results ++ [r])%list in
      if ri_cancelled r then mret (results, true) else rebuild_accounts readers results
  end.
(** A step of SQLite or of the file system that the model does not look into. *)
Definition opaque_step : M World unit := io (mret tt).
(** The temporary database: its results, and its content when it is complete. *)
Definition build_database (readers : list (list event)) : M World (list ReindexResult * option Db) :=
  opaque_step ;!                                    (* connect *)
  opaque_step ;!                                    (* migrate, finalize_message_folders *)
  let! r := rebuild_accounts readers [] in
  if r.2 : bool then mret (r.1, None) else
  let! pst := rebuild_pst_manifests in
  opaque_step ;!                                    (* finalize_message_folders, checkpoint_truncate *)
  opaque_step ;!                                    (* _verify_database *)
  opaque_step ;!                                    (* checkpoint_truncate *)
  let! d := mgets committed in
  mret ((r.1 ++ pst)%list, Some d).
(** On a temporary database next to the installed one. *)
Definition on_temporary {A} (m : M World A) : M World A :=
  fun w => let r := m (set_working None (set_committed empty_db w)) in
           (r.1, set_committed (committed w) (set_working (working w) r.2)).
(** The [except] clauses of [rebuild_database]. *)
Definition rebuild_error {A} (e : exn) : M World A :=
  if isinstance e DatabaseError || isinstance e StorageError then mthrow e
  else if isinstance e SqliteError then mraise DatabaseError "Could not rebuild metadata database"
  else if isinstance e OSError then mraise StorageError "Could not install rebuilt metadata database"
  else mthrow e.
(** [rebuild_database] *)
Definition rebuild_database (readers : list (list event)) : M World ReindexResult :=
  mtry
    (let! r := on_temporary (build_database readers) in
     match r.2 with
     | None => mret (combine_results r.1)
     | Some d =>
         io (mmodify (set_committed d)) ;!          (* os.replace *)
         sync_directory ;!
         mret (combine_results r.1)
     end)
    rebuild_error.
End PstReindex.
Close Scope string_scope.
