(* ===== verification/PstSamples.v ===== *)
(** * PstSamples: a small PST

    The concrete input of the witnesses of the theorems on imports: a PST of two messages, the world
    before and after stage A. *)

From S2P Require Import Prelude Errors PyText PyTime Json Manifest Sha256 PstManifest Database DatabaseWf World EmlStorage DeleteRemote Sync PstTables PstStage PstGenerations.

Open Scope string_scope.

Definition sample_parsed : parsed :=
  Parsed "hello" "a@example.com" "" "" None (Some "<1@x>") None None None None "text" [] false None.
Definition sample_source : source_snapshot := SourceSnapshot sample_sha 10 0 None.
Definition eml (n : Z) : bytes := [83; 58; 48 + n; 10; 10; 120]%Z.
Definition sample_env : pst_env :=
  PstEnv ["root"] (fun _ => DateTime 2024 5 2 12 0 0 0) (fun _ => false) (fun _ => true) (fun _ => Ok sample_source)
    [("Inbox/1.eml", eml 1); ("Inbox/2.eml", eml 2)] (fun _ => Ok sample_parsed) (fun _ => None)
    (fun s => s) (fun _ => "0a") (fun _ => 1%nat).
Definition sample_import_options : import_options := ImportOptions "Archive" "utf-8" false.
Definition pst_account : account :=
  Account "pst_a" "pst_import" (Some "Archive") None (Some 993%Z) None false "implicit" None "password" None None None.
Definition no_imports : World :=
  MkWorld (MkDb [] [] [] [] [] [] [] [] [] 1 1 1 1 [] [] 1) None [] [] [] None 0 (fun _ => None) [] [].
(** The import has its row. *)
Definition created_import : World :=
  set_committed (MkDb [pst_account] [] [] [] [] [] [] [] [] 1 1 1 1
    [new_import (ImportIn sample_uuid "pst_a" "a.pst" sample_sha (Some 10%Z) (Some 0%Z) "extracting" true None None None None 0 0 None) 1] [] 2) no_imports.
Definition after_stage_a : World := Eval vm_compute in
  (run_stage_a sample_env 1 sample_uuid "pst_a" "a.pst" "0.6.76" sample_source sample_import_options created_import).2.
(** The import is finished, and then the database is lost. *)
Definition after_stage_b : World := Eval vm_compute in (run_stage_b sample_env 1 sample_uuid "pst_a" 100 after_stage_a).2.
Definition lost_import : World := Eval vm_compute in set_committed empty_db after_stage_b.
Close Scope string_scope.
