(* ===== verification/PstSafe.v ===== *)
(** * PstSafe: what the database says of a PST import is on the disk

    Whatever fails during stage B, and wherever it stops: an item whose row says it is saved has its
    [item_saved] event synced in the manifest of its generation, its EML on the disk with the hash of
    the event, and its message registered with that file. *)

From S2P Require Import Prelude Errors PyText PyTime Accounts Retry Json Manifest Sha256 PstManifest Database DatabaseWf World EmlStorage DeleteRemote Sync PstTables PstStage PstGenerations PstSamples.

Open Scope string_scope.

(** ** Saving from a file *)

Definition same_logs (w w' : World) : Prop := pst_logs w' = pst_logs w.
#[export] Instance same_logs_preorder : PreOrder same_logs.
Proof. split; [done|]. unfold same_logs. intros a b c. congruence. Qed.
Lemma same_logs_io {A} (m : M World A) : preserves same_logs m -> preserves same_logs (io m).
Proof. intros H. apply preserves_io; [apply _|done|done]. Qed.
Lemma same_logs_try {A} (m : M World A) h : preserves same_logs m -> (forall e, preserves same_logs (h e)) ->
  preserves same_logs (mtry m h).
Proof.
  intros Hm Hh w. specialize (Hm w). unfold mtry. destruct (m w) as [[a|e] w1]; cbn [snd] in *; [done|].
  etransitivity; [exact Hm|apply Hh].
Qed.
Lemma same_logs_save account date source uuid part :
  preserves same_logs (save_eml_from_file account date source uuid part).
Proof.
  unfold save_eml_from_file, with_temporary, write_file, make_directory, sync_file, sync_directory, put_file,
    remove_file, rename_file, discard, remove_file, find_existing_eml, reuse_destination.
  repeat first
    [ progress intros | apply preserves_bnd; [apply _| |] | apply same_logs_try | apply same_logs_io
    | apply preserves_ret; apply _ | apply preserves_lift; apply _ | apply preserves_raise; apply _
    | apply preserves_throw; apply _ | progress cbv beta zeta | case_match
    | intros ?; reflexivity ].
  all: intros w'; try case_match; reflexivity.
Qed.

(** Operations that change nothing but the clock. *)
Definition still (w w' : World) : Prop :=
  fs w' = fs w /\ pst_logs w' = pst_logs w /\ committed w' = committed w /\ working w' = working w.
#[export] Instance still_preorder : PreOrder still.
Proof. split; [done|]. unfold still. intros a b c. intuition congruence. Qed.
Lemma still_io {A} (m : M World A) : preserves still m -> preserves still (io m).
Proof. intros H. apply preserves_io; [apply _|done|done]. Qed.
Lemma still_try {A} (m : M World A) h : preserves still m -> (forall e, preserves still (h e)) ->
  preserves still (mtry m h).
Proof.
  intros Hm Hh w. specialize (Hm w). unfold mtry. destruct (m w) as [[a|e] w1]; cbn [snd] in *; [done|].
  etransitivity; [exact Hm|apply Hh].
Qed.
(** What a save from a file may leave behind: [stored] without the claim that nothing else is
    written when an existing file is reused. *)
Definition stored_from (account tmp dst : string) (raw : bytes) (w : World) (r : result StoredEml) (w' : World) : Prop :=
  same_records w w'
  /\ (forall q, q <> tmp -> q <> dst -> read_file q w' = read_file q w)
  /\ (read_file dst w' = read_file dst w \/ read_file dst w' = Some raw)
  /\ forall s, r = Ok s ->
       eml_file_hash s = hexdigest raw /\ named account (hexdigest raw) (eml_relative_path s)
       /\ exists c, read_file (eml_relative_path s) w' = Some c /\ hexdigest c = hexdigest raw.

Lemma only_stored account tmp dst raw w w' e : tmp <> dst -> only_file tmp w w' ->
  stored_from account tmp dst raw w (Err e) w'.
Proof. intros Hne [Hs H]. split; [done|]. split; [auto|]. split; [left; by apply H|done]. Qed.
Lemma wp_discard p w0 w : only_file p w0 w -> wp (discard p) (fun r w' => r = Ok tt /\ only_file p w0 w') w.
Proof.
  intros H. unfold wp, discard, mtry, remove_file, io. destruct (faults w (ticks w)); cbn; [done|].
  split; [done|]. exact (only_file_remove _ _ (tick w) H).
Qed.
(** The middle of the save: copy, look for the same content, or rename. *)
Lemma wp_copy account date raw tmp uuid part w : tmp = temporary_path uuid ->
  let dst := eml_path account date (hexdigest raw) in
  wp (make_directory ;!
      write_file tmp raw part ;!
      let! existing := find_existing_eml account (hexdigest raw) in
      match existing with
      | Some s => mret (Some s)
      | None =>
          make_directory ;!
          let! here := reuse_destination dst (hexdigest raw) in
          match here with
          | Some s => mret (Some s)
          | None => rename_file tmp dst ;! mret None
          end
      end)
    (fun r w' => match r with
                 | Ok None => renamed tmp dst raw w w'
                 | Ok (Some s) => only_file tmp w w' /\ eml_file_hash s = hexdigest raw
                     /\ named account (hexdigest raw) (eml_relative_path s) /\ eml_relative_path s <> tmp
                     /\ exists c, read_file (eml_relative_path s) w' = Some c /\ hexdigest c = hexdigest raw
                 | Err _ => only_file tmp w w'
                 end) w.
Proof.
  intros Htmp dst. assert (tmp <> dst) as Hne by (subst; apply temporary_not_eml).
  assert (forall p, named account (hexdigest raw) p -> p <> tmp) as Hnt
    by (intros p Hp ->; subst; by eapply temporary_not_named).
  assert (only_file tmp w w) as H0 by done. unfold make_directory. wp_step. wp_step; [done|]. wp_step. wp_step.
  eapply wp_mono; [apply wp_write_file; exact H0|]. intros [[]|e] w1 [H1 E1]; [|done]. specialize (E1 eq_refl).
  wp_step. unfold find_existing_eml. wp_step; [done|]. wp_step.
  destruct (existing_path account (hexdigest raw) (tick w1)) as [p|] eqn:Ep.
  { wp_step. assert (named account (hexdigest raw) p) as Hp.
    { apply List.find_some in Ep as [_ Ep]. bsimp. by split. }
    apply existing_path_read in Ep as (c & Hc & Hh). split; [done|]. split; [done|]. split; [done|]. split; [auto|].
    by exists c. }
  wp_step. wp_step; [done|]. wp_step. wp_step. unfold reuse_destination. wp_step; [done|]. wp_step.
  match goal with |- context [match read_file dst ?x with _ => _ end] => destruct (read_file dst x) as [c|] eqn:Ec end.
  - destruct (hexdigest c == hexdigest raw) eqn:Eh.
    + wp_step. apply eqb_true_1 in Eh. split; [done|]. split; [done|]. split; [apply eml_path_named|].
      split; [apply Hnt, eml_path_named|]. by exists c.
    + wp_step. eapply wp_mono; [apply (wp_rename_file tmp dst raw w); done|].
      intros [[]|e] w2 H2; [|done]. by wp_step.
  - wp_step. eapply wp_mono; [apply (wp_rename_file tmp dst raw w); done|].
    intros [[]|e] w2 H2; [|done]. by wp_step.
Qed.
Lemma wp_save_from_file account date source uuid part w :
  match source with
  | None => is_ok (save_eml_from_file account date source uuid part w).1 = false
            /\ same_records w (save_eml_from_file account date source uuid part w).2
            /\ fs (save_eml_from_file account date source uuid part w).2 = fs w
  | Some raw => wp (save_eml_from_file account date source uuid part)
                  (stored_from account (temporary_path uuid) (eml_path account date (hexdigest raw)) raw w) w
  end.
Proof.
  destruct source as [raw|].
  2:{ unfold save_eml_from_file, mbnd, mlift. by destruct (validate_account_id _). }
  set (tmp := temporary_path uuid). set (dst := eml_path account date (hexdigest raw)).
  assert (tmp <> dst) as Hne by apply temporary_not_eml.
  unfold save_eml_from_file. wp_step. wp_step.
  destruct (validate_account_id _); [|by apply only_stored]. wp_step.
  set (Q := fun (o : option StoredEml) (w' : World) => match o with
    | None => renamed tmp dst raw w w'
    | Some s => only_file tmp w w' /\ eml_file_hash s = hexdigest raw
        /\ named account (hexdigest raw) (eml_relative_path s) /\ eml_relative_path s <> tmp
        /\ exists c, read_file (eml_relative_path s) w' = Some c /\ hexdigest c = hexdigest raw
    end).
  eapply wp_mono; [apply (wp_with_temporary tmp _ Q w)|].
  { eapply wp_mono; [by apply (wp_copy account date raw tmp uuid)|]. intros [[s|]|e] w1 H1; exact H1. }
  intros [[s|]|e] w1 H1; [| |by apply only_stored].
  - destruct H1 as (Ho & Eh & Hn & Hnt & c & Hc & Ehc). wp_step.
    eapply wp_mono; [by apply (wp_discard tmp w1)|]. intros r w2 [-> [Hs2 Ho2]]. wp_step. destruct Ho as [Hs1 Ho1].
    split; [unfold same_records in *; intuition congruence|].
    split; [intros q Hq _; rewrite Ho2 by done; by apply Ho1|].
    split; [left; rewrite Ho2 by done; by apply Ho1|]. intros s0 [= <-]. split; [done|]. split; [done|].
    exists c. by rewrite Ho2.
  - destruct H1 as (Hs & Hd & Ht & Hq). unfold sync_directory. wp_step.
    wp_step; [intros e; split; [done|]; split; [done|]; by split; [right|]|]. wp_step. wp_step.
    split; [done|]. split; [done|]. split; [by right|]. intros s [= <-]. split; [done|].
    split; [apply eml_path_named|]. by exists raw.
Qed.

(** ** The invariant *)

Section Safe.
Context (env : pst_env) (import_id : Z) (uuid account : string).
Context (known : string -> Prop).   (* the hashes of the staged files *)
Context (Hdistinct : forall h1 h2, known h1 -> known h2 -> file_name_of h1 = file_name_of h2 -> h1 = h2).
Context (Hfresh : forall n, has_slash (pe_fresh env n) = false).

Definition saved_for (key path hash : string) (e : event) : Prop :=
  event_name e = Some "item_saved" /\ text_of "source_item_key" e = Some key
  /\ text_of "final_relative_path" e = Some path /\ text_of "file_hash" e = Some hash.
Definition on_disk (w : World) (path hash : string) : Prop :=
  named account hash path /\ known hash /\ exists c, read_file path w = Some c /\ hexdigest c = hash.
(** Every [item_saved] event of the manifest has its file. *)
Definition events_ok (w : World) : Prop := forall e, e ∈ pst_events uuid w -> event_name e = Some "item_saved" ->
  exists key path hash, saved_for key path hash e /\ on_disk w path hash.
(** A saved item has its event on the disk, and its message. *)
Definition item_ok (es : list event) (d : Db) (i : pst_item) : Prop :=
  it_import_id i = import_id -> is_saved i = true ->
  exists path hash e m, it_final_relative_path i = Some path
    /\ e ∈ es /\ saved_for (it_source_item_key i) path hash e
    /\ m ∈ messages d /\ it_message_row_id i = Some (m_id m) /\ account_id m = account
    /\ source_item_key m = it_source_item_key i /\ relative_path m = Some path /\ file_hash m = Some hash.
Definition items_ok (es : list event) (d : Db) : Prop := forall i, i ∈ pst_items d -> item_ok es d i.
Definition staged_ok (w : World) : Prop :=
  forall rel c, read_file (staged uuid rel) w = Some c -> known (hexdigest c).
(** An item has one [item_saved] event. *)
Definition one_event (w : World) : Prop := forall e1 e2 key p1 p2 h1 h2, e1 ∈ pst_events uuid w -> e2 ∈ pst_events uuid w ->
  saved_for key p1 h1 e1 -> saved_for key p2 h2 e2 -> p1 = p2 /\ h1 = h2.
Record safe (w : World) : Prop := {
  sf_events : events_ok w;
  sf_one : one_event w;
  sf_committed : items_ok (pl_synced (log_of uuid w)) (committed w);
  sf_view : items_ok (pl_synced (log_of uuid w)) (view w);
  sf_staged : staged_ok w;
}.

Lemma items_ok_more es es' d : es ⊆ es' -> items_ok es d -> items_ok es' d.
Proof.
  intros Hs H i Hi Hid Hsv. destruct (H i Hi Hid Hsv) as (p & h & e & m & ? & ? & R). exists p, h, e, m. set_solver.
Qed.
Lemma safe_ext w w' : safe w -> (forall e, e ∈ pst_events uuid w' -> event_name e = Some "item_saved" -> e ∈ pst_events uuid w) ->
  (forall p h, on_disk w p h -> on_disk w' p h) -> pl_synced (log_of uuid w) ⊆ pl_synced (log_of uuid w') ->
  (committed w' = committed w \/ committed w' = view w) -> (view w' = view w \/ view w' = committed w) ->
  (forall p c, read_file (staged uuid p) w' = Some c -> read_file (staged uuid p) w = Some c) -> safe w'.
Proof.
  intros [H1 H0 H2 H3 H4] He Hd Hl Hc Hv Hf. split.
  - intros e Hin Hn. destruct (H1 e (He e Hin Hn) Hn) as (k & p & h & ? & ?). exists k, p, h. auto.
  - intros e1 e2 key p1 p2 h1 h2 Hi1 Hi2 Hs1 Hs2.
    eapply (H0 e1 e2); [apply He; [done|apply Hs1]|apply He; [done|apply Hs2]|done|done].
  - eapply items_ok_more; [exact Hl|]. by destruct Hc as [-> | ->].
  - eapply items_ok_more; [exact Hl|]. by destruct Hv as [-> | ->].
  - intros rel c Hr. by eapply H4, Hf.
Qed.
Lemma safe_same w w' : safe w -> fs w' = fs w -> pst_logs w' = pst_logs w ->
  (committed w' = committed w \/ committed w' = view w) -> (view w' = view w \/ view w' = committed w) -> safe w'.
Proof.
  intros H Hf Hl Hc Hv.
  assert (forall p, read_file p w' = read_file p w) as Hr by (intros p; unfold read_file; by rewrite Hf).
  assert (log_of uuid w' = log_of uuid w) as E by (unfold log_of; by rewrite Hl).
  eapply safe_ext; try done.
  - intros e. unfold pst_events. by rewrite E.
  - intros p h (Hn & Hk & c & Hp & Hh). split; [done|]. split; [done|]. exists c. by rewrite Hr.
  - by rewrite E.
  - intros p c. by rewrite Hr.
Qed.
Lemma safe_tick w : safe w -> safe (tick w).
Proof. intros H. eapply safe_same; try done; by left. Qed.
Lemma keeps_io {A} (m : M World A) : keeps safe m -> keeps safe (io m).
Proof.
  intros H w Hw. unfold io. destruct (faults w (ticks w)); [by apply safe_tick|]. by apply H, safe_tick.
Qed.
Lemma keeps_pure {A} (m : M World A) : (forall w, (m w).2 = w) -> keeps safe m.
Proof. intros H w Hw. specialize (H w). unfold post. destruct (m w) as [[a|e] w']; cbn in H; by subst. Qed.

(** *** Database operations *)

Definition db_safe (f : Db -> Db -> Prop) : Prop :=
  forall es d d', f d d' -> items_ok es d -> items_ok es d'.
Lemma safe_put d w : items_ok (pl_synced (log_of uuid w)) d -> safe w -> safe (put_db d w).
Proof.
  intros Hd [H1 H0 H2 H3 H4]. unfold put_db. destruct (working w) eqn:E; split; try done.
  unfold view. cbn. by rewrite E.
Qed.
Lemma keeps_write {A} (f : Db -> result (A * Db)) : db_safe (fun d d' => exists a, f d = Ok (a, d')) ->
  keeps safe (db_write f).
Proof.
  intros Hf. apply keeps_io. intros w Hw. destruct (f (view w)) as [[a d]|e] eqn:E; [|exact Hw]. cbn.
  apply safe_put; [|done]. apply (Hf _ (view w)); [by exists a|apply Hw].
Qed.
Lemma keeps_update' (f : Db -> result Db) : db_safe (fun d d' => f d = Ok d') -> keeps safe (db_update' f).
Proof. intros Hf. apply keeps_write. intros es d d' [a (d1 & H & [= _ <-])%rbind_ok]. by apply Hf. Qed.
Lemma keeps_read {A} (f : Db -> A) : keeps safe (db_read f).
Proof. apply keeps_io, keeps_gets. Qed.
Lemma keeps_begin : keeps safe begin_batch.
Proof.
  apply keeps_io. intros w Hw. destruct (working w) eqn:E; [exact Hw|]. cbn.
  eapply safe_same; [exact Hw|done|done|by left|by right].
Qed.
Lemma keeps_commit : keeps safe commit_batch.
Proof.
  apply keeps_io. intros w Hw. cbn. destruct (working w) as [d|] eqn:E; [|done].
  assert (view w = d) as Ev by (unfold view; by rewrite E).
  eapply safe_same; [exact Hw|done|done|right; by rewrite Ev|left; by rewrite Ev].
Qed.
Lemma keeps_rollback : keeps safe rollback_batch.
Proof. apply keeps_io. intros w Hw. cbn. eapply safe_same; [exact Hw|done|done|by left|by right]. Qed.

(** Operations that leave items and messages alone. *)
Lemma frame_safe d d' es : messages d' = messages d -> pst_items d' = pst_items d -> items_ok es d -> items_ok es d'.
Proof.
  intros Hm Hi H i. rewrite Hi. intros Hin Hid Hs. destruct (H i Hin Hid Hs) as (p & h & e & m & R).
  exists p, h, e, m. by rewrite Hm.
Qed.
Lemma keeps_status status s : keeps safe (set_import_status import_id status s).
Proof. apply keeps_update'. intros es d d' (? & _ & <-%Ok_inj)%rbind_ok. by apply frame_safe. Qed.
Lemma keeps_audit operation acc detail : keeps safe (record_pst_audit env operation acc detail).
Proof.
  apply keeps_bnd; [by apply keeps_gets|]. intros ts. apply keeps_update'. intros es d d'.
  unfold record_audit. cbn. intros [= <-]. by apply frame_safe.
Qed.
Lemma keeps_folder name display : keeps safe (db_write (upsert_pst_folder account name display)).
Proof.
  apply keeps_write. intros es d d' [a (? & _ & H)%rbind_ok]. unfold upsert_folder in H.
  destruct (List.find _ (folders d)); [injection H as _ <-; by apply frame_safe|].
  apply rbind_ok in H as (? & _ & [= _ <-]). by apply frame_safe.
Qed.

(** *** The manifest *)

Lemma log_set_log l w : log_of uuid (set_log uuid l w) = l.
Proof. unfold log_of, set_log. cbn. by rewrite dict_get_set_eq. Qed.

(** What an append does. *)
Definition with_event (e : event) (w : World) : World :=
  let l := log_of uuid w in
  set_log uuid (PstLog (pl_synced l) (pl_buffered l ++ [e])%list (pl_import l) (pl_folders l)) w.
Lemma pst_append_cases e w :
  (exists x, pst_append uuid e w = (Err x, tick w))
  \/ (pst_append uuid e w = (Ok tt, tick w) /\ exists p, p ∈ pst_events uuid w /\ event_key p = event_key e)
  \/ pst_append uuid e w = (Ok tt, with_event e (tick w)).
Proof.
  unfold pst_append, io. destruct (faults w (ticks w)) as [x|]; [left; by exists x|].
  change (pst_events uuid (tick w)) with (pst_events uuid w).
  destruct (PstManifest.append e _) as [after|x] eqn:E; [|left; by exists x]. right.
  apply PstManifest.pst_append_ok in E as [_ [[Ht ->]|(_ & _ & ->)]]; cbn [PstManifest.w_events] in *.
  - left. rewrite drop_all. split; [done|]. apply transition_false in Ht as (p & Hp & Hk & _). by exists p.
  - right. by rewrite drop_app_length.
Qed.
Lemma events_with e w : pst_events uuid (with_event e w) = (pst_events uuid w ++ [e])%list.
Proof. unfold pst_events, with_event. rewrite log_set_log. cbn. by rewrite (assoc_L (++)). Qed.
Lemma synced_with e w : pl_synced (log_of uuid (with_event e w)) = pl_synced (log_of uuid w).
Proof. unfold with_event. by rewrite log_set_log. Qed.
Lemma safe_with e w : safe w ->
  (event_name e = Some "item_saved" -> exists key path hash, saved_for key path hash e /\ on_disk w path hash
     /\ forall e', e' ∈ pst_events uuid w -> event_name e' = Some "item_saved" -> text_of "source_item_key" e' <> Some key) ->
  safe (with_event e w).
Proof.
  intros [H1 H0 H2 H3 H4] He. split; rewrite ?synced_with; try done.
  - intros e' Hin Hn. rewrite events_with in Hin. apply elem_of_app in Hin as [Hin| ->%list_elem_of_singleton].
    + destruct (H1 e' Hin Hn) as (k & p & h & ? & ?). by exists k, p, h.
    + destruct (He Hn) as (k & p & h & ? & ? & _). by exists k, p, h.
  - assert (forall e' key p h p' h', e' ∈ pst_events uuid w -> saved_for key p h e' -> saved_for key p' h' e -> False) as Hno.
    { intros e' key p h p' h' Hin (Hn & Hk & _) (Hn' & Hk' & _). destruct (He Hn') as (key' & ? & ? & (_ & Hk'' & _) & _ & Hf).
      apply (Hf e' Hin Hn). congruence. }
    intros e1 e2 key p1 p2 h1 h2. rewrite !events_with.
    intros [Hi1| ->%list_elem_of_singleton]%elem_of_app [Hi2| ->%list_elem_of_singleton]%elem_of_app Hs1 Hs2.
    + by eapply (H0 e1 e2).
    + by destruct (Hno e1 key p1 h1 p2 h2).
    + by destruct (Hno e2 key p2 h2 p1 h1).
    + destruct Hs1 as (_ & _ & Ep1 & Eh1), Hs2 as (_ & _ & Ep2 & Eh2). split; congruence.
Qed.
Lemma keeps_append e : event_name e <> Some "item_saved" -> keeps safe (pst_append uuid e).
Proof.
  intros Hn w Hw. destruct (pst_append_cases e w) as [[x ->]|[[-> _]| ->]]; cbn; [by apply safe_tick..|].
  apply safe_with; [by apply safe_tick|done].
Qed.
Lemma keeps_append_event name fields : name <> "item_saved" -> keeps safe (append_event env uuid name fields).
Proof.
  intros Hn. apply keeps_bnd; [by apply keeps_gets|]. intros ts. apply keeps_append.
  change (event_name (item_event uuid name ts fields)) with (Some name). congruence.
Qed.
Definition after_sync (w : World) : World :=
  let l := log_of uuid w in
  set_log uuid (PstLog (pl_synced l ++ pl_buffered l)%list [] (pl_import l) (pl_folders l)) w.
Lemma events_after_sync w : pst_events uuid (after_sync w) = pst_events uuid w
  /\ pl_synced (log_of uuid (after_sync w)) = pst_events uuid w.
Proof. unfold after_sync, pst_events. rewrite log_set_log. cbn. by rewrite app_nil_r. Qed.
Lemma safe_after_sync w : safe w -> safe (after_sync w).
Proof.
  intros H. destruct (events_after_sync w) as [E1 E2]. eapply safe_ext; [exact H|by rewrite E1|done| |by left|by left|done].
  rewrite E2. unfold pst_events. set_solver.
Qed.

(** *** Files *)

Lemma below_eml_not_staged rel p : String.prefix (account_root account) p = true -> p <> staged uuid rel.
Proof.
  intros H ->. unfold account_root, staged, stage_dir in H. rewrite <- !append_assoc, !append_cons in H.
  cbn [String.prefix] in H. by destruct (Ascii.ascii_dec _ _).
Qed.
Lemma has_slash_append a b : has_slash (a ++ b) = has_slash a || has_slash b.
Proof. induction a as [|c a IH]; [done|]. rewrite append_cons. cbn [has_slash]. rewrite IH. by rewrite orb_assoc. Qed.
Lemma staged_not_temporary rel n : staged uuid rel <> temporary_path (pe_fresh env n).
Proof.
  intros E. assert (has_slash (pe_fresh env n ++ ".eml") = true) as H.
  { unfold staged, stage_dir, temporary_path in E. rewrite <- !append_assoc in E.
    change ("tmp/pstimp/" ++ ?x) with ("tmp/" ++ ("pstimp/" ++ x)) in E.
    rewrite !append_cons in E. injection E as E. rewrite !append_nil in E. by rewrite <- E. }
  rewrite has_slash_append, Hfresh in H. done.
Qed.

Lemma still_safe w w' : still w w' -> safe w -> safe w'.
Proof.
  intros (Hf & Hl & Hc & Hw) H. eapply safe_same; [exact H|done|done|by left|]. left. unfold view. by rewrite Hw, Hc.
Qed.
Lemma still_events w w' : still w w' -> pst_events uuid w' = pst_events uuid w.
Proof. intros (_ & Hl & _). unfold pst_events, log_of. by rewrite Hl. Qed.
Lemma still_token : preserves still (check_token env).
Proof. intros w. unfold check_token, Retry.raise_if_cancelled. by case_match. Qed.
Lemma still_allowed : preserves still (ensure_write_allowed env).
Proof. intros w. unfold ensure_write_allowed. by case_match. Qed.
Lemma still_resolve rel : preserves still (resolve_staging_item env uuid rel).
Proof. apply still_io. intros w. cbv beta zeta. destruct (relative_to _ _) as [p|]; [|done]. by destruct (read_file _ w). Qed.
Lemma still_staged_message file full : preserves still (read_staged_message env file full).
Proof.
  unfold read_staged_message. destruct full; cbn [negb]; [|apply preserves_ret, _].
  apply preserves_bnd; [apply _| |intros raw; apply preserves_bnd; [apply _|apply preserves_lift, _|intros p; apply preserves_ret, _]].
  apply still_try; [apply still_io; intros w; by case_match|]. intros e. case_match; [apply preserves_raise, _|by intros w].
Qed.
Lemma resolve_staged rel file w w' : resolve_staging_item env uuid rel w = (Ok file, w') -> exists r, file = staged uuid r.
Proof.
  unfold resolve_staging_item, io. destruct (faults w (ticks w)); [done|]. destruct (relative_to _ _) as [p|]; [|done].
  destruct (read_file _ _); [|done]. intros [= <- _]. by eexists.
Qed.

(** *** What the loop knows *)

Record knows (k : PstStage.known) (w : World) : Prop := {
  kn_sound : forall key e, dict_get key (k_saved k) = Some e ->
    e ∈ pst_events uuid w /\ event_name e = Some "item_saved" /\ text_of "source_item_key" e = Some key;
  kn_complete : forall e, e ∈ pst_events uuid w -> event_name e = Some "item_saved" ->
    exists key, text_of "source_item_key" e = Some key /\ dict_get key (k_saved k) <> None;
}.
Definition base (k : PstStage.known) (E : list event) (w : World) : Prop :=
  safe w /\ knows k w /\ E ⊆ pst_events uuid w.
Lemma base_still k E w w' : still w w' -> base k E w -> base k E w'.
Proof.
  intros Hs (H1 & [H2 H3] & H4). pose proof (still_events w w' Hs) as Ee. split; [by eapply still_safe|].
  split; [split|]; by rewrite Ee.
Qed.
Lemma triple_still {A} k E (m : M World A) : preserves still m -> triple (base k E) m (fun _ => base k E) safe.
Proof.
  intros Hm w Hw. specialize (Hm w). unfold post. destruct (m w) as [[a|e] w']; cbn [snd] in Hm.
  - by eapply base_still.
  - by eapply still_safe, Hw.
Qed.
Lemma base_safe k E w : base k E w -> safe w.
Proof. by intros []. Qed.

(** Appending an event that is not of a saved item. *)
Lemma knows_with k e w : event_name e <> Some "item_saved" -> knows k w -> knows k (with_event e w).
Proof.
  intros Hn [H1 H2]. split.
  - intros key x Hx. rewrite events_with. destruct (H1 key x Hx) as (? & ? & ?). split; [set_solver|done].
  - intros x. rewrite events_with. intros [Hx| ->%list_elem_of_singleton]%elem_of_app; [auto|done].
Qed.
Lemma base_tick k E w : base k E w -> base k E (tick w).
Proof. by apply base_still. Qed.
Lemma triple_append k E e : event_name e <> Some "item_saved" ->
  triple (base k E) (pst_append uuid e) (fun _ => base k E) safe.
Proof.
  intros Hn w Hw. destruct (pst_append_cases e w) as [[x ->]|[[-> _]| ->]]; cbn.
  - by apply safe_tick, (base_safe k E).
  - by apply base_tick.
  - apply (base_tick k E) in Hw. destruct Hw as (H1 & H2 & H3). split; [by apply safe_with|]. split; [by apply knows_with|].
    rewrite events_with. set_solver.
Qed.
(** Other dictionaries of the loop do not matter. *)
Lemma base_other k k' E w : k_saved k' = k_saved k -> base k E w -> base k' E w.
Proof. intros Hk (H1 & [H2 H3] & H4). split; [done|]. split; [split; by rewrite Hk|done]. Qed.
Lemma triple_parse_failure k E key error :
  triple (base k E) (record_parse_failure env uuid k key error) (fun k' => base k' E) safe.
Proof.
  unfold record_parse_failure. destruct (dict_get key (k_parse_failed k)); [by apply triple_ret|].
  eapply triple_bnd; [apply triple_still; by intros w|]. intros ts. cbv beta zeta.
  eapply triple_bnd; [apply triple_still, still_allowed|]. intros ?.
  eapply triple_bnd; [apply triple_append; discriminate|]. intros ?. apply triple_ret. intros w. by apply base_other.
Qed.
Lemma pst_triple_oversize k E key size :
  triple (base k E) (record_oversize env uuid k key size) (fun k' => base k' E) safe.
Proof.
  unfold record_oversize. destruct (dict_get key (k_oversize k)); [by apply triple_ret|].
  eapply triple_bnd; [apply triple_still; by intros w|]. intros ts. cbv beta zeta.
  eapply triple_bnd; [apply triple_still, still_allowed|]. intros ?.
  eapply triple_bnd; [apply triple_append; discriminate|]. intros ?. apply triple_ret. intros w. by apply base_other.
Qed.

(** Saving: what was on the disk stays, and the new file is there. *)
Lemma save_safe n source date part w : safe w -> (forall raw, source = Some raw -> known (hexdigest raw)) ->
  let o := save_eml_from_file account date source (pe_fresh env n) part w in
  safe o.2 /\ pst_events uuid o.2 = pst_events uuid w
  /\ (forall s, o.1 = Ok s -> on_disk o.2 (eml_relative_path s) (eml_file_hash s)).
Proof.
  intros Hw Hk o. pose proof (same_logs_save account date source (pe_fresh env n) part w) as Hl.
  pose proof (wp_save_from_file account date source (pe_fresh env n) part w) as Hs. unfold same_logs in Hl.
  fold o in Hl, Hs. destruct source as [raw|].
  2:{ destruct Hs as (Ho & (Ec & Ew & _) & Hf). split; [|split; [unfold pst_events, log_of; by rewrite Hl|]].
      - eapply safe_same; [exact Hw|done|done|by left|]. left. unfold view. by rewrite Ew, Ec.
      - intros s Es. by rewrite Es in Ho. }
  specialize (Hk raw eq_refl). unfold wp in Hs. fold o in Hs. clearbody o. destruct o as [r w']. cbn [fst snd] in *.
  destruct Hs as ((Ec & Ew & _) & Hq & Hd & Ho).
  set (tmp := temporary_path (pe_fresh env n)) in *. set (dst := eml_path account date (hexdigest raw)) in *.
  assert (forall p h, on_disk w p h -> on_disk w' p h) as Hdisk.
  { intros p h (Hn & Hh & c & Hp & Ehc). split; [done|]. split; [done|].
    assert (p <> tmp) as Ht by (intros ->; by eapply temporary_not_named).
    destruct (decide (p = dst)) as [->|Hne]; [|rewrite Hq by done; by exists c].
    destruct Hd as [->| ->]; [by exists c|]. exists raw. split; [done|]. apply Hdistinct; [done|done|].
    rewrite <- Ehc. eapply named_same; [|rewrite Ehc; exact Hn]. apply eml_path_named. }
  split; [|split; [unfold pst_events, log_of; by rewrite Hl|]].
  - assert (log_of uuid w' = log_of uuid w) as El by (unfold log_of; by rewrite Hl).
    eapply safe_ext; [exact Hw|unfold pst_events; by rewrite El|done|by rewrite El|by left|left; unfold view; by rewrite Ew, Ec|].
    intros p c. rewrite Hq; [done|apply staged_not_temporary|].
    intros E. symmetry in E. revert E. apply below_eml_not_staged. apply eml_path_named.
  - intros s Es. destruct (Ho s Es) as (Eh & Hn & c & Hc & Ehc). rewrite Eh. split; [done|]. split; [done|]. by exists c.
Qed.

Lemma saved_event_new k e key path hash w p : knows k w -> dict_get key (k_saved k) = None ->
  saved_for key path hash e -> p ∈ pst_events uuid w -> event_key p = event_key e -> False.
Proof.
  intros [_ Hc] Hn (He & Hk & _) Hp Ek.
  assert (name_in ["item_saved"] p = true) as Hname.
  { rewrite (event_key_name _ p e Ek). unfold name_in, event_name in *. destruct (get "event" e) as [[]|]; try done.
    by injection He as ->. }
  assert (event_name p = Some "item_saved") as Hpn.
  { unfold name_in, event_name in *. destruct (get "event" p) as [[]|]; try done. apply mem_true in Hname.
    by apply list_elem_of_singleton in Hname as ->. }
  destruct (Hc p Hp Hpn) as (key' & Hk' & Hne). apply Hne. assert (key' = key) as ->; [|done].
  destruct (event_key_attrs p e Ek) as (_ & Hs & _).
  assert (name_in ITEM_EVENTS p = true) as Hi.
  { unfold name_in, event_name in *. destruct (get "event" p) as [[]|]; try done. injection Hpn as ->. done. }
  specialize (Hs Hi). unfold text_of, attr in *. destruct (get "source_item_key" p) as [[]|]; try done.
  destruct (get "source_item_key" e) as [[]|]; try done. cbn in Hs. congruence.
Qed.

Definition stored_as (k : PstStage.known) (E : list event) (key : string) (r : PstStage.known * (string * string * Z)) (w : World) : Prop :=
  base r.1 E w /\ exists e, e ∈ pst_events uuid w /\ saved_for key r.2.1.1 r.2.1.2 e.
Lemma pst_triple_store k E i file date : (exists rel, file = staged uuid rel) ->
  triple (base k E) (store_item env uuid account k i file date) (stored_as k E (it_source_item_key i)) safe.
Proof.
  intros [rel ->]. unfold store_item. destruct (dict_get (it_source_item_key i) (k_saved k)) as [e|] eqn:Ek.
  - assert (forall w, base k E w -> exists path hash, saved_for (it_source_item_key i) path hash e /\ e ∈ pst_events uuid w) as He.
    { intros w (Hs & [Hk _] & _). destruct (Hk _ _ Ek) as (Hin & Hn & Ht).
      destruct (sf_events _ Hs e Hin Hn) as (key & path & hash & (? & Ht' & ? & ?) & _).
      exists path, hash. split; [|done]. by split. }
    destruct (get "size_bytes" e) as [[]|]; try (apply triple_raise; intros w; apply base_safe).
    apply triple_ret. intros w Hw. split; [exact Hw|]. destruct (He w Hw) as (path & hash & (H1 & H2 & H3 & H4) & Hin).
    exists e. split; [done|]. cbn [fst snd]. rewrite H3, H4. by split.
  - eapply triple_bnd; [apply triple_still, still_allowed|]. intros ?.
    eapply triple_bnd with (Q := fun source w => base k E w /\ (forall raw, source = Some raw -> known (hexdigest raw))).
    { apply triple_gets. intros w Hw. split; [done|]. intros raw Hr. by apply (sf_staged w (base_safe _ _ _ Hw) rel). }
    intros source. eapply triple_bnd with (Q := fun fresh w =>
      (base k E w /\ (forall raw, source = Some raw -> known (hexdigest raw))) /\ exists n, fresh = pe_fresh env n).
    { apply triple_gets. intros w Hw. split; [done|]. by eexists. }
    intros fresh. apply triple_pure. intros [n ->]. apply triple_pure. intros Hk.
    eapply triple_bnd; [apply triple_still; by intros w|]. intros part. cbv beta.
    eapply triple_bnd with (Q := fun s w => base k E w /\ on_disk w (eml_relative_path s) (eml_file_hash s)).
    { intros w (Hs & Hkn & HE). pose proof (save_safe n source date part w Hs Hk) as H. cbv zeta in H. unfold post.
      destruct (save_eml_from_file account date source (pe_fresh env n) part w) as [[s|e] w']; cbn [fst snd] in H; [|apply H].
      destruct H as (H1 & H2 & H3). split; [|by apply H3]. split; [done|]. split; [|by rewrite H2].
      destruct Hkn as [K1 K2]. split; by rewrite H2. }
    intros s. eapply triple_bnd with (Q := fun _ w => base k E w /\ on_disk w (eml_relative_path s) (eml_file_hash s)).
    { apply triple_lift; [done|]. intros w [Hw _]. by eapply base_safe. }
    intros ?. eapply triple_bnd with (Q := fun _ w => base k E w /\ on_disk w (eml_relative_path s) (eml_file_hash s)).
    { by apply triple_gets. }
    intros ts. cbv beta zeta.
    set (e := item_event uuid "item_saved" ts _).
    assert (saved_for (it_source_item_key i) (eml_relative_path s) (eml_file_hash s) e) as He by done.
    clearbody e.
    eapply triple_bnd with (Q := fun _ w => base k E w /\ on_disk w (eml_relative_path s) (eml_file_hash s)).
    { intros w Hw. unfold ensure_write_allowed. case_match; [exact Hw|]. by eapply base_safe, Hw. }
    intros ?. eapply triple_bnd with (Q := fun _ w =>
      base (PstStage.Known (dict_set (it_source_item_key i) e (k_saved k)) (k_parse_failed k) (k_oversize k)) E w
      /\ e ∈ pst_events uuid w).
    { intros w [(Hs & Hkn & HE) Hd]. destruct (pst_append_cases e w) as [[x ->]|[[-> (p & Hp & Hpk)]| ->]]; cbn.
      - by apply safe_tick.
      - exfalso. by eapply saved_event_new.
      - rewrite events_with. split; [|set_solver]. split; [|split].
        + apply safe_with; [by apply safe_tick|]. intros _. exists (it_source_item_key i), (eml_relative_path s), (eml_file_hash s).
          split; [done|]. split; [done|]. intros e' He' Hn' Hk'. destruct Hkn as [_ K2].
          destruct (K2 e' He' Hn') as (key & Ht & Hne). congruence.
        + destruct Hkn as [K1 K2]. split; rewrite events_with; cbn [k_saved].
          * intros key x. destruct (decide (key = it_source_item_key i)) as [->|Hne].
            -- rewrite dict_get_set_eq. intros [= <-]. destruct He as (? & ? & _). split; [set_solver|done].
            -- rewrite dict_get_set_ne by done. intros Hx. destruct (K1 key x Hx) as (? & ? & ?). split; [set_solver|done].
          * intros x [Hx| ->%list_elem_of_singleton]%elem_of_app Hn.
            -- destruct (K2 x Hx Hn) as (key & Ht & Hne). exists key. split; [done|].
               destruct (decide (key = it_source_item_key i)) as [->|Hne']; [by rewrite dict_get_set_eq|by rewrite dict_get_set_ne].
            -- destruct He as (_ & Ht & _). exists (it_source_item_key i). split; [done|]. by rewrite dict_get_set_eq.
        + rewrite events_with. set_solver. }
    intros ?. apply triple_ret. intros w [Hw Hin]. split; [exact Hw|]. by exists e.
Qed.

(** *** One item, and a batch *)

(** What the first loop prepared, and the event it is about. *)
Definition prepared_of (e : event) (p : prepared) : Prop := exists path hash,
  saved_for (it_source_item_key (pr_item p)) path hash e
  /\ it_final_relative_path (pr_item p) = Some path
  /\ mr_columns (pr_message p) = PST_COLUMNS
  /\ account_id (mr_row (pr_message p)) = account
  /\ source_item_key (mr_row (pr_message p)) = it_source_item_key (pr_item p)
  /\ relative_path (mr_row (pr_message p)) = Some path /\ file_hash (mr_row (pr_message p)) = Some hash.
Lemma resolve_triple k E rel : triple (base k E) (resolve_staging_item env uuid rel)
  (fun file w => base k E w /\ exists r, file = staged uuid r) safe.
Proof.
  intros w Hw. pose proof (still_resolve rel w) as Hs. pose proof (resolve_staged rel) as Hr. unfold post.
  destruct (resolve_staging_item env uuid rel w) as [[file|e] w'] eqn:E0; cbn [snd] in Hs.
  - split; [by eapply base_still|]. by eapply Hr.
  - by eapply still_safe, base_safe.
Qed.
Lemma still_triple {A} (P : World -> Prop) (m : M World A) : (forall w w', still w w' -> P w -> P w') ->
  (forall w, P w -> safe w) -> preserves still m -> triple P m (fun _ => P) safe.
Proof.
  intros HP Hs Hm w Hw. specialize (Hm w). unfold post. destruct (m w) as [[a|e] w']; cbn [snd] in Hm.
  - by eapply HP.
  - by eapply still_safe, Hs.
Qed.
(** The event of the item survives the other two records of the loop. *)
Lemma with_saved {A} k E e (m : M World A) Q :
  triple (base k (e :: E)) m (fun a => base (Q a) (e :: E)) safe ->
  triple (fun w => base k E w /\ e ∈ pst_events uuid w) m (fun a w => base (Q a) E w /\ e ∈ pst_events uuid w) safe.
Proof.
  intros H. eapply triple_conseq; [exact H| | |done].
  - intros w [(? & ? & HE) Hin]. split; [done|]. split; [done|]. set_solver.
  - intros a w (? & ? & HE). split; [|set_solver]. split; [done|]. split; [done|]. set_solver.
Qed.
Lemma triple_exists {A X} (P : X -> World -> Prop) (m : M World A) Q (E : World -> Prop) :
  (forall x, triple (P x) m Q E) -> triple (fun w => exists x, P x w) m Q E.
Proof. intros H w [x Hx]. by apply (H x). Qed.

Lemma triple_prepare_item k E i :
  triple (base k E) (prepare_item env uuid account k i)
    (fun r w => base r.1 E w /\ exists e, e ∈ pst_events uuid w /\ prepared_of e r.2) safe.
Proof.
  unfold prepare_item. eapply triple_bnd; [apply triple_still, still_token|]. intros ?. cbv beta zeta.
  eapply triple_bnd; [apply resolve_triple|]. intros file. apply triple_pure. intros Hfile.
  eapply triple_bnd; [apply triple_still, preserves_lift, _|]. intros size.
  eapply triple_bnd; [apply triple_still, still_staged_message|]. intros p.
  eapply triple_bnd; [by apply pst_triple_store|]. intros [k1 [[path hash] bytes]].
  apply triple_conseq with (P' := fun w => exists e, (base k1 E w /\ e ∈ pst_events uuid w)
      /\ saved_for (it_source_item_key i) path hash e) (E' := safe)
    (Q' := fun r w => base r.1 E w /\ exists e, e ∈ pst_events uuid w /\ prepared_of e r.2); [| |done..].
  2:{ intros w [Hb (e & Hin & He)]. by exists e. }
  apply triple_exists. intros e. apply triple_pure. intros He.
  eapply triple_bnd; [apply with_saved with (Q := fun k => k)|].
  { case_match; [apply triple_parse_failure|by apply triple_ret]. }
  intros k2. eapply triple_bnd; [apply with_saved with (Q := fun k => k)|].
  { case_match; [apply pst_triple_oversize|by apply triple_ret]. }
  intros k3. unfold stage_b_message. apply triple_ret. intros w [Hb Hin]. split; [exact Hb|].
  exists e. split; [done|]. by exists path, hash.
Qed.
Lemma triple_prepare_items l : forall k E,
  triple (base k E) (prepare_items env uuid account k l)
    (fun r w => base r.1 E w /\ Forall (fun p => exists e, e ∈ pst_events uuid w /\ prepared_of e p) r.2) safe.
Proof.
  induction l as [|i l IH]; intros k E; cbn [prepare_items]; [by apply triple_ret|].
  eapply triple_bnd; [apply triple_prepare_item|]. intros [k1 p]. cbn [fst snd].
  apply triple_conseq with (P' := fun w => exists e, (base k1 (e :: E) w /\ prepared_of e p)) (E' := safe)
    (Q' := fun r w => base r.1 E w /\ Forall (fun p => exists e, e ∈ pst_events uuid w /\ prepared_of e p) r.2); [| |done..].
  2:{ intros w [(? & ? & ?) (e & Hin & He)]. exists e. split; [|done]. split; [done|]. split; [done|]. set_solver. }
  apply triple_exists. intros e. apply triple_pure. intros He.
  eapply triple_bnd; [apply IH|]. intros [k2 ps]. cbn [fst snd]. apply triple_ret. cbn [fst snd].
  intros w [(? & ? & HE) Hps]. split; [split; [done|]; split; [done|]; set_solver|]. constructor; [|done].
  exists e. set_solver.
Qed.

(** What the message of a prepared item does to the rows. *)
Definition row_of (r : message_in) (m : message) : Prop :=
  account_id m = account_id (mr_row r) /\ source_item_key m = source_item_key (mr_row r)
  /\ relative_path m = relative_path (mr_row r) /\ file_hash m = file_hash (mr_row r).
Lemma pst_upsert_message_rows r d id d' : mr_columns r = (PST_COLUMNS ++ ["internal_date"])%list ->
  upsert_message r d = Ok (id, d') ->
  pst_items d' = pst_items d /\ (exists m, m ∈ messages d' /\ m_id m = id /\ row_of r m)
  /\ forall m, m ∈ messages d -> m ∈ messages d'
       \/ same_key (account_id (mr_row r)) (source_item_key (mr_row r)) m = true
          /\ exists m', m' ∈ messages d' /\ m_id m' = m_id m /\ row_of r m'.
Proof.
  intros Hc. unfold upsert_message. cbv zeta. rewrite Hc. intros (? & _ & H)%rbind_ok.
  assert (forall m, same_key (account_id (mr_row r)) (source_item_key (mr_row r)) m = true ->
    row_of r (set_columns (PST_COLUMNS ++ ["internal_date"]) (mr_row r) m)) as Hrow.
  { intros m [Ha _]%andb_true_iff. apply eqb_true_1 in Ha. by split. }
  destruct (List.find _ (messages d)) as [old|] eqn:Ef; injection H as <- <-; cbn [messages set_messages bump_message pst_items].
  - apply List.find_some in Ef as [Hin Hk]. apply list_elem_of_In in Hin. split; [done|].
    assert (forall m, m ∈ messages d -> same_key (account_id (mr_row r)) (source_item_key (mr_row r)) m = true ->
      set_columns (PST_COLUMNS ++ ["internal_date"]) (mr_row r) m ∈ update_where (same_key (account_id (mr_row r)) (source_item_key (mr_row r)))
        (set_columns (PST_COLUMNS ++ ["internal_date"]) (mr_row r)) (messages d)) as Hu.
    { intros m Hm Ek. unfold update_where. apply list_elem_of_fmap. exists m. by rewrite Ek. }
    split; [eexists; split; [by apply Hu|]; split; [done|by apply Hrow]|].
    intros m Hm. destruct (same_key _ _ m) eqn:Ek.
    + right. split; [done|]. eexists. split; [by apply Hu|]. split; [done|by apply Hrow].
    + left. unfold update_where. apply list_elem_of_fmap. exists m. by rewrite Ek.
  - split; [done|]. split; [|intros m Hm; left; apply elem_of_app; by left].
    eexists. split; [apply elem_of_app; right; by apply list_elem_of_singleton|]. split; [done|]. apply Hrow.
    unfold same_key. cbn. by rewrite !(proj2 (eqb_true _ _)).
Qed.
Lemma add_pst_message_rows nz r c d id d' : mr_columns r = PST_COLUMNS ->
  add_pst_message nz r c d = Ok (id, d') ->
  pst_items d' = pst_items d /\ (exists m, m ∈ messages d' /\ m_id m = id /\ row_of r m)
  /\ forall m, m ∈ messages d -> m ∈ messages d'
       \/ same_key (account_id (mr_row r)) (source_item_key (mr_row r)) m = true
          /\ exists m', m' ∈ messages d' /\ m_id m' = m_id m /\ row_of r m'.
Proof.
  intros Hc. unfold add_pst_message, add_message. intros (? & _ & ([id1 d1] & H1 & (d2 & H2 & [= <- <-])%rbind_ok)%rbind_ok)%rbind_ok.
  apply pst_upsert_message_rows in H1; [|unfold pst_row; cbn [mr_columns]; by rewrite Hc].
  assert (messages d2 = messages d1 /\ pst_items d2 = pst_items d1) as [Em Ei].
  { unfold upsert_membership in H2. apply rbind_ok in H2 as (? & _ & <-%Ok_inj). by case_match. }
  destruct c; cbn [messages pst_items replace_contents]; unfold replace_contents; cbn; rewrite Em, Ei; exact H1.
Qed.

Definition unique_saved (es : list event) : Prop := forall e1 e2 key p1 p2 h1 h2, e1 ∈ es -> e2 ∈ es ->
  saved_for key p1 h1 e1 -> saved_for key p2 h2 e2 -> p1 = p2 /\ h1 = h2.
Lemma items_after_message nz fid es d d' e p c id : unique_saved es -> e ∈ es -> prepared_of e p ->
  add_pst_message nz (with_folder fid (pr_message p)) c d = Ok (id, d') -> items_ok es d ->
  items_ok es d' /\ exists m, m ∈ messages d' /\ m_id m = id /\ row_of (pr_message p) m.
Proof.
  intros Hu He (path & hash & Hs & Hf & Hc & Ha & Hk & Hp & Hh) H Hd.
  apply add_pst_message_rows in H as (Ei & Hm & Hold); [|done]. cbn [with_folder mr_row mr_columns] in *.
  split; [|exact Hm]. intros i. rewrite Ei. intros Hi Hid Hsv.
  destruct (Hd i Hi Hid Hsv) as (p1 & h1 & e1 & m & Efin & He1 & Hs1 & Hin & Eid & Eacc & Ekey & Ep & Eh).
  destruct (Hold m Hin) as [Hin'|[[_ Ekk%eqb_true_1]%andb_true_iff (m' & Hin' & Eid' & Ra & Rk & Rp & Rh)]].
  - by exists p1, h1, e1, m.
  - rewrite Hk in Ekk. rewrite <- Ekey, Ekk in Hs1. destruct (Hu e e1 _ _ _ _ _ He He1 Hs Hs1) as [<- <-].
    exists path, hash, e1, m'. split; [done|]. split; [done|]. rewrite <- Ekey, Ekk. split; [done|]. split; [done|].
    rewrite Eid'. cbn [with_folder mr_row] in Ra, Rk, Rp, Rh. split_and!; congruence.
Qed.
Lemma items_after_item es d d' e p id : e ∈ es -> prepared_of e p ->
  (exists m, m ∈ messages d /\ m_id m = id /\ row_of (pr_message p) m) ->
  upsert_import_item (with_message_row (Some id) (pr_item p)) d = Ok d' -> items_ok es d -> items_ok es d'.
Proof.
  intros He (path & hash & Hs & Hf & _ & Ha & Hk & Hp & Hh) (m & Hm & Eid & Ra & Rk & Rp & Rh) H Hd.
  unfold upsert_import_item in H. apply rbind_ok in H as (? & _ & <-%Ok_inj).
  assert (item_ok es d (with_message_row (Some id) (pr_item p))) as Hnew.
  { intros _ _. exists path, hash, e, m. cbn. rewrite Ra, Rk, Rp, Rh, Eid. split_and!; try done. }
  intros i Hi Hid Hsv. assert (item_ok es d i) as Hok.
  { destruct (existsb _ _); cbn [pst_items set_items] in Hi.
    - apply elem_of_update_where in Hi as (j & Hj & ->). case_match; [exact Hnew|by apply Hd].
    - apply elem_of_app in Hi as [Hi| ->%list_elem_of_singleton]; [by apply Hd|exact Hnew]. }
  destruct (Hok Hid Hsv) as (p1 & h1 & e1 & m1 & R). exists p1, h1, e1, m1. by destruct (existsb _ _).
Qed.

(** The state between the sync of the events and the end of the batch. *)
Definition ready (k : PstStage.known) (E : list event) (w : World) : Prop :=
  safe w /\ knows k w /\ E ⊆ pl_synced (log_of uuid w).
Lemma ready_safe k E w : ready k E w -> safe w.
Proof. by intros []. Qed.
Lemma ready_ext k E w w' : pst_logs w' = pst_logs w -> safe w' -> ready k E w -> ready k E w'.
Proof.
  intros Hl Hs (_ & [H1 H2] & HE). unfold ready, log_of. rewrite Hl. split; [done|]. split; [|done].
  split; unfold pst_events, log_of; by rewrite Hl.
Qed.
Lemma ready_logs {A} k E (m : M World A) : keeps safe m -> preserves same_logs m ->
  triple (ready k E) m (fun _ => ready k E) safe.
Proof.
  intros Hk Hl w Hw. specialize (Hk w (ready_safe _ _ _ Hw)). specialize (Hl w). unfold post in *. unfold same_logs in Hl.
  destruct (m w) as [[a|e] w']; cbn [snd] in *; [|done]. by eapply ready_ext.
Qed.
Lemma same_logs_write {A} (f : Db -> result (A * Db)) : preserves same_logs (db_write f).
Proof. apply same_logs_io. intros w. by destruct (f (view w)) as [[a d]|e]; [unfold put_db; cbn; case_match|]. Qed.
Lemma same_logs_read {A} (f : Db -> A) : preserves same_logs (db_read f).
Proof. by apply same_logs_io. Qed.
Lemma safe_unique w : safe w -> unique_saved (pl_synced (log_of uuid w)).
Proof.
  intros H e1 e2 key p1 p2 h1 h2 H1 H2. apply (sf_one _ H); unfold pst_events; apply elem_of_app; by left.
Qed.
Lemma triple_db_write {A} k E (f : Db -> result (A * Db)) (P : Db -> Prop) (Q : A -> Db -> Prop) :
  (forall es d a d', unique_saved es -> E ⊆ es -> P d -> items_ok es d -> f d = Ok (a, d') -> items_ok es d' /\ Q a d') ->
  triple (fun w => ready k E w /\ P (view w)) (db_write f) (fun a w => ready k E w /\ Q a (view w)) safe.
Proof.
  intros H w [Hw HP]. unfold db_write, io, post. destruct (faults w (ticks w)); [by apply safe_tick, (ready_safe k E)|].
  change (view (tick w)) with (view w).
  destruct (f (view w)) as [[a d]|e] eqn:Ef; [|by apply safe_tick, (ready_safe k E)].
  destruct (H (pl_synced (log_of uuid w)) (view w) a d) as [Hd HQ]; try done.
  { apply safe_unique, Hw. } { apply Hw. } { apply Hw. }
  assert (view (put_db d (tick w)) = d) as Ev.
  { unfold put_db. destruct (working (tick w)) eqn:Ew; unfold view; cbn; [done|]. cbn in Ew. by rewrite Ew. }
  split; [|by rewrite Ev]. eapply ready_ext; [|apply safe_put; [done|by apply safe_tick, (ready_safe k E)]|exact Hw].
  unfold put_db. by case_match.
Qed.
Lemma triple_ingest_item k E e p : e ∈ E -> prepared_of e p ->
  triple (ready k E) (ingest_item env account p) (fun _ => ready k E) safe.
Proof.
  intros He Hp. unfold ingest_item. cbv zeta.
  eapply triple_bnd; [apply ready_logs; [apply keeps_folder|apply same_logs_write]|]. intros fid.
  eapply triple_bnd with (Q := fun id w => ready k E w /\ exists m, m ∈ messages (view w) /\ m_id m = id /\ row_of (pr_message p) m).
  { eapply triple_conseq; [apply (triple_db_write k E _ (fun _ => True)
      (fun id d => exists m, m ∈ messages d /\ m_id m = id /\ row_of (pr_message p) m))|by split|done|done].
    intros es d id d' Hu HE _ Hd H. eapply items_after_message; [done|by apply HE|done|done|done]. }
  intros id. unfold db_update'.
  eapply triple_conseq; [apply (triple_db_write k E _ (fun d => exists m, m ∈ messages d /\ m_id m = id /\ row_of (pr_message p) m) (fun _ _ => True))| |by intros ? ? []|done].
  - intros es d [] d' Hu HE Hm Hd (d1 & H & [= <-])%rbind_ok. split; [|done]. eapply items_after_item; [by apply HE|done|done|done|done].
  - done.
Qed.
Lemma triple_ingest_items k E ps : Forall (fun p => exists e, e ∈ E /\ prepared_of e p) ps ->
  triple (ready k E) (mfor ps (ingest_item env account)) (fun _ => ready k E) safe.
Proof.
  induction 1 as [|p ps (e & He & Hp) _ IH]; cbn [mfor]; [by apply triple_ret|].
  eapply triple_bnd; [by eapply triple_ingest_item|]. intros ?. exact IH.
Qed.

Lemma triple_batch k E ps : Forall (fun p => exists e, e ∈ E /\ prepared_of e p) ps ->
  triple (ready k E) (ingest_batch env import_id uuid account ps) (fun _ => ready k E) safe.
Proof.
  intros Hps. unfold ingest_batch, in_transaction.
  eapply triple_bnd; [apply ready_logs; [apply keeps_begin|apply same_logs_io; intros w; by case_match]|]. intros ?.
  eapply triple_try with (E' := safe).
  2:{ intros e. eapply triple_bnd; [apply keeps_rollback|]. intros ?. by apply triple_throw. }
  eapply triple_bnd; [by apply triple_ingest_items|]. intros ?.
  eapply triple_bnd; [apply ready_logs; [apply keeps_read|apply same_logs_read]|]. intros l. cbv beta zeta.
  eapply triple_bnd; [apply ready_logs; [apply keeps_status|apply same_logs_write]|]. intros ?.
  apply ready_logs; [apply keeps_commit|apply same_logs_io; intros w; cbn; by case_match].
Qed.

(** ** The loop *)

Lemma base_logs {A} k (m : M World A) : keeps safe m -> preserves same_logs m ->
  triple (base k []) m (fun _ => base k []) safe.
Proof.
  intros Hk Hl w Hw. specialize (Hk w (base_safe _ _ _ Hw)). specialize (Hl w). unfold post in *. unfold same_logs in Hl.
  destruct (m w) as [[a|e] w']; cbn [snd] in *; [|done]. destruct Hw as (_ & [H1 H2] & HE).
  split; [done|]. split; [|set_solver]. split; unfold pst_events, log_of; by rewrite Hl.
Qed.
Lemma triple_run_batch k l : triple (base k []) (run_batch env import_id uuid account k l)
  (fun k' => base k' []) safe.
Proof.
  unfold run_batch. eapply triple_bnd; [apply triple_still, still_token|]. intros ?.
  eapply triple_bnd; [apply triple_prepare_items|]. intros [k1 ps]. cbn [fst snd].
  eapply triple_bnd; [apply still_triple; [|by intros w [Hw _]; eapply base_safe|apply still_allowed]|].
  { intros w w' Hs [Hw Hp]. split; [by eapply base_still|]. by rewrite (still_events w w'). }
  intros ?. cbn beta.
  eapply triple_bnd with (Q := fun _ w => exists E, ready k1 E w /\ Forall (fun p => exists e, e ∈ E /\ prepared_of e p) ps).
  { intros w [(Hs & [H1 H2] & _) Hp]. unfold pst_sync, io, post. destruct (faults w (ticks w)); [by apply safe_tick|].
    exists (pst_events uuid w). split; [|done]. destruct (events_after_sync (tick w)) as [E1 E2].
    change (ready k1 (pst_events uuid w) (after_sync (tick w))). unfold ready. rewrite E2. split; [by apply safe_after_sync, safe_tick|]. split; [split; rewrite E1; [exact H1|exact H2]|]. done. }
  intros ?. apply triple_exists. intros E. apply triple_pure. intros Hp.
  eapply triple_bnd; [by apply triple_batch|]. intros ?. apply triple_ret. intros w (? & ? & _). split; [done|]. split; [done|]. set_solver.
Qed.
Lemma keeps_run_batches l : forall k, triple (base k []) (run_batches env import_id uuid account k l) (fun _ => safe) safe.
Proof.
  induction l as [|b l IH]; intros k; cbn [run_batches]; [apply triple_ret; by intros w []|].
  eapply triple_bnd; [apply triple_run_batch|]. intros k'. apply IH.
Qed.

(** The staging directory is not where the messages are. *)
Lemma keeps_remove_staged rel : keeps safe (remove_file (staged uuid rel)).
Proof.
  apply keeps_io. intros w Hw. cbn.
  assert (forall q, q <> staged uuid rel -> read_file q (set_fs (dict_pop (staged uuid rel) (fs w)) w) = read_file q w) as Hr.
  { intros q Hq. unfold read_file. cbn [fs set_fs]. by rewrite dict_get_pop, Prelude.eqb_neq. }
  eapply safe_ext; [exact Hw|done| |done|by left|by left|].
  - intros p h (Hn & Hk & c & Hp & Hh). split; [done|]. split; [done|]. exists c. rewrite Hr; [done|].
    apply below_eml_not_staged, Hn.
  - intros p c. unfold read_file. cbn [fs set_fs]. rewrite dict_get_pop. by destruct (_ == _).
Qed.
Lemma keeps_or_detached {A} (m : M World A) : keeps safe m -> keeps safe (or_detached m).
Proof. intros H. apply keeps_try; [done|]. intros e. apply keeps_if; [apply keeps_raise|apply keeps_throw]. Qed.
Lemma keeps_allowed : keeps safe (ensure_write_allowed env).
Proof. apply keeps_pure. intros w. unfold ensure_write_allowed. by case_match. Qed.
Lemma keeps_discard : keeps safe (discard_staging env uuid).
Proof.
  apply keeps_bnd; [apply keeps_allowed|]. intros ?. apply keeps_bnd; [apply keeps_io, keeps_gets|]. intros l.
  apply keeps_or_detached, keeps_try; [apply keeps_for; intros; apply keeps_remove_staged|].
  intros e. apply keeps_if; [apply keeps_ret|apply keeps_throw].
Qed.
Lemma keeps_finish n : keeps safe (finish_stage_b env import_id uuid n).
Proof.
  unfold finish_stage_b. apply keeps_bnd; [apply keeps_read|]. intros l. cbv beta zeta.
  repeat (apply keeps_bnd; [first [apply keeps_allowed|apply keeps_gets|apply keeps_status|apply keeps_when, keeps_discard]|intros ?; cbv beta]).
  apply keeps_ret.
Qed.
Lemma keeps_failure {A} e : keeps safe (stage_b_failure (A := A) env import_id uuid e).
Proof.
  unfold stage_b_failure. apply keeps_bnd; [|intros; apply keeps_throw].
  repeat apply keeps_if; try apply keeps_ret; apply keeps_bnd; auto using keeps_allowed; intros; apply keeps_status.
Qed.

Lemma event_by_item_spec name es : forall d,
  let r := fold_left (fun d e => match event_name e == Some name, text_of "source_item_key" e with
                                 | true, Some k => dict_set k e d
                                 | _, _ => d end) es d in
  (forall key e, dict_get key r = Some e ->
     dict_get key d = Some e \/ e ∈ es /\ event_name e = Some name /\ text_of "source_item_key" e = Some key)
  /\ (forall key, dict_get key d <> None -> dict_get key r <> None)
  /\ (forall e key, e ∈ es -> event_name e = Some name -> text_of "source_item_key" e = Some key -> dict_get key r <> None).
Proof.
  induction es as [|x es IH]; intros d; cbn [fold_left]; [split; [by left|split; [done|set_solver]]|].
  match goal with |- context [fold_left _ es ?d1] => destruct (IH d1) as (I1 & I2 & I3); set (r := fold_left _ es d1) in * end.
  destruct (event_name x == Some name) eqn:En; [|split; [|split; [done|]]].
  2:{ intros key e He. destruct (I1 key e He) as [?|(? & ? & ?)]; [by left|]. right. set_solver. }
  2:{ intros e key [->|He]%elem_of_cons Hn Ht; [|by eapply I3]. by rewrite Hn, Prelude.eqb_refl in En. }
  apply eqb_true_1 in En. destruct (text_of "source_item_key" x) as [k|] eqn:Et.
  - split; [|split].
    + intros key e He. destruct (I1 key e He) as [Hk|(? & ? & ?)]; [|right; set_solver].
      destruct (decide (key = k)) as [->|Hne].
      * rewrite dict_get_set_eq in Hk. injection Hk as <-. right. set_solver.
      * rewrite dict_get_set_ne in Hk by done. by left.
    + intros key Hk. apply I2. destruct (decide (key = k)) as [->|Hne]; [by rewrite dict_get_set_eq|by rewrite dict_get_set_ne].
    + intros e key [->|He]%elem_of_cons Hn Ht; [|by eapply I3]. apply I2. assert (key = k) as -> by congruence.
      by rewrite dict_get_set_eq.
  - split; [|split; [done|]].
    + intros key e He. destruct (I1 key e He) as [?|(? & ? & ?)]; [by left|]. right. set_solver.
    + intros e key [->|He]%elem_of_cons Hn Ht; [congruence|by eapply I3].
Qed.
Lemma knows_events w : safe w ->
  knows (PstStage.Known (event_by_item "item_saved" (pst_events uuid w)) (event_by_item "item_parse_failed" (pst_events uuid w))
    (event_by_item "item_oversize" (pst_events uuid w))) w.
Proof.
  intros Hw. destruct (event_by_item_spec "item_saved" (pst_events uuid w) []) as (H1 & _ & H3). split; cbn [k_saved].
  - intros key e He. by destruct (H1 key e He) as [|].
  - intros e Hin Hn. destruct (sf_events _ Hw e Hin Hn) as (key & path & hash & (_ & Ht & _) & _).
    exists key. split; [done|]. by eapply H3.
Qed.
Lemma keeps_read_marker : keeps safe (read_stage_a_marker uuid).
Proof.
  unfold read_stage_a_marker, read_marker. apply keeps_bnd; [|intros; apply keeps_lift].
  apply keeps_try; [apply keeps_bnd; [apply keeps_io, keeps_gets|intros; apply keeps_lift]|].
  intros e. apply keeps_if; [apply keeps_lift|apply keeps_throw].
Qed.

Lemma keeps_stage_b size : keeps safe (run_stage_b env import_id uuid account size).
Proof.
  unfold run_stage_b. apply keeps_bnd; [apply keeps_lift|]. intros ?.
  apply keeps_bnd; [apply keeps_read_marker|]. intros marker. apply keeps_bnd; [apply keeps_lift|]. intros ?.
  apply keeps_bnd; [apply keeps_read|]. intros items.
  eapply triple_bnd with (Q := fun es => base (PstStage.Known (event_by_item "item_saved" es)
    (event_by_item "item_parse_failed" es) (event_by_item "item_oversize" es)) []).
  { apply triple_gets. intros w Hw. split; [done|]. split; [by apply knows_events|]. set_solver. }
  intros es. cbv beta zeta.
  eapply triple_bnd; [apply triple_still, still_allowed|]. intros ?.
  eapply triple_bnd; [apply base_logs; [apply keeps_status|apply same_logs_write]|]. intros ?.
  eapply triple_try; [|intros e; apply keeps_failure].
  eapply triple_bnd; [apply keeps_run_batches|]. intros ?. apply keeps_finish.
Qed.
End Safe.

(** C14. A stage B run, whatever operations fail or are cancelled and wherever it stops, keeps the
    import durable, and an interrupted one can be resumed from where it stopped: an item of the
    import that the committed database calls saved has exactly the file its synced [item_saved]
    event names, with the hash the event records, and its message is registered with that file. *)
Theorem stage_b_durable env import_id uuid account (known : string -> Prop) size w :
  (forall h1 h2, known h1 -> known h2 -> file_name_of h1 = file_name_of h2 -> h1 = h2) ->
  (forall n, has_slash (pe_fresh env n) = false) ->
  safe import_id uuid account known w ->
  let w' := (run_stage_b env import_id uuid account size w).2 in
  safe import_id uuid account known w'
  /\ forall i, i ∈ pst_items (committed w') -> it_import_id i = import_id -> is_saved i = true ->
       exists path hash e c m,
         it_final_relative_path i = Some path /\ e ∈ pl_synced (log_of uuid w')
         /\ saved_for (it_source_item_key i) path hash e
         /\ read_file path w' = Some c /\ hexdigest c = hash
         /\ m ∈ messages (committed w') /\ it_message_row_id i = Some (m_id m) /\ account_id m = account
         /\ source_item_key m = it_source_item_key i /\ relative_path m = Some path /\ file_hash m = Some hash.
Proof.
  intros Hd Hf Hw w'. assert (safe import_id uuid account known w') as Hs.
  { pose proof (keeps_stage_b env import_id uuid account known Hd Hf size w Hw) as H. unfold post in H. subst w'.
    by destruct (run_stage_b _ _ _ _ _ w) as [[a|e] w1]. }
  split; [exact Hs|]. intros i Hi Hid Hsv.
  destruct (sf_committed _ _ _ _ _ Hs i Hi Hid Hsv) as (path & hash & e & m & Ep & He & Hse & Hm & Hr & Ha & Hk' & Hp & Hh).
  destruct (sf_events _ _ _ _ _ Hs e) as (key & path' & hash' & (_ & _ & Ep' & Eh') & (_ & _ & c & Hc & Ehc)).
  { unfold pst_events. apply elem_of_app. by left. }
  { apply Hse. }
  destruct Hse as (Hn & Hk & Ep2 & Eh2). exists path, hash, e, c, m.
  assert (path' = path) as -> by congruence. assert (hash' = hash) as -> by congruence.
  by split_and!.
Qed.

(** A generation of which nothing is saved yet is safe. *)
Definition no_saved_event (e : event) : bool := negb (event_name e == Some "item_saved").
Definition nothing_saved (import_id : Z) (uuid : string) (w : World) : bool :=
  forallb no_saved_event (pst_events uuid w)
  && forallb (fun i => negb (it_import_id i =? import_id)%Z || negb (is_saved i)) (pst_items (committed w) ++ pst_items (view w)).
Definition hashes (w : World) (h : string) : Prop := h ∈ map (fun pc => hexdigest pc.2) (fs w).
Lemma nothing_saved_safe import_id uuid account w : nothing_saved import_id uuid w = true ->
  safe import_id uuid account (hashes w) w.
Proof.
  intros [H1 H2]%andb_true_iff. rewrite forallb_true in H1. rewrite forallb_true in H2.
  assert (forall e, e ∈ pst_events uuid w -> event_name e = Some "item_saved" -> False) as He.
  { intros e Hin Hn. specialize (H1 e Hin). unfold no_saved_event in H1. by rewrite Hn in H1. }
  assert (forall i, i ∈ (pst_items (committed w) ++ pst_items (view w))%list -> it_import_id i = import_id ->
    is_saved i = true -> False) as Hi.
  { intros i Hin Hid Hs. specialize (H2 i Hin). by rewrite Hid, Z.eqb_refl, Hs in H2. }
  split.
  - intros e Hin Hn. by destruct (He e).
  - intros e1 e2 key p1 p2 h1 h2 H _ (Hn & _). by destruct (He e1).
  - intros i Hin Hid Hs. destruct (Hi i); set_solver.
  - intros i Hin Hid Hs. destruct (Hi i); set_solver.
  - intros rel c Hr. unfold hashes. apply list_elem_of_fmap. exists (staged uuid rel, c). split; [done|].
    by apply dict_get_In.
Qed.

(** The two messages of the sample, after stage A. *)
Definition all_pairs {A} (f : A -> A -> bool) (l : list A) : bool := forallb (fun x => forallb (f x) l) l.
Lemma distinct_hashes w :
  all_pairs (fun h1 h2 => (file_name_of h1 != file_name_of h2) || (h1 == h2)) (map (fun pc => hexdigest pc.2) (fs w)) = true ->
  forall h1 h2, hashes w h1 -> hashes w h2 -> file_name_of h1 = file_name_of h2 -> h1 = h2.
Proof.
  unfold all_pairs, hashes. intros H h1 h2 H1 H2 E. rewrite forallb_true in H. specialize (H h1 H1).
  rewrite forallb_true in H. specialize (H h2 H2). rewrite E, Prelude.eqb_refl in H. by apply eqb_true_1.
Qed.
Lemma stage_b_durable_witness :
  let w' := (run_stage_b sample_env 1 sample_uuid "pst_a" 100 after_stage_a).2 in
  length (List.filter is_saved (pst_items (committed w'))) = 2
  /\ forall i, i ∈ pst_items (committed w') -> it_import_id i = 1%Z -> is_saved i = true ->
       exists path c, it_final_relative_path i = Some path /\ read_file path w' = Some c.
Proof.
  split; [vm_compute; reflexivity|].
  destruct (stage_b_durable sample_env 1 sample_uuid "pst_a" (hashes after_stage_a) 100 after_stage_a) as [_ H].
  - apply distinct_hashes. vm_compute. reflexivity.
  - intros n. reflexivity.
  - apply nothing_saved_safe. vm_compute. reflexivity.
  - intros i Hi Hid Hs. destruct (H i Hi Hid Hs) as (path & hash & e & c & m & Hp & _ & _ & Hc & _).
    exists path, c. exact (conj Hp Hc).
Defined.
Close Scope string_scope.
