(* ===== verification/Trash.v ===== *)
(** * Trash: local trash and durable purge

    [usecases/trash.py]: moving to and from the trash, the purge of trashed messages with its
    intent and completion events, and the recovery of interrupted purges. A purge writes to the
    manifest of an IMAP account or of a PST generation, which the class [PurgeLog] states what it
    needs of; [now] is the clock, [root] the storage root paths are resolved below. *)

From S2P Require Import Prelude Errors PyText PyTime StorageState Identity Json Manifest Database World EmlStorage.
From S2P Require PstManifest PstStage PstSafe.

Open Scope string_scope.

(** ** Results *)

Record TrashResult := MkTrashResult {
  trashed_ids : list Z; restored_ids : list Z; skipped_ids : list Z }.
Record PurgeResult := MkPurgeResult {
  purged_ids : list Z; p_skipped_ids : list Z; physically_deleted_paths : list string;
  shared_paths : list string; total_size_bytes : Z }.

(** [_timestamp] *)
Definition timestamp (now : datetime) : string := isoformat now.

(** ** Trash and restore *)

Fixpoint move_to_trash_loop (trashed : string) (ids : list Z) (acc : TrashResult)
    : M World TrashResult :=
  match ids with
  | [] => mret acc
  | id :: ids =>
      let! record := db_read (get_message id) in
      match record with
      | None => move_to_trash_loop trashed ids
                  (MkTrashResult (trashed_ids acc) (restored_ids acc) (skipped_ids acc ++ [id]))
      | Some r =>
          match m_local_state (s_message r) with
          | Purged => move_to_trash_loop trashed ids
                        (MkTrashResult (trashed_ids acc) (restored_ids acc) (skipped_ids acc ++ [id]))
          | Trashed => move_to_trash_loop trashed ids acc
          | Active =>
              db_update (set_local_state id Trashed (Some trashed)) ;!
              move_to_trash_loop trashed ids
                (MkTrashResult (trashed_ids acc ++ [id]) (restored_ids acc) (skipped_ids acc))
          end
      end
  end.
Definition move_to_trash (ids : list Z) (now : datetime) : M World TrashResult :=
  move_to_trash_loop (timestamp now) ids (MkTrashResult [] [] []).

Fixpoint restore_loop (ids : list Z) (acc : TrashResult) : M World TrashResult :=
  match ids with
  | [] => mret acc
  | id :: ids =>
      let! record := db_read (get_message id) in
      match record with
      | Some r =>
          if m_local_state (s_message r) == Trashed then
            db_update (set_local_state id Active None) ;!
            restore_loop ids (MkTrashResult (trashed_ids acc) (restored_ids acc ++ [id]) (skipped_ids acc))
          else restore_loop ids
                 (MkTrashResult (trashed_ids acc) (restored_ids acc) (skipped_ids acc ++ [id]))
      | None => restore_loop ids
                  (MkTrashResult (trashed_ids acc) (restored_ids acc) (skipped_ids acc ++ [id]))
      end
  end.
Definition restore_from_trash (ids : list Z) : M World TrashResult :=
  restore_loop ids (MkTrashResult [] [] []).

(** [list_purge_candidates]; [cutoff] is [now - timedelta(days=grace_days)]. *)
Definition list_purge_candidates (cutoff : datetime) (grace_days : Z) : M World (list stored) :=
  mlift (check (0 <=? grace_days)%Z ValueError "grace_days must be non-negative") ;!
  db_read (list_trashed None (Some (isoformat cutoff))).

Definition list_startup_purge_candidates (mode : string) (cutoff : datetime) (grace_days : Z)
    : M World (list stored) :=
  if mode == "manual" then mret []
  else
    mlift (check (mem mode ["grace"; "immediate"]) ValueError "unsupported purge mode") ;!
    list_purge_candidates cutoff grace_days.

(** ** Purge *)

(** The manifest writer of a purge: [import_uuid] is an attribute of the PST writer only. *)
Record purge_manifest := PurgeManifest {
  import_uuid : option string;
  append : event -> M World unit;
  sync : M World unit;
}.
Definition imap_manifest : purge_manifest := PurgeManifest None man_append flush_and_sync.
Definition pst_manifest (uuid : string) : purge_manifest :=
  PurgeManifest (Some uuid) (PstStage.pst_append uuid) (PstStage.pst_sync uuid).

Definition purge_event (uuid : option string) (name : string) (m : message) (path hash : string)
    (ts : string) (shared_count : Z) (physical : bool) : event :=
  ([("event", JStr name); ("account_id", JStr (account_id m));
   ("source_item_key", JStr (source_item_key m)); ("relative_path", JStr path);
   ("file_hash", JStr hash); ("timestamp", JStr ts); ("shared_reference_count", JInt shared_count);
   ("physical_delete", JBool physical)]
   ++ match uuid with Some u => [("import_uuid", JStr u)] | None => [] end)%list.

Definition audit_entry (m : message) (ts : string) (physical : bool) : audit_in :=
  AuditIn (Some ts) (Some "local_purge") (Some (account_id m)) (Some (int_str (m_id m))) (subject m)
    (size_bytes m) (Some (if physical then "physical_delete=true" else "physical_delete=false")).

(** [audit.get("message_id") == message_id]: the column is text, the id an integer, and Python's
    [==] between a [str] (or [None]) and an [int] is false. *)
Definition text_equals_int (text : option string) (n : Z) : bool := false.

Definition audit_exists (m : message) : M World bool :=
  let! log := db_read (list_audit_log 2147483647 0) in
  let! log := mlift log in
  mret (existsb (fun a => (operation a == "local_purge") && text_equals_int (au_message_id a) (m_id m)
                          && (au_account_id a == Some (account_id m))) log).

Definition finish_purge_database (now : datetime) (m : message) (physical : bool) : M World unit :=
  let id := m_id m in
  begin_batch ;!
  db_update (delete_message_contents id) ;!
  db_update (update_message_storage id None None) ;!
  db_update (set_local_state id Purged None) ;!
  let! found := audit_exists m in
  mwhen (negb found) (db_update' (record_audit (audit_entry m (timestamp now) physical))) ;!
  commit_batch.

(** The rows, other than [m]'s, that refer to its path. *)
Definition references (uuid : option string) (m : message) (path : string) (d : Db) : Z :=
  match uuid with
  | Some uuid => count_generation_path_references (account_id m) uuid path (m_id m) d
  | None => count_path_references (account_id m) path (m_id m) d
  end.

Section Purging.
Context (root : list string) (manifest : purge_manifest).

(** [_complete_purge]: whether it completed, whether the file was deleted, the shared path. *)
Definition complete_purge (now : datetime) (m : message) (ts : string)
    (intended : option bool) (write_intent : bool) : M World (bool * bool * option string) :=
  match relative_path m, file_hash m with
  | Some path, Some hash =>
      if (path == "") || (hash == "") then mret (false, false, None) else
      let! count := db_read (references (import_uuid manifest) m path) in
      let physical := (count =? 0)%Z && get_or true intended in
      mwhen write_intent
        (append manifest (purge_event (import_uuid manifest) "purge_intent" m path hash ts count physical) ;!
         sync manifest) ;!
      let! present := if physical then exists_file root path else mret false in
      mwhen present (delete_file root path) ;!
      append manifest (purge_event (import_uuid manifest) "purged" m path hash ts count physical) ;!
      sync manifest ;!
      finish_purge_database now m physical ;!
      mret (true, present, if (count =? 0)%Z then None else Some path)
  | _, _ => mret (false, false, None)
  end.

(** [tuple(_records(repo, message_ids))] *)
Fixpoint records_of (ids : list Z) : M World (list message) :=
  match ids with
  | [] => mret []
  | id :: ids =>
      let! r := db_read (get_message id) in
      let! rest := records_of ids in
      mret (match r with Some r => s_message r :: rest | None => rest end)
  end.

Definition total_size (records : list message) : Z :=
  fold_right (fun m n => match size_bytes m with
                         | Some s => if (0 <=? s)%Z then (s + n)%Z else n
                         | None => n
                         end) 0%Z records.

Fixpoint purge_loop (now : datetime) (ts : string) (records : list message) (acc : PurgeResult)
    : M World PurgeResult :=
  match records with
  | [] => mret acc
  | m :: records =>
      let skip := MkPurgeResult (purged_ids acc) (p_skipped_ids acc ++ [m_id m])
                    (physically_deleted_paths acc) (shared_paths acc) (total_size_bytes acc) in
      if m_local_state m == Trashed then
        let! done := complete_purge now m ts None true in
        let '(completed, deleted, shared) := (done : bool * bool * option string) in
        if completed then
          purge_loop now ts records
            (MkPurgeResult (purged_ids acc ++ [m_id m]) (p_skipped_ids acc)
               (physically_deleted_paths acc
                ++ match relative_path m with Some p => if deleted then [p] else [] | None => [] end)
               (shared_paths acc ++ match shared with Some p => [p] | None => [] end)
               (total_size_bytes acc))
        else purge_loop now ts records skip
      else purge_loop now ts records skip
  end.

Definition purge {S} `{StorageGate S} (storage_state : S) (ids : list Z) (now : datetime)
    : M World PurgeResult :=
  mlift (check (write_allowed storage_state) StorageDetachedError
           "Local purge requires attached storage") ;!
  let! records := records_of ids in
  purge_loop now (timestamp now) records (MkPurgeResult [] [] [] [] (total_size records)).
End Purging.

(** ** Recovery

    [_writable_manifest] accepts the writer of an IMAP account only. *)

(** [(event.get("account_id"), event.get("source_item_key"))], when both are strings. *)
Definition event_key (e : event) : option (string * string) :=
  match text_of "account_id" e, text_of "source_item_key" e with
  | Some a, Some k => Some (a, k)
  | _, _ => None
  end.
Definition message_key (m : message) : string * string := (account_id m, source_item_key m).

(** [records_by_key.get(key)]: the last record of a key wins. *)
Definition record_for (key : option (string * string)) (records : list message) : option message :=
  match key with Some k => find_last (fun m => message_key m == k) records | None => None end.

Definition recover_intent (root : list string) (now : datetime) (records : list message) (intent : event) : M World unit :=
  if event_name intent != Some "purge_intent" then mret tt else
  match record_for (event_key intent) records with
  | None => mret tt
  | Some m =>
      match text_of "timestamp" intent, text_of "relative_path" intent, text_of "file_hash" intent with
      | Some ts, Some path, Some hash =>
          if mem (relative_path m) [None; Some path] && mem (file_hash m) [None; Some hash] then
            complete_purge root imap_manifest now (with_storage (Some path) (Some hash) m) ts
              (bool_of "physical_delete" intent) false ;!
            mret tt
          else mret tt
      | _, _, _ => mret tt
      end
  end.

(** [completed_events]: one entry per key, the last event of the key. *)
Definition completed_events (events : list event) : list (option (string * string) * event) :=
  fold_left (fun d e => dict_set (event_key e) e d)
    (List.filter (fun e => event_name e == Some "purged") events) [].

Definition recover_completed (now : datetime) (records : list message) (completed : event)
    : M World unit :=
  match record_for (event_key completed) records with
  | None => mret tt
  | Some m =>
      if m_local_state m == Purged then mret tt
      else match bool_of "physical_delete" completed with
           | Some physical => finish_purge_database now m physical
           | None => mret tt
           end
  end.

Definition recover_incomplete_purges {S} `{StorageGate S} (root : list string) (storage_state : S)
    (now : datetime) : M World unit :=
  mlift (check (write_allowed storage_state) StorageDetachedError
           "Recovering local purges requires attached storage") ;!
  let! stored := db_read (list_stored_messages None) in
  let records := map s_message stored in
  let! events := io (mgets synced) in
  let! intents := io (mgets (fun w => incomplete_intents (synced w))) in
  mfor intents (recover_intent root now records) ;!
  mfor (map snd (completed_events events)) (recover_completed now records).
Close Scope string_scope.

(** ** The interface of a manifest

    What a purge needs of the manifest it writes to: the events on disk and those waiting for the
    next sync; an appended intent is one of them afterwards, whether the writer adds it or finds it
    there; a sync puts the waiting events on disk, and none is ever taken away. *)

(** Everything but the manifests. *)
Definition same_storage (w w' : World) : Prop :=
  committed w' = committed w /\ working w' = working w /\ fs w' = fs w.
Definition same_manifests (w w' : World) : Prop :=
  synced w' = synced w /\ buffered w' = buffered w /\ pst_logs w' = pst_logs w.

(** The intent that covers the deletion of a file. *)
Definition intent_for (key path : string) (e : event) : Prop :=
  event_name e = Some "purge_intent"%string /\ text_of "source_item_key" e = Some key
  /\ text_of "relative_path" e = Some path.

Class PurgeLog (manifest : purge_manifest) := {
  durable : World -> list event;
  pending : World -> list event;
  log_frame w w' : same_manifests w w' -> durable w' = durable w /\ pending w' = pending w;
  append_law e w : wp (append manifest e) (fun r w' =>
    same_storage w w' /\ durable w' = durable w
    /\ (is_ok r = true -> forall key path, intent_for key path e ->
          exists e', e' ∈ durable w' ++ pending w' /\ intent_for key path e')) w;
  sync_law w : wp (sync manifest) (fun r w' =>
    same_storage w w' /\ durable w `prefix_of` durable w'
    /\ (is_ok r = true -> durable w' = durable w ++ pending w)) w;
}.

#[export] Instance imap_purge_log : PurgeLog imap_manifest.
Proof.
  refine {| durable := synced; pending := buffered |}.
  - by intros w w' (? & ? & ?).
  - intros e w. apply wp_man_append; cbv beta; [by intros x; split_and!|]. intros n _.
    split_and!; [done | done |]. intros _ key path Hi. exists e. split; [cbn; set_solver | done].
  - intros w. apply wp_io; cbv beta; [by intros x; split_and!|]. apply wp_modify.
    split_and!; try done. by eexists.
Defined.

Lemma pst_same_text f a b s : PstManifest.plain_value (PstManifest.attr f a)
    = PstManifest.plain_value (PstManifest.attr f b) ->
  text_of f a = Some s -> text_of f b = Some s.
Proof.
  unfold PstManifest.attr, text_of. intros H Ha. destruct (get f a) as [[]|]; try done.
  injection Ha as ->. destruct (get f b) as [[]|]; cbn in H; try discriminate H. congruence.
Qed.
(** An event the PST writer takes for the intent is the intent. *)
Lemma pst_same_intent key path a b : PstManifest.event_key a = PstManifest.event_key b ->
  intent_for key path a -> intent_for key path b.
Proof.
  intros Hk (Hn & Hs & Hp).
  pose proof (PstManifest.event_key_name (PstManifest.ITEM_EVENTS ++ ["purge_intent"; "purged"])%list%string a b Hk) as Hm.
  assert (name_in (PstManifest.ITEM_EVENTS ++ ["purge_intent"; "purged"])%list%string a = true) as Ha.
  { unfold name_in. unfold event_name in Hn. destruct (get _ a) as [[]|]; try done. by injection Hn as ->. }
  unfold PstManifest.event_key in Hk. rewrite <- Hm, Ha in Hk. cbn [map] in Hk.
  injection Hk as He Hi Hs' Hp' Hh. split_and!; by eapply pst_same_text.
Qed.

#[export] Instance pst_purge_log uuid : PurgeLog (pst_manifest uuid).
Proof.
  refine {| durable := fun w => pl_synced (PstStage.log_of uuid w);
            pending := fun w => pl_buffered (PstStage.log_of uuid w) |}.
  - intros w w' (_ & _ & H). unfold PstStage.log_of. by rewrite H.
  - intros e w. unfold wp. cbn [append pst_manifest].
    destruct (PstSafe.pst_append_cases uuid e w) as [[x ->]|[[-> (p & Hp & Hk)]| ->]]; cbn [fst snd].
    + by split_and!.
    + split_and!; [done | done |]. intros _ key path Hi. exists p. split; [done|].
      by eapply pst_same_intent.
    + rewrite PstSafe.synced_with. split_and!; [done | done |]. intros _ key path Hi. exists e. split; [|done].
      pose proof (PstSafe.events_with uuid e (tick w)) as H. unfold PstStage.pst_events in H.
      rewrite PstSafe.synced_with in H. rewrite H. set_solver.
  - intros w. cbn [sync pst_manifest]. unfold PstStage.pst_sync. apply wp_io; cbv beta; [by intros x; split_and!|].
    apply wp_modify. rewrite PstSafe.log_set_log. split_and!; try done. by eexists.
Defined.

(** ** What one purge does to the disk *)

Definition purge_row (m : message) : message := with_state Purged None (with_storage None None m).
Definition purged_messages (id : Z) (l : list message) : list message :=
  update_where (fun m => (m_id m =? id)%Z) purge_row l.

Lemma purge_updates id l :
  update_where (fun m => (m_id m =? id)%Z) (with_state Purged None)
    (update_where (fun m => (m_id m =? id)%Z) (with_storage None None) l) = purged_messages id l.
Proof.
  unfold update_where, purged_messages. rewrite map_map. apply map_ext. intros m.
  destruct (m_id m =? id)%Z eqn:E; cbn [m_id with_storage]; by rewrite E.
Qed.

(** The tables after the purge of a message. *)
Definition purged_db (id : Z) (d d' : Db) : Prop :=
  messages d' = purged_messages id (messages d) /\ pst_items d' = pst_items d /\ pst_imports d' = pst_imports d.

Lemma finish_purge_wp now m physical w : working w = None ->
  wp (finish_purge_database now m physical) (fun r w' =>
    same_files w w'
    /\ match r with
       | Ok _ => working w' = None /\ purged_db (m_id m) (committed w) (committed w')
       | Err _ => committed w' = committed w
       end) w.
Proof.
  intros Hw. unfold finish_purge_database, audit_exists. wp_step.
  apply (batch_begin w); [done | done |]. intros w1 H1. wp_step.
  apply (batch_update w _ _ _ _ H1); [by intros e w2 (? & ? & ?)|]. intros w2 H2. wp_step.
  apply (batch_update w _ _ _ _ H2); [by intros e w3 (? & ? & ?)|]. intros w3 H3. wp_step.
  apply (batch_update w _ _ _ _ H3); [by intros e w4 (? & ? & ?)|]. intros w4 H4. wp_step. wp_step.
  apply (batch_read w _ _ _ _ H4); [by intros e w5 (? & ? & ?)|]. intros w5 H5. wp_step. wp_step.
  destruct (list_audit_log 2147483647 0 _) as [log|x]; [|by destruct H5 as (? & ? & ?)].
  wp_step.
  assert (forall d5 w5, purged_db (m_id m) (committed w) d5 ->
    in_batch w d5 w5 -> wp commit_batch (fun r w' =>
    same_files w w'
    /\ match r with
       | Ok _ => working w' = None /\ purged_db (m_id m) (committed w) (committed w')
       | Err _ => committed w' = committed w
       end) w5) as Hcommit.
  { intros d5 w5' Hd H. apply (batch_commit w _ _ _ H); [by intros e w6 (? & ? & ?)|].
    intros w6 (? & -> & ?). done. }
  wp_step. wp_step.
  - apply (batch_update' w _ _ _ _ H5); [by intros e w6 (? & ? & ?)|]. intros d' w6 Hd H6.
    apply (Hcommit d'); [|done]. injection Hd as <-. split; [apply purge_updates | done].
  - eapply Hcommit; [|exact H5]. split; [apply purge_updates | done].
Qed.

Lemma finish_purge_pst_logs now m physical :
  preserves (fun w w' => pst_logs w' = pst_logs w) (finish_purge_database now m physical).
Proof.
  assert (forall {A} (m : M World A), (forall w, pst_logs (m w).2 = pst_logs w) ->
    forall w, pst_logs (io m w).2 = pst_logs w) as Hio.
  { intros A n Hn w. unfold io. destruct (faults w (ticks w)); [done|].
    by rewrite Hn. }
  assert (forall {A} (f : Db -> result (A * Db)), preserves (fun w w' => pst_logs w' = pst_logs w) (db_write f)) as Hwr.
  { intros A f w. apply Hio. intros w1. destruct (f _) as [[a d]|]; [|done]. unfold put_db. by destruct (working w1). }
  assert (PreOrder (fun w w' => pst_logs w' = pst_logs w)) as Hpre by (split; congruence).
  unfold finish_purge_database, audit_exists.
  repeat first [apply preserves_bnd; [done | |] | lazymatch goal with |- preserves _ _ => fail | |- _ => intros ? end
               | apply preserves_when; [done|] | apply preserves_ret; done
               | apply preserves_lift; done | apply Hwr].
  all: intros w; apply Hio; intros w1; try done; unfold mmodify; cbn; by destruct (working w1).
Qed.

(** What one [complete_purge] may have done, however it ended. *)
Section OnePurge.
Context (root : list string) (manifest : purge_manifest) `{!PurgeLog manifest}.

Record purge_step (m : message) (w w' : World) : Prop := PurgeStep {
  step_log : durable w `prefix_of` durable w';
  step_rows : committed w' = committed w \/ purged_db (m_id m) (committed w) (committed w');
  step_files : fs w' = fs w
    \/ exists path p, relative_path m = Some path /\ resolve_inside root path = Ok p
       /\ fs w' = dict_pop (join p) (fs w)
       /\ references (import_uuid manifest) m path (committed w) = 0%Z
       /\ exists e, e ∈ durable w' /\ intent_for (source_item_key m) path e;
}.

Lemma purge_step_same m w w' : same_manifests w w' -> fs w' = fs w -> committed w' = committed w -> purge_step m w w'.
Proof. intros [Hs _]%log_frame Hf Hc. split; [by rewrite Hs | by left | by left]. Qed.

(** Before the database batch: the rows are untouched. *)
Definition purging (m : message) (w w1 : World) : Prop :=
  working w1 = None /\ committed w1 = committed w /\ purge_step m w w1.

Lemma purging_tick m w w1 : purging m w w1 -> purging m w (tick w1).
Proof.
  intros (Hw & Hc & [Hl Hr Hf]). destruct (log_frame w1 (tick w1)) as [Hd _]; [done|].
  split_and!; [done | done |]. split; rewrite ?Hd; done.
Qed.

Lemma purging_append m w w1 e : purging m w w1 ->
  wp (append manifest e) (fun r w2 => purging m w w2 /\ fs w2 = fs w1 /\ durable w2 = durable w1
    /\ (is_ok r = true -> forall key path, intent_for key path e ->
          exists e', e' ∈ durable w2 ++ pending w2 /\ intent_for key path e')) w1.
Proof.
  intros (Hw & Hc & [Hl Hr Hf]). eapply wp_mono; [apply append_law|]. cbv beta.
  intros r w2 ((Hc2 & Hw2 & Hf2) & Hd & Hi). split_and!; [|done | done | done].
  split_and!; [congruence | congruence |]. split; by rewrite ?Hd, ?Hc2, ?Hf2.
Qed.

Lemma purging_sync m w w1 : purging m w w1 ->
  wp (sync manifest) (fun r w2 => purging m w w2
    /\ fs w2 = fs w1 /\ (is_ok r = true -> durable w2 = durable w1 ++ pending w1)) w1.
Proof.
  intros (Hw & Hc & [Hl Hr Hf]). eapply wp_mono; [apply sync_law|]. cbv beta.
  intros r w2 ((Hc2 & Hw2 & Hf2) & Hd & Hi). split_and!; [|done | done].
  split_and!; [congruence | congruence |]. split; [by etransitivity | by rewrite Hc2 |].
  rewrite Hf2. destruct Hf as [Hf|(path & p & ? & ? & ? & ? & e & He & Hin)]; [by left|]. right.
  exists path, p. split_and!; try done. exists e. split; [|done]. destruct Hd as [k ->]. set_solver.
Qed.

Lemma purging_finish now m w w1 physical : purging m w w1 ->
  wp (finish_purge_database now m physical) (fun r w2 => purge_step m w w2
    /\ (is_ok r = true -> working w2 = None)) w1.
Proof.
  intros (Hw & Hc & [Hl Hr Hf]). unfold wp.
  pose proof (finish_purge_wp now m physical w1 Hw) as [(Hf2 & Hs2 & Hb2) H].
  destruct (log_frame w1 (finish_purge_database now m physical w1).2) as [Hd _].
  { split_and!; [done | done | apply finish_purge_pst_logs]. }
  destruct (finish_purge_database now m physical w1) as [[[]|e] w2]; cbn in *.
  - destruct H as [Hw2 Hm]. split; [|done]. split; rewrite ?Hd, ?Hf2; try done. right. by rewrite <- Hc.
  - split; [|done]. split; rewrite ?Hd, ?Hf2; try done. left. by rewrite H.
Qed.

Lemma intent_for_purge_event uuid m path hash ts count physical :
  intent_for (source_item_key m) path (purge_event uuid "purge_intent" m path hash ts count physical).
Proof. by repeat split. Qed.

(** Writing the intent makes it durable. *)
Lemma purging_intent m w path hash ts count physical write_intent :
  working w = None ->
  (write_intent = false -> exists e, e ∈ durable w /\ intent_for (source_item_key m) path e) ->
  wp (mwhen write_intent
        (append manifest (purge_event (import_uuid manifest) "purge_intent" m path hash ts count physical) ;!
         sync manifest))
    (fun r w1 => purging m w w1 /\ fs w1 = fs w
       /\ (is_ok r = true -> exists e, e ∈ durable w1 /\ intent_for (source_item_key m) path e)) (tick w).
Proof.
  intros Hw Hint. destruct (log_frame w (tick w)) as [Ht _]; [done|].
  assert (purging m w (tick w)) as H0 by (by split_and!; [| |apply purge_step_same]).
  wp_step; [|split_and!; [done | done | by intros _; rewrite Ht; apply Hint]].
  wp_step. eapply wp_mono; [by apply (purging_append m w _ _ H0)|].
  intros [[]|e] w1 (H1 & Hf & Hs & Hb); [|done].
  destruct (Hb eq_refl _ _ (intent_for_purge_event _ m path hash ts count physical)) as (e & He & Hi).
  eapply wp_mono; [by apply (purging_sync m w)|]. intros r w2 (H2 & Hf2 & Ha). split_and!; [done | |].
  - by rewrite Hf2, Hf.
  - intros Hr. exists e. by rewrite Ha.
Qed.

(** Deleting a file no other message refers to, its intent durable. *)
Lemma purging_delete m w w2 path (present : bool) :
  purging m w w2 -> fs w2 = fs w -> relative_path m = Some path ->
  (present = true -> references (import_uuid manifest) m path (committed w) = 0%Z) ->
  (exists e, e ∈ durable w2 /\ intent_for (source_item_key m) path e) ->
  wp (mwhen present (delete_file root path)) (fun _ w3 => purging m w w3) w2.
Proof.
  intros H2 Hf2 Ep Hp (e & He & Hi). wp_step; [|done]. unfold delete_file, file_at. wp_step. wp_step.
  destruct (resolve_inside root path) as [p|x] eqn:Er; cbn [rbind]; [|done].
  wp_step; [intros _; by apply purging_tick|]. wp_step.
  destruct H2 as (Hw2 & Hc2 & [Hl2 Hr2 _]).
  destruct (log_frame w2 (set_fs (dict_pop (join p) (fs (tick w2))) (tick w2))) as [Hd _]; [done|].
  split_and!; [done | done |]. split; [by rewrite Hd | done |]. right. exists path, p.
  split_and!; [done | done | by rewrite <- Hf2 | by apply Hp |]. exists e. by rewrite Hd.
Qed.

Lemma purging_exists m w w1 path (physical : bool) : purging m w w1 ->
  wp (if physical then exists_file root path else mret false) (fun r w2 =>
    purging m w w2 /\ fs w2 = fs w1 /\ durable w2 = durable w1 /\ (r = Ok true -> physical = true)) w1.
Proof.
  intros H1. destruct (log_frame w1 (tick w1)) as [Hd _]; [done|].
  destruct physical; [|by wp_step; split_and!]. unfold exists_file, file_at. wp_step. wp_step.
  destruct (resolve_inside root path) as [p|x]; cbn [rbind]; [|by split_and!].
  wp_step; [intros e; split_and!; try done; by apply purging_tick|]. wp_step.
  split_and!; try done. by apply purging_tick.
Qed.

Lemma complete_purge_wp now m ts intended write_intent w :
  working w = None ->
  (write_intent = false -> forall path, relative_path m = Some path ->
     exists e, e ∈ durable w /\ intent_for (source_item_key m) path e) ->
  wp (complete_purge root manifest now m ts intended write_intent) (fun r w' =>
    purge_step m w w' /\ (is_ok r = true -> working w' = None)) w.
Proof.
  intros Hw Hint. unfold complete_purge.
  assert (purge_step m w w) as Hrefl by (by apply purge_step_same).
  destruct (relative_path m) as [path|] eqn:Ep; [|by wp_step].
  destruct (file_hash m) as [hash|]; [|by wp_step].
  destruct (_ || _)%bool; [by wp_step|]. wp_step. wp_step; [by intros; split; [apply purge_step_same|]|].
  assert (view w = committed w) as -> by (unfold view; by rewrite Hw).
  set (count := references (import_uuid manifest) m path (committed w)).
  set (physical := ((count =? 0)%Z && get_or true intended)%bool). cbv zeta.
  set (final := fun (r : result (bool * bool * option string)) w' =>
    purge_step m w w' /\ (is_ok r = true -> working w' = None)).
  assert (forall e w1, purging m w w1 -> final (Err e) w1) as Herr
    by (intros e w1 (_ & _ & H); by split).
  apply wp_bnd. eapply wp_mono; [apply (purging_intent m w); [done|]; intros E; by apply Hint|].
  intros [[]|e] w1 (H1 & Hf1 & Hi); [|by apply Herr].
  destruct Hi as (ei & Hei & Hi); [done|].
  apply wp_bnd. eapply wp_mono; [by apply (purging_exists m w)|].
  intros [present|e] w2 (H2 & Hf2 & Hs2 & Hp); [|by apply Herr].
  apply wp_bnd. eapply wp_mono; [apply (purging_delete m w w2 path); [done | congruence | done | |]|].
  { intros ->. specialize (Hp eq_refl). unfold physical in Hp. by apply andb_true_iff in Hp as [Hp%Z.eqb_eq _]. }
  { exists ei. by rewrite Hs2. }
  intros [[]|e] w3 H3; [|by apply Herr].
  wp_step. eapply wp_mono; [by apply (purging_append m w)|]. intros [[]|e] w4 (H4 & _); [|by apply Herr].
  wp_step. eapply wp_mono; [by apply (purging_sync m w)|]. intros [[]|e] w5 (H5 & _); [|by apply Herr].
  wp_step. eapply wp_mono; [by apply (purging_finish now m w)|].
  intros [[]|e] w6 [H6 Hw6]; [|by split]. wp_step. by split.
Qed.
End OnePurge.

(** ** Purging never takes the file of another message *)

(** The file a row names. *)
Definition stored_file (root : list string) (m : message) : option string :=
  match relative_path m with
  | Some path => if resolve_inside root path is Ok p then Some (join p) else None
  | None => None
  end.
Definition generation_of (uuid : string) (x : message) (d : Db) : Prop :=
  exists i p, i ∈ pst_items d /\ p ∈ pst_imports d /\ it_message_row_id i = Some (m_id x)
              /\ pi_id p = it_import_id i /\ pi_import_uuid p = uuid.

(** What the layout of the storage gives for a message and the ones to purge: rows that name its
    file do so by the same path and belong to the same account (paths are [eml/<account>/...]);
    an account has the messages of one PST generation. *)
Record laid_out (root : list string) (uuid : option string) (ids : list Z) (d : Db) (x : message) : Prop := {
  same_path : forall m, m ∈ messages d -> is_Some (stored_file root x) ->
    stored_file root m = stored_file root x ->
    relative_path m = relative_path x /\ account_id m = account_id x;
  same_generation : forall u m, uuid = Some u -> m ∈ messages d -> m_id m ∈ ids ->
    account_id m = account_id x -> generation_of u x d;
}.

(** Not asked to be purged. *)
Definition to_keep (ids : list Z) (x : message) : Prop :=
  m_local_state x <> Purged /\ (m_local_state x = Trashed -> m_id x ∉ ids).

Lemma elem_of_purged x id l : x ∈ purged_messages id l ->
  x ∈ l \/ exists y, y ∈ l /\ m_id y = id /\ x = purge_row y.
Proof.
  intros (y & -> & Hy)%list_elem_of_fmap. destruct (m_id y =? id)%Z eqn:E; [|by left].
  apply Z.eqb_eq in E. right. eauto.
Qed.
Lemma purged_keeps x id l : x ∈ l -> m_id x <> id -> x ∈ purged_messages id l.
Proof.
  intros Hx Hid. apply list_elem_of_fmap. exists x. by rewrite (proj2 (Z.eqb_neq _ _) Hid).
Qed.

Lemma filter_length_zero {A} (f : A -> bool) l x :
  Z.of_nat (length (List.filter f l)) = 0%Z -> x ∈ l -> f x = false.
Proof.
  intros H Hx. destruct (f x) eqn:E; [|done]. exfalso.
  assert (x ∈ List.filter f l) as Hin by (apply list_elem_of_In, filter_In; split; [by apply list_elem_of_In | done]).
  destruct (List.filter f l); [by apply elem_of_nil in Hin | simpl in H; lia].
Qed.

(** No other row that still counts refers to the path. *)
Lemma no_references uuid m path d x :
  references uuid m path d = 0%Z -> x ∈ messages d ->
  account_id x = account_id m -> relative_path x = Some path -> m_local_state x <> Purged ->
  (forall u, uuid = Some u -> generation_of u x d) -> m_id x = m_id m.
Proof.
  intros H Hx Ha Hp Hs Hg. destruct (Z.eq_dec (m_id x) (m_id m)) as [|Hid]; [done|]. exfalso.
  destruct uuid as [u|].
  - destruct (Hg u eq_refl) as (i & p & Hi & Hpi & Hrow & Hpid & Huuid).
    apply (filter_length_zero _ _ (x, i, p)) in H.
    + cbv beta iota in H. rewrite Ha, Hp, Hrow, Hpid, Huuid, !eqb_refl, Z.eqb_refl, eqb_neq, (proj2 (Z.eqb_neq _ _)) in H by done.
      discriminate.
    + by rewrite !list_elem_of_In, !in_prod_iff, <- !list_elem_of_In.
  - apply (filter_length_zero _ _ x) in H; [|done]. cbv beta in H.
    rewrite Ha, Hp, !eqb_refl, eqb_neq, (proj2 (Z.eqb_neq _ _)) in H by done. discriminate.
Qed.

(** Reading changes nothing. *)
Definition unchanged (w w' : World) : Prop :=
  committed w' = committed w /\ working w' = working w /\ fs w' = fs w /\ same_manifests w w'.

Lemma get_message_elem id d r : get_message id d = Some r -> s_message r ∈ messages d /\ m_id (s_message r) = id.
Proof.
  unfold get_message. destruct (message_with id d) as [m|] eqn:E; [|done]. intros [= <-].
  by apply message_with_id in E as [? ?].
Qed.

Lemma records_of_wp ids : forall w,
  wp (records_of ids) (fun r w' => unchanged w w'
    /\ match r with Ok l => forall m, m ∈ l -> m ∈ messages (view w) /\ m_id m ∈ ids | Err _ => True end) w.
Proof.
  induction ids as [|id ids IH]; intros w; cbn [records_of]; wp_step; [repeat split; set_solver|].
  wp_step; [by intros; repeat split|]. wp_step. eapply wp_mono; [apply IH|].
  intros [l|e] w1 [(Hc & Hw & Hf) Hl]; [|by split]. wp_step. split; [done|].
  change (view (tick w)) with (view w) in Hl.
  intros m Hm. destruct (get_message id (view w)) as [r|] eqn:E; [|destruct (Hl m Hm); set_solver].
  apply elem_of_cons in Hm as [->|Hm]; [apply get_message_elem in E as [? <-] | destruct (Hl m Hm)]; set_solver.
Qed.

Section Sparing.
Context (root : list string) (manifest : purge_manifest) `{!PurgeLog manifest} (ids : list Z).

(** The files missing since [w] have a durable intent. *)
Definition losses_intended (w w' : World) : Prop :=
  durable w `prefix_of` durable w' /\
  forall f, is_Some (dict_get f (fs w)) -> dict_get f (fs w') = None ->
  exists e path p, e ∈ durable w' /\ event_name e = Some "purge_intent"%string
    /\ text_of "relative_path" e = Some path /\ resolve_inside root path = Ok p /\ f = join p.

#[export] Instance losses_intended_preorder : PreOrder losses_intended.
Proof.
  split.
  - intros w. split; [done|]. intros p [c Hc] Hn. congruence.
  - intros w1 w2 w3 [Hp12 H12] [Hp23 H23]. split; [by etransitivity|]. intros p Hp Hn.
    destruct (dict_get p (fs w2)) as [c|] eqn:E; [apply H23; [by rewrite E | done]|].
    destruct (H12 p Hp E) as (e & path & q & He & Hi). exists e, path, q. split; [|done].
    destruct Hp23 as [k ->]. set_solver.
Qed.

Lemma purge_step_losses m w w' : purge_step root manifest m w w' -> losses_intended w w'.
Proof.
  intros [Hl _ Hf]. split; [done|]. intros f [c Hc] Hn.
  destruct Hf as [E|(path & p & _ & Er & E & _ & e & He & Hi)]; rewrite E in Hn; [congruence|].
  rewrite dict_get_pop in Hn. destruct (f == join p) eqn:Ep; [|congruence]. bsimp. subst f.
  exists e, path, p. by destruct Hi as (? & _ & ?).
Qed.

(** A row and its file, untouched since the tables were [d]. *)
Record still_there (d : Db) (x : message) (f : string) (c : bytes) (w : World) : Prop := {
  there_row : x ∈ messages (committed w);
  there_items : pst_items (committed w) = pst_items d /\ pst_imports (committed w) = pst_imports d;
  there_file : dict_get f (fs w) = Some c;
}.

Lemma purge_step_there d m x f c w w' :
  NoDup (map m_id (messages d)) -> laid_out root (import_uuid manifest) ids d x -> to_keep ids x ->
  x ∈ messages d -> stored_file root x = Some f ->
  m ∈ messages d -> m_id m ∈ ids -> m_local_state m = Trashed ->
  still_there d x f c w -> purge_step root manifest m w w' -> still_there d x f c w'.
Proof.
  intros Hnd [Hpath Hgen] [Hk Hk'] Hx Hxf Hm Hin Ht [Hrow [Hi1 Hi2] Hfile] [_ Hrows Hfiles].
  assert (m_id x <> m_id m) as Hne.
  { intros E. assert (x = m) as -> by (by eapply (NoDup_fmap_inj_elem m_id)). by apply Hk'. }
  split.
  - destruct Hrows as [->|[-> _]]; [done|]. by apply purged_keeps.
  - destruct Hrows as [->|(_ & -> & ->)]; done.
  - destruct Hfiles as [->|(path & p & Ep & Er & -> & Hc & _)]; [done|].
    rewrite dict_get_pop. destruct (f == join p) eqn:E; [|done]. bsimp. subst f. exfalso. apply Hne.
    destruct (Hpath m Hm) as [Hp Ha]; [by rewrite Hxf | rewrite Hxf; unfold stored_file; by rewrite Ep, Er |].
    eapply no_references; [exact Hc | done | done | congruence | done |].
    intros u Hu. destruct (Hgen u m Hu Hm Hin Ha) as (i & q & ?). exists i, q. by rewrite Hi1, Hi2.
Qed.

(** What holds of a message and its file through the purge of [records]. *)
Lemma purge_loop_wp now ts d records : NoDup (map m_id (messages d)) ->
  forall acc w, (forall m, m ∈ records -> m ∈ messages d /\ m_id m ∈ ids) -> working w = None ->
  wp (purge_loop root manifest now ts records acc) (fun _ w' => losses_intended w w'
    /\ forall x f c, laid_out root (import_uuid manifest) ids d x -> to_keep ids x -> x ∈ messages d ->
         stored_file root x = Some f -> still_there d x f c w -> still_there d x f c w') w.
Proof.
  intros Hnd. induction records as [|m records IH]; intros acc w Hr Hw; cbn [purge_loop].
  - wp_step. split; [reflexivity | done].
  - destruct (m_local_state m == Trashed) eqn:E; [|apply IH; [set_solver | done]]. bsimp.
    destruct (Hr m) as [Hm Hin]; [left|].
    wp_step. eapply wp_mono; [by apply complete_purge_wp|].
    intros r w1 [Hstep Hw1]. pose proof (purge_step_losses _ _ _ Hstep) as Hloss.
    assert (forall x f c, laid_out root (import_uuid manifest) ids d x -> to_keep ids x -> x ∈ messages d ->
         stored_file root x = Some f -> still_there d x f c w -> still_there d x f c w1) as Hone
      by (intros; eapply (purge_step_there d m); eassumption).
    destruct r as [[[completed deleted] shared]|e]; [|done]. specialize (Hw1 eq_refl).
    destruct completed; (eapply wp_mono; [apply IH; [set_solver | done]|]; cbv beta; intros _ w2 [Hl2 H2];
      split; [by etransitivity | auto]).
Qed.

(** C2. Purging never destroys a message the user keeps. Whatever storage, database or manifest
    operation fails and wherever the program stops, a purge of [ids], started with no batch open,
    through the manifest of an IMAP account or of a PST generation: every message that is not
    among the trashed ones of [ids] and whose EML file was present keeps its row and its file with
    its contents, shared files included; and every file that is gone has a purge intent already
    durable in the manifest. Of the tables this uses that ids are unique, of the message (and of
    no other) what the storage layout gives ([laid_out]): rows naming its file do so by the same
    path in the same account, and, for a PST generation, the account of a generation has no
    messages of another. *)
Theorem purge_spares_active {S} `{StorageGate S} (gate : S) now w :
  working w = None -> NoDup (map m_id (messages (committed w))) ->
  let w' := (purge root manifest gate ids now w).2 in
  losses_intended w w'
  /\ forall x f c, x ∈ messages (committed w) -> to_keep ids x ->
       laid_out root (import_uuid manifest) ids (committed w) x ->
       stored_file root x = Some f -> dict_get f (fs w) = Some c ->
       x ∈ messages (committed w') /\ dict_get f (fs w') = Some c.
Proof.
  intros Hw Hnd.
  change (wp (purge root manifest gate ids now) (fun _ w' => losses_intended w w'
    /\ forall x f c, x ∈ messages (committed w) -> to_keep ids x ->
       laid_out root (import_uuid manifest) ids (committed w) x ->
       stored_file root x = Some f -> dict_get f (fs w) = Some c ->
       x ∈ messages (committed w') /\ dict_get f (fs w') = Some c) w).
  unfold purge. wp_step. wp_step. destruct (check _ _ _) as [[]|e]; [|by split].
  wp_step. eapply wp_mono; [apply records_of_wp|]. intros r w1 [(Hc & Hw1 & Hf & Hm) Hr].
  destruct (log_frame w w1 Hm) as [Hd _].
  assert (losses_intended w w1) as Hl by (split; [by rewrite Hd | intros p [c E1] E2; congruence]).
  destruct r as [records|e]; [|rewrite Hc, Hf; by split].
  unfold view in Hr. rewrite Hw in Hr. cbn in Hr.
  eapply wp_mono; [apply (purge_loop_wp now _ (committed w)); [done | done | congruence]|].
  cbv beta. intros _ w2 [Hl2 H2]. split; [by etransitivity|]. intros x f c Hx Hk Hlay Hxf Hfc.
  destruct (H2 x f c Hlay Hk Hx Hxf) as [? _ ?]; [|done]. split; rewrite ?Hc, ?Hf; done.
Qed.
End Sparing.

(** ** Without faults *)

Lemma list_audit_log_ok n d : (0 <= n)%Z -> exists l, list_audit_log n 0 d = Ok l.
Proof. intros Hn. unfold list_audit_log. destruct (Z.ltb_spec n 0); [lia|]. by eexists. Qed.

Lemma finish_purge_succeeds now m physical w : faultless w -> working w = None ->
  succeeds (finish_purge_database now m physical) (fun _ w' =>
    same_files w w' /\ working w' = None
    /\ messages (committed w') = purged_messages (m_id m) (messages (committed w))) w.
Proof.
  intros Hf Hw.
  assert (succeeds (finish_purge_database now m physical) (fun _ _ => True) w) as Hs.
  { unfold finish_purge_database, audit_exists. apply succeeds_bnd. apply succeeds_begin; [done..|].
    do 9 run_step. cbn [put_db working tick set_working view get_or].
    edestruct list_audit_log_ok as [l Hl]; [|rewrite Hl; clear Hl]; [lia|].
    apply succeeds_bnd. apply succeeds_lift; [done|]. run_step. run_step.
    apply succeeds_when; intros _.
    - eapply succeeds_db_update'; [done | reflexivity|]. by eapply succeeds_commit.
    - split; [done|]. by eapply succeeds_commit. }
  eapply succeeds_mono; [apply (succeeds_wp _ _ _ _ Hs (finish_purge_wp now m physical w Hw))|].
  intros [] w' [_ (? & ? & ? & _)] _. done.
Qed.

(** ** Recovery *)

Open Scope string_scope.

Lemma validate_purge_event name m path hash ts n physical :
  name = "purge_intent" \/ name = "purged" ->
  account_id m <> "" -> source_item_key m <> "" -> path <> "" -> hash <> "" -> (0 <= n)%Z ->
  is_ok (parse_timestamp (Some (JStr ts))) = true ->
  let e := purge_event None name m path hash ts n physical in validate_event e = Ok e.
Proof.
  intros Hname Ha Hk Hp Hh Hn Ht e. apply (validate_event_named e name); [done | | done |].
  - destruct Hname as [->| ->]; apply mem_true; by vm_compute.
  - rewrite validate_fields_purge by done.
    assert (require_fields e PURGE_FIELDS = Ok tt) as -> by reflexivity. cbn [rbind require_texts].
    change (get "account_id" e) with (Some (JStr (account_id m))).
    unfold require_text. change (get "source_item_key" e) with (Some (JStr (source_item_key m))).
    change (get "account_id" e) with (Some (JStr (account_id m))).
    change (get "relative_path" e) with (Some (JStr path)).
    change (get "file_hash" e) with (Some (JStr hash)).
    change (get "shared_reference_count" e) with (Some (JInt n)).
    change (get "physical_delete" e) with (Some (JBool physical)). cbn [is_text is_count is_bool].
    rewrite !eqb_neq by done. cbn [negb check rbind]. by rewrite (proj2 (Z.leb_le 0 n)).
Qed.

Definition proper (s : string) : Prop := s <> "" /\ utf8_valid false (bytes_of s) = true.

Lemma purge_event_encodes name m path hash ts n physical :
  name = "purge_intent" \/ name = "purged" ->
  proper (account_id m) -> proper (source_item_key m) -> proper path -> proper hash -> (0 <= n)%Z ->
  utf8_valid false (bytes_of ts) = true -> is_ok (parse_timestamp (Some (JStr ts))) = true ->
  is_ok (encode_event (purge_event None name m path hash ts n physical)) = true.
Proof.
  intros Hname [Ha Ha'] [Hk Hk'] [Hp Hp'] [Hh Hh'] Hn Ht' Ht. apply encode_event_ok.
  - by vm_compute.
  - assert (utf8_valid false (bytes_of name) = true) as Hn' by (by destruct Hname as [->| ->]; vm_compute).
    cbn [valid_text purge_event app forallb fst snd]. by rewrite Ha', Hk', Hp', Hh', Ht', Hn'.
  - by apply validate_purge_event.
Qed.

Lemma references_nonneg uuid m p d : (0 <= references uuid m p d)%Z.
Proof. unfold references, count_generation_path_references, count_path_references. destruct uuid; lia. Qed.

Section Recovery.
Context (root : list string).

(** Resuming a purge whose intent is durable finishes it: the row, the completion event, and the
    file when the intent asks for it and no other row refers to it. *)
Lemma complete_purge_succeeds now m ts intended path hash p w :
  faultless w -> working w = None -> relative_path m = Some path -> file_hash m = Some hash ->
  proper (account_id m) -> proper (source_item_key m) -> proper path -> proper hash ->
  resolve_inside root path = Ok p ->
  utf8_valid false (bytes_of ts) = true -> is_ok (parse_timestamp (Some (JStr ts))) = true ->
  succeeds (complete_purge root imap_manifest now m ts intended false) (fun _ w' =>
    working w' = None
    /\ messages (committed w') = purged_messages (m_id m) (messages (committed w))
    /\ (fs w' = fs w \/ fs w' = dict_pop (join p) (fs w))
    /\ (references None m path (committed w) = 0%Z -> intended <> Some false -> dict_get (join p) (fs w') = None)
    /\ exists n b, synced w' = (all_events w ++ [purge_event None "purged" m path hash ts n b])%list
                   /\ buffered w' = []) w.
Proof.
  intros Hf Hw Hp Hh Ha Hk Pp Ph Hr Hts Ht. unfold complete_purge. rewrite Hp, Hh.
  rewrite !eqb_neq by (by destruct Pp, Ph). cbn [orb]. run_step. run_step.
  cbn [import_uuid imap_manifest append sync]. assert (view w = committed w) as -> by (unfold view; by rewrite Hw).
  set (count := references _ _ _ _).
  set (physical := ((count =? 0)%Z && get_or true intended)%bool). cbv zeta.
  run_step. apply succeeds_when; [done|]. intros _. split; [done|].
  (* the file *)
  apply succeeds_bnd. eapply (succeeds_mono _ (fun present w1 => working w1 = None
    /\ committed w1 = committed w /\ synced w1 = synced w /\ buffered w1 = buffered w /\ fs w1 = fs w
    /\ (present = false -> physical = true -> dict_get (join p) (fs w) = None))).
  { destruct physical; [|by run_step]. unfold exists_file, file_at. rewrite Hr. cbn [rbind]. run_step.
    apply succeeds_lift; [done|]. run_step. run_step. split_and!; try done.
    unfold read_file. cbn [fs tick]. by destruct (dict_get (join p) (fs w)). }
  intros present w1 (Hw1 & Hc1 & Hs1 & Hb1 & Hfs1 & Hgone) Hf1.
  apply succeeds_bnd. eapply (succeeds_mono _ (fun _ w2 => working w2 = None
    /\ committed w2 = committed w /\ synced w2 = synced w /\ buffered w2 = buffered w
    /\ fs w2 = if present then dict_pop (join p) (fs w) else fs w)).
  { apply succeeds_when; intros ->; [|done]. unfold delete_file, file_at, remove_file. rewrite Hr. cbn [rbind].
    run_step. apply succeeds_lift; [done|]. run_step. apply succeeds_modify; [done|].
    cbn [working committed synced buffered fs set_fs tick]. by rewrite Hfs1. }
  intros [] w2 (Hw2 & Hc2 & Hs2 & Hb2 & Hfs2) Hf2.
  (* completion event, then the database *)
  apply succeeds_bnd. apply succeeds_append; [done | done | |].
  { apply purge_event_encodes; try done; [by right | apply references_nonneg]. }
  run_step. run_step. run_step. eapply succeeds_mono; [by apply finish_purge_succeeds|].
  intros [] w3 ((Hfs3 & Hs3 & Hb3) & Hw3 & Hm3) Hf3. run_step. cbn [fs set_manifest tick] in Hfs3.
  rewrite Hfs3, Hfs2. split_and!; [done | | by destruct present; auto | |].
  - rewrite Hm3. cbn. by rewrite Hc2.
  - intros H0 Hint. destruct present; [by rewrite dict_get_pop, eqb_refl|]. apply Hgone; [done|].
    unfold physical. rewrite H0. by destruct intended as [[]|].
  - exists count, physical. rewrite Hs3, Hb3. split; [|done]. unfold all_events. cbn.
    by rewrite Hs2, Hb2, app_assoc.
Qed.

(** An intent the writer accepted, for a file below the root. *)
Definition good_intent (e : event) : Prop :=
  validate_event e = Ok e /\ valid_text (JObj e) = true
  /\ forall path, text_of "relative_path" e = Some path -> is_ok (resolve_inside root path) = true.

Lemma text_of_proper e f : valid_text (JObj e) = true -> is_text (get f e) = true ->
  exists s, text_of f e = Some s /\ proper s.
Proof.
  intros Hv Ht. unfold text_of. destruct (get f e) as [[]|] eqn:E; try done. cbn [is_text] in Ht.
  bsimp. exists s. split; [done|]. split; [done|].
  cbn [valid_text] in Hv. rewrite forallb_true in Hv.
  specialize (Hv _ (dict_get_In _ _ _ E)). by apply andb_true_iff in Hv as [_ ?].
Qed.

(** The fields of an accepted purge intent. *)
Lemma good_intent_fields e : good_intent e -> event_name e = Some "purge_intent" ->
  exists a k path hash ts,
    event_key e = Some (a, k) /\ text_of "relative_path" e = Some path
    /\ text_of "file_hash" e = Some hash /\ text_of "timestamp" e = Some ts
    /\ proper a /\ proper k /\ proper path /\ proper hash
    /\ utf8_valid false (bytes_of ts) = true /\ is_ok (parse_timestamp (Some (JStr ts))) = true
    /\ text_of "account_id" e = Some a /\ text_of "source_item_key" e = Some k.
Proof.
  intros (Hv & Ht & _) Hn. unfold event_name in Hn. unfold validate_event in Hv.
  destruct (get "event" e) as [[]|]; try done. injection Hn as ->.
  apply rbind_ok in Hv as ([] & _ & (t & Hts & ([] & Hf & _)%rbind_ok)%rbind_ok).
  rewrite validate_fields_purge in Hf by auto.
  apply rbind_ok in Hf as ([] & _ & ([] & Htexts & _)%rbind_ok).
  assert (forall f, f ∈ ["account_id"; "source_item_key"; "relative_path"; "file_hash"] ->
            exists s, text_of f e = Some s /\ proper s) as Hx
    by (intros f Hin; apply text_of_proper; [done | by eapply require_texts_text]).
  destruct (Hx "account_id") as (a & Ea & Ha); [set_solver|].
  destruct (Hx "source_item_key") as (k & Ek & Hk); [set_solver|].
  destruct (Hx "relative_path") as (p & Ep & Hp); [set_solver|].
  destruct (Hx "file_hash") as (h & Eh & Hh); [set_solver|].
  assert (exists ts, get "timestamp" e = Some (JStr ts)) as [ts Ets]
    by (destruct (get "timestamp" e) as [[]|]; try done; eauto).
  exists a, k, p, h, ts. unfold event_key. rewrite Ea, Ek. split_and!; try done.
  - unfold text_of. by rewrite Ets.
  - cbn [valid_text] in Ht. rewrite forallb_true in Ht. specialize (Ht _ (dict_get_In _ _ _ Ets)).
    by apply andb_true_iff in Ht as [_ ?].
  - rewrite <- Ets, Hts. done.
Qed.

Definition row_purged (id : Z) (d : Db) : Prop :=
  forall x, x ∈ messages d -> m_id x = id -> m_local_state x = Purged /\ relative_path x = None.

(** A completion event for the same operation is in the log. *)
Definition completed_in (e : event) (es : list event) : Prop :=
  operation_key e ∈ map operation_key (List.filter (name_in ["purged"; "remote_delete_completed"]) es).

(** What recovery never undoes. *)
Record grows (w w' : World) : Prop := Grows {
  grows_log : synced w `prefix_of` synced w';
  grows_ids : map m_id (messages (committed w')) = map m_id (messages (committed w));
  grows_purged : forall id, row_purged id (committed w) -> row_purged id (committed w');
  grows_free : forall m path, references None m path (committed w) = 0%Z ->
    references None m path (committed w') = 0%Z;
  grows_gone : forall f, dict_get f (fs w) = None -> dict_get f (fs w') = None;
}.
#[export] Instance grows_preorder : PreOrder grows.
Proof.
  split; [by intros w|]. intros w1 w2 w3 [P1 I1 R1 F1 G1] [P2 I2 R2 F2 G2].
  split; [by etransitivity | congruence | auto..].
Qed.

Lemma completed_in_prefix e l1 l2 : l1 `prefix_of` l2 -> completed_in e l1 -> completed_in e l2.
Proof. intros [k ->]. unfold completed_in. rewrite List.filter_app, map_app, elem_of_app. by left. Qed.

Lemma purged_free id m path d d' : messages d' = purged_messages id (messages d) ->
  references None m path d = 0%Z -> references None m path d' = 0%Z.
Proof.
  unfold references, count_path_references. intros -> H.
  set (f := fun x => _) in *. change (Z.of_nat (length (List.filter f (messages d))) = 0%Z) in H.
  destruct (List.filter f (purged_messages id (messages d))) as [|y l] eqn:E; [done|]. exfalso.
  assert (y ∈ List.filter f (purged_messages id (messages d))) as Hy by (rewrite E; left).
  apply list_elem_of_In, filter_In in Hy as [Hy Hfy]. apply list_elem_of_In in Hy.
  apply elem_of_purged in Hy as [Hy|(z & _ & _ & ->)].
  - by rewrite (filter_length_zero f _ y H Hy) in Hfy.
  - unfold f in Hfy. cbn in Hfy. by rewrite !andb_false_r in Hfy.
Qed.

Lemma purged_grows id w w' : synced w `prefix_of` synced w' ->
  (forall f, dict_get f (fs w) = None -> dict_get f (fs w') = None) ->
  messages (committed w') = purged_messages id (messages (committed w)) ->
  grows w w' /\ row_purged id (committed w').
Proof.
  intros Hs Hg Hm. assert (forall x, x ∈ messages (committed w') -> m_id x = id ->
    m_local_state x = Purged /\ relative_path x = None) as Hid.
  { rewrite Hm. intros x Hx E. apply list_elem_of_fmap in Hx as (y & -> & Hy).
    destruct (m_id y =? id)%Z eqn:Ey; [done|]. by apply Z.eqb_neq in Ey. }
  split; [|done]. split; [done | | | |done].
  - rewrite Hm. unfold purged_messages, update_where. rewrite map_map. apply map_ext.
    intros x. by destruct (m_id x =? id)%Z.
  - intros id' Hr x Hx E. rewrite Hm in Hx. apply elem_of_purged in Hx as [|(y & _ & _ & ->)]; [auto | done].
  - intros m path. by apply (purged_free id).
Qed.

(** The record a recovery resumes for an intent: its path and hash are the intent's, or absent. *)
Definition resumable (records : list message) (e : event) (m : message) : Prop :=
  event_name e = Some "purge_intent" /\ record_for (event_key e) records = Some m
  /\ (relative_path m = None \/ relative_path m = text_of "relative_path" e)
  /\ (file_hash m = None \/ file_hash m = text_of "file_hash" e).

(** What the intent asked for: the row purged, the operation completed and, when the intent says so
    and no other row refers to it, the file gone. *)
Definition finished (w w' : World) (e : event) (m : message) : Prop :=
  row_purged (m_id m) (committed w') /\ completed_in e (synced w')
  /\ forall path p, text_of "relative_path" e = Some path -> resolve_inside root path = Ok p ->
       references None m path (committed w) = 0%Z -> bool_of "physical_delete" e <> Some false ->
       dict_get (join p) (fs w') = None.
(** Only what was resumed is written to the log. *)
Definition completions (records : list message) (l : list event) (w w' : World) : Prop :=
  exists new, synced w' = (synced w ++ new)%list /\ forall n, n ∈ new ->
    exists e m, e ∈ l /\ resumable records e m /\ operation_key n = operation_key e.

Lemma finished_later w0 w w1 w' e m : grows w0 w -> grows w1 w' -> finished w w1 e m -> finished w0 w' e m.
Proof.
  intros [_ _ _ Hfree _] [Hlog _ Hpur _ Hgone] (H1 & H2 & H3). split_and!; [auto | by eapply completed_in_prefix |].
  intros path p Hp Hr H0 Hb. eapply Hgone, H3; eauto.
Qed.

Definition idle (w : World) : Prop := working w = None /\ buffered w = [].

Lemma record_for_key key records m : record_for key records = Some m -> key = Some (message_key m).
Proof. destruct key as [k|]; [|done]. intros [_ E]%find_last_Some. bsimp. by subst. Qed.

Lemma operation_key_purged e m a k path hash ts n b :
  event_name e = Some "purge_intent" -> text_of "account_id" e = Some a ->
  text_of "source_item_key" e = Some k -> text_of "relative_path" e = Some path ->
  text_of "file_hash" e = Some hash -> message_key m = (a, k) ->
  operation_key e = operation_key (purge_event None "purged" m path hash ts n b).
Proof.
  intros Hn Ha Hk Hp Hh [= <- <-]. unfold operation_key, name_in, event_name, text_of in *.
  destruct (get "event" e) as [[]|]; try done. injection Hn as ->.
  change (mem "purge_intent" ["purge_intent"; "purged"]) with true. cbv iota.
  change (get "event" (purge_event None "purged" m path hash ts n b)) with (Some (JStr "purged")).
  change (mem "purged" ["purge_intent"; "purged"]) with true. cbv iota. cbn [map].
  destruct (get "account_id" e) as [[]|]; try done. destruct (get "source_item_key" e) as [[]|]; try done.
  destruct (get "relative_path" e) as [[]|]; try done. destruct (get "file_hash" e) as [[]|]; try done.
  by simplify_eq.
Qed.

Lemma recover_intent_succeeds now records e w :
  faultless w -> idle w -> (event_name e = Some "purge_intent" -> good_intent e) ->
  succeeds (recover_intent root now records e) (fun _ w' => idle w' /\ grows w w'
    /\ completions records [e] w w' /\ forall m, resumable records e m -> finished w w' e m) w.
Proof.
  intros Hf [Hw Hb] Hgood. unfold recover_intent.
  assert (completions records [e] w w) as Hnone by (exists []; rewrite app_nil_r; split; [done | set_solver]).
  destruct (event_name e != Some "purge_intent") eqn:En.
  { run_step. split_and!; [done | reflexivity | done |]. intros m (E & _). bsimp. congruence. }
  bsimp. destruct (good_intent_fields e (Hgood En) En)
    as (a & k & path & hash & ts & Ek & Ep & Eh & Et & Pa & Pk & Pp & Ph & Uts & Ht & Ea & Es).
  rewrite Et, Ep, Eh. destruct (record_for (event_key e) records) as [m|] eqn:Er.
  2:{ run_step. split_and!; [done | reflexivity | done |]. intros m (_ & E & _). congruence. }
  pose proof (record_for_key _ _ _ Er) as Ekm. rewrite Ek in Ekm. injection Ekm as -> ->.
  destruct (mem (relative_path m) _ && mem (file_hash m) _)%bool eqn:Emem.
  2:{ run_step. split_and!; [done | reflexivity | done |]. intros m' (_ & E & Hp & Hh).
      assert (m' = m) as -> by congruence. rewrite Ep in Hp. rewrite Eh in Hh.
      rewrite (proj2 (mem_true _ _)), (proj2 (mem_true _ _)) in Emem by set_solver. done. }
  apply andb_true_iff in Emem as [Hmp Hmh]. apply mem_true in Hmp, Hmh.
  destruct (Hgood En) as (_ & _ & Hroot). specialize (Hroot path Ep).
  destruct (resolve_inside root path) as [p|] eqn:Erp; [|done].
  run_step. eapply succeeds_mono; [by eapply complete_purge_succeeds|].
  intros _ w1 (Hw1 & Hm1 & Hfs1 & Hgone1 & n & b & Hs1 & Hb1) Hf1. run_step.
  unfold all_events in Hs1. rewrite Hb, app_nil_r in Hs1.
  destruct (purged_grows (m_id m) w w1) as [Hg Hr]; [rewrite Hs1; by eexists | | done |].
  { intros f Hfn. destruct Hfs1 as [-> | ->]; [done|]. rewrite dict_get_pop. by destruct (f == join p). }
  assert (resumable records e m) as Hres by (split_and!; [done | done | rewrite Ep; set_solver | rewrite Eh; set_solver]).
  assert (operation_key e = operation_key (purge_event None "purged" m path hash ts n b)) as Hop
    by by eapply operation_key_purged.
  split_and!; [done | done | |].
  - eexists. split; [exact Hs1|]. intros x ->%list_elem_of_singleton. exists e, m. split_and!; [left | done | done].
  - intros m' (_ & E & _). assert (m' = m) as -> by congruence. split_and!; [done | |].
    + unfold completed_in. rewrite Hs1, List.filter_app, map_app, elem_of_app. right. rewrite Hop.
      apply list_elem_of_fmap_2, list_elem_of_In, filter_In. split; [left; reflexivity|]. by vm_compute.
    + intros path' p' [= <-]%(eq_trans (eq_sym Ep)) Hp'. rewrite Erp in Hp'. injection Hp' as <-. exact Hgone1.
Qed.

Lemma recover_intents_succeed now records l : forall w,
  faultless w -> idle w ->
  (forall e, e ∈ l -> event_name e = Some "purge_intent" -> good_intent e) ->
  succeeds (mfor l (recover_intent root now records)) (fun _ w' => idle w' /\ grows w w'
    /\ (l = [] -> fs w' = fs w) /\ completions records l w w'
    /\ forall e m, e ∈ l -> resumable records e m -> finished w w' e m) w.
Proof.
  induction l as [|e l IH]; intros w Hf Hi Hg; cbn [mfor].
  - run_step. split_and!; [done | reflexivity | done | | set_solver].
    exists []. rewrite app_nil_r. split; [done | set_solver].
  - run_step. eapply succeeds_mono; [apply recover_intent_succeeds; [done | done | by apply Hg; left]|].
    intros [] w1 (Hi1 & Hg1 & (n1 & Hs1 & Hn1) & He) Hf1.
    eapply succeeds_mono; [apply IH; [done | done | intros; apply Hg; [by right | done]]|].
    intros [] w2 (Hi2 & Hg2 & _ & (n2 & Hs2 & Hn2) & Hl) _. split_and!; [done | by etransitivity | done | |].
    + exists (n1 ++ n2)%list. split; [by rewrite Hs2, Hs1, (assoc_L (++))|].
      intros n [Hn|Hn]%elem_of_app; [destruct (Hn1 n Hn) as (e' & m & H & ?) | destruct (Hn2 n Hn) as (e' & m & H & ?)];
        exists e', m; split; set_solver.
    + intros e' m [->|Hin]%elem_of_cons Hr.
      * eapply (finished_later w w w1 w2); [reflexivity | done | auto].
      * eapply (finished_later w w1 w2 w2); [done | reflexivity | auto].
Qed.

(** The second loop finishes the database part of what the log says is purged. *)
Lemma recover_completed_succeeds now records e w : faultless w -> idle w ->
  succeeds (recover_completed now records e) (fun _ w' => idle w' /\ grows w w' /\ fs w' = fs w /\ synced w' = synced w
    /\ forall m b, record_for (event_key e) records = Some m -> m_local_state m <> Purged ->
         bool_of "physical_delete" e = Some b -> row_purged (m_id m) (committed w')) w.
Proof.
  intros Hf [Hw Hb]. unfold recover_completed.
  destruct (record_for (event_key e) records) as [m|]; [|by run_step; split_and!].
  destruct (m_local_state m == Purged) eqn:Em; bsimp.
  { run_step. split_and!; [done | reflexivity | done | done |]. by intros ? ? [= <-]. }
  destruct (bool_of "physical_delete" e) as [b|]; [|by run_step; split_and!].
  eapply succeeds_mono; [by apply finish_purge_succeeds|].
  intros [] w1 ((Hf1 & Hs1 & Hb1) & Hw1 & Hm1) _.
  destruct (purged_grows (m_id m) w w1) as [Hg Hr]; [by rewrite Hs1 | by rewrite Hf1 | done |].
  split_and!; [split; [done | by rewrite Hb1] | done | done | done |]. by intros ? ? [= <-].
Qed.

Lemma recover_completed_all now records l : forall w, faultless w -> idle w ->
  succeeds (mfor l (recover_completed now records)) (fun _ w' => idle w' /\ grows w w' /\ fs w' = fs w /\ synced w' = synced w
    /\ forall e m b, e ∈ l -> record_for (event_key e) records = Some m ->
         m_local_state m <> Purged -> bool_of "physical_delete" e = Some b ->
         row_purged (m_id m) (committed w')) w.
Proof.
  induction l as [|e l IH]; intros w Hf Hi; cbn [mfor].
  - run_step. split_and!; [done | reflexivity | done | done | set_solver].
  - run_step. eapply succeeds_mono; [by apply recover_completed_succeeds|].
    intros [] w1 (Hi1 & Hg1 & Hf1 & Hs1 & He) Hfl1. eapply succeeds_mono; [by apply IH|].
    intros [] w2 (Hi2 & Hg2 & Hf2 & Hs2 & Hl) _. split_and!; [done | by etransitivity | congruence | congruence |].
    intros e' m b [->|Hin]%elem_of_cons Hr Hm Hb; [|eauto]. destruct Hg2. eauto.
Qed.

(** The whole recovery. *)
Lemma recover_succeeds {S} `{StorageGate S} (gate : S) now w :
  faultless w -> idle w -> write_allowed gate = true ->
  (forall e, e ∈ synced w -> event_name e = Some "purge_intent" -> good_intent e) ->
  let records := map s_message (list_stored_messages None (committed w)) in
  succeeds (recover_incomplete_purges root gate now) (fun _ w' =>
    idle w' /\ grows w w'
    /\ (incomplete_intents (synced w) = [] -> fs w' = fs w)
    /\ completions records (incomplete_intents (synced w)) w w'
    /\ (forall e m, e ∈ incomplete_intents (synced w) -> resumable records e m -> finished w w' e m)
    /\ (forall e m b, e ∈ map snd (completed_events (synced w)) ->
          record_for (event_key e) records = Some m -> m_local_state m <> Purged ->
          bool_of "physical_delete" e = Some b -> row_purged (m_id m) (committed w'))) w.
Proof.
  intros Hf Hi Hgate Hgood records. unfold recover_incomplete_purges. rewrite Hgate.
  run_step. apply succeeds_lift; [done|]. run_step. run_step.
  assert (view w = committed w) as -> by (unfold view; by destruct Hi as [-> _]).
  run_step. run_step. run_step. run_step. run_step. run_step. cbn [synced tick]. fold records.
  run_step. eapply succeeds_mono; [apply recover_intents_succeed; [done | done |]|].
  { intros e He. apply Hgood. apply list_elem_of_In, filter_In in He as [He _].
    by apply list_elem_of_In. }
  intros [] w1 (Hi1 & Hg1 & Hfs & Hnew & Hint) Hf1.
  assert (grows w w1) as Hg by (by destruct Hg1; split).
  eapply succeeds_mono; [by apply recover_completed_all|].
  intros [] w2 (Hi2 & Hg2 & Hfs2 & Hs2 & Hcomp) _. split_and!; [done | by etransitivity | | | | done].
  - intros E. rewrite Hfs2. auto.
  - destruct Hnew as (new & Hs & Hn). exists new. by rewrite Hs2, Hs.
  - intros e m He Hr. eapply (finished_later w w w1 w2); [reflexivity | done|].
    destruct (Hint e m He Hr) as (? & ? & ?). by split_and!.
Qed.

Lemma find_last_unique {A B} (key : A -> B) (p : A -> bool) l m :
  NoDup (map key l) -> m ∈ l -> (forall x, p x = true <-> key x = key m) -> find_last p l = Some m.
Proof.
  intros Hnd Hm Hp. destruct (find_last p l) as [y|] eqn:E.
  - apply find_last_Some in E as [Hy Hpy]. f_equal. apply (NoDup_fmap_inj_elem key l); auto. by apply Hp.
  - apply find_last_None in E. rewrite Forall_forall in E. specialize (E m Hm).
    by rewrite (proj2 (Hp m)) in E.
Qed.

(** The record recovery finds for a stored message's key is that message. *)
Lemma record_for_stored d m : NoDup (map message_key (messages d)) -> m ∈ messages d ->
  is_Some (relative_path m) ->
  record_for (Some (message_key m)) (map s_message (list_stored_messages None d)) = Some m.
Proof.
  intros Hnd Hm [p Hp]. unfold list_stored_messages. rewrite map_map. cbn [with_first s_message].
  rewrite map_id. cbn [record_for]. apply (find_last_unique message_key).
  - eapply sublist_NoDup; [exact Hnd|]. apply (fmap_sublist message_key). clear.
    induction (messages d) as [|x l IH]; [done|]. cbn [List.filter].
    destruct (_ && _)%bool; by constructor.
  - apply list_elem_of_In, filter_In. split; [by apply list_elem_of_In|]. by rewrite Hp.
  - intros x. apply eqb_true.
Qed.

(** What recovery finds for an intent: a message with a stored path that is the intent's, and a
    hash that is the intent's or absent. *)
Definition resumes (m : message) (e : event) : Prop :=
  event_key e = Some (message_key m) /\ is_Some (relative_path m)
  /\ relative_path m = text_of "relative_path" e
  /\ (file_hash m = None \/ file_hash m = text_of "file_hash" e).

Lemma record_for_resumable d e m : NoDup (map message_key (messages d)) ->
  event_name e = Some "purge_intent" ->
  resumable (map s_message (list_stored_messages None d)) e m <-> m ∈ messages d /\ resumes m e.
Proof.
  intros Hnd Hn. split.
  - intros (_ & Hr & Hp & Hh). pose proof (record_for_key _ _ _ Hr) as Hk. rewrite Hk in Hr.
    cbn [record_for] in Hr. apply find_last_Some in Hr as [Hm _].
    unfold list_stored_messages in Hm. rewrite map_map in Hm. cbn [with_first s_message] in Hm. rewrite map_id in Hm.
    apply list_elem_of_In, filter_In in Hm as [Hm Hsome]. apply list_elem_of_In in Hm.
    destruct (relative_path m) as [p|] eqn:Ep; [|done]. destruct Hp as [|Hp]; [done|].
    split; [done|]. split_and!; [done | by eexists | congruence | done].
  - intros (Hm & Hk & Hs & Hp & Hh). split_and!; [done | rewrite Hk; by apply record_for_stored | by right | done].
Qed.

Lemma incomplete_iff e es : e ∈ incomplete_intents es -> forall es', e ∈ es' ->
  e ∈ incomplete_intents es' <-> ~ completed_in e es'.
Proof.
  intros He es' Hin. apply list_elem_of_In, filter_In in He as [_ He].
  apply andb_true_iff in He as [Hn _]. unfold incomplete_intents, completed_in.
  rewrite list_elem_of_In, filter_In, <- list_elem_of_In, Hn. cbn [andb]. rewrite negb_true_iff, mem_false. tauto.
Qed.

Lemma same_operation_resumes m e1 e2 : event_name e1 = Some "purge_intent" ->
  event_name e2 = Some "purge_intent" -> resumes m e1 -> operation_key e1 = operation_key e2 -> resumes m e2.
Proof.
  intros H1 H2 (Hk & Hs & Hp & Hh) Hop.
  assert (forall e, event_name e = Some "purge_intent" -> name_in ["purge_intent"; "purged"] e = true) as Hname.
  { intros e He. unfold event_name in He. unfold name_in. destruct (get "event" e) as [[]|]; try done. by injection He as ->. }
  unfold operation_key in Hop. rewrite !Hname in Hop by done. cbn [map] in Hop. injection Hop as Ha Hki Hpa Hha.
  unfold resumes, event_key, text_of in *. by rewrite <- Ha, <- Hki, <- Hpa, <- Hha.
Qed.

(** C27. Recovery settles every interrupted purge of an account: where no operation fails, the
    storage is attached, no batch is open and nothing waits to be synced, message keys are unique
    and the intents are ones the writer accepted with paths below the storage root, it succeeds,
    and for each purge intent without a completion event one of two things holds. Either a message
    with the intent's key still has the intent's path (and its hash, or none): then its row is
    purged, the completion is durable, so the intent is never replayed, and its file is gone when
    the intent asked for that and no other row refers to it. Or there is no such message (its row
    has gone, or its path or hash has changed, which the program logs): then the intent is left as
    it is, to be met again by every later recovery. *)
Theorem recovery_completes_purges {S} `{StorageGate S} (gate : S) now w :
  faultless w -> idle w -> write_allowed gate = true ->
  NoDup (map message_key (messages (committed w))) ->
  (forall e, e ∈ synced w -> event_name e = Some "purge_intent" -> good_intent e) ->
  exists w', recover_incomplete_purges root gate now w = (Ok tt, w')
  /\ forall e, e ∈ incomplete_intents (synced w) -> event_name e = Some "purge_intent" ->
       (exists m, m ∈ messages (committed w) /\ resumes m e /\ finished w w' e m
                  /\ e ∉ incomplete_intents (synced w'))
       \/ ((forall m, m ∈ messages (committed w) -> ~ resumes m e)
           /\ e ∈ incomplete_intents (synced w')).
Proof.
  intros Hf Hi Hgate Hnd Hgood.
  destruct (recover_succeeds gate now w Hf Hi Hgate Hgood)
    as ([] & w' & E & _ & _ & [Hlog _ _ _ _] & _ & (new & Hs & Hnew) & Hint & _).
  exists w'. split; [done|]. intros e He Hn.
  assert (e ∈ synced w) as Hes by (apply list_elem_of_In, filter_In in He as [He _]; by apply list_elem_of_In).
  assert (e ∈ synced w') as Hes' by (destruct Hlog as [k ->]; set_solver).
  pose proof (fun m => record_for_resumable (committed w) e m Hnd Hn) as Hiff.
  destruct (Exists_dec (fun m => resumes m e) (messages (committed w))) as [Hex|Hno].
  - left. apply Exists_exists in Hex as (m & Hm & Hr). exists m.
    destruct (Hint e m He) as (H1 & H2 & H3); [by apply Hiff|]. split_and!; try done.
    rewrite (incomplete_iff e _ He _ Hes'). intros Hbad. by apply Hbad.
  - right. assert (forall m, m ∈ messages (committed w) -> ~ resumes m e) as Hnone
      by (intros m Hm Hr; apply Hno, Exists_exists; eauto).
    split; [done|]. rewrite (incomplete_iff e _ He _ Hes'). unfold completed_in.
    rewrite Hs, List.filter_app, map_app, elem_of_app. intros [Hold|Hbad].
    + by apply (incomplete_iff e _ He _ Hes) in He.
    + apply list_elem_of_fmap in Hbad as (n & Hop & Hn2). apply list_elem_of_In, filter_In in Hn2 as [Hn2 _].
      apply list_elem_of_In in Hn2. destruct (Hnew n Hn2) as (e2 & m & He2 & Hres & Hop2).
      apply (Hnone m); [by apply (record_for_resumable _ e2 _ Hnd (proj1 Hres))|].
      eapply same_operation_resumes; [|done | exact (proj2 (proj1 (record_for_resumable _ e2 _ Hnd (proj1 Hres)) Hres)) | congruence].
      exact (proj1 Hres).
Qed.
End Recovery.

Lemma completed_events_key e es : e ∈ es -> event_name e = Some "purged" ->
  exists e', e' ∈ map snd (completed_events es) /\ e' ∈ es /\ event_name e' = Some "purged"
             /\ event_key e' = event_key e.
Proof.
  unfold completed_events. intros He Hn.
  assert (e ∈ List.filter (fun e => event_name e == Some "purged") es) as Hin.
  { apply list_elem_of_In, filter_In. split; [by apply list_elem_of_In|]. by rewrite Hn, eqb_refl. }
  assert (forall x, x ∈ List.filter (fun e => event_name e == Some "purged") es ->
    x ∈ es /\ event_name x = Some "purged") as Hall.
  { intros x [Hx Hp]%list_elem_of_In%filter_In. bsimp. split; [by apply list_elem_of_In | done]. }
  enough (exists e', dict_get (event_key e)
      (fold_left (fun d e => dict_set (event_key e) e d)
         (List.filter (fun e => event_name e == Some "purged") es) []) = Some e'
    /\ e' ∈ List.filter (fun e => event_name e == Some "purged") es /\ event_key e' = event_key e)
    as (e' & H1%dict_get_In & H2 & H3).
  { exists e'. destruct (Hall e' H2). split_and!; try done. by apply (list_elem_of_fmap_2 snd) in H1. }
  clear He Hn Hall. revert Hin. generalize (List.filter (fun e => event_name e == Some "purged") es).
  intros l. induction l as [|x l IH] using rev_ind; intros Hin; [by apply elem_of_nil in Hin|].
  rewrite fold_left_app. cbn [fold_left]. destruct (event_key x == event_key e) eqn:Ex; bsimp.
  - exists x. rewrite Ex, dict_get_set_eq. split_and!; [done | set_solver | done].
  - rewrite dict_get_set_ne by congruence.
    destruct IH as (e' & H1 & H2 & H3); [|exists e'; split_and!; [done | set_solver | done]].
    apply elem_of_app in Hin as [Hin|Hin]; [done|]. apply list_elem_of_singleton in Hin. by subst.
Qed.

(** Recovery purges again a message that was fetched again: a purge completed long ago still
    counts, so on the next start an active message with the same key (a Gmail message met under
    another label, or one fetched by force) loses its stored path and contents although nobody
    asked for it, and its EML file is left behind without a row. *)
Lemma recovery_purges_refetched {S} `{StorageGate S} root (gate : S) now w e m path :
  faultless w -> idle w -> write_allowed gate = true ->
  NoDup (map message_key (messages (committed w))) -> incomplete_intents (synced w) = [] ->
  (forall e, e ∈ synced w -> event_name e = Some "purge_intent" -> good_intent root e) ->
  (forall e, e ∈ synced w -> event_name e = Some "purged" -> is_Some (bool_of "physical_delete" e)) ->
  e ∈ synced w -> event_name e = Some "purged" -> event_key e = Some (message_key m) ->
  m ∈ messages (committed w) -> m_local_state m = Active -> relative_path m = Some path ->
  exists w', recover_incomplete_purges root gate now w = (Ok tt, w')
    /\ row_purged (m_id m) (committed w') /\ fs w' = fs w.
Proof.
  intros Hf Hi Hgate Hnd Hinc Hgood Hbool He Hn Hk Hm Ha Hp.
  destruct (recover_succeeds root gate now w Hf Hi Hgate Hgood) as ([] & w' & E & _ & _ & _ & Hfs & _ & _ & Hcomp).
  exists w'. split; [done|]. split; [|auto].
  destruct (completed_events_key e (synced w) He Hn) as (e' & Hin & He' & Hn' & Hk').
  destruct (Hbool e' He' Hn') as [b Hb]. apply (Hcomp e' m b Hin); [|by rewrite Ha | done].
  rewrite Hk', Hk. apply record_for_stored; [done | done | by eexists].
Qed.

(** ** Trash and restore *)

Close Scope string_scope.

(** The rows [ids] set to one state. *)
Definition state_ids (ids : list Z) (s : local_state) (at_ : option string) (l : list message) :=
  map (fun m => if mem (m_id m) ids then with_state s at_ m else m) l.

Lemma state_ids_cons id ids s at_ l :
  state_ids ids s at_ (update_where (fun m => (m_id m =? id)%Z) (with_state s at_) l)
  = state_ids (id :: ids) s at_ l.
Proof.
  unfold state_ids, update_where. rewrite map_map. apply map_ext. intros m. rewrite mem_cons.
  assert ((m_id m =? id)%Z = (m_id m == id)) as -> by (apply eq_true_iff_eq; by rewrite Z.eqb_eq, eqb_true).
  destruct (m_id m == id); cbn [orb m_id with_state]; by destruct (mem (m_id m) ids).
Qed.

(** Each of [ids] names a row in state [s]. *)
Definition all_in (s : local_state) (ids : list Z) (d : Db) : Prop :=
  forall id, id ∈ ids -> exists m, message_with id d = Some m /\ m_local_state m = s.

Lemma all_in_step s id ids s' at_ d : id ∉ ids -> all_in s (id :: ids) d ->
  all_in s ids (set_local_state id s' at_ d).
Proof.
  intros Hid Hall id' Hin. destruct (Hall id') as (m & Hm & Hs); [by right|].
  unfold set_local_state. rewrite message_with_update by done.
  rewrite (proj2 (Z.eqb_neq id' id)) by (intros ->; done). eauto.
Qed.

Definition only_rows (ids : list Z) (s : local_state) (at_ : option string) (w w' : World) : Prop :=
  working w' = None /\ same_files w w'
  /\ committed w' = set_messages (state_ids ids s at_) (committed w).

Lemma only_rows_nil s at_ w : working w = None -> only_rows [] s at_ w w.
Proof.
  intros Hw. split_and!; [done | reflexivity|]. unfold state_ids. cbn.
  destruct (committed w). unfold set_messages. cbn. by rewrite map_id.
Qed.

Lemma only_rows_cons id ids s at_ w w' :
  working w = None ->
  only_rows ids s at_ (put_db (set_local_state id s at_ (view (tick w))) (tick (tick w))) w' ->
  only_rows (id :: ids) s at_ w w'.
Proof.
  intros Hw. unfold only_rows, put_db, view, same_files. cbn [working tick]. rewrite Hw.
  cbn [get_or committed set_committed fs synced buffered working tick].
  intros (? & ? & ->). split_and!; try tauto. unfold set_local_state, update_message, set_messages.
  cbn [messages]. by rewrite <- state_ids_cons.
Qed.

Lemma move_to_trash_succeeds t ids : forall acc w,
  faultless w -> working w = None -> NoDup ids -> all_in Active ids (committed w) ->
  succeeds (move_to_trash_loop t ids acc) (fun r w' =>
    r = MkTrashResult (trashed_ids acc ++ ids) (restored_ids acc) (skipped_ids acc)
    /\ only_rows ids Trashed (Some t) w w') w.
Proof.
  induction ids as [|id ids IH]; intros acc w Hf Hw Hnd Hall; cbn [move_to_trash_loop].
  - run_step. split; [by destruct acc; rewrite app_nil_r | by apply only_rows_nil].
  - apply NoDup_cons in Hnd as [Hid Hnd]. destruct (Hall id) as (m & Hm & Hs); [left|].
    run_step. run_step. unfold view, get_message. rewrite Hw. cbn [get_or]. rewrite Hm.
    cbn [option_map with_first s_message]. rewrite Hs. run_step. run_step.
    eapply succeeds_mono; [apply IH; [by apply faultless_put_db | | done |]|].
    + unfold put_db. cbn [working tick]. by rewrite Hw.
    + unfold put_db, view. cbn [working tick committed]. rewrite Hw. by eapply all_in_step.
    + intros r w' [-> Hr] _. split; [cbn; by rewrite <- app_assoc | by apply only_rows_cons].
Qed.

Lemma restore_succeeds ids : forall acc w,
  faultless w -> working w = None -> NoDup ids -> all_in Trashed ids (committed w) ->
  succeeds (restore_loop ids acc) (fun r w' =>
    r = MkTrashResult (trashed_ids acc) (restored_ids acc ++ ids) (skipped_ids acc)
    /\ only_rows ids Active None w w') w.
Proof.
  induction ids as [|id ids IH]; intros acc w Hf Hw Hnd Hall; cbn [restore_loop].
  - run_step. split; [by destruct acc; rewrite app_nil_r | by apply only_rows_nil].
  - apply NoDup_cons in Hnd as [Hid Hnd]. destruct (Hall id) as (m & Hm & Hs); [left|].
    run_step. run_step. unfold view, get_message. rewrite Hw. cbn [get_or]. rewrite Hm.
    cbn [option_map with_first s_message]. rewrite Hs, eqb_refl. run_step. run_step.
    eapply succeeds_mono; [apply IH; [by apply faultless_put_db | | done |]|].
    + unfold put_db. cbn [working tick]. by rewrite Hw.
    + unfold put_db, view. cbn [working tick committed]. rewrite Hw. by eapply all_in_step.
    + intros r w' [-> Hr] _. split; [cbn; by rewrite <- app_assoc | by apply only_rows_cons].
Qed.

(** Trashing is reversible: moving active messages to the trash and restoring them reports
    exactly those messages both times and leaves the database, the EML files and the manifest as
    they were. *)
Lemma trash_restore_roundtrip ids now w :
  faultless w -> working w = None -> NoDup ids -> NoDup (map m_id (messages (committed w))) ->
  (forall id, id ∈ ids -> exists m, message_with id (committed w) = Some m
     /\ m_local_state m = Active /\ trashed_at m = None) ->
  exists w1 w2, move_to_trash ids now w = (Ok (MkTrashResult ids [] []), w1)
    /\ restore_from_trash ids w1 = (Ok (MkTrashResult [] ids []), w2)
    /\ committed w2 = committed w /\ same_files w w2.
Proof.
  intros Hf Hw Hnd Hids Hall.
  destruct (move_to_trash_succeeds (timestamp now) ids (MkTrashResult [] [] []) w)
    as (r1 & w1 & E1 & Hf1 & -> & Hw1 & Hs1 & Hc1); try done.
  { intros id Hid. destruct (Hall id Hid) as (m & ? & ? & _). eauto. }
  destruct (restore_succeeds ids (MkTrashResult [] [] []) w1)
    as (r2 & w2 & E2 & _ & -> & _ & Hs2 & Hc2); try done.
  { intros id Hid. destruct (Hall id Hid) as (m & Hm & _ & _). rewrite Hc1. unfold message_with.
    cbn [messages set_messages].
    change (state_ids ids Trashed (Some (timestamp now)))
      with (update_where (fun m => mem (m_id m) ids) (with_state Trashed (Some (timestamp now)))).
    rewrite find_update_where by done. unfold message_with in Hm. rewrite Hm. cbn [option_map].
    apply List.find_some in Hm as [_ E%Z.eqb_eq]. rewrite E, (proj2 (mem_true _ _) Hid). eauto. }
  exists w1, w2. split_and!; [done | done | | by etransitivity]. rewrite Hc2, Hc1.
  destruct (committed w) as [a f l mb c fl al au ap n1 n2 n3 n4] eqn:Ec. unfold set_messages. cbn. f_equal.
  unfold state_ids. rewrite map_map. rewrite <- (map_id l) at 2. apply map_ext_in.
  intros m Hm%list_elem_of_In. destruct (mem (m_id m) ids) eqn:E; cbn [m_id with_state]; rewrite E; [|done].
  bsimp. destruct (Hall (m_id m) E) as (m' & [Hid Hin]%message_with_id & Ha & Ht).
  assert (m' = m) as -> by (by eapply (NoDup_fmap_inj_elem m_id)).
  destruct m; cbn in *. by subst.
Qed.

Open Scope string_scope.

(** ** Concrete runs *)

Definition sample_message (id : Z) (key : string) (state : local_state) (path : option string) : message :=
  Message id "acct" None "k" key state None path (option_map (fun _ => "ab") path) (Some "hello") None
    None None None None (Some 5%Z) false None None None None None None.

Definition sample_world (ms : list message) (es : list event) : World :=
  MkWorld (MkDb [] [] ms [] [] [] [] [] [] 1 10 1 1 [] [] 1) None [("eml/acct/x.eml", [65%Z])] es [] None 0
    (fun _ => None) [] [].

Definition noon : datetime := DateTime 2024 5 2 12 0 0 0.

(** A trashed and an active message share one file. *)
Definition shared_world : World :=
  sample_world [sample_message 1 "gmail:1" Trashed (Some "eml/acct/x.eml");
                sample_message 2 "gmail:2" Active (Some "eml/acct/x.eml")] [].

Definition sample_root : list string := ["srv"; "mail"].
Definition other_message := sample_message 2 "gmail:2" Active (Some "eml/acct/x.eml").

Lemma purge_spares_active_witness :
  let w' := (purge sample_root imap_manifest initial_machine [1%Z] noon shared_world).2 in
  losses_intended sample_root imap_manifest shared_world w'
  /\ other_message ∈ messages (committed w') /\ dict_get "eml/acct/x.eml" (fs w') = Some [65%Z].
Proof.
  pose proof (purge_spares_active sample_root imap_manifest [1%Z] initial_machine noon shared_world) as H.
  revert H. generalize (purge sample_root imap_manifest initial_machine [1%Z] noon shared_world). intros [r w'] H.
  destruct H as [Hl Hk]; [reflexivity | apply (bool_decide_unpack _); by vm_compute|].
  split; [exact Hl|]. apply (Hk other_message "eml/acct/x.eml" [65%Z]); [right; left | by split | | reflexivity | reflexivity].
  split; [|done]. intros m Hm _ _. by apply elem_of_cons in Hm as [->|[->|[]%elem_of_nil]%elem_of_cons].
Defined.

Example shared_purge :
  let (r, w') := purge sample_root imap_manifest initial_machine [1%Z] noon shared_world in
  r = Ok (MkPurgeResult [1%Z] [] [] ["eml/acct/x.eml"] 5)
  /\ fs w' = [("eml/acct/x.eml", [65%Z])] /\ length (synced w') = 2%nat.
Proof. vm_compute. done. Qed.

(** A path that leaves the storage root is refused after its intent is written, before any file is
    touched. *)
Example escaping_purge :
  let w := sample_world [sample_message 1 "gmail:1" Trashed (Some "../../etc/passwd")] [] in
  let (r, w') := purge sample_root imap_manifest initial_machine [1%Z] noon w in
  r = raise ValueError "EML path escapes the storage root" /\ fs w' = fs w /\ length (synced w') = 1%nat.
Proof. vm_compute. done. Qed.

(** *** A PST generation *)

Definition sample_uuid : string := "11111111-1111-4111-8111-111111111111".
Definition sample_hash : string := "00112233445566778899aabbccddeeff00112233445566778899aabbccddeeff".
Definition pst_message (id : Z) (key : string) : message :=
  with_storage (Some "eml/acct/x.eml") (Some sample_hash) (sample_message id key Trashed None).
Definition pst_item_of (id : Z) (key : string) : pst_item :=
  PstItem 1 key key "." None None (Some "eml/acct/x.eml") (Some id) "saved" None None 1.
Definition pst_faulty (f : nat -> option exn) : World :=
  MkWorld (MkDb [] [] [pst_message 1 "a"; pst_message 2 "b"] [] [] [] [] [] [] 1 10 1 1
             [PstImport 1 sample_uuid "acct" "mail.pst" sample_hash None None None "completed" true
                None None None 2 0 None None None]
             [pst_item_of 1 "a"; pst_item_of 2 "b"] 2)
    None [("eml/acct/x.eml", [65%Z])] [] [] None 0 f [] [].
(** The program started again: what was not on disk is lost. *)
Definition restarted (w : World) : World :=
  MkWorld (committed w) None (fs w) (synced w) [] (last_sequence w) 0 (fun _ => None) (remote w)
    (map (fun '(u, l) => (u, PstLog (pl_synced l) [] (pl_import l) (pl_folders l))) (pst_logs w)).
Definition pst_purge (ids : list Z) (w : World) : result PurgeResult * World :=
  purge sample_root (pst_manifest sample_uuid) initial_machine ids noon w.

(** The last message of a generation that refers to a file takes it along. *)
Example pst_shared_purge :
  let (r, w') := pst_purge [1%Z; 2%Z] (pst_faulty (fun _ => None)) in
  r = Ok (MkPurgeResult [1%Z; 2%Z] [] ["eml/acct/x.eml"] ["eml/acct/x.eml"] 10)
  /\ fs w' = [] /\ synced w' = [] /\ length (pl_synced (PstStage.log_of sample_uuid w')) = 4%nat.
Proof. vm_compute. done. Qed.

(** A purge of a PST message that was interrupted can be blocked for ever. No recovery reads the
    manifest of a generation; purging the message again appends its intent again, which the PST
    manifest takes for the same operation, and refuses when the number of messages that share the
    file has changed in between: every later purge of the message raises. *)
Lemma interrupted_pst_purge_blocked :
  let w1 := (pst_purge [1%Z] (pst_faulty (fun t => if (t =? 4)%nat then Some (Exn StorageError "disk full") else None))).2 in
  let w2 := (pst_purge [2%Z] (restarted w1)).2 in
  let w3 := restarted w2 in
  (pst_purge [1%Z] w3).1 = raise ValueError "PST manifest contains a conflicting duplicate idempotency key"
  /\ committed (pst_purge [1%Z] w3).2 = committed w3 /\ fs (pst_purge [1%Z] w3).2 = fs w3.
Proof. vm_compute. done. Qed.

(** An interrupted purge: the intent is durable, the file still there. *)
Definition trashed_message := sample_message 1 "gmail:1" Trashed (Some "eml/acct/x.eml").
Definition intent_event : event :=
  purge_event None "purge_intent" trashed_message "eml/acct/x.eml" "ab" (isoformat noon) 0 true.
Definition interrupted_world : World := sample_world [trashed_message] [intent_event].

Lemma interrupted_good e : e ∈ synced interrupted_world -> good_intent sample_root e.
Proof.
  intros [->|[]%elem_of_nil]%elem_of_cons. split_and!; [vm_compute; reflexivity.. |].
  intros path [= <-]. by vm_compute.
Qed.

Lemma recovery_completes_purges_witness :
  exists w', recover_incomplete_purges sample_root initial_machine noon interrupted_world = (Ok tt, w')
  /\ forall e, e ∈ incomplete_intents (synced interrupted_world) -> event_name e = Some "purge_intent" ->
       (exists m, m ∈ messages (committed interrupted_world) /\ resumes m e
          /\ finished sample_root interrupted_world w' e m /\ e ∉ incomplete_intents (synced w'))
       \/ ((forall m, m ∈ messages (committed interrupted_world) -> ~ resumes m e)
           /\ e ∈ incomplete_intents (synced w')).
Proof.
  apply (recovery_completes_purges sample_root initial_machine noon interrupted_world); [done | done | done | |].
  - apply (bool_decide_unpack _). by vm_compute.
  - intros e He _. by apply interrupted_good.
Defined.

(** The interrupted purge is finished; with another hash in the row it is left for ever. *)
Example recovered :
  let w' := (recover_incomplete_purges sample_root initial_machine noon interrupted_world).2 in
  fs w' = [] /\ incomplete_intents (synced w') = []
  /\ map m_local_state (messages (committed w')) = [Purged].
Proof. vm_compute. done. Qed.
Example not_recovered :
  let w := sample_world [with_storage (Some "eml/acct/x.eml") (Some "cd") trashed_message] [intent_event] in
  let (r, w') := recover_incomplete_purges sample_root initial_machine noon w in
  r = Ok tt /\ fs w' = fs w /\ committed w' = committed w /\ incomplete_intents (synced w') = [intent_event].
Proof. vm_compute. done. Qed.

(** The message was purged once and fetched again. *)
Definition refetched := sample_message 1 "gmail:1" Active (Some "eml/acct/x.eml").
Definition purged_before : event :=
  purge_event None "purged" trashed_message "eml/acct/x.eml" "ab" (isoformat noon) 0 true.

Close Scope string_scope.
