(* ===== verification/Verify.v ===== *)
(** * Verify: checking the stored files

    [usecases/verify.py] and [usecases/reparse.py] over the durable state, with the manifest of one
    account as [World] holds it; [verify_manifest], over the bytes of the files, is in
    [VerifyManifest].
    [cancelled] tells at each step whether the token is cancelled, [fresh_name] gives the random
    names of quarantined files. Progress reports and the log are left out; [str.casefold] folds the
    ASCII letters, all that hashes and the names of EML files have. *)

From S2P Require Import Prelude Errors PyText PyTime Json Manifest Database World Sha256 EmlStorage.
From S2P Require Import DeleteRemote Retry Trash Snapshots Sync.
Open Scope string_scope.

(** ** Results *)

Record VerificationIssue := Issue {
  vi_path : string;
  vi_reason : string;
  vi_message_id : option Z;
  vi_expected_size : option Z;
  vi_actual_size : option Z;
  vi_expected_hash : option string;
  vi_actual_hash : option string;
}.
Record QuickVerifyResult := Quick {
  qv_checked : Z; qv_missing : list string; qv_size_mismatch : list string; qv_cancelled : bool }.
Record RangeVerifyResult := RangeResult {
  rv_checked : Z; rv_issues : list VerificationIssue; rv_repaired : Z; rv_quarantined : Z;
  rv_cancelled : bool }.
Record FullVerifyResult := FullResult {
  fv_checked : Z; fv_issues : list VerificationIssue; fv_cancelled : bool }.
Record OrphanCandidate := Candidate { oc_path : string; oc_hash : string; oc_key : string }.
Record OrphanScanResult := Scan {
  os_checked : Z; os_registerable : list OrphanCandidate; os_quarantined : list string;
  os_cancelled : bool }.

(** [_record_path], [_record_hash] *)
Definition record_path (s : stored) : option string := nonempty (relative_path (s_message s)).
Definition record_hash (s : stored) : option string := nonempty (file_hash (s_message s)).

Section Verify.
Context (root : list string) (clock : nat -> datetime) (cancelled : nat -> bool)
  (fresh_name : nat -> string).

Definition is_cancelled : M World bool := mgets (fun w => cancelled (ticks w)).
Definition check_cancelled : M World unit := raise_if_cancelled (fun w => cancelled (ticks w)).

(** [stat]: the size. *)
Definition stat_size (path : string) : M World Z :=
  let! p := file_at root path in
  let! c := read_bytes p in
  mret (Z.of_nat (length c)).

(** [_hash_chunks]: the file is opened, then read in chunks, the token checked after each. *)
Definition CHUNK : Z := 1024 * 1024.
Definition chunks (c : bytes) : nat := Z.to_nat ((Z.of_nat (length c) + CHUNK - 1) / CHUNK).
Definition hash_chunks (path : string) : M World (string * Z) :=
  let! p := file_at root path in
  let! c := read_bytes p in
  mfor (seq 0 (chunks c)) (fun _ => io (mret tt) ;! check_cancelled) ;!
  mret (hexdigest c, Z.of_nat (length c)).
Definition quarantine_file (path : string) : M World unit :=
  let! name := mgets (fun w => fresh_name (ticks w)) in quarantine root path name.

(** ** [quick_verify] *)

Fixpoint quick_loop (l : list stored) (r : QuickVerifyResult) : M World QuickVerifyResult :=
  match l with
  | [] => mret r
  | x :: l =>
      let! stop := is_cancelled in
      if stop then mret (Quick (qv_checked r) (qv_missing r) (qv_size_mismatch r) true) else
      match record_path x with
      | None => quick_loop l r
      | Some path =>
          let n := (qv_checked r + 1)%Z in
          let! size := attempt (stat_size path) in
          match size with
          | Err e => if isinstance e FileNotFoundError
                     then quick_loop l (Quick n (qv_missing r ++ [path])%list (qv_size_mismatch r) false)
                     else mthrow e
          | Ok size =>
              let bad := match size_bytes (s_message x) with
                         | Some expected => negb (size =? expected)%Z | None => false end in
              quick_loop l (Quick n (qv_missing r)
                (if bad then (qv_size_mismatch r ++ [path])%list else qv_size_mismatch r) false)
          end
      end
  end.
Definition quick_verify : M World QuickVerifyResult :=
  let! l := db_read (list_stored_messages None) in quick_loop l (Quick 0 [] [] false).

(** ** [range_verify] *)

Definition records_by_source_key (l : list stored) : list ((string * string) * stored) :=
  fold_left (fun d s => dict_set (account_id (s_message s), source_item_key (s_message s)) s d) l [].

(** [_record_failure], [_repair_integrity_issue] *)
Definition record_integrity_failure (s : stored) (reason : string) : M World unit :=
  match s_membership s with
  | Some mf =>
      match uidvalidity mf, uid mf with
      | Some v, Some u => db_update (record_failure (account_id (s_message s)) (mf_folder_id mf) v u
                                       "integrity" reason)
      | _, _ => mret tt
      end
  | None => mret tt
  end.
Definition repair_integrity_issue (s : stored) (i : VerificationIssue) : M World Z :=
  record_integrity_failure s (vi_reason i) ;!
  mwhen (vi_reason i == "hash_mismatch") (quarantine_file (vi_path i)) ;!
  db_update (update_message_storage (m_id (s_message s)) None None) ;!
  mret 1%Z.

(** The check of one file against a hash: [None] is the cancellation. *)
Definition hash_issue (record : option stored) (path expected : string)
    : M World (option (option VerificationIssue)) :=
  let id := option_map (fun s => m_id (s_message s)) record in
  let! h := attempt (hash_chunks path) in
  match h with
  | Err e => if isinstance e OperationCancelledError then mret None
             else if isinstance e FileNotFoundError
             then mret (Some (Some (Issue path "missing" id None None (Some expected) None)))
             else mthrow e
  | Ok (actual, _) =>
      mret (Some (if actual == fold_hash expected then None
                  else Some (Issue path "hash_mismatch" id None None (Some expected) (Some actual))))
  end.

(** What is done about an issue: the numbers repaired and quarantined. *)
Definition handle_issue (record : option stored) (i : VerificationIssue) : M World (Z * Z) :=
  let mismatch := vi_reason i == "hash_mismatch" in
  mwhen (mismatch && (if record is None then true else false)) (quarantine_file (vi_path i)) ;!
  let! repaired := match record with Some s => repair_integrity_issue s i | None => mret 0%Z end in
  mret (repaired, if mismatch then 1%Z else 0%Z).

(** The members of a fetch event the check uses, when all are texts. *)
Definition fetch_facts (e : event) : option (string * string * string * string) :=
  match text_of "account_id" e, text_of "source_item_key" e, text_of "relative_path" e,
        text_of "file_hash" e with
  | Some a, Some k, Some p, Some h => Some (a, k, p, h)
  | _, _, _, _ => None
  end.

Fixpoint range_loop (records : list ((string * string) * stored)) (l : list event)
    (r : RangeVerifyResult) : M World RangeVerifyResult :=
  match l with
  | [] => mret r
  | e :: l =>
      if negb (event_name e == Some "fetch") then range_loop records l r else
      let! stop := is_cancelled in
      if stop then mret (RangeResult (rv_checked r) (rv_issues r) (rv_repaired r) (rv_quarantined r) true)
      else
      match fetch_facts e with
      | None => range_loop records l r
      | Some (a, k, path, expected) =>
          let record := dict_get (a, k) records in
          let n := (rv_checked r + 1)%Z in
          let! found := hash_issue record path expected in
          match found with
          | None => mret (RangeResult n (rv_issues r) (rv_repaired r) (rv_quarantined r) true)
          | Some None => range_loop records l (RangeResult n (rv_issues r) (rv_repaired r) (rv_quarantined r) false)
          | Some (Some i) =>
              let! c := handle_issue record i in
              range_loop records l (RangeResult n (rv_issues r ++ [i])%list (rv_repaired r + c.1)%Z
                                      (rv_quarantined r + c.2)%Z false)
          end
      end
  end.
Definition range_verify : M World RangeVerifyResult :=
  let! l := db_read (list_stored_messages None) in
  let! es := io (mgets (fun w => after_last_checkpoint (synced w))) in
  range_loop (records_by_source_key l) es (RangeResult 0 [] 0 0 false).

(** ** [full_verify] *)

Definition records_by_path (l : list stored) : list (string * stored) :=
  fold_left (fun d s => match record_path s with Some p => dict_set p s d | None => d end) l [].
Definition file_name (path : string) : string := List.last (split_slash path) "".
(** [filename.rsplit(".", 1)[0]] *)
Fixpoint before_last_dot (s : string) : option string :=
  match s with
  | "" => None
  | String c s => match before_last_dot s with
                  | Some b => Some (String c b)
                  | None => if Ascii.eqb c (Ascii.ascii_of_nat 46) then Some "" else None
                  end
  end.
Definition stem (s : string) : string := get_or s (before_last_dot s).

(** The issue of one file, if any. *)
Definition file_issue (record : option stored) (path actual : string) (size : Z) : option VerificationIssue :=
  match record with
  | None =>
      if fold_hash (file_name path) == fold_hash (file_name_of actual) then None
      else Some (Issue path "orphan_hash_mismatch" None None (Some size) (Some (stem (file_name path)))
                   (Some actual))
  | Some s =>
      let id := Some (m_id (s_message s)) in
      let expected_size := size_bytes (s_message s) in
      match (match record_hash s with Some h => if actual == fold_hash h then None else Some h | None => None end) with
      | Some h => Some (Issue path "hash_mismatch" id expected_size (Some size) (Some h) (Some actual))
      | None =>
          match expected_size with
          | Some n => if (size =? n)%Z then None
                      else Some (Issue path "size_mismatch" id (Some n) (Some size) (record_hash s) (Some actual))
          | None => None
          end
      end
  end.
Fixpoint full_loop (records : list (string * stored)) (l : list string) (r : FullVerifyResult)
    : M World FullVerifyResult :=
  match l with
  | [] => mret r
  | path :: l =>
      let! stop := is_cancelled in
      if stop then mret (FullResult (fv_checked r) (fv_issues r) true) else
      let n := (fv_checked r + 1)%Z in
      let! h := attempt (hash_chunks path) in
      match h with
      | Err e => if isinstance e OperationCancelledError then mret (FullResult n (fv_issues r) true)
                 else mthrow e
      | Ok (actual, size) =>
          full_loop records l (FullResult n
            (fv_issues r ++ match file_issue (dict_get path records) path actual size with
                            | Some i => [i] | None => [] end)%list false)
      end
  end.
Definition full_verify : M World FullVerifyResult :=
  let! paths := iter_eml_paths None in
  let! l := db_read (list_stored_messages None) in
  full_loop (records_by_path l) paths (FullResult 0 [] false).

(** ** [orphan_scan] *)

(** [event.get("relative_path", event.get("final_relative_path"))], when a text. *)
Definition saved_path (e : event) : option string :=
  match get "relative_path" e with
  | Some _ => text_of "relative_path" e
  | None => text_of "final_relative_path" e
  end.
Definition provenance (es : list event) : list (string * event) :=
  fold_left (fun d e => if name_in ["fetch"; "item_saved"] e
                        then match saved_path e with Some p => dict_set p e d | None => d end
                        else d) es [].
(** The candidate of an orphan with its provenance. *)
Definition registerable (events : list (string * event)) (known_hashes : list string) (path actual : string)
    : option OrphanCandidate :=
  match dict_get path events with
  | Some e => match text_of "source_item_key" e with
              | Some k => if (get "file_hash" e == Some (JStr actual)) && negb (mem actual known_hashes)
                          then Some (Candidate path actual k) else None
              | None => None
              end
  | None => None
  end.
Definition quarantine_orphan (path : string) : M World unit :=
  quarantine_file path ;!
  let! now := mgets (fun w => isoformat (clock (ticks w))) in
  db_update' (record_audit (AuditIn (Some now) (Some "orphan_quarantine") None None None None (Some path))).
Fixpoint orphan_loop (known_paths known_hashes : list string) (events : list (string * event))
    (l : list string) (r : OrphanScanResult) : M World OrphanScanResult :=
  match l with
  | [] => mret r
  | path :: l =>
      let! stop := is_cancelled in
      if stop then mret (Scan (os_checked r) (os_registerable r) (os_quarantined r) true) else
      let n := (os_checked r + 1)%Z in
      if mem path known_paths
      then orphan_loop known_paths known_hashes events l (Scan n (os_registerable r) (os_quarantined r) false)
      else
      let! h := attempt (hash_chunks path) in
      match h with
      | Err e => if isinstance e OperationCancelledError
                 then mret (Scan n (os_registerable r) (os_quarantined r) true) else mthrow e
      | Ok (actual, _) =>
          match registerable events known_hashes path actual with
          | Some c => orphan_loop known_paths known_hashes events l
                        (Scan n (os_registerable r ++ [c])%list (os_quarantined r) false)
          | None => quarantine_orphan path ;!
                    orphan_loop known_paths known_hashes events l
                      (Scan n (os_registerable r) (os_quarantined r ++ [path])%list false)
          end
      end
  end.
Definition orphan_scan (with_manifest : bool) : M World OrphanScanResult :=
  let! paths := iter_eml_paths None in
  let! l := db_read (list_stored_messages None) in
  let! l' := db_read (list_stored_messages None) in
  let! es := if with_manifest then io (mgets synced) else mret [] in
  orphan_loop (omap record_path l) (omap record_hash l') (provenance es) paths (Scan 0 [] [] false).

(** ** [reparse_messages] *)

Record ReparseResult := Reparsed {
  rp_reparsed : Z; rp_skipped : Z; rp_missing : Z; rp_hash_mismatch : Z; rp_parse_failed : Z;
  rp_cancelled : bool }.
Context (parse : bytes -> option datetime -> result parsed) (normalize : string -> string).

(** [_internal_date] *)
Definition stored_date (m : message) : option datetime := nonempty (internal_date m) ≫= parse_datetime.
Definition clear_parse_failure (s : stored) : M World unit :=
  match s_membership s with
  | Some mf => match uidvalidity mf, uid mf with
               | Some v, Some u => db_update (clear_failure (account_id (s_message s)) (mf_folder_id mf) v u)
               | _, _ => mret tt
               end
  | None => mret tt
  end.
(** What becomes of one target: the count it adds to. *)
Inductive reparse_outcome := Done | Invalid | Missing | Mismatch | Unparsed.
Definition reparse_one (s : stored) : M World reparse_outcome :=
  match relative_path (s_message s), file_hash (s_message s) with
  | Some path, Some expected =>
      let! raw := attempt (read root path) in
      match raw with
      | Err e => if isinstance e FileNotFoundError then mret Missing else mthrow e
      | Ok raw =>
          if negb (hexdigest raw == fold_hash expected) then mret Mismatch else
          let! p := mlift (parse raw (stored_date (s_message s))) in
          match p_parse_error p with
          | Some _ => mret Unparsed
          | None =>
              begin_batch ;!
              db_update' (update_message_contents normalize (m_id (s_message s)) (message_contents_of p false)) ;!
              clear_parse_failure s ;!
              commit_batch ;!
              mret Done
          end
      end
  | _, _ => mret Invalid
  end.
Definition add_outcome (o : reparse_outcome) (r : ReparseResult) : ReparseResult :=
  let skip := match o with Done => 0%Z | _ => 1%Z end in
  Reparsed (rp_reparsed r + (1 - skip))%Z (rp_skipped r + skip)%Z
    (rp_missing r + (match o with Missing => 1 | _ => 0 end))%Z
    (rp_hash_mismatch r + (match o with Mismatch => 1 | _ => 0 end))%Z
    (rp_parse_failed r + (match o with Unparsed => 1 | _ => 0 end))%Z (rp_cancelled r).
Fixpoint reparse_loop (l : list stored) (r : ReparseResult) : M World ReparseResult :=
  match l with
  | [] => mret r
  | s :: l =>
      let! stop := is_cancelled in
      if stop then mret (Reparsed (rp_reparsed r) (rp_skipped r) (rp_missing r) (rp_hash_mismatch r)
                           (rp_parse_failed r) true)
      else let! o := reparse_one s in reparse_loop l (add_outcome o r)
  end.
Definition reparse_messages (account : option string) (only_failed : bool) (ids : option (list Z))
    : M World ReparseResult :=
  let! l := db_read (list_reparse_targets account only_failed) in
  let selected := match ids with
                  | Some ids => List.filter (fun s => mem (m_id (s_message s)) ids) l
                  | None => l
                  end in
  reparse_loop selected (Reparsed 0 0 0 0 0 false).
End Verify.

(** ** What the checks leave alone *)

Definition spares (keep : string -> Prop) (w w' : World) : Prop :=
  forall p, keep p -> read_file p w' = read_file p w.
#[export] Instance spares_preorder keep : PreOrder (spares keep).
Proof. split; [by intros w p|]. intros w1 w2 w3 H1 H2 p Hp. by rewrite H2, H1. Qed.
Lemma spares_tick keep w w' : spares keep w w' -> spares keep w (tick w').
Proof. done. Qed.
#[local] Hint Resolve spares_tick : maildock.

Section Frames.
Context (root : list string) (clock : nat -> datetime) (cancelled : nat -> bool)
  (fresh_name : nat -> string).

Lemma spares_io {A} keep (m : M World A) : preserves (spares keep) m -> preserves (spares keep) (io m).
Proof. intros H. apply preserves_io; [apply _|exact (spares_tick keep)|done]. Qed.
Lemma spares_db_write {A} keep (f : Db -> result (A * Db)) : preserves (spares keep) (db_write f).
Proof.
  apply spares_io. intros w. destruct (f (view w)) as [[a d]|e]; [|reflexivity]. unfold put_db.
  by destruct (working w).
Qed.
Lemma spares_quarantine keep path : (forall p, keep p -> is_temporary p = false) ->
  (forall l, resolve_inside root path = Ok l -> ~ keep (join l)) ->
  preserves (spares keep) (quarantine_file root fresh_name path).
Proof.
  intros Ht Hk. unfold quarantine_file, quarantine. apply preserves_bnd; [apply _|by apply preserves_gets; apply _|].
  intros name. destruct (resolve_inside root path) as [l|e] eqn:E; [|by intros w].
  match goal with |- preserves _ (mbnd _ ?k) => change (preserves (spares keep) (k l)) end. cbv beta.
  apply preserves_bnd; [apply _|by apply spares_io, preserves_gets; apply _|]. intros present.
  apply preserves_when; [apply _|]. apply preserves_bnd; [apply _|by apply spares_io, preserves_ret; apply _|].
  intros ?. apply spares_io. intros w. destruct (read_file (join l) w) eqn:Ec; [|reflexivity]. intros p Hp.
  unfold read_file. cbn [snd fs set_fs].
  assert (p <> quarantine_path l name) as H1.
  { intros ->. specialize (Ht _ Hp). by rewrite quarantine_path_temporary in Ht. }
  assert (p <> join l) as H2 by (intros ->; by apply (Hk l)).
  by rewrite dict_get_set_ne, dict_get_pop, Prelude.eqb_neq.
Qed.

(** Hashing a file reads it. *)
Definition hashed (path : string) (w : World) (r : result (string * Z)) (w' : World) : Prop :=
  fs w' = fs w /\ forall h n, r = Ok (h, n) -> exists l c, resolve_inside root path = Ok l
    /\ read_file (join l) w = Some c /\ h = hexdigest c /\ n = Z.of_nat (length c).
Lemma wp_hash_chunks path w : wp (hash_chunks root cancelled path) (hashed path w) w.
Proof.
  unfold hash_chunks. apply wp_bnd. unfold file_at. apply wp_lift.
  destruct (resolve_inside root path) as [l|e] eqn:El; cbn [rbind]; [|by split].
  apply wp_bnd. apply wp_io; [by split|]. unfold wp.
  change (read_file (join l) (tick w)) with (read_file (join l) w).
  destruct (read_file (join l) w) as [c|] eqn:Ec; [|by split]. cbn [fst snd]. apply wp_bnd.
  eapply wp_mono; [apply (wp_for _ _ (fun w' => fs w' = fs w) (fun _ w' => fs w' = fs w)); [done|]|].
  - intros a w' _ Hw'. apply wp_bnd. apply wp_io; [done|]. apply wp_ret. unfold check_cancelled, raise_if_cancelled, wp.
    by destruct (cancelled (ticks (tick w'))).
  - intros [[]|e] w' Hw'; [|by split]. apply wp_ret. split; [done|]. intros h n [= <- <-]. by exists l, c.
Qed.
Lemma spares_hash keep path : preserves (spares keep) (attempt (hash_chunks root cancelled path)).
Proof.
  apply preserves_attempt. intros w p _. destruct (wp_hash_chunks path w) as [E _]. unfold read_file. by rewrite E.
Qed.
Lemma spares_cancelled keep : preserves (spares keep) (is_cancelled cancelled).
Proof. by apply preserves_gets; apply _. Qed.

(** *** Orphans *)

Definition names_itself (q : string) : Prop := forall l, resolve_inside root q = Ok l -> join l = q.
Definition known (paths : list string) (p : string) : Prop := p ∈ paths /\ is_temporary p = false.

Lemma spares_orphan_loop paths hashes events l : Forall names_itself l -> forall r,
  preserves (spares (known paths)) (orphan_loop root clock cancelled fresh_name paths hashes events l r).
Proof.
  induction 1 as [|q l Hq Hl IH]; intros r; cbn [orphan_loop]; [by apply preserves_ret; apply _|].
  apply preserves_bnd; [apply _|apply spares_cancelled|]. intros [|]; [by apply preserves_ret; apply _|].
  destruct (mem q paths) eqn:Em; [apply IH|]. apply preserves_bnd; [apply _|apply spares_hash|].
  intros [[actual n]|e]; [|case_match; [by apply preserves_ret; apply _|by apply preserves_throw; apply _]].
  case_match; [apply IH|]. apply preserves_bnd; [apply _| |intros ?; apply IH].
  unfold quarantine_orphan. apply preserves_bnd; [apply _| |intros ?].
  - apply spares_quarantine; [by intros p []|]. intros l' El [Hin _]. rewrite (Hq l' El) in Hin.
    by apply mem_false in Em.
  - apply preserves_bnd; [apply _|by apply preserves_gets; apply _|]. intros now. apply spares_db_write.
Qed.

(** *** Files fetched since the checkpoint *)

(** An issue of a file: it is missing, or its content has another hash. *)
Lemma wp_hash_issue record path expected w :
  wp (hash_issue root cancelled record path expected) (fun r w' => fs w' = fs w /\ forall i, r = Ok (Some (Some i)) ->
    vi_path i = path /\ (vi_reason i = "hash_mismatch" -> exists l c, resolve_inside root path = Ok l
      /\ read_file (join l) w = Some c /\ hexdigest c <> fold_hash expected)) w.
Proof.
  unfold hash_issue. cbv zeta. apply wp_bnd. pose proof (wp_hash_chunks path w) as [E H]. unfold wp, attempt in *.
  destruct (hash_chunks root cancelled path w) as [[[h n]|e] w']; cbn [fst snd] in *.
  - split; [done|]. intros i. destruct (H h n eq_refl) as (l & c & El & Ec & -> & _). unfold mret. cbn [fst].
    destruct (hexdigest c == fold_hash expected) eqn:Eh; [done|]. intros [= <-]. split; [done|]. intros _. exists l, c. bsimp. done.
  - destruct (isinstance e OperationCancelledError); [split; [done|]; by intros i [=]|].
    destruct (isinstance e FileNotFoundError); [|split; [done|]; by intros i [=]].
    split; [done|]. intros i [= <-]. split; [done|]. intros [=].
Qed.

Section Intact.
Context (p : string) (c : bytes) (Ht : is_temporary p = false).
Definition holds (w : World) : Prop := read_file p w = Some c.

Lemma holds_spares {A} (m : M World A) : preserves (spares (fun q => q = p)) m -> keeps holds m.
Proof.
  intros Hm w Hw. specialize (Hm w p eq_refl). unfold holds, post in *. destruct (m w) as [[a|e] w']; cbn in *; congruence.
Qed.
Lemma holds_quarantine path : (forall l, resolve_inside root path = Ok l -> join l <> p) ->
  keeps holds (quarantine_file root fresh_name path).
Proof. intros H. apply holds_spares, spares_quarantine; [by intros q ->|done]. Qed.
Lemma holds_db {A} (f : Db -> result (A * Db)) : keeps holds (db_write f).
Proof. apply holds_spares, spares_db_write. Qed.
Lemma holds_handle record i : (vi_reason i = "hash_mismatch" -> forall l, resolve_inside root (vi_path i) = Ok l -> join l <> p) ->
  keeps holds (handle_issue root fresh_name record i).
Proof.
  intros Hi. unfold handle_issue. cbv zeta. apply keeps_bnd.
  { destruct (vi_reason i == "hash_mismatch") eqn:E; [|apply keeps_ret]. bsimp. apply keeps_when, holds_quarantine. auto. }
  intros ?. apply keeps_bnd; [|intros ?; apply keeps_ret]. destruct record as [s|]; [|apply keeps_ret].
  unfold repair_integrity_issue. apply keeps_bnd.
  { unfold record_integrity_failure. repeat case_match; first [apply keeps_ret|apply holds_db]. }
  intros ?. apply keeps_bnd.
  { destruct (vi_reason i == "hash_mismatch") eqn:E; [|apply keeps_ret]. bsimp. apply holds_quarantine. auto. }
  intros ?. apply keeps_bnd; [apply holds_db|]. intros ?. apply keeps_ret.
Qed.

Definition agrees (e : event) : Prop := forall a k path h l, event_name e = Some "fetch" ->
  fetch_facts e = Some (a, k, path, h) -> resolve_inside root path = Ok l -> join l = p -> hexdigest c = fold_hash h.
Lemma holds_range_loop records l : Forall agrees l -> forall r,
  keeps holds (range_loop root cancelled fresh_name records l r).
Proof.
  induction 1 as [|e l He Hl IH]; intros r; cbn [range_loop]; [apply keeps_ret|].
  destruct (event_name e == Some "fetch") eqn:En; cbn [negb]; [|apply IH]. bsimp.
  apply keeps_bnd; [apply keeps_gets|]. intros [|]; [apply keeps_ret|].
  destruct (fetch_facts e) as [[[[a k] path] expected]|] eqn:Ef; [|apply IH]. cbv zeta.
  eapply (triple_bnd _ _ _ (fun found w => holds w /\ forall i, found = Some (Some i) -> vi_path i = path
    /\ (vi_reason i = "hash_mismatch" -> forall l, resolve_inside root path = Ok l -> join l <> p))).
  - intros w Hw. pose proof (wp_hash_issue (dict_get (a, k) records) path expected w) as [E H]. unfold holds, read_file in *.
    unfold wp in *. destruct (hash_issue _ _ _ _ _ w) as [[found|x] w']; cbn in *; rewrite E; [|done].
    split; [done|]. intros i ->. destruct (H i eq_refl) as [Hp Hm]. split; [done|].
    intros Hr. destruct (Hm Hr) as (l1 & c1 & El & Ec & Hne). intros l2 El2 Ep. assert (l2 = l1) as -> by congruence.
    rewrite Ep in Ec. unfold read_file in Ec. assert (c1 = c) as -> by congruence. apply Hne.
    by eapply He.
  - intros [[i|]|]; apply triple_pure; intros Hf; [|apply IH|apply keeps_ret].
    destruct (Hf i eq_refl) as [Hp Hm]. apply keeps_bnd; [apply holds_handle; by rewrite Hp|]. intros cc. apply IH.
Qed.
End Intact.
End Frames.

(** C31. The check after a crash keeps what is intact: whichever operation fails and wherever it is
    cancelled, [range_verify] leaves alone every stored file whose content has the hash that each
    fetch event since the last checkpoint gives for it; only files with another content are moved to
    the quarantine. *)
Theorem range_verify_spares_intact root cancelled fresh_name w p c :
  is_temporary p = false -> read_file p w = Some c ->
  Forall (agrees root p c) (after_last_checkpoint (synced w)) ->
  read_file p (range_verify root cancelled fresh_name w).2 = Some c.
Proof.
  intros Ht Hc Ha. enough (wp (range_verify root cancelled fresh_name) (fun _ w' => read_file p w' = Some c) w) as H by exact H.
  unfold range_verify. wp_step. wp_step; [done|]. wp_step. wp_step; [done|]. wp_step.
  pose proof (holds_range_loop root cancelled fresh_name p c Ht (records_by_source_key (list_stored_messages None (view w)))
    (after_last_checkpoint (synced w)) Ha (RangeResult 0 [] 0 0 false) (tick (tick w)) Hc) as H.
  unfold post, wp, holds in *. change (view (tick w)) with (view w).
  by destruct (range_loop root cancelled fresh_name _ _ _ _) as [[r|e] w'].
Qed.

(** C32. Looking for orphans never touches a stored message: whichever operation fails and wherever
    the scan is cancelled, the file a row of the database names is left as it was by [orphan_scan];
    only files no row names are moved to the quarantine. *)
Theorem orphan_scan_spares_stored root clock cancelled fresh_name with_manifest w m p :
  (forall q, q ∈ (fs w).*1 -> names_itself root q) ->
  m ∈ messages (view w) -> relative_path m = Some p -> p <> "" -> is_temporary p = false ->
  read_file p (orphan_scan root clock cancelled fresh_name with_manifest w).2 = read_file p w.
Proof.
  intros Hn Hm Hp Hne Ht.
  assert (p ∈ omap record_path (list_stored_messages None (view w))) as Hin.
  { apply list_elem_of_omap. exists (with_first (view w) m). split.
    - apply list_elem_of_fmap. exists m. split; [done|]. apply list_elem_of_In, filter_In.
      split; [by apply list_elem_of_In|]. by rewrite Hp.
    - unfold record_path, with_first. cbn. rewrite Hp. unfold nonempty. by case_match; bsimp. }
  enough (wp (orphan_scan root clock cancelled fresh_name with_manifest)
    (fun _ w' => read_file p w' = read_file p w) w) as H by exact H.
  unfold orphan_scan, iter_eml_paths. wp_step. wp_step. wp_step. wp_step; [done|]. wp_step.
  wp_step. wp_step; [done|]. wp_step. wp_step; [done|]. apply wp_bnd.
  assert (forall es w4, fs w4 = fs w -> wp (orphan_loop root clock cancelled fresh_name
    (omap record_path (list_stored_messages None (view w))) (omap record_hash (list_stored_messages None (view w)))
    (provenance es) (merge_sort path_le (List.filter (fun q => String.prefix "eml/" q && ends_with ".eml" q) (fs w).*1))
    (Scan 0 [] [] false)) (fun _ w' => read_file p w' = read_file p w) w4) as Hrun.
  { intros es w4 E. assert (read_file p w4 = read_file p w) as <- by (unfold read_file; by rewrite E).
    unfold wp. eapply spares_orphan_loop; [|by split].
    apply Forall_forall. intros q Hq. rewrite merge_sort_Permutation in Hq.
    apply list_elem_of_In, filter_In in Hq as [Hq%list_elem_of_In _]. by apply Hn. }
  destruct with_manifest.
  - wp_step; [done|]. wp_step. by apply Hrun.
  - wp_step. by apply Hrun.
Qed.

(** ** What a full check reports *)

Section Full.
Context (root : list string) (cancelled : nat -> bool).
Context (Hnever : forall n, cancelled n = false).

(** The file [p] with the content [c] is as the database, or its name, says. *)
Definition intact (record : option stored) (p : string) (c : bytes) : Prop :=
  match record with
  | Some s => (forall h, record_hash s = Some h -> hexdigest c = fold_hash h)
              /\ (forall n, size_bytes (s_message s) = Some n -> Z.of_nat (length c) = n)
  | None => fold_hash (file_name p) = fold_hash (file_name_of (hexdigest c))
  end.
Lemma file_issue_intact record p c :
  file_issue record p (hexdigest c) (Z.of_nat (length c)) = None <-> intact record p c.
Proof.
  unfold file_issue, intact. destruct record as [s|].
  - destruct (record_hash s) as [h|].
    + destruct (hexdigest c == fold_hash h) eqn:E; bsimp.
      * destruct (size_bytes (s_message s)) as [n|]; [|naive_solver].
        destruct (Z.of_nat (length c) =? n)%Z eqn:En; [apply Z.eqb_eq in En|apply Z.eqb_neq in En]; naive_solver.
      * naive_solver.
    + destruct (size_bytes (s_message s)) as [n|]; [|naive_solver].
      destruct (Z.of_nat (length c) =? n)%Z eqn:En; [apply Z.eqb_eq in En|apply Z.eqb_neq in En]; naive_solver.
  - destruct (_ == _) eqn:E; bsimp; naive_solver.
Qed.
Lemma file_issue_path record p h n i : file_issue record p h n = Some i -> vi_path i = p.
Proof. unfold file_issue. repeat case_match; intros; simplify_eq; done. Qed.

(** Reading changes nothing but the step count. *)
Definition unmoved (w w' : World) : Prop := same_records w w' /\ fs w' = fs w.
Lemma unmoved_trans w1 w2 w3 : unmoved w1 w2 -> unmoved w2 w3 -> unmoved w1 w3.
Proof. unfold unmoved, same_records. intuition congruence. Qed.

Lemma succeeds_hash_chunks q l c w : faultless w -> resolve_inside root q = Ok l -> read_file (join l) w = Some c ->
  succeeds (attempt (hash_chunks root cancelled q))
    (fun r w' => r = Ok (hexdigest c, Z.of_nat (length c)) /\ unmoved w w') w.
Proof.
  intros Hf El Ec. assert (succeeds (hash_chunks root cancelled q)
    (fun r w' => r = (hexdigest c, Z.of_nat (length c)) /\ unmoved w w') w) as (r & w' & E & Hf' & -> & Hu).
  { unfold hash_chunks, file_at, read_bytes. rewrite El. cbn [rbind]. apply succeeds_bnd, succeeds_lift; [done|].
    apply succeeds_bnd, succeeds_io; [done|]. exists c, (tick w). change (read_file (join l) (tick w)) with (read_file (join l) w).
    rewrite Ec. split; [done|]. split; [done|]. apply succeeds_bnd.
    eapply succeeds_mono; [apply (succeeds_for _ _ (unmoved w)); [done|done|]|].
    - intros a w1 _ Hf1 Hu. apply succeeds_bnd, succeeds_io; [done|]. apply succeeds_ret; [done|].
      exists tt, (tick w1). unfold check_cancelled, raise_if_cancelled. by rewrite Hnever.
    - intros u w1 Hu Hf1. apply succeeds_ret; [done|]. done. }
  exists (Ok (hexdigest c, Z.of_nat (length c))), w'. unfold attempt. rewrite E. done.
Qed.

(** The issues of the files [l]. *)
Definition issues_of (records : list (string * stored)) (w : World) (l : list string) : list VerificationIssue :=
  flat_map (fun q => match read_file q w with
    | Some c => match file_issue (dict_get q records) q (hexdigest c) (Z.of_nat (length c)) with
                | Some i => [i] | None => [] end
    | None => [] end) l.
Definition damaged (records : list (string * stored)) (w : World) (q : string) : bool :=
  match read_file q w with
  | Some c => if file_issue (dict_get q records) q (hexdigest c) (Z.of_nat (length c)) is Some _ then true else false
  | None => false
  end.
Lemma issue_paths records w l : map vi_path (issues_of records w l) = List.filter (damaged records w) l.
Proof.
  induction l as [|q l IH]; [done|]. unfold issues_of in *. cbn [flat_map List.filter]. rewrite map_app, IH.
  unfold damaged at 2. destruct (read_file q w) as [c|]; [|done].
  destruct (file_issue _ q _ _) as [i|] eqn:E; [|done]. cbn. by rewrite (file_issue_path _ _ _ _ _ E).
Qed.
Lemma damaged_spec records w q : damaged records w q = true
  <-> exists c, read_file q w = Some c /\ ~ intact (dict_get q records) q c.
Proof.
  unfold damaged. split.
  - destruct (read_file q w) as [c|]; [|done]. intros H. exists c. split; [done|]. rewrite <- file_issue_intact.
    by destruct (file_issue _ _ _ _).
  - intros (c & -> & H). rewrite <- file_issue_intact in H. by destruct (file_issue _ _ _ _).
Qed.
Lemma full_loop_reports records l : forall r w, faultless w -> fv_cancelled r = false ->
  (forall q, q ∈ l -> (exists k, resolve_inside root q = Ok k /\ join k = q) /\ is_Some (read_file q w)) ->
  succeeds (full_loop root cancelled records l r) (fun r' w' => unmoved w w'
    /\ r' = FullResult (fv_checked r + Z.of_nat (length l)) (fv_issues r ++ issues_of records w l) false) w.
Proof.
  induction l as [|q l IH]; intros r w Hf Hr Hl; cbn [full_loop issues_of flat_map length].
  { apply succeeds_ret; [done|]. split; [done|]. rewrite app_nil_r, Z.add_0_r, <- Hr. by destruct r. }
  destruct (Hl q ltac:(by left)) as [(k & Ek & Eq) [c Hc]]. apply succeeds_bnd, succeeds_gets; [done|].
  rewrite Hnever. apply succeeds_bnd. eapply succeeds_mono; [apply (succeeds_hash_chunks q k c); [done|done|by rewrite Eq]|].
  intros x w1 [-> Hu] Hf1.
  eapply succeeds_mono; [apply (IH _ w1); [done|done|]|].
  - intros q' Hq'. destruct (Hl q' ltac:(by right)) as [H1 H2]. split; [done|]. unfold read_file in *. by rewrite (proj2 Hu).
  - intros r' w2 [Hu2 ->] _. split; [by eapply unmoved_trans|]. cbn [fv_checked fv_issues].
    assert (issues_of records w1 l = issues_of records w l) as -> by (unfold issues_of, read_file; by rewrite (proj2 Hu)).
    rewrite Hc, app_assoc. f_equal. lia.
Qed.
End Full.

Definition is_eml (p : string) : bool := String.prefix "eml/" p && ends_with ".eml" p.

(** A full check reports exactly the damage: without faults and cancellation [full_verify]
    returns, changes nothing, and names each EML file once whose content is not what its row's hash
    and size say or, for a file no row names, what its own name says; no issue means that there is
    no such file. *)
Lemma full_verify_reports_damage root cancelled w :
  faultless w -> (forall n, cancelled n = false) -> NoDup (fs w).*1 ->
  (forall q, q ∈ (fs w).*1 -> exists k, resolve_inside root q = Ok k /\ join k = q) ->
  let record q := dict_get q (records_by_path (list_stored_messages None (view w))) in
  succeeds (full_verify root cancelled) (fun r w' => unmoved w w' /\ fv_cancelled r = false
    /\ NoDup (map vi_path (fv_issues r))
    /\ forall q, q ∈ map vi_path (fv_issues r)
          <-> is_eml q = true /\ exists c, read_file q w = Some c /\ ~ intact (record q) q c) w.
Proof.
  intros Hf Hn Hd Hk record. set (records := records_by_path (list_stored_messages None (view w))) in *.
  set (l := merge_sort path_le (List.filter is_eml (fs w).*1)).
  assert (forall q, q ∈ l <-> q ∈ (fs w).*1 /\ is_eml q = true) as Hin.
  { intros q. subst l. rewrite merge_sort_Permutation, list_elem_of_In, filter_In, <- list_elem_of_In. done. }
  assert (NoDup l) as Hdl.
  { subst l. rewrite merge_sort_Permutation. apply NoDup_ListNoDup, List.NoDup_filter. by apply NoDup_ListNoDup. }
  unfold full_verify, iter_eml_paths. apply succeeds_bnd, succeeds_bnd, succeeds_lift; [done|].
  apply succeeds_io; [done|]. apply succeeds_gets; [done|]. apply succeeds_bnd, succeeds_db_read; [done|].
  change (view (tick w)) with (view w). change (fs (tick w)) with (fs w).
  change (List.filter (fun p => String.prefix "eml/" p && ends_with ".eml" p)) with (List.filter is_eml).
  eapply succeeds_mono; [apply (full_loop_reports root cancelled Hn); [done|done|]|].
  { intros q [Hq _]%Hin. split; [by apply Hk|]. change (is_Some (read_file q w)).
    destruct (read_file q w) eqn:E; [done|]. by apply dict_get_None in E. }
  intros r w' [Hu ->] _. change (issues_of records (tick (tick w))) with (issues_of records w). cbn [fv_issues fv_cancelled app].
  split; [done|]. split; [done|].
  rewrite issue_paths. split; [apply NoDup_ListNoDup, List.NoDup_filter; by apply NoDup_ListNoDup|].
  change (damaged (records_by_path (list_stored_messages None (view w))) (tick (tick w))) with (damaged records w).
  intros q. rewrite list_elem_of_In, filter_In, <- list_elem_of_In, damaged_spec. fold l. rewrite Hin. fold (record q). split.
  - intros [[_ He] Hc]. done.
  - intros [He (c & Ec & Hne)]. split; [|by exists c]. split; [|done].
    destruct (decide (q ∈ (fs w).*1)) as [|Hq]; [done|]. apply dict_get_None in Hq. unfold read_file in Ec. congruence.
Qed.

(** A storage with a stored message, an orphan and an unfinished batch. *)
Definition stored_row : message :=
  Message 1 "a" None "k" "imap:SU5CT1g:7:1" Active None (Some "eml/a/unknown/s.eml") None None None None None
    None None (Some 1%Z) false None None None None None None.
Definition checked_event : event :=
  [("event", JStr "fetch"); ("account_id", JStr "a"); ("source_item_key", JStr "imap:SU5CT1g:7:1");
   ("relative_path", JStr "eml/a/unknown/s.eml");
   ("file_hash", JStr "559aead08264d5795d3909718cdd05abd49572e84fe55590eef31a88a08fdffd")].
Definition checked_world : World :=
  MkWorld (set_messages (fun _ => [stored_row]) empty_db) None
    [("eml/a/unknown/s.eml", [65%Z]); ("eml/a/unknown/x.eml", [66%Z])] [checked_event] [] None 0 (fun _ => None) [] [].

Lemma orphan_scan_spares_stored_witness :
  let run := orphan_scan ["root"] (fun _ => DateTime 2024 5 1 12 0 0 0) (fun _ => false) (fun _ => "0a") true checked_world in
  read_file "eml/a/unknown/s.eml" run.2 = Some [65%Z]
  /\ map fst (fs run.2) = ["eml/a/unknown/s.eml"; "tmp/quarantine/x.eml.0a.eml"].
Proof.
  intros run. split; [|vm_compute; reflexivity]. subst run.
  rewrite (orphan_scan_spares_stored _ _ _ _ _ _ stored_row);
    [reflexivity| |by left|reflexivity|discriminate|vm_compute; reflexivity].
  intros q [->|[->|[]%elem_of_nil]%elem_of_cons]%elem_of_cons l H; apply Ok_inj in H as <-; reflexivity.
Defined.
Lemma range_verify_spares_intact_witness :
  read_file "eml/a/unknown/s.eml" (range_verify ["root"] (fun _ => false) (fun _ => "0a") checked_world).2 = Some [65%Z].
Proof.
  apply range_verify_spares_intact; [vm_compute; reflexivity|reflexivity|]. constructor; [|constructor].
  intros a k path h l _ H _ _. vm_compute in H. injection H as _ _ _ <-. vm_compute. reflexivity.
Defined.
Close Scope string_scope.
