(* ===== verification/VerifyManifest.v ===== *)
(** * VerifyManifest: checking the manifest files

    [verify_manifest] of [usecases/verify.py] with its two helpers. A file is its bytes; the reader
    of the PST manifests, which the loop runs over the files of a PST import, is a parameter. The
    check of a line is a copy of the reader's without the event schema: what it removes, the reader
    of [Manifest] removes. *)

From S2P Require Import Prelude Errors PyText Json Manifest EmlStorage.

(** ** Numbers

    [int(checksum, 16)] of bytes: surrounding whitespace, a sign, the prefix [0x] and single
    underscores between digits are allowed. *)

Fixpoint hex_run (l : bytes) (n : Z) (digit_needed : bool) : option Z :=
  match l with
  | [] => if digit_needed then None else Some n
  | c :: l => if (c =? 95)%Z then (if digit_needed then None else hex_run l n true)
              else match hex_value c with
                   | Some d => hex_run l (16 * n + d)%Z false
                   | None => None
                   end
  end.
Definition hex_body (l : bytes) : option Z :=
  match l with
  | z :: x :: r => if ((z =? 48) && ((x =? 120) || (x =? 88)))%Z
                   then hex_run (match r with u :: r' => if (u =? 95)%Z then r' else r | [] => r end) 0 true
                   else hex_run l 0 true
  | _ => hex_run l 0 true
  end.
Definition is_space (c : Z) : bool := ((9 <=? c) && (c <=? 13) || (c =? 32))%Z.
Fixpoint lstrip (l : bytes) : bytes :=
  match l with c :: r => if is_space c then lstrip r else l | [] => [] end.
Definition strip (l : bytes) : bytes := rev (lstrip (rev (lstrip l))).
Definition int16 (l : bytes) : option Z :=
  match strip l with
  | c :: r => if (c =? 45)%Z then option_map Z.opp (hex_body r)
              else if (c =? 43)%Z then hex_body r else hex_body (c :: r)
  | [] => None
  end.

(** [bytes.rpartition], when the separator is found. *)
Fixpoint rpartition (sep l : bytes) : option (bytes * bytes) :=
  match l with
  | [] => None
  | c :: r => match rpartition sep r with
              | Some (b, a) => Some (c :: b, a)
              | None => match strip_prefix sep l with Some a => Some ([], a) | None => None end
              end
  end.

(** ** Files *)

Definition CRC_SEPARATOR : bytes := lit "|CRC32:".

(** [_manifest_line_is_valid] *)
Definition line_is_valid (line : bytes) : result event :=
  match last line with
  | Some c =>
      check (c =? newline)%Z ManifestCorruptError "manifest record is missing its trailing newline" ;?
      match rpartition CRC_SEPARATOR (removelast line) with
      | None => corrupt "manifest record has no valid CRC32 suffix"
      | Some (payload, checksum) =>
          check (length checksum =? 8)%nat ManifestCorruptError "manifest record has no valid CRC32 suffix" ;?
          match int16 checksum with
          | None => corrupt "manifest record has an invalid CRC32 suffix"
          | Some expected =>
              check (crc32 payload mod 4294967296 =? expected)%Z ManifestCorruptError
                "manifest record CRC32 does not match its payload" ;?
              match loads payload with
              | Some (JObj decoded) =>
                  match get "event"%string decoded with
                  | Some (JStr _) => Ok decoded
                  | _ => corrupt "manifest record is not a JSON event object"
                  end
              | Some _ => corrupt "manifest record is not a JSON event object"
              | None => corrupt "manifest record contains invalid JSON"
              end
          end
      end
  | None => corrupt "manifest record is missing its trailing newline"
  end.

(** [_verify_manifest_file]: the records checked, the bytes cut off, the file left. *)
Fixpoint verify_loop (offset : nat) (n : Z) (lines : list bytes) : result (Z * option nat) :=
  match lines with
  | [] => Ok (n, None)
  | line :: next =>
      match line_is_valid line with
      | Err e => match next with [] => Ok (n, Some offset) | _ => Err e end
      | Ok _ => verify_loop (offset + length line) (n + 1)%Z next
      end
  end.
Definition verify_manifest_file (content : bytes) : result (Z * Z * bytes) :=
  let? (n, cut) := verify_loop 0 0%Z (readlines content) in
  let after := match cut with Some k => take k content | None => content end in
  Ok (n, (Z.of_nat (length content) - Z.of_nat (length after))%Z, after).

Record ManifestVerifyResult := ManifestResult {
  mv_files : Z; mv_records : Z; mv_repaired_bytes : Z; mv_cancelled : bool; mv_damaged : list string }.

(** The import of a PST manifest: [path.parent.name] when [path.parent.parent.name] is [pst]. *)
Definition pst_import (path : string) : option string :=
  match rev (split_slash path) with
  | _ :: uuid :: parent :: _ => if (parent == "pst"%string) then Some uuid else None
  | _ => None
  end.

(** [verify_manifest] over the manifest files in the order of their paths; the token is asked before
    each file. The result, and the files left. *)
Section Files.
Context (read_pst : string -> bytes -> result unit) (cancelled : nat -> bool).
Fixpoint verify_files (i : nat) (fs : files) (r : ManifestVerifyResult)
    : result ManifestVerifyResult * files :=
  match fs with
  | [] => (Ok r, [])
  | (path, content) :: rest =>
      if cancelled i
      then (Ok (ManifestResult (mv_files r) (mv_records r) (mv_repaired_bytes r) true (mv_damaged r)), fs)
      else
      match verify_manifest_file content with
      | Err e => (Err e, fs)
      | Ok (n, cut, after) =>
          match (match pst_import path with Some uuid => read_pst uuid after | None => Ok tt end) with
          | Err e => (Err e, (path, after) :: rest)
          | Ok _ =>
              let (r, rest) := verify_files (S i) rest
                (ManifestResult (mv_files r + 1) (mv_records r + n) (mv_repaired_bytes r + cut) false
                   (if (cut =? 0)%Z then mv_damaged r else mv_damaged r ++ [path])) in
              (r, (path, after) :: rest)
          end
      end
  end.
Definition verify_manifest (fs : files) : result ManifestVerifyResult * files :=
  verify_files 0 fs (ManifestResult 0 0 0 false []).
End Files.

(** ** The reader's lines are valid *)

Lemma hex_run_fold l : forall n b d, b = false \/ l <> [] ->
  fold_left (fun acc c => match acc, hex_value c with
    | Some n, Some d => Some (16 * n + d)%Z | _, _ => None end) l (Some n) = Some d ->
  hex_run l n b = Some d.
Proof.
  induction l as [|c l IH]; intros n b d Hb H; cbn [fold_left hex_run] in *; [by destruct Hb as [->|?]|].
  destruct (hex_value c) as [x|] eqn:E.
  - assert ((c =? 95)%Z = false) as ->; [|apply IH; [by left|done]].
    apply Z.eqb_neq. intros ->. by vm_compute in E.
  - exfalso. clear -H. induction l as [|y l IH]; [done|]. by apply IH.
Qed.
Definition is_hex_digit (c : Z) : Prop := is_Some (hex_value c).
Lemma parse_hex_digits_all l n : parse_hex l = Some n -> Forall is_hex_digit l.
Proof.
  unfold parse_hex. generalize 0%Z. induction l as [|c l IH]; intros m H; [done|]. cbn [fold_left] in H.
  unfold is_hex_digit. destruct (hex_value c) eqn:E; [constructor; [by exists z|by eapply IH]|].
  exfalso. clear -H. induction l as [|y l IH]; [done|]. by apply IH.
Qed.
Lemma hex_digit_range c : is_hex_digit c -> (48 <= c <= 57 \/ 65 <= c <= 70 \/ 97 <= c <= 102)%Z.
Proof.
  unfold is_hex_digit, hex_value. intros [d H].
  destruct ((48 <=? c)%Z && (c <=? 57)%Z) eqn:E1; [bsimp; lia|].
  destruct ((97 <=? c)%Z && (c <=? 102)%Z) eqn:E2; [bsimp; lia|].
  destruct ((65 <=? c)%Z && (c <=? 70)%Z) eqn:E3; [bsimp; lia|done].
Qed.
Lemma lstrip_hex l : Forall is_hex_digit l -> lstrip l = l.
Proof.
  intros H. destruct H as [|c l Hc _]; [done|]. cbn. apply hex_digit_range in Hc.
  assert (is_space c = false) as -> by (unfold is_space; apply orb_false_iff; lia). done.
Qed.
Lemma int16_hex l n : l <> [] -> parse_hex l = Some n -> int16 l = Some n.
Proof.
  intros Hne H. pose proof (parse_hex_digits_all _ _ H) as Hd. unfold int16, strip.
  rewrite (lstrip_hex l) by done.
  rewrite lstrip_hex by (apply Forall_rev; exact Hd). rewrite rev_involutive.
  assert (hex_body l = Some n) as Hb.
  { pose proof (hex_run_fold l 0 true n (or_intror Hne) H) as Hr. unfold hex_body.
    destruct l as [|c [|x r]]; [done|exact Hr|].
    apply Forall_cons in Hd as [_ Hd]. apply Forall_cons in Hd as [Hx _]. apply hex_digit_range in Hx.
    assert ((x =? 120)%Z || (x =? 88)%Z = false) as Hno by (apply orb_false_iff; lia).
    by rewrite Hno, andb_false_r. }
  destruct l as [|c r]; [done|]. apply Forall_cons in Hd as [Hc _]. apply hex_digit_range in Hc.
  destruct (Z.eqb_spec c 45); [lia|]. destruct (Z.eqb_spec c 43); [lia|done].
Qed.

(** The last separator of a record is the one of its suffix: no digit is a bar. *)
Lemma rpartition_none sep l : (forall c, head sep = Some c -> ~ In c l) -> sep <> [] -> rpartition sep l = None.
Proof.
  intros H Hne. induction l as [|c l IH]; [done|]. cbn. rewrite IH by (auto; intros ? ? ?; eapply H; [done|by right]).
  destruct sep as [|x sep]; [done|]. cbn. destruct (Z.eqb_spec x c) as [->|]; [|done].
  exfalso. by eapply H; [|left].
Qed.
Lemma rpartition_last c sep x h : ~ In c sep -> ~ In c h ->
  rpartition (c :: sep) (x ++ (c :: sep) ++ h)%list = Some (x, h).
Proof.
  intros Hs Hh. induction x as [|d x IH]; [|cbn [app rpartition] in *; by rewrite IH].
  cbn [app rpartition]. rewrite rpartition_none; [|intros ? [= <-] [?|?]%in_app_or; done|done].
  by rewrite (strip_prefix_app (c :: sep) h : strip_prefix _ (c :: sep ++ h)%list = _).
Qed.
Lemma strip_prefix_ok p l r : strip_prefix p l = Some r -> l = (p ++ r)%list.
Proof.
  revert l. induction p as [|c p IH]; intros l; cbn; [by intros [= ->]|]. destruct l as [|d l]; [done|].
  destruct (Z.eqb_spec c d) as [->|]; [|done]. by intros ->%IH.
Qed.
Lemma split_suffix_rpartition content payload crc : split_suffix content = Some (payload, crc) ->
  exists hex, rpartition CRC_SEPARATOR content = Some (payload, hex) /\ length hex = 8%nat /\
    int16 hex = Some crc.
Proof.
  unfold split_suffix. destruct (Nat.leb_spec 15 (length content)) as [Hl|]; [|done].
  destruct (strip_prefix _ _) as [hex|] eqn:E; [|done]. destruct (parse_hex hex) as [n|] eqn:Eh; [|done].
  intros [= <- <-]. apply strip_prefix_ok in E. exists hex.
  assert (length hex = 8%nat) as H8.
  { apply (f_equal length) in E. rewrite length_drop, length_app in E. cbn in E. lia. }
  split_and!; [|done|apply int16_hex; [by destruct hex|done]].
  rewrite <- (take_drop (length content - 15) content) at 1. rewrite E. apply rpartition_last.
  - vm_compute. intuition lia.
  - intros Hin. change (In 124%Z hex) in Hin. apply parse_hex_digits_all in Eh. rewrite Forall_forall in Eh.
    apply list_elem_of_In, Eh, hex_digit_range in Hin. lia.
Qed.
Lemma parse_line_valid line e : parse_line line = Ok e -> line_is_valid line = Ok e.
Proof.
  unfold parse_line, line_is_valid. destruct (last line) as [c|]; [|done].
  destruct (c =? newline)%Z; [|done]. cbn [check rbind].
  destruct (split_suffix _) as [[payload crc]|] eqn:E; [|done].
  apply split_suffix_rpartition in E as (hex & -> & -> & ->). cbn [Nat.eqb check rbind].
  destruct (_ =? crc)%Z; [|done]. cbn [check rbind].
  destruct (loads payload) as [[]|]; try done. destruct (validate_event _) as [p|] eqn:E; [|done].
  intros [= <-]. pose proof E as ->%validate_event_same. revert E. unfold validate_event.
  by destruct (get "event" _) as [[]|].
Qed.

(** Where the reader stops with no exception, the check stops at the same line or keeps it. *)
Lemma verify_loop_read lines : forall offset s n es cut, read_loop offset s lines = (es, Ok cut) ->
  exists n' cut', verify_loop offset n lines = Ok (n', cut') /\
    (cut' = cut /\ n' = n + Z.of_nat (length es)
     \/ cut' = None /\ is_Some cut /\ n' = n + Z.of_nat (length es) + 1)%Z.
Proof.
  induction lines as [|line next IH]; intros offset s n es cut; cbn [read_loop verify_loop].
  { intros [= <- <-]. eexists _, _. split; [done|]. left. split; [done|]. cbn. lia. }
  destruct (parse_line line) as [e|x] eqn:E.
  - rewrite (parse_line_valid _ _ E). destruct (next_checkpoint e s) as [s'|]; [|done].
    destruct (read_loop _ s' next) as [es' ending] eqn:Er. intros [= <- ->].
    destruct (IH _ _ (n + 1)%Z _ _ Er) as (n' & cut' & -> & Hn). eexists _, _. split; [done|].
    cbn [length]. destruct Hn as [[-> ->]|(-> & Hc & ->)]; [left; split; [done|lia]|right].
    split_and!; [done|done|lia].
  - destruct next as [|? ?]; [|done]. intros [= <- <-]. cbn [verify_loop length].
    destruct (line_is_valid line); eexists _, _; (split; [done|]); [right|left]; split_and!; try done; lia.
Qed.

(** C34. Verifying the manifests takes nothing from their reader: on a file the reader reads without
    an exception, the check returns; it leaves what the reader would leave, followed at most by the
    one last line the reader cuts off for a reason the check does not know, and counts the lines it
    leaves. *)
Theorem verify_keeps_readable content es after : read_events content = (es, None, after) ->
  exists n cut content', verify_manifest_file content = Ok (n, cut, content') /\
    (content' = after /\ n = Z.of_nat (length es)
     \/ content' = content /\ n = Z.of_nat (length es) + 1)%Z /\
    cut = (Z.of_nat (length content) - Z.of_nat (length content'))%Z.
Proof.
  unfold read_events, verify_manifest_file. destruct (read_loop _ _ _) as [es' [cut|]] eqn:E; [|done].
  intros H. apply (verify_loop_read _ _ _ 0%Z) in E as (n & cut' & -> & Hn). cbn [rbind].
  assert (es' = es /\ after = match cut with Some k => take k content | None => content end) as [-> ->]
    by (destruct cut; by simplify_eq).
  eexists _, _, _. split; [done|]. split; [|done].
  destruct Hn as [[-> ->]|(-> & Hc & ->)]; [left; split; [done|lia]|right; split; [done|lia]].
Qed.

(** A file whose last line is torn: the line is cut off. *)
Lemma verify_keeps_readable_witness :
  exists n cut content', verify_manifest_file (line_of sample_event ++ take 30 (line_of sample_event))
    = Ok (n, cut, content') /\
    (content' = line_of sample_event /\ n = Z.of_nat (length [canon_event sample_event])
     \/ content' = (line_of sample_event ++ take 30 (line_of sample_event))%list
        /\ n = Z.of_nat (length [canon_event sample_event]) + 1)%Z /\
    cut = (Z.of_nat (length (line_of sample_event ++ take 30 (line_of sample_event)))
           - Z.of_nat (length content'))%Z.
Proof.
  apply (verify_keeps_readable (line_of sample_event ++ take 30 (line_of sample_event))).
  vm_compute. reflexivity.
Defined.
