(* ===== verification/PstJob.v ===== *)
(** * PstJob: which import is started, and what a re-import does

    Theorems on [PstGenerations]: the table of decisions, the space an import needs, and what the
    verification of a generation asks of its messages. *)

From S2P Require Import Prelude Errors PyText PyTime Json Manifest Sha256 PstManifest Database DatabaseWf World EmlStorage DeleteRemote Sync PstTables PstStage PstGenerations PstSamples PstSafe.

Open Scope string_scope.

(** ** The decision *)

Definition incomplete_of (sha : string) (d : Db) (i : pst_import) : Prop :=
  i ∈ pst_imports d /\ pi_source_sha256 i = sha /\ pi_status i ∈ INCOMPLETE_IMPORT_STATUSES.
Definition completed_of (sha : string) (d : Db) (i : pst_import) : Prop :=
  i ∈ pst_imports d /\ pi_source_sha256 i = sha /\ pi_is_active i = true /\ pi_status i ∈ COMPLETE_STATUSES.
#[export] Instance import_le_trans : Transitive import_le.
Proof. unfold import_le. intros a b c. lia. Qed.
#[export] Instance import_le_total : Total import_le.
Proof. unfold import_le. intros a b. lia. Qed.

Definition incomplete_list (sha : string) (db : Db) : list pst_import :=
  merge_sort import_le (List.filter (fun i => mem (pi_status i) INCOMPLETE_IMPORT_STATUSES)
                          (find_incomplete_by_source_sha256 sha db)).
Lemma incomplete_list_spec sha d i : i ∈ incomplete_list sha d <-> incomplete_of sha d i.
Proof.
  unfold incomplete_list, find_incomplete_by_source_sha256, incomplete_of.
  rewrite merge_sort_Permutation, list_elem_of_In, !filter_In, <- !list_elem_of_In, andb_true_iff, !mem_true, eqb_true.
  tauto.
Qed.
Lemma incomplete_list_oldest sha d i l : incomplete_list sha d = i :: l ->
  forall j, incomplete_of sha d j -> (pi_id i <= pi_id j)%Z.
Proof.
  intros E j Hj%incomplete_list_spec. rewrite E in Hj.
  pose proof (StronglySorted_merge_sort import_le (List.filter (fun i => mem (pi_status i) INCOMPLETE_IMPORT_STATUSES)
    (find_incomplete_by_source_sha256 sha d))) as Hs.
  fold (incomplete_list sha d) in Hs. rewrite E in Hs. apply StronglySorted_inv in Hs as [_ Hs].
  apply elem_of_cons in Hj as [->|Hj]; [lia|]. rewrite Forall_forall in Hs. by apply Hs.
Qed.
Lemma find_active_completed sha d : pst_wf d ->
  match find_active_by_source_sha256 sha d with
  | Some a => if mem (pi_status a) COMPLETE_STATUSES then completed_of sha d a else forall i, ~ completed_of sha d i
  | None => forall i, ~ completed_of sha d i
  end.
Proof.
  intros Hwf. unfold find_active_by_source_sha256. destruct (List.find _ _) as [a|] eqn:E.
  - apply List.find_some in E as [Ha%list_elem_of_In [Es Aa]%andb_true_iff]. apply eqb_true_1 in Es.
    destruct (mem (pi_status a) COMPLETE_STATUSES) eqn:Em; [apply mem_true in Em; by split_and!|].
    intros i (Hi & Ei & Ai & Ci). apply mem_true in Ci.
    assert (i = a) as ->; [|congruence].
    eapply (omap_NoDup_inj active_key); [apply Hwf|done|done|unfold active_key; by rewrite Ai|unfold active_key; rewrite Aa; congruence].
  - intros i (Hi%list_elem_of_In & Ei & Ai & Ci). apply (find_none _ _ E) in Hi. rewrite Ai, Ei, Prelude.eqb_refl in Hi. done.
Qed.

(** What the answer must be. *)
Definition decided (sha : string) (d : option decision) (db : Db) (r : resolution) : Prop :=
  let no_incomplete := forall i, ~ incomplete_of sha db i in
  let completed a := completed_of sha db a /\ no_incomplete /\ re_replaces r = Some (pi_id a) in
  match re_action r with
  | ActNew => d = None /\ no_incomplete /\ (forall i, ~ completed_of sha db i) /\ re_replaces r = None
  | ActNeedsIncompleteDecision => d = None /\ re_incomplete r <> [] /\ forall i, i ∈ re_incomplete r <-> incomplete_of sha db i
  | ActResume => d = Some Resume /\ exists i, re_import r = Some i /\ incomplete_of sha db i
                  /\ forall j, incomplete_of sha db j -> (pi_id i <= pi_id j)%Z
  | ActDiscardIncomplete => d = Some DiscardIncomplete /\ re_incomplete r <> []
                              /\ forall i, i ∈ re_incomplete r <-> incomplete_of sha db i
  | ActNeedsReimportDecision => d = None /\ exists a, re_import r = Some a /\ completed a
  | ActCancel => d = Some Cancel /\ exists a, re_import r = Some a /\ completed a
  | ActReimport => d = Some Reimport /\ exists a, re_import r = Some a /\ completed a
  end.
(** The decisions that are refused. *)
Definition refused (sha : string) (d : option decision) (db : Db) : Prop :=
  (exists i, incomplete_of sha db i) /\ (d = Some Cancel \/ d = Some Reimport)
  \/ (forall i, ~ incomplete_of sha db i) /\ (exists a, completed_of sha db a) /\ (d = Some Resume \/ d = Some DiscardIncomplete)
  \/ (forall i, ~ incomplete_of sha db i) /\ (forall a, ~ completed_of sha db a) /\ d <> None.

(** What an import of a file does is decided by the generations the database has of it and by
    the user: nothing is resumed, discarded or replaced without the decision to do so; a resumed
    import is the oldest incomplete one; a re-import replaces the complete active generation; a new
    import starts only where there is neither; exactly the decisions that do not fit are refused. *)
Lemma import_job_decided sha d db : pst_wf db -> is_hash sha = true ->
  match resolve_import_job sha d db with
  | Ok r => decided (fold_hash sha) d db r
  | Err _ => refused (fold_hash sha) d db
  end.
Proof.
  intros Hwf Hh. unfold resolve_import_job, validate_source_sha256. rewrite Hh. cbn [check rbind].
  set (s := fold_hash sha). fold (incomplete_list s db). pose proof (incomplete_list_spec s db) as Hl.
  pose proof (incomplete_list_oldest s db) as Ho. pose proof (find_active_completed s db Hwf) as Ha.
  destruct (incomplete_list s db) as [|i l].
  - assert (forall i, ~ incomplete_of s db i) as Hno by (intros i Hi; apply Hl in Hi; set_solver). clear Hl Ho.
    destruct (find_active_by_source_sha256 s db) as [a|]; [destruct (mem (pi_status a) COMPLETE_STATUSES)|];
      destruct d as [[]|]; cbn; unfold decided, refused; cbn; naive_solver.
  - assert (incomplete_of s db i) as Hi by (apply Hl; by left). clear Ha.
    assert (forall j, incomplete_of s db j -> (pi_id i <= pi_id j)%Z) as Hold by by eapply Ho. clear Ho.
    destruct d as [[]|]; cbn; unfold decided, refused; cbn; eauto 10.
Qed.
Definition one_generation : Db := MkDb [] [] [] [] [] [] [] [] [] 1 1 1 1 [generation_row 1 "u1" sample_sha true None] [] 2.
Lemma one_generation_wf : pst_wf one_generation.
Proof. split; cbn; repeat constructor; set_solver. Defined.

(** ** Space *)

(** An import needs two and a half times the size of the PST, rounded up, besides what it keeps:
    it is refused exactly when less is free, and negative sizes are refused. *)
Lemma capacity_bounds size retained available :
  match check_import_capacity size retained (Ok tt) (Ok available) with
  | Ok c => (0 <= size /\ 0 <= retained /\ 2 * available >= 5 * size + 2 * retained
             /\ 5 * size + 2 * retained <= 2 * ca_required c <= 5 * size + 2 * retained + 1
             /\ ca_required c <= ca_available c)%Z
  | Err e => (size < 0 \/ retained < 0 \/ 2 * available < 5 * size + 2 * retained)%Z
  end.
Proof.
  unfold check_import_capacity.
  destruct ((size <? 0) || (retained <? 0))%Z eqn:En; cbn [negb check rbind raise].
  { apply orb_true_iff in En as [?%Z.ltb_lt|?%Z.ltb_lt]; lia. }
  apply orb_false_iff in En as [?%Z.ltb_ge ?%Z.ltb_ge].
  set (req := ((size * 5 + 1) / 2 + retained)%Z).
  assert (5 * size + 2 * retained <= 2 * req <= 5 * size + 2 * retained + 1)%Z as Hr.
  { subst req. pose proof (Z.div_mod (size * 5 + 1) 2 ltac:(lia)). pose proof (Z.mod_pos_bound (size * 5 + 1) 2 ltac:(lia)). lia. }
  cbn [rbind]. clearbody req. destruct (Z.ltb_spec available req); cbn [negb check rbind raise ca_required ca_available]; lia.
Qed.

(** ** The verification of a generation *)

(** A row of [messages] has no remote state. *)
Lemma registered_never account e m : registered account e m = false.
Proof. unfold registered. cbv zeta. change (attr "remote_state" (message_record m)) with JNull. cbn [py_eq]. by rewrite andb_false_r. Qed.

Section Never.
Context (env : pst_env) (import_id : Z) (uuid : string) (w0 : World).
Let here : World -> Prop := still w0.
Definition fails {A} (m : M World A) : Prop := triple here m (fun _ _ => False) here.
Lemma fails_raise {A} c msg : fails (A := A) (mraise c msg).
Proof. by apply triple_raise. Qed.
Lemma fails_unreadable {A} b msg (m : M World A) : fails m -> fails (unreadable_if b msg m).
Proof. intros H. unfold unreadable_if. case_match; [by apply triple_raise|done]. Qed.
Lemma fails_bnd {A B} (m : M World A) (k : A -> M World B) : preserves still m -> (forall a, fails (k a)) -> fails (mbnd m k).
Proof.
  intros Hm Hk. eapply triple_bnd with (Q := fun _ => here); [|exact Hk]. intros w Hw. specialize (Hm w). unfold post, here in *.
  destruct (m w) as [[a|e] w']; cbn [snd] in Hm; by etransitivity.
Qed.
Lemma fails_first {A B} (m : M World A) (k : A -> M World B) : fails m -> fails (mbnd m k).
Proof. intros H. eapply triple_bnd; [exact H|]. by intros a w []. Qed.
Lemma still_read {A} (f : Db -> A) : preserves still (db_read f).
Proof. by apply still_io. Qed.

Lemma still_snapshot {A} (f : World -> result A) : preserves still (mtry (io (fun w => (f w, w))) snapshot_error).
Proof.
  intros w. unfold mtry, io, snapshot_error. destruct (faults w (ticks w)) as [e|]; [|destruct (f (tick w)) as [a|e]]; cbn [snd]; try done;
    by destruct (isinstance e OSError).
Qed.

Lemma verify_item_fails account names es discovered saved i : fails (verify_item env account names es discovered saved i).
Proof.
  unfold verify_item. cbv zeta. do 2 apply fails_unreadable.
  destruct (it_message_row_id i) as [mid|], (dict_get (it_source_item_key i) saved) as [e|], (dict_get (it_source_item_key i) discovered) as [f|]; try apply fails_raise.
  apply fails_unreadable, fails_bnd; [apply still_read|]. intros m. unfold unreadable_if.
  destruct m as [m|]; [rewrite registered_never|]; apply fails_raise.
Qed.
Lemma verify_generation_fails allow : list_items import_id (view w0) <> [] ->
  fails (verify_generation env import_id uuid allow).
Proof.
  intros Hne. unfold verify_generation. apply fails_bnd; [apply still_read|]. intros [r|]; [|apply fails_raise].
  do 2 apply fails_unreadable. apply fails_bnd; [apply still_snapshot|]. intros snapshot. do 2 apply fails_unreadable.
  apply fails_bnd; [apply still_snapshot|]. intros ?. apply fails_bnd; [apply still_read|]. intros fs.
  apply fails_bnd; [by intros w|]. intros es. cbv zeta. apply fails_unreadable.
  eapply triple_bnd with (Q := fun l w => here w /\ l = list_items import_id (view w0)).
  { unfold here. intros w Hw. pose proof (still_read (list_items import_id) w) as Hs. unfold db_read, io, post in *.
    destruct (faults w (ticks w)); cbn [fst snd] in *; [exact Hw|]. split; [exact Hw|].
    destruct Hw as (_ & _ & Hc & Hk). unfold view. cbn. by rewrite Hk, Hc. }
  intros l. apply triple_pure. intros ->. destruct (list_items import_id (view w0)) as [|i l]; [done|].
  apply fails_unreadable, fails_first. cbn [verify_items]. apply fails_first, verify_item_fails.
Qed.
End Never.

(** A generation with an item is never switched to: its verification asks the [messages] row for
    a remote state it does not have, so that every switch ends with an error and changes nothing -
    neither the database nor the manifest nor a file. *)
Lemma generation_never_switched env import_id uuid replaces_id replaces_uuid w :
  list_items import_id (view w) <> [] ->
  let r := switch_generation env import_id uuid replaces_id replaces_uuid w in
  is_ok r.1 = false /\ still w r.2.
Proof.
  intros Hne. assert (fails w (switch_generation env import_id uuid replaces_id replaces_uuid)) as H.
  { unfold switch_generation. apply fails_bnd; [apply still_read|]. intros n. apply fails_bnd; [apply still_read|]. intros o.
    destruct n as [n|], o as [o|]; try apply fails_raise. apply fails_unreadable, fails_first. by apply verify_generation_fails. }
  specialize (H w ltac:(reflexivity)). cbv zeta. unfold post in H.
  by destruct (switch_generation env import_id uuid replaces_id replaces_uuid w) as [[a|e] w'].
Qed.

Close Scope string_scope.
