(* ===== verification/PstReindexSafe.v ===== *)
(** * PstReindexSafe: what a rebuild of the whole database does

    The theorems on [PstReindex]: the installed database is replaced by the one a build ended with or not at all,
    the loop over the generations ends, and the rows of a rebuilt generation stand for its events and
    verified files. *)

From S2P Require Import Prelude Errors PyText PyTime Retry Json Manifest Sha256 PstManifest Database DatabaseWf World EmlStorage DeleteRemote Sync Reindex ReindexSafe PstTables PstStage PstGenerations PstReindex PstSamples PstSafe.

Open Scope string_scope.

(** ** An invariant of the statements is one of a rebuild *)

Section Frame.
Context (P : World -> Prop).
Context (Ptick : forall w, P w -> P (tick w)).
Context (Pwork : forall o w, P w -> P (set_working o w)).
Context (Pcomm : forall d w, P w -> P (set_committed d w)).
Context (root : list string) (clock : nat -> datetime) (cancelled : nat -> bool)
  (parse : bytes -> option datetime -> result parsed) (normalize : string -> string).

Lemma frame_io {A} (m : M World A) : keeps P m -> keeps P (io m).
Proof using Ptick. intros H w Hw. unfold io. destruct (faults w (ticks w)); [by apply Ptick|]. by apply H, Ptick. Qed.
Lemma frame_read {A} (f : World -> A) : keeps P (io (mgets f)).
Proof using Ptick. apply frame_io, keeps_gets. Qed.
Lemma frame_write {A} (f : Db -> result (A * Db)) : keeps P (db_write f).
Proof using Ptick Pwork Pcomm.
  apply frame_io. intros w Hw. destruct (f (view w)) as [[a d]|e]; [|exact Hw]. unfold post, put_db.
  destruct (working w); [by apply Pwork|by apply Pcomm].
Qed.
Lemma frame_update' f : keeps P (db_update' f).
Proof using Ptick Pwork Pcomm. apply frame_write. Qed.
Lemma frame_begin : keeps P begin_batch.
Proof using Ptick Pwork. apply frame_io. intros w Hw. unfold post. destruct (working w); [done|by apply Pwork]. Qed.
Lemma frame_commit : keeps P commit_batch.
Proof using Ptick Pwork Pcomm.
  apply frame_io, keeps_modify. intros w Hw. destruct (working w); [by apply Pwork, Pcomm|done].
Qed.
Lemma frame_verified path hash : keeps P (verified root path hash).
Proof using Ptick.
  unfold verified. apply keeps_try; [|intros e; apply keeps_if; [apply keeps_ret|apply keeps_throw]].
  apply keeps_bnd; [|intros ?; apply keeps_ret]. unfold read_verified. apply keeps_if; [apply keeps_raise|].
  apply keeps_bnd; [apply keeps_lift|]. intros q. apply keeps_bnd; [|intros c; apply keeps_if; [apply keeps_ret|apply keeps_raise]].
  apply frame_io. intros w Hw. by case_match.
Qed.

(** *** [reindex] *)

Lemma frame_gather_loop es : forall g, keeps P (gather_loop cancelled es g).
Proof using Ptick.
  induction es as [|e es IH]; intros g; cbn [gather_loop]; [apply keeps_ret|].
  apply keeps_bnd; [apply frame_io, keeps_ret|]. intros ?. apply keeps_bnd; [apply keeps_check_cancel|]. intros ?.
  apply keeps_bnd; [apply keeps_lift|]. intros g'. apply IH.
Qed.
Lemma frame_prepare_fetch p states f s : keeps P (prepare_fetch root parse p states f s).
Proof using Ptick.
  unfold prepare_fetch. destruct (fr_key f) as [[[account folder] v] u].
  destruct (text "relative_path"%string _) as [path|]; [|apply keeps_ret].
  destruct (text "file_hash"%string _) as [hash|]; [|apply keeps_ret]. destruct (dict_get _ _); [|apply keeps_raise].
  apply keeps_bnd; [apply frame_verified|]. intros raw. apply keeps_if; [apply keeps_ret|].
  apply keeps_bnd; [|intros ?; apply keeps_ret]. destruct raw; [apply keeps_lift|apply keeps_ret].
Qed.
Lemma frame_prepare p g : keeps P (prepare root cancelled parse p g).
Proof using Ptick.
  unfold prepare. apply keeps_bnd.
  { apply keeps_on_cancel, keeps_bnd; [apply keeps_check_cancel|]. intros ?. apply keeps_ret. }
  intros []; [apply keeps_ret|]. generalize (Preparation [] 0 0 0 (pl_warnings p) []).
  induction (valid_fetches p g) as [|f l IH]; intros s; cbn [prepare_loop]; [apply keeps_ret|].
  apply keeps_bnd.
  - intros w Hw. pose proof (keeps_bnd P _ _ (keeps_check_cancel cancelled P) (fun _ => frame_prepare_fetch p (g_states g) f s) w Hw) as H.
    unfold attempt. by destruct (mbnd _ _ w) as [[?|?] ?].
  - intros [s'|e]; [apply IH|]. apply keeps_if; [apply keeps_ret|apply keeps_throw].
Qed.
Lemma frame_write_rows p l s : keeps P (write_rows cancelled normalize p l s).
Proof using Ptick Pwork Pcomm.
  assert (forall f, keeps P (db_write (upsert_folder f))) as Hf by (intros; apply frame_write).
  unfold write_rows. apply keeps_bnd; [apply keeps_check_cancel|]. intros ?.
  apply keeps_bnd; [apply frame_begin|]. intros ?. apply keeps_bnd.
  { apply keeps_for. intros x. apply keeps_bnd; [apply frame_write|]. intros ?. apply keeps_ret. }
  intros ?. apply keeps_bnd; [by apply keeps_write_folders|]. intros i. apply keeps_bnd.
  { apply keeps_write_messages; [done|]. apply Forall_true. intros x folder moved. apply frame_write. }
  intros i'. apply keeps_bnd; [apply keeps_write_aliases; intros; apply frame_update'|].
  intros ?. apply keeps_bnd; [|intros ?; apply frame_commit].
  apply keeps_write_snapshots; [done|]. intros. apply frame_update'.
Qed.
Lemma frame_reindex : keeps P (reindex root clock cancelled parse normalize).
Proof using Ptick Pwork Pcomm.
  unfold reindex. apply keeps_bnd.
  { apply keeps_on_cancel, keeps_bnd; [|intros ?; apply keeps_ret]. unfold gather.
    apply keeps_bnd; [apply frame_read|]. intros es. apply frame_gather_loop. }
  intros [g|]; [|apply keeps_ret]. apply keeps_bnd; [apply keeps_lift|]. intros p. apply keeps_bnd.
  { unfold rebuild. apply keeps_bnd; [apply frame_prepare|]. intros [s []]; [apply keeps_ret|].
    apply keeps_on_cancel, keeps_bnd; [apply frame_write_rows|]. intros ?. apply keeps_ret. }
  intros [s []]; [apply keeps_ret|]. apply keeps_bnd; [|intros ?; apply keeps_ret]. apply keeps_for.
  intros [[e op] related]. unfold write_audit_entry. apply keeps_bnd; [apply keeps_lift|]. intros key. cbv zeta.
  apply keeps_bnd; [apply keeps_gets|]. intros now. apply keeps_bnd; [apply keeps_lift|]. intros entry.
  apply frame_update'.
Qed.

(** *** The generations *)

Lemma frame_read_log uuid : keeps P (read_log uuid).
Proof using Ptick. apply frame_io. intros w Hw. by case_match. Qed.
Lemma frame_snapshot_error {A} e : keeps P (snapshot_error (A := A) e).
Proof using. apply keeps_if; [apply keeps_raise|apply keeps_throw]. Qed.
Lemma frame_snapshot uuid : keeps P (manifest_snapshot uuid).
Proof using Ptick. apply keeps_try; [|apply frame_snapshot_error]. apply frame_io. intros w Hw. unfold post. by case_match. Qed.
Lemma frame_folders_snapshot uuid : keeps P (manifest_folders uuid).
Proof using Ptick. apply keeps_try; [|apply frame_snapshot_error]. apply frame_io. intros w Hw. unfold post. by case_match. Qed.
Lemma frame_pst_folders account l : forall ids, keeps P (write_pst_folders cancelled account l ids).
Proof using Ptick Pwork Pcomm.
  induction l as [|[] l IH]; intros ids; cbn [write_pst_folders]; try apply keeps_ret; try apply keeps_raise.
  apply keeps_bnd; [apply keeps_check_cancel|]. intros ?. destruct (text "raw_name" d), (text "display_name" d); try apply keeps_raise.
  apply keeps_bnd; [apply frame_write|]. intros id. apply IH.
Qed.
Lemma frame_rebuild_item account id g active ids x c :
  keeps P (rebuild_item root cancelled parse normalize account id g active ids x c).
Proof using Ptick Pwork Pcomm.
  unfold rebuild_item. destruct x as [key found]. apply keeps_bnd; [apply keeps_check_cancel|]. intros ?.
  destruct (item_source g ids key found) as [[[[[[[saved folder] fid] rel] sha] path] hash]|]; [|apply keeps_ret].
  cbv zeta. apply keeps_bnd; [apply keeps_if; [apply keeps_ret|apply frame_verified]|]. intros raw.
  apply keeps_if; [apply keeps_ret|]. apply keeps_bnd; [destruct raw; [apply keeps_lift|apply keeps_ret]|]. intros y.
  apply keeps_bnd; [apply frame_write|]. intros mid. apply keeps_bnd; [apply frame_update'|]. intros ?. apply keeps_ret.
Qed.
Lemma frame_pst_audit account snapshot es : keeps P (write_pst_audit account snapshot es).
Proof using Ptick Pwork Pcomm.
  induction es as [|e es IH]; cbn [write_pst_audit]; [apply keeps_ret|]. apply keeps_bnd; [|intros ?; apply IH].
  destruct (audit_operation e); [apply frame_update'|apply keeps_ret].
Qed.
Lemma frame_reindex_pst dir s : keeps P (reindex_pst root cancelled parse normalize dir s).
Proof using Ptick Pwork Pcomm.
  unfold reindex_pst. apply keeps_bnd; [apply frame_snapshot|]. intros snapshot.
  apply keeps_bnd; [apply frame_folders_snapshot|]. intros folders. apply keeps_bnd; [apply frame_read_log|]. intros es.
  repeat (case_match; try apply keeps_raise).
  apply keeps_bnd; [apply frame_write|]. intros ?. apply keeps_bnd; [apply frame_write|]. intros id.
  apply keeps_bnd; [apply frame_pst_folders|]. intros ids. apply keeps_bnd.
  { generalize (Counters 0 0 0 0). generalize (ge_discovered (generation_of es)).
    induction l as [|x l IH]; intros c; cbn [rebuild_items]; [apply keeps_ret|].
    apply keeps_bnd; [apply frame_rebuild_item|]. intros c'. apply IH. }
  intros c. apply keeps_bnd; [apply frame_pst_audit|]. intros ?. apply keeps_ret.
Qed.
Lemma frame_survey dirs : forall s, keeps P (survey_loop dirs s).
Proof using Ptick.
  induction dirs as [|d dirs IH]; intros s; cbn [survey_loop]; [apply keeps_ret|]. apply keeps_bnd; [|intros ?; apply IH].
  unfold survey_generation. apply keeps_try; [|intros e; apply keeps_if; [apply keeps_ret|apply keeps_throw]].
  apply keeps_bnd; [apply keeps_lift|]. intros ?. apply keeps_bnd; [apply frame_snapshot|]. intros snapshot.
  destruct (text_of _ snapshot); [|apply keeps_raise]. apply keeps_bnd; [apply frame_read_log|]. intros es.
  destruct (survey_events es (su_superseded s)). apply keeps_ret.
Qed.
Lemma frame_generation s u o : keeps P (rebuild_generation root cancelled parse normalize s u o).
Proof using Ptick Pwork Pcomm.
  unfold rebuild_generation. destruct (dict_get u (su_found s)) as [[dir replaces]|]; [|apply keeps_raise]. cbv zeta.
  apply keeps_if; [destruct replaces; [case_match|]; apply keeps_ret|].
  apply keeps_bnd.
  - apply keeps_try; [apply keeps_bnd; [apply frame_reindex_pst|intros ?; apply keeps_ret]|].
    intros e. apply keeps_if; [apply keeps_ret|apply keeps_throw].
  - intros [r|]; [|apply keeps_ret]. apply keeps_bnd; [apply frame_read|]. intros id. apply keeps_ret.
Qed.
Lemma frame_pass s l : forall o b, keeps P (rebuild_pass root cancelled parse normalize s l o b).
Proof using Ptick Pwork Pcomm.
  induction l as [|u l IH]; intros o b; cbn [rebuild_pass]; [apply keeps_ret|].
  apply keeps_bnd; [apply frame_generation|]. intros r. apply IH.
Qed.
Lemma frame_loop n s : forall o, keeps P (rebuild_loop root cancelled parse normalize n s o).
Proof using Ptick Pwork Pcomm.
  induction n as [|n IH]; intros o; cbn [rebuild_loop]; [apply keeps_ret|]. destruct (or_pending o); [apply keeps_ret|].
  apply keeps_bnd; [apply frame_pass|]. intros r. apply keeps_if; [apply IH|apply keeps_ret].
Qed.
Lemma frame_pst_manifests : keeps P (rebuild_pst_manifests root cancelled parse normalize).
Proof using Ptick Pwork Pcomm.
  unfold rebuild_pst_manifests. apply keeps_bnd; [apply frame_read|]. intros dirs. apply keeps_bnd; [apply frame_survey|].
  intros s. apply keeps_if; [apply keeps_ret|]. apply keeps_bnd; [apply frame_loop|]. intros o. apply keeps_ret.
Qed.
End Frame.

(** ** The replacement of the database *)

(** Everything but the database. *)
Definition store_of (w : World) := (fs w, remote w, pst_logs w).
Definition manifest_of (w : World) := (synced w, buffered w, last_sequence w).
Definition same_store (w0 w : World) : Prop := store_of w = store_of w0 /\ manifest_of w = manifest_of w0.

Section Replace.
Context (root : list string) (clock : nat -> datetime) (cancelled : nat -> bool)
  (parse : bytes -> option datetime -> result parsed) (normalize : string -> string) (w0 : World).

Lemma store_reindex : keeps (fun w => store_of w = store_of w0) (reindex root clock cancelled parse normalize).
Proof. by apply frame_reindex. Qed.
Lemma store_reading es : keeps (same_store w0) (reading es (reindex root clock cancelled parse normalize)).
Proof.
  intros w [Hs Hm]. unfold reading, post. pose proof (store_reindex (set_manifest es [] None w) Hs) as H. unfold post in H.
  destruct (reindex _ _ _ _ _ _) as [[r|e] w1]; cbn [fst snd]; split; first [exact H|exact Hm].
Qed.
Lemma store_accounts readers : forall results, keeps (same_store w0) (rebuild_accounts root clock cancelled parse normalize readers results).
Proof.
  induction readers as [|es readers IH]; intros results; cbn [rebuild_accounts]; [apply keeps_ret|].
  apply keeps_bnd; [apply store_reading|]. intros r. apply keeps_if; [apply keeps_ret|apply IH].
Qed.
Lemma store_opaque : keeps (same_store w0) opaque_step.
Proof. apply frame_io; [by intros w []|apply keeps_ret]. Qed.
Lemma store_build readers : keeps (same_store w0) (build_database root clock cancelled parse normalize readers).
Proof.
  unfold build_database. do 2 (apply keeps_bnd; [apply store_opaque|]; intros ?).
  apply keeps_bnd; [apply store_accounts|]. intros [results stop]. apply keeps_if; [apply keeps_ret|].
  apply keeps_bnd; [by apply frame_pst_manifests|]. intros pst. do 3 (apply keeps_bnd; [apply store_opaque|]; intros ?).
  apply keeps_bnd; [apply keeps_gets|]. intros d. apply keeps_ret.
Qed.

(** Which results were cancelled. *)
Definition finished (r : ReindexResult) : Prop := ri_cancelled r = false.
Definition top (w : World) : Prop := True.
Lemma top_any {A} (m : M World A) : keeps top m.
Proof. intros w _. unfold post. by destruct (m w) as [[a|e] w']. Qed.
Lemma top_keep {A} (R : Prop) (m : M World A) : triple (fun _ => R) m (fun _ _ => R) top.
Proof. intros w HR. unfold post. by destruct (m w) as [[a|e] w']. Qed.
Lemma top_bnd {A B} (m : M World A) (k : A -> M World B) (R : B -> Prop) :
  (forall a, triple top (k a) (fun b _ => R b) top) -> triple top (mbnd m k) (fun b _ => R b) top.
Proof. intros H. eapply triple_bnd; [apply top_any|]. exact H. Qed.
Lemma pst_finished dir s : triple top (reindex_pst root cancelled parse normalize dir s) (fun r _ => finished r) top.
Proof.
  unfold reindex_pst. apply top_bnd. intros snapshot. apply top_bnd. intros folders. apply top_bnd. intros es.
  repeat (case_match; try by apply triple_raise). repeat (apply top_bnd; intros ?). by apply triple_ret.
Qed.
Lemma generation_finished s u o : Forall finished (or_results o) ->
  triple top (rebuild_generation root cancelled parse normalize s u o) (fun r _ => Forall finished (or_results r.1)) top.
Proof.
  intros Ho. unfold rebuild_generation. destruct (dict_get u (su_found s)) as [[dir replaces]|]; [|by apply triple_raise]. cbv zeta.
  match goal with |- context [if negb ?r then _ else _] => destruct (negb r) end.
  { destruct replaces as [r|]; [destruct (dict_get r (su_found s))|]; by apply triple_ret. }
  eapply triple_bnd with (Q := fun r _ => forall x, r = Some x -> finished x).
  - eapply triple_try; [eapply triple_bnd; [apply pst_finished|]; intros r; apply triple_ret; by intros w Hr x [= <-]|].
    intros e. destruct (_ || _); [by apply triple_ret|by apply triple_throw].
  - intros [r|]; [|by apply triple_ret]. eapply triple_bnd with (Q := fun _ w => finished r).
    { intros w Hr. apply top_keep. by apply Hr. }
    intros id. apply triple_ret. intros w Hr. cbn. apply Forall_app. split; [done|]. by apply Forall_singleton.
Qed.
Lemma pass_finished s l : forall o b, Forall finished (or_results o) ->
  triple top (rebuild_pass root cancelled parse normalize s l o b) (fun r _ => Forall finished (or_results r.1)) top.
Proof.
  induction l as [|u l IH]; intros o b Ho; cbn [rebuild_pass]; [by apply triple_ret|].
  eapply triple_bnd; [by apply generation_finished|]. intros r w Hr. by apply IH.
Qed.
Lemma loop_finished n s : forall o, Forall finished (or_results o) ->
  triple top (rebuild_loop root cancelled parse normalize n s o) (fun r _ => Forall finished (or_results r)) top.
Proof.
  induction n as [|n IH]; intros o Ho; cbn [rebuild_loop]; [by apply triple_ret|].
  destruct (or_pending o) eqn:E; [by apply triple_ret|].
  eapply triple_bnd; [by apply pass_finished|]. intros [o' []]; [|by apply triple_ret].
  intros w Hr. by apply IH.
Qed.
Lemma manifests_finished : triple top (rebuild_pst_manifests root cancelled parse normalize) (fun r _ => Forall finished r) top.
Proof.
  unfold rebuild_pst_manifests. apply top_bnd. intros dirs. apply top_bnd. intros s. destruct (bool_decide _); [by apply triple_ret|].
  eapply triple_bnd; [by apply loop_finished|]. intros o. by apply triple_ret.
Qed.
Lemma accounts_finished readers : forall results, Forall finished results ->
  triple top (rebuild_accounts root clock cancelled parse normalize readers results)
    (fun r _ => if r.2 : bool then existsb ri_cancelled r.1 = true
                else Forall finished r.1 /\ length r.1 = length results + length readers) top.
Proof.
  induction readers as [|es readers IH]; intros results Hr; cbn [rebuild_accounts].
  { apply triple_ret. intros _ _. cbn. by rewrite Nat.add_0_r. }
  apply top_bnd. intros r. destruct (ri_cancelled r) eqn:E.
  - apply triple_ret. intros w _. cbn. rewrite existsb_app. cbn. by rewrite E, orb_true_r.
  - intros w _. assert (Forall finished (results ++ [r])) as Hl by (apply Forall_app; split; [done|by apply Forall_singleton]).
    pose proof (IH _ Hl w I) as H. unfold post in *.
    destruct (rebuild_accounts _ _ _ _ _ _ _ w) as [[[l []]|e] w']; cbn [fst snd] in *; [done| |done].
    destruct H as [H1 H2]. split; [done|]. rewrite H2, length_app. cbn. lia.
Qed.
(** The results of a build: one per account, then those of the generations rebuilt to their end. *)
Definition complete_results (readers : list (list event)) (l : list ReindexResult) : Prop :=
  exists accs psts, l = (accs ++ psts)%list /\ length accs = length readers /\ Forall finished accs /\ Forall finished psts.
Lemma build_finished readers :
  triple top (build_database root clock cancelled parse normalize readers)
    (fun r _ => if r.2 is Some _ then complete_results readers r.1 else existsb ri_cancelled r.1 = true) top.
Proof.
  unfold build_database. do 2 (apply top_bnd; intros ?).
  eapply triple_bnd; [by apply accounts_finished|]. intros [results [|]]; cbn [fst snd]; [by apply triple_ret|].
  set (R := Forall finished results /\ length results = length readers).
  eapply triple_bnd with (Q := fun pst _ => R /\ Forall finished pst).
  { intros w Hr. pose proof (manifests_finished w I) as H. unfold post in *. by destruct (rebuild_pst_manifests _ _ _ _ w) as [[?|?] ?]. }
  intros pst. do 4 (eapply triple_bnd; [apply (top_keep (R /\ Forall finished pst))|]; intros ?).
  apply triple_ret. intros w [[H1 H2] H3]. cbn. by exists results, pst.
Qed.
End Replace.

Lemma complete_not_cancelled readers l : complete_results readers l -> existsb ri_cancelled l = false.
Proof.
  intros (accs & psts & -> & _ & Ha & Hp). apply not_true_iff_false.
  intros (r & Hr%list_elem_of_In & Er)%existsb_exists. assert (Forall finished (accs ++ psts)) as Hf by by apply Forall_app.
  rewrite Forall_forall in Hf. specialize (Hf r Hr). unfold finished in Hf. congruence.
Qed.
Lemma rebuild_error_spec {A} e w : (rebuild_error (A := A) e w).2 = w /\ exists x, (rebuild_error (A := A) e w).1 = Err x.
Proof.
  unfold rebuild_error. destruct (_ || _); [by eauto|]. destruct (isinstance e SqliteError); [by eauto|].
  destruct (isinstance e OSError); by eauto.
Qed.

(** C8. Rebuilding the database replaces it as a whole or not at all: whatever operations fail and
    wherever the rebuild is cancelled, no message, no manifest and no open batch of the connection is
    touched, and the installed database is the old one, or the one that the build, started on an empty
    database, ended with: every account's manifest was reindexed to its end and nothing was
    cancelled. A rebuild that returns without having been cancelled has installed it. It may lack
    mail of a PST generation: one whose rebuild met an error is left as far as it came, and skipped
    ([partial_generation_installed]). *)
Theorem rebuild_replaces_atomically root clock cancelled parse normalize readers w :
  let o := rebuild_database root clock cancelled parse normalize readers w in
  same_store w o.2 /\ working o.2 = working w
  /\ (committed o.2 = committed w /\ (forall r, o.1 = Ok r -> ri_cancelled r = true)
      \/ exists results w1,
           build_database root clock cancelled parse normalize readers (set_working None (set_committed empty_db w))
             = (Ok (results, Some (committed o.2)), w1)
           /\ complete_results readers results
           /\ (forall r, o.1 = Ok r -> r = combine_results results /\ ri_cancelled r = false)).
Proof.
  set (w1 := set_working None (set_committed empty_db w)).
  pose proof (store_build root clock cancelled parse normalize w readers w1 (conj eq_refl eq_refl)) as Hs.
  pose proof (build_finished root clock cancelled parse normalize readers w1 I) as Hf. unfold post in Hs, Hf.
  cbv zeta. unfold rebuild_database, mtry, mbnd, on_temporary.
  change (set_working None (set_committed empty_db w)) with w1.
  destruct (build_database root clock cancelled parse normalize readers w1) as [[[results [d|]]|e] w2] eqn:Eb; cbn [fst snd] in *.
  - set (w3 := set_committed (committed w) (set_working (working w) w2)).
    pose proof (complete_not_cancelled _ _ Hf) as Hc.
    unfold sync_directory, io. destruct (faults w3 (ticks w3)) as [e|]; cbn [fst snd].
    { destruct (rebuild_error_spec (A := ReindexResult) e (tick w3)) as [-> [x ->]]. split; [exact Hs|]. split; [done|]. by left. }
    change (mmodify (set_committed d) (tick w3)) with (@Ok unit tt, set_committed d (tick w3)). cbv beta iota.
    set (w4 := set_committed d (tick w3)). assert (same_store w (tick w4)) as H4 by exact Hs.
    change (faults w4 (ticks w4)) with (faults w2 (S (ticks w2))).
    destruct (faults w2 (S (ticks w2))) as [e|]; cbn [fst snd mret].
    { destruct (rebuild_error_spec (A := ReindexResult) e (tick w4)) as [-> [x ->]]. split; [exact H4|]. split; [done|].
      right. by exists results, w2. }
    split; [exact H4|]. split; [done|]. right. exists results, w2. split; [done|]. split; [done|]. by intros r [= <-].
  - split; [exact Hs|]. split; [done|]. left. split; [done|]. intros r [= <-]. exact Hf.
  - set (w3 := set_committed (committed w) (set_working (working w) w2)).
    destruct (rebuild_error_spec (A := ReindexResult) e w3) as [-> [x ->]]. split; [exact Hs|]. split; [done|]. by left.
Qed.

(** ** The loop over the generations *)

Section Ends.
Context (root : list string) (cancelled : nat -> bool) (parse : bytes -> option datetime -> result parsed)
  (normalize : string -> string) (s : survey).

Lemma generation_removes u o :
  triple top (rebuild_generation root cancelled parse normalize s u o)
    (fun r _ => if r.2 : bool then or_pending r.1 = List.filter (fun v => v != u) (or_pending o) else r.1 = o) top.
Proof.
  unfold rebuild_generation. destruct (dict_get u (su_found s)) as [[dir replaces]|]; [|by apply triple_raise]. cbv zeta.
  match goal with |- context [if negb ?r then _ else _] => destruct (negb r) end.
  { destruct replaces as [r|]; [destruct (dict_get r (su_found s))|]; by apply triple_ret. }
  eapply triple_bnd; [apply top_any|]. intros [r|]; [|by apply triple_ret]. apply top_bnd. intros id. by apply triple_ret.
Qed.
Lemma filter_shorter (f : string -> bool) (l : list string) : length (List.filter f l) <= length l.
Proof. induction l as [|x l IH]; [done|]. cbn. destruct (f x); cbn; lia. Qed.
Lemma filter_removes (u : string) (l : list string) : u ∈ l -> length (List.filter (fun v => v != u) l) < length l.
Proof.
  induction l as [|x l IH]; [by intros ?%elem_of_nil|]. cbn. pose proof (filter_shorter (fun v => v != u) l) as Hl.
  intros [->|H]%elem_of_cons; [rewrite Prelude.eqb_refl; cbn; lia|]. destruct (x != u); cbn; [specialize (IH H); lia|lia].
Qed.
(** A pass that made progress leaves fewer generations. *)
Definition shrunk (before : list string) (r : ordering * bool) : Prop :=
  if r.2 : bool then length (or_pending r.1) < length before else or_pending r.1 = before.
Lemma pass_shrinks before l : l ⊆ before -> forall o b, shrunk before (o, b) ->
  triple top (rebuild_pass root cancelled parse normalize s l o b) (fun r _ => shrunk before r) top.
Proof.
  intros Hl. induction l as [|u l IH]; intros o b Hb; cbn [rebuild_pass]; [by apply triple_ret|].
  eapply triple_bnd; [apply generation_removes|]. intros [o' b'] w Hr. cbn [fst snd] in *. apply IH; [set_solver| |done].
  unfold shrunk in *. cbn [fst snd] in *. destruct b'; [|rewrite orb_false_r; by subst o']. rewrite orb_true_r, Hr.
  destruct b.
  - pose proof (filter_shorter (fun v => v != u) (or_pending o)). lia.
  - rewrite Hb. apply filter_removes. set_solver.
Qed.
Lemma pass_progress o w :
  match (rebuild_pass root cancelled parse normalize s (merge_sort name_le (or_pending o)) o false w).1 with
  | Ok (o', true) => length (or_pending o') < length (or_pending o)
  | _ => True
  end.
Proof.
  pose proof (pass_shrinks (or_pending o) (merge_sort name_le (or_pending o))
    ltac:(intros u; by rewrite merge_sort_Permutation) o false eq_refl w I) as H.
  unfold post in H. destruct (rebuild_pass _ _ _ _ _ _ _ _ w) as [[[o' []]|e] w']; [exact H|done..].
Qed.

(** C21. The loop that puts the generations in the order of their replacements ends, also when they
    replace each other in a circle: a pass that changes nothing is the last one and every other pass
    leaves fewer generations, so as many passes as there are generations, and one more, are enough. *)
Theorem rebuild_loop_ends n o : length (or_pending o) < n -> forall w,
  rebuild_loop root cancelled parse normalize n s o w
  = rebuild_loop root cancelled parse normalize (S (length (or_pending o))) s o w.
Proof.
  enough (forall n m o, length (or_pending o) < n -> length (or_pending o) < m -> forall w,
    rebuild_loop root cancelled parse normalize n s o w = rebuild_loop root cancelled parse normalize m s o w) as H
    by (intros Hn w; apply H; lia).
  clear n o. induction n as [|n IH]; intros m o Hn Hm w; [lia|]. destruct m as [|m]; [lia|]. cbn [rebuild_loop].
  destruct (or_pending o) as [|u l] eqn:E; [done|]. unfold mbnd. pose proof (pass_progress o w) as Hp. rewrite E in Hp.
  destruct (rebuild_pass _ _ _ _ _ _ _ _ w) as [[[o' []]|e] w']; cbn [fst snd] in *; [|done..].
  apply IH; lia.
Qed.
End Ends.

(** Two generations that replace each other. *)
Definition circular : survey := Survey [("a", ("a", Some "b")); ("b", ("b", Some "a"))] [].
Lemma rebuild_loop_ends_witness :
  rebuild_loop ["root"] (fun _ => false) (fun _ _ => Ok empty_parsed) (fun t => t) 100 circular (Ordering ["a"; "b"] [] []) one_file
  = rebuild_loop ["root"] (fun _ => false) (fun _ _ => Ok empty_parsed) (fun t => t) 3 circular (Ordering ["a"; "b"] [] []) one_file.
Proof. apply (rebuild_loop_ends ["root"] (fun _ => false) (fun _ _ => Ok empty_parsed) (fun t => t) circular 100 (Ordering ["a"; "b"] [] [])). cbn. lia. Defined.

(** ** The rows of a rebuilt generation *)

Section Backed.
Context (root : list string) (cancelled : nat -> bool) (parse : bytes -> option datetime -> result parsed)
  (normalize : string -> string) (w0 : World) (es : list event) (active : bool).

(** An event about an item. *)
Definition about_item (name key : string) (e : event) : Prop :=
  e ∈ es /\ event_name e = Some name /\ text_of "source_item_key" e = Some key.
(** The row stands for a saved item: the item was purged and the row has no file, or it was not and the
    file is there with its hash, and the row is in the state of its generation. *)
Definition backed_row (m : message) : Prop := exists saved path hash,
  about_item "item_saved" (source_item_key m) saved
  /\ text "final_relative_path" saved = Some path /\ text "file_hash" saved = Some hash
  /\ file_hash m = Some hash
  /\ (m_local_state m = Purged /\ relative_path m = None /\ (exists e, about_item "purged" (source_item_key m) e)
      \/ m_local_state m = (if active then Active else Trashed) /\ relative_path m = Some path
         /\ verified_file root w0 path hash /\ forall e, ~ about_item "purged" (source_item_key m) e).
Definition backed_db (d : Db) : Prop := forall m, m ∈ messages d -> m ∈ messages (view w0) \/ backed_row m.
Definition backed_world (w : World) : Prop := fs w = fs w0 /\ backed_db (view w).

Lemma event_by_item_In name key e : forall l, (key, e) ∈ event_by_item name l ->
  e ∈ l /\ event_name e = Some name /\ text_of "source_item_key" e = Some key.
Proof.
  intros l. unfold event_by_item. enough (forall l d, (key, e) ∈ fold_left (fun d e => match event_name e == Some name, text_of "source_item_key" e with
    | true, Some k => dict_set k e d | _, _ => d end) l d ->
    (key, e) ∈ d \/ e ∈ l /\ event_name e = Some name /\ text_of "source_item_key" e = Some key) as H.
  { intros Hi. destruct (H l [] Hi) as [Hn|Hn]; [by apply elem_of_nil in Hn|exact Hn]. }
  clear l. induction l as [|x l IH]; intros d Hi; [by left|]. cbn [fold_left] in Hi.
  destruct (IH _ Hi) as [Hd|(? & ?)]; [|right; split; [by right|done]].
  destruct (event_name x == Some name) eqn:En; [|by left]. destruct (text_of "source_item_key" x) as [k|] eqn:Ek; [|by left].
  apply eqb_true_1 in En. apply elem_of_dict_set in Hd as [[-> ->]|Hd]; [|by left]. right. split; [by left|]. by rewrite En, Ek.
Qed.
Lemma event_by_item_keys name key e l : e ∈ l -> event_name e = Some name -> text_of "source_item_key" e = Some key ->
  key ∈ (event_by_item name l).*1.
Proof.
  intros He En Ek. unfold event_by_item.
  enough (forall l d, (key ∈ d.*1 \/ e ∈ l) -> key ∈ (fold_left (fun d e => match event_name e == Some name, text_of "source_item_key" e with
    | true, Some k => dict_set k e d | _, _ => d end) l d).*1) as H by (apply H; by right).
  clear He l. induction l as [|x l IH]; intros d [Hd|He]; cbn [fold_left]; [done|by apply elem_of_nil in He| |].
  - apply IH. left. destruct (event_name x == Some name); [|done].
    destruct (text_of "source_item_key" x) as [k|]; [|done]. rewrite dict_set_keys. case_match; [done|]. apply elem_of_app. by left.
  - apply elem_of_cons in He as [<-|He]; [|apply IH; by right]. apply IH. left. rewrite En, Prelude.eqb_refl, Ek, dict_set_keys.
    destruct (mem key d.*1) eqn:E; [by apply mem_true in E|]. apply elem_of_app. right. by left.
Qed.
Lemma purged_here key : mem key (ge_purged (generation_of es)) = true <-> exists e, about_item "purged" key e.
Proof.
  cbn [ge_purged generation_of]. rewrite mem_true. split.
  - intros ([k e] & -> & H)%list_elem_of_fmap. apply event_by_item_In in H. by exists e.
  - intros (e & He & En & Ek). by eapply event_by_item_keys.
Qed.

Lemma backed_same m m' : source_item_key m' = source_item_key m -> m_local_state m' = m_local_state m ->
  relative_path m' = relative_path m -> file_hash m' = file_hash m -> backed_row m -> backed_row m'.
Proof. intros E1 E2 E3 E4 (saved & path & hash & H). exists saved, path, hash. by rewrite E1, E2, E3, E4. Qed.
Lemma add_pst_message_backed r c d id d' : mr_columns r = REINDEX_COLUMNS -> backed_row (mr_row r) ->
  add_pst_message normalize r c d = Ok (id, d') -> backed_db d -> backed_db d'.
Proof.
  intros Hc Hr H Hd. unfold add_pst_message, add_message in H. apply rbind_ok in H as (? & _ & H).
  apply rbind_ok in H as ([id1 d1] & Eu & (d2 & Em & [= <- <-])%rbind_ok).
  assert (messages d2 = messages d1) as E2.
  { unfold upsert_membership in Em. apply rbind_ok in Em as (? & _ & <-%Ok_inj). by case_match. }
  assert (backed_db d1) as H1.
  { unfold upsert_message in Eu. cbv zeta in Eu. apply rbind_ok in Eu as (? & _ & Eu).
    assert (forall m, backed_row (set_columns (mr_columns (pst_row r)) (mr_row (pst_row r)) m)) as Hs.
    { intros m. apply (backed_same (mr_row r)); [..|done]; unfold pst_row; cbn [mr_columns mr_row]; by rewrite Hc. }
    destruct (List.find _ _) as [old|]; injection Eu as <- <-; intros m Hm; cbn [messages set_messages bump_message] in Hm.
    - apply elem_of_update_where in Hm as (m0 & Hm & ->). destruct (same_key _ _ m0); [right; apply Hs|by apply Hd].
    - apply elem_of_app in Hm as [Hm| ->%list_elem_of_singleton]; [by apply Hd|right; apply Hs]. }
  intros m Hm. apply H1. rewrite <- E2. by destruct c.
Qed.

(** *** The statements keep the rows *)

Lemma backed_io {A} (m : M World A) : keeps backed_world m -> keeps backed_world (io m).
Proof. intros Hm. by apply frame_io. Qed.
Lemma backed_write {A} (f : Db -> result (A * Db)) :
  (forall d a d', f d = Ok (a, d') -> backed_db d -> backed_db d') -> keeps backed_world (db_write f).
Proof.
  intros Hf. apply backed_io. intros w (Hs & Hv). destruct (f (view w)) as [[a d]|e] eqn:E; [|done].
  specialize (Hf _ _ _ E Hv). unfold post, backed_world. rewrite view_put. unfold put_db. by destruct (working w).
Qed.
Lemma backed_write_same {A} (f : Db -> result (A * Db)) :
  (forall d a d', f d = Ok (a, d') -> messages d' = messages d) -> keeps backed_world (db_write f).
Proof. intros Hf. apply backed_write. intros d a d' E Hd. unfold backed_db. by rewrite (Hf _ _ _ E). Qed.
Lemma backed_update_same f : (forall d d', f d = Ok d' -> messages d' = messages d) -> keeps backed_world (db_update' f).
Proof. intros Hf. apply backed_write_same. by intros d a d' (d1 & E & [= <- <-])%rbind_ok; apply Hf. Qed.
Lemma create_import_messages r d id d' : create_import r d = Ok (id, d') -> messages d' = messages d.
Proof. unfold create_import. by intros (? & _ & [= <- <-])%rbind_ok. Qed.
Lemma upsert_item_messages i d d' : upsert_import_item i d = Ok d' -> messages d' = messages d.
Proof. unfold upsert_import_item. intros (? & _ & <-%Ok_inj)%rbind_ok. by case_match. Qed.

Lemma backed_verified path hash :
  triple backed_world (verified root path hash)
    (fun o w => backed_world w /\ (is_Some o -> verified_file root w0 path hash)) backed_world.
Proof.
  unfold verified. eapply triple_try.
  - eapply triple_bnd with (Q := fun c w => backed_world w /\ verified_file root w0 path hash);
      [|intros c; by apply triple_ret; intros w [Hw Hv]].
    intros w Hw. unfold read_verified. destruct (negb _); [exact Hw|]. unfold mbnd, file_at, mlift.
    destruct (resolve_inside root path) as [l|e] eqn:El; [|exact Hw]. cbn [rbind]. unfold read_bytes, io.
    destruct (faults w (ticks w)); [exact Hw|]. destruct (read_file (join l) (tick w)) as [c|] eqn:Ec; [|exact Hw].
    destruct (hexdigest c == fold_hash hash) eqn:Eh; [|exact Hw]. split; [exact Hw|]. exists l, c.
    split; [done|]. split; [|by apply eqb_true_1]. destruct Hw as (E & _). unfold read_file in *. by rewrite <- E.
  - intros e. destruct (_ || _); [|by apply triple_throw]. apply triple_ret. intros w Hw. split; [done|]. by intros [].
Qed.

Lemma generation_row_backed account key path hash fid saved x :
  about_item "item_saved" key saved -> text "final_relative_path" saved = Some path -> text "file_hash" saved = Some hash ->
  (mem key (ge_purged (generation_of es)) = false -> verified_file root w0 path hash) ->
  backed_row (mr_row (generation_row account key path hash fid saved x (mem key (ge_purged (generation_of es))) active)).
Proof.
  intros Hs Hp Hh Hv. exists saved, path, hash. cbn [generation_row mr_row source_item_key m_local_state relative_path file_hash].
  destruct (mem key _) eqn:E; split_and!; try done.
  - left. split_and!; try done. by apply purged_here.
  - right. split_and!; try done; [by apply Hv|]. intros e He. apply not_true_iff_false in E. apply E, purged_here. by exists e.
Qed.
Lemma item_source_spec g ids key found saved folder fid rel sha path hash :
  item_source g ids key found = Some (saved, folder, fid, rel, sha, path, hash) ->
  dict_get key (ge_saved g) = Some saved /\ text "final_relative_path" saved = Some path /\ text "file_hash" saved = Some hash.
Proof. unfold item_source. repeat (case_match; try done). by intros [= <- <- <- <- <- <- <-]. Qed.
Lemma backed_item account id ids x c :
  keeps backed_world (rebuild_item root cancelled parse normalize account id (generation_of es) active ids x c).
Proof.
  unfold rebuild_item. destruct x as [key found]. apply keeps_bnd; [apply keeps_check_cancel|]. intros ?.
  destruct (item_source _ ids key found) as [[[[[[[saved folder] fid] rel] sha] path] hash]|] eqn:Ei; [|apply keeps_ret].
  apply item_source_spec in Ei as (Es%dict_get_In & Hp & Hh). apply event_by_item_In in Es. cbv zeta.
  eapply triple_bnd with (Q := fun (o : option bytes) w => backed_world w
    /\ (mem key (ge_purged (generation_of es)) = false -> is_Some o -> verified_file root w0 path hash)).
  { destruct (mem key _); [by apply triple_ret|]. intros w Hw. pose proof (backed_verified path hash w Hw) as H.
    unfold post in *. destruct (verified root path hash w) as [[o|e] w']; [|done]. destruct H as [H1 H2]. by split. }
  intros raw. apply triple_pure. intros Hv. destruct (negb _ && _) eqn:En; [apply keeps_ret|].
  apply keeps_bnd; [destruct raw; [apply keeps_lift|apply keeps_ret]|]. intros y.
  apply keeps_bnd; [|intros mid; apply keeps_bnd; [apply backed_update_same, upsert_item_messages|intros ?; apply keeps_ret]].
  apply backed_write. intros d0 a0 d0' E Hd. eapply add_pst_message_backed; [..|exact E|exact Hd]; [done|].
  apply generation_row_backed; try done. intros Ep. apply Hv; [done|]. destruct raw; [done|]. by rewrite Ep in En.
Qed.
Lemma backed_items account id ids l : forall c,
  keeps backed_world (rebuild_items root cancelled parse normalize account id (generation_of es) active ids l c).
Proof.
  induction l as [|x l IH]; intros c; cbn [rebuild_items]; [apply keeps_ret|].
  apply keeps_bnd; [apply backed_item|]. intros c'. apply IH.
Qed.
Lemma backed_folders account l : forall ids, keeps backed_world (write_pst_folders cancelled account l ids).
Proof.
  induction l as [|[] l IH]; intros ids; cbn [write_pst_folders]; try apply keeps_ret; try apply keeps_raise.
  apply keeps_bnd; [apply keeps_check_cancel|]. intros ?. destruct (text "raw_name" d), (text "display_name" d); try apply keeps_raise.
  apply keeps_bnd; [apply backed_write_same, upsert_folder_messages|]. intros id. apply IH.
Qed.
Lemma backed_audit account snapshot l : keeps backed_world (write_pst_audit account snapshot l).
Proof.
  induction l as [|e l IH]; cbn [write_pst_audit]; [apply keeps_ret|]. apply keeps_bnd; [|intros ?; apply IH].
  destruct (audit_operation e); [apply backed_update_same, record_audit_messages|apply keeps_ret].
Qed.
End Backed.

Section Generation.
Context (root : list string) (cancelled : nat -> bool) (parse : bytes -> option datetime -> result parsed)
  (normalize : string -> string) (dir : string) (s : standing) (w : World).
Let es := pl_synced (log_of dir w).

(** The log that is read is the one on the disk. *)
Definition unread (w' : World) : Prop := backed_world root w es (st_active s) w' /\ pst_logs w' = pst_logs w.
Lemma unread_tick w' : unread w' -> unread (tick w').
Proof. by intros []. Qed.
Lemma unread_log : triple unread (read_log dir) (fun l w' => backed_world root w es (st_active s) w' /\ l = es)
  (backed_world root w es (st_active s)).
Proof using All.
  intros w' [Hb Hl]. unfold read_log, io. destruct (faults w' (ticks w')); [exact Hb|].
  assert (log_of dir (tick w') = log_of dir w) as E by (unfold log_of; by rewrite <- Hl). rewrite E. subst es.
  destruct (pl_synced (log_of dir w)) eqn:El; [exact Hb|]. split; [exact Hb|done].
Qed.
Lemma backed_generation :
  triple unread (reindex_pst root cancelled parse normalize dir s) (fun _ => backed_world root w es (st_active s))
    (backed_world root w es (st_active s)).
Proof using All.
  unfold reindex_pst.
  eapply triple_bnd with (Q := fun _ => unread); [intros w' Hw'; pose proof (frame_snapshot unread unread_tick dir w' Hw') as H;
    unfold post in *; destruct (manifest_snapshot dir w') as [[?|?] ?]; apply H|]. intros snapshot.
  eapply triple_bnd with (Q := fun _ => unread); [intros w' Hw'; pose proof (frame_folders_snapshot unread unread_tick dir w' Hw') as H;
    unfold post in *; destruct (manifest_folders dir w') as [[?|?] ?]; apply H|]. intros folders.
  eapply triple_bnd; [apply unread_log|]. intros l. apply triple_pure. intros ->.
  repeat (case_match; try apply keeps_raise).
  apply keeps_bnd; [apply backed_write_same, upsert_account_messages|]. intros ?.
  apply keeps_bnd; [apply backed_write_same, create_import_messages|]. intros id.
  apply keeps_bnd; [apply backed_folders|]. intros ids. apply keeps_bnd; [apply backed_items|]. intros c.
  apply keeps_bnd; [apply backed_audit|]. intros ?. apply keeps_ret.
Qed.
End Generation.

(** C13. The rebuild of a PST generation invents nothing: whichever operation fails and wherever it is
    cancelled, every message it adds or changes stands for an item the event log of the generation
    saved, with its key and hash; if the log purged the item the row is purged and has no file, and if
    not, the file the event names is there with that hash, the row points to it, and it is active
    exactly when the generation is. *)
Theorem pst_rebuild_backed root cancelled parse normalize dir s w m :
  m ∈ messages (view (reindex_pst root cancelled parse normalize dir s w).2) ->
  m ∈ messages (view w) \/ backed_row root w (pl_synced (log_of dir w)) (st_active s) m.
Proof.
  intros Hm. pose proof (backed_generation root cancelled parse normalize dir s w w) as H. unfold post in H.
  assert (unread root dir s w w) as Hu by (split; [split; [done|]; intros x Hx; by left|done]).
  specialize (H Hu). destruct (reindex_pst _ _ _ _ _ _ w) as [[r|e] w']; by apply H.
Qed.

(** ** A generation without its import snapshot *)

Section Unreadable.
Context (root : list string) (clock : nat -> datetime) (cancelled : nat -> bool)
  (parse : bytes -> option datetime -> result parsed) (normalize : string -> string) (w0 : World) (dir : string)
  (Hdir : validate_import_uuid dir = Ok tt) (Hmissing : pl_import (log_of dir w0) = None)
  (Hfaults : forall n e, faults w0 n = Some e -> isinstance e TypeError || isinstance e ValueError = false).

Definition same_disk (w : World) : Prop := pst_logs w = pst_logs w0 /\ faults w = faults w0.
Definition never_returns {A} (m : M World A) (R : A -> Prop) : Prop := triple same_disk m (fun a _ => R a) top.
Lemma never_returns_bnd {A B} (m : M World A) (k : A -> M World B) R :
  keeps same_disk m -> (forall a, never_returns (k a) R) -> never_returns (mbnd m k) R.
Proof.
  intros Hm Hk. eapply triple_bnd with (Q := fun _ => same_disk); [|exact Hk]. intros w Hw. specialize (Hm w Hw).
  unfold post in *. by destruct (m w) as [[a|e] w'].
Qed.
Lemma survey_generation_raises s : never_returns (survey_generation dir s) (fun _ => False).
Proof using Hdir Hmissing Hfaults.
  intros w [Hl Hf]. unfold post, survey_generation, mtry, mbnd at 1, mlift. rewrite Hdir. cbn [snd].
  unfold mbnd, manifest_snapshot, mtry, io. rewrite Hf. destruct (faults w0 (ticks w)) as [e|] eqn:E.
  - specialize (Hfaults _ _ E). unfold snapshot_error. destruct (isinstance e OSError) eqn:Eo; cbn; [done|].
    unfold unsupported. by rewrite Eo, <- orb_assoc, Hfaults.
  - assert (log_of dir (tick w) = log_of dir w0) as -> by (unfold log_of; cbn; by rewrite Hl). by rewrite Hmissing.
Qed.
Lemma survey_raises dirs : dir ∈ dirs -> forall s, never_returns (survey_loop dirs s) (fun _ => False).
Proof using Hdir Hmissing Hfaults.
  induction dirs as [|d dirs IH]; intros Hin s; [by apply elem_of_nil in Hin|]. cbn [survey_loop].
  apply elem_of_cons in Hin as [<-|Hin].
  - eapply triple_bnd; [apply survey_generation_raises|]. by intros a w [].
  - apply never_returns_bnd; [|intros s'; by apply IH]. intros w Hw.
    pose proof (frame_survey same_disk (fun w H => H) [d] s w Hw) as H. cbn [survey_loop] in H. unfold post, mbnd in H.
    unfold post. by destruct (survey_generation d s w) as [[a|e] w'].
Qed.
Lemma build_never_complete readers : dir ∈ map fst (pst_logs w0) ->
  never_returns (build_database root clock cancelled parse normalize readers) (fun r => r.2 = None).
Proof using Hdir Hmissing Hfaults.
  intros Hin. unfold build_database. do 2 (apply never_returns_bnd; [by apply frame_io; [|apply keeps_ret]|]; intros ?).
  apply never_returns_bnd.
  { generalize (@nil ReindexResult). induction readers as [|es readers IH]; intros results; cbn [rebuild_accounts]; [apply keeps_ret|].
    apply keeps_bnd; [|intros r; apply keeps_if; [apply keeps_ret|apply IH]]. intros w Hw. unfold reading, post.
    pose proof (frame_reindex same_disk ltac:(done) ltac:(done) ltac:(done) root clock cancelled parse normalize (set_manifest es [] None w) Hw) as H.
    unfold post in H. destruct (reindex _ _ _ _ _ _) as [[r|e] w1]; exact H. }
  intros [results stop]. destruct stop; [by apply triple_ret|]. eapply triple_bnd with (Q := fun _ _ => False); [|by intros ? ? []].
  unfold rebuild_pst_manifests. eapply triple_bnd with (Q := fun l w => same_disk w /\ dir ∈ l).
  - intros w [Hl Hf]. unfold post, io. destruct (faults w (ticks w)); [done|]. split; [done|]. cbn. rewrite Hl.
    by rewrite merge_sort_Permutation.
  - intros l. apply triple_pure. intros Hl. eapply triple_bnd; [by apply survey_raises|]. by intros ? ? [].
Qed.
End Unreadable.

(** One generation directory without its import snapshot ends every rebuild of the database: the
    manifests that cannot be used are meant to be skipped with a warning, but the error of a missing
    [import.json] is not among those that are, so that whatever else the disk holds no new database
    is ever installed. *)
Lemma missing_snapshot_ends_rebuild root clock cancelled parse normalize readers dir w :
  dir ∈ map fst (pst_logs w) -> validate_import_uuid dir = Ok tt -> pl_import (log_of dir w) = None ->
  (forall n e, faults w n = Some e -> isinstance e TypeError || isinstance e ValueError = false) ->
  let o := rebuild_database root clock cancelled parse normalize readers w in
  committed o.2 = committed w /\ forall r, o.1 = Ok r -> ri_cancelled r = true.
Proof.
  intros Hin Hdir Hmissing Hf. set (w1 := set_working None (set_committed empty_db w)).
  pose proof (build_never_complete root clock cancelled parse normalize w dir Hdir Hmissing Hf readers Hin w1 (conj eq_refl eq_refl)) as Hn.
  pose proof (build_finished root clock cancelled parse normalize readers w1 I) as Hb. unfold post in Hn, Hb.
  cbv zeta. unfold rebuild_database, mtry, mbnd, on_temporary. fold w1.
  destruct (build_database _ _ _ _ _ _ w1) as [[[results d]|e] w2]; cbn [fst snd] in *.
  - rewrite Hn in *. cbn [fst snd mret]. split; [done|]. by intros r [= <-].
  - match goal with |- context [rebuild_error e ?w] => destruct (rebuild_error_spec (A := ReindexResult) e w) as [-> [x ->]] end.
    by split.
Qed.

(** ** Examples *)

Definition sample_standing : standing := Standing "completed" true None None.
Definition rebuilt_import : World :=
  Eval vm_compute in (reindex_pst ["root"] (fun _ => false) (fun _ _ => Ok sample_parsed) (fun t => t) sample_uuid sample_standing lost_import).2.
Definition rebuilt_pst_message : message := Eval vm_compute in List.hd (blank_message 0 "" "") (messages (committed rebuilt_import)).
Lemma pst_rebuild_backed_witness : relative_path rebuilt_pst_message = Some "eml/pst_a/unknown/32a13a2d499896e0373419a06ee305bc.eml"
  /\ backed_row ["root"] lost_import (pl_synced (log_of sample_uuid lost_import)) true rebuilt_pst_message.
Proof.
  split; [reflexivity|].
  destruct (pst_rebuild_backed ["root"] (fun _ => false) (fun _ _ => Ok sample_parsed) (fun t => t) sample_uuid sample_standing
    lost_import rebuilt_pst_message) as [H|H]; [|by apply elem_of_nil in H|exact H].
  apply list_elem_of_In. vm_compute. by left.
Defined.

(** An import that was interrupted before it wrote its snapshot, next to a complete one. *)
Definition second_uuid : string := "7d9f0c52-3b1e-4a6f-8c2d-5e4f3a2b1c0d".
Definition interrupted_import : World := Eval vm_compute in
  set_pst_logs (pst_logs lost_import ++ [(second_uuid, PstLog [] [] None None)])%list lost_import.

(** The same PST file imported a second time: the second generation is complete but was never
    switched to. *)
Definition imported_twice : World := Eval vm_compute in
  let w := set_committed (MkDb (accounts (committed after_stage_b)) (folders (committed after_stage_b)) [] [] [] [] [] [] [] 10 10 10 10
             [new_import (ImportIn second_uuid "pst_a" "a.pst" sample_sha (Some 10%Z) (Some 0%Z) "extracting" true None None None None 0 0 None) 2] [] 3) after_stage_b in
  let w := (run_stage_a sample_env 2 second_uuid "pst_a" "a.pst" "0.6.76" sample_source sample_import_options w).2 in
  set_committed empty_db (run_stage_b sample_env 2 second_uuid "pst_a" 100 w).2.
Lemma second_generation_ends_rebuild :
  match (rebuild_database ["root"] (fun _ => DateTime 2024 5 2 12 0 0 0) (fun _ => false) (fun _ _ => Ok sample_parsed) (fun t => t) [] imported_twice).1 with
  | Err e => isinstance e DatabaseError
  | Ok _ => false
  end = true.
Proof. vm_compute. reflexivity. Qed.

(** A rebuild that meets an error in the middle of a generation logs it and goes on: the rows written
    so far are not rolled back, and the database that is installed, in the place of a complete one,
    has the import marked completed and one of its two messages. The same rebuild without the error
    has both. *)
Definition failing_at (n : nat) (e : exn) (w : World) : World :=
  MkWorld (committed w) (working w) (fs w) (synced w) (buffered w) (last_sequence w) (ticks w)
    (fun k => if Nat.eqb k (ticks w + n)%nat then Some e else None) (remote w) (pst_logs w).
Definition sample_rebuild : M World ReindexResult :=
  rebuild_database ["root"] (fun _ => DateTime 2024 5 2 12 0 0 0) (fun _ => false) (fun _ _ => Ok sample_parsed) (fun t => t) [].
Definition installed (x : result ReindexResult * World) : option (bool * list string * nat) :=
  match x.1 with
  | Ok r => Some (ri_cancelled r, map pi_status (pst_imports (committed x.2)), length (messages (committed x.2)))
  | Err _ => None
  end.
Lemma partial_generation_installed :
  installed (sample_rebuild lost_import) = Some (false, ["completed"], 2)
  /\ installed (sample_rebuild (failing_at 14 (Exn StorageError "unreadable") lost_import)) = Some (false, ["completed"], 1).
Proof. split; vm_compute; reflexivity. Qed.
Close Scope string_scope.
