(* ===== verification/PstReindexComplete.v ===== *)
(** * PstReindexComplete: what the rebuild of a PST generation restores

    When nothing disturbs it, [reindex_pst] of [usecases/reindex.py] returns and restores every saved
    item whose file is still there, or that was purged. *)

From S2P Require Import Prelude Errors PyText PyTime Retry Json Manifest Sha256 PstManifest Database DatabaseWf World EmlStorage DeleteRemote Sync Reindex ReindexSafe ReindexComplete PstTables PstStage PstGenerations PstReindex PstSamples PstSafe PstReindexSafe.

Open Scope string_scope.

(** ** The rows the statements need *)

Definition account_there (account : string) (d : Db) : Prop := existsb (fun a => a_id a == account) (accounts d) = true.
Definition import_there (id : Z) (d : Db) : Prop := existsb (fun p => (pi_id p =? id)%Z) (pst_imports d) = true.
Definition folder_there (id : Z) (d : Db) : Prop := exists f, folder_with id d = Some f.

Lemma find_app {A} (f : A -> bool) l l' : List.find f l = None -> List.find f (l ++ l')%list = List.find f l'.
Proof. induction l as [|x l IH]; [done|]. cbn. destruct (f x); [done|exact IH]. Qed.
Lemma find_mono {A} (f : A -> bool) l l' x : List.find f l = Some x -> List.find f (l ++ l')%list = Some x.
Proof. induction l as [|y l IH]; [done|]. cbn. destruct (f y); [done|exact IH]. Qed.
Lemma find_here {A} (f : A -> bool) x l : f x = true -> exists y, List.find f (l ++ [x])%list = Some y.
Proof.
  intros Hx. destruct (List.find f l) as [y|] eqn:E; [exists y; by apply find_mono|]. exists x. rewrite find_app by done.
  cbn. by rewrite Hx.
Qed.
Lemma find_update {A} (f p : A -> bool) (u : A -> A) l x : (forall y, f (u y) = f y) -> List.find f l = Some x ->
  exists y, List.find f (update_where p u l) = Some y.
Proof.
  intros Hu. unfold update_where. induction l as [|y l IH]; [done|]. cbn.
  assert (f (if p y then u y else y) = f y) as -> by (destruct (p y); [apply Hu|done]).
  destruct (f y); [by eauto|exact IH].
Qed.

Lemma upsert_account_there a d : a_id a <> "" -> auth_type a = "password" ->
  exists d', upsert_account a d = Ok (a_id a, d') /\ account_there (a_id a) d' /\ pst_imports d' = pst_imports d
    /\ messages d' = messages d.
Proof.
  intros Ha Hp. unfold upsert_account. rewrite (eqb_neq _ _ Ha), Hp. cbn [negb check rbind mem].
  eexists. split; [reflexivity|]. unfold account_there. destruct (existsb _ (accounts d)) eqn:E; split; [|by split| |by split].
  - cbn [accounts set_accounts]. clear Hp. apply existsb_exists in E as (b & Hb%list_elem_of_In & Eb). apply existsb_exists. exists a.
    split; [|apply Prelude.eqb_refl]. apply list_elem_of_In. unfold update_where. apply list_elem_of_fmap. exists b. by rewrite Eb.
  - cbn [accounts set_accounts]. rewrite existsb_app. cbn. by rewrite Prelude.eqb_refl, orb_true_r.
Qed.
Lemma create_import_there r d :
  (forall i, i ∈ pst_imports d -> pi_import_uuid i <> ii_import_uuid r
    /\ (ii_is_active r = true -> pi_source_sha256 i = ii_source_sha256 r -> pi_is_active i = false)) ->
  account_there (ii_account_id r) d -> (forall o, ii_replaces_id r = Some o -> import_there o d) ->
  exists d', create_import r d = Ok (next_import_id d, d') /\ import_there (next_import_id d) d'
    /\ accounts d' = accounts d /\ messages d' = messages d.
Proof.
  intros Hn Ha Hr. unfold create_import.
  assert (existsb (fun i => pi_import_uuid i == ii_import_uuid r) (pst_imports d) = false) as ->.
  { apply not_true_iff_false. intros (i & Hi%list_elem_of_In & Ei%eqb_true_1)%existsb_exists. by destruct (Hn i Hi). }
  assert (ii_is_active r && existsb (fun i => (pi_source_sha256 i == ii_source_sha256 r) && pi_is_active i) (pst_imports d) = false) as ->.
  { apply not_true_iff_false. intros [Hact (i & Hi%list_elem_of_In & [Es%eqb_true_1 Ei]%andb_true_iff)%existsb_exists]%andb_true_iff.
    destruct (Hn i Hi) as [_ H]. rewrite H in Ei; done. }
  rewrite Ha. assert (match ii_replaces_id r with Some o => existsb (fun i => (pi_id i =? o)%Z) (pst_imports d) | None => true end = true) as ->.
  { destruct (ii_replaces_id r); [by apply Hr|done]. }
  cbn. eexists. split; [reflexivity|]. split; [|done]. unfold import_there. cbn. rewrite existsb_app. cbn.
  by rewrite Z.eqb_refl, orb_true_r.
Qed.
Lemma upsert_folder_there f d : account_there (fi_account_id f) d ->
  exists id d', upsert_folder f d = Ok (id, d') /\ folder_there id d' /\ (forall i, folder_there i d -> folder_there i d')
    /\ accounts d' = accounts d /\ pst_imports d' = pst_imports d /\ messages d' = messages d.
Proof.
  intros Ha. unfold upsert_folder. destruct (List.find (same_folder _ _) (folders d)) as [old|] eqn:E.
  - eexists _, _. split; [reflexivity|]. 
    match goal with |- context [update_where ?p ?u] =>
      assert (forall i, folder_there i d -> folder_there i (set_folders (update_where p u) d)) as H end.
    { intros i [x Hx]. unfold folder_there, folder_with in *. cbn [folders set_folders]. by eapply find_update. }
    split; [|by split]. apply H. apply List.find_some in E as [Hin _]. unfold folder_there, folder_with.
    destruct (List.find (fun g => (f_id g =? f_id old)%Z) (folders d)) as [x|] eqn:Ef; [by exists x|].
    pose proof (List.find_none _ _ Ef _ Hin) as Hf. cbn in Hf. by rewrite Z.eqb_refl in Hf.
  - unfold account_there in Ha. rewrite Ha. cbn [check rbind]. eexists _, _. split; [reflexivity|].
    unfold folder_there, folder_with. cbn. split; [apply find_here; cbn; apply Z.eqb_refl|].
    split; [|done]. intros i [x Hx]. exists x. by apply find_mono.
Qed.

(** The columns of a row that say which message it is and where its file is. *)
Definition row_data (m : message) := (account_id m, source_item_key m, m_local_state m, relative_path m, file_hash m).
Definition holds_row (r : message) (d : Db) : Prop := exists m, m ∈ messages d /\ row_data m = row_data r.

Section Add.
Context (normalize : string -> string) (r : message_in) (Hc : mr_columns r = REINDEX_COLUMNS).

Lemma columns_data m : account_id m = account_id (mr_row r) ->
  row_data (set_columns (mr_columns (pst_row r)) (mr_row (pst_row r)) m) = row_data (mr_row r).
Proof using Hc. intros Ha. unfold pst_row. cbn [mr_columns mr_row]. rewrite Hc. unfold row_data. cbn. by rewrite Ha. Qed.
Lemma upsert_row_there d : account_there (account_id (mr_row r)) d ->
  exists id d', upsert_message (pst_row r) d = Ok (id, d') /\ (exists m, message_with id d' = Some m)
    /\ holds_row (mr_row r) d'
    /\ (forall x, holds_row x d -> (same_key (account_id (mr_row r)) (source_item_key (mr_row r)) x = true -> row_data x = row_data (mr_row r)) ->
          holds_row x d')
    /\ accounts d' = accounts d /\ pst_imports d' = pst_imports d /\ folders d' = folders d.
Proof using Hc.
  intros Ha. unfold upsert_message. cbv zeta. change (account_id (mr_row (pst_row r))) with (account_id (mr_row r)).
  change (source_item_key (mr_row (pst_row r))) with (source_item_key (mr_row r)). unfold account_there in Ha. rewrite Ha.
  assert (mem "content_key" (mr_columns (pst_row r)) = true) as -> by (unfold pst_row; cbn [mr_columns]; by rewrite Hc).
  cbn [check rbind andb]. set (upd := set_columns _ _).
  assert (forall m, same_key (account_id (mr_row r)) (source_item_key (mr_row r)) m = true -> row_data (upd m) = row_data (mr_row r)) as Hu.
  { intros m [Em%eqb_true_1 _]%andb_true_iff. by apply columns_data. }
  destruct (List.find _ (messages d)) as [old|] eqn:E; eexists _, _; (split; [reflexivity|]); unfold holds_row, message_with;
    cbn [messages set_messages bump_message].
  - apply List.find_some in E as [Hin Hk]. split.
    { destruct (List.find (fun m => (m_id m =? m_id old)%Z) (messages d)) as [x|] eqn:Ef.
      - by eapply find_update.
      - pose proof (List.find_none _ _ Ef _ Hin) as Hf. cbn in Hf. by rewrite Z.eqb_refl in Hf. }
    assert (forall m, m ∈ messages d -> (if same_key (account_id (mr_row r)) (source_item_key (mr_row r)) m then upd m else m)
      ∈ update_where (same_key (account_id (mr_row r)) (source_item_key (mr_row r))) upd (messages d)) as Hup.
    { intros m Hm. unfold update_where. apply list_elem_of_fmap. by exists m. }
    split; [|split; [|done]].
    + exists (upd old). apply list_elem_of_In in Hin. specialize (Hup _ Hin). rewrite Hk in Hup. split; [done|by apply Hu].
    + intros x (m & Hm & Em) Hx. specialize (Hup _ Hm). eexists. split; [exact Hup|].
      destruct (same_key _ _ m) eqn:Ek; [|done]. rewrite Hu by done. symmetry. apply Hx. revert Ek. unfold same_key.
      unfold row_data in Em. injection Em as -> -> _ _ _. done.
  - split; [apply find_here; cbn; apply Z.eqb_refl|]. split; [|split; [|done]].
    + eexists. split; [apply elem_of_app; right; by apply list_elem_of_singleton|]. by apply columns_data.
    + intros x (m & Hm & Em) _. exists m. split; [|done]. apply elem_of_app. by left.
Qed.
Lemma add_row_there c d : validate_no_remote_message r = Ok tt -> account_there (account_id (mr_row r)) d ->
  folder_there (mf_folder_id (mr_membership r)) d -> moved_to_folder_id (mr_membership r) = None ->
  exists id d', add_pst_message normalize r c d = Ok (id, d') /\ (exists m, message_with id d' = Some m)
    /\ holds_row (mr_row r) d'
    /\ (forall x, holds_row x d -> (same_key (account_id (mr_row r)) (source_item_key (mr_row r)) x = true -> row_data x = row_data (mr_row r)) ->
          holds_row x d')
    /\ accounts d' = accounts d /\ pst_imports d' = pst_imports d /\ folders d' = folders d.
Proof using Hc.
  intros Hv Ha [f Hf] Hm. destruct (upsert_row_there d Ha) as (id & d1 & E1 & Hid & Hr & Hkeep & Eacc & Eimp & Efol).
  unfold add_pst_message, add_message. rewrite Hv. cbn [rbind]. rewrite E1. cbn [rbind]. unfold upsert_membership.
  assert (uid (mr_membership r) = None) as Hu.
  { unfold validate_no_remote_message in Hv. apply rbind_ok in Hv as (? & _ & Hv). unfold check in Hv. case_match; [|done]. by bsimp. }
  assert (membership_refs (with_message_id id (mr_membership r)) d1 = true) as Hrefs.
  { unfold membership_refs, with_message_id. cbn. unfold folder_with in *. by rewrite Efol, Hf, Hm. }
  assert (existsb (fun o => negb (same_pair (with_message_id id (mr_membership r)) o)
    && uid_clash (with_message_id id (mr_membership r)) o) (memberships d1) = false) as Hclash.
  { apply not_true_iff_false. intros (o & _ & [_ H]%andb_true_iff)%existsb_exists. unfold uid_clash, with_message_id in H. cbn in H.
    rewrite Hu in H. destruct (uidvalidity _); by rewrite andb_false_r in H. }
  change (mr_membership (pst_row r)) with (mr_membership r). rewrite Hrefs, Hclash. cbn [check rbind andb negb].
  set (mf := with_message_id _ _). destruct (existsb (same_pair mf) (memberships d1)), c; (eexists _, _; split; [reflexivity|]);
    unfold replace_contents, holds_row, message_with in *; cbn [messages accounts pst_imports folders set_memberships set_contents];
    split_and!; assumption.
Qed.
End Add.

(** A statement that succeeds. *)
Lemma runs_write {A} (f : Db -> result (A * Db)) a d (Q : A -> World -> Prop) w : faultless w -> f (view w) = Ok (a, d) ->
  (forall w', fs w' = fs w -> pst_logs w' = pst_logs w -> view w' = d -> faultless w' -> Q a w') -> succeeds (db_write f) Q w.
Proof.
  intros Hf E HQ. apply succeeds_io; [done|]. exists a, (put_db d (tick w)). change (view (tick w)) with (view w). rewrite E.
  assert (faultless (put_db d (tick w))) as Hf' by (by apply faultless_put_db). split; [done|]. split; [done|].
  apply HQ; [..|apply view_put|done]; unfold put_db; by destruct (working _).
Qed.
Lemma runs_update (f : Db -> result Db) d (Q : unit -> World -> Prop) w : faultless w -> f (view w) = Ok d ->
  (forall w', fs w' = fs w -> pst_logs w' = pst_logs w -> view w' = d -> faultless w' -> Q tt w') -> succeeds (db_update' f) Q w.
Proof. intros Hf E HQ. eapply runs_write; [done|by rewrite E|exact HQ]. Qed.

(** ** One generation *)

Section Generation.
Context (root : list string) (parse : bytes -> option datetime -> result parsed) (normalize : string -> string)
  (dir : string) (s : standing) (w0 : World) (snapshot : event) (folders_json : list json)
  (account uuid filename sha : string).
Let es := pl_synced (log_of dir w0).
Let g := generation_of es.

(** A folder of [folders.json]. *)
Definition folder_entry (x : json) (raw : string) : Prop :=
  exists f display, x = JObj f /\ text "raw_name" f = Some raw /\ text "display_name" f = Some display.
(** What the snapshots, the log and the database must be like for the rebuild to return. *)
Record restorable_generation : Prop := {
  rg_snapshot : read_import_manifest (pl_import (log_of dir w0)) = Ok snapshot;
  rg_folders : read_folders_manifest (World.pl_folders (log_of dir w0)) = Ok folders_json;
  rg_entries : Forall (fun x => exists raw, folder_entry x raw) folders_json;
  rg_account : text "account_id" snapshot = Some account;
  rg_uuid : text "import_uuid" snapshot = Some uuid;
  rg_display : is_Some (text "display_name" snapshot);
  rg_filename : text "source_filename" snapshot = Some filename;
  rg_sha : text "source_sha256" snapshot = Some sha;
  rg_items : ge_discovered g <> [];
  rg_paths : forall key saved path, dict_get key (ge_saved g) = Some saved ->
    text "final_relative_path" saved = Some path -> is_ok (resolve_inside root path) = true;
  rg_parse : forall c, is_ok (parse c None) = true;
  rg_new : forall i, i ∈ pst_imports (view w0) -> pi_import_uuid i <> uuid
    /\ (st_active s = true -> pi_source_sha256 i = sha -> pi_is_active i = false);
  rg_replaced : forall o, st_replaces s = Some o -> import_there o (view w0);
}.
(** The item can be restored: its event is complete, its folder known, and its file is there with its
    hash, unless it was purged. *)
Definition restorable_item (key : string) (found : event) (path hash : string) : Prop := exists saved folder x,
  dict_get key (ge_saved g) = Some saved /\ text "final_relative_path" saved = Some path /\ text "file_hash" saved = Some hash
  /\ text "folder_relative_path" found = Some folder /\ x ∈ folders_json /\ folder_entry x folder
  /\ is_Some (text "source_relative_path" found) /\ is_Some (text "source_sha256" found)
  /\ (mem key (ge_purged g) = true \/ is_hash hash = true /\ verified_file root w0 path hash).
(** Its row. *)
Definition restored_item (key path hash : string) (d : Db) : Prop := exists m, m ∈ messages d
  /\ account_id m = account /\ source_item_key m = key /\ file_hash m = Some hash
  /\ if mem key (ge_purged g) then m_local_state m = Purged /\ relative_path m = None
     else m_local_state m = (if st_active s then Active else Trashed) /\ relative_path m = Some path.

Context (Hready : restorable_generation).

(** A folder has its id. *)
Definition folders_there (ids : list (string * Z)) (d : Db) : Prop := forall raw id, (raw, id) ∈ ids -> folder_there id d.
Record running (ids : list (string * Z)) (id : Z) (w : World) : Prop := {
  ru_fs : fs w = fs w0;
  ru_account : account_there account (view w);
  ru_import : import_there id (view w);
  ru_folders : folders_there ids (view w);
}.

Lemma runs_folders id l : Forall (fun x => exists raw, folder_entry x raw) l ->
  forall ids w, faultless w -> running ids id w ->
  succeeds (write_pst_folders never account l ids)
    (fun ids' w' => running ids' id w' /\ (forall raw, raw ∈ ids.*1 -> raw ∈ ids'.*1)
       /\ forall x raw, x ∈ l -> folder_entry x raw -> raw ∈ ids'.*1) w.
Proof.
  induction 1 as [|x l (raw & f & display & -> & Er & Ed) _ IH]; intros ids w Hf Hw; cbn [write_pst_folders].
  { apply succeeds_ret; [done|]. split_and!; [done..|]. by intros x raw Hx%elem_of_nil. }
  apply succeeds_bnd, run_check_cancel; [done|]. rewrite Er, Ed. destruct Hw as [Hfs Ha Hi Hfo].
  set (fi := FolderIn _ _ _ _ _ _ _ _ _ _). destruct (upsert_folder_there fi (view w) Ha) as (fid & d' & E & Hnew & Hold & Eacc & Eimp & _).
  apply succeeds_bnd. eapply runs_write; [done|exact E|]. intros w' Efs _ Ev Hf'.
  eapply succeeds_mono.
  { apply (IH (dict_set raw fid ids) w' Hf'). split; [congruence|..]; unfold account_there, import_there in *; rewrite Ev, ?Eacc, ?Eimp; try done.
    intros k i [[-> ->]|Hk]%elem_of_dict_set; [done|]. by eapply Hold, Hfo. }
  intros ids' w2 (Hr & Hk & Hl) _. split; [done|].
  assert (forall k, k ∈ (dict_set raw fid ids).*1 <-> k = raw \/ k ∈ ids.*1) as Hset.
  { intros k. rewrite dict_set_keys. destruct (mem raw ids.*1) eqn:Em; [apply mem_true in Em|]; set_solver. }
  split; [intros k Hin; apply Hk, Hset; by right|]. intros x raw' [->|Hx]%elem_of_cons Hen; [|by eapply Hl].
  destruct Hen as (f' & ? & [= <-] & Er' & _). apply Hk, Hset. left. congruence.
Qed.

Lemma runs_verified path hash w : faultless w -> fs w = fs w0 -> is_ok (resolve_inside root path) = true ->
  succeeds (verified root path hash) (fun o w' => fs w' = fs w0 /\ view w' = view w
    /\ (is_hash hash = true -> verified_file root w0 path hash -> is_Some o)) w.
Proof.
  intros Hfl Hs Hr. destruct (resolve_inside root path) as [l|] eqn:El; [|done]. clear Hr.
  unfold verified, mtry, mbnd, read_verified. destruct (is_hash hash) eqn:Eh; cbn [negb].
  2:{ eexists None, w. split; [done|]. split; [done|]. split; [done|]. split; [done|]. by intros. }
  unfold file_at, mlift, mbnd. rewrite El. cbn [rbind]. unfold read_bytes, io. unfold succeeds. cbv beta iota. rewrite Hfl.
  assert (faultless (tick w)) as Hft by done. change (read_file (join l) (tick w)) with (read_file (join l) w).
  destruct (read_file (join l) w) as [c|] eqn:Ec.
  2:{ eexists None, (tick w). do 4 (split; [done|]). intros _ (l' & c & El' & Ec' & _). rewrite El in El'.
      injection El' as <-. unfold read_file in *. congruence. }
  destruct (hexdigest c == fold_hash hash) eqn:Ed; [eexists (Some c), (tick w); do 4 (split; [done|]); by eexists|].
  eexists None, (tick w). do 4 (split; [done|]). intros _ (l' & c' & El' & Ec' & Ed'). rewrite El in El'. injection El' as <-.
  unfold read_file in *. assert (c' = c) as -> by congruence. by rewrite Ed', Prelude.eqb_refl in Ed.
Qed.

(** The row of an item. *)
Definition item_row (key path hash : string) : message :=
  mr_row (generation_row account key path hash 0 [] empty_parsed (mem key (ge_purged g)) (st_active s)).
Lemma restored_holds key path hash d : restored_item key path hash d <-> holds_row (item_row key path hash) d.
Proof.
  unfold restored_item, holds_row, item_row, row_data. cbn. split; intros (m & Hm & H); exists m; (split; [done|]).
  - destruct H as (-> & -> & -> & H). by destruct (mem _ _), H as [-> ->].
  - injection H as -> -> -> -> ->. by destruct (mem _ _).
Qed.
Definition item_done (key : string) (found : event) (d : Db) : Prop :=
  forall path hash, restorable_item key found path hash -> restored_item key path hash d.
Lemma done_same k f d d' : messages d' = messages d -> item_done k f d -> item_done k f d'.
Proof. intros E H path hash Hr. destruct (H path hash Hr) as (m & Hm). exists m. by rewrite E. Qed.

Context (ids : list (string * Z)) (id : Z)
  (Hnames : forall x raw, x ∈ folders_json -> folder_entry x raw -> raw ∈ ids.*1).

Lemma item_source_complete key found path hash : restorable_item key found path hash -> is_Some (item_source g ids key found).
Proof using Hnames.
  intros (saved & folder & x & Es & Ep & Eh & Ef & Hx & He & [rel Er] & [sh Esh] & _). unfold item_source.
  rewrite Es, Ef, Er, Esh, Ep, Eh. destruct (dict_get folder ids) eqn:E; [by eexists|].
  apply dict_get_None in E. by destruct (E (Hnames _ _ Hx He)).
Qed.
(** What one more item changes. *)
Definition item_step (key : string) (found : event) (c : counters) (w : World) (c' : counters) (w' : World) : Prop :=
  running ids id w' /\ (co_messages c' + co_skipped c' = co_messages c + co_skipped c + 1)%Z
  /\ (forall k f, item_done k f (view w) -> item_done k f (view w')) /\ item_done key found (view w').
Lemma item_source_folder key found saved folder fid rel sh path hash :
  item_source g ids key found = Some (saved, folder, fid, rel, sh, path, hash) -> (folder, fid) ∈ ids.
Proof. unfold item_source. repeat (case_match; try done). intros [= <- <- <- <- <- <- <-]. by apply dict_get_In. Qed.
(** The statements of an item that is restored. *)
Lemma runs_rows key found saved folder fid rel sh path hash y contents (item : Z -> pst_item) w c n :
  faultless w -> running ids id w -> item_source g ids key found = Some (saved, folder, fid, rel, sh, path, hash) ->
  (forall mid, it_import_id (item mid) = id /\ it_message_row_id (item mid) = Some mid) ->
  (co_messages n + co_skipped n = co_messages c + co_skipped c + 1)%Z ->
  succeeds (let! mid := db_write (add_pst_message normalize (generation_row account key path hash fid saved y
                                   (mem key (ge_purged g)) (st_active s)) contents) in
            db_update' (upsert_import_item (item mid)) ;! mret n)
    (fun c' w' => item_step key found c w c' w') w.
Proof using Hready.
  intros Hf [Hfs Ha Hi Hfo] Es Hitem Hn. set (r := generation_row _ _ _ _ _ _ _ _ _).
  pose proof (item_source_folder _ _ _ _ _ _ _ _ _ Es) as Hfid. apply item_source_spec in Es as (Es & Ep & Eh).
  destruct (add_row_there normalize r eq_refl contents (view w) eq_refl Ha (Hfo _ _ Hfid) eq_refl)
    as (mid & d1 & E1 & [m Hm] & Hrow & Hkeep & Eacc & Eimp & Efol).
  assert (row_data (mr_row r) = row_data (item_row key path hash)) as Edata by done.
  assert (forall k f, item_done k f (view w) -> item_done k f d1) as Hstep.
  { intros k f Hd path' hash' Hr. apply restored_holds, Hkeep; [by apply restored_holds, Hd|].
    intros [_ Ek%eqb_true_1]%andb_true_iff. cbn in Ek. subst k. destruct Hr as (saved' & _ & _ & Es' & Ep' & Eh' & _).
    rewrite Es in Es'. injection Es' as <-. rewrite Ep in Ep'. injection Ep' as <-. rewrite Eh in Eh'. injection Eh' as <-. done. }
  assert (item_done key found d1) as Hdone.
  { intros path' hash' Hr. destruct Hr as (saved' & _ & _ & Es' & Ep' & Eh' & _).
    rewrite Es in Es'. injection Es' as <-. rewrite Ep in Ep'. injection Ep' as <-. rewrite Eh in Eh'. injection Eh' as <-.
    apply restored_holds. exact Hrow. }
  apply succeeds_bnd. eapply runs_write; [done|exact E1|]. intros w1 Efs _ Ev Hf1.
  destruct (Hitem mid) as [Eid Emid].
  assert (exists d2, upsert_import_item (item mid) d1 = Ok d2 /\ messages d2 = messages d1 /\ accounts d2 = accounts d1
    /\ pst_imports d2 = pst_imports d1 /\ folders d2 = folders d1) as (d2 & E2 & Em2 & Ea2 & Ei2 & Ef2).
  { unfold upsert_import_item. unfold import_there in Hi. rewrite Eid, Emid, Eimp, Hi, Hm. cbn [check rbind andb].
    eexists. split; [reflexivity|]. by destruct (existsb (same_item _) _). }
  apply succeeds_bnd. eapply runs_update; [done|by rewrite Ev|]. intros w2 Efs2 _ Ev2 Hf2.
  apply succeeds_ret; [done|]. unfold item_step. rewrite Ev2. split_and!; [|done|..].
  - split; [congruence|..]; unfold account_there, import_there in *; rewrite ?Ev2, ?Ea2, ?Ei2, ?Eacc, ?Eimp; try done.
    intros k i Hk. unfold folder_there, folder_with. rewrite Ef2, Efol. by apply (Hfo k).
  - intros k f Hd. by eapply done_same, Hstep.
  - by eapply done_same.
Qed.
Lemma runs_item key found c w : faultless w -> running ids id w ->
  succeeds (rebuild_item root never parse normalize account id g (st_active s) ids (key, found) c)
    (fun c' w' => item_step key found c w c' w') w.
Proof using Hready Hnames.
  intros Hf Hw. unfold rebuild_item. apply succeeds_bnd, run_check_cancel; [done|].
  assert (forall w', fs w' = fs w0 -> view w' = view w -> faultless w' -> (forall path hash, ~ restorable_item key found path hash) ->
    succeeds (mret (skipped c)) (fun c' w' => item_step key found c w c' w') w') as Hskip.
  { intros w' Efs Ev Hf' Hno. apply succeeds_ret; [done|]. unfold item_step. rewrite Ev. split_and!; [|cbn; lia|done|].
    - destruct Hw as [H1 H2 H3 H4]. by split; rewrite ?Ev.
    - intros path hash Hr. by destruct (Hno path hash). }
  destruct (item_source g ids key found) as [[[[[[[saved folder] fid] rel] sh] path] hash]|] eqn:Es.
  2:{ apply Hskip; [apply Hw|done|done|]. intros path hash Hr. destruct (item_source_complete _ _ _ _ Hr). congruence. }
  pose proof (item_source_spec _ _ _ _ _ _ _ _ _ _ _ Es) as (Egs & Ep & Eh). cbv zeta.
  apply succeeds_bnd. eapply succeeds_mono with (P := fun (o : option bytes) w' => fs w' = fs w0 /\ view w' = view w
    /\ (mem key (ge_purged g) = false -> is_hash hash = true -> verified_file root w0 path hash -> is_Some o)).
  { destruct (mem key (ge_purged g)); [apply succeeds_ret; [done|]; split_and!; [apply Hw|done|done]|].
    eapply succeeds_mono; [apply runs_verified; [done|apply Hw|by eapply (rg_paths Hready)]|]. intros o w' (? & ? & ?) _. done. }
  intros raw w1 (Efs & Ev & Hraw) Hf1.
  destruct (negb (mem key (ge_purged g)) && (if raw is None then true else false)) eqn:En.
  { apply Hskip; try done. intros path' hash' (saved' & _ & _ & Es' & Ep' & Eh' & _ & _ & _ & _ & _ & Hv).
    rewrite Egs in Es'. injection Es' as <-. rewrite Ep in Ep'. injection Ep' as <-. rewrite Eh in Eh'. injection Eh' as <-.
    destruct (mem key (ge_purged g)) eqn:Epu; [done|]. destruct Hv as [|[Hh Hv]]; [done|].
    destruct (Hraw eq_refl Hh Hv) as [? ->]. done. }
  apply succeeds_bnd.
  assert (exists y, match raw with Some b => mlift (parse b None) | None => mret empty_parsed end w1 = (Ok y, w1)) as [y Ey].
  { destruct raw as [b|]; [|by eexists]. pose proof (rg_parse Hready b) as Hp. unfold mlift. destruct (parse b None); [by eexists|done]. }
  exists y, w1. split; [done|]. split; [done|].
  assert (running ids id w1) as Hw1.
  { destruct Hw as [H1 H2 H3 H4]. by split; rewrite ?Ev. }
  eapply succeeds_mono; [eapply (runs_rows key found) with (c := c); [done|exact Hw1|exact Es|done|]|].
  { cbn. lia. }
  intros c' w' H _. unfold item_step in *. by rewrite <- Ev.
Qed.
Lemma runs_items l : forall c w, faultless w -> running ids id w ->
  succeeds (rebuild_items root never parse normalize account id g (st_active s) ids l c)
    (fun c' w' => (co_messages c' + co_skipped c' = co_messages c + co_skipped c + Z.of_nat (length l))%Z
       /\ (forall k f, item_done k f (view w) -> item_done k f (view w'))
       /\ forall k f, (k, f) ∈ l -> item_done k f (view w')) w.
Proof using Hready Hnames.
  induction l as [|[key found] l IH]; intros c w Hf Hw; cbn [rebuild_items].
  { apply succeeds_ret; [done|]. split_and!; [cbn; lia|done|]. by intros k f Hk%elem_of_nil. }
  apply succeeds_bnd. eapply succeeds_mono; [by apply runs_item|]. intros c1 w1 (Hr & Hc & Hkeep & Hdone) Hf1.
  eapply succeeds_mono; [by apply IH|]. intros c2 w2 (Hc2 & Hkeep2 & Hdone2) _. split_and!.
  - cbn [length]. lia.
  - intros k f Hk. by apply Hkeep2, Hkeep.
  - intros k f [[= -> ->]|Hk]%elem_of_cons; [by apply Hkeep2|by apply Hdone2].
Qed.
End Generation.

Lemma runs_io {A} (f : World -> result A * World) a w : faultless w -> f (tick w) = (Ok a, tick w) ->
  succeeds (io f) (fun b w' => b = a /\ w' = tick w) w.
Proof. intros Hf E. apply succeeds_io; [done|]. by exists a, (tick w). Qed.
Lemma text_nonempty name e t : text name e = Some t -> t <> "".
Proof. unfold text, nonempty. destruct (text_of name e) as [x|]; [|done]. case_match; [done|]. intros [= ->] ->. done. Qed.
Lemma runs_audit account snapshot l : forall w, faultless w ->
  succeeds (write_pst_audit account snapshot l) (fun _ w' => messages (view w') = messages (view w)) w.
Proof.
  induction l as [|e l IH]; intros w Hf; cbn [write_pst_audit]; [by apply succeeds_ret|]. apply succeeds_bnd.
  destruct (audit_operation e) as [op|]; [|by apply succeeds_ret, IH].
  eapply runs_update; [done|reflexivity|]. intros w' _ _ Ev Hf'. eapply succeeds_mono; [by apply IH|].
  intros ? w2 E _. by rewrite E, Ev.
Qed.

(** C9. An undisturbed rebuild of a PST generation is complete: without faults and without cancellation,
    from snapshots and an event log as [restorable_generation] describes them, [reindex_pst] returns;
    every item discovered is counted as a message or as skipped; and every item whose file is still
    there with its hash, or that was purged, has its row, with its path and in the state of its
    generation, or purged without a path. *)
Theorem pst_rebuild_complete root parse normalize dir s w snapshot folders_json account uuid filename sha :
  faultless w -> restorable_generation root parse dir s w snapshot folders_json account uuid filename sha ->
  let g := generation_of (pl_synced (log_of dir w)) in
  exists r w', reindex_pst root never parse normalize dir s w = (Ok r, w')
    /\ (ri_messages r + ri_skipped r = Z.of_nat (length (ge_discovered g)))%Z
    /\ forall key found path hash, (key, found) ∈ ge_discovered g ->
         restorable_item root dir w folders_json key found path hash ->
         restored_item dir s w account key path hash (view w').
Proof.
  intros Hf Hr g.
  enough (succeeds (reindex_pst root never parse normalize dir s) (fun r w' =>
    (ri_messages r + ri_skipped r = Z.of_nat (length (ge_discovered g)))%Z
    /\ forall key found, (key, found) ∈ ge_discovered g -> item_done root dir s w folders_json account key found (view w')) w)
    as (r & w' & E & _ & Hc & Hd) by (exists r, w'; split_and!; [done..|]; intros key found path hash Hin; by apply Hd).
  pose proof Hr as [Hsnap Hfold Hent Hacc Hu [disp Hdisp] Hfn Hsha Hitems _ _ Hnew Hrep].
  unfold reindex_pst. apply succeeds_bnd. eapply succeeds_mono.
  { apply succeeds_try, (runs_io _ snapshot); [done|]. by rewrite <- Hsnap. }
  intros ? ? [-> ->] Hf1. apply succeeds_bnd. eapply succeeds_mono.
  { apply succeeds_try, (runs_io _ folders_json); [done|]. by rewrite <- Hfold. }
  intros ? ? [-> ->] Hf2. apply succeeds_bnd. eapply succeeds_mono.
  { apply (runs_io _ (pl_synced (log_of dir w))); [done|]. change (log_of dir (tick (tick (tick w)))) with (log_of dir w).
    subst g. by destruct (pl_synced (log_of dir w)). }
  intros ? ? [-> ->] Hf3. rewrite Hacc, Hu, Hdisp, Hfn, Hsha. fold g. cbv zeta. rewrite bool_decide_false by done.
  destruct (upsert_account_there (Account account "pst_import" (Some disp) (Some "") (Some 993%Z) (Some filename) true "implicit" None "password" None None None) (view w))
    as (d1 & E1 & Ha1 & Ei1 & _); [by apply (text_nonempty _ _ _ Hacc)|done|].
  apply succeeds_bnd. eapply runs_write; [done|exact E1|]. intros w1 Efs1 _ Ev1 Hf4.
  destruct (create_import_there (generation_import snapshot account uuid filename sha g s) d1) as (d2 & E2 & Hi2 & Ea2 & _);
    [by rewrite Ei1|done|intros o Ho; unfold import_there; rewrite Ei1; by apply Hrep|]. set (id := next_import_id d1) in *.
  apply succeeds_bnd. eapply runs_write; [done|by rewrite Ev1|]. intros w2 Efs2 _ Ev2 Hf5.
  assert (running w account [] id w2) as Hrun.
  { split; rewrite ?Ev2; [by rewrite Efs2, Efs1|unfold account_there in *; by rewrite Ea2|done|]. by intros raw i Hn%elem_of_nil. }
  apply succeeds_bnd. eapply succeeds_mono; [by eapply runs_folders|]. intros ids w3 (Hrun3 & _ & Hnames) Hf6.
  apply succeeds_bnd. eapply succeeds_mono.
  { by eapply runs_items. }
  intros c w4 (Hc & _ & Hdone) Hf7. apply succeeds_bnd. eapply succeeds_mono; [by apply runs_audit|]. intros ? w5 Em Hf8.
  apply succeeds_ret; [done|]. split; [cbn in *; lia|]. intros key found Hin path hash Hitem.
  destruct (Hdone key found Hin path hash Hitem) as (m & Hm & H). exists m. by rewrite Em.
Qed.

(** ** Examples *)

Definition lost_generation : generation := Eval vm_compute in generation_of (pl_synced (log_of sample_uuid lost_import)).
Definition or_nil {A} (r : result (list A)) : list A := match r with Ok l => l | Err _ => [] end.
Definition lost_snapshot : event := Eval vm_compute in or_nil (read_import_manifest (pl_import (log_of sample_uuid lost_import))).
Definition lost_folders : list json :=
  Eval vm_compute in or_nil (read_folders_manifest (World.pl_folders (log_of sample_uuid lost_import))).
Definition lost_item : string * event := Eval vm_compute in List.hd ("", []) (ge_discovered lost_generation).
Lemma saved_paths root g :
  forallb (fun x => match text "final_relative_path" x.2 with Some p => is_ok (resolve_inside root p) | None => true end) (ge_saved g) = true ->
  forall key saved path, dict_get key (ge_saved g) = Some saved -> text "final_relative_path" saved = Some path ->
    is_ok (resolve_inside root path) = true.
Proof.
  intros H key saved path Hs%dict_get_In%list_elem_of_In Hp. rewrite List.forallb_forall in H. specialize (H _ Hs).
  cbn [snd] in H. by rewrite Hp in H.
Qed.
Lemma lost_restorable : restorable_generation ["root"] (fun _ _ => Ok sample_parsed) sample_uuid sample_standing lost_import
  lost_snapshot lost_folders "pst_a" sample_uuid "a.pst" sample_sha.
Proof.
  split; try (vm_compute; reflexivity).
  - apply Forall_singleton. by eexists _, _, _.
  - by eexists.
  - by vm_compute.
  - apply saved_paths. vm_compute. reflexivity.
  - by intros i Hi%elem_of_nil.
  - done.
Qed.
Definition lost_saved : event := Eval vm_compute in (List.hd ("", []) (ge_saved lost_generation)).2.
Definition lost_folder : json := Eval vm_compute in List.hd JNull lost_folders.
Lemma lost_item_restorable : restorable_item ["root"] sample_uuid lost_import lost_folders lost_item.1 lost_item.2
  "eml/pst_a/unknown/32a13a2d499896e0373419a06ee305bc.eml"
  "32a13a2d499896e0373419a06ee305bcf1fee744219884a5570362306865b902".
Proof.
  exists lost_saved, "Inbox", lost_folder. do 4 (split; [vm_compute; reflexivity|]).
  split; [apply list_elem_of_In; left; reflexivity|].
  split; [eexists _, "Inbox"; split; [reflexivity|]; split; vm_compute; reflexivity|].
  do 2 (split; [eexists; vm_compute; reflexivity|]). right. split; [vm_compute; reflexivity|].
  exists ["eml"; "pst_a"; "unknown"; "32a13a2d499896e0373419a06ee305bc.eml"], (eml 1).
  split; [vm_compute; reflexivity|]. split; vm_compute; reflexivity.
Qed.
Lemma pst_rebuild_complete_witness : exists r w',
  reindex_pst ["root"] never (fun _ _ => Ok sample_parsed) (fun t => t) sample_uuid sample_standing lost_import = (Ok r, w')
  /\ restored_item sample_uuid sample_standing lost_import "pst_a" lost_item.1
       "eml/pst_a/unknown/32a13a2d499896e0373419a06ee305bc.eml"
       "32a13a2d499896e0373419a06ee305bcf1fee744219884a5570362306865b902" (view w').
Proof.
  destruct (pst_rebuild_complete ["root"] (fun _ _ => Ok sample_parsed) (fun t => t) sample_uuid sample_standing lost_import
    lost_snapshot lost_folders "pst_a" sample_uuid "a.pst" sample_sha) as (r & w' & E & _ & H).
  - intros n. reflexivity.
  - exact lost_restorable.
  - exists r, w'. split; [exact E|]. apply (H _ lost_item.2).
    + apply list_elem_of_In. vm_compute. by left.
    + exact lost_item_restorable.
Defined.
Close Scope string_scope.
